(* ===== verification/_CoqProject ===== *)
-Q . S2P
Prelude.v
PyStr.v
Json.v
Sha256.v
IpNet.v
IpCollapse.v
PyValue.v
Ipam.v
FreeSpace.v
SubnetBoundary.v
Utilization.v
Resize.v
SubnetSplit.v
SubnetMerge.v
Mac.v
DnsNames.v
BindCheckNames.v
Permissions.v
PermissionGates.v
DnsTxt.v
FkGraph.v
UpgradeLease.v
Serial.v
Lockout.v
Rrset.v
CnameRule.v
Svcb.v
ZoneDiff.v
AuditChain.v
TokenScopes.v
Approvals.v
ApprovalPolicy.v
Spool.v
FreeCidrs.v
TreeCreate.v
AddressSets.v
NextIp.v
SoftDelete.v
DhcpOptions.v
KeaOptions.v
