(* ===== verification/Prelude.v ===== *)
(** * SpatiumDDI: a verification development

    SpatiumDDI is a DDI control plane (DNS, DHCP, IP address management): a
    FastAPI / SQLAlchemy backend ([backend/app]) that holds the data, decides
    who may change it and renders it for agents and vendor drivers.  This
    development models the parts of the backend that decide, in the order in
    which a request meets them, and proves what they promise.

    ** The files

    - [Prelude] (this file): the [result] monad of code that raises, list
      lemmas, automation.  [PyStr]: Python's [str] on Latin-1 characters.
      [Json]: JSON values and [json.dumps]; [PyValue]: Python's [str], [==],
      [int] and [ipaddress.ip_address] on such values; [Sha256]:
      [hashlib.sha256].
    - Names.  [Mac] ([core/mac.py]), [DnsNames] ([core/dns_names.py]: the
      validators, the length rules, the sanitisers of mirrored names) and
      [BindCheckNames] (same file: what BIND's check-names refuses, the SOA
      fields, the publish check of an address's host record).  A validator is
      a function into [result name_error str]; its [Err] is the [ValueError].
    - Who may do what.  [Permissions] ([core/permissions.py], decisions: RBAC
      grants, the narrowing by an API token, the list a caller sees of its own
      grants, the ceiling on delegated grants) and [PermissionGates] (the
      request half: HTTP method to action, route keys, the [require_*]
      dependency factories, the audit row of a refusal).  [TokenScopes]
      ([services/api_token_scopes.py]: the gate of a scoped API token and the
      issuing of one).  [Lockout] ([services/account_lockout.py]): failed
      logins and the wrong-code budget of the second factor.
    - Changes that need a second person.  [Approvals]
      ([services/approvals/service.py], the decision endpoints and the expiry
      sweep: the life of a change request) and [ApprovalPolicy]
      ([services/approvals/policy.py], [gate.py],
      [services/ai/operations_control.py]: which changes need one, and the
      control plane that can switch this off).  [AuditChain]
      ([services/audit_chain.py], [tasks/audit_chain_verify.py]): the hash
      chain of the audit log.
    - DNS data.  [DnsTxt] ([drivers/dns/_txt.py]: character-strings and their
      presentation form), [Serial] ([services/dns/serial.py]), [Rrset]
      ([services/dns/rrset.py]: the complete RRset stamped on every record
      operation of a batch), [CnameRule] ([services/dns/cname_conflict.py],
      [services/dns_import/cname_check.py]), [ZoneDiff]
      ([services/dns_io/diff.py]: a zone-file import against the live rows; it
      calls [DnsTxt] and [Svcb] for canonical values and [CnameRule] for what
      it may create), [Svcb] ([services/technitium/rdata.py]: SVCB and HTTPS
      values as written, as compared and as sent to Technitium).
    - Address management.  [IpNet] (Python's [ipaddress]: networks, overlap,
      containment, enumeration), [IpCollapse] (its [collapse_addresses]), [Ipam] (the rows of [models/ipam.py], the
      block tree and its invariant [tree_ok]), [FreeSpace]
      ([services/ipam/free_space.py]), [SubnetBoundary]
      ([services/ipam/subnet_boundary.py]: network and broadcast rows),
      [Utilization] ([services/ipam/utilization.py] and the recounts of
      [api/v1/ipam/router.py]), [Resize] ([services/ipam/resize.py]:
      preview and commit of a growing CIDR; it calls the two before it),
      [SubnetSplit] ([services/ipam/subnet_split.py]) and [SubnetMerge]
      ([services/ipam/subnet_merge.py]); both use
      [services/ipam/subnet_carry.py].  [FreeCidrs], [TreeCreate] and [NextIp]
      are handlers of [api/v1/ipam/router.py]: the free CIDRs of a block, the
      creation of blocks and subnets (with [services/ipam/gateway_rules.py] and
      [subnet_placeholders.py]), the addresses handed out (with
      [services/ipam/address_create_rules.py]).  [AddressSets]
      ([api/v1/address_sets/router.py], [services/ipam/address_set_gate.py]):
      the ranges whose writing is delegated.  [SoftDelete]
      ([services/soft_delete.py], [services/ipam/orphan_aliases.py], the
      overlap check of [api/v1/dhcp/scopes.py]): the cascade to the Trash and
      the restore of a batch, over one table of soft-deletable rows.
    - DHCP options.  [DhcpOptions] ([services/dhcp/option_validation.py],
      [option_spelling.py]): which names, values and spellings a write may
      store, and what of them a dual class, a phone profile or an import
      carries on; it calls [DnsNames] for the domain options.  [KeaOptions]
      ([agent/dhcp/spatium_dhcp_agent/render_kea.py], [drivers/dhcp/kea.py]):
      the same mappings on their way into Kea's [option-data].
    - Maintenance.  [FkGraph] ([services/factory_reset/fk_graph.py]: what a
      wipe removes, in which order), [UpgradeLease]
      ([services/upgrades/mutex.py] over the Lease calls of
      [services/appliance/k8s.py]: one upgrade driver at a time), [Spool]
      ([agent/dns/spatium_dns_agent/spool.py] and
      [services/agents/ingest_receipt.py]: an agent's batches reach the control
      plane once, in order).

    ** State and effects

    Pure code is functions.  Code that reads the database takes the live rows
    as a list in query order (soft-deleted rows are filtered by the session and
    never reach it); code that mutates rows returns the new rows.  Worklists
    and fixed points ([FkGraph], [DnsTxt]) recurse on fuel; the fuel is computed
    from the input, and every theorem about them states the result itself, so
    that a run out of fuel would contradict it.  The upgrade lease is
    concurrent: its operations are trees of clock readings and API requests
    ([prog]), a run interleaves the trees of any number of drivers request by
    request, and the API server is an interface ([KubeApi]) with the
    documented law of [resourceVersion], discharged by an in-memory instance.
    The spool's methods are such trees too; [Spool.run] may stop one at any
    point, and [Spool.wp] is what holds at every point.  The decisions on a
    change request run under its row lock, one function per stretch between two
    commits; [Approvals.step] and [ApprovalPolicy.site_step] put the sessions
    together.  A handler of the IPAM router returns the new tables or the
    refusal it answers.  A clock is an argument; instants are microseconds; 32-bit serials keep
    their width.

    ** What the theorems show

    - Safety of shared state: mutual exclusion of upgrade drivers under loss of
      requests and clock skew; a zone import touches only its own rows; a wipe
      is never refused by a key it could have ordered; no wire name can break
      out of its zone-file line; a token only narrows its owner; nobody grants
      what he does not hold; a delegated writer stays within the ranges that
      subnet owners delegated; an operation under approval is applied only when
      a second person approved it, and nobody lifts that rule alone but a
      superadmin's break-glass on the record; a scoped token is let into the
      surface of its scopes and nowhere else; two audit logs that verify and end in the same hash are the same log, or SHA-256
      collides.
    - Nothing is lost on the way to an agent or to the Trash: what the check of
      DHCP options accepts the agent renders, one entry per option, with a
      definition for every code, and of the type Kea reads but for scope signs
      and the spellings of integers only Python's [int] takes; a delete stamps exactly what hangs from
      its roots, a restore is all or nothing and keeps live rows consistent,
      and a delete followed by its restore is the identity where nothing it hangs
      from is in the Trash and no live CIDR is doubled.
    - The agents' batches: each ends up ingested once, or still queued, or
      written off with a reason, and once the control plane answers again the
      backlog drains.
    - Exactness: the cascade closure, the truncatable set, the CNAME rule and
      its database twin, the introspection list, the sanitisers, when an account
      is locked (failures chain, where the documents tell of a rolling window),
      the record set a batch of operations ships (by its holders: one twin can
      be lost, as [Rrset.twin_lost_in_batch] shows).
    - Round trips: TXT values, MAC spellings, a zone's own export; one form for
      every spelling of an SVCB value.
    - Bounds: serials advance in RFC 1982 order and never reach 0; TTLs stay
      servable; names stay within the wire limits; a second-factor budget holds
      over any quarter of an hour.
    - The address tree.  [Ipam.tree_ok] says that every live block hangs below
      a top-level one, inside its parent and clear of its siblings, and every
      live subnet in its block, clear of the rest.  The finder offers exactly
      the free slots, and what it offers can be created; a growth is accepted
      exactly when it keeps the tree (for a subnet, below at most 64 blocks,
      the depth its walk is capped at), and its preview says so beforehand; a
      growth loses no named row and keeps addresses distinct; a recount makes
      the counters true, and a block's counter is the number of distinct
      addresses in use below it.  A committed split or merge changes the table of
      subnets by exactly the rows it replaces and adds, keeps the tree,
      carries every row along and cuts no DHCP scope; [collapse_addresses]
      answers one network exactly when the inputs tile it, and merging the
      children of a split answers the network that was split.  A block or
      subnet is created exactly when it fits the tree; an allocation takes the
      lowest free slot, unless a reservation still points at it; an address
      handed out was free, and every refusal has its reason; what is refused
      leaves the tables alone.

    ** Parameters

    Code outside the repository is a parameter: [idna.encode],
    [str.isprintable], what [DhcpOptions] uses of floats ([PyFloat]) and the
    API server.  The ids that the database hands to new rows are the argument
    [new_id] of [SubnetSplit]; that they are fresh is a hypothesis ([ids_ok]).  The columns of a subnet a
    merge only compares for equality are the argument [attr] of [SubnetMerge].
    What PostgreSQL reads or keeps of a text is [pg_cidr] of [TreeCreate],
    [pg_inet] of [AddressSets], what its columns refuse [pg_stores] of [NextIp],
    and the class [Jsonb] of [AuditChain]; the
    registry of operations and what one answers are [get_operation] and
    [Answers] of [Approvals]; an unordered query answers any permutation
    ([ApprovalPolicy]); fresh ids and the draws of [random] and [secrets] are
    arguments of [TreeCreate] and [NextIp].
    Theorems hold for every value of a parameter unless a hypothesis says
    otherwise.

    ** What is not modelled

    Of the HTTP routers only the handlers named above; the ORM models beyond
    the columns named above; vendor drivers, the agents but for the spool, the
    frontend and deployment files: I/O around the decisions.  DNS records a
    handler writes beside its own rows (but not the names it refuses to
    publish, which [NextIp] has), custom fields, templates and VLANs are
    left out of the IPAM handlers, as each file says.  Of the renderer of Kea's config only
    the options: subnets, pools, reservations and daemon settings around them
    are left out. *)
From stdpp Require Export base tactics list strings gmap sets sorting.
From Stdlib Require Export Ascii ZArith Lia.

#[export] Set Default Goal Selector "!".

(** ** Results of fallible code

    Python code that raises is modelled by [result E A]: [Err e] carries the
    exception (an inductive type per component), [Ok a] the returned value. *)
Inductive result (E A : Type) : Type :=
| Ok (a : A)
| Err (e : E).
Arguments Ok {E A} a.
Arguments Err {E A} e.

#[export] Instance result_ret E : MRet (result E) := fun A a => Ok a.
#[export] Instance result_bind E : MBind (result E) := fun A B f r =>
  match r with Ok a => f a | Err e => Err e end.
#[export] Instance result_fmap E : FMap (result E) := fun A B f r =>
  match r with Ok a => Ok (f a) | Err e => Err e end.

Definition is_ok {E A} (r : result E A) : bool :=
  match r with Ok _ => true | Err _ => false end.

(** [guard_err b e] raises [e] when [b] holds (an [if b: raise e] statement). *)
Definition raise_if {E} (b : bool) (e : E) : result E unit :=
  if b then Err e else Ok tt.

(** The comprehension [[f(x) for x in l]] where [f] may raise: the first
    exception, in list order, ends it. *)
Fixpoint map_result {E A B} (f : A → result E B) (l : list A) : result E (list B) :=
  match l with
  | [] => Ok []
  | x :: l' => y ← f x; ys ← map_result f l'; Ok (y :: ys)
  end.

(** ** Automation *)
Create HintDb spatium.

(** Split the boolean connectives in the context into propositions. *)
Ltac bool_hyps :=
  repeat match goal with
  | H : (_ && _)%bool = true |- _ => apply andb_true_iff in H; destruct H
  | H : (_ || _)%bool = false |- _ => apply orb_false_iff in H; destruct H
  | H : negb _ = true |- _ => apply negb_true_iff in H
  | H : negb _ = false |- _ => apply negb_false_iff in H
  | H : bool_decide _ = true |- _ => apply bool_decide_eq_true in H
  | H : bool_decide _ = false |- _ => apply bool_decide_eq_false in H
  end.

(** Case analysis on the test of the leading [if] / [match] of a hypothesis. *)
Ltac case_in H :=
  match type of H with
  | context [match ?x with _ => _ end] =>
      let E := fresh "E" in destruct x eqn:E; simpl in H; try discriminate H
  end.

(** Case analysis on the leading test of the goal. *)
Ltac case_goal :=
  match goal with
  | |- context [match ?x with _ => _ end] =>
      let E := fresh "E" in destruct x eqn:E; simpl
  end.

(** Decide a statement about the 256 characters by evaluating it on each. *)
Ltac each_ascii c := destruct c as [[] [] [] [] [] [] [] []].

(** ** Lists *)
Section lists.
Context {A : Type}.
Implicit Types (l : list A) (p q : A → bool).

Lemma forallb_Forall p l : forallb p l = true ↔ Forall (λ x, p x = true) l.
Proof.
  rewrite List.forallb_forall, List.Forall_forall. reflexivity.
Qed.

Lemma forallb_app_iff p l1 l2 :
  forallb p (l1 ++ l2) = true ↔ forallb p l1 = true ∧ forallb p l2 = true.
Proof. rewrite List.forallb_app, andb_true_iff. reflexivity. Qed.

Lemma forallb_impl p q l :
  (∀ x, p x = true → q x = true) → forallb p l = true → forallb q l = true.
Proof. intros Hpq. rewrite !forallb_Forall. intros H. eapply Forall_impl; eauto. Qed.

Lemma forallb_elem p l x : forallb p l = true → x ∈ l → p x = true.
Proof. rewrite List.forallb_forall, list_elem_of_In. auto. Qed.

Lemma existsb_elem p l : existsb p l = true ↔ ∃ x, x ∈ l ∧ p x = true.
Proof. rewrite List.existsb_exists. setoid_rewrite list_elem_of_In. done. Qed.

Lemma existsb_none p l : existsb p l = false ↔ ∀ x, x ∈ l → p x = false.
Proof.
  rewrite <- not_true_iff_false, existsb_elem. split.
  - intros H x Hx. apply not_true_iff_false. naive_solver.
  - intros H (x & Hx & Hp). specialize (H x Hx). congruence.
Qed.

Lemma forallb_elem_iff p l : forallb p l = true ↔ ∀ x, x ∈ l → p x = true.
Proof. rewrite List.forallb_forall. setoid_rewrite list_elem_of_In. done. Qed.

(** [dropwhile p l]: [l] without its longest prefix satisfying [p]. *)
Fixpoint dropwhile p l : list A :=
  match l with
  | [] => []
  | x :: l' => if p x then dropwhile p l' else l
  end.

Lemma dropwhile_id p l : (∀ x l', l = x :: l' → p x = false) → dropwhile p l = l.
Proof. destruct l as [|x l']; [done|]. intros H. simpl. by rewrite (H x l'). Qed.

Lemma dropwhile_head p l x l' : dropwhile p l = x :: l' → p x = false.
Proof. induction l as [|y l IH]; [done|]; simpl. destruct (p y) eqn:E; naive_solver. Qed.

Lemma dropwhile_suffix p l : ∃ l0, l = l0 ++ dropwhile p l ∧ forallb p l0 = true.
Proof.
  induction l as [|y l (l0 & IH & Hp)]; [by exists []|]; simpl.
  destruct (p y) eqn:E; [|by exists []].
  exists (y :: l0). simpl. rewrite E, Hp. by rewrite <- IH.
Qed.

Lemma dropwhile_forallb p q l : forallb q l = true → forallb q (dropwhile p l) = true.
Proof.
  intros H. destruct (dropwhile_suffix p l) as (l0 & Hl & _).
  rewrite Hl in H. by apply forallb_app_iff in H as [_ ?].
Qed.

Lemma dropwhile_all p l : dropwhile p l = [] ↔ forallb p l = true.
Proof.
  split; intros H.
  - destruct (dropwhile_suffix p l) as (l0 & Hl & Hp). rewrite H, app_nil_r in Hl. by subst.
  - induction l as [|y l IH]; [done|]; simpl in *. bool_hyps. rewrite H. auto.
Qed.

Lemma dropwhile_length p l : length (dropwhile p l) ≤ length l.
Proof.
  destruct (dropwhile_suffix p l) as (l0 & Hl & _).
  rewrite Hl at 2. rewrite length_app. lia.
Qed.

Lemma filter_all p l : forallb p l = true → List.filter p l = l.
Proof. induction l; simpl; intros H; [done|]. bool_hyps. rewrite H. f_equal. auto. Qed.

Lemma elem_filter p l x : x ∈ List.filter p l ↔ x ∈ l ∧ p x = true.
Proof. by rewrite !list_elem_of_In, List.filter_In. Qed.

Lemma filter_filter p q l :
  List.filter p (List.filter q l) = List.filter (λ x, q x && p x) l.
Proof.
  induction l as [|x l IH]; simpl; [done|]. destruct (q x); simpl; [|done].
  destruct (p x); by rewrite IH.
Qed.

Lemma filter_ext_eq p q l :
  (∀ x, p x = q x) → List.filter p l = List.filter q l.
Proof. intros H. induction l as [|x l IH]; simpl; [done|]. by rewrite H, IH. Qed.

Lemma filter_none p l : (∀ x, p x = false) → List.filter p l = [].
Proof. intros H. induction l as [|x l IH]; simpl; [done|]. by rewrite H. Qed.

Lemma filter_none_elem p l : (∀ x, x ∈ l → p x = false) → List.filter p l = [].
Proof.
  intros H. induction l as [|x l IH]; simpl; [done|]. rewrite H by constructor.
  apply IH. intros y Hy. apply H. by constructor.
Qed.

Lemma find_is_Some p l :
  is_Some (List.find p l) ↔ ∃ x, x ∈ l ∧ p x = true.
Proof.
  split.
  - intros [x Hx]. apply List.find_some in Hx as [Hx Hp]. exists x. by rewrite list_elem_of_In.
  - intros (x & Hx & Hp). destruct (List.find p l) eqn:E; [done|].
    rewrite list_elem_of_In in Hx. by rewrite (List.find_none _ _ E x Hx) in Hp.
Qed.

(** Python's [xs[:n]] for a non-negative [n] is [take n]. *)
Lemma take_forallb p n l : forallb p l = true → forallb p (take n l) = true.
Proof.
  rewrite <- (take_drop n l) at 1. rewrite forallb_app_iff. tauto.
Qed.
End lists.

#[export] Hint Resolve dropwhile_forallb take_forallb : spatium.

(** Rows with distinct keys are determined by their key. *)
Lemma map_NoDup_inj {A B} (f : A → B) l x y :
  NoDup (map f l) → x ∈ l → y ∈ l → f x = f y → x = y.
Proof.
  intros Hn [i Hi]%list_elem_of_lookup [j Hj]%list_elem_of_lookup E.
  assert (i = j) as ->; [|congruence].
  eapply (NoDup_lookup _ i j); [exact Hn| |]; rewrite list_lookup_fmap; [by rewrite Hi|].
  rewrite Hj. simpl. by rewrite E.
Qed.

Lemma filter_sublist {A} (p : A → bool) l : List.filter p l `sublist_of` l.
Proof. induction l as [|x l IH]; simpl; [constructor|]. destruct (p x); by constructor. Qed.

(** ** The result monad *)
Lemma bind_Ok {E A B} (r : result E A) (f : A → result E B) b :
  (r ≫= f) = Ok b ↔ ∃ a, r = Ok a ∧ f a = Ok b.
Proof. destruct r; simpl; [naive_solver|]. split; [done|]. by intros (? & ? & _). Qed.

Lemma map_result_Ok {E A B} (f : A → result E B) l ys :
  map_result f l = Ok ys ↔ Forall2 (λ x y, f x = Ok y) l ys.
Proof.
  revert ys. induction l as [|x l IH]; intros ys; simpl.
  - split; [intros [= <-]; constructor|]. by intros ?%Forall2_nil_inv_l; subst.
  - rewrite bind_Ok. setoid_rewrite bind_Ok. setoid_rewrite IH. split.
    + intros (y & Hy & zs & Hzs & [= <-]). by constructor.
    + inversion 1; subst; eauto 10.
Qed.

Lemma raise_if_Ok {E} (b : bool) (e : E) (u : unit) : raise_if b e = Ok u ↔ b = false.
Proof. destruct b, u; simpl; split; congruence. Qed.

(** A comprehension over values [f] leaves alone returns the list itself. *)
Lemma map_result_id {E A} (f : A → result E A) l :
  Forall (λ x, f x = Ok x) l → map_result f l = Ok l.
Proof. intros H. apply map_result_Ok. induction H; constructor; auto. Qed.
