(* ===== verification/PyStr.v ===== *)
(** * Python strings

    The part of Python's [str] the modelled code uses.  A string is a list of
    characters with code points 0 to 255 (Latin-1): on that range the
    operations below are exact, and every result stays in the range (see
    [upper] for the three characters whose capital lies outside it).  String
    literals of this development denote such lists. *)
From S2P Require Export Prelude.

Abbreviation str := (list ascii).

Definition str_of_bytes (l : list Byte.byte) : str := map ascii_of_byte l.
Definition bytes_of_str (l : str) : option (list Byte.byte) := Some (map byte_of_ascii l).

Declare Scope pystr_scope.
Delimit Scope pystr_scope with py.
String Notation str str_of_bytes bytes_of_str : pystr_scope.
#[export] Set Printing Depth 60.
Open Scope pystr_scope.

Create Rewrite HintDb pystr.

(** ** Characters *)
Definition ord (c : ascii) : nat := nat_of_ascii c.

Definition between (lo hi : nat) (c : ascii) : bool := (lo <=? ord c) && (ord c <=? hi).

Definition chr_is (d c : ascii) : bool := Ascii.eqb c d.

Definition is_ascii (c : ascii) : bool := ord c <? 128.
Definition is_digit (c : ascii) : bool := between 48 57 c.
Definition is_lower_az (c : ascii) : bool := between 97 122 c.
Definition is_upper_az (c : ascii) : bool := between 65 90 c.

(** [str.isspace] on one character: the ASCII blanks, the C0 separators
    0x1C-0x1F, NEL and the no-break space. *)
Definition is_space (c : ascii) : bool :=
  between 9 13 c || between 28 32 c || (ord c =? 133) || (ord c =? 160).

(** [str.lower] on one character: A-Z and the Latin-1 capitals (0xC0-0xDE
    without the multiplication sign). *)
Definition lower_char (c : ascii) : ascii :=
  if is_upper_az c || (between 192 222 c && negb (ord c =? 215))
  then ascii_of_nat (ord c + 32) else c.

(** [str.upper] on one character.  The capitals of the micro sign (0xB5) and
    of 0xFF lie outside Latin-1 and are left alone here; neither the letter
    nor its capital is ASCII, so no comparison with an ASCII word tells the
    difference. The sharp s (0xDF) becomes ["SS"]. *)
Definition upper_char (c : ascii) : str :=
  if is_lower_az c || (between 224 254 c && negb (ord c =? 247))
  then [ascii_of_nat (ord c - 32)]
  else if ord c =? 223 then "SS" else [c].

(** [str.isdigit] on one character: the decimal digits and the superscripts. *)
Definition is_py_digit (c : ascii) : bool :=
  is_digit c || (ord c =? 178) || (ord c =? 179) || (ord c =? 185).

(** ** Strings *)
Definition isascii (s : str) : bool := forallb is_ascii s.
Definition lower (s : str) : str := map lower_char s.
Definition upper (s : str) : str := mjoin (map upper_char s).
Definition isdigit (s : str) : bool := negb (bool_decide (s = [])) && forallb is_py_digit s.

(** [s.lstrip(chars)], [s.rstrip(chars)], [s.strip(chars)], with the character
    set given as a predicate; Python's argument-less form uses [is_space]. *)
Definition lstrip (p : ascii → bool) (s : str) : str := dropwhile p s.
Definition rstrip (p : ascii → bool) (s : str) : str := reverse (dropwhile p (reverse s)).
Definition strip (p : ascii → bool) (s : str) : str := rstrip p (lstrip p s).

(** [sep.join(ws)]. *)
Fixpoint join (sep : str) (ws : list str) : str :=
  match ws with
  | [] => []
  | [w] => w
  | w :: ws' => w ++ sep ++ join sep ws'
  end.

(** [s.split(sep)] for a one-character separator. *)
Fixpoint split (sep : ascii) (s : str) : list str :=
  match s with
  | [] => [[]]
  | c :: s' =>
      if Ascii.eqb c sep then [] :: split sep s'
      else match split sep s' with
           | [] => [[c]]
           | w :: ws => (c :: w) :: ws
           end
  end.

(** [s.split()]: the maximal runs of non-blank characters. *)
Definition split_ws (s : str) : list str :=
  let fix go (s cur : str) : list str :=
    match s with
    | [] => if bool_decide (cur = []) then [] else [reverse cur]
    | c :: s' =>
        if is_space c
        then (if bool_decide (cur = []) then [] else [reverse cur]) ++ go s' []
        else go s' (c :: cur)
    end in
  go s [].

Definition startswith (p s : str) : bool := bool_decide (take (length p) s = p).
Definition endswith (p s : str) : bool := startswith (reverse p) (reverse s).

(** [x in s] for a one-character [x]. *)
Definition contains (c : ascii) (s : str) : bool := existsb (chr_is c) s.

(** [s[:-1]]. *)
Definition drop_last (s : str) : str := removelast s.

(** Python's order on strings, and on tuples of strings. *)
Fixpoint str_leb (a b : str) : bool :=
  match a, b with
  | [], _ => true
  | _ :: _, [] => false
  | c :: a', d :: b' => (ord c <? ord d) || ((ord c =? ord d) && str_leb a' b')
  end.

Definition str_le (a b : str) : Prop := str_leb a b = true.

#[export] Instance str_le_dec : RelDecision str_le := λ a b, bool_eq_dec (str_leb a b) true.

Fixpoint keys_leb (a b : list str) : bool :=
  match a, b with
  | [], _ => true
  | _ :: _, [] => false
  | s :: a', t :: b' =>
      if bool_decide (s = t) then keys_leb a' b' else str_leb s t
  end.

(** Decimal digits of a non-negative integer ([str(n)]). *)
Definition digit_chr (d : nat) : ascii := ascii_of_nat (48 + d).
Fixpoint digits_go (fuel n : nat) (acc : str) : str :=
  match fuel with
  | 0 => acc
  | S fuel' =>
      let acc' := digit_chr (n mod 10) :: acc in
      if n <? 10 then acc' else digits_go fuel' (n / 10) acc'
  end.
Definition str_of_nat (n : nat) : str := digits_go (S n) n [].

(** ** Characters, by evaluation on all 256 of them *)
Lemma ascii_forall (p : ascii → bool) :
  forallb p (map ascii_of_nat (seq 0 256)) = true → ∀ c, p c = true.
Proof.
  intros H c. eapply forallb_elem; [exact H|].
  rewrite <- (ascii_nat_embedding c). apply list_elem_of_fmap_2, elem_of_seq.
  pose proof (nat_ascii_bounded c). lia.
Qed.

(** [p] is contained in [q]: the character-class inclusions of this library
    are all proved by one evaluation. *)
Lemma ascii_subclass (p q : ascii → bool) :
  forallb (λ c, implb (p c) (q c)) (map ascii_of_nat (seq 0 256)) = true →
  ∀ c, p c = true → q c = true.
Proof.
  intros H c Hp. pose proof (ascii_forall _ H c) as Hc. simpl in Hc. by rewrite Hp in Hc.
Qed.

Lemma lower_char_idem c : lower_char (lower_char c) = lower_char c.
Proof. each_ascii c; reflexivity. Qed.

Lemma lower_char_space c : is_space (lower_char c) = is_space c.
Proof. each_ascii c; reflexivity. Qed.

Lemma lower_char_ascii c : is_ascii (lower_char c) = is_ascii c.
Proof. each_ascii c; reflexivity. Qed.

Lemma chr_is_true d c : chr_is d c = true ↔ c = d.
Proof. apply Ascii.eqb_eq. Qed.

Lemma chr_is_false d c : chr_is d c = false ↔ c ≠ d.
Proof. apply Ascii.eqb_neq. Qed.

Lemma ascii_eqb_refl c : Ascii.eqb c c = true.
Proof. apply Ascii.eqb_refl. Qed.

(** ** Case folding *)
Lemma lower_idem s : lower (lower s) = lower s.
Proof. unfold lower. rewrite map_map. apply map_ext, lower_char_idem. Qed.

Lemma lower_length s : length (lower s) = length s.
Proof. apply length_map. Qed.

Lemma lower_app s1 s2 : lower (s1 ++ s2) = lower s1 ++ lower s2.
Proof. apply map_app. Qed.

Lemma lower_id p s :
  (∀ c, p c = true → lower_char c = c) → forallb p s = true → lower s = s.
Proof.
  intros Hp. induction s as [|c s IH]; [done|]; simpl. intros H. bool_hyps.
  rewrite Hp by done. f_equal. auto.
Qed.

Lemma lower_forallb p q s :
  (∀ c, p c = true → q (lower_char c) = true) →
  forallb p s = true → forallb q (lower s) = true.
Proof.
  intros Hp. unfold lower. rewrite !forallb_elem_iff. intros H x Hx.
  apply list_elem_of_fmap in Hx as (y & -> & Hy). auto.
Qed.

(** ** Stripping *)
Section strip.
Variable p : ascii → bool.

Lemma rstrip_prefix s : ∃ t, s = rstrip p s ++ t ∧ forallb p t = true.
Proof.
  unfold rstrip. destruct (dropwhile_suffix p (reverse s)) as (t & Ht & Hp).
  exists (reverse t). split.
  - rewrite <- reverse_app, <- Ht. by rewrite reverse_involutive.
  - rewrite forallb_Forall in *. by apply Forall_reverse.
Qed.

Lemma strip_split s :
  ∃ l r, s = l ++ strip p s ++ r ∧ forallb p l = true ∧ forallb p r = true.
Proof.
  unfold strip, lstrip. destruct (dropwhile_suffix p s) as (l & Hl & Hpl).
  destruct (rstrip_prefix (dropwhile p s)) as (r & Hr & Hpr).
  exists l, r. by rewrite <- Hr.
Qed.

Lemma strip_forallb q s : forallb q s = true → forallb q (strip p s) = true.
Proof.
  destruct (strip_split s) as (l & r & Hs & _). rewrite Hs at 1.
  rewrite !forallb_app_iff. tauto.
Qed.

Lemma strip_length s : length (strip p s) ≤ length s.
Proof.
  destruct (strip_split s) as (l & r & Hs & _). rewrite Hs at 2. rewrite !length_app. lia.
Qed.

Lemma rstrip_last s s' c : rstrip p s = s' ++ [c] → p c = false.
Proof.
  unfold rstrip. intros H. apply (f_equal reverse) in H.
  rewrite reverse_involutive, reverse_app in H. by apply dropwhile_head in H.
Qed.

Lemma strip_last s s' c : strip p s = s' ++ [c] → p c = false.
Proof. apply rstrip_last. Qed.

Lemma strip_head s c s' : strip p s = c :: s' → p c = false.
Proof.
  unfold strip, lstrip. intros H.
  destruct (rstrip_prefix (dropwhile p s)) as (t & Ht & _). rewrite H in Ht.
  by apply dropwhile_head in Ht.
Qed.

Lemma rstrip_id s : (∀ s' c, s = s' ++ [c] → p c = false) → rstrip p s = s.
Proof.
  intros H. unfold rstrip. rewrite dropwhile_id; [apply reverse_involutive|].
  intros x l' Hx. apply (H (reverse l')).
  by rewrite <- (reverse_involutive s), Hx, reverse_cons.
Qed.

Lemma strip_id s :
  (∀ c s', s = c :: s' → p c = false) → (∀ s' c, s = s' ++ [c] → p c = false) →
  strip p s = s.
Proof.
  intros Hh Hl. unfold strip, lstrip. rewrite dropwhile_id by eauto. by apply rstrip_id.
Qed.

Lemma strip_idem s : strip p (strip p s) = strip p s.
Proof. apply strip_id; [apply strip_head | apply strip_last]. Qed.

(** A string without characters to strip is left alone. *)
Lemma strip_none s : forallb (λ c, negb (p c)) s = true → strip p s = s.
Proof.
  rewrite forallb_elem_iff. intros H.
  apply strip_id; intros ? ? ->; apply negb_true_iff, H; set_solver.
Qed.

Lemma rstrip_none s : forallb (λ c, negb (p c)) s = true → rstrip p s = s.
Proof.
  rewrite forallb_elem_iff. intros H.
  apply rstrip_id; intros ? ? ->; apply negb_true_iff, H; set_solver.
Qed.
End strip.

(** ** Joining and splitting *)
Section split.
Variable sep : ascii.

Lemma split_nonempty s : split sep s ≠ [].
Proof. destruct s as [|c s]; simpl; [done|]. repeat case_match; done. Qed.

Lemma join_cons w ws : ws ≠ [] → join [sep] (w :: ws) = w ++ sep :: join [sep] ws.
Proof. by destruct ws. Qed.

Lemma join_split s : join [sep] (split sep s) = s.
Proof.
  induction s as [|c s IH]; [done|]; simpl.
  destruct (Ascii.eqb_spec c sep) as [->|Hc].
  - rewrite join_cons by apply split_nonempty. simpl. by rewrite IH.
  - pose proof (split_nonempty s). destruct (split sep s) as [|w ws]; [done|].
    rewrite <- IH. by destruct ws.
Qed.

Lemma split_no_sep s : contains sep s = false → split sep s = [s].
Proof.
  induction s as [|c s IH]; [done|]; simpl. unfold chr_is at 1.
  intros H. apply orb_false_iff in H as [-> H]. by rewrite IH.
Qed.

Lemma split_app w s : contains sep w = false →
  split sep (w ++ sep :: s) = w :: split sep s.
Proof.
  induction w as [|c w IH]; simpl.
  - by rewrite ascii_eqb_refl.
  - unfold chr_is at 1. intros H. apply orb_false_iff in H as [-> H]. by rewrite IH.
Qed.

Lemma split_join ws : ws ≠ [] → Forall (λ w, contains sep w = false) ws →
  split sep (join [sep] ws) = ws.
Proof.
  intros Hne Hws. induction Hws as [|w ws Hw Hws IH]; [done|].
  destruct (decide (ws = [])) as [->|Hn].
  - by apply split_no_sep.
  - rewrite join_cons, split_app by done. by rewrite IH.
Qed.

(** Splitting distributes over the separator. *)
Lemma split_app_sep s1 s2 : split sep (s1 ++ sep :: s2) = split sep s1 ++ split sep s2.
Proof.
  induction s1 as [|c s1 IH]; simpl.
  - by rewrite ascii_eqb_refl.
  - destruct (Ascii.eqb c sep); simpl; rewrite IH; [done|].
    pose proof (split_nonempty s1). by destruct (split sep s1).
Qed.

Lemma split_labels_no_sep s : Forall (λ w, contains sep w = false) (split sep s).
Proof.
  induction s as [|c s IH]; simpl; [by repeat constructor|].
  destruct (Ascii.eqb c sep) eqn:Hc; [by constructor|].
  destruct IH as [|w ws Hw Hws]; constructor; simpl; [by rewrite orb_false_r| constructor |..];
    try done. by apply orb_false_iff.
Qed.

Lemma split_forallb p s : forallb p s = true →
  Forall (λ w, forallb p w = true) (split sep s).
Proof.
  induction s as [|c s IH]; simpl; intros H; [by repeat constructor|].
  bool_hyps. specialize (IH ltac:(done)).
  destruct (Ascii.eqb c sep); [by constructor|].
  destruct IH as [|w ws Hw Hws]; constructor; simpl; try done; try by apply andb_true_iff.
Qed.

Lemma join_forallb p ws : p sep = true → Forall (λ w, forallb p w = true) ws →
  forallb p (join [sep] ws) = true.
Proof.
  intros Hp. induction 1 as [|w ws Hw Hws IH]; [done|].
  destruct (decide (ws = [])) as [->|Hn]; [done|].
  rewrite join_cons by done. rewrite forallb_app_iff. simpl. by rewrite Hp.
Qed.

Lemma lower_join ws : lower_char sep = sep →
  lower (join [sep] ws) = join [sep] (map lower ws).
Proof.
  intros Hsep. induction ws as [|w ws IH]; [done|].
  destruct (decide (ws = [])) as [->|Hn]; [done|].
  rewrite join_cons by done. simpl map. rewrite join_cons by (by destruct ws).
  rewrite lower_app. simpl. by rewrite Hsep, IH.
Qed.

(** A joined name contains each of its labels, so none is longer than it. *)
Lemma join_length_label w ws : w ∈ ws → length w ≤ length (join [sep] ws).
Proof.
  induction ws as [|w' ws IH]; [set_solver|]. intros Hw.
  destruct (decide (ws = [])) as [->|Hn]; [set_solver|].
  rewrite join_cons, length_app by done. simpl.
  apply elem_of_cons in Hw as [->|Hw]; [lia|]. specialize (IH Hw). lia.
Qed.

Lemma join_empty ws : join [sep] ws = [] → ws = [] ∨ ws = [[]].
Proof.
  destruct ws as [|w [|w' ws]]; [by left| |]; simpl; [intros ->; by right|].
  intros H. by apply app_nil in H as [_ ?].
Qed.
End split.

(** ** Prefixes and suffixes *)
Lemma endswith_chr c s : endswith [c] s = true ↔ ∃ s', s = s' ++ [c].
Proof.
  unfold endswith, startswith. rewrite bool_decide_eq_true. simpl. split.
  - intros H. destruct (reverse s) as [|d r] eqn:E; [done|].
    simpl in H. rewrite take_0 in H. injection H as ->.
    exists (reverse r). by rewrite <- (reverse_involutive s), E, reverse_cons.
  - intros [s' ->]. by rewrite reverse_app.
Qed.

Lemma endswith_chr_false c s : endswith [c] s = false ↔ ∀ s', s ≠ s' ++ [c].
Proof.
  rewrite <- not_true_iff_false, endswith_chr. naive_solver.
Qed.

Lemma drop_last_snoc s c : drop_last (s ++ [c]) = s.
Proof. apply removelast_last. Qed.

Lemma contains_false c s : contains c s = false ↔ c ∉ s.
Proof.
  unfold contains. rewrite existsb_none. setoid_rewrite chr_is_false. naive_solver.
Qed.

Lemma contains_true c s : contains c s = true ↔ c ∈ s.
Proof.
  unfold contains. rewrite existsb_elem. setoid_rewrite chr_is_true. naive_solver.
Qed.

Lemma contains_app c s1 s2 : contains c (s1 ++ s2) = contains c s1 || contains c s2.
Proof. apply existsb_app. Qed.

#[export] Hint Rewrite lower_idem lower_length lower_app @strip_idem : pystr.
#[export] Hint Resolve strip_forallb split_nonempty split_labels_no_sep : spatium.

(** ** The order on strings *)
Lemma ord_inj c d : ord c = ord d → c = d.
Proof. intros H. rewrite <- (ascii_nat_embedding c), <- (ascii_nat_embedding d). unfold ord in H. by rewrite H. Qed.

Lemma str_leb_cons c a d b : str_leb (c :: a) (d :: b) = true ↔ ord c < ord d ∨ (c = d ∧ str_leb a b = true).
Proof.
  simpl. rewrite orb_true_iff, andb_true_iff, Nat.ltb_lt, Nat.eqb_eq. split.
  - intros [H|[H1 H2]]; [by left|right]. split; [by apply ord_inj|done].
  - intros [H|[-> H]]; [by left|by right].
Qed.

#[export] Instance str_le_trans : Transitive str_le.
Proof.
  intros a. unfold str_le. induction a as [|c a IH]; intros b x; [done|].
  destruct b as [|d b], x as [|e x]; try done. rewrite !str_leb_cons.
  intros [H|[-> H]] [H'|[-> H']]; [left; lia|by left|by left|right]. split; [done|]. by apply IH with b.
Qed.

#[export] Instance str_le_total : Total str_le.
Proof.
  intros a. unfold str_le. induction a as [|c a IH]; intros b; [by left|].
  destruct b as [|d b]; [by right|]. rewrite !str_leb_cons.
  destruct (Nat.lt_total (ord c) (ord d)) as [H|[H|H]]; [by left; left| |by right; left].
  apply ord_inj in H as ->. destruct (IH b); [by left; right|by right; right].
Qed.

#[export] Instance str_le_antisymm : AntiSymm (=) str_le.
Proof.
  intros a. unfold str_le. induction a as [|c a IH]; intros b; [by destruct b|].
  destruct b as [|d b]; [done|]. rewrite !str_leb_cons.
  intros [H|[-> H]] [H'|[E H']]; try lia; [by subst; lia|]. f_equal. by apply IH.
Qed.

(** ** Encodings of strings character by character *)
Definition all_chars : str := map ascii_of_nat (seq 0 256).
Fixpoint is_prefix (a b : str) : bool :=
  match a, b with
  | [], _ => true
  | c :: a', d :: b' => Ascii.eqb c d && is_prefix a' b'
  | _ :: _, [] => false
  end.
Definition prefix_free (f : ascii → str) : bool :=
  let table := map (λ c, (c, f c)) all_chars in
  forallb (λ '(c, x), match x with [] => false | _ => true end
    && forallb (λ '(d, y), Ascii.eqb c d || negb (is_prefix x y) && negb (is_prefix y x)) table) table.

Lemma is_prefix_app a b : is_prefix a (a ++ b) = true.
Proof. induction a as [|c a IH]; simpl; [done|]. by rewrite ascii_eqb_refl. Qed.

Lemma elem_all_chars c : c ∈ all_chars.
Proof.
  rewrite <- (ascii_nat_embedding c). apply list_elem_of_fmap_2, elem_of_seq.
  pose proof (nat_ascii_bounded c). lia.
Qed.

Lemma elem_table (f : ascii → str) c : (c, f c) ∈ map (λ c, (c, f c)) all_chars.
Proof. apply list_elem_of_fmap. exists c. split; [done|]. apply elem_all_chars. Qed.

Lemma prefix_free_spec f c d r s : prefix_free f = true → f c ++ r = f d ++ s → c = d ∧ r = s.
Proof.
  intros Hall H. pose proof (forallb_elem _ _ _ Hall (elem_table f c)) as Hc. clear Hall.
  apply andb_true_iff in Hc as [_ Hc]. pose proof (forallb_elem _ _ _ Hc (elem_table f d)) as Hd. clear Hc.
  apply orb_true_iff in Hd as [->%Ascii.eqb_eq|Hd]; [split; [done|by apply app_inv_head in H]|].
  exfalso. apply andb_true_iff in Hd as [H1%negb_true_iff H2%negb_true_iff].
  apply app_eq_inv in H as [(k & Hk & _)|(k & Hk & _)]; rewrite Hk, is_prefix_app in *; done.
Qed.

Lemma prefix_free_inj f a b : prefix_free f = true → mjoin (map f a) = mjoin (map f b) → a = b.
Proof.
  intros Hf. assert (∀ c, f c ≠ []) as Hne.
  { intros c. pose proof (forallb_elem _ _ _ Hf (elem_table f c)) as H. apply andb_true_iff in H as [H _].
    by destruct (f c). }
  revert b. induction a as [|c a IH]; intros [|d b]; simpl; intros H; [done| | |].
  - by symmetry in H; apply app_nil in H as [?%Hne _].
  - by apply app_nil in H as [?%Hne _].
  - apply prefix_free_spec in H as [-> H]; [|done]. by apply IH in H as ->.
Qed.

(** [s.encode()]: UTF-8 of the characters of this model. *)
Definition utf8_char (c : ascii) : str :=
  if is_ascii c then [c] else [ascii_of_nat (192 + ord c / 64); ascii_of_nat (128 + ord c mod 64)].
Definition encode (s : str) : str := mjoin (map utf8_char s).

Lemma encode_inj a b : encode a = encode b → a = b.
Proof. apply prefix_free_inj. vm_compute. reflexivity. Qed.

Lemma encode_ascii s : isascii s = true → encode s = s.
Proof.
  induction s as [|c s IH]; simpl; [done|]. intros [Hc Hs]%andb_true_iff. unfold encode in *. simpl.
  unfold utf8_char at 1. rewrite Hc. simpl. by rewrite IH.
Qed.
