(* ===== verification/Json.v ===== *)
(** * JSON values

    What the modelled code uses of Python's [json]: the values a JSONB column
    holds, [json.dumps(v, sort_keys=True, separators=(",", ":"), default=str)],
    and equality of values up to the order of an object's keys (a Python dict,
    and a JSONB object, have no order that matters).  Object keys are strings. *)
From stdpp Require Import pretty.
From S2P Require Import PyStr.

Set Warnings "-register-all".

Module Json.

(** A finite float is the text of its [repr]; [JOther] is a value [json] cannot
    encode, by its [str]. *)
Inductive json :=
| JNull
| JBool (b : bool)
| JInt (z : Z)
| JFloat (repr : str)
| JStr (s : str)
| JArr (l : list json)
| JObj (kvs : list (str * json))
| JOther (s : str).

Section json_ind.
Context (P : json → Prop).
Context (Hnull : P JNull) (Hbool : ∀ b, P (JBool b)) (Hint : ∀ z, P (JInt z)) (Hfloat : ∀ t, P (JFloat t)).
Context (Hstr : ∀ s, P (JStr s)) (Hother : ∀ s, P (JOther s)).
Context (Harr : ∀ l, Forall P l → P (JArr l)) (Hobj : ∀ kvs, Forall (P ∘ snd) kvs → P (JObj kvs)).

Fixpoint json_nested_ind (v : json) : P v :=
  match v with
  | JNull => Hnull
  | JBool b => Hbool b
  | JInt z => Hint z
  | JFloat t => Hfloat t
  | JStr s => Hstr s
  | JArr l => Harr l ((fix go l := match l return Forall P l with
                                   | [] => Forall_nil_2 P
                                   | x :: l' => Forall_cons_2 P x l' (json_nested_ind x) (go l')
                                   end) l)
  | JObj l => Hobj l ((fix go l := match l return Forall (P ∘ snd) l with
                                   | [] => Forall_nil_2 _
                                   | x :: l' => Forall_cons_2 (P ∘ snd) x l' (json_nested_ind (snd x)) (go l')
                                   end) l)
  | JOther s => Hother s
  end.
End json_ind.

(** ** Printing *)

(** [json.dumps] escapes all but the printable ASCII characters. *)
Definition hex_digit (n : nat) : ascii := if n <? 10 then ascii_of_nat (48 + n) else ascii_of_nat (87 + n).
Definition escape_char (c : ascii) : str :=
  if chr_is (ascii_of_nat 34) c || chr_is "\" c then ["\"%char; c]
  else if between 32 126 c then [c]
  else if ord c =? 10 then "\n" else if ord c =? 13 then "\r" else if ord c =? 9 then "\t"
  else if ord c =? 12 then "\f" else if ord c =? 8 then "\b"
  else "\u00" ++ [hex_digit (ord c / 16); hex_digit (ord c mod 16)].

Definition QUOTE : ascii := ascii_of_nat 34.
Definition quote (s : str) : str := QUOTE :: mjoin (map escape_char s) ++ [QUOTE].
#[global] Arguments quote : simpl never.

Definition str_of_Z (z : Z) : str := String.list_ascii_of_string (pretty z).

Fixpoint print (v : json) : str :=
  match v with
  | JNull => "null"
  | JBool true => "true"
  | JBool false => "false"
  | JInt z => str_of_Z z
  | JFloat t => t
  | JStr s | JOther s => quote s
  | JArr l => "[" ++ join "," (map print l) ++ "]"
  | JObj kvs => "{" ++ join "," (map (λ '(k, x), quote k ++ ":" ++ print x) kvs) ++ "}"
  end.

(** [sort_keys=True], at every level; [default=str]. *)
Definition key_le (a b : str * json) : Prop := str_le (fst a) (fst b).
#[export] Instance key_le_dec : RelDecision key_le := λ a b, decide (str_le (fst a) (fst b)).

Fixpoint norm (v : json) : json :=
  match v with
  | JArr l => JArr (map norm l)
  | JObj kvs => JObj (merge_sort key_le (map (λ '(k, x), (k, norm x)) kvs))
  | JOther s => JStr s
  | _ => v
  end.

Definition dumps (v : json) : str := print (norm v).

Example dumps_ex :
  dumps (JObj [("b" : str, JArr [JInt (-12); JNull]); ("a" : str, JStr "x/y")])
  = "{" ++ quote "a" ++ ":" ++ quote "x/y" ++ "," ++ quote "b" ++ ":[-12,null]}".
Proof. vm_compute. reflexivity. Qed.

(** ** Values that print faithfully

    [wf v]: every float prints as a number token, and nothing is left to
    [default]. *)
Definition num_char (c : ascii) : bool :=
  is_digit c || is_lower_az c || is_upper_az c || chr_is "-" c || chr_is "+" c || chr_is "." c.
Definition int_char (c : ascii) : bool := is_digit c || chr_is "-" c.
Definition num_head (c : ascii) : bool := int_char c || chr_is "N" c || chr_is "I" c.

Definition float_token (t : str) : bool :=
  match t with [] => false | c :: _ => num_head c end && forallb num_char t && negb (forallb int_char t).

Fixpoint wf (v : json) : bool :=
  match v with
  | JFloat t => float_token t
  | JArr l => forallb wf l
  | JObj kvs => forallb (λ '(k, x), wf x) kvs
  | JOther _ => false
  | _ => true
  end.

(** The same, but values for [default] allowed. *)
Fixpoint floats_ok (v : json) : bool :=
  match v with
  | JFloat t => float_token t
  | JArr l => forallb floats_ok l
  | JObj kvs => forallb (λ '(k, x), floats_ok x) kvs
  | _ => true
  end.

(** ** Integers *)
Lemma pretty_N_go_chars n s : forallb int_char (String.list_ascii_of_string s) = true →
  forallb int_char (String.list_ascii_of_string (pretty_N_go n s)) = true.
Proof.
  revert s. induction (N.lt_wf_0 n) as [n _ IH]; intros s Hs.
  destruct (decide (n = 0)%N) as [->|Hn]; [by rewrite pretty_N_go_0|].
  rewrite pretty_N_go_step by lia. apply IH; [by apply N.div_lt; lia|]. simpl. rewrite Hs, andb_true_r.
  assert (n `mod` 10 < 10)%N as H by (by apply N.mod_lt). revert H. generalize (n `mod` 10)%N. clear. intros m H.
  assert (m ∈ [0; 1; 2; 3; 4; 5; 6; 7; 8; 9]%N) as Hm by (rewrite !elem_of_cons; lia).
  repeat (apply elem_of_cons in Hm as [->|Hm]; [reflexivity|]). by apply not_elem_of_nil in Hm.
Qed.

Lemma pretty_N_go_nonempty n s : s ≠ ""%string → pretty_N_go n s ≠ ""%string.
Proof.
  revert s. induction (N.lt_wf_0 n) as [n _ IH]; intros s Hs.
  destruct (decide (n = 0)%N) as [->|Hn]; [by rewrite pretty_N_go_0|].
  rewrite pretty_N_go_step by lia. apply IH; [by apply N.div_lt; lia|done].
Qed.

Lemma pretty_N_nonempty (n : N) : pretty n ≠ ""%string.
Proof.
  unfold pretty, pretty_N. case_decide; [done|]. rewrite pretty_N_go_step by lia. by apply pretty_N_go_nonempty.
Qed.

Lemma str_of_Z_inj a b : str_of_Z a = str_of_Z b → a = b.
Proof.
  unfold str_of_Z. intros H. apply (inj pretty). rewrite <- (String.string_of_list_ascii_of_string (pretty a)), H.
  apply String.string_of_list_ascii_of_string.
Qed.

Lemma str_of_Z_int z : forallb int_char (str_of_Z z) = true.
Proof.
  assert (∀ n : N, forallb int_char (String.list_ascii_of_string (pretty n)) = true) as Hn.
  { intros n. unfold pretty, pretty_N. case_decide; [done|]. by apply pretty_N_go_chars. }
  unfold str_of_Z. destruct z; [done|apply (Hn (N.pos p))|]. unfold pretty, pretty_Z. simpl. apply (Hn (N.pos p)).
Qed.

Lemma str_of_Z_cons z : ∃ c t, str_of_Z z = c :: t.
Proof.
  assert (∀ n : N, ∃ c t, String.list_ascii_of_string (pretty n) = c :: t) as Hn.
  { intros n. pose proof (pretty_N_nonempty n) as H. destruct (pretty n) as [|c s]; [done|]. by exists c, (String.list_ascii_of_string s). }
  unfold str_of_Z. destruct z; [by eexists _, _|apply (Hn (N.pos p))|]. unfold pretty, pretty_Z. simpl. by eexists _, _.
Qed.

(** ** Strings *)
Lemma escape_prefix_free c d r s : escape_char c ++ r = escape_char d ++ s → c = d ∧ r = s.
Proof. apply prefix_free_spec. vm_compute. reflexivity. Qed.

Lemma escape_head c : ∃ d t, escape_char c = d :: t ∧ d ≠ QUOTE.
Proof.
  assert (match escape_char c with [] => false | d :: _ => negb (bool_decide (d = QUOTE)) end = true) as H.
  { revert c. apply ascii_forall. vm_compute. reflexivity. }
  destruct (escape_char c) as [|d t]; [done|]. exists d, t. split; [done|].
  by apply negb_true_iff, bool_decide_eq_false in H.
Qed.

Lemma quote_inj a b r s : quote a ++ r = quote b ++ s → a = b ∧ r = s.
Proof.
  unfold quote. simpl. intros [= H]. rewrite <- !app_assoc in H. simpl in H. revert b H.
  induction a as [|c a IH]; intros [|d b]; simpl; rewrite <- ?app_assoc.
  - intros [= ->]. done.
  - destruct (escape_head d) as (e & t & -> & He). intros [= E _]. by destruct He.
  - destruct (escape_head c) as (e & t & -> & He). intros [= E _]. by destruct He.
  - intros [-> H]%escape_prefix_free. by apply IH in H as [-> ->].
Qed.

(** ** Tokens *)
Definition delim (r : str) : bool :=
  match r with [] => true | c :: _ => chr_is "," c || chr_is "]" c || chr_is "}" c end.

Lemma num_not_delim c r : num_char c = true → delim (c :: r) = false.
Proof.
  intros H. apply (ascii_subclass num_char (λ c, negb (delim (c :: r)))) in H; [by apply negb_true_iff in H|].
  vm_compute. reflexivity.
Qed.

Lemma token_inj t u r s : forallb num_char t = true → forallb num_char u = true → delim r = true → delim s = true →
  t ++ r = u ++ s → t = u ∧ r = s.
Proof.
  revert u. induction t as [|c t IH]; intros [|d u]; simpl; intros Ht Hu Hr Hs H; bool_hyps.
  - done.
  - subst r. by rewrite num_not_delim in Hr.
  - subst s. by rewrite num_not_delim in Hs.
  - injection H as -> H. by destruct (IH u) as [-> ->].
Qed.

(** ** Printing is injective *)

(** What the first character says of a printed value. *)
Definition head_kind (c : ascii) : nat :=
  if chr_is "n" c then 0 else if chr_is "t" c || chr_is "f" c then 1 else if num_head c then 2
  else if bool_decide (c = QUOTE) then 3 else if chr_is "[" c then 4 else if chr_is "{" c then 5 else 6.
Definition kind (v : json) : nat :=
  match v with
  | JNull => 0 | JBool _ => 1 | JInt _ | JFloat _ => 2 | JStr _ | JOther _ => 3 | JArr _ => 4 | JObj _ => 5
  end.

Lemma int_num_head c : int_char c = true → head_kind c = 2.
Proof.
  intros H. apply (ascii_subclass int_char (λ c, head_kind c =? 2)) in H; [by apply Nat.eqb_eq in H|].
  vm_compute. reflexivity.
Qed.

Lemma num_head_kind c : num_head c = true → head_kind c = 2.
Proof.
  intros H. apply (ascii_subclass num_head (λ c, head_kind c =? 2)) in H; [by apply Nat.eqb_eq in H|].
  vm_compute. reflexivity.
Qed.

Lemma print_head v : wf v = true → ∃ c t, print v = c :: t ∧ head_kind c = kind v.
Proof.
  destruct v as [|[]|z|t|x|l|l|x]; simpl; intros H; try done; try (eexists _, _; split; reflexivity).
  - pose proof (str_of_Z_int z) as Hc. destruct (str_of_Z_cons z) as (c & t & E). rewrite E in Hc |- *.
    exists c, t. simpl in Hc. apply andb_true_iff in Hc as [Hc _]. split; [done|by apply int_num_head].
  - unfold float_token in H. destruct t as [|c t]; [done|]. bool_hyps. exists c, t. split; [done|by apply num_head_kind].
Qed.

Lemma int_chars_num t : forallb int_char t = true → forallb num_char t = true.
Proof. apply forallb_impl. intros c. apply ascii_subclass. vm_compute. reflexivity. Qed.

Lemma delim_cons c r : delim (c :: r) = true → head_kind c = 6.
Proof.
  intros H. apply (ascii_subclass (λ c, delim [c]) (λ c, head_kind c =? 6)) in H; [by apply Nat.eqb_eq in H|].
  vm_compute. reflexivity.
Qed.

Definition faithful (v : json) : Prop := ∀ w r s, wf v = true → wf w = true → delim r = true → delim s = true →
  print v ++ r = print w ++ s → v = w ∧ r = s.

(** A closing bracket and a separator are no value's beginning. *)
Lemma join_sep (ws : list str) (w : str) (c : ascii) (r : str) :
  join "," (w :: ws) ++ c :: r = w ++ (match ws with [] => c :: r | _ => ","%char :: join "," ws ++ c :: r end).
Proof. destruct ws; [done|]. rewrite join_cons by done. by rewrite <- app_assoc. Qed.

Lemma items_inj {A} (f : A → str) (c : ascii) (l l' : list A) r s :
  delim (c :: r) = true → c ≠ ","%char →
  (∀ x, x ∈ l → ∀ y r s, y ∈ l' → delim r = true → delim s = true → f x ++ r = f y ++ s → x = y ∧ r = s) →
  (∀ x, x ∈ l ++ l' → ∃ d t, f x = d :: t ∧ head_kind d ≠ 6) →
  join "," (map f l) ++ c :: r = join "," (map f l') ++ c :: s → l = l' ∧ r = s.
Proof.
  intros Hc Hne. pose proof (delim_cons _ _ Hc) as Hk. assert (Hcs : ∀ t, delim (c :: t) = true) by done.
  revert l'. induction l as [|x l IH]; intros [|y l'] Hinj Hhd; cbn [map].
  - intros [= ->]. done.
  - intros H. destruct (Hhd y) as (d & t & E & Hd); [left|]. cbn [map] in H. rewrite join_sep, E in H.
    injection H as -> _. done.
  - intros H. destruct (Hhd x) as (d & t & E & Hd); [left|]. rewrite join_sep, E in H. injection H as -> _. done.
  - rewrite !join_sep. intros H. apply Hinj in H as [-> H]; [|left|left|by destruct l|by destruct l'].
    destruct l as [|x' l], l' as [|y' l']; cbn [map] in H.
    + by injection H as ->.
    + by injection H.
    + by injection H.
    + injection H as H. destruct (IH (y' :: l')) as [E ->]; [| |exact H|by rewrite E].
      * intros a Ha b r' s' Hb. apply Hinj; by right.
      * intros a Ha. apply Hhd. apply elem_of_app in Ha as [Ha|Ha]; apply elem_of_app; [left|right]; by right.
Qed.

Lemma number_inj t w r s : forallb num_char t = true → kind w = 2 → wf w = true → delim r = true → delim s = true →
  t ++ r = print w ++ s → t = print w ∧ r = s.
Proof.
  intros Ht Hk Hw Hr Hs. apply token_inj; [done| |done..].
  destruct w; try done; simpl in *; [by apply int_chars_num, str_of_Z_int|].
  unfold float_token in Hw. bool_hyps. done.
Qed.

(** A float's token is no integer's. *)
Lemma float_not_int t z : float_token t = true → t ≠ str_of_Z z.
Proof. intros H ->. unfold float_token in H. rewrite str_of_Z_int in H. by rewrite andb_false_r in H. Qed.

Lemma print_kind v w r s : wf v = true → wf w = true → print v ++ r = print w ++ s → kind v = kind w.
Proof.
  intros (c & t & E1 & <-)%print_head (d & u & E2 & <-)%print_head. rewrite E1, E2. by intros [= -> _].
Qed.

Lemma print_faithful v : faithful v.
Proof.
  induction v as [|b|z|t|x|x|l IH|kvs IH] using json_nested_ind; intros w r s Hv Hw Hr Hs H;
    pose proof (print_kind _ _ _ _ Hv Hw H) as Hk; simpl in Hk.
  - destruct w; try done. by simplify_list_eq.
  - destruct w as [|b'| | | | | |]; try done. destruct b, b'; by simplify_list_eq.
  - apply number_inj in H as [H ->]; [|by apply int_chars_num, str_of_Z_int|done..].
    destruct w; try done; simpl in H; [by apply str_of_Z_inj in H as ->|by destruct (float_not_int _ z Hw)].
  - apply number_inj in H as [H ->]; [|simpl in Hv; unfold float_token in Hv; by bool_hyps|done..].
    destruct w; try done; simpl in H; [|by subst]. by destruct (float_not_int _ z Hv).
  - destruct w; try done. by apply quote_inj in H as [-> ->].
  - done.
  - destruct w as [| | | | |l'| |]; try done. simpl in H, Hv, Hw. rewrite <- !app_assoc in H. injection H as H.
    apply items_inj in H as [-> ->]; [done..| |].
    + intros x Hx y r' s' Hy. rewrite Forall_forall in IH. apply (IH x Hx); [by apply (forallb_elem _ _ _ Hv)|by apply (forallb_elem _ _ _ Hw)].
    + intros x Hx. destruct (print_head x) as (d & t & E & K); [|exists d, t; split; [done|rewrite K; by destruct x]].
      apply elem_of_app in Hx as [Hx|Hx]; [by apply (forallb_elem _ _ _ Hv)|by apply (forallb_elem _ _ _ Hw)].
  - destruct w as [| | | | | |kvs'|]; try done. cbn [print] in H. simpl in Hv, Hw.
    rewrite <- !app_assoc in H. apply (app_inv_head "{") in H.
    apply items_inj in H as [-> ->]; [done..| |].
    + intros [k x] Hx [k' y] r' s' Hy Hr' Hs' E. rewrite <- (app_assoc (quote k)), <- (app_assoc (quote k')) in E.
      apply quote_inj in E as [-> E]. injection E as E.
      rewrite Forall_forall in IH.
      apply (IH _ Hx) in E as [E ->]; [simpl in E; by subst|..]; [by apply (forallb_elem _ _ _ Hv) in Hx|by apply (forallb_elem _ _ _ Hw) in Hy|done..].
    + intros [k x] Hx. exists QUOTE, (tail (quote k ++ ":" ++ print x)). split; [done|]. vm_compute. done.
Qed.

Lemma print_inj v w : wf v = true → wf w = true → print v = print w → v = w.
Proof. intros Hv Hw H. apply (print_faithful v w [] []); [done..|]. by rewrite H. Qed.

(** ** Equality up to the order of keys *)
#[export] Instance json_equiv : Equiv json := λ v w, norm v = norm w.

#[export] Instance json_equivalence : Equivalence (≡@{json}).
Proof. split; red; unfold equiv, json_equiv; congruence. Qed.

#[export] Instance dumps_proper : Proper ((≡) ==> (=)) dumps.
Proof. intros v w H. unfold dumps. by rewrite H. Qed.

#[export] Instance key_le_trans : Transitive key_le.
Proof. intros a b c. unfold key_le. apply str_le_trans. Qed.
#[export] Instance key_le_total : Total key_le.
Proof. intros a b. apply str_le_total. Qed.

(** Two dicts with the same items are the same value. *)
Lemma items_perm kvs kvs' : NoDup (map fst kvs) → kvs ≡ₚ kvs' → JObj kvs ≡ JObj kvs'.
Proof.
  intros Hnd Hp. unfold equiv, json_equiv. simpl. f_equal. set (f := λ '(k, x), (k, norm x)).
  apply (Sorted_unique_strong key_le); [|apply Sorted_merge_sort, key_le_total..|].
  - intros [k1 x1] [k2 x2]. rewrite !merge_sort_Permutation. intros H1 H2 L1 L2.
    unfold key_le in L1, L2. simpl in L1, L2. pose proof (str_le_antisymm _ _ L1 L2) as ->.
    rewrite <- Hp in H2. apply list_elem_of_fmap in H1 as ([k y] & [= -> ->] & H1), H2 as ([k' y'] & [= -> ->] & H2).
    by injection (map_NoDup_inj fst kvs _ _ Hnd H1 H2 eq_refl) as ->.
  - rewrite !merge_sort_Permutation. by rewrite Hp.
Qed.

Lemma norm_wf v : floats_ok v = true → wf (norm v) = true.
Proof.
  induction v as [| | | | | |l IH|kvs IH] using json_nested_ind; simpl; try done.
  - intros H. apply forallb_elem_iff. intros x (y & -> & Hy)%list_elem_of_fmap. rewrite Forall_forall in IH.
    apply (IH y Hy). by apply (forallb_elem _ _ _ H).
  - intros H. apply forallb_elem_iff. intros [k x]. rewrite merge_sort_Permutation.
    intros ([k' y] & [= -> ->] & Hy)%list_elem_of_fmap. rewrite Forall_forall in IH.
    apply (IH _ Hy). by apply (forallb_elem _ _ _ H) in Hy.
Qed.

Lemma keys_map_values (g : json → json) (kvs : list (str * json)) : map fst (map (λ '(k, x), (k, g x)) kvs) = map fst kvs.
Proof. induction kvs as [|[k x] kvs IH]; simpl; [done|]. by rewrite IH. Qed.

(** An object whose members are equal. *)
Lemma obj_cong kvs kvs' : Forall2 (λ p q, fst p = fst q ∧ snd p ≡ snd q) kvs kvs' → JObj kvs ≡ JObj kvs'.
Proof.
  intros H. unfold equiv, json_equiv. simpl. do 2 f_equal.
  induction H as [|[k x] [k' y] l l' [E1 E2] _ IH]; [done|]. simpl in *. by rewrite E1, E2, IH.
Qed.

(** Equal objects with the same keys in the same order have equal members. *)
Lemma obj_inv kvs kvs' : NoDup (map fst kvs) → map fst kvs = map fst kvs' → JObj kvs ≡ JObj kvs' →
  Forall2 (λ p q, fst p = fst q ∧ snd p ≡ snd q) kvs kvs'.
Proof.
  set (f := λ p : str * json, (fst p, norm (snd p))). intros Hnd Hk H.
  assert (map f kvs ≡ₚ map f kvs') as Hp.
  { unfold equiv, json_equiv in H. simpl in H. injection H as H.
    assert (∀ l, map (λ '(k, x), (k, norm x)) l = map f l) as Hf by (intros l; by apply list_fmap_ext; intros ? [] _).
    rewrite !Hf in H. by rewrite <- (merge_sort_Permutation key_le (map f kvs)), H, merge_sort_Permutation. }
  assert (Hlen : length kvs = length kvs') by (rewrite <- (length_fmap fst kvs), <- (length_fmap fst kvs'); by f_equal).
  apply Forall2_same_length_lookup. split; [done|]. intros i [k x] [k' y] Hx Hy. simpl.
  assert (k = k') as <-.
  { apply (f_equal (lookup i)) in Hk. rewrite !list_lookup_fmap, Hx, Hy in Hk. by injection Hk. }
  split; [done|]. assert ((k, norm x) ∈ map f kvs') as ([k2 y2] & [= <- E] & Hy2)%list_elem_of_fmap.
  { rewrite <- Hp. apply list_elem_of_fmap. exists (k, x). split; [done|]. by apply list_elem_of_lookup_2 with i. }
  rewrite Hk in Hnd. apply list_elem_of_lookup_2 in Hy.
  pose proof (map_NoDup_inj fst kvs' _ _ Hnd Hy Hy2 eq_refl) as E'. injection E' as <-. done.
Qed.

(** [dumps] tells apart all values but those that differ by the order of keys
    (and by what [default] made of an object). *)
Lemma dumps_inj v w : floats_ok v = true → floats_ok w = true → dumps v = dumps w → v ≡ w.
Proof. intros Hv Hw. apply print_inj; by apply norm_wf. Qed.
(** A nullable text column. *)
Definition text_or_null (o : option str) : json := from_option JStr JNull o.
End Json.
