(* ===== verification/Sha256.v ===== *)
(** * SHA-256

    What the modelled code uses of Python's [hashlib]: the digest of a string
    of octets, in lower-case hex.  Written after FIPS 180-4; the two examples
    are its published test vectors.  The proofs of the audit chain only use
    that a digest is made of hex characters. *)
From S2P Require Import PyStr.
#[local] Open Scope Z_scope.

Module Sha256.

Definition word (x : Z) : Z := Z.land x 4294967295.
Definition add (x y : Z) : Z := word (x + y).
Definition rotr (n x : Z) : Z := Z.lor (Z.shiftr x n) (word (Z.shiftl x (32 - n))).

(** The fractional parts of the cube roots of the first 64 primes. *)
Definition round_constants : list Z :=
  [1116352408; 1899447441; 3049323471; 3921009573; 961987163; 1508970993;
   2453635748; 2870763221; 3624381080; 310598401; 607225278; 1426881987;
   1925078388; 2162078206; 2614888103; 3248222580; 3835390401; 4022224774;
   264347078; 604807628; 770255983; 1249150122; 1555081692; 1996064986;
   2554220882; 2821834349; 2952996808; 3210313671; 3336571891; 3584528711;
   113926993; 338241895; 666307205; 773529912; 1294757372; 1396182291;
   1695183700; 1986661051; 2177026350; 2456956037; 2730485921; 2820302411;
   3259730800; 3345764771; 3516065817; 3600352804; 4094571909; 275423344;
   430227734; 506948616; 659060556; 883997877; 958139571; 1322822218;
   1537002063; 1747873779; 1955562222; 2024104815; 2227730452; 2361852424;
   2428436474; 2756734187; 3204031479; 3329325298].

(** The fractional parts of the square roots of the first eight primes. *)
Definition initial_hash : list Z :=
  [1779033703; 3144134277; 1013904242; 2773480762; 1359893119; 2600822924; 528734635; 1541459225].

Definition Ch (x y z : Z) : Z := Z.lxor (Z.land x y) (Z.land (4294967295 - x) z).
Definition Maj (x y z : Z) : Z := Z.lxor (Z.land x y) (Z.lxor (Z.land x z) (Z.land y z)).
Definition big_sigma0 (x : Z) : Z := Z.lxor (rotr 2 x) (Z.lxor (rotr 13 x) (rotr 22 x)).
Definition big_sigma1 (x : Z) : Z := Z.lxor (rotr 6 x) (Z.lxor (rotr 11 x) (rotr 25 x)).
Definition small_sigma0 (x : Z) : Z := Z.lxor (rotr 7 x) (Z.lxor (rotr 18 x) (Z.shiftr x 3)).
Definition small_sigma1 (x : Z) : Z := Z.lxor (rotr 17 x) (Z.lxor (rotr 19 x) (Z.shiftr x 10)).

(** ** Padding and the message schedule *)
Definition big_endian (bytes : nat) (x : Z) : list Z :=
  map (λ i, Z.land (Z.shiftr x (8 * Z.of_nat (bytes - 1 - i))) 255) (seq 0 bytes).

Definition pad (m : list Z) : list Z :=
  let zeros := Z.to_nat ((55 - Z.of_nat (length m)) mod 64) in
  m ++ 128 :: replicate zeros 0 ++ big_endian 8 (8 * Z.of_nat (length m)).

Fixpoint words (m : list Z) : list Z :=
  match m with
  | a :: b :: c :: d :: rest =>
      (Z.shiftl a 24 + Z.shiftl b 16 + Z.shiftl c 8 + d) :: words rest
  | _ => []
  end.

(** [w] is kept newest first: [W(t-2)], [W(t-7)], [W(t-15)], [W(t-16)]. *)
Fixpoint schedule (n : nat) (w : list Z) : list Z :=
  match n with
  | O => reverse w
  | S n' =>
      let g i := nth i w 0 in
      schedule n' (add (add (small_sigma1 (g 1%nat)) (g 6%nat)) (add (small_sigma0 (g 14%nat)) (g 15%nat)) :: w)
  end.

(** ** Compression *)
Definition round (st : list Z) (kw : Z * Z) : list Z :=
  match st with
  | [a; b; c; d; e; f; g; h] =>
      let t1 := add (add (add h (big_sigma1 e)) (add (Ch e f g) (fst kw))) (snd kw) in
      let t2 := add (big_sigma0 a) (Maj a b c) in
      [add t1 t2; a; b; c; add d t1; e; f; g]
  | _ => st
  end.

Definition compress (h : list Z) (block : list Z) : list Z :=
  zip_with add h (foldl round h (zip round_constants (schedule 48 (reverse block)))).

Fixpoint blocks (fuel : nat) (h : list Z) (w : list Z) : list Z :=
  match fuel, w with
  | S fuel', _ :: _ => blocks fuel' (compress h (take 16 w)) (drop 16 w)
  | _, _ => h
  end.

Definition digest (m : list Z) : list Z :=
  let w := words (pad m) in
  mjoin (map (big_endian 4) (blocks (length w) initial_hash w)).

(** ** [hashlib.sha256(data).hexdigest()] *)
Definition hex_char (n : Z) : ascii := ascii_of_nat (Z.to_nat (if n <? 10 then 48 + n else 87 + n)).
Definition hex_byte (b : Z) : str := [hex_char (Z.shiftr b 4); hex_char (Z.land b 15)].
Definition hexdigest (s : str) : str := mjoin (map hex_byte (digest (map (λ c, Z.of_nat (ord c)) s))).

Example sha256_abc : hexdigest "abc" = "ba7816bf8f01cfea414140de5dae2223b00361a396177a9cb410ff61f20015ad".
Proof. vm_compute. reflexivity. Qed.
Example sha256_two_blocks :
  hexdigest "abcdbcdecdefdefgefghfghighijhijkijkljklmklmnlmnomnopnopq"
  = "248d6a61d20638b8e5c026930c3e6039a33ce45964ff2167f6ecedd419db06c1".
Proof. vm_compute. reflexivity. Qed.

(** ** The form of a digest *)
Definition is_hex (c : ascii) : bool := is_digit c || between 97 102 c.

Lemma hex_char_hex n : 0 <= n < 16 → is_hex (hex_char n) = true.
Proof.
  intros H. assert (n ∈ map Z.of_nat (seq 0 16)) as Hn.
  { apply list_elem_of_fmap. exists (Z.to_nat n). split; [lia|]. apply elem_of_seq. lia. }
  clear H. revert n Hn. apply Forall_forall. apply (bool_decide_unpack _). vm_compute. exact I.
Qed.

Lemma hex_byte_hex b : 0 <= b < 256 → forallb is_hex (hex_byte b) = true.
Proof.
  intros H. simpl. rewrite !hex_char_hex; [done| |].
  - change 15 with (Z.ones 4). rewrite Z.land_ones by lia. by apply Z.mod_pos_bound.
  - rewrite Z.shiftr_div_pow2 by lia. change (2 ^ 4) with 16.
    split; [apply Z.div_pos; lia|apply Z.div_lt_upper_bound; lia].
Qed.

Lemma big_endian_bytes n x b : b ∈ big_endian n x → 0 <= b < 256.
Proof.
  intros (i & -> & _)%list_elem_of_fmap. change 255 with (Z.ones 8). rewrite Z.land_ones by lia.
  change (2 ^ 8) with 256. by apply Z.mod_pos_bound.
Qed.

(** A digest is spelled in hex digits. *)
Lemma hexdigest_hex s : forallb is_hex (hexdigest s) = true.
Proof.
  unfold hexdigest, digest. apply forallb_elem_iff. intros c (t & Hc & Ht)%list_elem_of_join.
  apply list_elem_of_fmap in Ht as (b & -> & Hb). apply list_elem_of_join in Hb as (l & Hb & Hl).
  apply list_elem_of_fmap in Hl as (x & -> & _). apply big_endian_bytes in Hb.
  by apply (forallb_elem _ _ _ (hex_byte_hex b Hb)).
Qed.

Lemma round_length st kws : length (foldl round st kws) = length st.
Proof.
  revert st. induction kws as [|kw kws IH]; intros st; simpl; [done|]. rewrite IH.
  by destruct st as [|? [|? [|? [|? [|? [|? [|? [|? [|? st]]]]]]]]].
Qed.

Lemma blocks_length fuel h w : length (blocks fuel h w) = length h.
Proof.
  revert h w. induction fuel as [|fuel IH]; intros h [|x w]; simpl; try done. rewrite IH. unfold compress.
  rewrite length_zip_with, round_length. lia.
Qed.

(** A digest is 64 characters long. *)
Lemma hexdigest_length s : length (hexdigest s) = 64%nat.
Proof.
  assert (∀ {A B} (f : A → list B) n l, (∀ x, length (f x) = n) → length (mjoin (map f l)) = (length l * n)%nat) as Hj.
  { intros A B f n l Hf. induction l as [|x l IH]; simpl; [done|]. by rewrite length_app, Hf, IH. }
  unfold hexdigest, digest. rewrite (Hj _ _ _ 2%nat) by done. rewrite (Hj _ _ _ 4%nat) by done.
  by rewrite blocks_length.
Qed.
End Sha256.
