(* ===== verification/IpNet.v ===== *)
(** * IP networks

    The part of Python's [ipaddress] module the IPAM services use: networks,
    membership, overlap, containment, enumeration of sub-networks and
    [collapse_addresses].  An address is an integer of its family; the text of
    an address or network is canonical, so comparing texts is comparing values.
    The text of a CIDR typed by a caller is a [cidr_text]. *)
From S2P Require Import Prelude.
From Stdlib Require Export ZArith.

Module IpNet.
Local Open Scope Z_scope.

Inductive version := V4 | V6.

#[export] Instance version_eq_dec : EqDecision version.
Proof. solve_decision. Defined.

#[export] Instance version_countable : Countable version.
Proof.
  refine (inj_countable' (λ v, match v with V4 => true | V6 => false end)
            (λ b, if b then V4 else V6) _); by intros [].
Defined.

Definition max_prefixlen (v : version) : Z := match v with V4 => 32 | V6 => 128 end.

Record IPAddr := mkAddr { a_version : version; ip : Z }.

#[export] Instance IPAddr_eq_dec : EqDecision IPAddr.
Proof. solve_decision. Defined.

#[export] Instance IPAddr_countable : Countable IPAddr.
Proof.
  refine (inj_countable' (λ a, (a_version a, ip a)) (λ '(v, i), mkAddr v i) _); by intros [].
Defined.

Record IPNetwork := mkNet { ver : version; base : Z; prefixlen : Z }.

#[export] Instance IPNetwork_eq_dec : EqDecision IPNetwork.
Proof. solve_decision. Defined.

#[export] Instance IPNetwork_countable : Countable IPNetwork.
Proof.
  refine (inj_countable' (λ n, (ver n, base n, prefixlen n)) (λ '(v, b, p), mkNet v b p) _);
    by intros [].
Defined.

(** ** Properties of one network *)
Definition num_addresses (n : IPNetwork) : Z := 2 ^ (max_prefixlen (ver n) - prefixlen n).

Definition network_address (n : IPNetwork) : IPAddr := mkAddr (ver n) (base n).

Definition broadcast_address (n : IPNetwork) : IPAddr := mkAddr (ver n) (base n + num_addresses n - 1).

(** [a & mask]: the host bits of a block of [size] addresses cleared. *)
Definition masked (a size : Z) : Z := a - a mod size.

(** [a in n] *)
Definition contains (n : IPNetwork) (a : IPAddr) : bool :=
  bool_decide (ver n = a_version a) && (masked (ip a) (num_addresses n) =? base n).

Definition overlaps (n m : IPNetwork) : bool :=
  contains m (network_address n) || contains m (broadcast_address n)
  || contains n (network_address m) || contains n (broadcast_address m).

(** [a.subnet_of(b)]; [None] is the [TypeError] of mixed families. *)
Definition subnet_of (a b : IPNetwork) : option bool :=
  if bool_decide (ver a ≠ ver b) then None
  else Some ((base b <=? base a) && (ip (broadcast_address a) <=? ip (broadcast_address b))).

(** [n.subnets(new_prefix=p)] for [p] not shorter than the prefix of [n] and
    not past the family's. *)
Definition subnets (n : IPNetwork) (p : Z) : list IPNetwork :=
  let step := 2 ^ (max_prefixlen (ver n) - p) in
  map (λ i, mkNet (ver n) (base n + i * step) p) (seqZ 0 (2 ^ (p - prefixlen n))).

Definition supernet (n : IPNetwork) : IPNetwork :=
  if prefixlen n =? 0 then n
  else mkNet (ver n) (masked (base n) (2 * num_addresses n)) (prefixlen n - 1).

(** ** Parsing *)

(** A CIDR as the caller wrote it: in canonical form, in another spelling the
    parser reads as an address and a prefix length, or not a CIDR at all. *)
Inductive cidr_text :=
| Canonical (n : IPNetwork)
| Spelled (a : IPAddr) (p : Z)
| Garbled.

#[export] Instance cidr_text_eq_dec : EqDecision cidr_text.
Proof. solve_decision. Defined.

(** [ip_network(text, strict=False)]; [None] is the [ValueError]. *)
Definition ip_network (t : cidr_text) : option IPNetwork :=
  match t with
  | Canonical n => Some n
  | Spelled a p =>
      if (0 <=? p) && (p <=? max_prefixlen (a_version a))
      then Some (mkNet (a_version a) (masked (ip a) (2 ^ (max_prefixlen (a_version a) - p))) p)
      else None
  | Garbled => None
  end.

(** ** [collapse_addresses] *)

(** The merging loop of [_collapse_addresses_internal]: [to_merge] is the list
    (its last element is popped), [found] the dict from supernet to network. *)
Fixpoint merge_loop (fuel : nat) (to_merge : list IPNetwork) (found : gmap IPNetwork IPNetwork)
    : gmap IPNetwork IPNetwork :=
  match fuel, to_merge with
  | S fuel', net :: rest =>
      match found !! supernet net with
      | None => merge_loop fuel' rest (<[supernet net := net]> found)
      | Some existing =>
          if bool_decide (existing = net) then merge_loop fuel' rest found
          else merge_loop fuel' (supernet net :: rest) (delete (supernet net) found)
      end
  | _, _ => found
  end.

(** [sorted]'s order on networks of one family. *)
Definition net_le (n m : IPNetwork) : Prop :=
  base n < base m ∨ (base n = base m ∧ prefixlen n ≤ prefixlen m).

#[export] Instance net_le_dec : RelDecision net_le.
Proof. intros n m. unfold net_le. apply _. Defined.

Fixpoint drop_covered (last : option IPNetwork) (nets : list IPNetwork) : list IPNetwork :=
  match nets with
  | [] => []
  | n :: rest =>
      match last with
      | Some l =>
          if ip (broadcast_address n) <=? ip (broadcast_address l) then drop_covered last rest
          else n :: drop_covered (Some n) rest
      | None => n :: drop_covered (Some n) rest
      end
  end.

(** [collapse_addresses] on networks of one family.  Python summarises single
    addresses into ranges before the loop; the loop merges them to the same
    networks. *)
Definition collapse_addresses (nets : list IPNetwork) : list IPNetwork :=
  let found := merge_loop (2 * length nets) (rev nets) ∅ in
  drop_covered None (merge_sort net_le (map snd (map_to_list found))).

(** ** Well-formed networks

    Every network the parser or the module itself makes: a prefix length of
    its family, a base address with its host bits clear. *)
Definition wf (n : IPNetwork) : Prop :=
  0 ≤ prefixlen n ≤ max_prefixlen (ver n)
  ∧ 0 ≤ base n < 2 ^ max_prefixlen (ver n)
  ∧ base n mod num_addresses n = 0.

#[export] Instance wf_dec n : Decision (wf n).
Proof. unfold wf. apply _. Defined.

(** The address [a] of the family of [n] lies in [n]. *)
Definition mem (n : IPNetwork) (a : IPAddr) : Prop :=
  a_version a = ver n ∧ base n ≤ ip a < base n + num_addresses n.

Lemma num_addresses_pos n : 0 < num_addresses n ∨ max_prefixlen (ver n) < prefixlen n.
Proof. unfold num_addresses. destruct (Z.le_gt_cases (prefixlen n) (max_prefixlen (ver n))); [left; apply Z.pow_pos_nonneg; lia|lia]. Qed.

Lemma size_pos n : wf n → 0 < num_addresses n.
Proof. intros (H & _). destruct (num_addresses_pos n); lia. Qed.

#[export] Hint Resolve size_pos : spatium.

Lemma masked_le a s : 0 < s → masked a s ≤ a < masked a s + s.
Proof. unfold masked. intros H. pose proof (Z.mod_pos_bound a s H). lia. Qed.

Lemma masked_mod a s : 0 < s → masked a s mod s = 0.
Proof. intros H. unfold masked. rewrite Zminus_mod_idemp_r, Z.sub_diag. done. Qed.

Lemma masked_div a s : 0 < s → masked a s = s * (a / s).
Proof. intros H. unfold masked. pose proof (Z.div_mod a s ltac:(lia)). lia. Qed.

Lemma div_unique a b s : 0 < s → b mod s = 0 → b ≤ a < b + s → a / s = b / s.
Proof.
  intros Hs Hb Ha. apply Z.div_exact in Hb; [|lia].
  symmetry. apply Z.div_unique with (r := a - b); lia.
Qed.

Lemma size_total n : wf n → 2 ^ max_prefixlen (ver n) = 2 ^ prefixlen n * num_addresses n.
Proof.
  intros (H & _). unfold num_addresses. rewrite <- Z.pow_add_r by lia.
  by replace (prefixlen n + (max_prefixlen (ver n) - prefixlen n)) with (max_prefixlen (ver n)) by lia.
Qed.

(** A network ends inside its family's address space. *)
Lemma base_bound n : wf n → base n + num_addresses n ≤ 2 ^ max_prefixlen (ver n).
Proof.
  intros Hn. pose proof (size_pos n Hn). pose proof (size_total n Hn) as E.
  destruct Hn as (_ & H2 & H3). apply Z.div_exact in H3; [|lia].
  assert (base n / num_addresses n < 2 ^ prefixlen n) by (apply Z.div_lt_upper_bound; lia). nia.
Qed.

(** Membership: same block of [num_addresses] addresses. *)
Lemma mem_div n a : wf n →
  mem n a ↔ a_version a = ver n ∧ ip a / num_addresses n = base n / num_addresses n.
Proof.
  intros Hn. pose proof (size_pos n Hn) as Hs. destruct Hn as (_ & _ & Hm).
  unfold mem. split; intros [Hv H]; (split; [done|]).
  - by apply div_unique.
  - pose proof (Z.div_mod (ip a) (num_addresses n) ltac:(lia)).
    pose proof (Z.mod_pos_bound (ip a) (num_addresses n) Hs).
    apply Z.div_exact in Hm; [|lia]. nia.
Qed.

Lemma contains_mem n a : wf n → contains n a = true ↔ mem n a.
Proof.
  intros Hn. rewrite mem_div by done. pose proof (size_pos n Hn) as Hs. destruct Hn as (_ & _ & Hm).
  unfold contains. rewrite andb_true_iff, bool_decide_eq_true, Z.eqb_eq, masked_div by done.
  apply Z.div_exact in Hm; [|lia]. split; intros [Hv H]; (split; [congruence|]); nia.
Qed.

Lemma mem_network_address n : wf n → mem n (network_address n).
Proof. intros Hn. pose proof (size_pos n Hn). split; simpl; [done|lia]. Qed.

Lemma mem_broadcast n : wf n → mem n (broadcast_address n).
Proof. intros Hn. pose proof (size_pos n Hn). split; simpl; [done|lia]. Qed.

#[export] Hint Resolve mem_network_address mem_broadcast : spatium.

(** Sizes of two networks of one family divide one another. *)
Lemma size_split n m : wf n → wf m → ver n = ver m → prefixlen n ≤ prefixlen m →
  num_addresses n = num_addresses m * 2 ^ (prefixlen m - prefixlen n).
Proof.
  intros (H1 & _) (H2 & _) E H. unfold num_addresses. rewrite E in *.
  rewrite <- Z.pow_add_r by lia. f_equal. lia.
Qed.

(** Two networks with a common address are nested, the longer prefix inside. *)
Lemma nested n m a : wf n → wf m → prefixlen n ≤ prefixlen m → mem n a → mem m a →
  ∀ b, mem m b → mem n b.
Proof.
  intros Hn Hm Hp Ha Hb b Hbb. assert (Ev : ver n = ver m) by (destruct Ha, Hb; congruence).
  apply mem_div in Ha as [_ Ha]; [|done]. apply mem_div in Hb as [_ Hb]; [|done].
  apply mem_div in Hbb as [Hv Hbb]; [|done]. apply mem_div; [done|]. split; [congruence|].
  pose proof (size_pos m Hm). rewrite <- Ha, (size_split n m) by done.
  rewrite <- !Z.div_div by (try apply Z.pow_pos_nonneg; lia). congruence.
Qed.

(** [overlaps] decides whether two networks share an address. *)
Lemma overlaps_spec n m : wf n → wf m → overlaps n m = true ↔ ∃ a, mem n a ∧ mem m a.
Proof.
  intros Hn Hm. unfold overlaps. rewrite !orb_true_iff, !contains_mem by done. split.
  - intros [[[H|H]|H]|H]; eauto with spatium.
  - intros (a & Ha & Hb). destruct (Z.le_ge_cases (prefixlen n) (prefixlen m)) as [H|H].
    + left; right. apply (nested n m a); auto with spatium.
    + left; left; left. apply (nested m n a); auto with spatium.
Qed.

Lemma overlaps_sym n m : wf n → wf m → overlaps n m = overlaps m n.
Proof.
  intros Hn Hm. apply eq_true_iff_eq. rewrite !overlaps_spec by done. naive_solver.
Qed.

(** [subnet_of] decides inclusion. *)
Lemma subnet_of_spec a b : wf a → wf b →
  subnet_of a b = Some true ↔ ∀ x, mem a x → mem b x.
Proof.
  intros Ha Hb. pose proof (size_pos a Ha). pose proof (size_pos b Hb).
  unfold subnet_of. case_bool_decide as E.
  - split; [done|]. intros H1. destruct E.
    by destruct (H1 _ (mem_network_address a Ha)).
  - split.
    + intros [= [H1 H2]%andb_true_iff] x [Hx1 Hx2]. apply Z.leb_le in H1, H2. simpl in H2.
      split; [congruence|lia].
    + intros H1. destruct (H1 _ (mem_network_address a Ha)) as [_ L1].
      destruct (H1 _ (mem_broadcast a Ha)) as [_ L2]. simpl in *.
      f_equal. apply andb_true_iff. rewrite !Z.leb_le. simpl. lia.
Qed.

(** ** Sub-networks and supernets *)
Lemma size_with n p : num_addresses (mkNet (ver n) (base n) p) = 2 ^ (max_prefixlen (ver n) - p).
Proof. done. Qed.

Lemma elem_subnets n p m : wf n → prefixlen n ≤ p ≤ max_prefixlen (ver n) →
  m ∈ subnets n p ↔
  wf m ∧ ver m = ver n ∧ prefixlen m = p ∧ ∀ a, mem m a → mem n a.
Proof.
  intros Hn Hp. pose proof (size_pos n Hn) as Hs. pose proof Hn as (Hn1 & Hn2 & Hn3).
  assert (E : num_addresses n = 2 ^ (p - prefixlen n) * 2 ^ (max_prefixlen (ver n) - p)).
  { unfold num_addresses. rewrite <- Z.pow_add_r by lia. f_equal. lia. }
  assert (Hst : 0 < 2 ^ (max_prefixlen (ver n) - p)) by (apply Z.pow_pos_nonneg; lia).
  unfold subnets. rewrite list_elem_of_fmap. set (step := 2 ^ (max_prefixlen (ver n) - p)) in *.
  set (cnt := 2 ^ (p - prefixlen n)) in *. split.
  - intros (i & -> & Hi%elem_of_seqZ). split_and!; try done.
    + split_and!; simpl; [lia|lia|lia| |].
      * pose proof (base_bound n Hn). nia.
      * change (num_addresses _) with step. apply Z.div_exact in Hn3; [|lia]. rewrite Hn3, E.
        replace (cnt * step * (base n / (cnt * step)) + i * step)
          with ((cnt * (base n / (cnt * step)) + i) * step) by lia.
        apply Z.mod_mul. lia.
    + intros a [Hv Ha]. split; [done|]. simpl in Ha. change (num_addresses _) with step in Ha. nia.
  - intros (Hm & Hv & Hmp & Hin). pose proof Hm as (_ & _ & Hm3).
    assert (Es : num_addresses m = step) by (unfold num_addresses; by rewrite Hv, Hmp).
    rewrite Es in Hm3. destruct (Hin _ (mem_network_address m Hm)) as [_ L1].
    destruct (Hin _ (mem_broadcast m Hm)) as [_ L2]. simpl in L1, L2. rewrite Es in L2.
    apply Z.div_exact in Hm3; [|lia]. apply Z.div_exact in Hn3; [|lia].
    rewrite E in Hn3. set (k := base m / step) in *. set (j := base n / (cnt * step)) in *.
    exists (k - cnt * j). split.
    + destruct m as [mv mb mp]. simpl in *. subst mv mp. f_equal. lia.
    + apply elem_of_seqZ. nia.
Qed.

Lemma subnets_NoDup n p : prefixlen n ≤ p ≤ max_prefixlen (ver n) → NoDup (subnets n p).
Proof.
  intros Hp. unfold subnets. apply NoDup_fmap_2_strong; [|apply NoDup_seqZ].
  intros i j _ _ [= E]. assert (0 < 2 ^ (max_prefixlen (ver n) - p)) by (apply Z.pow_pos_nonneg; lia). nia.
Qed.

Lemma subnets_length n p : prefixlen n ≤ p → length (subnets n p) = Z.to_nat (2 ^ (p - prefixlen n)).
Proof. intros Hp. unfold subnets. by rewrite length_fmap, length_seqZ. Qed.

(** The sub-network of a prefix length an address falls into. *)
Definition block_of (n : IPNetwork) (p : Z) (a : IPAddr) : IPNetwork :=
  mkNet (ver n) (masked (ip a) (2 ^ (max_prefixlen (ver n) - p))) p.

Lemma subnets_cover n p a : wf n → prefixlen n ≤ p ≤ max_prefixlen (ver n) → mem n a →
  ∃ m, m ∈ subnets n p ∧ mem m a.
Proof.
  intros Hn Hp Ha. pose proof Hn as (Hn1 & Hn2 & Hn3).
  assert (Hst : 0 < 2 ^ (max_prefixlen (ver n) - p)) by (apply Z.pow_pos_nonneg; lia).
  exists (block_of n p a). pose proof (masked_le (ip a) _ Hst) as Hle.
  assert (Hw : 0 ≤ ip a < 2 ^ max_prefixlen (ver n)).
  { destruct Ha as [_ Ha]. pose proof (base_bound n Hn). lia. }
  assert (Hwf : wf (block_of n p a)).
  { split_and!; simpl; [lia|lia| |lia|].
    - rewrite masked_div by done. apply Z.mul_nonneg_nonneg; [lia|]. apply Z.div_pos; lia.
    - unfold num_addresses. simpl. by apply masked_mod. }
  assert (Hmem : mem (block_of n p a) a).
  { split; [by destruct Ha|]. unfold num_addresses. simpl. lia. }
  split; [|done]. apply elem_subnets; [done|done|]. split_and!; [done|done|done|].
  apply (nested n (block_of n p a) a); [done|done|simpl; lia|done|done].
Qed.

(** Two sub-networks of one length with a common address are equal. *)
Lemma same_length_disjoint n m a : wf n → wf m → prefixlen n = prefixlen m →
  mem n a → mem m a → n = m.
Proof.
  intros Hn Hm Hp Ha Hb. assert (Ev : ver n = ver m) by (destruct Ha, Hb; congruence).
  assert (Es : num_addresses n = num_addresses m) by (unfold num_addresses; congruence).
  apply mem_div in Ha as [_ Ha]; [|done]. apply mem_div in Hb as [_ Hb]; [|done].
  pose proof (size_pos n Hn). destruct Hn as (_ & _ & Hn), Hm as (_ & _ & Hm).
  rewrite <- Es in *. apply Z.div_exact in Hn, Hm; [|lia..].
  assert (base n = base m) by congruence. destruct n, m. simpl in *. congruence.
Qed.

Lemma ip_network_wf t n :
  (∀ m, t = Canonical m → wf m) →
  (∀ a p, t = Spelled a p → 0 ≤ ip a < 2 ^ max_prefixlen (a_version a)) →
  ip_network t = Some n → wf n.
Proof.
  intros H1 H2 H. destruct t as [m|a p|]; simpl in H; [|case_in H; injection H as <-|done].
  - injection H as <-. by apply H1.
  - apply andb_true_iff in E as [E1%Z.leb_le E2%Z.leb_le]. specialize (H2 _ _ eq_refl).
    assert (Hs : 0 < 2 ^ (max_prefixlen (a_version a) - p)) by (apply Z.pow_pos_nonneg; lia).
    pose proof (masked_le (ip a) _ Hs). split_and!; simpl; [lia|lia| |lia|].
    + rewrite masked_div by done. apply Z.mul_nonneg_nonneg; [lia|]. apply Z.div_pos; lia.
    + by apply masked_mod.
Qed.
End IpNet.
