(* ===== verification/IpCollapse.v ===== *)
(** * Collapsing networks

    What [ipaddress.collapse_addresses] ([IpNet.collapse_addresses]) returns on
    networks of one family: the same addresses, in pairwise disjoint networks of
    which no two are the halves of a third.  Hence it returns one network
    exactly when the input covers one. *)
From S2P Require Import Prelude IpNet.

Module IpCollapse.
Import IpNet.
Local Open Scope Z_scope.

(** ** Supernets *)
Lemma supernet_zero n : wf n → prefixlen n = 0 → supernet n = n.
Proof. intros _ H. unfold supernet. by rewrite H. Qed.

Lemma supernet_size n : wf n → prefixlen n ≠ 0 → num_addresses (supernet n) = 2 * num_addresses n.
Proof.
  intros (Hp & _) Hz. unfold supernet. apply Z.eqb_neq in Hz. rewrite Hz. apply Z.eqb_neq in Hz.
  unfold num_addresses. simpl. rewrite <- Z.pow_succ_r by lia. f_equal. lia.
Qed.

Lemma supernet_base n : prefixlen n ≠ 0 → base (supernet n) = masked (base n) (2 * num_addresses n).
Proof. intros Hz. unfold supernet. apply Z.eqb_neq in Hz. by rewrite Hz. Qed.

Lemma supernet_ver n : ver (supernet n) = ver n.
Proof. unfold supernet. by destruct (prefixlen n =? 0). Qed.

Lemma supernet_prefix n : prefixlen n ≠ 0 → prefixlen (supernet n) = prefixlen n - 1.
Proof. intros Hz. unfold supernet. apply Z.eqb_neq in Hz. by rewrite Hz. Qed.

Lemma supernet_wf n : wf n → wf (supernet n).
Proof.
  intros Hn. destruct (decide (prefixlen n = 0)) as [Hz|Hz]; [by rewrite supernet_zero|].
  pose proof (size_pos n Hn) as Hs. pose proof (supernet_size n Hn Hz) as E. pose proof (supernet_base n Hz) as B.
  pose proof Hn as (H1 & H2 & _). pose proof (masked_le (base n) (2 * num_addresses n) ltac:(lia)) as Hm.
  split_and!; rewrite ?supernet_prefix, ?supernet_ver, ?E, ?B by done; try lia.
  - rewrite masked_div by lia. apply Z.mul_nonneg_nonneg; [lia|]. apply Z.div_pos; lia.
  - apply masked_mod. lia.
Qed.

(** A network is the lower or the upper half of its supernet. *)
Lemma supernet_half n : wf n → prefixlen n ≠ 0 →
  base n = base (supernet n) ∨ base n = base (supernet n) + num_addresses n.
Proof.
  intros Hn Hz. pose proof (size_pos n Hn) as Hs. rewrite supernet_base by done. pose proof Hn as (_ & _ & H3).
  apply Z.div_exact in H3; [|lia]. unfold masked. set (z := num_addresses n) in *. set (q := base n / z) in *.
  rewrite H3. rewrite (Z.mul_comm 2 z), Z.mul_mod_distr_l by lia.
  pose proof (Z.mod_pos_bound q 2 ltac:(lia)) as Hq.
  assert (q mod 2 = 0 ∨ q mod 2 = 1) as [->| ->] by lia; [left|right]; lia.
Qed.

Lemma supernet_mem n a : wf n → mem n a → mem (supernet n) a.
Proof.
  intros Hn [Hv Ha]. destruct (decide (prefixlen n = 0)) as [Hz|Hz]; [by rewrite supernet_zero|].
  pose proof (supernet_half n Hn Hz). pose proof (supernet_size n Hn Hz). pose proof (size_pos n Hn).
  split; [by rewrite supernet_ver|lia].
Qed.

(** Two networks with one supernet make it up. *)
Lemma supernet_halves n m a : wf n → wf m → supernet n = supernet m → n ≠ m →
  mem (supernet n) a → mem n a ∨ mem m a.
Proof.
  intros Hn Hm E Hne Ha. destruct (decide (prefixlen n = 0)) as [Hz|Hz]; [left; by rewrite supernet_zero in Ha|].
  destruct (decide (prefixlen m = 0)) as [Hy|Hy]; [right; rewrite E in Ha; by rewrite supernet_zero in Ha|].
  pose proof (f_equal ver E) as Ev. rewrite !supernet_ver in Ev.
  pose proof (f_equal prefixlen E) as Ep. rewrite !supernet_prefix in Ep by done.
  pose proof (f_equal base E) as Eb. pose proof (f_equal num_addresses E) as Es. rewrite !supernet_size in Es by done.
  pose proof (supernet_half n Hn Hz) as H1. pose proof (supernet_half m Hm Hy) as H2.
  assert (base n ≠ base m). { intros Ebb. apply Hne. destruct n, m. simpl in *. f_equal; [done..|lia]. }
  destruct Ha as [Hv Ha]. rewrite supernet_ver in Hv. rewrite supernet_size in Ha by done.
  destruct (Z.lt_ge_cases (ip a) (base (supernet n) + num_addresses n)), H1, H2;
    first [lia|left; split; [done|lia]|right; split; [congruence|lia]].
Qed.

(** ** The merging loop *)
Section merge.
Context (v : version).

Definition uniform (l : list IPNetwork) : Prop := ∀ n, n ∈ l → wf n ∧ ver n = v.

Definition found_ok (found : gmap IPNetwork IPNetwork) : Prop :=
  ∀ k n, found !! k = Some n → supernet n = k ∧ wf n ∧ ver n = v.

(** The addresses of the networks still to merge and of those found. *)
Definition covered (l : list IPNetwork) (found : gmap IPNetwork IPNetwork) (a : IPAddr) : Prop :=
  (∃ n, n ∈ l ∧ mem n a) ∨ ∃ k n, found !! k = Some n ∧ mem n a.

Lemma merge_loop_spec fuel l found : uniform l → found_ok found →
  (2 * length l + size found ≤ fuel)%nat →
  found_ok (merge_loop fuel l found)
  ∧ ∀ a, covered [] (merge_loop fuel l found) a ↔ covered l found a.
Proof.
  revert l found. induction fuel as [|fuel IH]; intros l found Hl Hf Hfuel.
  - destruct l; [done|simpl in Hfuel; lia].
  - destruct l as [|n l]; [done|]. cbn [merge_loop]. simpl in Hfuel.
    destruct (Hl n ltac:(left)) as [Hn Hv]. assert (Hl' : uniform l) by (intros m Hm; apply Hl; by right).
    destruct (found !! supernet n) as [e|] eqn:Ee.
    + destruct (Hf _ _ Ee) as (Es & He & Hve). case_bool_decide as Hd; [subst e|].
      * destruct (IH l found Hl' Hf ltac:(lia)) as [H1 H2]. split; [done|]. intros a. rewrite H2. split.
        -- intros [(m & Hm & Ha)|H]; [left; exists m; split; [by right|done]|by right].
        -- intros [(m & [->|Hm]%elem_of_cons & Ha)|H]; [right; eauto|left; eauto|by right].
      * destruct (IH (supernet n :: l) (delete (supernet n) found)) as [H1 H2].
        -- intros m [->|Hm]%elem_of_cons; [split; [by apply supernet_wf|by rewrite supernet_ver]|by apply Hl'].
        -- intros k m [_ H]%lookup_delete_Some. by apply Hf.
        -- simpl. rewrite map_size_delete_Some by (by eexists). pose proof (map_size_ne_0_lookup_2 found _ (mk_is_Some _ _ Ee)). lia.
        -- split; [done|]. intros a. rewrite H2. split.
           ++ intros [(m & [->|Hm]%elem_of_cons & Ha)|(k & m & [_ Hk]%lookup_delete_Some & Ha)].
              ** rewrite <- Es in Ha. destruct (supernet_halves e n a He Hn Es Hd Ha); [right; eauto|].
                 left. exists n. split; [left|done].
              ** left. exists m. split; [by right|done].
              ** right. eauto.
           ++ intros [(m & [->|Hm]%elem_of_cons & Ha)|(k & m & Hk & Ha)].
              ** left. exists (supernet n). split; [left|by apply supernet_mem].
              ** left. exists m. split; [by right|done].
              ** destruct (decide (k = supernet n)) as [->|Hk'].
                 --- left. exists (supernet n). split; [left|]. rewrite Ee in Hk. injection Hk as <-.
                     rewrite <- Es. by apply supernet_mem.
                 --- right. exists k, m. split; [|done]. by rewrite lookup_delete_ne.
    + destruct (IH l (<[supernet n := n]> found) Hl') as [H1 H2].
      * intros k m [[<- <-]|[_ H]]%lookup_insert_Some; [done|by apply Hf].
      * rewrite map_size_insert_None by done. lia.
      * split; [done|]. intros a. rewrite H2. split.
        -- intros [(m & Hm & Ha)|(k & m & [[_ <-]|[_ Hk]]%lookup_insert_Some & Ha)];
             [left; exists m; split; [by right|done]|left; exists n; split; [left|done]|right; eauto].
        -- intros [(m & [->|Hm]%elem_of_cons & Ha)|(k & m & Hk & Ha)]; [|left; eauto|].
           ++ right. exists (supernet n), n. by rewrite lookup_insert_eq.
           ++ right. exists k, m. split; [|done]. rewrite lookup_insert_ne; [done|congruence].
Qed.
End merge.

(** ** Dropping what is covered *)
Definition before (x y : IPNetwork) : Prop := ip (broadcast_address x) < base y.

#[export] Instance net_le_trans : Transitive net_le.
Proof. intros x y z. unfold net_le. lia. Qed.
#[export] Instance net_le_total : Total net_le.
Proof. intros x y. unfold net_le. lia. Qed.

Section drop.
Context (v : version).

(** In the sorted order a network starts inside, or after, an earlier one. *)
Lemma sorted_nested x y : wf x → wf y → ver x = ver y → net_le x y →
  if ip (broadcast_address y) <=? ip (broadcast_address x) then (∀ a, mem y a → mem x a) else before x y.
Proof.
  intros Hx Hy Hv Hle. destruct (Z.leb_spec (ip (broadcast_address y)) (ip (broadcast_address x))) as [H|H]; simpl in H.
  - intros a [Hva Ha]. split; [congruence|]. destruct Hle as [?|[? ?]]; lia.
  - unfold before. simpl. destruct (Z.lt_ge_cases (base x + num_addresses x - 1) (base y)) as [|Hge]; [done|exfalso].
    assert (Hm : mem x (network_address y)) by (split; [done|]; simpl; destruct Hle as [?|[? ?]]; lia).
    pose proof (mem_network_address y Hy) as Hmy.
    destruct (Z.le_ge_cases (prefixlen x) (prefixlen y)) as [Hp|Hp].
    + destruct (nested x y _ Hx Hy Hp Hm Hmy _ (mem_broadcast y Hy)) as [_ Hb]. simpl in Hb. lia.
    + destruct (nested y x _ Hy Hx Hp Hmy Hm _ (mem_network_address x Hx)) as [_ Hb]. simpl in Hb.
      pose proof (size_split y x Hy Hx (eq_sym Hv) Hp) as Es.
      destruct Hle as [?|[Eb Hp']]; [lia|]. assert (prefixlen x = prefixlen y) as Ep by lia.
      unfold num_addresses in *. rewrite Hv, Ep in *. lia.
Qed.

Lemma drop_covered_spec last l : uniform v (match last with Some x => x :: l | None => l end) →
  StronglySorted net_le (match last with Some x => x :: l | None => l end) →
  (∀ x, x ∈ drop_covered last l → x ∈ l)
  ∧ (∀ x, x ∈ l → (∃ y, last = Some y ∧ ∀ a, mem x a → mem y a)
                   ∨ ∃ y, y ∈ drop_covered last l ∧ ∀ a, mem x a → mem y a)
  ∧ (∀ y, last = Some y → Forall (before y) (drop_covered last l))
  ∧ StronglySorted before (drop_covered last l).
Proof.
  revert last. induction l as [|n l IH]; intros last Hu Hs.
  - simpl. split_and!; [done|by intros x ?%not_elem_of_nil| |]; [intros; constructor|constructor].
  - assert (Hn : wf n ∧ ver n = v) by (apply Hu; destruct last; repeat constructor).
    assert (Hun : uniform v (n :: l)) by (intros x Hx; apply Hu; destruct last; [by right|done]).
    assert (Hsn : StronglySorted net_le (n :: l)) by (destruct last; [by apply StronglySorted_inv in Hs as [? _]|done]).
    assert (Keep : drop_covered last (n :: l) = n :: drop_covered (Some n) l →
      (∀ y, last = Some y → before y n) →
      (∀ x, x ∈ n :: drop_covered (Some n) l → x ∈ n :: l)
      ∧ (∀ x, x ∈ n :: l → (∃ y, last = Some y ∧ ∀ a, mem x a → mem y a)
                   ∨ ∃ y, y ∈ n :: drop_covered (Some n) l ∧ ∀ a, mem x a → mem y a)
      ∧ (∀ y, last = Some y → Forall (before y) (n :: drop_covered (Some n) l))
      ∧ StronglySorted before (n :: drop_covered (Some n) l)).
    { intros _ Hb. destruct (IH (Some n) Hun Hsn) as (H1 & H2 & H3 & H4). specialize (H3 n eq_refl). split_and!.
      - intros x [->|Hx]%elem_of_cons; [left|right; by apply H1].
      - intros x [->|Hx]%elem_of_cons; [right; exists n; split; [left|done]|].
        destruct (H2 x Hx) as [(y & [= <-] & Hy)|(y & Hy & Hxy)]; right; [exists n|exists y]; (split; [|done]); [left|by right].
      - intros y Hy. constructor; [by apply Hb|]. eapply Forall_impl; [exact H3|]. intros z Hz.
        specialize (Hb y Hy). unfold before in *. simpl in *. pose proof (size_pos n (proj1 Hn)). lia.
      - by constructor. }
    cbn [drop_covered] in *. destruct last as [x|]; [|by apply Keep].
    apply StronglySorted_inv in Hs as [Hs Hx]. pose proof (Forall_inv Hx) as Hxn.
    destruct (Hu x ltac:(left)) as [Hwx Hvx]. pose proof (sorted_nested x n Hwx (proj1 Hn)) as Hnest.
    specialize (Hnest ltac:(destruct Hn; congruence) Hxn).
    destruct (ip (broadcast_address n) <=? ip (broadcast_address x)).
    + destruct (IH (Some x)) as (H1 & H2 & H3 & H4).
      * intros y [->|Hy]%elem_of_cons; apply Hu; [left|right; by right].
      * apply StronglySorted_inv in Hsn as [? _]. constructor; [done|]. by apply Forall_inv_tail in Hx.
      * split_and!; [intros y Hy; right; by apply H1| |done..].
        intros y [->|Hy]%elem_of_cons; [left; by exists x|by apply H2].
    + apply Keep; [done|]. by intros y [= <-].
Qed.
End drop.

(** ** The result *)
Section collapse.
Context (v : version) (nets : list IPNetwork) (Hu : uniform v nets).

Lemma collapse_spec :
  uniform v (collapse_addresses nets)
  ∧ (∀ a, (∃ x, x ∈ collapse_addresses nets ∧ mem x a) ↔ ∃ x, x ∈ nets ∧ mem x a)
  ∧ StronglySorted before (collapse_addresses nets)
  ∧ ∀ x y, x ∈ collapse_addresses nets → y ∈ collapse_addresses nets → supernet x = supernet y → x = y.
Proof.
  unfold collapse_addresses. set (found := merge_loop _ _ _).
  destruct (merge_loop_spec v (2 * length nets) (rev nets) ∅) as [Hf Hc].
  { intros x Hx. apply Hu. by rewrite list_elem_of_In, <- in_rev, <- list_elem_of_In in Hx. }
  { by intros k n Hk; rewrite lookup_empty in Hk. }
  { rewrite map_size_empty, length_rev. lia. }
  fold found in Hf, Hc. set (vals := merge_sort net_le _).
  assert (Hv : ∀ x, x ∈ vals ↔ ∃ k, found !! k = Some x).
  { intros x. unfold vals. rewrite merge_sort_Permutation, list_elem_of_fmap. split.
    - intros ([k y] & -> & Hk%elem_of_map_to_list). by exists k.
    - intros [k Hk%elem_of_map_to_list]. by exists (k, x). }
  assert (Huv : uniform v vals) by (intros x [k Hk]%Hv; by apply Hf in Hk as (_ & ? & ?)).
  destruct (drop_covered_spec v None vals Huv) as (H1 & H2 & _ & H4); [apply StronglySorted_merge_sort; apply _|].
  split_and!; [intros x Hx; by apply Huv, H1| |done|].
  - intros a. transitivity (covered [] found a); [|rewrite Hc].
    + split.
      * intros (x & [k Hk]%H1%Hv & Ha). right. eauto.
      * intros [(x & []%not_elem_of_nil & _)|(k & x & Hk & Ha)].
        destruct (H2 x) as [(y & [=] & _)|(y & Hy & Hxy)]; [apply Hv; eauto|]. eauto.
    + split.
      * intros [(x & Hx & Ha)|(k & x & Hk & _)]; [|by rewrite lookup_empty in Hk].
        exists x. split; [|done]. by rewrite list_elem_of_In, <- in_rev, <- list_elem_of_In in Hx.
      * intros (x & Hx & Ha). left. exists x. split; [|done]. by rewrite list_elem_of_In, <- in_rev, <- list_elem_of_In.
  - intros x y [k Hk]%H1%Hv [k' Hk']%H1%Hv E.
    destruct (Hf _ _ Hk) as (<- & _), (Hf _ _ Hk') as (<- & _). rewrite E, Hk' in Hk. by injection Hk.
Qed.

Lemma before_disjoint (l : list IPNetwork) x y a : StronglySorted before l → x ∈ l → y ∈ l → mem x a → mem y a → x = y.
Proof.
  induction 1 as [|z l Hs IH Hz]; intros Hx Hy Ha Hb; [by apply not_elem_of_nil in Hx|].
  assert (D : ∀ u, u ∈ l → mem z a → mem u a → False).
  { intros u Hin [_ H1] [_ H2]. apply (proj1 (Forall_forall _ _) Hz) in Hin. unfold before in Hin. simpl in Hin. lia. }
  apply elem_of_cons in Hx as [->|Hx], Hy as [->|Hy]; [done|exfalso; by eapply D..|by apply IH].
Qed.

Lemma longest (l : list IPNetwork) : l ≠ [] → ∃ m, m ∈ l ∧ ∀ x, x ∈ l → prefixlen x ≤ prefixlen m.
Proof.
  induction l as [|y l IH]; [done|]. intros _. destruct l as [|z l'].
  - exists y. split; [left|]. by intros x ->%list_elem_of_singleton.
  - destruct IH as (m & Hm & Hmax); [done|]. destruct (Z.le_ge_cases (prefixlen y) (prefixlen m)) as [H|H].
    + exists m. split; [by right|]. intros x [->|Hx]%elem_of_cons; [done|by apply Hmax].
    + exists y. split; [left|]. intros x [->|Hx]%elem_of_cons; [lia|]. specialize (Hmax x Hx). lia.
Qed.

(** Networks that cover exactly one network collapse to it. *)
Lemma collapse_single n : wf n → (∀ a, mem n a ↔ ∃ x, x ∈ nets ∧ mem x a) → collapse_addresses nets = [n].
Proof.
  intros Hn Hcov. destruct collapse_spec as (Huc & Hc & Hs & Hsup). set (out := collapse_addresses nets) in *.
  assert (Hco : ∀ a, mem n a ↔ ∃ x, x ∈ out ∧ mem x a) by (intros a; by rewrite Hcov, Hc). clear Hc Hcov.
  assert (Hne : out ≠ []).
  { intros E. destruct (proj1 (Hco _) (mem_network_address n Hn)) as (x & Hx & _). rewrite E in Hx. by apply not_elem_of_nil in Hx. }
  destruct (longest out Hne) as (m & Hm & Hmax). destruct (Huc m Hm) as [Hwm Hvm].
  assert (Hmn : ∀ a, mem m a → mem n a) by (intros a Ha; apply Hco; eauto).
  assert (Hnm : n ∈ out).
  { destruct (Z.lt_ge_cases (prefixlen n) (prefixlen m)) as [Hlt|Hge].
    - exfalso. pose proof (supernet_wf m Hwm) as Hws.
      assert (Hz : prefixlen m ≠ 0) by (destruct Hn as (? & _); lia).
      assert (Hsn : ∀ a, mem (supernet m) a → mem n a).
      { apply (nested n (supernet m) (network_address m)); [done..|rewrite supernet_prefix by done; lia| |];
          [apply Hmn|apply supernet_mem]; auto with spatium. }
      (* an address of the supernet outside m *)
      pose proof (supernet_half m Hwm Hz) as Hh. pose proof (supernet_size m Hwm Hz) as Hsz. pose proof (size_pos m Hwm).
      set (a := mkAddr (ver m) (if base m =? base (supernet m) then base m + num_addresses m else base (supernet m))).
      assert (Ha : mem (supernet m) a ∧ ¬ mem m a).
      { unfold a, mem. rewrite supernet_ver. simpl. destruct (Z.eqb_spec (base m) (base (supernet m))); (split; [split; [done|lia]|]); intros [_ ?]; lia. }
      destruct Ha as [Ha Hna]. destruct (proj1 (Hco a) (Hsn a Ha)) as (x & Hx & Hxa). destruct (Huc x Hx) as [Hwx Hvx].
      destruct (Z.lt_ge_cases (prefixlen x) (prefixlen m)) as [Hl|Hg].
      + assert (Hxm : ∀ c, mem m c → mem x c).
        { intros c Hcm. apply (nested x (supernet m) a); [done..|rewrite supernet_prefix by done; lia|done|done|].
          by apply supernet_mem. }
        assert (x = m) as ->; [|done]. apply (before_disjoint out x m (network_address m) Hs Hx Hm); auto with spatium.
      + assert (Ep : prefixlen x = prefixlen m) by (specialize (Hmax x Hx); lia).
        assert (x = m) as ->; [|done]. apply Hsup; [done..|].
        apply (same_length_disjoint _ _ a); [by apply supernet_wf|done|by rewrite !supernet_prefix by lia; lia| |done].
        by apply supernet_mem.
    - assert (n = m) as ->; [|done]. apply (same_length_disjoint n m (network_address m)); [done..| | |auto with spatium].
      + destruct (Z.lt_ge_cases (prefixlen m) (prefixlen n)) as [Hl|]; [exfalso|lia].
        assert (Hv : ver n = ver m) by (destruct (Hmn _ (mem_network_address m Hwm)) as [? _]; done).
        pose proof (size_split m n Hwm Hn (eq_sym Hv) ltac:(lia)) as Es. pose proof (size_pos n Hn).
        destruct (Hmn _ (mem_network_address m Hwm)) as [_ L1], (Hmn _ (mem_broadcast m Hwm)) as [_ L2]. simpl in *.
        assert (2 ^ 1 ≤ 2 ^ (prefixlen n - prefixlen m)) by (apply Z.pow_le_mono_r; lia). nia.
      + apply Hmn. auto with spatium. }
  assert (Hall : ∀ x, x ∈ out → x = n).
  { intros x Hx. destruct (Huc x Hx) as [Hwx _].
    apply (before_disjoint out x n (network_address x) Hs Hx Hnm); [auto with spatium|].
    apply Hco. exists x. auto with spatium. }
  destruct out as [|x [|y l]]; [done|f_equal; by apply Hall; left|exfalso].
  rewrite (Hall x ltac:(left)), (Hall y ltac:(right; left)) in Hs.
  apply StronglySorted_inv in Hs as [_ Hb]. apply Forall_inv in Hb. unfold before in Hb. simpl in Hb.
  pose proof (size_pos n Hn). lia.
Qed.
End collapse.

(** ** Sizes *)
Definition addresses (n : IPNetwork) : list IPAddr := map (mkAddr (ver n)) (seqZ (base n) (num_addresses n)).

Lemma elem_addresses n a : a ∈ addresses n ↔ mem n a.
Proof.
  unfold addresses, mem. rewrite list_elem_of_fmap. setoid_rewrite elem_of_seqZ. split.
  - intros (i & -> & Hi). done.
  - intros [Hv Ha]. exists (ip a). split; [destruct a; simpl in *; congruence|done].
Qed.

Lemma addresses_NoDup n : NoDup (addresses n).
Proof. apply NoDup_fmap_2_strong; [by intros x y _ _ [=]|apply NoDup_seqZ]. Qed.

Lemma addresses_length n : wf n → Z.of_nat (length (addresses n)) = num_addresses n.
Proof. intros Hn. pose proof (size_pos n Hn). unfold addresses. rewrite length_fmap, length_seqZ. lia. Qed.

(** Disjoint entries, the repetition of one included. *)
Fixpoint disjoint_list (l : list IPNetwork) : Prop :=
  match l with
  | [] => True
  | n :: rest => (∀ m a, m ∈ rest → mem n a → ¬ mem m a) ∧ disjoint_list rest
  end.

Lemma disjoint_NoDup l : disjoint_list l ↔ NoDup (mjoin (map addresses l)).
Proof.
  induction l as [|n l IH]; simpl; [by split; [constructor|]|]. rewrite NoDup_app, IH.
  assert (E : (∀ m a, m ∈ l → mem n a → ¬ mem m a) ↔ (∀ a, a ∈ addresses n → a ∉ mjoin (map addresses l))).
  { split.
    - intros H a Ha (k & Hk & (m & -> & Hm)%list_elem_of_fmap)%list_elem_of_join. apply elem_addresses in Ha, Hk. by eapply H.
    - intros H m a Hm Ha Hb. apply (H a); [by apply elem_addresses|]. apply list_elem_of_join.
      exists (addresses m). split; [by apply elem_addresses|by apply list_elem_of_fmap_2]. }
  rewrite E. pose proof (addresses_NoDup n). tauto.
Qed.

Definition total (l : list IPNetwork) : Z := foldr (λ n t, num_addresses n + t) 0 l.

Lemma total_length l : (∀ n, n ∈ l → wf n) → Z.of_nat (length (mjoin (map addresses l))) = total l.
Proof.
  induction l as [|n l IH]; intros H; [done|]. simpl. rewrite length_app, Nat2Z.inj_add, addresses_length, IH; [done| |].
  - intros m Hm. apply H. by right.
  - apply H. left.
Qed.

(** A cover of [n] has its size exactly when its networks are disjoint. *)
Lemma total_cover l n : (∀ m, m ∈ l → wf m) → wf n → (∀ a, mem n a ↔ ∃ m, m ∈ l ∧ mem m a) →
  total l = num_addresses n ↔ disjoint_list l.
Proof.
  intros Hl Hn Hc. rewrite <- total_length, <- addresses_length, disjoint_NoDup by done.
  assert (He : ∀ a, a ∈ addresses n ↔ a ∈ mjoin (map addresses l)).
  { intros a. rewrite elem_addresses, Hc, list_elem_of_join. split.
    - intros (m & Hm & Ha). exists (addresses m). split; [by apply elem_addresses|by apply list_elem_of_fmap_2].
    - intros (k & Hk & (m & -> & Hm)%list_elem_of_fmap). exists m. by rewrite elem_addresses in Hk. }
  split.
  - intros E. assert (P : addresses n ≡ₚ mjoin (map addresses l)).
    { apply submseteq_length_Permutation; [|lia]. apply NoDup_submseteq; [apply addresses_NoDup|]. intros a. by rewrite He. }
    rewrite <- P. apply addresses_NoDup.
  - intros Hd. f_equal. apply Permutation_length. symmetry.
    apply submseteq_length_Permutation; [apply NoDup_submseteq; [apply addresses_NoDup|intros a; by rewrite He]|].
    apply submseteq_length, NoDup_submseteq; [done|]. intros a. by rewrite He.
Qed.
End IpCollapse.
