(* ===== verification/PyValue.v ===== *)
(** * Python's view of JSON values

    What code that handles free-form JSON (a dict of DHCP options) uses of
    Python: [str()], [repr()] and [==] on such values, [int()] and
    [ipaddress.ip_address()] on texts, and insertion-ordered dicts as lists of
    items.  CPython's cap of 4300 digits on [int()] is left out: where it would
    strike, the modelled code refuses the value anyway, with another message. *)
From stdpp Require Import pretty.
From S2P Require Import IpNet PyStr Json.
Import Json IpNet(version, V4, V6, version_eq_dec).

Set Warnings "-register-all".

Module PyValue.

(** ** Dicts: items in insertion order *)
Section dict.
Context {A : Type}.
Implicit Types (d : list (str * A)).

(** [d.get(k)] *)
Fixpoint dget (k : str) d : option A :=
  match d with
  | [] => None
  | (k', v) :: d' => if bool_decide (k = k') then Some v else dget k d'
  end.

(** [d[k] = v]: an existing key keeps its place. *)
Fixpoint dset (k : str) (v : A) d : list (str * A) :=
  match d with
  | [] => [(k, v)]
  | (k', v') :: d' => if bool_decide (k = k') then (k, v) :: d' else (k', v') :: dset k v d'
  end.

Definition dmem (k : str) d : bool := bool_decide (k ∈ map fst d).

(** A dict built by a loop or a comprehension over items: later ones win. *)
Definition dict_of (items : list (str * A)) : list (str * A) :=
  foldl (λ d '(k, v), dset k v d) [] items.
End dict.

(** ** [repr] and [str] *)

(** [str.isprintable] on one Latin-1 character. *)
Definition printable (c : ascii) : bool :=
  negb (ord c <? 32) && negb (between 127 160 c) && negb (ord c =? 173).

Definition SQ : ascii := ascii_of_nat 39.

Definition repr_char (q c : ascii) : str :=
  if chr_is q c || chr_is "\" c then ["\"%char; c]
  else if ord c =? 10 then "\n" else if ord c =? 13 then "\r" else if ord c =? 9 then "\t"
  else if printable c then [c]
  else "\x" ++ [hex_digit (ord c / 16); hex_digit (ord c mod 16)].

Definition repr_str (s : str) : str :=
  let q := if contains SQ s && negb (contains QUOTE s) then QUOTE else SQ in
  q :: mjoin (map (repr_char q) s) ++ [q].

Fixpoint py_repr (v : json) : str :=
  match v with
  | JNull => "None"
  | JBool true => "True"
  | JBool false => "False"
  | JInt z => str_of_Z z
  | JFloat t => t
  | JStr s => repr_str s
  | JArr l => "[" ++ join ", " (map py_repr l) ++ "]"
  | JObj kvs => "{" ++ join ", " (map (λ '(k, x), repr_str k ++ ": " ++ py_repr x) kvs) ++ "}"
  | JOther s => s
  end.

Definition py_str (v : json) : str := match v with JStr s => s | _ => py_repr v end.

(** ** Truth and equality *)
Definition truthy (v : json) : bool :=
  match v with
  | JNull | JBool false => false
  | JInt z => negb (z =? 0)%Z
  | JFloat t => negb (bool_decide (t = "0.0") || bool_decide (t = "-0.0"))
  | JStr s => negb (bool_decide (s = []))
  | JArr l => negb (bool_decide (length l = 0))
  | JObj kvs => negb (bool_decide (length kvs = 0))
  | _ => true
  end.

(** Booleans are the integers 0 and 1. *)
Definition as_int (v : json) : option Z :=
  match v with JBool b => Some (Z.b2z b) | JInt z => Some z | _ => None end.

Section equality.
(** Does the float with this [repr] equal this integer?  (Python's floats.) *)
Variable float_is : str → Z → bool.

Definition unsigned_zero (t : str) : str := if bool_decide (t = "-0.0") then "0.0" else t.

Definition scalar_eq (v w : json) : bool :=
  match v, w with
  | JNull, JNull => true
  | JFloat t, JFloat u => bool_decide (unsigned_zero t = unsigned_zero u)
  | JFloat t, _ => from_option (float_is t) false (as_int w)
  | _, JFloat t => from_option (float_is t) false (as_int v)
  | JStr s, JStr t | JOther s, JOther t => bool_decide (s = t)
  | _, _ => match as_int v, as_int w with Some a, Some b => (a =? b)%Z | _, _ => false end
  end.

(** [v == w]; two dicts are equal when they have the same items. *)
Fixpoint py_eq (v w : json) : bool :=
  match v, w with
  | JArr l, JArr l' =>
      (fix go l l' := match l, l' with
                      | [], [] => true
                      | x :: l, y :: l' => py_eq x y && go l l'
                      | _, _ => false
                      end) l l'
  | JObj kvs, JObj kvs' =>
      bool_decide (length kvs = length kvs') &&
      forallb (λ '(k, x), match dget k kvs' with Some y => py_eq x y | None => false end) kvs
  | JArr _, _ | JObj _, _ | _, JArr _ | _, JObj _ => false
  | _, _ => scalar_eq v w
  end.
End equality.

(** ** [int(s)] *)

(** Decimal digits, single underscores allowed between them. *)
Fixpoint digits_int (acc : Z) (after_digit : bool) (s : str) : option Z :=
  match s with
  | [] => if after_digit then Some acc else None
  | c :: s' =>
      if is_digit c then digits_int (10 * acc + Z.of_nat (ord c - 48)) true s'
      else if chr_is "_" c && after_digit then digits_int acc false s'
      else None
  end.

Definition int_of_str (s : str) : option Z :=
  match strip is_space s with
  | c :: s' =>
      if chr_is "-" c then Z.opp <$> digits_int 0 false s'
      else if chr_is "+" c then digits_int 0 false s'
      else digits_int 0 false (c :: s')
  | [] => None
  end.

(** A run of digits is an integer. *)
Lemma digits_int_Some acc b s : forallb is_digit s = true → b = true ∨ s ≠ [] → is_Some (digits_int acc b s).
Proof.
  revert acc b. induction s as [|c s IH]; intros acc b Hs Hb; simpl in *.
  - destruct Hb as [->|]; [by eexists|done].
  - bool_hyps. rewrite H. apply IH; [done|by left].
Qed.

Lemma digits_int_of_str s : forallb is_digit s = true → s ≠ [] → int_of_str s ≠ None.
Proof.
  intros Hs Hn. unfold int_of_str. rewrite strip_none.
  - destruct s as [|c s]; [done|]. destruct (digits_int_Some 0 false (c :: s) Hs) as [z Hz]; [by right|].
    simpl in Hs. bool_hyps. assert (chr_is "-" c = false ∧ chr_is "+" c = false) as [-> ->]; [|by rewrite Hz].
    split; apply not_true_iff_false; intros ->%chr_is_true; done.
  - apply (forallb_impl is_digit), Hs. apply ascii_subclass. vm_compute. reflexivity.
Qed.

Lemma pretty_N_char_digit m : (m < 10)%N →
  is_digit (pretty_N_char m) = true ∧ Z.of_nat (ord (pretty_N_char m) - 48) = Z.of_N m.
Proof.
  intros Hm. assert (m ∈ map N.of_nat (seq 0 10)) as Hin.
  { apply list_elem_of_fmap. exists (N.to_nat m). split; [by rewrite N2Nat.id|]. apply elem_of_seq. lia. }
  simpl in Hin. repeat (apply elem_of_cons in Hin as [->|Hin]; [by vm_compute|]). by apply elem_of_nil in Hin.
Qed.

Lemma pretty_N_go_digits n s : forallb is_digit (String.list_ascii_of_string s) = true →
  forallb is_digit (String.list_ascii_of_string (pretty_N_go n s)) = true.
Proof.
  revert s. induction (N.lt_wf_0 n) as [n _ IH]; intros s Hs. destruct (decide (n = 0%N)) as [->|Hn]; [done|].
  rewrite pretty_N_go_step by lia. apply IH; [apply N.div_lt; lia|]. simpl.
  assert (n `mod` 10 < 10)%N as Hm by (by apply N.mod_lt). by rewrite (proj1 (pretty_N_char_digit _ Hm)).
Qed.

(** [int(str(z)) = z] for a non-negative [z], and its digits. *)
Lemma pretty_N_go_int n s b : digits_int 0 b (String.list_ascii_of_string (pretty_N_go n s)) =
  if bool_decide (n = 0)%N then digits_int 0 b (String.list_ascii_of_string s)
  else digits_int (Z.of_N n) true (String.list_ascii_of_string s).
Proof.
  revert s b. induction (N.lt_wf_0 n) as [n _ IH]; intros s b. destruct (decide (n = 0%N)) as [->|Hn]; [done|].
  rewrite (bool_decide_false (n = 0%N)) by done. rewrite pretty_N_go_step by lia.
  assert (n `div` 10 < n)%N by (apply N.div_lt; lia). rewrite IH by done.
  assert (n `mod` 10 < 10)%N as Hm by (by apply N.mod_lt).
  assert (∀ acc b', digits_int acc b' (String.list_ascii_of_string (String.String (pretty_N_char (n `mod` 10)) s))
    = digits_int (10 * acc + Z.of_N (n `mod` 10)) true (String.list_ascii_of_string s)) as Hd.
  { intros acc b'. revert Hm. generalize (n `mod` 10)%N as m. intros m Hm.
    destruct (pretty_N_char_digit m Hm) as [H1 H2]. cbn [String.list_ascii_of_string digits_int]. by rewrite H1, H2. }
  rewrite !Hd. case_bool_decide as Hz; f_equal; pose proof (N.div_mod n 10 ltac:(done)); lia.
Qed.

Lemma str_of_Z_digits z : (0 <= z)%Z → forallb is_digit (str_of_Z z) = true ∧ str_of_Z z ≠ [].
Proof.
  intros Hz. split.
  - destruct z as [|p|p]; [done| |done]. unfold str_of_Z. apply pretty_N_go_digits. done.
  - destruct (str_of_Z_cons z) as (c & t & ->). done.
Qed.

Lemma int_str_of_Z z : (0 <= z)%Z → int_of_str (str_of_Z z) = Some z.
Proof.
  intros Hz. destruct (str_of_Z_digits z Hz) as [Hd Hn]. unfold int_of_str. rewrite strip_none.
  - destruct (str_of_Z z) as [|c s] eqn:E; [done|]. simpl in Hd. bool_hyps.
    assert (chr_is "-" c = false ∧ chr_is "+" c = false) as [-> ->] by (split; apply not_true_iff_false; by intros ->%chr_is_true).
    rewrite <- E. destruct z as [|p|p]; [done| |done]. unfold str_of_Z.
    change (pretty (Z.pos p)) with (pretty_N_go (N.pos p) String.EmptyString). by rewrite pretty_N_go_int.
  - apply (forallb_impl is_digit), Hd. apply ascii_subclass. vm_compute. reflexivity.
Qed.

(** ** [ipaddress.ip_address(s)] *)

(** An IPv6 address carries the text after its [%]. *)
Record addr := mkIp { ip_version : version; ip_int : Z; scope_id : option str }.

#[local] Existing Instance version_eq_dec.

#[export] Instance addr_eq_dec : EqDecision addr.
Proof. solve_decision. Defined.

(** [_parse_octet] *)
Definition parse_octet (s : str) : option Z :=
  if bool_decide (s = []) || negb (forallb is_digit s) then None
  else if 3 <? length s then None
  else if negb (bool_decide (s = "0")) && startswith "0" s then None
  else n ← digits_int 0 false s;
       if (255 <? n)%Z then None else Some n.

Definition join_words (width : Z) (acc : Z) (ws : list Z) : Z :=
  foldl (λ acc w, Z.lor (Z.shiftl acc width) w) acc ws.

(** [IPv4Address(s)._ip] *)
Definition parse_v4 (s : str) : option Z :=
  if contains "/" s then None
  else
    let octets := split "." s in
    if bool_decide (length octets = 4) then join_words 8 0 <$> mapM parse_octet octets else None.

Definition hex_value (c : ascii) : option Z :=
  if is_digit c then Some (Z.of_nat (ord c - 48))
  else if between 97 102 c then Some (Z.of_nat (ord c - 87))
  else if between 65 70 c then Some (Z.of_nat (ord c - 55))
  else None.

(** [_parse_hextet] *)
Definition parse_hextet (s : str) : option Z :=
  if bool_decide (s = []) || (4 <? length s) then None
  else join_words 4 0 <$> mapM hex_value s.

(** [_split_scope_id] *)
Definition split_scope_id (s : str) : option (str * option str) :=
  match split "%" s with
  | [a] => Some (a, None)
  | [a; scope] => if bool_decide (scope = []) then None else Some (a, Some scope)
  | _ => None
  end.

(** The parts between the colons, a dotted tail replaced by its two words. *)
Inductive part := Text (s : str) | Word (w : Z).

Definition empty_part (p : part) : bool := match p with Text [] => true | _ => false end.
Definition part_word (p : part) : option Z := match p with Text s => parse_hextet s | Word w => Some w end.

Definition v6_parts (s : str) : option (list part) :=
  let parts := split ":" s in
  if length parts <? 3 then None
  else match last parts with
       | Some t =>
           if contains "." t then
             v4 ← parse_v4 t;
             Some (map Text (removelast parts) ++ [Word (Z.land (Z.shiftr v4 16) 65535); Word (Z.land v4 65535)])
           else Some (map Text parts)
       | None => None
       end.

(** The indices of the inner empty parts: [::] stands there. *)
Definition inner_empty (parts : list part) : list nat :=
  List.filter (λ i, from_option empty_part false (parts !! i)) (seq 1 (length parts - 2)).

Definition head_empty (parts : list part) : bool := from_option empty_part false (head parts).
Definition last_empty (parts : list part) : bool := from_option empty_part false (last parts).

(** [_ip_int_from_string] *)
Definition parse_v6_int (s : str) : option Z :=
  if bool_decide (s = []) then None
  else
    parts ← v6_parts s;
    if 9 <? length parts then None
    else match inner_empty parts with
    | [] =>
        if negb (bool_decide (length parts = 8)) || head_empty parts || last_empty parts then None
        else join_words 16 0 <$> mapM part_word parts
    | [i] =>
        let hi := if head_empty parts then i - 1 else i in
        let lo0 := length parts - i - 1 in
        let lo := if last_empty parts then lo0 - 1 else lo0 in
        if head_empty parts && negb (bool_decide (hi = 0)) then None
        else if last_empty parts && negb (bool_decide (lo = 0)) then None
        else if 8 <? hi + lo + 1 then None
        else
          his ← mapM part_word (take hi parts);
          los ← mapM part_word (drop (length parts - lo) parts);
          Some (join_words 16 (Z.shiftl (join_words 16 0 his) (16 * Z.of_nat (8 - (hi + lo)))) los)
    | _ => None
    end.

(** [IPv6Address(s)] *)
Definition parse_v6 (s : str) : option (Z * option str) :=
  if contains "/" s then None
  else
    '(a, scope) ← split_scope_id s;
    n ← parse_v6_int a;
    Some (n, scope).

Definition ip_address (s : str) : option addr :=
  match parse_v4 s with
  | Some n => Some (mkIp V4 n None)
  | None => '(n, scope) ← parse_v6 s; Some (mkIp V6 n scope)
  end.

Example ip_address_v4 : ip_address "10.0.0.255" = Some (mkIp V4 167772415 None).
Proof. vm_compute. reflexivity. Qed.
Example ip_address_v4_octal : ip_address "10.0.0.010" = None.
Proof. vm_compute. reflexivity. Qed.
Example ip_address_v6 : map ip_address ["::"; "::1"; "1::"; "2001:DB8::a:ffff"; "::ffff:1.2.3.4"; "fe80::1%eth0"]
  = map Some [mkIp V6 0 None; mkIp V6 1 None; mkIp V6 (2 ^ 112) None;
              mkIp V6 42540766411282592856903984951654547455 None; mkIp V6 281470698652420 None;
              mkIp V6 338288524927261089654018896841347694593 (Some ("eth0" : str))].
Proof. vm_compute. reflexivity. Qed.
Example ip_address_v6_bad : map ip_address [":::"; "1::2::3"; "1:2:3:4:5:6:7"; ":1:2:3:4:5:6:7"; "1:2:3:4:5:6:7::8"; "fe80::1%"]
  = repeat None 6.
Proof. vm_compute. reflexivity. Qed.

(** ** The characters of an accepted address *)
Definition hex_char (c : ascii) : bool := is_digit c || between 97 102 c || between 65 70 c.
Definition addr_char (c : ascii) : bool := hex_char c || chr_is "." c || chr_is ":" c.

Lemma hex_value_char c z : hex_value c = Some z → hex_char c = true.
Proof.
  unfold hex_value, hex_char. destruct (is_digit c); [done|]. destruct (between 97 102 c); [done|].
  by destruct (between 65 70 c).
Qed.

Lemma digit_addr c : is_digit c = true → addr_char c = true.
Proof. intros H. unfold addr_char, hex_char. by rewrite H. Qed.

Lemma hex_addr c : hex_char c = true → addr_char c = true.
Proof. intros H. unfold addr_char. by rewrite H. Qed.

Lemma addr_char_plain c : addr_char c = true → is_space c = false ∧ chr_is "," c = false ∧ chr_is "%" c = false.
Proof.
  intros H.
  assert (negb (is_space c) && negb (chr_is "," c) && negb (chr_is "%" c) = true) by
    (revert c H; apply ascii_subclass; vm_compute; reflexivity).
  by bool_hyps.
Qed.

Lemma split_pieces sep p s : p sep = true → Forall (λ w, forallb p w = true) (split sep s) → forallb p s = true.
Proof. intros Hs Hw. rewrite <- (join_split sep s). by apply join_forallb. Qed.

Lemma mapM_Forall {A B} (f : A → option B) (P : A → Prop) l ys :
  (∀ x y, f x = Some y → P x) → mapM f l = Some ys → Forall P l.
Proof. intros Hf H%mapM_Some. induction H; constructor; eauto. Qed.

Lemma parse_octet_chars s n : parse_octet s = Some n → forallb is_digit s = true ∧ s ≠ [].
Proof.
  unfold parse_octet. destruct (bool_decide _ || _) eqn:E; [done|]. by bool_hyps.
Qed.

Lemma parse_v4_chars s n : parse_v4 s = Some n → forallb addr_char s = true ∧ s ≠ [].
Proof.
  unfold parse_v4. destruct (contains "/" s); [done|]. case_bool_decide as Hl; [|done].
  intros (ns & Hns & _)%fmap_Some. split.
  - apply (split_pieces "."); [done|]. eapply mapM_Forall, Hns. intros w m [Hw _]%parse_octet_chars.
    by apply (forallb_impl is_digit), Hw; apply digit_addr.
  - by intros ->.
Qed.

Lemma parse_hextet_chars s n : parse_hextet s = Some n → forallb hex_char s = true.
Proof.
  unfold parse_hextet. destruct (_ || _); [done|]. intros (ds & Hds & _)%fmap_Some.
  apply forallb_Forall. eapply mapM_Forall, Hds. apply hex_value_char.
Qed.

Definition part_ok (p : part) : Prop :=
  match p with Text s => forallb addr_char s = true | Word _ => True end.

Lemma empty_part_ok p : empty_part p = true → part_ok p.
Proof. by destruct p as [[]|]. Qed.

Lemma part_word_ok p w : part_word p = Some w → part_ok p.
Proof.
  destruct p as [s|]; [|done]. simpl. intros H%parse_hextet_chars. by apply (forallb_impl hex_char), H; apply hex_addr.
Qed.

(** Every part is parsed or stands for the skipped zeros. *)
Lemma parse_v6_parts s n parts : parse_v6_int s = Some n → v6_parts s = Some parts → Forall part_ok parts.
Proof.
  unfold parse_v6_int. case_bool_decide; [done|]. intros Hn Hp. rewrite Hp in Hn. simpl in Hn.
  destruct (9 <? length parts); [done|]. destruct (inner_empty parts) as [|i [|]] eqn:Ei; [| |done].
  - destruct (_ || last_empty parts); [done|]. apply fmap_Some in Hn as (ws & Hws & _).
    eapply mapM_Forall, Hws. apply part_word_ok.
  - assert (i ∈ inner_empty parts) as Hi by (rewrite Ei; constructor).
    apply elem_filter in Hi as [Hi Hie]. apply elem_of_seq in Hi.
    remember (if head_empty parts then i - 1 else i) as hi eqn:Hhi.
    remember (if last_empty parts then length parts - i - 1 - 1 else length parts - i - 1) as lo eqn:Hlo.
    destruct (head_empty parts && negb (bool_decide (hi = 0))) eqn:Eh; [done|].
    destruct (last_empty parts && negb (bool_decide (lo = 0))) eqn:El; [done|].
    destruct (8 <? hi + lo + 1); [done|].
    apply bind_Some in Hn as (his & Hhis & Hn). apply bind_Some in Hn as (los & Hlos & _).
    apply (mapM_Forall _ part_ok _ _ part_word_ok) in Hhis, Hlos.
    apply Forall_lookup. intros j p Hj. pose proof (lookup_lt_Some _ _ _ Hj).
    destruct (decide (j = i)) as [->|]; [rewrite Hj in Hie; by apply empty_part_ok|].
    destruct (decide (j < i)).
    + destruct (head_empty parts) eqn:E.
      * assert (j = 0) as -> by (cbn [andb] in Eh; bool_hyps; lia). apply empty_part_ok.
        unfold head_empty in E. by rewrite head_lookup, Hj in E.
      * apply (Forall_lookup_1 _ _ j _ Hhis). by rewrite lookup_take_lt by lia.
    + destruct (last_empty parts) eqn:E.
      * assert (j = length parts - 1) as -> by (cbn [andb] in El; bool_hyps; lia). apply empty_part_ok.
        unfold last_empty in E. rewrite last_lookup in E. by replace (pred (length parts)) with (length parts - 1) in E by lia; rewrite Hj in E.
      * apply (Forall_lookup_1 _ _ (j - (length parts - lo)) _ Hlos). rewrite lookup_drop.
        by replace (length parts - lo + (j - (length parts - lo))) with j by lia.
Qed.

Lemma parse_v6_int_chars s n : parse_v6_int s = Some n → forallb addr_char s = true ∧ s ≠ [].
Proof.
  intros H. split; [|by intros ->]. destruct (v6_parts s) as [parts|] eqn:E.
  - pose proof (parse_v6_parts _ _ _ H E) as Hall. clear H.
    unfold v6_parts in E. destruct (length (split ":" s) <? 3); [done|].
    destruct (last (split ":" s)) as [t|] eqn:El; [|done].
    apply (split_pieces ":"); [done|]. apply last_Some in El as (ws & El). rewrite El in *.
    destruct (contains "." t).
    + apply bind_Some in E as (v4 & Hv4 & [= <-]). rewrite removelast_last in Hall.
      apply Forall_app in Hall as [Hws _]. rewrite Forall_map in Hws. apply Forall_app. split; [done|].
      by apply Forall_singleton, (parse_v4_chars _ _ Hv4).
    + injection E as <-. by rewrite Forall_map in Hall.
  - unfold parse_v6_int in H. rewrite E in H. by case_bool_decide.
Qed.

(** An address without a scope is hex digits, dots and colons. *)
Lemma ip_address_chars s a : ip_address s = Some a → scope_id a = None → forallb addr_char s = true ∧ s ≠ [].
Proof.
  unfold ip_address. destruct (parse_v4 s) as [n|] eqn:E; [intros _ _; by eapply parse_v4_chars|].
  unfold parse_v6. destruct (contains "/" s); [done|]. intros ([x sc] & H & [= <-])%bind_Some. simpl. intros ->.
  apply bind_Some in H as ([b sc] & Hs & (m & Hm & [= -> ->])%bind_Some).
  unfold split_scope_id in Hs. destruct (split "%" s) as [|w [|w' [|]]] eqn:Es; simplify_eq; [|by case_bool_decide].
  rewrite <- (join_split "%" s), Es. simpl. by eapply parse_v6_int_chars.
Qed.

Lemma ip_address_v4_unscoped s a : ip_address s = Some a → ip_version a = V4 → scope_id a = None.
Proof.
  unfold ip_address. destruct (parse_v4 s) as [n|]; [by intros [= <-]|].
  by intros ([x sc] & H & [= <-])%bind_Some.
Qed.

(** ** Dicts *)
Section dict_facts.
Context {A : Type}.
Implicit Types (d items : list (str * A)) (k : str).

Lemma dget_elem k d v : dget k d = Some v → (k, v) ∈ d.
Proof.
  induction d as [|[k' w] d IH]; [done|]; simpl. case_bool_decide as E; [intros [= ->]; subst; constructor|].
  intros H. right. auto.
Qed.

Lemma dget_None k d : dget k d = None ↔ k ∉ map fst d.
Proof.
  induction d as [|[k' w] d IH]; simpl; [split; [by intros _ ?%elem_of_nil|done]|].
  rewrite elem_of_cons. case_bool_decide; naive_solver.
Qed.

Lemma dget_NoDup k d v : NoDup (map fst d) → (k, v) ∈ d → dget k d = Some v.
Proof.
  induction d as [|[k' w] d IH]; simpl; [by intros _ ?%elem_of_nil|]. intros [Hn Hd]%NoDup_cons.
  rewrite elem_of_cons. case_bool_decide as E.
  - intros [[= -> ->]|Hin]; [done|]. subst k'. destruct Hn. by apply list_elem_of_fmap_2' with (x := (k, v)).
  - intros [[= -> ->]|Hin]; [done|]. auto.
Qed.

Lemma dmem_true k d : dmem k d = true ↔ is_Some (dget k d).
Proof.
  unfold dmem. rewrite bool_decide_eq_true. pose proof (dget_None k d) as H. destruct (dget k d).
  - split; [by eexists|]. intros _. destruct (decide (k ∈ map fst d)) as [|Hn]; [done|]. by apply H in Hn.
  - split; [|by intros [? ?]]. intros Hk. by destruct (proj1 H eq_refl).
Qed.

Lemma dget_dset k k' v d : dget k (dset k' v d) = if bool_decide (k = k') then Some v else dget k d.
Proof.
  induction d as [|[k0 w] d IH]; simpl; [by case_bool_decide|].
  destruct (bool_decide (k' = k0)) eqn:E0; bool_hyps; subst; simpl.
  - by case_bool_decide.
  - rewrite IH. case_bool_decide; subst; [|done]. by rewrite bool_decide_false.
Qed.

Lemma dset_keys k v d : map fst (dset k v d) = if bool_decide (k ∈ map fst d) then map fst d else map fst d ++ [k].
Proof.
  induction d as [|[k0 w] d IH]; simpl; [done|].
  destruct (bool_decide (k = k0)) eqn:E; bool_hyps; simpl.
  - subst. by rewrite bool_decide_true by constructor.
  - rewrite IH. destruct (decide (k ∈ map fst d)) as [Hin|Hn].
    + rewrite !bool_decide_true; [done| |done]. by constructor.
    + rewrite !bool_decide_false; [done| |done]. rewrite elem_of_cons. by intros [?|?].
Qed.

Lemma dset_NoDup k v d : NoDup (map fst d) → NoDup (map fst (dset k v d)).
Proof.
  intros H. rewrite dset_keys. case_bool_decide; [done|]. rewrite NoDup_app. split_and!; [done| |apply NoDup_singleton].
  intros x Hx ->%list_elem_of_singleton. done.
Qed.

Lemma dict_of_snoc items k v : dict_of (items ++ [(k, v)]) = dset k v (dict_of items).
Proof. unfold dict_of. by rewrite foldl_app. Qed.

Lemma dict_of_NoDup items : NoDup (map fst (dict_of items)).
Proof.
  induction items as [|[k v] items IH] using rev_ind; [constructor|].
  rewrite dict_of_snoc. by apply dset_NoDup.
Qed.

(** A list of items without a repeated key is the dict itself. *)
Lemma dset_fresh k v d : k ∉ map fst d → dset k v d = d ++ [(k, v)].
Proof.
  induction d as [|[k0 w] d IH]; simpl; [done|]. rewrite not_elem_of_cons. intros [H1 H2].
  rewrite bool_decide_false by done. by rewrite IH.
Qed.

Lemma dict_of_id items : NoDup (map fst items) → dict_of items = items.
Proof.
  induction items as [|[k v] items IH] using rev_ind; [done|].
  rewrite map_app, NoDup_app. intros (H1 & H2 & _). rewrite dict_of_snoc, IH by done. apply dset_fresh.
  intros Hk. apply (H2 _ Hk). constructor.
Qed.

Lemma dget_fmap {B} (f : A → B) k d : dget k (map (λ '(k, v), (k, f v)) d) = f <$> dget k d.
Proof. induction d as [|[k0 w] d IH]; simpl; [done|]. by case_bool_decide. Qed.
End dict_facts.

(** ** [==] is reflexive on values a JSON text can denote *)
Fixpoint nodup_keys (v : json) : bool :=
  match v with
  | JArr l => forallb nodup_keys l
  | JObj kvs => bool_decide (NoDup (map fst kvs)) && forallb (λ '(_, x), nodup_keys x) kvs
  | _ => true
  end.

Lemma py_eq_refl float_is v : nodup_keys v = true → py_eq float_is v v = true.
Proof.
  induction v as [|b|z|t|s|s|l IH|kvs IH] using json_nested_ind; intros H; simpl in *; try done.
  - apply Z.eqb_refl.
  - apply Z.eqb_refl.
  - by apply bool_decide_eq_true.
  - by apply bool_decide_eq_true.
  - by apply bool_decide_eq_true.
  - induction IH as [|x l Hx Hl IHl]; [done|]. simpl in H. bool_hyps. rewrite Hx by done. auto.
  - bool_hyps. rewrite bool_decide_true by done. apply forallb_elem_iff. intros [k x] Hin.
    rewrite (dget_NoDup k kvs x) by done. rewrite Forall_forall in IH. apply (IH (k, x) Hin).
    by apply (forallb_elem _ _ _ H0) in Hin.
Qed.

End PyValue.
