(* ===== verification/Ipam.v ===== *)
(** * IPAM rows

    The rows the IPAM services work on ([backend/app/models/ipam.py]), with the
    columns those services read or write, and the queries they share.  The
    [network] columns are PostgreSQL [CIDR] and the address columns [INET], so
    their texts always parse; ids are strings.  Tables are lists of rows in
    query order.  Blocks and subnets are soft-deleted: a query through the ORM
    sees only live rows ([backend/app/db.py]), raw SQL filters by hand. *)
From S2P Require Import Prelude PyStr IpNet.

Module Ipam.
Export IpNet.

Record IPBlock := mkBlock {
  b_id : str;
  b_space : str;
  b_parent : option str;
  b_network : IPNetwork;
  b_allocated_ips : Z;
  b_total_ips : Z;
  b_deleted : bool;
}.

Record Subnet := mkSubnet {
  s_id : str;
  s_space : str;
  s_block : str;
  s_network : IPNetwork;
  s_kind : str;
  s_gateway : option IPAddr;
  s_total_ips : Z;
  s_allocated_ips : Z;
  s_deleted : bool;
}.

Record IPAddress := mkIPAddress {
  i_subnet : str;
  i_address : IPAddr;
  i_status : str;
  i_hostname : option str;
  i_description : str;
  i_dns_record : option str;
  i_created_by : option str;
}.

#[export] Instance IPBlock_eq_dec : EqDecision IPBlock.
Proof. solve_decision. Defined.
#[export] Instance Subnet_eq_dec : EqDecision Subnet.
Proof. solve_decision. Defined.
#[export] Instance IPAddress_eq_dec : EqDecision IPAddress.
Proof. solve_decision. Defined.

Record Db := mkDb {
  ip_block : list IPBlock;
  subnet : list Subnet;
  ip_address : list IPAddress;
}.

(** The rows an ORM query sees. *)
Definition live_blocks (db : Db) : list IPBlock := List.filter (λ b, negb (b_deleted b)) (ip_block db).
Definition live_subnets (db : Db) : list Subnet := List.filter (λ s, negb (s_deleted s)) (subnet db).

(** [db.get(IPBlock, id)] *)
Definition get_block (db : Db) (id : str) : option IPBlock :=
  List.find (λ b, bool_decide (b_id b = id)) (live_blocks db).

(** [select(IPAddress).where(IPAddress.subnet_id == id)] *)
Definition rows_of (db : Db) (id : str) : list IPAddress :=
  List.filter (λ r, bool_decide (i_subnet r = id)) (ip_address db).

(** Changes of rows by id. *)
Definition update_blocks (f : IPBlock → IPBlock) (db : Db) : Db :=
  mkDb (map f (ip_block db)) (subnet db) (ip_address db).
Definition update_subnets (f : Subnet → Subnet) (db : Db) : Db :=
  mkDb (ip_block db) (map f (subnet db)) (ip_address db).
Definition set_addresses (db : Db) (rows : list IPAddress) : Db :=
  mkDb (ip_block db) (subnet db) rows.

(** The ids of the rows whose parent is one of [ids]. *)
Definition children_ids (rows : list IPBlock) (ids : list str) : list str :=
  map b_id (List.filter (λ b, match b_parent b with
                              | Some p => bool_decide (p ∈ ids)
                              | None => false
                              end) rows).

(** A recursive query downwards from [ids], level by level: [WITH RECURSIVE
    descendants AS (... UNION ALL ... ON b.parent_block_id = d.id)]. *)
Fixpoint descend (fuel : nat) (rows : list IPBlock) (ids : list str) : list str :=
  match fuel with
  | O => []
  | S fuel' => match ids with
               | [] => []
               | _ => ids ++ descend fuel' rows (children_ids rows ids)
               end
  end.

Definition self_ids (rows : list IPBlock) (id : str) : list str :=
  map b_id (List.filter (λ b, bool_decide (b_id b = id)) rows).

Lemma elem_live_blocks db b : b ∈ live_blocks db ↔ b ∈ ip_block db ∧ b_deleted b = false.
Proof. unfold live_blocks. by rewrite elem_filter, negb_true_iff. Qed.

Lemma elem_live_subnets db s : s ∈ live_subnets db ↔ s ∈ subnet db ∧ s_deleted s = false.
Proof. unfold live_subnets. by rewrite elem_filter, negb_true_iff. Qed.

Lemma elem_rows_of db id r : r ∈ rows_of db id ↔ r ∈ ip_address db ∧ i_subnet r = id.
Proof. unfold rows_of. by rewrite elem_filter, bool_decide_eq_true. Qed.

Lemma get_block_Some db id b : get_block db id = Some b → b ∈ live_blocks db ∧ b_id b = id.
Proof.
  intros [H1 H2]%List.find_some. apply bool_decide_eq_true in H2. by rewrite list_elem_of_In.
Qed.

(** ** Well-formed trees *)

(** Every stored network is one PostgreSQL accepts, ids are keys. *)
Definition wf_rows (db : Db) : Prop :=
  (∀ b, b ∈ ip_block db → wf (b_network b)) ∧ (∀ s, s ∈ subnet db → wf (s_network s))
  ∧ NoDup (map b_id (ip_block db)) ∧ NoDup (map s_id (subnet db)).

(** [x] shares an address with [y]; [x] lies inside [y]. *)
Definition meets (x y : IPNetwork) : Prop := ∃ a, mem x a ∧ mem y a.
Definition inside (x y : IPNetwork) : Prop := ∀ a, mem x a → mem y a.

Lemma meets_sym x y : meets x y → meets y x.
Proof. intros (a & ? & ?). by exists a. Qed.

Lemma meets_mono x x' y y' : inside x x' → inside y y' → meets x y → meets x' y'.
Proof. intros H1 H2 (a & ? & ?). exists a. auto. Qed.

Lemma inside_meets x y : wf x → inside x y → meets x y.
Proof. intros Hx H. exists (network_address x). auto with spatium. Qed.

#[export] Instance inside_preorder : PreOrder inside.
Proof. split; [by intros x a|intros x y z H1 H2 a Ha; auto]. Qed.

(** The chain of live blocks from a top-level block down to [b], [b] last. *)
Inductive chain (db : Db) : IPBlock → list IPBlock → Prop :=
| chain_top b : b ∈ live_blocks db → b_parent b = None → chain db b [b]
| chain_step b p l : b ∈ live_blocks db → b_parent b = Some (b_id p) → chain db p l →
    chain db b (l ++ [b]).

(** The tree of one database: every live block hangs below a top-level one,
    inside its parent and clear of its siblings; every live subnet lies in its
    block, clear of the other subnets and of the blocks below its own. *)
Record tree_ok (db : Db) : Prop := {
  tree_rows : wf_rows db;
  tree_rooted b : b ∈ live_blocks db → ∃ l, chain db b l;
  tree_inside b p : b ∈ live_blocks db → p ∈ live_blocks db → b_parent b = Some (b_id p) →
    b_space b = b_space p ∧ inside (b_network b) (b_network p);
  tree_siblings b c : b ∈ live_blocks db → c ∈ live_blocks db → b_space b = b_space c →
    b_parent b = b_parent c → meets (b_network b) (b_network c) → b = c;
  tree_subnet_in s : s ∈ live_subnets db → ∃ b, b ∈ live_blocks db ∧ s_block s = b_id b
    ∧ s_space s = b_space b ∧ inside (s_network s) (b_network b);
  tree_subnets s t : s ∈ live_subnets db → t ∈ live_subnets db → s_space s = s_space t →
    meets (s_network s) (s_network t) → s = t;
  tree_subnet_blocks s c : s ∈ live_subnets db → c ∈ live_blocks db →
    b_parent c = Some (s_block s) → ¬ meets (s_network s) (b_network c);
}.

Section tree.
Context (db : Db) (Hok : tree_ok db).

Lemma wf_live_block b : b ∈ live_blocks db → wf (b_network b).
Proof. intros [H _]%elem_live_blocks. by apply (tree_rows db Hok). Qed.

Lemma wf_live_subnet s : s ∈ live_subnets db → wf (s_network s).
Proof. intros [H _]%elem_live_subnets. by apply (tree_rows db Hok). Qed.

Lemma block_id_inj b c : b ∈ ip_block db → c ∈ ip_block db → b_id b = b_id c → b = c.
Proof.
  destruct (tree_rows db Hok) as (_ & _ & Hn & _). by apply map_NoDup_inj.
Qed.

Lemma live_id_inj b c : b ∈ live_blocks db → c ∈ live_blocks db → b_id b = b_id c → b = c.
Proof. intros [H1 _]%elem_live_blocks [H2 _]%elem_live_blocks. by apply block_id_inj. Qed.

Lemma get_block_live b : b ∈ live_blocks db → get_block db (b_id b) = Some b.
Proof.
  intros Hb. destruct (get_block db (b_id b)) as [c|] eqn:E.
  - apply get_block_Some in E as [Hc E]. f_equal. by apply live_id_inj.
  - unfold get_block in E. assert (is_Some (List.find (λ c, bool_decide (b_id c = b_id b)) (live_blocks db))).
    { apply find_is_Some. exists b. split; [done|]. by apply bool_decide_eq_true. }
    rewrite E in H. by destruct H.
Qed.

Lemma chain_live b l : chain db b l → b ∈ live_blocks db ∧ ∀ c, c ∈ l → c ∈ live_blocks db.
Proof.
  induction 1 as [b Hb Hp|b p l Hb Hp Hc [Hl IH]]; (split; [done|]).
  - by intros c ->%list_elem_of_singleton.
  - intros c [Hc'| ->%list_elem_of_singleton]%elem_of_app; auto.
Qed.

(** A block lies inside every block of its chain, and shares their space. *)
Lemma chain_inside b l c : chain db b l → c ∈ l →
  inside (b_network b) (b_network c) ∧ b_space b = b_space c.
Proof.
  induction 1 as [b Hb Hp|b p l Hb Hp Hc IH]; intros H.
  - apply list_elem_of_singleton in H as ->. by split.
  - apply elem_of_app in H as [H| ->%list_elem_of_singleton]; [|by split].
    destruct (IH H) as [H1 H2]. destruct (chain_live _ _ Hc) as [Hpl _].
    destruct (tree_inside db Hok b p Hb Hpl Hp) as [H3 H4]. split; [|congruence].
    by transitivity (b_network p).
Qed.

Lemma chain_last b l : chain db b l → ∃ l0, l = l0 ++ [b].
Proof. destruct 1 as [b|b p l]; [by exists []|by exists l]. Qed.

(** The chain of a block is unique. *)
Lemma chain_fun b l1 l2 : chain db b l1 → chain db b l2 → l1 = l2.
Proof.
  intros H. revert l2. induction H as [b Hb Hp|b p l Hb Hp Hc IH]; intros l2 H2.
  - inversion H2 as [|? q ? ? Hq]; subst; [done|congruence].
  - inversion H2 as [|? q l' ? Hq Hc']; subst; [congruence|].
    assert (p = q) as <-.
    { apply live_id_inj; [by apply chain_live in Hc as []|by apply chain_live in Hc' as []|congruence]. }
    by rewrite (IH _ Hc').
Qed.

Lemma chain_head b l : chain db b l → ∃ t, l !! 0%nat = Some t ∧ b_parent t = None.
Proof.
  induction 1 as [b Hb Hp|b p l Hb Hp Hc (t & IH & Ht)]; [by exists b|].
  exists t. split; [|done]. by apply lookup_app_l_Some.
Qed.

Lemma chain_next b l i x y : chain db b l → l !! i = Some x → l !! S i = Some y →
  b_parent y = Some (b_id x).
Proof.
  induction 1 as [b Hb Hp|b p l Hb Hp Hc IH]; intros Hx Hy; [done|].
  apply lookup_app_Some in Hy as [Hy|[Hlen Hy]].
  - apply IH; [|done]. rewrite lookup_app_l in Hx; [done|]. apply lookup_lt_Some in Hy. lia.
  - apply list_lookup_singleton_Some in Hy as [Hi <-]. destruct (chain_last _ _ Hc) as [l0 ->].
    rewrite length_app in *. simpl in *. rewrite lookup_app_l in Hx by (rewrite length_app; simpl; lia).
    rewrite lookup_app_r in Hx by lia. replace (i - length l0)%nat with 0%nat in Hx by lia.
    injection Hx as <-. done.
Qed.

Lemma chain_agree b l c m a i x y : chain db b l → chain db c m → b_space b = b_space c →
  mem (b_network b) a → mem (b_network c) a → l !! i = Some x → m !! i = Some y → x = y.
Proof.
  intros Hl Hm Hs Ha Hb. revert x y. induction i as [|i IH]; intros x y Hx Hy;
    pose proof (list_elem_of_lookup_2 _ _ _ Hx) as Ex; pose proof (list_elem_of_lookup_2 _ _ _ Hy) as Ey;
    destruct (chain_inside _ _ _ Hl Ex) as [Ix Sx], (chain_inside _ _ _ Hm Ey) as [Iy Sy];
    (apply (tree_siblings db Hok); [by apply (proj2 (chain_live _ _ Hl))|
       by apply (proj2 (chain_live _ _ Hm))|congruence| |exists a; auto]).
  - destruct (chain_head _ _ Hl) as (t & Ht & Et), (chain_head _ _ Hm) as (u & Hu & Eu). congruence.
  - destruct (lookup_lt_is_Some_2 l i) as [x' Hx']; [apply lookup_lt_Some in Hx; lia|].
    destruct (lookup_lt_is_Some_2 m i) as [y' Hy']; [apply lookup_lt_Some in Hy; lia|].
    rewrite (chain_next _ _ _ _ _ Hl Hx' Hx), (chain_next _ _ _ _ _ Hm Hy' Hy).
    by rewrite (IH x' y').
Qed.

(** Two blocks of one space with a common address: one's chain extends the
    other's. *)
Lemma chain_laminar b l c m : chain db b l → chain db c m → b_space b = b_space c →
  meets (b_network b) (b_network c) → l `prefix_of` m ∨ m `prefix_of` l.
Proof.
  intros Hl Hm Hs (a & Ha & Hb).
  assert (H : ∀ l m : list IPBlock, (∀ i x y, l !! i = Some x → m !! i = Some y → x = y) →
            (length l ≤ length m)%nat → l `prefix_of` m).
  { clear. intros l m H Hlen. exists (drop (length l) m).
    rewrite <- (take_drop (length l) m) at 1. f_equal. apply list_eq. intros i.
    destruct (l !! i) as [x|] eqn:Ex.
    - pose proof (lookup_lt_Some _ _ _ Ex). rewrite lookup_take_lt by lia.
      destruct (lookup_lt_is_Some_2 m i) as [y Hy]; [lia|]. rewrite Hy. f_equal. symmetry. eauto.
    - apply lookup_ge_None in Ex. by rewrite lookup_take_ge by lia. }
  destruct (Nat.le_ge_cases (length l) (length m)); [left|right]; apply H; try done.
  - intros i x y. by apply (chain_agree b l c m a).
  - intros i x y. by apply (chain_agree c m b l a).
Qed.

(** [c] is [b] or a block above it. *)
Definition above (c b : IPBlock) : Prop := ∃ l, chain db b l ∧ c ∈ l.

(** Two blocks of one space with a common address are nested in the tree: one
    is the other, or a child of one contains the other. *)
Lemma blocks_nested b c : b ∈ live_blocks db → c ∈ live_blocks db → b_space b = b_space c →
  meets (b_network b) (b_network c) → above b c ∨ above c b.
Proof.
  intros Hb Hc Hs Hx. destruct (tree_rooted db Hok b Hb) as [l Hl], (tree_rooted db Hok c Hc) as [m Hm].
  destruct (chain_last _ _ Hl) as [l0 El], (chain_last _ _ Hm) as [m0 Em].
  destruct (chain_laminar b l c m Hl Hm Hs Hx) as [P|P]; [left; exists m|right; exists l];
    (split; [done|]); (eapply elem_of_prefix; [|exact P]); subst; apply elem_of_app; right; left.
Qed.

(** Below a block that is above [b] lies a child of it that contains [b]. *)
Lemma above_child c b : above c b → c ≠ b →
  ∃ d, d ∈ live_blocks db ∧ b_parent d = Some (b_id c) ∧ above d b.
Proof.
  intros (l & Hl & Hc) Hn. apply list_elem_of_lookup in Hc as [i Hi].
  destruct (lookup_lt_is_Some_2 l (S i)) as [d Hd].
  { destruct (chain_last _ _ Hl) as [l0 ->]. rewrite length_app. simpl.
    apply lookup_lt_Some in Hi as Hlt. rewrite length_app in Hlt. simpl in Hlt.
    destruct (decide (i = length l0)) as [->|]; [|lia].
    rewrite lookup_app_r, Nat.sub_diag in Hi by lia. by injection Hi as ->. }
  exists d. split_and!.
  - apply (proj2 (chain_live _ _ Hl)). by eapply list_elem_of_lookup_2.
  - by eapply chain_next.
  - exists l. split; [done|]. by eapply list_elem_of_lookup_2.
Qed.

Lemma above_inside c b : above c b → inside (b_network b) (b_network c) ∧ b_space b = b_space c.
Proof. intros (l & Hl & Hc). by eapply chain_inside. Qed.
End tree.

(** ** Chains and recursive queries *)
Section chains.
Context (db : Db) (Hok : tree_ok db).

Lemma chain_take b l i x : chain db b l → l !! i = Some x → chain db x (take (S i) l).
Proof.
  intros H. revert i x. induction H as [b Hb Hp|b p l Hb Hp Hc IH]; intros i x Hx.
  - apply list_lookup_singleton_Some in Hx as [-> <-]. by constructor.
  - apply lookup_app_Some in Hx as [Hx|[Hlen Hx]].
    + rewrite take_app_le by (apply lookup_lt_Some in Hx; lia). by apply IH.
    + apply list_lookup_singleton_Some in Hx as [Hi <-].
      rewrite take_ge by (rewrite length_app; simpl; lia). by eapply chain_step.
Qed.

Lemma chain_NoDup b l : chain db b l → NoDup l.
Proof.
  intros H. apply NoDup_alt. intros i j x Hi Hj.
  pose proof (chain_fun db Hok x _ _ (chain_take b l i x H Hi) (chain_take b l j x H Hj)) as E.
  apply (f_equal length) in E. apply lookup_lt_Some in Hi, Hj. rewrite !length_take in E. lia.
Qed.

Lemma chain_length b l rows : chain db b l → (∀ c, c ∈ live_blocks db → c ∈ rows) →
  (length l ≤ length rows)%nat.
Proof.
  intros H Hr. apply submseteq_length, NoDup_submseteq; [by eapply chain_NoDup|].
  intros c Hc. by apply Hr, (proj2 (chain_live db b l H)).
Qed.

Lemma elem_children rows ids x :
  x ∈ children_ids rows ids ↔ ∃ b p, b ∈ rows ∧ b_id b = x ∧ b_parent b = Some p ∧ p ∈ ids.
Proof.
  unfold children_ids. rewrite list_elem_of_fmap. setoid_rewrite elem_filter. split.
  - intros (b & -> & Hb & H). destruct (b_parent b) as [p|] eqn:E; [|done].
    apply bool_decide_eq_true in H. eauto 10.
  - intros (b & p & Hb & <- & E & H). exists b. split_and!; [done|done|]. rewrite E. by apply bool_decide_eq_true.
Qed.

Lemma level_nil rows k : Nat.iter k (children_ids rows) [] = [].
Proof.
  induction k as [|k IH]; [done|]. simpl. rewrite IH. unfold children_ids.
  rewrite filter_none; [done|]. intros b. by destruct (b_parent b).
Qed.

Lemma descend_level rows fuel ids k x :
  x ∈ Nat.iter k (children_ids rows) ids → (k < fuel)%nat → x ∈ descend fuel rows ids.
Proof.
  revert ids k. induction fuel as [|fuel IH]; intros ids k Hx Hk; [lia|]. simpl.
  destruct ids as [|i ids]; [by rewrite level_nil in Hx|]. apply elem_of_app.
  destruct k as [|k]; [by left|right]. apply (IH _ k); [|lia]. by rewrite <- Nat.iter_succ_r.
Qed.

Lemma descend_levels rows fuel ids x :
  x ∈ descend fuel rows ids → ∃ k, x ∈ Nat.iter k (children_ids rows) ids.
Proof.
  revert ids. induction fuel as [|fuel IH]; intros ids Hx; [by apply not_elem_of_nil in Hx|].
  simpl in Hx. destruct ids as [|i ids]; [by apply not_elem_of_nil in Hx|].
  apply elem_of_app in Hx as [Hx|[k Hk]%IH]; [by exists O|]. exists (S k). by rewrite Nat.iter_succ_r.
Qed.

Lemma elem_self_ids rows id x : x ∈ self_ids rows id ↔ x = id ∧ ∃ b, b ∈ rows ∧ b_id b = id.
Proof.
  unfold self_ids. rewrite list_elem_of_fmap. setoid_rewrite elem_filter.
  setoid_rewrite bool_decide_eq_true. naive_solver.
Qed.

Lemma above_refl b : b ∈ live_blocks db → above db b b.
Proof.
  intros Hb. destruct (tree_rooted db Hok b Hb) as [l Hl]. exists l. split; [done|].
  destruct (chain_last db b l Hl) as [l0 ->]. apply elem_of_app. right. left.
Qed.

Lemma above_live c b : above db c b → c ∈ live_blocks db ∧ b ∈ live_blocks db.
Proof. intros (l & Hl & Hc). destruct (chain_live db b l Hl) as [Hb H]. auto. Qed.

Lemma above_step c b d : above db c b → d ∈ live_blocks db → b_parent d = Some (b_id b) → above db c d.
Proof.
  intros (l & Hl & Hc) Hd Hp. exists (l ++ [d]). split; [by eapply chain_step|]. apply elem_of_app. by left.
Qed.

Lemma above_cases y b p : b ∈ live_blocks db → p ∈ live_blocks db → b_parent b = Some (b_id p) →
  above db y b ↔ y = b ∨ above db y p.
Proof.
  intros Hb Hp E. split.
  - intros (l & Hl & Hy). inversion Hl as [|? q l' ? Hq Hl']; subst; [congruence|].
    assert (q = p) as -> by (apply (live_id_inj db Hok); [by apply chain_live in Hl' as []|done|congruence]).
    apply elem_of_app in Hy as [Hy| ->%list_elem_of_singleton]; [right; by exists l'|by left].
  - intros [->|Ha]; [by apply above_refl|by eapply above_step].
Qed.

Lemma above_trans x y z : above db x y → above db y z → above db x z.
Proof.
  intros (l & Hl & Hx) (m & Hm & Hy). exists m. split; [done|].
  apply list_elem_of_lookup in Hy as [i Hi].
  pose proof (chain_take z m i y Hm Hi) as Ht.
  rewrite (chain_fun db Hok y _ _ Hl Ht) in Hx. by apply elem_of_take in Hx as (j & Hj & _); eapply list_elem_of_lookup_2.
Qed.

Lemma not_above_child b p : b ∈ live_blocks db → b_parent b = Some (b_id p) → ¬ above db b p.
Proof.
  intros Hb E (l & Hl & Hin). assert (Hc : chain db b (l ++ [b])) by by eapply chain_step.
  apply chain_NoDup, NoDup_app in Hc as (_ & H & _). apply (H b Hin). left.
Qed.

(** The recursive query, over all rows or the live ones, finds of the live
    blocks exactly those below. *)
Lemma descend_above rows b c :
  (∀ x, x ∈ live_blocks db → x ∈ rows) → (∀ x, x ∈ rows → x ∈ ip_block db) →
  b ∈ live_blocks db → c ∈ live_blocks db →
  b_id c ∈ descend (S (length rows)) rows (self_ids rows (b_id b)) ↔ above db b c.
Proof.
  intros Hr1 Hr2 Hb Hc. split.
  - intros [k Hk]%descend_levels. revert c Hc Hk. induction k as [|k IH]; intros c Hc Hk.
    + apply elem_self_ids in Hk as [E _].
      rewrite (live_id_inj db Hok c b Hc Hb E). by apply above_refl.
    + simpl in Hk. apply elem_children in Hk as (c' & p & Hc' & E & Hp & Hk).
      assert (c' = c) as ->.
      { apply (block_id_inj db Hok); [auto|by apply elem_live_blocks in Hc as []|done]. }
      destruct (tree_rooted db Hok c Hc) as [l Hl]. inversion Hl as [? ? Hn|? q l' ? Hq Hl']; subst; [congruence|].
      destruct (chain_live db q l' Hl') as [Hql _].
      apply (above_step b q c); [|done|done]. apply IH; [done|]. congruence.
  - intros (l & Hl & Hin). apply list_elem_of_lookup in Hin as [i Hi].
    destruct (chain_last db c l Hl) as [l0 El].
    assert (Hlev : ∀ k x, l !! (i + k)%nat = Some x → b_id x ∈ Nat.iter k (children_ids rows) (self_ids rows (b_id b))).
    { induction k as [|k IH]; intros x Hx.
      - rewrite Nat.add_0_r in Hx. simpl. apply elem_self_ids. split; [congruence|]. eauto.
      - destruct (lookup_lt_is_Some_2 l (i + k)) as [y Hy]; [apply lookup_lt_Some in Hx; lia|].
        replace (i + S k)%nat with (S (i + k))%nat in Hx by lia. simpl. apply elem_children.
        exists x, (b_id y). split_and!; [|done| |by apply IH].
        + apply Hr1, (proj2 (chain_live db c l Hl)). by eapply list_elem_of_lookup_2.
        + by eapply chain_next. }
    pose proof (chain_length c l rows Hl Hr1). pose proof (lookup_lt_Some _ _ _ Hi).
    apply (descend_level _ _ _ (length l - 1 - i)%nat); [|lia]. apply Hlev.
    replace (i + (length l - 1 - i))%nat with (length l0) by (subst; rewrite length_app in *; simpl in *; lia).
    subst. by rewrite lookup_app_r, Nat.sub_diag by lia.
Qed.
End chains.

(** ** Updates that keep the tree *)

(** [f] changes neither a row's key nor its place. *)
Definition keeps (f : IPBlock → IPBlock) : Prop := ∀ b,
  b_id (f b) = b_id b ∧ b_space (f b) = b_space b ∧ b_parent (f b) = b_parent b
  ∧ b_deleted (f b) = b_deleted b.
Definition keeps_subnet (g : Subnet → Subnet) : Prop := ∀ s,
  s_id (g s) = s_id s ∧ s_space (g s) = s_space s ∧ s_block (g s) = s_block s
  ∧ s_deleted (g s) = s_deleted s.

Lemma filter_map {A B} (f : A → B) (p : B → bool) l :
  List.filter p (map f l) = map f (List.filter (λ x, p (f x)) l).
Proof. induction l as [|x l IH]; simpl; [done|]. rewrite IH. by destruct (p (f x)). Qed.

Lemma live_update_blocks f db : keeps f → live_blocks (update_blocks f db) = map f (live_blocks db).
Proof.
  intros Hf. unfold live_blocks. simpl. rewrite filter_map. f_equal. apply filter_ext_eq.
  intros b. by destruct (Hf b) as (_ & _ & _ & ->).
Qed.

Lemma live_update_subnets g db : keeps_subnet g →
  live_subnets (update_subnets g db) = map g (live_subnets db).
Proof.
  intros Hg. unfold live_subnets. simpl. rewrite filter_map. f_equal. apply filter_ext_eq.
  intros b. by destruct (Hg b) as (_ & _ & _ & ->).
Qed.

Lemma get_update_block f db id : keeps f → get_block (update_blocks f db) id = f <$> get_block db id.
Proof.
  intros Hf. unfold get_block. rewrite live_update_blocks by done.
  induction (live_blocks db) as [|b l IH]; simpl; [done|].
  destruct (Hf b) as (-> & _). by case_bool_decide.
Qed.

Lemma children_map f rows ids : keeps f → children_ids (map f rows) ids = children_ids rows ids.
Proof.
  intros Hf. unfold children_ids. rewrite filter_map, List.map_map.
  induction rows as [|b l IH]; simpl; [done|]. destruct (Hf b) as (E & _ & Ep & _). rewrite Ep.
  destruct (b_parent b) as [p|]; simpl; [|done]. case_bool_decide; simpl; [|done]. by rewrite E, IH.
Qed.

Lemma descend_map f fuel rows ids : keeps f → descend fuel (map f rows) ids = descend fuel rows ids.
Proof.
  intros Hf. revert ids. induction fuel as [|fuel IH]; intros ids; simpl; [done|].
  destruct ids; [done|]. by rewrite children_map, IH.
Qed.

Lemma self_map f rows id : keeps f → self_ids (map f rows) id = self_ids rows id.
Proof.
  intros Hf. unfold self_ids. rewrite filter_map, List.map_map.
  induction rows as [|b l IH]; simpl; [done|]. destruct (Hf b) as (E & _). rewrite E.
  case_bool_decide; simpl; [|done]. by rewrite E, IH.
Qed.

Lemma chain_update_1 f db b l : keeps f → chain db b l → chain (update_blocks f db) (f b) (map f l).
Proof.
  intros Hf H. induction H as [b Hb Hp|b p l Hb Hp Hc IH]; destruct (Hf b) as (E1 & E2 & E3 & E4).
  - apply chain_top; [|congruence]. rewrite live_update_blocks by done. by apply list_elem_of_fmap_2.
  - rewrite map_app. apply (chain_step _ _ (f p)); [|destruct (Hf p) as (E5 & _); congruence|done].
    rewrite live_update_blocks by done. by apply list_elem_of_fmap_2.
Qed.

Lemma chain_subnets g db b l : chain (update_subnets g db) b l ↔ chain db b l.
Proof. split; induction 1; [by apply chain_top|by eapply chain_step|by apply chain_top|by eapply chain_step]. Qed.

(** With the networks kept as well, the tree stays well-formed. *)
Lemma tree_update_blocks f db : keeps f → (∀ b, b_network (f b) = b_network b) →
  tree_ok db → tree_ok (update_blocks f db).
Proof.
  intros Hf Hn Hok. destruct (tree_rows db Hok) as (W1 & W2 & N1 & N2).
  assert (Hl : ∀ b', b' ∈ live_blocks (update_blocks f db) → ∃ b, b ∈ live_blocks db ∧ b' = f b).
  { intros b'. rewrite live_update_blocks by done. intros (b & -> & Hb)%list_elem_of_fmap. eauto. }
  split.
  - split_and!; simpl; [|done| |done].
    + intros b' (b & -> & Hb)%list_elem_of_fmap. rewrite Hn. auto.
    + rewrite List.map_map. rewrite (map_ext _ b_id); [done|]. intros b. by destruct (Hf b).
  - intros b' (b & Hb & ->)%Hl. destruct (tree_rooted db Hok b Hb) as [l H]. exists (map f l).
    by apply chain_update_1.
  - intros b' p' (b & Hb & ->)%Hl (p & Hp & ->)%Hl E. rewrite !Hn.
    destruct (Hf b) as (_ & E1 & E2 & _), (Hf p) as (E3 & E4 & _ & _).
    rewrite E1, E4. apply (tree_inside db Hok); [done|done|congruence].
  - intros b' c' (b & Hb & ->)%Hl (c & Hc & ->)%Hl E Ep Hm. rewrite !Hn in Hm.
    destruct (Hf b) as (_ & E1 & E2 & _), (Hf c) as (_ & E3 & E4 & _).
    f_equal. apply (tree_siblings db Hok); [done|done|congruence|congruence|done].
  - intros s Hs. destruct (tree_subnet_in db Hok s Hs) as (b & Hb & E & Es & Hi).
    destruct (Hf b) as (E1 & E2 & _). exists (f b). rewrite Hn, E1, E2. split_and!; try done.
    rewrite live_update_blocks by done. by apply list_elem_of_fmap_2.
  - apply (tree_subnets db Hok).
  - intros s c' Hs (c & Hc & ->)%Hl E. rewrite Hn. destruct (Hf c) as (_ & _ & E1 & _).
    apply (tree_subnet_blocks db Hok); [done|done|congruence].
Qed.

Lemma tree_update_subnets g db : keeps_subnet g → (∀ s, s_network (g s) = s_network s) →
  tree_ok db → tree_ok (update_subnets g db).
Proof.
  intros Hg Hn Hok. destruct (tree_rows db Hok) as (W1 & W2 & N1 & N2).
  assert (Hl : ∀ s', s' ∈ live_subnets (update_subnets g db) → ∃ s, s ∈ live_subnets db ∧ s' = g s).
  { intros s'. rewrite live_update_subnets by done. intros (s & -> & Hs)%list_elem_of_fmap. eauto. }
  split.
  - split_and!; simpl; [done| |done|].
    + intros s' (s & -> & Hs)%list_elem_of_fmap. rewrite Hn. auto.
    + rewrite List.map_map. rewrite (map_ext _ s_id); [done|]. intros s. by destruct (Hg s).
  - intros b Hb. destruct (tree_rooted db Hok b Hb) as [l H]. exists l. by apply chain_subnets.
  - apply (tree_inside db Hok).
  - apply (tree_siblings db Hok).
  - intros s' (s & Hs & ->)%Hl. rewrite Hn. destruct (Hg s) as (_ & -> & -> & _). by apply (tree_subnet_in db Hok).
  - intros s' t' (s & Hs & ->)%Hl (t & Ht & ->)%Hl E Hm. rewrite !Hn in Hm.
    destruct (Hg s) as (_ & E1 & _), (Hg t) as (_ & E2 & _). f_equal. apply (tree_subnets db Hok); congruence.
  - intros s' c (s & Hs & ->)%Hl Hc E. rewrite Hn. destruct (Hg s) as (_ & _ & E1 & _).
    apply (tree_subnet_blocks db Hok); [done|done|congruence].
Qed.

Lemma tree_addresses db rows : tree_ok db → tree_ok (set_addresses db rows).
Proof.
  intros Hok. split; try apply Hok. intros b Hb. destruct (tree_rooted db Hok b Hb) as [l H]. exists l.
  clear Hb. induction H; [by apply chain_top|by eapply chain_step].
Qed.

(** ** Deciding well-formedness *)
Fixpoint chain_of (fuel : nat) (db : Db) (b : IPBlock) : option (list IPBlock) :=
  match fuel with
  | O => None
  | S fuel' =>
      match b_parent b with
      | None => Some [b]
      | Some q =>
          match get_block db q with
          | Some p => (λ l, l ++ [b]) <$> chain_of fuel' db p
          | None => None
          end
      end
  end.

Definition insideb (x y : IPNetwork) : bool := bool_decide (subnet_of x y = Some true).

Definition tree_okb (db : Db) : bool :=
  let bs := live_blocks db in
  let ss := live_subnets db in
  forallb (λ b, bool_decide (wf (b_network b))) (ip_block db)
  && forallb (λ s, bool_decide (wf (s_network s))) (subnet db)
  && bool_decide (NoDup (map b_id (ip_block db))) && bool_decide (NoDup (map s_id (subnet db)))
  && forallb (λ b, match chain_of (length bs) db b with Some _ => true | None => false end) bs
  && forallb (λ b, forallb (λ p, negb (bool_decide (b_parent b = Some (b_id p)))
       || bool_decide (b_space b = b_space p) && insideb (b_network b) (b_network p)) bs) bs
  && forallb (λ b, forallb (λ c, bool_decide (b = c)
       || negb (bool_decide (b_space b = b_space c) && bool_decide (b_parent b = b_parent c)
                && overlaps (b_network b) (b_network c))) bs) bs
  && forallb (λ s, existsb (λ b, bool_decide (s_block s = b_id b)
       && bool_decide (s_space s = b_space b) && insideb (s_network s) (b_network b)) bs) ss
  && forallb (λ s, forallb (λ t, bool_decide (s = t)
       || negb (bool_decide (s_space s = s_space t) && overlaps (s_network s) (s_network t))) ss) ss
  && forallb (λ s, forallb (λ c, negb (bool_decide (b_parent c = Some (s_block s))
       && overlaps (s_network s) (b_network c))) bs) ss.

Lemma chain_of_chain db fuel b l : b ∈ live_blocks db → chain_of fuel db b = Some l → chain db b l.
Proof.
  revert b l. induction fuel as [|fuel IH]; intros b l Hb H; [done|]. simpl in H.
  destruct (b_parent b) as [q|] eqn:Hp; [|injection H as <-; by constructor].
  destruct (get_block db q) as [p|] eqn:Hq; [|done].
  apply get_block_Some in Hq as [Hl E]. destruct (chain_of fuel db p) as [l'|] eqn:Hc; [|done].
  injection H as <-. apply (chain_step db b p); [done|by rewrite Hp, E|by apply IH].
Qed.

Lemma insideb_inside x y : wf x → wf y → insideb x y = true → inside x y.
Proof. intros Hx Hy H%bool_decide_eq_true. exact (proj1 (subnet_of_spec x y Hx Hy) H). Qed.

Lemma not_overlaps_meets x y : wf x → wf y → overlaps x y = false → ¬ meets x y.
Proof. intros Hx Hy H. by rewrite <- not_true_iff_false, overlaps_spec in H. Qed.

Lemma tree_okb_sound db : tree_okb db = true → tree_ok db.
Proof.
  unfold tree_okb. rewrite !andb_true_iff, !forallb_elem_iff, !bool_decide_eq_true.
  intros [[[[[[[[[W1 W2] N1] N2] R] I] S] SI] SS] SB].
  assert (Wb : ∀ b, b ∈ live_blocks db → wf (b_network b)).
  { intros b [Hb _]%elem_live_blocks. specialize (W1 b Hb). by apply bool_decide_eq_true in W1. }
  assert (Ws : ∀ s, s ∈ live_subnets db → wf (s_network s)).
  { intros s [Hs _]%elem_live_subnets. specialize (W2 s Hs). by apply bool_decide_eq_true in W2. }
  split.
  - split_and!; [|..|done|done].
    + intros b Hb. specialize (W1 b Hb). by apply bool_decide_eq_true in W1.
    + intros s Hs. specialize (W2 s Hs). by apply bool_decide_eq_true in W2.
  - intros b Hb. specialize (R b Hb). destruct (chain_of _ db b) as [l|] eqn:E; [|done].
    exists l. by eapply chain_of_chain.
  - intros b p Hb Hp E. specialize (I b Hb). rewrite forallb_elem_iff in I. specialize (I p Hp).
    rewrite bool_decide_true in I by done. simpl in I. apply andb_true_iff in I as [I1 I2].
    apply bool_decide_eq_true in I1. split; [done|]. by apply insideb_inside; auto.
  - intros b c Hb Hc E1 E2 Hm. specialize (S b Hb). rewrite forallb_elem_iff in S. specialize (S c Hc).
    apply orb_true_iff in S as [S|S]; [by apply bool_decide_eq_true in S|].
    rewrite !bool_decide_true in S by done. apply negb_true_iff in S. simpl in S.
    by apply not_overlaps_meets in S; auto.
  - intros s Hs. specialize (SI s Hs). apply existsb_elem in SI as (b & Hb & E).
    rewrite !andb_true_iff, !bool_decide_eq_true in E. destruct E as [[E1 E2] E3].
    exists b. split_and!; try done. by apply insideb_inside; auto.
  - intros s t Hs Ht E Hm. specialize (SS s Hs). rewrite forallb_elem_iff in SS. specialize (SS t Ht).
    apply orb_true_iff in SS as [S'|S']; [by apply bool_decide_eq_true in S'|].
    rewrite bool_decide_true in S' by done. apply negb_true_iff in S'. simpl in S'.
    by apply not_overlaps_meets in S'; auto.
  - intros s c Hs Hc E. specialize (SB s Hs). rewrite forallb_elem_iff in SB. specialize (SB c Hc).
    rewrite bool_decide_true in SB by done. apply negb_true_iff in SB. simpl in SB.
    apply not_overlaps_meets in SB; auto.
Qed.
End Ipam.
