(* ===== verification/FreeSpace.v ===== *)
(** * The free-space finder

    [backend/app/services/ipam/free_space.py]: unused CIDRs of a requested
    prefix length in a space or below one block.  The branch of a network text
    that does not parse is dead (the columns are [CIDR]) and left out. *)
From S2P Require Import Prelude PyStr IpNet Ipam.

Module FreeSpace.
Import Ipam.
Local Open Scope Z_scope.

Definition _HARD_CAP : Z := 100.

Record FreeSpaceCandidate := mkCandidate {
  cidr : IPNetwork;
  parent_block_id : str;
  parent_block_cidr : IPNetwork;
  free_addresses : Z;
}.

#[export] Instance FreeSpaceCandidate_eq_dec : EqDecision FreeSpaceCandidate.
Proof. solve_decision. Defined.

Inductive warning := BadPrefix (prefix_length family : Z) | NoBlocks | EmptySubtree.

Record FreeSpaceResult := mkResult {
  candidates : list FreeSpaceCandidate;
  s_warning : option warning;
  s_blocks_scanned : nat;
  s_candidates_emitted : nat;
}.

Definition _usable_addresses (n : IPNetwork) : Z :=
  if bool_decide (ver n = V4) && (prefixlen n <? 31) then num_addresses n - 2 else num_addresses n.

(** The error an invalid request is refused with, if any. *)
Definition _validate_prefix (prefix_length address_family : Z) : option warning :=
  if address_family =? 4 then
    if negb ((8 <=? prefix_length) && (prefix_length <=? 30)) then Some (BadPrefix prefix_length 4) else None
  else if address_family =? 6 then
    if negb ((8 <=? prefix_length) && (prefix_length <=? 126)) then Some (BadPrefix prefix_length 6) else None
  else Some (BadPrefix prefix_length address_family).

(** One pass over the children of the frontier: [seen] in insertion order. *)
Fixpoint add_rows (rows : list IPBlock) (seen : list IPBlock) (next_ids : list str)
    : list IPBlock * list str :=
  match rows with
  | [] => (seen, next_ids)
  | blk :: rest =>
      if bool_decide (b_id blk ∈ map b_id seen) then add_rows rest seen next_ids
      else add_rows rest (seen ++ [blk]) (next_ids ++ [b_id blk])
  end.

(** The subtree walk; every pass but the last adds a block, so one pass per
    block and one more are enough. *)
Fixpoint walk (fuel : nat) (db : Db) (seen : list IPBlock) (frontier : list str) : list IPBlock :=
  match fuel with
  | O => seen
  | S fuel' =>
      if bool_decide (frontier = []) then seen
      else
        let rows := List.filter (λ b, match b_parent b with
                                      | Some p => bool_decide (p ∈ frontier)
                                      | None => false
                                      end) (live_blocks db) in
        let '(seen', next_ids) := add_rows rows seen [] in
        walk fuel' db seen' next_ids
  end.

Definition _load_blocks (db : Db) (space_id : str) (parent_block : option str) : list IPBlock :=
  match parent_block with
  | None => List.filter (λ b, bool_decide (b_space b = space_id)) (live_blocks db)
  | Some p =>
      match get_block db p with
      | None => []
      | Some root => walk (S (length (ip_block db))) db [root] [b_id root]
      end
  end.

Definition _block_matches_family (b : IPBlock) (address_family : Z) : bool :=
  if address_family =? 4 then bool_decide (ver (b_network b) = V4)
  else bool_decide (ver (b_network b) = V6).

Definition _direct_child_cidrs (db : Db) (block : IPBlock) : list IPNetwork :=
  map b_network (List.filter (λ b, bool_decide (b_parent b = Some (b_id block))) (live_blocks db))
  ++ map s_network (List.filter (λ s, bool_decide (s_block s = b_id block)) (live_subnets db)).

(** The sliding window: [out] is what the loop has collected. *)
Fixpoint scan (occupants : list IPNetwork) (remaining : nat) (cands out : list IPNetwork)
    : list IPNetwork :=
  match cands with
  | [] => out
  | c :: rest =>
      if existsb (overlaps c) occupants then scan occupants remaining rest out
      else
        let out' := out ++ [c] in
        if (remaining <=? length out')%nat then out' else scan occupants remaining rest out'
  end.

Definition _candidates_for_block (block_net : IPNetwork) (occupants : list IPNetwork)
    (prefix_length : Z) (remaining : nat) : list IPNetwork :=
  if prefix_length <? prefixlen block_net then []
  else if prefix_length =? prefixlen block_net then
    if bool_decide (occupants = []) then [block_net] else []
  else scan occupants remaining (subnets block_net prefix_length) [].

(** [(-prefixlen, int(network_address))] in tuple order *)
Definition block_le (a b : IPBlock) : Prop :=
  prefixlen (b_network b) < prefixlen (b_network a)
  ∨ (prefixlen (b_network a) = prefixlen (b_network b) ∧ base (b_network a) ≤ base (b_network b)).

#[export] Instance block_le_dec : RelDecision block_le.
Proof. intros a b. unfold block_le. apply _. Defined.

(** The inner loop of one block. *)
Fixpoint emit (cap : nat) (min_free : option Z) (block : IPBlock) (cands : list IPNetwork)
    (out : list FreeSpaceCandidate) (seen : gset IPNetwork)
    : list FreeSpaceCandidate * gset IPNetwork :=
  match cands with
  | [] => (out, seen)
  | c :: rest =>
      if bool_decide (c ∈ seen) then emit cap min_free block rest out seen
      else
        let seen' := {[c]} ∪ seen in
        let free := _usable_addresses c in
        if match min_free with Some m => free <? m | None => false end
        then emit cap min_free block rest out seen'
        else
          let out' := out ++ [mkCandidate c (b_id block) (b_network block) free] in
          if (cap <=? length out')%nat then (out', seen')
          else emit cap min_free block rest out' seen'
  end.

Fixpoint sweep (db : Db) (cap : nat) (prefix_length : Z) (min_free : option Z)
    (blocks : list IPBlock) (out : list FreeSpaceCandidate) (seen : gset IPNetwork)
    : list FreeSpaceCandidate :=
  match blocks with
  | [] => out
  | block :: rest =>
      if (cap <=? length out)%nat then out
      else if prefix_length <? prefixlen (b_network block) then
        sweep db cap prefix_length min_free rest out seen
      else
        let cands := _candidates_for_block (b_network block) (_direct_child_cidrs db block)
                       prefix_length (cap - length out) in
        let '(out', seen') := emit cap min_free block cands out seen in
        sweep db cap prefix_length min_free rest out' seen'
  end.

Definition cap_of (count : Z) : nat := Z.to_nat (Z.max 1 (Z.min count _HARD_CAP)).

Definition blocks_in_family (blocks : list IPBlock) (address_family : Z) : list IPBlock :=
  merge_sort block_le (List.filter (λ b, _block_matches_family b address_family) blocks).

Definition find_free_space (db : Db) (space_id : str) (prefix_length address_family count : Z)
    (min_free : option Z) (parent_block : option str) : FreeSpaceResult :=
  match _validate_prefix prefix_length address_family with
  | Some err => mkResult [] (Some err) 0 0
  | None =>
      let blocks := _load_blocks db space_id parent_block in
      if bool_decide (blocks = []) then
        mkResult [] (Some (match parent_block with None => NoBlocks | Some _ => EmptySubtree end)) 0 0
      else
        let fam := blocks_in_family blocks address_family in
        let out := sweep db (cap_of count) prefix_length min_free fam [] ∅ in
        mkResult out None (length fam) (length out)
  end.

(** ** Loading the subtree *)

(** [c] is [b] or hangs below it through live blocks. *)
Inductive below (db : Db) (b : IPBlock) : IPBlock → Prop :=
| below_refl : below db b b
| below_step c d : below db b c → d ∈ live_blocks db → b_parent d = Some (b_id c) → below db b d.

Lemma add_rows_spec rows seen next :
  let '(seen', next') := add_rows rows seen next in
  ∃ new, seen' = seen ++ new ∧ next' = next ++ map b_id new
    ∧ (∀ b, b ∈ new → b ∈ rows) ∧ NoDup (map b_id new)
    ∧ (∀ b, b ∈ new → b_id b ∉ map b_id seen)
    ∧ ∀ b, b ∈ rows → b_id b ∈ map b_id seen' .
Proof.
  revert seen next. induction rows as [|blk rest IH]; intros seen next; simpl.
  - exists []. simpl. rewrite !app_nil_r. split_and!; [done|done|set_solver|constructor|set_solver|set_solver].
  - case_bool_decide as E.
    + specialize (IH seen next). destruct (add_rows rest seen next) as [seen' next'].
      destruct IH as (new & -> & -> & H1 & H2 & H3 & H4). exists new. split_and!; try done.
      * intros b Hb. right. auto.
      * intros b [->|Hb]%elem_of_cons; [|auto]. rewrite fmap_app. apply elem_of_app. by left.
    + specialize (IH (seen ++ [blk]) (next ++ [b_id blk])).
      destruct (add_rows rest (seen ++ [blk]) (next ++ [b_id blk])) as [seen' next'].
      destruct IH as (new & -> & -> & H1 & H2 & H3 & H4). exists (blk :: new).
      rewrite <- !app_assoc. simpl. split_and!; try done.
      * intros b [->|Hb]%elem_of_cons; [left|right; auto].
      * constructor; [|done]. intros Hin. apply list_elem_of_fmap in Hin as (b & E' & Hb).
        apply (H3 b Hb). rewrite fmap_app. apply elem_of_app. right. rewrite <- E'. left.
      * intros b [->|Hb]%elem_of_cons; [done|]. intros Hin. apply (H3 b Hb).
        rewrite fmap_app. apply elem_of_app. by left.
      * intros b [->|Hb]%elem_of_cons; [|specialize (H4 b Hb); by rewrite <- app_assoc in H4].
        rewrite fmap_app. apply elem_of_app. right. left.
Qed.

(** The walk stops with exactly what is below the root: every block it holds
    is below, and it is closed under live children. *)
Lemma walk_spec db root fuel seen frontier :
  NoDup (map b_id (ip_block db)) →
  (∀ b, b ∈ seen → below db root b ∧ b ∈ live_blocks db) →
  (∀ b, b ∈ seen → b_id b ∈ frontier ∨ ∀ d, d ∈ live_blocks db → b_parent d = Some (b_id b) →
     b_id d ∈ map b_id seen) →
  NoDup (map b_id seen) →
  (∀ f, f ∈ frontier → ∃ b, b ∈ seen ∧ b_id b = f) →
  frontier = [] ∨ (length (ip_block db) < fuel + length seen)%nat →
  let r := walk fuel db seen frontier in
  (∀ b, b ∈ r → below db root b ∧ b ∈ live_blocks db) ∧ NoDup (map b_id r)
  ∧ (∀ b, b ∈ seen → b ∈ r)
  ∧ (∀ b d, b ∈ r → d ∈ live_blocks db → b_parent d = Some (b_id b) → b_id d ∈ map b_id r).
Proof.
  intros Hids. revert seen frontier.
  induction fuel as [|fuel IH]; intros seen frontier Hb Hcl Hnd Hfr Hfuel; cbn [walk].
  - assert (frontier = []) as ->.
    { destruct Hfuel as [|Hlen]; [done|]. exfalso. simpl in Hlen.
      assert (map b_id seen ⊆+ map b_id (ip_block db)) as Hs%submseteq_length.
      { apply NoDup_submseteq; [done|]. intros x (b & -> & Hx)%list_elem_of_fmap.
        apply list_elem_of_fmap. exists b. split; [done|]. destruct (Hb b Hx) as [_ Hl]. by apply elem_live_blocks in Hl as []. }
      rewrite !length_fmap in Hs. lia. }
    split_and!; try done. intros b d Hbs. destruct (Hcl b Hbs) as [H|H]; [by apply not_elem_of_nil in H|eauto].
  - case_bool_decide as E.
    { subst. split_and!; try done. intros b d Hbs.
      destruct (Hcl b Hbs) as [H|H]; [by apply not_elem_of_nil in H|eauto]. }
    set (rows := List.filter _ _).
    assert (Hrows : ∀ d, d ∈ rows ↔ d ∈ live_blocks db ∧ ∃ f, b_parent d = Some f ∧ f ∈ frontier).
    { intros d. unfold rows. rewrite elem_filter. apply and_iff_compat_l.
      destruct (b_parent d) as [f|]; [|by split; [|intros (? & ? & _)]].
      rewrite bool_decide_eq_true. naive_solver. }
    pose proof (add_rows_spec rows seen []) as Hadd. destruct (add_rows rows seen []) as [seen' next].
    destruct Hadd as (new & -> & -> & H1 & H2 & H3 & H4). simpl.
    destruct (IH (seen ++ new) (map b_id new)) as (I1 & I2 & I3 & I4).
    + intros b [Hbs|Hbn]%elem_of_app; [auto|]. apply H1, Hrows in Hbn as (Hl & f & Hp & Hf).
      split; [|done]. destruct (Hfr f Hf) as (c & Hc & <-). eapply below_step; [apply Hb|..]; eauto.
    + intros b [Hbs|Hbn]%elem_of_app.
      * right. intros d Hd Hp. destruct (Hcl b Hbs) as [Hf|Hc].
        -- apply H4, Hrows. eauto.
        -- rewrite fmap_app. apply elem_of_app. left. eauto.
      * left. apply list_elem_of_fmap. eauto.
    + rewrite fmap_app. apply NoDup_app. split_and!; [done| |done].
      intros x Hx (b & -> & Hbn)%list_elem_of_fmap. by apply (H3 b).
    + intros f (b & -> & Hbn)%list_elem_of_fmap. exists b. split; [|done]. apply elem_of_app. by right.
    + destruct new as [|n new]; [by left|right]. rewrite length_app. simpl.
      destruct Hfuel as [->|Hlen]; [done|]. lia.
    + split_and!; try done. intros b Hbs. apply I3, elem_of_app. by left.
Qed.

(** Without a parent block: the live blocks of the space; with one: exactly the
    live blocks below it. *)
Lemma load_blocks_spec db space parent :
  NoDup (map b_id (ip_block db)) →
  NoDup (map b_id (_load_blocks db space parent))
  ∧ ∀ b, b ∈ _load_blocks db space parent ↔
      b ∈ live_blocks db ∧ match parent with
                           | None => b_space b = space
                           | Some p => ∃ root, get_block db p = Some root ∧ below db root b
                           end.
Proof.
  intros Hids. unfold _load_blocks. destruct parent as [p|].
  - destruct (get_block db p) as [root|] eqn:Hr.
    + apply get_block_Some in Hr as [Hroot _].
      destruct (walk_spec db root (S (length (ip_block db))) [root] [b_id root]) as (I1 & I2 & I3 & I4).
      * done.
      * intros b ->%list_elem_of_singleton. by split; [constructor|].
      * intros b ->%list_elem_of_singleton. left. left.
      * apply NoDup_singleton.
      * intros f ->%list_elem_of_singleton. exists root. split; [left|done].
      * right. simpl. lia.
      * split; [done|]. intros b. split.
        -- intros [Hbl Hl]%I1. eauto.
        -- intros (_ & root' & [= <-] & Hbl). induction Hbl as [|c d Hc IHc Hd Hp].
           ++ apply I3. left.
           ++ pose proof (I4 c d IHc Hd Hp) as (x & Ex & Hx)%list_elem_of_fmap.
              assert (d = x) as ->; [|done]. destruct (I1 x Hx) as [_ Hlx].
              apply elem_live_blocks in Hd as [Hd _], Hlx as [Hlx _].
              by apply (map_NoDup_inj b_id (ip_block db)).
    + split; [constructor|]. intros b. split; [intros H; by apply not_elem_of_nil in H|].
      by intros (_ & ? & ? & _).
  - split.
    + unfold live_blocks. rewrite filter_filter.
      eapply sublist_NoDup; [exact Hids|]. apply (fmap_sublist b_id), filter_sublist.
    + intros b. by rewrite elem_filter, bool_decide_eq_true.
Qed.

(** ** The sliding window *)

(** The free slots of a block: the aligned networks of the requested length
    that overlap no direct child; the block itself only when it has none. *)
Definition free_slots (db : Db) (p : Z) (b : IPBlock) : list IPNetwork :=
  if p <? prefixlen (b_network b) then []
  else if p =? prefixlen (b_network b) then
    if bool_decide (_direct_child_cidrs db b = []) then [b_network b] else []
  else List.filter (λ c, negb (existsb (overlaps c) (_direct_child_cidrs db b)))
         (subnets (b_network b) p).

Lemma scan_spec occ remaining cands out : (length out < remaining)%nat →
  scan occ remaining cands out
  = out ++ take (remaining - length out) (List.filter (λ c, negb (existsb (overlaps c) occ)) cands).
Proof.
  revert out. induction cands as [|c rest IH]; intros out Hlt; simpl.
  - by rewrite take_nil, app_nil_r.
  - destruct (existsb (overlaps c) occ) eqn:E; simpl; [by apply IH|].
    destruct (remaining - length out)%nat as [|k] eqn:Ek; [lia|]. simpl.
    rewrite length_app. simpl. destruct (Nat.leb_spec remaining (length out + 1)) as [H|H].
    + replace k with 0%nat by lia. done.
    + rewrite IH by (rewrite length_app; simpl; lia). rewrite length_app, <- app_assoc. simpl.
      by replace (remaining - (length out + 1))%nat with k by lia.
Qed.

Lemma candidates_spec db p b remaining : (0 < remaining)%nat →
  _candidates_for_block (b_network b) (_direct_child_cidrs db b) p remaining
  = take remaining (free_slots db p b).
Proof.
  intros Hr. unfold _candidates_for_block, free_slots.
  destruct (p <? prefixlen (b_network b)); [by rewrite take_nil|].
  destruct (p =? prefixlen (b_network b)).
  - case_bool_decide; [|by rewrite take_nil]. destruct remaining; [lia|]. simpl. by rewrite take_nil.
  - rewrite scan_spec by (simpl; lia). simpl. by rewrite Nat.sub_0_r.
Qed.

Definition as_candidate (b : IPBlock) (c : IPNetwork) : FreeSpaceCandidate :=
  mkCandidate c (b_id b) (b_network b) (_usable_addresses c).

Definition big_enough (min_free : option Z) (c : IPNetwork) : bool :=
  match min_free with Some m => m <=? _usable_addresses c | None => true end.

(** The inner loop keeps, in order, new candidates that are big enough. *)
Lemma emit_spec cap min_free b cands out seen :
  let '(out', seen') := emit cap min_free b cands out seen in
  ∃ new, out' = out ++ map (as_candidate b) new ∧ new `sublist_of` cands
    ∧ (∀ c, c ∈ new → (c ∉ seen) ∧ big_enough min_free c = true)
    ∧ NoDup new ∧ (∀ c, c ∈ new → c ∈ seen') ∧ seen ⊆ seen'
    ∧ ((length out ≤ cap)%nat → (length out + length cands ≤ cap)%nat → (length out' ≤ cap)%nat).
Proof.
  revert out seen. induction cands as [|c rest IH]; intros out seen; simpl.
  - exists []. rewrite app_nil_r. split_and!; [done|done|set_solver|constructor|set_solver|done|done].
  - case_bool_decide as E.
    { specialize (IH out seen). destruct (emit cap min_free b rest out seen) as [out' seen'].
      destruct IH as (new & -> & H1 & H2 & H3 & H4 & H5 & H6). exists new.
      split_and!; try done; [by constructor|]. intros. apply H6; lia. }
    assert (Eb : match min_free with Some m => _usable_addresses c <? m | None => false end
                 = negb (big_enough min_free c)).
    { unfold big_enough. destruct min_free as [m|]; [|done]. by rewrite Z.leb_antisym, negb_involutive. }
    rewrite Eb. fold (as_candidate b c).
    destruct (big_enough min_free c) eqn:Ec; cbn [negb].
    + destruct (Nat.leb_spec cap (length (out ++ [as_candidate b c]))) as [Hl|Hl].
      * exists [c]. split_and!; try done.
        -- constructor. apply sublist_nil_l.
        -- by intros x ->%list_elem_of_singleton.
        -- apply NoDup_singleton.
        -- set_solver.
        -- set_solver.
        -- intros H1 H2. unfold as_candidate in *. rewrite length_app in *. simpl in *. lia.
      * specialize (IH (out ++ [as_candidate b c]) ({[c]} ∪ seen)).
        destruct (emit cap min_free b rest _ _) as [out' seen'].
        destruct IH as (new & -> & H1 & H2 & H3 & H4 & H5 & H6). exists (c :: new).
        rewrite <- app_assoc. simpl. split_and!; try done.
        -- by constructor.
        -- intros x [->|Hx]%elem_of_cons; [done|]. destruct (H2 x Hx). set_solver.
        -- constructor; [|done]. intros Hx. destruct (H2 c Hx). set_solver.
        -- intros x [->|Hx]%elem_of_cons; [set_solver|auto].
        -- set_solver.
        -- intros H7 H8. rewrite <- app_assoc in H6. simpl in H6. apply H6; rewrite length_app in *; simpl in *; lia.
    + specialize (IH out ({[c]} ∪ seen)). destruct (emit cap min_free b rest out _) as [out' seen'].
      destruct IH as (new & -> & H1 & H2 & H3 & H4 & H5 & H6). exists new. split_and!; try done.
      * by constructor.
      * intros x Hx. destruct (H2 x Hx). set_solver.
      * set_solver.
      * intros. apply H6; lia.
Qed.

(** ** The sweep *)
Section sweep.
Context (db : Db) (p : Z) (cap : nat) (min_free : option Z).

Definition slots_of (b : IPBlock) : list FreeSpaceCandidate :=
  map (as_candidate b) (free_slots db p b).

Lemma emit_all b cands out seen :
  NoDup cands → (∀ c, c ∈ cands → (c ∉ seen) ∧ big_enough min_free c = true) →
  (length out + length cands ≤ cap)%nat →
  emit cap min_free b cands out seen = (out ++ map (as_candidate b) cands, list_to_set cands ∪ seen)
  ∨ ∃ seen', emit cap min_free b cands out seen = (out ++ map (as_candidate b) cands, seen')
      ∧ (length out + length cands = cap)%nat.
Proof.
  revert out seen. induction cands as [|c rest IH]; intros out seen Hn Hc Hlen; simpl in *.
  - left. rewrite app_nil_r. f_equal. set_solver.
  - apply NoDup_cons in Hn as [Hnc Hn]. destruct (Hc c ltac:(left)) as [H1 H2].
    rewrite bool_decide_false by done.
    replace (match min_free with Some m => _usable_addresses c <? m | None => false end) with false
      by (unfold big_enough in H2; destruct min_free; [|done]; lia).
    fold (as_candidate b c). destruct (Nat.leb_spec cap (length (out ++ [as_candidate b c]))) as [Hl|Hl].
    + right. rewrite length_app in Hl. simpl in Hl. destruct rest; simpl in *; [|lia]. eexists. by split; [|lia].
    + destruct (IH (out ++ [as_candidate b c]) ({[c]} ∪ seen)) as [E|(seen' & E & Hcap)].
      * done.
      * intros x Hx. destruct (Hc x ltac:(by right)). set_solver.
      * rewrite length_app in *. simpl in *. lia.
      * left. rewrite E, <- app_assoc. simpl. f_equal. set_solver.
      * right. exists seen'. rewrite E, <- app_assoc. split; [done|]. rewrite length_app in Hcap. simpl in *. lia.
Qed.

Lemma sweep_full blocks out seen : (cap ≤ length out)%nat → sweep db cap p min_free blocks out seen = out.
Proof. intros H. destruct blocks; [done|]. simpl. by rewrite (proj2 (Nat.leb_le _ _) H). Qed.

Lemma take_take_app {A} n (x y : list A) : take n (take n x ++ y) = take n (x ++ y).
Proof.
  destruct (Nat.le_ge_cases (length x) n).
  - by rewrite (take_ge x) by lia.
  - rewrite take_app_le by (rewrite length_take; lia). rewrite take_take, Nat.min_id.
    by rewrite take_app_le by lia.
Qed.

(** With no CIDR free in two blocks, the sweep finds every free slot in
    order, up to the cap. *)
Lemma sweep_exact blocks out seen :
  (∀ c, c ∈ seen ↔ c ∈ map cidr out) → (length out ≤ cap)%nat →
  NoDup (map cidr out ++ mjoin (map (free_slots db p) blocks)) →
  (∀ b c, b ∈ blocks → c ∈ free_slots db p b → big_enough min_free c = true) →
  sweep db cap p min_free blocks out seen = take cap (out ++ mjoin (map slots_of blocks)).
Proof.
  revert out seen. induction blocks as [|b rest IH]; intros out seen Hseen Hlen Hnd Hbig; simpl.
  - by rewrite app_nil_r, take_ge by lia.
  - destruct (Nat.leb_spec cap (length out)) as [Hfull|Hroom].
    { by rewrite take_app_le, take_ge by lia. }
    assert (Hnd' : NoDup (map cidr out ++ mjoin (map (free_slots db p) rest))).
    { eapply sublist_NoDup; [exact Hnd|]. simpl. apply sublist_app; [done|]. by apply sublist_inserts_l. }
    destruct (p <? prefixlen (b_network b)) eqn:Ep.
    { rewrite IH; try done; [|intros b' c Hb; apply Hbig; by right].
      unfold slots_of at 2, free_slots. by rewrite Ep. }
    rewrite candidates_spec by lia. set (sl := take (cap - length out) (free_slots db p b)).
    assert (Hsub : sl `sublist_of` free_slots db p b) by apply sublist_take.
    simpl in Hnd. rewrite NoDup_app in Hnd. destruct Hnd as (N1 & N2 & N3).
    rewrite NoDup_app in N3. destruct N3 as (N3 & N4 & N5).
    assert (E : out ++ map (as_candidate b) sl = take cap (out ++ slots_of b)).
    { rewrite take_app, (take_ge out) by lia. unfold slots_of, sl. by rewrite firstn_map. }
    assert (Hl : (length out + length sl ≤ cap)%nat) by (unfold sl; rewrite length_take; lia).
    destruct (emit_all b sl out seen) as [Hem|(seen' & Hem & Hcap)].
    + by apply (sublist_NoDup sl (free_slots db p b)).
    + intros c Hc. pose proof (elem_of_sublist _ _ _ Hc Hsub) as Hc'. split.
      * intros Hs%Hseen. apply (N2 c Hs), elem_of_app. by left.
      * eapply Hbig; [left|done].
    + done.
    + rewrite Hem, IH.
      * by rewrite E, take_take_app, app_assoc.
      * intros c. rewrite elem_of_union, elem_of_list_to_set, Hseen, fmap_app, elem_of_app, <- list_fmap_compose.
        replace (cidr ∘ as_candidate b <$> sl) with sl by (symmetry; apply list_fmap_id). tauto.
      * rewrite length_app, length_fmap. lia.
      * rewrite fmap_app, <- app_assoc, <- list_fmap_compose.
        replace (cidr ∘ as_candidate b <$> sl) with sl by (symmetry; apply list_fmap_id).
        rewrite NoDup_app. split_and!; [done| |].
        -- intros c Hc Hin. apply (N2 c Hc). apply elem_of_app in Hin as [Hin|Hin]; apply elem_of_app; [left|by right].
           by apply (elem_of_sublist sl (free_slots db p b)).
        -- apply NoDup_app. split_and!; [by apply (sublist_NoDup sl (free_slots db p b))| |done].
           intros c Hc. apply N4. by apply (elem_of_sublist sl (free_slots db p b)).
      * intros b' c Hb. apply Hbig. by right.
    + rewrite Hem, sweep_full by (rewrite length_app, length_fmap; lia).
      rewrite app_assoc, (take_app_le (out ++ slots_of b)); [exact E|].
      apply (f_equal length) in E. rewrite length_app, length_fmap, length_take in E. lia.
Qed.

(** If nothing is big enough the sweep emits nothing. *)
Lemma sweep_none blocks out seen :
  (∀ b c, b ∈ blocks → c ∈ free_slots db p b → big_enough min_free c = false) →
  sweep db cap p min_free blocks out seen = out.
Proof.
  revert out seen. induction blocks as [|b rest IH]; intros out seen Hbig; simpl; [done|].
  destruct (Nat.leb_spec cap (length out)) as [Hfull|Hroom]; [done|].
  assert (IH' : ∀ out seen, sweep db cap p min_free rest out seen = out).
  { intros. apply IH. intros b' c Hb. apply Hbig. by right. }
  destruct (p <? prefixlen (b_network b)); [done|].
  rewrite candidates_spec by lia. set (sl := take (cap - length out) (free_slots db p b)).
  pose proof (emit_spec cap min_free b sl out seen) as He.
  destruct (emit cap min_free b sl out seen) as [out' seen']. destruct He as (new & -> & H1 & H2 & _).
  rewrite IH'. destruct new as [|c new]; [by rewrite app_nil_r|]. exfalso.
  destruct (H2 c ltac:(left)) as [_ Hb]. rewrite (Hbig b c) in Hb; [done|left|].
  apply (elem_of_sublist sl); [|apply sublist_take]. apply (elem_of_sublist (c :: new)); [left|exact H1].
Qed.
End sweep.

(** ** Free slots of a well-formed tree *)
Section slots.
Context (db : Db) (Hok : tree_ok db).

Lemma elem_direct_child b o : o ∈ _direct_child_cidrs db b ↔
  (∃ c, c ∈ live_blocks db ∧ b_parent c = Some (b_id b) ∧ o = b_network c)
  ∨ ∃ s, s ∈ live_subnets db ∧ s_block s = b_id b ∧ o = s_network s.
Proof.
  unfold _direct_child_cidrs. rewrite elem_of_app, !list_elem_of_fmap.
  split.
  - intros [(c & -> & [Hc Hp]%elem_filter)|(s & -> & [Hs Hp]%elem_filter)]; apply bool_decide_eq_true in Hp;
      [left; by exists c|right; by exists s].
  - intros [(c & Hc & Hp & ->)|(s & Hs & Hp & ->)]; [left; exists c|right; exists s]; (split; [done|]);
      apply elem_filter; (split; [done|]); by apply bool_decide_eq_true.
Qed.

Lemma direct_child_inside b o : b ∈ live_blocks db → o ∈ _direct_child_cidrs db b →
  wf o ∧ inside o (b_network b).
Proof.
  intros Hb [(c & Hc & Hp & ->)|(s & Hs & Hp & ->)]%elem_direct_child.
  - split; [by apply (wf_live_block db Hok)|]. by apply (tree_inside db Hok c b).
  - split; [by apply (wf_live_subnet db Hok)|].
    destruct (tree_subnet_in db Hok s Hs) as (d & Hd & E & _ & Hi).
    assert (d = b) as ->; [|done]. apply (live_id_inj db Hok); congruence.
Qed.

Lemma elem_free_slots p b c : b ∈ live_blocks db → p ≤ max_prefixlen (ver (b_network b)) →
  c ∈ free_slots db p b ↔
  wf c ∧ ver c = ver (b_network b) ∧ prefixlen c = p ∧ inside c (b_network b)
  ∧ ∀ o, o ∈ _direct_child_cidrs db b → ¬ meets c o.
Proof.
  intros Hb Hp. pose proof (wf_live_block db Hok b Hb) as Hw. unfold free_slots.
  destruct (Z.ltb_spec p (prefixlen (b_network b))) as [Hlt|Hge].
  { split; [intros H; by apply not_elem_of_nil in H|]. intros (Hc & Hv & <- & Hi & _). exfalso.
    (* a longer block does not contain a shorter one *)
    assert (Hs : num_addresses c ≤ num_addresses (b_network b)).
    { destruct (Hi _ (mem_network_address c Hc)) as [_ L1].
      destruct (Hi _ (mem_broadcast c Hc)) as [_ L2]. simpl in *. lia. }
    rewrite (size_split c (b_network b)) in Hs by (done || lia).
    pose proof (size_pos _ Hw). assert (2 ^ 1 ≤ 2 ^ (prefixlen (b_network b) - prefixlen c)) by (apply Z.pow_le_mono_r; lia).
    nia. }
  destruct (Z.eqb_spec p (prefixlen (b_network b))) as [->|Hne].
  - assert (Huniq : ∀ c, wf c → prefixlen c = prefixlen (b_network b) → inside c (b_network b) → c = b_network b).
    { intros d Hd He Hi. apply (same_length_disjoint d _ (network_address d)); auto with spatium. }
    case_bool_decide as Hoc.
    + rewrite list_elem_of_singleton. split.
      * intros ->. split_and!; try done. intros o Ho. rewrite Hoc in Ho. by apply not_elem_of_nil in Ho.
      * intros (? & ? & ? & ? & _). auto.
    + split; [intros H; by apply not_elem_of_nil in H|]. intros (Hc & _ & He & Hi & Hn). exfalso.
      rewrite (Huniq c Hc He Hi) in Hn. destruct (_direct_child_cidrs db b) as [|o os] eqn:Eo; [done|].
      apply (Hn o); [left|]. destruct (direct_child_inside b o Hb) as [Ho Hio]; [rewrite Eo; left|].
      by apply meets_sym, inside_meets.
  - rewrite elem_filter, elem_subnets by (done || lia). rewrite negb_true_iff, existsb_none.
    assert (Hm : wf c → ((∀ o, o ∈ _direct_child_cidrs db b → overlaps c o = false)
                         ↔ ∀ o, o ∈ _direct_child_cidrs db b → ¬ meets c o)).
    { intros Hc. apply forall_proper. intros o. split; intros H Ho; specialize (H Ho);
        destruct (direct_child_inside b o Hb Ho) as [Hwo _].
      - by rewrite <- not_true_iff_false, overlaps_spec in H.
      - by rewrite <- not_true_iff_false, overlaps_spec. }
    unfold inside. tauto.
Qed.

(** A CIDR free in a block is free in no other block of the space. *)
Lemma free_slots_disjoint p b b' c : b ∈ live_blocks db → b' ∈ live_blocks db →
  b_space b = b_space b' → p ≤ max_prefixlen (ver (b_network b)) → p ≤ max_prefixlen (ver (b_network b')) →
  c ∈ free_slots db p b → c ∈ free_slots db p b' → b = b'.
Proof.
  intros Hb Hb' Hs Hp Hp' H1%elem_free_slots H2%elem_free_slots; [|done..].
  destruct H1 as (Hc & _ & _ & I1 & F1), H2 as (_ & _ & _ & I2 & F2).
  assert (W : ∀ x y, x ∈ live_blocks db → inside c (b_network y) →
            (∀ o, o ∈ _direct_child_cidrs db x → ¬ meets c o) → above db x y → x = y).
  { intros x y Hx Hi Hf Ha. destruct (decide (x = y)) as [|Hne]; [done|]. exfalso.
    destruct (above_child db x y Ha Hne) as (d & Hd & Hpd & Hdy).
    apply (Hf (b_network d)); [apply elem_direct_child; left; eauto|].
    apply inside_meets; [done|]. destruct (above_inside db Hok d y Hdy) as [Hin _]. by etrans. }
  destruct (blocks_nested db Hok b b') as [A|A]; [done|done|done| |by eapply W|symmetry; by eapply W].
  exists (network_address c). auto with spatium.
Qed.

(** A free CIDR meets no subnet of its space, and only the blocks above. *)
Lemma free_slot_free p b c : b ∈ live_blocks db → p ≤ max_prefixlen (ver (b_network b)) →
  c ∈ free_slots db p b →
  (∀ s, s ∈ live_subnets db → s_space s = b_space b → ¬ meets c (s_network s))
  ∧ ∀ d, d ∈ live_blocks db → b_space d = b_space b → meets c (b_network d) → above db d b.
Proof.
  intros Hb Hp (Hc & _ & _ & Hi & Hf)%elem_free_slots; [|done..].
  assert (W : ∀ y n, inside n (b_network y) → above db b y → b ≠ y → ¬ meets c n).
  { intros y n Hn Ha Hne Hm. destruct (above_child db b y Ha Hne) as (d & Hd & Hpd & Hdy).
    apply (Hf (b_network d)); [apply elem_direct_child; left; eauto|].
    destruct (above_inside db Hok d y Hdy) as [Hin _].
    apply (meets_mono c c n (b_network d)); [done|by etrans|done]. }
  split.
  - intros s Hs Es Hm. destruct (tree_subnet_in db Hok s Hs) as (bs & Hbs & E & Esp & Hin).
    destruct (blocks_nested db Hok b bs) as [A|A]; [done|done|congruence| | |].
    + by apply (meets_mono c (b_network b) (s_network s) (b_network bs)).
    + destruct (decide (b = bs)) as [->|Hne]; [|by eapply (W bs)].
      apply (Hf (s_network s)); [|done]. apply elem_direct_child. right. eauto.
    + destruct (decide (bs = b)) as [->|Hne].
      { apply (Hf (s_network s)); [|done]. apply elem_direct_child. right. eauto. }
      destruct (above_child db bs b A Hne) as (d & Hd & Hpd & Hdb).
      apply (tree_subnet_blocks db Hok s d Hs Hd); [congruence|].
      destruct (above_inside db Hok d b Hdb) as [Hid _]. apply meets_sym.
      apply (meets_mono c (b_network d) (s_network s) (s_network s)); [by etrans|done|done].
  - intros d Hd Es Hm. destruct (blocks_nested db Hok b d) as [A|A]; [done|done|congruence| | |done].
    + by apply (meets_mono c (b_network b) (b_network d) (b_network d)).
    + destruct (decide (b = d)) as [->|Hne].
      * destruct (tree_rooted db Hok d Hd) as [l Hl]. exists l. split; [done|].
        destruct (chain_last db d l Hl) as [l0 ->]. apply elem_of_app. right. left.
      * exfalso. by apply (W d (b_network d)).
Qed.

Lemma below_space root b : root ∈ live_blocks db → below db root b →
  b ∈ live_blocks db ∧ b_space b = b_space root.
Proof.
  intros Hr. induction 1 as [|c d Hcd [Hc E] Hd Hp]; [done|]. split; [done|].
  destruct (tree_inside db Hok d c Hd Hc Hp) as [E' _]. congruence.
Qed.
End slots.

(** The family a request asks for. *)
Definition family (address_family : Z) : version := if address_family =? 4 then V4 else V6.

Lemma elem_blocks_in_family blocks fam b :
  b ∈ blocks_in_family blocks fam ↔ b ∈ blocks ∧ ver (b_network b) = family fam.
Proof.
  unfold blocks_in_family. rewrite merge_sort_Permutation, elem_filter.
  unfold _block_matches_family, family. destruct (fam =? 4); by rewrite bool_decide_eq_true.
Qed.

Lemma validate_prefix_bound p fam : _validate_prefix p fam = None → p ≤ max_prefixlen (family fam).
Proof.
  unfold _validate_prefix, family. destruct (fam =? 4); [|destruct (fam =? 6); [|done]];
    intros H; case_in H; apply negb_false_iff, andb_true_iff in E as [_ E%Z.leb_le]; simpl; lia.
Qed.

#[export] Instance block_le_total : Total block_le.
Proof. intros a b. unfold block_le. lia. Qed.
#[export] Instance block_le_trans : Transitive block_le.
Proof. intros a b c. unfold block_le. lia. Qed.

Section search.
Context (db : Db) (space : str) (p fam count : Z) (min_free : option Z) (parent : option str).
Context (Hok : tree_ok db) (Hp : _validate_prefix p fam = None).
Let blocks := blocks_in_family (_load_blocks db space parent) fam.

Lemma scope_blocks b : b ∈ blocks →
  b ∈ live_blocks db ∧ p ≤ max_prefixlen (ver (b_network b)) ∧ ver (b_network b) = family fam.
Proof.
  intros [Hb Hv]%elem_blocks_in_family. destruct (tree_rows db Hok) as (_ & _ & Hids & _).
  apply (load_blocks_spec db space parent) in Hb as [Hb _]; [|done].
  split_and!; [done| |done]. rewrite Hv. by apply validate_prefix_bound.
Qed.

Lemma scope_space b b' : b ∈ blocks → b' ∈ blocks → b_space b = b_space b'.
Proof.
  intros [Hb _]%elem_blocks_in_family [Hb' _]%elem_blocks_in_family.
  destruct (tree_rows db Hok) as (_ & _ & Hids & _).
  apply (load_blocks_spec db space parent) in Hb as [_ Hb], Hb' as [_ Hb']; [|done..].
  destruct parent as [q|]; [|congruence].
  destruct Hb as (root & Hr & Hb), Hb' as (root' & Hr' & Hb'). rewrite Hr in Hr'. injection Hr' as <-.
  apply get_block_Some in Hr as [Hr _].
  destruct (below_space db Hok root b Hr Hb), (below_space db Hok root b' Hr Hb'). congruence.
Qed.

Lemma scope_NoDup : NoDup blocks.
Proof.
  destruct (tree_rows db Hok) as (_ & _ & Hids & _). unfold blocks, blocks_in_family.
  rewrite merge_sort_Permutation. eapply sublist_NoDup; [|apply filter_sublist].
  eapply NoDup_fmap_1. by apply (load_blocks_spec db space parent).
Qed.

Lemma scope_slots_NoDup : NoDup (mjoin (map (free_slots db p) blocks)).
Proof.
  pose proof scope_NoDup as Hn. pose proof scope_blocks as Hl. pose proof scope_space as Hs.
  revert Hn Hl Hs. generalize blocks as bs. clear blocks.
  induction bs as [|b bs IH]; intros Hn Hl Hs; simpl; [constructor|].
  apply NoDup_cons in Hn as [Hb Hn]. destruct (Hl b ltac:(left)) as (Hlb & Hpb & _). apply NoDup_app. split_and!.
  - unfold free_slots. case_match; [constructor|]. case_match.
    + case_match; [apply NoDup_singleton|constructor].
    + eapply sublist_NoDup; [|apply filter_sublist]. apply subnets_NoDup. lia.
  - intros c Hc Hin. apply list_elem_of_join in Hin as (l & Hcl & Hin).
    apply list_elem_of_fmap in Hin as (b' & -> & Hb'). destruct (Hl b' ltac:(by right)) as (Hlb' & Hpb' & _).
    apply Hb. rewrite (free_slots_disjoint db Hok p b b' c); try done. apply Hs; [left|by right].
  - apply IH; [done|intros; apply Hl; by right|intros; apply Hs; by right].
Qed.

Lemma slots_uniform : ∃ enough, ∀ b c, b ∈ blocks → c ∈ free_slots db p b → big_enough min_free c = enough.
Proof.
  exists (big_enough min_free (mkNet (family fam) 0 p)). intros b c Hb Hc.
  destruct (scope_blocks b Hb) as (Hl & Hpb & Hv).
  apply elem_free_slots in Hc as (_ & Ev & Ep & _); [|done..].
  unfold big_enough. destruct min_free as [m|]; [|done].
  assert (E : _usable_addresses c = _usable_addresses (mkNet (family fam) 0 p)).
  { unfold _usable_addresses, num_addresses. rewrite Ev, Ep, Hv. done. }
  by rewrite E.
Qed.

Lemma find_candidates :
  candidates (find_free_space db space p fam count min_free parent)
  = take (cap_of count) (mjoin (map (λ b, map (as_candidate b)
      (List.filter (big_enough min_free) (free_slots db p b))) blocks)).
Proof.
  unfold find_free_space. rewrite Hp. case_bool_decide as Eb; simpl.
  { unfold blocks. rewrite Eb. simpl. by rewrite take_nil. }
  fold blocks. destruct slots_uniform as [[] Hu].
  - rewrite sweep_exact; [| |simpl; lia| |done].
    + simpl. f_equal. f_equal. apply list_fmap_ext. intros i b Hb.
      unfold slots_of. rewrite filter_all; [done|]. apply forallb_elem_iff. intros c Hc.
      eapply Hu; [by eapply list_elem_of_lookup_2|done].
    + set_solver.
    + simpl. apply scope_slots_NoDup.
  - rewrite sweep_none by done. revert Hu. generalize blocks as bs.
    induction bs as [|b bs IH]; intros Hu; simpl; [by rewrite take_nil|].
    replace (List.filter (big_enough min_free) (free_slots db p b)) with (@nil IPNetwork).
    + apply IH. intros b' c Hb. apply Hu. by right.
    + symmetry. destruct (List.filter (big_enough min_free) (free_slots db p b)) as [|c cs] eqn:E; [done|].
      assert (Hc : c ∈ List.filter (big_enough min_free) (free_slots db p b)) by (rewrite E; left).
      apply elem_filter in Hc as [Hc Hb]. rewrite (Hu b c) in Hb; [done|left|done].
Qed.
End search.

(** 10.0.0.0/24 with a child block at .0/26 and a subnet at .128/26: the
    other two quarters are free in the block, and the child block as a whole. *)
Definition sample_db : Db :=
  let v4 a p := mkNet V4 (167772160 + a) p in
  mkDb [mkBlock "b" "sp" None (v4 0 24) 0 256 false; mkBlock "c" "sp" (Some "b") (v4 0 26) 0 64 false]
       [mkSubnet "s" "sp" "b" (v4 128 26) "unicast" None 62 0 false] [].

Lemma sample_db_ok : tree_ok sample_db.
Proof. apply tree_okb_sound. vm_compute. reflexivity. Qed.

(** ** Claims *)

(** C27 -- the search is exact: for a valid request on a well-formed tree the
    candidates are, up to the cap of [count] (at most 100), all the big enough
    free CIDRs of the requested length, tightest container first and in
    address order within one; a CIDR is free in a block when it is an aligned
    network of that length inside the block that shares no address with any
    direct child.  The blocks searched are the live ones of the space, or those
    below the given block, of the requested family. *)
Theorem find_free_space_exact (db : Db) (space : str) (p fam count : Z) (min_free : option Z)
    (parent : option str) :
  tree_ok db → _validate_prefix p fam = None →
  let blocks := blocks_in_family (_load_blocks db space parent) fam in
  candidates (find_free_space db space p fam count min_free parent)
  = take (cap_of count) (mjoin (map (λ b, map (as_candidate b)
      (List.filter (big_enough min_free) (free_slots db p b))) blocks))
  ∧ (∀ b c, b ∈ blocks → c ∈ free_slots db p b ↔
       wf c ∧ ver c = ver (b_network b) ∧ prefixlen c = p ∧ inside c (b_network b)
       ∧ ∀ o, o ∈ _direct_child_cidrs db b → ¬ meets c o)
  ∧ StronglySorted block_le blocks ∧ NoDup blocks
  ∧ ∀ b, b ∈ blocks ↔ ver (b_network b) = family fam ∧ b ∈ live_blocks db
       ∧ match parent with
         | None => b_space b = space
         | Some q => ∃ root, get_block db q = Some root ∧ below db root b
         end.
Proof.
  intros Hok Hp. cbv zeta. split_and!.
  - by apply find_candidates.
  - intros b c Hb. destruct (scope_blocks db space p fam parent Hok Hp b Hb) as (Hl & Hpb & _).
    by apply elem_free_slots.
  - apply (StronglySorted_merge_sort block_le).
  - by apply scope_NoDup.
  - intros b. rewrite elem_blocks_in_family. destruct (tree_rows db Hok) as (_ & _ & Hids & _).
    rewrite (proj2 (load_blocks_spec db space parent Hids)). tauto.
Qed.

Lemma find_free_space_exact_witness :
  map cidr (candidates (find_free_space sample_db "sp" 26 4 5 None None))
  = [mkNet V4 167772160 26; mkNet V4 (167772160 + 64) 26; mkNet V4 (167772160 + 192) 26].
Proof.
  rewrite (proj1 (find_free_space_exact sample_db "sp" 26 4 5 None None sample_db_ok eq_refl)).
  vm_compute. reflexivity.
Defined.

(** A candidate is free: on a well-formed tree, whatever the request,
    every candidate is an aligned network inside the block it is attributed
    to, shares no address with any live subnet of the space, and only with
    that block and the blocks above it; no candidate is repeated, none is
    smaller than asked, and there are at most 100. *)
Theorem find_free_space_safe (db : Db) (space : str) (p fam count : Z) (min_free : option Z)
    (parent : option str) :
  tree_ok db →
  let cs := candidates (find_free_space db space p fam count min_free parent) in
  (∀ x, x ∈ cs → ∃ b, b ∈ live_blocks db ∧ parent_block_id x = b_id b
     ∧ wf (cidr x) ∧ prefixlen (cidr x) = p ∧ inside (cidr x) (b_network b)
     ∧ free_addresses x = _usable_addresses (cidr x)
     ∧ (∀ m, min_free = Some m → m ≤ free_addresses x)
     ∧ (∀ s, s ∈ live_subnets db → s_space s = b_space b → ¬ meets (cidr x) (s_network s))
     ∧ ∀ d, d ∈ live_blocks db → b_space d = b_space b → meets (cidr x) (b_network d) → above db d b)
  ∧ NoDup (map cidr cs) ∧ (length cs ≤ 100)%nat.
Proof.
  intros Hok. cbv zeta. destruct (_validate_prefix p fam) as [e|] eqn:Hp.
  { unfold find_free_space. rewrite Hp. simpl. split_and!; [set_solver|constructor|lia]. }
  rewrite find_candidates by done. split_and!.
  - intros x Hx. eapply elem_of_sublist in Hx; [|apply sublist_take].
    apply list_elem_of_join in Hx as (l & Hx & Hl). apply list_elem_of_fmap in Hl as (b & -> & Hb).
    apply list_elem_of_fmap in Hx as (c & -> & Hc). apply elem_filter in Hc as [Hc Hbig].
    destruct (scope_blocks db space p fam parent Hok Hp b Hb) as (Hlb & Hpb & _).
    destruct (free_slot_free db Hok p b c Hlb Hpb Hc) as [F1 F2].
    apply elem_free_slots in Hc as (Hw & Hv & Hpl & Hi & _); [|done..].
    exists b. split_and!; try done. intros m ->. by apply Z.leb_le.
  - rewrite fmap_take. eapply sublist_NoDup; [|apply sublist_take].
    eapply sublist_NoDup; [apply (scope_slots_NoDup db space p fam parent Hok Hp)|].
    induction (blocks_in_family _ _) as [|b bs IH]; simpl; [done|]. rewrite fmap_app.
    apply sublist_app; [|done]. rewrite <- list_fmap_compose.
    replace (cidr ∘ as_candidate b <$> List.filter (big_enough min_free) (free_slots db p b))
      with (List.filter (big_enough min_free) (free_slots db p b)) by (symmetry; apply list_fmap_id).
    apply filter_sublist.
  - rewrite length_take. unfold cap_of, _HARD_CAP. lia.
Qed.

Lemma find_free_space_safe_witness :
  ∃ b, b ∈ live_blocks sample_db ∧ inside (mkNet V4 (167772160 + 64) 26) (b_network b).
Proof.
  destruct (proj1 (find_free_space_safe sample_db "sp" 26 4 5 None None sample_db_ok)
    (mkCandidate (mkNet V4 (167772160 + 64) 26) "b" (mkNet V4 167772160 24) 62)) as (b & Hb & _ & _ & _ & Hi & _).
  - apply (bool_decide_unpack _). vm_compute. exact I.
  - exists b. split; [exact Hb|exact Hi].
Defined.
End FreeSpace.
