(* ===== verification/SubnetBoundary.v ===== *)
(** * Network and broadcast addresses of a subnet

    [backend/app/services/ipam/subnet_boundary.py]: which pseudo-rows a subnet
    at a prefix carries, which hosts an operation would put on one, and the
    seeding of the missing ones.  Split, merge and resize share it. *)
From S2P Require Import Prelude PyStr IpNet Ipam.

Module SubnetBoundary.
Import Ipam.
Local Open Scope Z_scope.

Definition has_boundary_rows (net : IPNetwork) (kind : str) : bool :=
  if bool_decide (kind = "multicast") then false
  else prefixlen net <? (if bool_decide (ver net = V6) then 127 else 31).

(** [(address, status, description)] *)
Definition boundary_rows (net : IPNetwork) (kind : str) : list (IPAddr * str * str) :=
  if negb (has_boundary_rows net kind) then []
  else
    (network_address net, "network" : str, "Network address" : str)
    :: (if bool_decide (ver net = V4)
        then [(broadcast_address net, "broadcast" : str, "Broadcast address" : str)] else []).

Definition boundary_addresses (net : IPNetwork) (kind : str) : gset IPAddr :=
  list_to_set (map (λ '(a, _, _), a) (boundary_rows net kind)).

(** A host on a boundary: the row, and which address of which network it is. *)
Record host_conflict := mkHostConflict { h_row : IPAddress; h_status : str; h_net : IPNetwork }.

(** The dict [where]; a later network's entry wins. *)
Definition add_boundary (kind : str) (w : gmap IPAddr (str * IPNetwork)) (net : IPNetwork)
    : gmap IPAddr (str * IPNetwork) :=
  foldl (λ w '(a, status, _), <[a := (status, net)]> w) w (boundary_rows net kind).

Definition where_map (nets : list IPNetwork) (kind : str) : gmap IPAddr (str * IPNetwork) :=
  foldl (add_boundary kind) ∅ nets.

Definition is_placeholder (status : str) : bool :=
  bool_decide (status = "network") || bool_decide (status = "broadcast").

Definition boundary_host_conflicts (rows : list IPAddress) (nets : list IPNetwork) (kind : str)
    (already : gset IPAddr) : list host_conflict :=
  omap (λ row, if is_placeholder (i_status row) then None
               else if bool_decide (i_address row ∈ already) then None
               else (λ '(status, net), mkHostConflict row status net) <$> where_map nets kind !! i_address row) rows.

Definition new_row (subnet_id : str) (a : IPAddr) (status : str) (hostname : option str)
    (desc : str) (user : option str) : IPAddress :=
  mkIPAddress subnet_id a status hostname desc None user.

(** The rows [ensure_boundary_rows] adds. *)
Definition missing_rows (db : Db) (subnet_id : str) (net : IPNetwork) (user : option str) (kind : str)
    : list IPAddress :=
  let existing := map i_address (rows_of db subnet_id) in
  map (λ '(a, status, desc), new_row subnet_id a status None desc user)
    (List.filter (λ '(a, _, _), negb (bool_decide (a ∈ existing))) (boundary_rows net kind)).

Definition ensure_boundary_rows (db : Db) (subnet_id : str) (net : IPNetwork) (user : option str)
    (kind : str) : Db * nat :=
  let new := missing_rows db subnet_id net user kind in
  (set_addresses db (ip_address db ++ new), length new).

(** ** Lemmas *)
Lemma boundary_inside net kind a : wf net → a ∈ boundary_addresses net kind → mem net a.
Proof.
  intros Hw. unfold boundary_addresses, boundary_rows. destruct (has_boundary_rows net kind); simpl; [|set_solver].
  case_bool_decide; simpl; rewrite ?elem_of_union, ?elem_of_singleton.
  - intros [->|[->|H1]]; auto with spatium. set_solver.
  - intros [->|H1]; auto with spatium. set_solver.
Qed.

Lemma add_boundary_lookup kind w net a :
  is_Some (add_boundary kind w net !! a) ↔ is_Some (w !! a) ∨ a ∈ boundary_addresses net kind.
Proof.
  unfold add_boundary, boundary_addresses. rewrite elem_of_list_to_set.
  generalize (boundary_rows net kind). intros l. revert w.
  induction l as [|[[b st] d] l IH]; intros w; cbn [foldl map]; [set_solver|].
  rewrite IH, elem_of_cons. destruct (decide (a = b)) as [->|Hne].
  - rewrite lookup_insert_eq. naive_solver.
  - rewrite lookup_insert_ne by done. naive_solver.
Qed.

Lemma where_map_lookup nets kind a :
  is_Some (where_map nets kind !! a) ↔ ∃ net, net ∈ nets ∧ a ∈ boundary_addresses net kind.
Proof.
  unfold where_map. assert (G : ∀ ns w, is_Some (foldl (add_boundary kind) w ns !! a)
    ↔ is_Some (w !! a) ∨ ∃ net, net ∈ ns ∧ a ∈ boundary_addresses net kind).
  { induction ns as [|n ns IH]; intros w; cbn [foldl].
    - split; [auto|intros [H|(net & H & _)]; [done|by apply not_elem_of_nil in H]].
    - rewrite IH, add_boundary_lookup. split.
      + intros [[H|H]|(net & H1 & H2)]; [by left|right; exists n|right; exists net]; (split; [|done]); by constructor.
      + intros [H|(net & [->|H1]%elem_of_cons & H2)]; eauto. }
  rewrite G, lookup_empty. split; [intros [[? [=]]|H]; done|auto].
Qed.

Lemma where_map_net nets kind a st n :
  where_map nets kind !! a = Some (st, n) → n ∈ nets ∧ a ∈ boundary_addresses n kind.
Proof.
  unfold where_map. assert (B : ∀ w net, add_boundary kind w net !! a = Some (st, n) →
    w !! a = Some (st, n) ∨ n = net ∧ a ∈ boundary_addresses net kind).
  { intros w net. unfold add_boundary, boundary_addresses. setoid_rewrite elem_of_list_to_set.
    generalize (boundary_rows net kind). intros l. revert w.
    induction l as [|[[b s0] d] l IH]; intros w H; cbn [foldl map] in *; [by left|].
    apply IH in H as [H|[-> H]]; [|right; split; [done|by right]].
    destruct (decide (a = b)) as [->|Hne].
    - rewrite lookup_insert_eq in H. injection H as -> ->. right. split; [done|left].
    - rewrite lookup_insert_ne in H by done. by left. }
  assert (G : ∀ ns w, foldl (add_boundary kind) w ns !! a = Some (st, n) →
    w !! a = Some (st, n) ∨ n ∈ ns ∧ a ∈ boundary_addresses n kind).
  { induction ns as [|m ns IH]; intros w H; cbn [foldl] in H; [by left|].
    apply IH in H as [H|[H1 H2]]; [|right; split; [by right|done]].
    apply B in H as [H|[-> H]]; [by left|]. right. split; [left|done]. }
  intros H. apply G in H as [H|H]; [by rewrite lookup_empty in H|done].
Qed.

(** Adding the placeholders of a network whose addresses no row holds. *)
Lemma elem_missing_rows db sid net user kind r :
  r ∈ missing_rows db sid net user kind →
  i_subnet r = sid ∧ is_placeholder (i_status r) = true ∧ i_address r ∈ boundary_addresses net kind
  ∧ (i_address r ∉ map i_address (rows_of db sid)) ∧ i_hostname r = None ∧ i_dns_record r = None.
Proof.
  unfold missing_rows, boundary_addresses. intros ([[a st] d] & -> & [Hin Hn]%elem_filter)%list_elem_of_fmap.
  apply negb_true_iff, bool_decide_eq_false in Hn. split_and!; try done; simpl.
  - unfold boundary_rows in Hin. destruct (has_boundary_rows net kind); simpl in Hin; [|by apply not_elem_of_nil in Hin].
    apply elem_of_cons in Hin as [[= -> -> ->]|Hin]; [done|].
    case_bool_decide; [|by apply not_elem_of_nil in Hin]. by apply list_elem_of_singleton in Hin as [= -> -> ->].
  - apply elem_of_list_to_set, list_elem_of_fmap. by exists (a, st, d).
Qed.

Lemma boundary_NoDup net kind : wf net → NoDup (map (λ '(a, _, _), a) (boundary_rows net kind)).
Proof.
  intros Hw. unfold boundary_rows. destruct (has_boundary_rows net kind) eqn:E; simpl; [|constructor].
  destruct (decide (ver net = V4)) as [Ev|Ev].
  - rewrite bool_decide_true by done. simpl. apply NoDup_cons. split; [|apply NoDup_singleton].
    intros [= Hb]%list_elem_of_singleton. unfold has_boundary_rows in E. case_bool_decide; [done|].
    rewrite Ev in E. apply Z.ltb_lt in E. simpl in E.
    assert (2 ^ 1 ≤ num_addresses net); [|lia]. unfold num_addresses.
    apply Z.pow_le_mono_r; [lia|]. rewrite Ev. simpl. lia.
  - rewrite bool_decide_false by done. apply NoDup_singleton.
Qed.

(** The rule in words: the network address of a unicast network shorter than
    /31 (IPv4) or /127 (IPv6), and for IPv4 its broadcast address. *)
Definition is_boundary (net : IPNetwork) (kind : str) (a : IPAddr) : Prop :=
  kind ≠ "multicast" ∧
  match ver net with
  | V4 => prefixlen net < 31 ∧ (a = network_address net ∨ a = broadcast_address net)
  | V6 => prefixlen net < 127 ∧ a = network_address net
  end.

Lemma elem_boundary net kind a : a ∈ boundary_addresses net kind ↔ is_boundary net kind a.
Proof.
  unfold boundary_addresses, boundary_rows, has_boundary_rows, is_boundary. case_bool_decide as Ek; simpl.
  - split; [set_solver|]. by intros [? _].
  - destruct (ver net) eqn:Ev; simpl; (match goal with |- context [?x <? ?y] => destruct (Z.ltb_spec x y) end);
      simpl; rewrite ?elem_of_union, ?elem_of_singleton; split; try lia; try set_solver;
      intros [_ [Hlt _]]; lia.
Qed.

(** The rows of the subnet after a seeding. *)
Lemma rows_of_seeded db sid net user kind :
  rows_of (set_addresses db (ip_address db ++ missing_rows db sid net user kind)) sid
  = rows_of db sid ++ missing_rows db sid net user kind.
Proof.
  unfold rows_of at 1. simpl. rewrite List.filter_app. f_equal. apply filter_all, forallb_elem_iff.
  intros r Hr. apply elem_missing_rows in Hr as [Hr _]. by apply bool_decide_eq_true.
Qed.

Lemma seeded_cover db sid net user kind a : is_boundary net kind a →
  a ∈ map i_address (rows_of (set_addresses db (ip_address db ++ missing_rows db sid net user kind)) sid).
Proof.
  intros Ha. rewrite rows_of_seeded, fmap_app. apply elem_of_app.
  destruct (decide (a ∈ map i_address (rows_of db sid))) as [|Hn]; [by left|right].
  apply elem_boundary, elem_of_list_to_set, list_elem_of_fmap in Ha as ([[b st] d] & -> & Hin).
  apply list_elem_of_fmap. exists (new_row sid b st None d user). split; [done|].
  apply list_elem_of_fmap. exists (b, st, d). split; [done|]. apply elem_filter.
  split; [done|]. by apply negb_true_iff, bool_decide_eq_false.
Qed.

Lemma seeded_NoDup db sid net user kind : wf net → NoDup (map i_address (rows_of db sid)) →
  NoDup (map i_address (rows_of (set_addresses db (ip_address db ++ missing_rows db sid net user kind)) sid)).
Proof.
  intros Hw Hnd. rewrite rows_of_seeded, fmap_app. apply NoDup_app. split_and!; [done| |].
  - intros a Ha (r & -> & Hr)%list_elem_of_fmap. by apply elem_missing_rows in Hr as (_ & _ & _ & H & _).
  - unfold missing_rows. rewrite <- list_fmap_compose.
    eapply sublist_NoDup; [apply (boundary_NoDup net kind Hw)|].
    rewrite (list_fmap_ext (i_address ∘ _) (λ '(a, _, _), a)); [|by intros i [[??]?] _].
    apply (fmap_sublist (λ '(a, _, _), a)), filter_sublist.
Qed.

Lemma omap_nil {A B} (f : A → option B) l : omap f l = [] ↔ ∀ x, x ∈ l → f x = None.
Proof.
  induction l as [|y l IH]; [by split; [intros _ x ?%not_elem_of_nil|]|].
  change (omap f (y :: l)) with (match f y with Some z => z :: omap f l | None => omap f l end).
  setoid_rewrite elem_of_cons. destruct (f y) eqn:E.
  - split; [done|]. intros H. specialize (H y (or_introl eq_refl)). congruence.
  - rewrite IH. split; [by intros H x [->|Hx]; auto|auto].
Qed.

Lemma no_host_conflicts rows nets kind already : boundary_host_conflicts rows nets kind already = [] ↔
  ∀ r, r ∈ rows → is_placeholder (i_status r) = true ∨ i_address r ∈ already
       ∨ ∀ net, net ∈ nets → ¬ is_boundary net kind (i_address r).
Proof.
  unfold boundary_host_conflicts. rewrite omap_nil. apply forall_proper; intros r. apply forall_proper; intros Hr.
  destruct (is_placeholder (i_status r)); [naive_solver|]. case_bool_decide; [naive_solver|].
  pose proof (where_map_lookup nets kind (i_address r)) as H1. setoid_rewrite elem_boundary in H1.
  destruct (where_map nets kind !! i_address r) as [[st n]|]; simpl; [|].
  - destruct H1 as [(net & H2 & H3) _]; [by eexists|]. split; [done|]. intros [?|[?|H4]]; [done..|].
    by destruct (H4 net H2).
  - split; [|done]. intros _. right; right. intros net H2 H3. destruct H1 as [_ H1].
    by destruct (H1 (ex_intro _ net (conj H2 H3))).
Qed.

(** ** Claims *)

(** Hosts on a new boundary are found exactly: the conflicts are the
    rows, in order, that are no placeholder, did not already sit on a boundary
    before, and sit on the network or broadcast address of one of the results;
    each names such a result. *)
Theorem boundary_host_conflicts_exact (rows : list IPAddress) (nets : list IPNetwork) (kind : str)
    (already : gset IPAddr) :
  (∀ r, r ∈ map h_row (boundary_host_conflicts rows nets kind already) ↔
     r ∈ rows ∧ i_status r ≠ "network" ∧ i_status r ≠ "broadcast" ∧ (i_address r ∉ already)
     ∧ ∃ net, net ∈ nets ∧ is_boundary net kind (i_address r))
  ∧ map h_row (boundary_host_conflicts rows nets kind already) `sublist_of` rows
  ∧ ∀ c, c ∈ boundary_host_conflicts rows nets kind already →
      h_net c ∈ nets ∧ is_boundary (h_net c) kind (i_address (h_row c)).
Proof.
  unfold boundary_host_conflicts. set (f := λ row : IPAddress, _).
  assert (Hf : ∀ r c, f r = Some c → h_row c = r ∧ is_placeholder (i_status r) = false
            ∧ (i_address r ∉ already) ∧ h_net c ∈ nets ∧ is_boundary (h_net c) kind (i_address r)).
  { intros r c. unfold f. destruct (is_placeholder (i_status r)); [done|]. case_bool_decide as Ha; [done|].
    destruct (where_map nets kind !! i_address r) as [[st n]|] eqn:E; [|done].
    intros [= <-]. simpl. apply where_map_net in E as [H1 H2]. by rewrite elem_boundary in H2. }
  split_and!.
  - intros r. rewrite list_elem_of_fmap. setoid_rewrite list_elem_of_omap. split.
    + intros (c & -> & r' & Hr & Hc). apply Hf in Hc as (-> & H1 & H2 & H3 & H4).
      unfold is_placeholder in H1. apply orb_false_iff in H1 as [H1 H1'].
      apply bool_decide_eq_false in H1, H1'. eauto 10.
    + intros (Hr & H1 & H2 & H3 & net & Hn & Hb).
      destruct (where_map nets kind !! i_address r) as [[st n]|] eqn:E.
      * exists (mkHostConflict r st n). split; [done|]. exists r. split; [done|]. unfold f, is_placeholder.
        rewrite !bool_decide_false by done. simpl. by rewrite E.
      * exfalso. assert (Hs : is_Some (where_map nets kind !! i_address r)).
        { apply where_map_lookup. exists net. by rewrite elem_boundary. }
        rewrite E in Hs. by destruct Hs.
  - induction rows as [|r rows IH]; simpl; [constructor|]. destruct (f r) as [c|] eqn:E; simpl; [|by constructor].
    apply Hf in E as (-> & _). by constructor.
  - intros c (r & Hr & Hc)%list_elem_of_omap. by apply Hf in Hc as (-> & _ & _ & H).
Qed.

(** Seeding completes the placeholders: afterwards every boundary address
    of the network is held by a row of the subnet, whatever was there before;
    the rows of the table stay, in front, and each added row is an unnamed
    placeholder of this subnet at a boundary address no row held, so the
    addresses of the subnet stay distinct.  A second seeding adds nothing. *)
Theorem ensure_boundary_rows_complete (db : Db) (sid : str) (net : IPNetwork) (user : option str)
    (kind : str) :
  wf net → NoDup (map i_address (rows_of db sid)) →
  let '(db', created) := ensure_boundary_rows db sid net user kind in
  (∀ a, is_boundary net kind a → a ∈ map i_address (rows_of db' sid))
  ∧ (∃ new, ip_address db' = ip_address db ++ new ∧ length new = created
      ∧ ∀ r, r ∈ new → i_subnet r = sid ∧ is_placeholder (i_status r) = true
          ∧ is_boundary net kind (i_address r) ∧ (i_address r ∉ map i_address (rows_of db sid))
          ∧ i_hostname r = None)
  ∧ NoDup (map i_address (rows_of db' sid))
  ∧ ip_block db' = ip_block db ∧ subnet db' = subnet db
  ∧ ensure_boundary_rows db' sid net user kind = (db', 0%nat).
Proof.
  intros Hw Hnd. unfold ensure_boundary_rows at 1. set (new := missing_rows db sid net user kind).
  set (db' := set_addresses db (ip_address db ++ new)).
  pose proof (seeded_cover db sid net user kind) as Hcov. split_and!; [done| | |done|done|].
  - exists new. split_and!; [done..|]. intros r (H1 & H2 & H3 & H4 & H5 & _)%elem_missing_rows.
    by rewrite elem_boundary in H3.
  - by apply seeded_NoDup.
  - unfold ensure_boundary_rows. replace (missing_rows db' sid net user kind) with (@nil IPAddress).
    + simpl. unfold db'. simpl. by rewrite app_nil_r.
    + unfold missing_rows. symmetry. rewrite filter_none_elem; [done|]. intros [[b st] d] Hin.
      apply negb_false_iff, bool_decide_eq_true, Hcov, elem_boundary, elem_of_list_to_set, list_elem_of_fmap.
      by exists (b, st, d).
Qed.

Lemma ensure_boundary_rows_complete_witness :
  let net := mkNet V4 167772160 24 in
  broadcast_address net
    ∈ map i_address (rows_of (fst (ensure_boundary_rows (mkDb [] [] []) "s" net None "unicast")) "s").
Proof.
  destruct (ensure_boundary_rows_complete (mkDb [] [] []) "s" (mkNet V4 167772160 24) None "unicast")
    as [H _].
  - apply (bool_decide_unpack _). vm_compute. exact I.
  - constructor.
  - apply H. split; [discriminate|]. split; [reflexivity|right; reflexivity].
Defined.
End SubnetBoundary.
