(* ===== verification/Utilization.v ===== *)
(** * Utilization counters

    The cached [allocated_ips] of subnets and blocks:
    [backend/app/services/ipam/utilization.py] and the recounts of
    [backend/app/api/v1/ipam/router.py].  The SQL fragments are modelled by
    what they compute on the tables.  Row locks and the float percentages
    derived from the counters are not modelled. *)
From S2P Require Import Prelude PyStr IpNet Ipam.

Module Utilization.
Import Ipam.
Local Open Scope Z_scope.

Definition _BIGINT_MAX : Z := 2 ^ 63 - 1.

(** [_total_ips] of the router, and its copies in resize, split and merge. *)
Definition _total_ips (net : IPNetwork) : Z :=
  if bool_decide (ver net = V6) then Z.min (num_addresses net) _BIGINT_MAX
  else if 31 <=? prefixlen net then num_addresses net
  else num_addresses net - 2.

Definition counts_toward_utilization (r : IPAddress) : bool :=
  negb (bool_decide (i_status r = "available")) && negb (bool_decide (i_status r = "broadcast"))
  && negb (bool_decide (i_status r = "network") && bool_decide (a_version (i_address r) = V4)).

(** The rows of a subnet that count. *)
Definition counting (db : Db) (sid : str) : list IPAddress :=
  List.filter counts_toward_utilization (rows_of db sid).

Definition count_of (db : Db) (sid : str) : Z := Z.of_nat (length (counting db sid)).

Definition set_allocated (s : Subnet) (n : Z) : Subnet :=
  mkSubnet (s_id s) (s_space s) (s_block s) (s_network s) (s_kind s) (s_gateway s) (s_total_ips s) n
    (s_deleted s).

Definition _update_utilization (db : Db) (sid : str) : Db :=
  update_subnets (λ s, if bool_decide (s_id s = sid) && negb (s_deleted s)
                       then set_allocated s (count_of db sid) else s) db.

(** The same in one pass; [include_deleted] also recounts trashed subnets. *)
Definition _update_subnets_utilization (db : Db) (ids : list str) (include_deleted : bool) : Db :=
  update_subnets (λ s, if bool_decide (s_id s ∈ ids) && (include_deleted || negb (s_deleted s))
                       then set_allocated s (count_of db (s_id s)) else s) db.

(** [EXISTS (... a.address = addr AND <counts>)] *)
Definition _counting_row_at (db : Db) (s : Subnet) (a : IPAddr) : bool :=
  existsb (λ r, bool_decide (i_address r = a)) (counting db (s_id s)).

(** 1 for an unusable address no counting row sits on. *)
Definition unheld (db : Db) (s : Subnet) (a : IPAddr) : Z :=
  if _counting_row_at db s a then 0 else 1.

Definition block_subnet_contribution (db : Db) (s : Subnet) : Z :=
  let net := s_network s in
  s_allocated_ips s
  + (if bool_decide (ver net = V4) && (prefixlen net <? 31) then
       unheld db s (network_address net) + unheld db s (broadcast_address net)
     else if bool_decide (ver net = V6) && (prefixlen net <? 127) then
       unheld db s (network_address net)
     else 0).

Definition block_allocated (allocated : Z) (net : IPNetwork) : Z :=
  Z.max 0 (Z.min allocated (num_addresses net)).

(** The live block [id] and the live blocks below it. *)
Definition live_descendants (db : Db) (id : str) : list str :=
  descend (S (length (live_blocks db))) (live_blocks db) (self_ids (live_blocks db) id).

Definition sum (l : list Z) : Z := foldr Z.add 0 l.

Definition rollup (db : Db) (id : str) : Z :=
  sum (map (block_subnet_contribution db)
    (List.filter (λ s, bool_decide (s_block s ∈ live_descendants db id)) (live_subnets db))).

Definition set_counts (b : IPBlock) (allocated total : Z) : IPBlock :=
  mkBlock (b_id b) (b_space b) (b_parent b) (b_network b) allocated total (b_deleted b).

(** The recount of one live block. *)
Definition _recount_block (db : Db) (block : IPBlock) : Db :=
  let net := b_network block in
  update_blocks (λ b, if bool_decide (b_id b = b_id block)
                      then set_counts b (block_allocated (rollup db (b_id block)) net)
                                        (Z.min (num_addresses net) _BIGINT_MAX)
                      else b) db.

(** [while block is not None and block.id not in blocks]: a step adds a block,
    so one per live block is enough. *)
Fixpoint walk_up (fuel : nat) (db : Db) (block : option IPBlock) (blocks : list IPBlock) : list IPBlock :=
  match fuel, block with
  | S fuel', Some b =>
      if bool_decide (b_id b ∈ map b_id blocks) then blocks
      else walk_up fuel' db (match b_parent b with Some p => get_block db p | None => None end)
             (blocks ++ [b])
  | _, _ => blocks
  end.

Definition id_le (b c : IPBlock) : Prop := str_le (b_id b) (b_id c).
#[export] Instance id_le_dec : RelDecision id_le.
Proof. intros b c. unfold id_le. apply _. Defined.

(** The union of the chains of some blocks, in id order. *)
Definition chain_blocks (db : Db) (block_ids : list str) : list IPBlock :=
  merge_sort id_le
    (foldl (λ blocks start, walk_up (S (length (live_blocks db))) db (get_block db start) blocks) [] block_ids).

Definition _update_blocks_utilization (db : Db) (block_ids : list str) : Db :=
  foldl _recount_block db (chain_blocks db block_ids).

Definition _update_block_utilization (db : Db) (block_id : str) : Db :=
  _update_blocks_utilization db [block_id].

(** [list(dict.fromkeys(ids))] is not needed: the recounts are idempotent. *)
Definition recount_subnets_and_blocks (db : Db) (ids : list str) (include_deleted : bool) : Db :=
  match ids with
  | [] => db
  | _ =>
      let db1 := _update_subnets_utilization db ids include_deleted in
      let subs := List.filter (λ s, include_deleted || negb (s_deleted s)) (subnet db1) in
      let block_ids := map s_block (List.filter (λ s, bool_decide (s_id s ∈ ids)) subs) in
      _update_blocks_utilization db1 block_ids
  end.

(** ** The recounts as one update *)
Lemma set_counts_keeps (P : IPBlock → bool) m n :
  keeps (λ b, if P b then set_counts b (m b) (n b) else b).
Proof. intros b. by destruct (P b). Qed.

Lemma live_descendants_update f db id : keeps f →
  live_descendants (update_blocks f db) id = live_descendants db id.
Proof.
  intros Hf. unfold live_descendants. rewrite live_update_blocks, length_fmap by done.
  by rewrite self_map, descend_map.
Qed.

Lemma rollup_update f db id : keeps f → rollup (update_blocks f db) id = rollup db id.
Proof. intros Hf. unfold rollup. by rewrite live_descendants_update. Qed.

(** What a recount of the blocks [ids] makes of a block. *)
Definition refresh (db : Db) (ids : list str) (b : IPBlock) : IPBlock :=
  if bool_decide (b_id b ∈ ids)
  then set_counts b (block_allocated (rollup db (b_id b)) (b_network b))
                    (Z.min (num_addresses (b_network b)) _BIGINT_MAX)
  else b.

Lemma refresh_keeps db ids : keeps (refresh db ids) ∧ ∀ b, b_network (refresh db ids b) = b_network b.
Proof.
  split; [apply (set_counts_keeps (λ b, bool_decide (b_id b ∈ ids)))|].
  intros b. unfold refresh. by case_bool_decide.
Qed.

Lemma update_blocks_compose f g db : update_blocks f (update_blocks g db) = update_blocks (f ∘ g) db.
Proof. unfold update_blocks. simpl. by rewrite List.map_map. Qed.

Lemma update_blocks_ext f g db : (∀ b, b ∈ ip_block db → f b = g b) → update_blocks f db = update_blocks g db.
Proof.
  intros H. unfold update_blocks. f_equal. apply map_ext_in. intros b Hb. apply H. by apply list_elem_of_In.
Qed.

Section recount.
Context (db : Db) (Hok : tree_ok db).

Lemma recounts_refresh bs : (∀ b, b ∈ bs → b ∈ live_blocks db) →
  foldl _recount_block db bs = update_blocks (refresh db (map b_id bs)) db.
Proof.
  induction bs as [|b bs IH] using rev_ind; intros Hbs; simpl.
  - transitivity (update_blocks (λ b, b) db); [|by apply update_blocks_ext].
    unfold update_blocks. rewrite map_id. by destruct db.
  - rewrite foldl_app, IH by (intros x Hx; apply Hbs, elem_of_app; by left). simpl.
    destruct (refresh_keeps db (map b_id bs)) as [Hk Hn]. unfold _recount_block.
    rewrite update_blocks_compose. apply update_blocks_ext. intros x Hx. simpl.
    rewrite rollup_update by done. destruct (Hk x) as (E & _). rewrite E.
    assert (Hb : b ∈ ip_block db) by (apply (elem_live_blocks db b), Hbs, elem_of_app; right; left).
    unfold refresh. rewrite map_app. simpl. case_bool_decide as Ex.
    + assert (x = b) as -> by by apply (block_id_inj db Hok).
      rewrite (bool_decide_true (b_id b ∈ _ ++ _)) by (apply elem_of_app; right; left). by case_bool_decide.
    + rewrite (bool_decide_ext (b_id x ∈ map b_id bs ++ [b_id b]) (b_id x ∈ map b_id bs)); [done|].
      rewrite elem_of_app, list_elem_of_singleton. naive_solver.
Qed.

(** ** Which blocks a recount reaches *)
Lemma walk_up_spec fuel b l blocks :
  chain db b l → (length l ≤ fuel)%nat → (∀ x, x ∈ blocks → x ∈ live_blocks db) →
  (∀ x y, x ∈ blocks → above db x b → above db y x → y ∈ blocks) →
  ∀ y, y ∈ walk_up fuel db (Some b) blocks ↔ y ∈ blocks ∨ above db y b.
Proof.
  intros Hl. revert fuel blocks. induction Hl as [b Hb Hp|b p l Hb Hp Hc IH];
    intros fuel blocks Hlen Hlive Hclosed y; (destruct fuel as [|fuel]; [rewrite ?length_app in Hlen; simpl in Hlen; lia|]);
    cbn [walk_up]; case_bool_decide as Hin.
  - assert (Hbb : b ∈ blocks).
    { apply list_elem_of_fmap in Hin as (x & E & Hx). by rewrite (live_id_inj db Hok b x Hb (Hlive x Hx) E). }
    split; [by left|]. intros [?|Ha]; [done|]. by apply (Hclosed b y); [|apply above_refl|].
  - rewrite Hp. assert (E : walk_up fuel db None (blocks ++ [b]) = blocks ++ [b]) by by destruct fuel.
    rewrite E, elem_of_app, list_elem_of_singleton. split; (intros [?|H]; [by left|right]).
    + subst. by apply above_refl.
    + destruct H as (m & Hm & Hy). rewrite (chain_fun db Hok b m [b] Hm) in Hy by by apply chain_top.
      by apply list_elem_of_singleton in Hy.
  - assert (Hbb : b ∈ blocks).
    { apply list_elem_of_fmap in Hin as (x & E & Hx). by rewrite (live_id_inj db Hok b x Hb (Hlive x Hx) E). }
    split; [by left|]. intros [?|Ha]; [done|]. by apply (Hclosed b y); [|apply above_refl|].
  - destruct (chain_live db p l Hc) as [Hpl _]. rewrite Hp, (get_block_live db Hok p Hpl), IH.
    + rewrite elem_of_app, list_elem_of_singleton, (above_cases db Hok y b p) by done. tauto.
    + rewrite length_app in Hlen. simpl in Hlen. lia.
    + intros x [Hx| ->%list_elem_of_singleton]%elem_of_app; auto.
    + intros x z [Hx| ->%list_elem_of_singleton]%elem_of_app Ha Hz; apply elem_of_app.
      * left. apply (Hclosed x z); [done| |done]. apply (above_cases db Hok x b p); auto.
      * exfalso. by apply (not_above_child db Hok b p).
Qed.

Lemma elem_chain_blocks ids b : b ∈ chain_blocks db ids ↔
  ∃ start, start ∈ live_blocks db ∧ b_id start ∈ ids ∧ above db b start.
Proof.
  unfold chain_blocks. rewrite merge_sort_Permutation.
  set (step := λ blocks start, walk_up (S (length (live_blocks db))) db (get_block db start) blocks).
  assert (G : ∀ ids acc, (∀ x, x ∈ acc → x ∈ live_blocks db) → (∀ x y, x ∈ acc → above db y x → y ∈ acc) →
    ∀ y, y ∈ foldl step acc ids ↔ y ∈ acc ∨ ∃ start, start ∈ live_blocks db ∧ b_id start ∈ ids ∧ above db y start).
  { clear ids b. induction ids as [|i ids IH]; intros acc Hlive Hcl y; simpl.
    { split; [by left|]. intros [?|(? & _ & H & _)]; [done|by apply not_elem_of_nil in H]. }
    destruct (get_block db i) as [b|] eqn:E.
    - apply get_block_Some in E as [Hb <-]. destruct (tree_rooted db Hok b Hb) as [l Hl].
      assert (Hw : ∀ y, y ∈ step acc (b_id b) ↔ y ∈ acc ∨ above db y b).
      { intros z. unfold step. rewrite (get_block_live db Hok b Hb).
        apply (walk_up_spec _ b l); [done| |done|naive_solver].
        pose proof (chain_length db Hok b l (live_blocks db) Hl (λ _ H, H)). lia. }
      rewrite IH.
      + rewrite Hw. setoid_rewrite elem_of_cons. split.
        * intros [[H|H]|(s & H1 & H2 & H3)]; [by left|right; eauto|right; eauto].
        * intros [H|(s & H1 & [H2|H2] & H3)]; [auto| |right; eauto].
          assert (s = b) as -> by by apply (live_id_inj db Hok). auto.
      + intros x [Hx|Hx]%Hw; [auto|]. by apply above_live in Hx as [].
      + intros x z [Hx|Hx]%Hw Hz; apply Hw; [left; eauto|right]. by eapply above_trans.
    - assert (Es : step acc i = acc) by (unfold step; by rewrite E). rewrite Es, IH by done.
      setoid_rewrite elem_of_cons. split; (intros [H|(s & H1 & H2 & H3)]; [by left|right]); [eauto|].
      destruct H2 as [<-|H2]; [|eauto]. by rewrite (get_block_live db Hok s H1) in E. }
  rewrite G; [|intros x Hx; by apply not_elem_of_nil in Hx|intros x ? Hx; by apply not_elem_of_nil in Hx].
  split; [intros [H|H]; [by apply not_elem_of_nil in H|done]|by right].
Qed.

Lemma update_blocks_utilization_refresh ids :
  _update_blocks_utilization db ids = update_blocks (refresh db (map b_id (chain_blocks db ids))) db.
Proof.
  unfold _update_blocks_utilization. apply recounts_refresh. intros b Hb.
  apply elem_chain_blocks in Hb as (s & _ & _ & H). by apply above_live in H as [].
Qed.
End recount.

(** Without any assumption on the tree a recount changes counters only. *)
Lemma block_recount_counts db ids : ∃ f, keeps f ∧ (∀ b, b_network (f b) = b_network b)
  ∧ _update_blocks_utilization db ids = update_blocks f db.
Proof.
  unfold _update_blocks_utilization. generalize (chain_blocks db ids). intros l. revert db.
  induction l as [|b l IH]; intros db; cbn [foldl].
  - exists id. split_and!; [by intros b|done|]. unfold update_blocks. rewrite List.map_id. by destruct db.
  - destruct (IH (_recount_block db b)) as (f & Hf & Hn & ->). unfold _recount_block.
    rewrite update_blocks_compose. eexists. split_and!; [| |reflexivity].
    + intros c. simpl. match goal with |- b_id (f ?x) = _ ∧ _ => destruct (Hf x) as (-> & -> & -> & ->) end.
      by case_bool_decide.
    + intros c. simpl. rewrite Hn. by case_bool_decide.
Qed.

Lemma utilization_rows db ids : ip_address (_update_blocks_utilization db ids) = ip_address db.
Proof. by destruct (block_recount_counts db ids) as (f & _ & _ & ->). Qed.

Lemma subnet_recounts_counts db ids : ∃ g, keeps_subnet g ∧ (∀ s, s_network (g s) = s_network s)
  ∧ foldl _update_utilization db ids = update_subnets g db.
Proof.
  revert db. induction ids as [|i ids IH]; intros db; cbn [foldl].
  - exists id. split_and!; [by intros s|done|]. unfold update_subnets. rewrite List.map_id. by destruct db.
  - destruct (IH (_update_utilization db i)) as (g & Hg & Hn & ->). unfold _update_utilization, update_subnets. simpl.
    rewrite List.map_map. eexists. split_and!; [| |reflexivity].
    + intros s. simpl. match goal with |- s_id (g ?x) = _ ∧ _ => destruct (Hg x) as (-> & -> & -> & ->) end.
      by destruct (_ && _).
    + intros s. simpl. rewrite Hn. by destruct (_ && _).
Qed.

(** Recounts one after the other are the recount in one pass. *)
Lemma subnet_recounts_exact db ids : foldl _update_utilization db ids = _update_subnets_utilization db ids false.
Proof.
  revert db. induction ids as [|i ids IH]; intros db; cbn [foldl].
  - unfold _update_subnets_utilization, update_subnets. destruct db as [bs ss rs]. simpl. f_equal. rewrite <- (List.map_id ss) at 1.
    apply map_ext. intros s. done.
  - rewrite IH. unfold _update_subnets_utilization, _update_utilization, update_subnets. simpl. f_equal. rewrite List.map_map.
    apply map_ext. intros s. change (count_of (mkDb _ _ (ip_address db))) with (count_of db). destruct (decide (s_id s = i)) as [E|E].
    + rewrite (bool_decide_true (s_id s = i)), (bool_decide_true (s_id s ∈ i :: ids)) by (done || (rewrite E; by left)). cbn [andb].
      destruct (s_deleted s) eqn:Ed; cbn [negb orb]; [by rewrite Ed, !andb_false_r|]. cbn [set_allocated s_id s_deleted]. rewrite Ed, E.
      by destruct (bool_decide (i ∈ ids)).
    + rewrite (bool_decide_false (s_id s = i)) by done. cbn [andb]. by rewrite (bool_decide_ext (s_id s ∈ i :: ids) (s_id s ∈ ids)) by (rewrite elem_of_cons; tauto).
Qed.

(** ** What the counters count *)

(** The addresses of a subnet no host can use. *)
Definition unusable (net : IPNetwork) : list IPAddr :=
  if bool_decide (ver net = V4) && (prefixlen net <? 31) then [network_address net; broadcast_address net]
  else if bool_decide (ver net = V6) && (prefixlen net <? 127) then [network_address net]
  else [].

(** The used addresses of a subnet: those a counting row holds, and the
    unusable ones. *)
Definition used (db : Db) (s : Subnet) : list IPAddr :=
  map i_address (counting db (s_id s))
  ++ List.filter (λ a, negb (_counting_row_at db s a)) (unusable (s_network s)).

(** The rows of a live subnet hold distinct addresses of it. *)
Definition addresses_ok (db : Db) : Prop := ∀ s, s ∈ live_subnets db →
  NoDup (map i_address (rows_of db (s_id s)))
  ∧ ∀ r, r ∈ rows_of db (s_id s) → mem (s_network s) (i_address r).

Lemma counting_row_at db s a :
  _counting_row_at db s a = true ↔ a ∈ map i_address (counting db (s_id s)).
Proof.
  unfold _counting_row_at. rewrite existsb_elem, list_elem_of_fmap.
  setoid_rewrite bool_decide_eq_true. naive_solver.
Qed.

Lemma elem_used db s a : a ∈ used db s ↔
  a ∈ map i_address (counting db (s_id s)) ∨ a ∈ unusable (s_network s).
Proof.
  unfold used. rewrite elem_of_app, elem_filter, negb_true_iff, <- not_true_iff_false, counting_row_at.
  destruct (decide (a ∈ map i_address (counting db (s_id s)))); tauto.
Qed.

Lemma contribution_used db s : s_allocated_ips s = count_of db (s_id s) →
  block_subnet_contribution db s = Z.of_nat (length (used db s)).
Proof.
  intros E. unfold block_subnet_contribution, used, unusable, unheld. rewrite length_app, length_fmap, Nat2Z.inj_add, E.
  f_equal. destruct (bool_decide (ver _ = V4) && _); [|destruct (bool_decide (ver _ = V6) && _); [|done]]; simpl.
  - by destruct (_counting_row_at db s (network_address (s_network s))),
      (_counting_row_at db s (broadcast_address (s_network s))).
  - by destruct (_counting_row_at db s (network_address (s_network s))).
Qed.

Lemma unusable_mem net a : wf net → a ∈ unusable net → mem net a.
Proof.
  intros Hw. unfold unusable. repeat case_match; rewrite ?elem_of_cons, ?elem_of_nil;
    intros H'; repeat destruct H' as [->|H']; auto with spatium; done.
Qed.

Lemma unusable_NoDup net : wf net → NoDup (unusable net).
Proof.
  intros Hw. unfold unusable. destruct (bool_decide (ver net = V4) && _) eqn:E.
  - apply NoDup_cons. split; [|apply NoDup_singleton]. intros [= Hb]%list_elem_of_singleton.
    apply andb_true_iff in E as [Ev%bool_decide_eq_true E%Z.ltb_lt].
    assert (2 ^ 1 ≤ num_addresses net); [|lia]. unfold num_addresses.
    apply Z.pow_le_mono_r; [lia|]. rewrite Ev. simpl. lia.
  - case_match; [apply NoDup_singleton|constructor].
Qed.

Section exact.
Context (db : Db) (Hok : tree_ok db) (Ha : addresses_ok db).

Lemma used_mem s a : s ∈ live_subnets db → a ∈ used db s → mem (s_network s) a.
Proof.
  intros Hs [H|H]%elem_used.
  - apply list_elem_of_fmap in H as (r & -> & Hr). apply elem_filter in Hr as [Hr _]. by apply Ha.
  - apply unusable_mem; [by apply (wf_live_subnet db Hok)|done].
Qed.

Lemma used_NoDup s : s ∈ live_subnets db → NoDup (used db s).
Proof.
  intros Hs. unfold used. apply NoDup_app. split_and!.
  - destruct (Ha s Hs) as [Hn _]. eapply sublist_NoDup; [exact Hn|]. apply (fmap_sublist i_address), filter_sublist.
  - intros a Hin [_ H]%elem_filter. apply counting_row_at in Hin. by rewrite Hin in H.
  - eapply sublist_NoDup; [|apply filter_sublist]. apply unusable_NoDup. by apply (wf_live_subnet db Hok).
Qed.

(** Distinct addresses of one network are at most as many as it has. *)
Lemma addresses_bound net (l : list IPAddr) : wf net → NoDup l → (∀ a, a ∈ l → mem net a) →
  Z.of_nat (length l) ≤ num_addresses net.
Proof.
  intros Hw Hn Hl. pose proof (size_pos net Hw).
  assert (Hs : map ip l ⊆+ seqZ (base net) (num_addresses net)).
  { apply NoDup_submseteq.
    - apply NoDup_fmap_2_strong; [|done]. intros [v x] [w y] [Hv _]%Hl [Hv' _]%Hl E. simpl in *. congruence.
    - intros x (a & -> & Hin)%list_elem_of_fmap. apply elem_of_seqZ. by destruct (Hl a Hin). }
  apply submseteq_length in Hs. rewrite length_fmap, length_seqZ in Hs. lia.
Qed.

(** The live subnets below a block. *)
Definition subnets_below (b : IPBlock) : list Subnet :=
  List.filter (λ s, bool_decide (s_block s ∈ live_descendants db (b_id b))) (live_subnets db).

Lemma elem_subnets_below b s : b ∈ live_blocks db → s ∈ subnets_below b ↔
  s ∈ live_subnets db ∧ ∃ c, s_block s = b_id c ∧ above db b c.
Proof.
  intros Hb. unfold subnets_below, live_descendants. rewrite elem_filter, bool_decide_eq_true.
  assert (Hd : ∀ c, c ∈ live_blocks db → b_id c ∈ descend (S (length (live_blocks db))) (live_blocks db)
              (self_ids (live_blocks db) (b_id b)) ↔ above db b c).
  { intros c Hc. apply (descend_above db Hok); [done| |done|done]. by intros x [Hx _]%elem_live_blocks. }
  split; intros [Hs H]; (split; [done|]).
  - destruct (tree_subnet_in db Hok s Hs) as (c & Hc & E & _). exists c. split; [done|].
    rewrite E in H. by apply Hd.
  - destruct H as (c & -> & H). apply Hd; [|done]. by apply above_live in H as [].
Qed.

Lemma used_join_NoDup (ss : list Subnet) : NoDup ss → (∀ s, s ∈ ss → s ∈ live_subnets db) →
  (∀ s t, s ∈ ss → t ∈ ss → s_space s = s_space t) → NoDup (mjoin (map (used db) ss)).
Proof.
  induction ss as [|s ss IH]; intros Hn Hl Hsp; simpl; [constructor|].
  apply NoDup_cons in Hn as [Hs Hn]. apply NoDup_app. split_and!.
  - apply used_NoDup, Hl. left.
  - intros a H1 (l & H2 & Hin)%list_elem_of_join. apply list_elem_of_fmap in Hin as (t & -> & Ht).
    apply Hs. assert (s = t) as ->; [|done]. apply (tree_subnets db Hok).
    + apply Hl. left.
    + apply Hl. by right.
    + apply Hsp; [left|by right].
    + exists a. split; apply used_mem; try done; apply Hl; [left|by right].
  - apply IH; [done| |].
    + intros t Ht. apply Hl. by right.
    + intros t t' Ht Ht'. apply Hsp; by right.
Qed.

Lemma sum_lengths {A} (f : Subnet → list A) ss :
  sum (map (λ s, Z.of_nat (length (f s))) ss) = Z.of_nat (length (mjoin (map f ss))).
Proof. induction ss as [|s ss IH]; [done|]. cbn [map sum foldr]. simpl. rewrite length_app. unfold sum in IH. lia. Qed.

Lemma live_subnets_NoDup : NoDup (live_subnets db).
Proof.
  destruct (tree_rows db Hok) as (_ & _ & _ & Hn). apply (NoDup_fmap_1 s_id).
  eapply sublist_NoDup; [exact Hn|]. apply (fmap_sublist s_id), filter_sublist.
Qed.

Lemma subnet_below_inside b s : b ∈ live_blocks db → s ∈ subnets_below b →
  s_space s = b_space b ∧ inside (s_network s) (b_network b).
Proof.
  intros Hb [Hs (c & E & Hc)]%elem_subnets_below; [|done].
  destruct (tree_subnet_in db Hok s Hs) as (d & Hd & E' & Esp & Hi).
  destruct (above_live db b c Hc) as [_ Hlc].
  assert (d = c) as -> by (apply (live_id_inj db Hok); congruence).
  destruct (above_inside db Hok b c Hc) as [H1 H2]. split; [congruence|by etrans].
Qed.
End exact.

(** Every cached counter is what a recount would write. *)
Definition fresh (db : Db) : Prop :=
  (∀ s, s ∈ live_subnets db → s_allocated_ips s = count_of db (s_id s))
  ∧ ∀ b, b ∈ live_blocks db → b_allocated_ips b = block_allocated (rollup db (b_id b)) (b_network b).

Lemma rollup_used db b : tree_ok db → addresses_ok db → b ∈ live_blocks db →
  (∀ s, s ∈ live_subnets db → s_allocated_ips s = count_of db (s_id s)) →
  let l := mjoin (map (used db) (subnets_below db b)) in
  NoDup l ∧ rollup db (b_id b) = Z.of_nat (length l) ∧ Z.of_nat (length l) ≤ num_addresses (b_network b).
Proof.
  intros Hok Ha Hb Hf. cbv zeta.
  assert (Hl : ∀ s, s ∈ subnets_below db b → s ∈ live_subnets db).
  { intros s Hs. by apply elem_filter in Hs as []. }
  assert (Hn : NoDup (mjoin (map (used db) (subnets_below db b)))).
  { apply (used_join_NoDup db Hok Ha).
    - eapply sublist_NoDup; [apply (live_subnets_NoDup db Hok)|apply filter_sublist].
    - done.
    - intros s t Hs Ht. apply (subnet_below_inside db Hok) in Hs as [-> _], Ht as [-> _]; done. }
  split_and!; [done| |].
  - unfold rollup. rewrite <- sum_lengths. f_equal. apply map_ext_in. intros s Hs%list_elem_of_In.
    apply contribution_used, Hf, Hl, Hs.
  - apply (addresses_bound); [by apply (wf_live_block db Hok)|done|].
    intros a (l & Hal & (s & -> & Hs)%list_elem_of_fmap)%list_elem_of_join.
    apply (subnet_below_inside db Hok b s Hb Hs), (used_mem db Hok Ha); auto.
Qed.

Lemma subnet_counts_keep (db : Db) (ids : list str) (incl : bool) :
  let g := λ s, if bool_decide (s_id s ∈ ids) && (incl || negb (s_deleted s))
                then set_allocated s (count_of db (s_id s)) else s in
  keeps_subnet g ∧ ∀ s, s_network (g s) = s_network s.
Proof. split; intros s; [|by case_match]. unfold set_allocated. by case_match. Qed.

Lemma live_descendants_subnets g db id : live_descendants (update_subnets g db) id = live_descendants db id.
Proof. done. Qed.

Section refresh.
Context (db : Db) (rows : list IPAddress) (ids : list str).
Context (Hok : tree_ok db) (Hfresh : fresh db).
Context (Hrows : ∀ s, s ∈ live_subnets db → s_id s ∉ ids →
  rows_of (set_addresses db rows) (s_id s) = rows_of db (s_id s)).
Let db0 := set_addresses db rows.
Let g := λ s, if bool_decide (s_id s ∈ ids) && (false || negb (s_deleted s))
              then set_allocated s (count_of db0 (s_id s)) else s.
Let db1 := update_subnets g db0.

Lemma g_fields s : s_id (g s) = s_id s ∧ s_block (g s) = s_block s ∧ s_deleted (g s) = s_deleted s.
Proof. destruct (proj1 (subnet_counts_keep db0 ids false) s) as (E1 & _ & E2 & E3). by split_and!. Qed.

Lemma recounted_tree : tree_ok db1.
Proof. apply tree_update_subnets; [apply subnet_counts_keep..|]. by apply tree_addresses. Qed.

Lemma recounted_subnet s : s ∈ live_subnets db → s_allocated_ips (g s) = count_of db1 (s_id s).
Proof.
  intros Hs. unfold g. apply elem_live_subnets in Hs as Hd. destruct Hd as [_ Hd]. rewrite Hd. simpl.
  rewrite andb_true_r. case_bool_decide as Hi; [done|]. destruct Hfresh as [Hf _]. rewrite (Hf s Hs).
  unfold count_of, counting. by rewrite <- (Hrows s Hs Hi).
Qed.

Lemma live_subnets_recounted : live_subnets db1 = map g (live_subnets db).
Proof. unfold db1. rewrite live_update_subnets by apply subnet_counts_keep. done. Qed.

(** A block above none of the recounted subnets has the same rollup. *)
Lemma rollup_other b : b ∈ live_blocks db →
  (∀ s, s ∈ subnets_below db b → s_id s ∉ ids) → rollup db1 (b_id b) = rollup db (b_id b).
Proof.
  intros Hb Hn. unfold rollup. rewrite live_subnets_recounted, filter_map.
  assert (E : List.filter (λ s, bool_decide (s_block (g s) ∈ live_descendants db1 (b_id b))) (live_subnets db)
              = subnets_below db b).
  { apply filter_ext_eq. intros s. by destruct (g_fields s) as (_ & -> & _). }
  rewrite E, List.map_map. f_equal. apply map_ext_in. intros s Hs%list_elem_of_In.
  assert (Eg : g s = s) by (unfold g; rewrite bool_decide_false by auto; done). rewrite Eg.
  apply elem_filter in Hs as Hl. destruct Hl as [Hl _].
  assert (Ec : counting db1 (s_id s) = counting db (s_id s)).
  { unfold counting. by rewrite <- (Hrows s Hl (Hn s Hs)). }
  unfold block_subnet_contribution, unheld, _counting_row_at. by rewrite Ec.
Qed.

Lemma recount_fresh : fresh (_update_blocks_utilization db1
  (map s_block (List.filter (λ s, bool_decide (s_id s ∈ ids))
    (List.filter (λ s, false || negb (s_deleted s)) (subnet db1))))).
Proof.
  pose proof recounted_tree as Hok1. rewrite update_blocks_utilization_refresh by done.
  set (S := map b_id (chain_blocks db1 _)). destruct (refresh_keeps db1 S) as [Hk Hnet]. split.
  - intros s' Hs'. change (live_subnets _) with (live_subnets db1) in Hs'.
    rewrite live_subnets_recounted in Hs'. apply list_elem_of_fmap in Hs' as (s & -> & Hs).
    rewrite recounted_subnet by done. by destruct (g_fields s) as (-> & _).
  - intros b' Hb'. rewrite live_update_blocks in Hb' by done.
    apply list_elem_of_fmap in Hb' as (b & -> & Hb). rewrite rollup_update by done.
    destruct (Hk b) as (E & _). rewrite E, Hnet. unfold refresh. case_bool_decide as HS; [done|].
    change (live_blocks db1) with (live_blocks db) in Hb. destruct Hfresh as [_ Hf]. rewrite (Hf b Hb).
    f_equal. symmetry. apply rollup_other; [done|]. intros s Hs Hi. apply HS.
    apply (elem_subnets_below db Hok) in Hs as [Hs (c & Ec & Hc)]; [|done].
    apply list_elem_of_fmap. exists b. split; [done|]. apply (elem_chain_blocks db1 Hok1).
    destruct (above_live db b c Hc) as [_ Hlc]. exists c. split_and!; [done| |].
    + rewrite <- Ec. apply list_elem_of_fmap. exists (g s).
      destruct (g_fields s) as (E1 & E2 & E3). split; [done|]. apply elem_filter. split.
      * apply elem_live_subnets in Hs as [Hs Hd]. apply elem_filter. rewrite E3, Hd. split; [|done].
        simpl. by apply list_elem_of_fmap_2.
      * rewrite E1. by apply bool_decide_eq_true.
    + destruct Hc as (l & Hl & Hin). exists l. split; [|done]. apply chain_subnets.
      clear -Hl. induction Hl; [by apply chain_top|by eapply chain_step].
Qed.
End refresh.

(** A /24 block with a /26 subnet: its two placeholders and one host. *)
Definition sample_net : IPNetwork := mkNet V4 (167772160 + 128) 26.
Definition sample_row (a : Z) (status : str) : IPAddress :=
  mkIPAddress "s" (mkAddr V4 (167772160 + a)) status None [] None None.
Definition sample_rows : list IPAddress :=
  [sample_row 128 "network"; sample_row 191 "broadcast"; sample_row 130 "allocated"].
Definition sample_db : Db :=
  mkDb [mkBlock "b" "sp" None (mkNet V4 167772160 24) 3 256 false]
       [mkSubnet "s" "sp" "b" sample_net "unicast" None 62 1 false] sample_rows.

Lemma sample_db_tree : tree_ok sample_db.
Proof. apply tree_okb_sound. vm_compute. reflexivity. Qed.

Lemma sample_db_fresh : fresh sample_db.
Proof.
  split; [intros s Hs|intros b Hb].
  - assert (E : live_subnets sample_db = subnet sample_db) by reflexivity. rewrite E in Hs.
    apply list_elem_of_singleton in Hs as ->. vm_compute. reflexivity.
  - assert (E : live_blocks sample_db = ip_block sample_db) by reflexivity. rewrite E in Hb.
    apply list_elem_of_singleton in Hb as ->. vm_compute. reflexivity.
Qed.

Lemma sample_db_addresses : addresses_ok sample_db.
Proof.
  intros s Hs. assert (E : live_subnets sample_db = subnet sample_db) by reflexivity. rewrite E in Hs.
  apply list_elem_of_singleton in Hs as ->. assert (Er : rows_of sample_db "s" = sample_rows) by reflexivity.
  change (s_id _) with ("s" : str). rewrite Er. split.
  - apply (bool_decide_unpack _). vm_compute. exact I.
  - intros r Hr. apply contains_mem; [apply (bool_decide_unpack _); vm_compute; exact I|].
    repeat (apply elem_of_cons in Hr as [->|Hr]); [reflexivity..|by apply not_elem_of_nil in Hr].
Qed.

(** ** Claims *)

(** C31 -- what a block's counter counts: when the subnets' own counters are
    fresh, the recount of a live block of a well-formed tree stores the number
    of distinct addresses in use below it (those a counting row of a live
    subnet holds, and every network / broadcast address no host can use), and
    that is never more than the block has. *)
Theorem block_counter_exact (db : Db) (b : IPBlock) :
  tree_ok db → addresses_ok db → b ∈ live_blocks db →
  (∀ s, s ∈ live_subnets db → s_allocated_ips s = count_of db (s_id s)) →
  ∃ l : list IPAddr, NoDup l
    ∧ (∀ a, a ∈ l ↔ ∃ s c, s ∈ live_subnets db ∧ s_block s = b_id c ∧ above db b c
         ∧ ((∃ r, r ∈ rows_of db (s_id s) ∧ counts_toward_utilization r = true ∧ i_address r = a)
            ∨ a ∈ unusable (s_network s)))
    ∧ Z.of_nat (length l) ≤ num_addresses (b_network b)
    ∧ ∀ b', b' ∈ live_blocks (_recount_block db b) → b_id b' = b_id b →
        b_allocated_ips b' = Z.of_nat (length l).
Proof.
  intros Hok Ha Hb Hf. destruct (rollup_used db b Hok Ha Hb Hf) as (Hn & Hr & Hle).
  exists (mjoin (map (used db) (subnets_below db b))). split_and!; [done| |done|].
  - intros a. split.
    + intros (l & Hal & (s & -> & Hs)%list_elem_of_fmap)%list_elem_of_join.
      apply (elem_subnets_below db Hok) in Hs as [Hs (c & Ec & Hc)]; [|done]. exists s, c. split_and!; try done.
      apply elem_used in Hal as [Hal|Hal]; [left|by right].
      apply list_elem_of_fmap in Hal as (r & -> & [Hr1 Hr2]%elem_filter). eauto.
    + intros (s & c & Hs & Ec & Hc & H). apply list_elem_of_join. exists (used db s). split.
      * apply elem_used. destruct H as [(r & H1 & H2 & <-)|H]; [left|by right].
        apply list_elem_of_fmap. exists r. split; [done|]. by apply elem_filter.
      * apply list_elem_of_fmap. exists s. split; [done|]. apply (elem_subnets_below db Hok); eauto.
  - intros b' Hb' E. unfold _recount_block in Hb'.
    rewrite live_update_blocks in Hb' by apply (set_counts_keeps (λ x, bool_decide (b_id x = b_id b))).
    apply list_elem_of_fmap in Hb' as (x & -> & Hx). case_bool_decide as Ex; simpl in *; [|done].
    rewrite Hr. unfold block_allocated. lia.
Qed.

Lemma block_counter_exact_witness :
  ∃ l : list IPAddr, NoDup l ∧ Z.of_nat (length l) ≤ 256
    ∧ ∀ b', b' ∈ live_blocks (_recount_block sample_db (mkBlock "b" "sp" None (mkNet V4 167772160 24) 3 256 false)) →
        b_id b' = "b" → b_allocated_ips b' = Z.of_nat (length l).
Proof.
  destruct (block_counter_exact sample_db (mkBlock "b" "sp" None (mkNet V4 167772160 24) 3 256 false)
    sample_db_tree sample_db_addresses) as (l & H1 & _ & H2 & H3).
  - apply (bool_decide_unpack _). vm_compute. exact I.
  - apply sample_db_fresh.
  - exists l. split; [exact H1|]. split; [exact H2|exact H3].
Defined.

(** A recount keeps the cache true: if every cached counter was fresh and
    only address rows of the given subnets changed, then after recounting those
    subnets every counter of the database is fresh again, on every block above
    them and everywhere else. *)
Theorem recount_keeps_fresh (db : Db) (rows : list IPAddress) (ids : list str) :
  tree_ok db → fresh db →
  (∀ s, s ∈ live_subnets db → s_id s ∉ ids →
     rows_of (set_addresses db rows) (s_id s) = rows_of db (s_id s)) →
  fresh (recount_subnets_and_blocks (set_addresses db rows) ids false).
Proof.
  intros Hok Hf Hr. destruct ids as [|i ids].
  - (* nothing recounted, nothing changed *)
    pose proof (recount_fresh db rows [] Hok Hf Hr) as H. unfold recount_subnets_and_blocks.
    rewrite (filter_none (λ s, bool_decide (s_id s ∈ []))) in H by done.
    simpl in H. unfold _update_blocks_utilization in H. simpl in H.
    unfold update_subnets in H. rewrite (map_ext _ id), map_id in H; done.
  - by apply (recount_fresh db rows (i :: ids)).
Qed.

Lemma recount_keeps_fresh_witness :
  fresh (recount_subnets_and_blocks (set_addresses sample_db (sample_row 131 "dhcp" :: sample_rows)) ["s"] false).
Proof.
  apply (recount_keeps_fresh sample_db _ ["s"] sample_db_tree sample_db_fresh).
  intros s Hs. assert (E : live_subnets sample_db = subnet sample_db) by reflexivity. rewrite E in Hs.
  apply list_elem_of_singleton in Hs as ->. intros H. destruct H. left.
Defined.
End Utilization.
