(* ===== verification/Resize.v ===== *)
(** * Growing a subnet or a block

    [backend/app/services/ipam/resize.py]: the grow-only change of a CIDR, its
    conflict scans and its two entry points, preview and commit.  A commit is a
    function from the database to a refusal or to the new database with the
    calls it makes outside it; the advisory lock is the argument [locked].  A
    text of a refusal is a value of [ResizeError].  The affected-resource
    counts and warning texts of the previews are not modelled. *)
From S2P Require Import Prelude PyStr IpNet Ipam SubnetBoundary Utilization.

Module Resize.
Import Ipam SubnetBoundary Utilization.
Local Open Scope Z_scope.

(** A row of the space the new CIDR runs into. *)
Inductive overlap := WithSubnet (net : IPNetwork) (id : str) | WithBlock (net : IPNetwork) (id : str).

Inductive ResizeError :=
| InProgress
| InvalidCidr
| FamilyChange
| NotGrowing (current : Z)
| NotContaining
| NoUsableHost (prefix_length : Z)
| GatewayTargetInUse (a : IPAddr)
| Overlaps (os : list overlap)
| ParentTooSmall (parent : IPNetwork)
| HostsOnBoundary (hs : list host_conflict)
| ChildOutside (child : IPNetwork)
| MixedFamilies.  (* the [TypeError] of [subnet_of] *)

Definition status_code (e : ResizeError) : Z :=
  match e with
  | InProgress => 423
  | GatewayTargetInUse _ | Overlaps _ | HostsOnBoundary _ => 409
  | MixedFamilies => 500
  | _ => 422
  end.

#[export] Instance overlap_eq_dec : EqDecision overlap.
Proof. solve_decision. Defined.

Definition _parse_cidr (t : cidr_text) : result ResizeError IPNetwork :=
  match ip_network t with Some n => Ok n | None => Err InvalidCidr end.

(** The exact size of a preview; the stored one is [_total_ips]. *)
Definition _display_total_ips (net : IPNetwork) : Z :=
  if bool_decide (ver net = V6) then num_addresses net else _total_ips net.

Definition _broadcast_or_none (net : IPNetwork) : option IPAddr :=
  if bool_decide (ver net = V4) && (prefixlen net <=? 30) then Some (broadcast_address net) else None.

Definition _first_usable (net : IPNetwork) : option IPAddr :=
  if bool_decide (ver net = V4) then
    if 31 <=? prefixlen net then None else Some (mkAddr (ver net) (base net + 1))
  else if 127 <=? prefixlen net then None else Some (mkAddr (ver net) (base net + 1)).

(** [a.subnet_of(b)] where the code does not expect two families. *)
Definition within (a b : IPNetwork) : result ResizeError bool :=
  match subnet_of a b with Some x => Ok x | None => Err MixedFamilies end.

Definition _validate_grow (old_net new_net : IPNetwork) : result ResizeError unit :=
  if bool_decide (ver old_net ≠ ver new_net) then Err FamilyChange
  else if prefixlen old_net <=? prefixlen new_net then Err (NotGrowing (prefixlen old_net))
  else
    inside ← within old_net new_net;
    raise_if (negb inside) NotContaining.

(** ** Scans of the space: [network && :network AND deleted_at IS NULL] *)
Definition _overlap_conflicts_space_subnets (db : Db) (space : str) (new_net : IPNetwork)
    (exclude : str) (old_net : IPNetwork) : list overlap :=
  map (λ s, WithSubnet (s_network s) (s_id s))
    (List.filter (λ s, negb (bool_decide (s_network s = old_net)))
      (List.filter (λ s, bool_decide (s_space s = space) && overlaps (s_network s) new_net
                         && negb (s_deleted s) && negb (bool_decide (s_id s = exclude))) (subnet db))).

(** The walk to the root, capped at 64 steps; it reads trashed blocks too. *)
Fixpoint ancestor_walk (steps : nat) (db : Db) (current : option str) (ancestors : list str) : list str :=
  match steps, current with
  | S steps', Some c =>
      if bool_decide (c ∈ ancestors) then ancestors
      else ancestor_walk steps' db
             (match List.find (λ b, bool_decide (b_id b = c)) (ip_block db) with
              | Some b => b_parent b
              | None => None
              end) (ancestors ++ [c])
  | _, _ => ancestors
  end.

Definition _ancestor_block_ids_for_subnet (db : Db) (s : Subnet) : list str :=
  ancestor_walk 64 db (Some (s_block s)) [].

Definition overlapping_blocks (db : Db) (space : str) (new_net : IPNetwork) (exclude : list str) : list overlap :=
  map (λ b, WithBlock (b_network b) (b_id b))
    (List.filter (λ b, bool_decide (b_space b = space) && overlaps (b_network b) new_net
                       && negb (b_deleted b) && negb (bool_decide (b_id b ∈ exclude))) (ip_block db)).

Definition _overlap_conflicts_space_blocks_for_subnet (db : Db) (space : str) (new_net : IPNetwork)
    (exclude_block_ids : list str) : list overlap :=
  overlapping_blocks db space new_net exclude_block_ids.

(** The two recursive sub-queries: all rows below, and every id above. *)
Definition descendants_all (db : Db) (id : str) : list str :=
  descend (S (length (ip_block db))) (ip_block db) (self_ids (ip_block db) id).

(** [ancestors]: level by level upwards, NULL parents dropped; [UNION] drops
    repetitions, so the recursion stops. *)
Definition parents_of (db : Db) (ids : list str) : list str :=
  omap b_parent (List.filter (λ b, bool_decide (b_id b ∈ ids)) (ip_block db)).

Fixpoint ascend (fuel : nat) (db : Db) (frontier found : list str) : list str :=
  match fuel with
  | O => found
  | S fuel' =>
      match List.filter (λ i, negb (bool_decide (i ∈ found))) (parents_of db frontier) with
      | [] => found
      | new => ascend fuel' db new (found ++ new)
      end
  end.

Definition ancestors_all (db : Db) (id : str) : list str :=
  ascend (S (length (ip_block db))) db [id] [].

Definition _overlap_conflicts_space_blocks (db : Db) (space : str) (new_net : IPNetwork)
    (exclude_block_id : str) : list overlap :=
  overlapping_blocks db space new_net
    (descendants_all db exclude_block_id ++ ancestors_all db exclude_block_id).

Definition _overlap_conflicts_space_subnets_for_block (db : Db) (space : str) (new_net : IPNetwork)
    (block_id : str) : list overlap :=
  map (λ s, WithSubnet (s_network s) (s_id s))
    (List.filter (λ s, bool_decide (s_space s = space) && overlaps (s_network s) new_net
                       && negb (s_deleted s)
                       && negb (bool_decide (s_block s ∈ descendants_all db block_id))) (subnet db)).

(** The parent that cannot hold the new CIDR, if any. *)
Definition containment (db : Db) (parent : option str) (new_net : IPNetwork)
    : result ResizeError (option IPNetwork) :=
  match parent with
  | None => Ok None
  | Some p =>
      match get_block db p with
      | None => Ok None
      | Some b =>
          fits ← within new_net (b_network b);
          Ok (if (fits : bool) then None else Some (b_network b))
      end
  end.

Definition _parent_containment_conflicts_subnet (db : Db) (s : Subnet) (new_net : IPNetwork)
    : result ResizeError (option IPNetwork) :=
  containment db (Some (s_block s)) new_net.

Definition _parent_containment_conflicts_block (db : Db) (b : IPBlock) (new_net : IPNetwork)
    : result ResizeError (option IPNetwork) :=
  containment db (b_parent b) new_net.

(** ** Placeholder rows *)
Definition default_named (r : IPAddress) : bool :=
  let is_user_named := match i_hostname r with
                       | None => false
                       | Some h => negb (bool_decide (h = [])) && negb (is_placeholder h)
                       end in
  let has_custom_desc := negb (bool_decide (i_description r = []
    ∨ i_description r = "Network address" ∨ i_description r = "Broadcast address")) in
  negb (is_user_named || has_custom_desc || negb (bool_decide (i_dns_record r = None))).

Definition old_boundary (old_net : IPNetwork) : list IPAddr :=
  network_address old_net :: match _broadcast_or_none old_net with Some a => [a] | None => [] end.

(** [(default_named, renamed)] *)
Definition _load_boundary_placeholders (db : Db) (sid : str) (old_net : IPNetwork)
    : list IPAddress * list IPAddress :=
  let rows := List.filter (λ r, is_placeholder (i_status r)) (rows_of db sid) in
  let default r := bool_decide (i_address r ∈ old_boundary old_net) && default_named r in
  (List.filter default rows, List.filter (λ r, negb (default r)) rows).

Definition _gateway_target_in_use (db : Db) (s : Subnet) (target : IPAddr) (old_gateway : option IPAddr) : bool :=
  if bool_decide (old_gateway = Some target) then false
  else existsb (λ r, bool_decide (i_address r = target)) (rows_of db (s_id s)).

(** ** Previews: the conflicts *)
Inductive conflict :=
| Validation (e : ResizeError)
| Overlap (o : overlap)
| TooSmall (parent : IPNetwork)
| HostOnNewBoundary (h : host_conflict)
| GatewayMoveImpossible (prefix_length : Z)
| GatewayMoveTargetInUse (a : IPAddr)
| ChildOutsideNewCidr (child : IPNetwork).

Definition host_conflicts (db : Db) (s : Subnet) (new_net : IPNetwork) : list host_conflict :=
  boundary_host_conflicts (rows_of db (s_id s)) [new_net] (s_kind s)
    (boundary_addresses (s_network s) (s_kind s)).

Definition too_small (p : option IPNetwork) : list conflict :=
  match p with Some n => [TooSmall n] | None => [] end.

Definition gateway_conflicts (db : Db) (s : Subnet) (new_net : IPNetwork) (move : bool) : list conflict :=
  if move then
    match _first_usable new_net with
    | None => [GatewayMoveImpossible (prefixlen new_net)]
    | Some fu => if _gateway_target_in_use db s fu (s_gateway s) then [GatewayMoveTargetInUse fu] else []
    end
  else [].

Definition preview_subnet_conflicts (db : Db) (s : Subnet) (t : cidr_text) (move : bool)
    : result ResizeError (list conflict) :=
  let old_net := s_network s in
  match _parse_cidr t with
  | Err e => Ok [Validation e]
  | Ok new_net =>
      scans ← (match _validate_grow old_net new_net with
               | Err e => Ok [Validation e]
               | Ok _ =>
                   parent ← _parent_containment_conflicts_subnet db s new_net;
                   Ok (map Overlap (_overlap_conflicts_space_subnets db (s_space s) new_net (s_id s) old_net)
                       ++ map Overlap (_overlap_conflicts_space_blocks_for_subnet db (s_space s) new_net
                                         (_ancestor_block_ids_for_subnet db s))
                       ++ too_small parent ++ map HostOnNewBoundary (host_conflicts db s new_net))
               end : result ResizeError (list conflict));
      Ok (scans ++ gateway_conflicts db s new_net move)
  end.

Definition descendant_networks (db : Db) (id : str) : list IPNetwork :=
  map b_network (List.filter (λ b, bool_decide (b_id b ∈ live_descendants db id)
                                   && negb (bool_decide (b_id b = id))) (live_blocks db))
  ++ map s_network (List.filter (λ s, bool_decide (s_block s ∈ live_descendants db id)) (live_subnets db)).

Definition preview_block_conflicts (db : Db) (b : IPBlock) (t : cidr_text)
    : result ResizeError (list conflict) :=
  let old_net := b_network b in
  match _parse_cidr t with
  | Err e => Ok [Validation e]
  | Ok new_net =>
      scans ← (match _validate_grow old_net new_net with
               | Err e => Ok [Validation e]
               | Ok _ =>
                   parent ← _parent_containment_conflicts_block db b new_net;
                   Ok (too_small parent
                       ++ map Overlap (_overlap_conflicts_space_blocks db (b_space b) new_net (b_id b))
                       ++ map Overlap (_overlap_conflicts_space_subnets_for_block db (b_space b) new_net (b_id b)))
               end : result ResizeError (list conflict));
      children ← map_result (λ cn, fits ← within cn new_net;
                                   Ok (if (fits : bool) then [] else [ChildOutsideNewCidr cn]))
                            (descendant_networks db (b_id b));
      Ok (scans ++ mjoin children)
  end.

(** ** Commits *)

(** The calls a commit makes outside the tables modelled here. *)
Inductive effect :=
| EnsureReverseZones (subnet_id : str)
| SyncDnsRecord (row : IPAddress)
| BumpDhcpBundles (subnet_id : str).

Record SubnetResizeResult := mkResized {
  r_db : Db;
  old_cidr : IPNetwork;
  new_cidr : IPNetwork;
  placeholders_deleted : nat;
  placeholders_created : nat;
  effects : list effect;
}.

Definition resize_subnet_row (id : str) (new_net : IPNetwork) (gateway : option IPAddr) (s : Subnet) : Subnet :=
  if bool_decide (s_id s = id)
  then mkSubnet (s_id s) (s_space s) (s_block s) new_net (s_kind s) gateway (_total_ips new_net)
         (s_allocated_ips s) (s_deleted s)
  else s.

Definition default_gateway_row (r : IPAddress) : bool :=
  bool_decide (i_status r = "reserved") && bool_decide (i_hostname r = Some ("gateway" : str))
  && bool_decide (i_description r = "Gateway") && bool_decide (i_dns_record r = None).

Definition delete_rows (db : Db) (p : IPAddress → bool) : Db :=
  set_addresses db (List.filter (λ r, negb (p r)) (ip_address db)).

Definition is_row_at (sid : str) (a : IPAddr) (r : IPAddress) : bool :=
  bool_decide (i_subnet r = sid) && bool_decide (i_address r = a).

(** The new gateway's row, when the gateway moved; the old default one goes. *)
Definition move_gateway_row (db : Db) (s : Subnet) (gateway : option IPAddr) (move replace : bool)
    (user : option str) : Db * option IPAddress :=
  match gateway with
  | Some gw =>
      if move && negb (bool_decide (gateway = s_gateway s)) then
        let db1 := match s_gateway s with
                   | Some old => if replace
                                 then delete_rows db (λ r, is_row_at (s_id s) old r && default_gateway_row r)
                                 else db
                   | None => db
                   end in
        let row := new_row (s_id s) gw "reserved" (Some ("gateway" : str)) "Gateway" user in
        (set_addresses db1 (ip_address db1 ++ [row]), Some row)
      else (db, None)
  | None => (db, None)
  end.

(** The writes of a commit whose checks passed. *)
Definition apply_subnet_resize (db : Db) (s : Subnet) (new_net : IPNetwork) (move replace : bool)
    (user : option str) : SubnetResizeResult :=
  let '(defaults, _) := _load_boundary_placeholders db (s_id s) (s_network s) in
  let deleted := if replace then defaults else [] in
  let db1 := delete_rows db (λ r, bool_decide (r ∈ deleted)) in
  let gateway := if move then match _first_usable new_net with Some fu => Some fu | None => s_gateway s end
                 else s_gateway s in
  let db2 := update_subnets (resize_subnet_row (s_id s) new_net gateway) db1 in
  let '(db3, created) := if replace then ensure_boundary_rows db2 (s_id s) new_net user (s_kind s)
                         else (db2, 0%nat) in
  let '(db4, gateway_row) := move_gateway_row db3 s gateway move replace user in
  let db5 := _update_block_utilization (_update_utilization db4 (s_id s)) (s_block s) in
  mkResized db5 (s_network s) new_net (length deleted) created
    (EnsureReverseZones (s_id s)
       :: match gateway_row with Some r => [SyncDnsRecord r] | None => [] end
       ++ [BumpDhcpBundles (s_id s)]).

Definition refuse {A} (l : list A) (e : ResizeError) : result ResizeError unit :=
  match l with [] => Ok tt | _ => Err e end.

(** The checks of a commit, in the order it makes them. *)
Definition check_subnet_resize (db : Db) (locked : bool) (s : Subnet) (t : cidr_text) (move : bool)
    : result ResizeError IPNetwork :=
  _ ← raise_if (negb locked) InProgress;
  let old_net := s_network s in
  new_net ← _parse_cidr t;
  _ ← _validate_grow old_net new_net;
  _ ← (if (move : bool) then
         match _first_usable new_net with
         | None => Err (NoUsableHost (prefixlen new_net))
         | Some fu => raise_if (_gateway_target_in_use db s fu (s_gateway s)) (GatewayTargetInUse fu)
         end
       else Ok tt);
  let overlap := _overlap_conflicts_space_subnets db (s_space s) new_net (s_id s) old_net in
  _ ← refuse overlap (Overlaps overlap);
  let block_overlap := _overlap_conflicts_space_blocks_for_subnet db (s_space s) new_net
                         (_ancestor_block_ids_for_subnet db s) in
  _ ← refuse block_overlap (Overlaps block_overlap);
  parent ← _parent_containment_conflicts_subnet db s new_net;
  _ ← (match parent with Some p => Err (ParentTooSmall p) | None => Ok tt end);
  let hosts := host_conflicts db s new_net in
  _ ← refuse hosts (HostsOnBoundary hosts);
  Ok new_net.

Definition commit_subnet_resize (db : Db) (locked : bool) (s : Subnet) (t : cidr_text)
    (move replace : bool) (user : option str) : result ResizeError SubnetResizeResult :=
  new_net ← check_subnet_resize db locked s t move;
  Ok (apply_subnet_resize db s new_net move replace user).

Definition check_block_resize (db : Db) (locked : bool) (b : IPBlock) (t : cidr_text)
    : result ResizeError IPNetwork :=
  _ ← raise_if (negb locked) InProgress;
  let old_net := b_network b in
  new_net ← _parse_cidr t;
  _ ← _validate_grow old_net new_net;
  parent ← _parent_containment_conflicts_block db b new_net;
  _ ← (match parent with Some p => Err (ParentTooSmall p) | None => Ok tt end);
  let block_overlap := _overlap_conflicts_space_blocks db (b_space b) new_net (b_id b) in
  _ ← refuse block_overlap (Overlaps block_overlap);
  let subnet_overlap := _overlap_conflicts_space_subnets_for_block db (b_space b) new_net (b_id b) in
  _ ← refuse subnet_overlap (Overlaps subnet_overlap);
  _ ← map_result (λ cn, fits ← within cn new_net; raise_if (negb fits) (ChildOutside cn))
        (descendant_networks db (b_id b));
  Ok new_net.

Definition resize_block_row (id : str) (new_net : IPNetwork) (b : IPBlock) : IPBlock :=
  if bool_decide (b_id b = id)
  then mkBlock (b_id b) (b_space b) (b_parent b) new_net (b_allocated_ips b) (b_total_ips b) (b_deleted b)
  else b.

Definition commit_block_resize (db : Db) (locked : bool) (b : IPBlock) (t : cidr_text)
    : result ResizeError Db :=
  new_net ← check_block_resize db locked b t;
  Ok (_update_block_utilization (update_blocks (resize_block_row (b_id b) new_net) db) (b_id b)).

(** ** Lemmas: growing *)

(** [new] is a bigger network of the family that holds [old]. *)
Definition grows (old new : IPNetwork) : Prop :=
  ver old = ver new ∧ prefixlen new < prefixlen old ∧ inside old new.

Lemma within_Ok a b : wf a → wf b → ver a = ver b → ∃ x, within a b = Ok x ∧ (x = true ↔ inside a b).
Proof.
  intros Ha Hb Hv. unfold within. pose proof (subnet_of_spec a b Ha Hb) as H.
  unfold subnet_of in *. rewrite bool_decide_false in * by tauto. eexists. split; [done|].
  unfold inside. rewrite <- H. split; [by intros ->|by intros [=]].
Qed.

Lemma validate_grow_Ok old new u : wf old → wf new → _validate_grow old new = Ok u ↔ grows old new.
Proof.
  intros Ho Hn. unfold _validate_grow, grows. case_bool_decide as Ev; [split; [done|tauto]|].
  destruct (Z.leb_spec (prefixlen old) (prefixlen new)); [split; [done|lia]|].
  destruct (within_Ok old new Ho Hn Ev) as (x & -> & Hx). simpl. rewrite raise_if_Ok, negb_false_iff. tauto.
Qed.

Lemma parse_cidr_Ok t n : _parse_cidr t = Ok n ↔ ip_network t = Some n.
Proof. unfold _parse_cidr. destruct (ip_network t); naive_solver. Qed.

Lemma refuse_Ok {A} (l : list A) e u : refuse l e = Ok u ↔ l = [].
Proof. destruct u, l; simpl; naive_solver. Qed.

Lemma inside_ver x y : wf x → inside x y → ver x = ver y.
Proof. intros Hx H. by destruct (H _ (mem_network_address x Hx)). Qed.

(** ** Lemmas: the scans *)
Lemma map_filter_nil {A B} (f : A → B) p l : map f (List.filter p l) = [] ↔ ∀ x, x ∈ l → p x = false.
Proof.
  split.
  - intros H x Hx. apply not_true_iff_false. intros Hp.
    assert (Hf : f x ∈ map f (List.filter p l)) by (apply list_elem_of_fmap_2, elem_filter; done).
    rewrite H in Hf. by apply not_elem_of_nil in Hf.
  - intros H. by rewrite filter_none_elem.
Qed.

Section scans.
Context (db : Db) (Hok : tree_ok db).

Lemma overlapping_nil space new excl : wf new → overlapping_blocks db space new excl = [] ↔
  ∀ c, c ∈ live_blocks db → b_space c = space → meets (b_network c) new → b_id c ∈ excl.
Proof.
  intros Hn. unfold overlapping_blocks. rewrite map_filter_nil. split.
  - intros H c Hc Hs Hm. pose proof (wf_live_block db Hok c Hc) as Hw.
    apply elem_live_blocks in Hc as [Hc Hd]. specialize (H c Hc). cbv beta in H.
    apply (overlaps_spec _ _ Hw Hn) in Hm. rewrite Hm, Hd, bool_decide_true in H by done. simpl in H.
    by apply negb_false_iff, bool_decide_eq_true in H.
  - intros H c Hc. apply not_true_iff_false. intros E. bool_hyps.
    assert (Hl : c ∈ live_blocks db) by by apply elem_live_blocks.
    match goal with E : _ ∉ excl |- _ => apply E end. apply H; [done..|].
    apply overlaps_spec; [by apply (wf_live_block db Hok)|done|done].
Qed.

Lemma subnet_scan_nil (keep : Subnet → bool) space new : wf new →
  map (λ s, WithSubnet (s_network s) (s_id s))
    (List.filter (λ s, bool_decide (s_space s = space) && overlaps (s_network s) new
                       && negb (s_deleted s) && keep s) (subnet db)) = [] ↔
  ∀ s, s ∈ live_subnets db → s_space s = space → meets (s_network s) new → keep s = false.
Proof.
  intros Hn. rewrite map_filter_nil. split.
  - intros H s Hs Es Hm. pose proof (wf_live_subnet db Hok s Hs) as Hw.
    apply elem_live_subnets in Hs as [Hs Hd]. specialize (H s Hs). cbv beta in H.
    apply (overlaps_spec _ _ Hw Hn) in Hm. by rewrite Hm, Hd, bool_decide_true in H.
  - intros H s Hs. apply not_true_iff_false. intros E. bool_hyps.
    assert (Hl : s ∈ live_subnets db) by by apply elem_live_subnets.
    rewrite (H s) in *; [done..|]. apply overlaps_spec; [by apply (wf_live_subnet db Hok)|done|done].
Qed.

(** The recursive query upwards finds the ids above a live block. *)
Lemma parents_of_live b : b ∈ live_blocks db → parents_of db [b_id b] = option_list (b_parent b).
Proof.
  intros [Hb _]%elem_live_blocks. unfold parents_of. destruct (tree_rows db Hok) as (_ & _ & Hn & _).
  revert Hn Hb. induction (ip_block db) as [|c l IH]; simpl; intros Hn Hb; [by apply not_elem_of_nil in Hb|].
  apply NoDup_cons in Hn as [Hc Hn]. apply elem_of_cons in Hb as [->|Hb].
  - rewrite bool_decide_true by left. simpl. rewrite filter_none_elem; [by destruct (b_parent c)|].
    intros x Hx. apply bool_decide_eq_false. intros E%list_elem_of_singleton. apply Hc. rewrite <- E.
    by apply list_elem_of_fmap_2.
  - rewrite bool_decide_false; [by apply IH|]. intros E%list_elem_of_singleton. apply Hc. rewrite E.
    by apply list_elem_of_fmap_2.
Qed.

Lemma elem_ascend fuel b l found x : chain db b l → (length l ≤ fuel)%nat →
  (∀ c, c ∈ l → c ≠ b → b_id c ∉ found) →
  x ∈ ascend fuel db [b_id b] found ↔ x ∈ found ∨ ∃ c, c ∈ l ∧ c ≠ b ∧ x = b_id c.
Proof.
  intros Hl. revert fuel found. induction Hl as [b Hb Hp|b p l Hb Hp Hc IH]; intros [|fuel] found Hf Hn;
    [simpl in Hf; lia| |rewrite length_app in Hf; simpl in Hf; lia|]; simpl; rewrite (parents_of_live b Hb), Hp; simpl.
  - split; [by left|]. intros [H|(c & ->%list_elem_of_singleton & H & _)]; done.
  - assert (Hd := chain_NoDup db Hok b _ (chain_step db b p l Hb Hp Hc)).
    apply NoDup_app in Hd as (_ & Hd & _). destruct (chain_live db p l Hc) as [Hpl Hll].
    assert (Hpi : p ∈ l) by (destruct (chain_last db p l Hc) as [? ->]; apply elem_of_app; right; left).
    assert (Hb' : ∀ c, c ∈ l → c ≠ b) by (intros c H ->; apply (Hd b H); left).
    rewrite bool_decide_false by (apply Hn; [apply elem_of_app; by left|by apply Hb']). simpl.
    rewrite IH.
    + rewrite elem_of_app, list_elem_of_singleton. split.
      * intros [[H|H]|(c & H1 & H2 & H3)]; [by left| |]; right; [exists p|exists c];
          (split_and!; [apply elem_of_app; by left|by apply Hb'|done]).
      * intros [H|(c & [H1|H1%list_elem_of_singleton]%elem_of_app & H2 & H3)]; [auto| |done].
        destruct (decide (c = p)) as [->|]; [auto|]. right. eauto.
    + rewrite length_app in Hf. simpl in Hf. lia.
    + intros c H1 H2. rewrite elem_of_app, list_elem_of_singleton. intros [H|H].
      * apply (Hn c); [apply elem_of_app; by left|by apply Hb'|done].
      * apply H2. by apply (live_id_inj db Hok); auto.
Qed.

Lemma elem_ancestors_all b c : b ∈ live_blocks db → c ∈ live_blocks db →
  b_id c ∈ ancestors_all db (b_id b) ↔ above db c b ∧ c ≠ b.
Proof.
  intros Hb Hc. destruct (tree_rooted db Hok b Hb) as [l Hl].
  pose proof (chain_length db Hok b l (ip_block db) Hl (λ x H, proj1 (proj1 (elem_live_blocks db x) H))).
  unfold ancestors_all. rewrite (elem_ascend _ b l) by
    first [done|lia|intros; apply not_elem_of_nil]. split.
  - intros [H1%not_elem_of_nil|(d & H1 & H2 & H3)]; [done|].
    assert (c = d) as <-; [|split; [by exists l|done]].
    apply (live_id_inj db Hok); [done|by apply (proj2 (chain_live db b l Hl))|done].
  - intros [(m & Hm & Hin) Hne]. right. exists c. by rewrite <- (chain_fun db Hok b _ _ Hm Hl).
Qed.

(** Blocks not above or below the grown one. *)
Lemma space_blocks_nil b new : b ∈ live_blocks db → wf new →
  _overlap_conflicts_space_blocks db (b_space b) new (b_id b) = [] ↔
  ∀ c, c ∈ live_blocks db → b_space c = b_space b → meets (b_network c) new → above db b c ∨ above db c b.
Proof.
  intros Hb Hn. unfold _overlap_conflicts_space_blocks. rewrite overlapping_nil by done.
  apply forall_proper; intros c. split; intros H Hc Es Hm; specialize (H Hc Es Hm); revert H;
    rewrite elem_of_app, elem_ancestors_all by done; unfold descendants_all;
    rewrite (descend_above db Hok (ip_block db) b c) by (auto; intros x Hx; by apply elem_live_blocks in Hx as []).
  - tauto.
  - intros [H|H]; [by left|]. destruct (decide (c = b)) as [->|]; [left; by apply (above_refl db Hok)|auto].
Qed.

Lemma space_subnets_nil b new : b ∈ live_blocks db → wf new →
  _overlap_conflicts_space_subnets_for_block db (b_space b) new (b_id b) = [] ↔
  ∀ s, s ∈ live_subnets db → s_space s = b_space b → meets (s_network s) new →
    ∃ c, c ∈ live_blocks db ∧ s_block s = b_id c ∧ above db b c.
Proof.
  intros Hb Hn. unfold _overlap_conflicts_space_subnets_for_block.
  rewrite (subnet_scan_nil (λ s, negb (bool_decide (s_block s ∈ descendants_all db (b_id b))))) by done.
  apply forall_proper; intros s. split; intros H Hs Es Hm; specialize (H Hs Es Hm).
  - apply negb_false_iff, bool_decide_eq_true in H. destruct (tree_subnet_in db Hok s Hs) as (c & Hc & E & _).
    exists c. split_and!; [done..|]. rewrite E in H. unfold descendants_all in H.
    rewrite (descend_above db Hok (ip_block db) b c) in H by (auto; intros x Hx; by apply elem_live_blocks in Hx as []).
    done.
  - destruct H as (c & Hc & E & Ha). apply negb_false_iff, bool_decide_eq_true. rewrite E. unfold descendants_all.
    by rewrite (descend_above db Hok (ip_block db) b c) by (auto; intros x Hx; by apply elem_live_blocks in Hx as []).
Qed.

(** The parent of a live row holds the new CIDR, or is named. *)
Lemma containment_Ok p new : p ∈ live_blocks db → wf new → ver new = ver (b_network p) →
  ∃ r, containment db (Some (b_id p)) new = Ok r ∧ (r = None ↔ inside new (b_network p)).
Proof.
  intros Hp Hn Hv. simpl. rewrite (get_block_live db Hok p Hp).
  destruct (within_Ok new (b_network p) Hn (wf_live_block db Hok p Hp) Hv) as (x & -> & Hx). simpl.
  eexists. split; [done|]. rewrite <- Hx. by destruct x.
Qed.

End scans.

(** ** Lemmas: a grown block *)
Section grown_block.
Context (db : Db) (Hok : tree_ok db) (b : IPBlock) (Hb : b ∈ live_blocks db)
  (new : IPNetwork) (Hn : wf new) (Hg : grows (b_network b) new).
Local Definition f := resize_block_row (b_id b) new.
Local Definition db' := update_blocks f db.

(** What the checks of a commit establish. *)
Definition block_room : Prop :=
  (∀ p, p ∈ live_blocks db → b_parent b = Some (b_id p) → inside new (b_network p))
  ∧ (∀ c, c ∈ live_blocks db → b_space c = b_space b → meets (b_network c) new → above db b c ∨ above db c b)
  ∧ (∀ s, s ∈ live_subnets db → s_space s = b_space b → meets (s_network s) new →
       ∃ c, c ∈ live_blocks db ∧ s_block s = b_id c ∧ above db b c).

Lemma f_keeps : keeps f.
Proof. intros c. unfold f, resize_block_row. by case_bool_decide. Qed.

Lemma f_b : b_network (f b) = new.
Proof. unfold f, resize_block_row. by rewrite bool_decide_true. Qed.

Lemma f_other c : c ∈ live_blocks db → c ≠ b → f c = c.
Proof.
  intros Hc Hne. unfold f, resize_block_row. rewrite bool_decide_false; [done|].
  intros E. apply Hne. by apply (live_id_inj db Hok).
Qed.

(** The networks only grow. *)
Lemma f_bigger c : c ∈ live_blocks db → inside (b_network c) (b_network (f c)).
Proof.
  intros Hc. destruct (decide (c = b)) as [->|Hne]; [|by rewrite f_other].
  rewrite f_b. apply Hg.
Qed.

Lemma live_grown c' : c' ∈ live_blocks db' ↔ ∃ c, c ∈ live_blocks db ∧ c' = f c.
Proof.
  unfold db'. rewrite (live_update_blocks f db f_keeps), list_elem_of_fmap. naive_solver.
Qed.

Lemma f_inj c d : c ∈ live_blocks db → d ∈ live_blocks db → f c = f d → c = d.
Proof.
  intros Hc Hd E. apply (live_id_inj db Hok); [done..|].
  destruct (f_keeps c) as [<- _], (f_keeps d) as [<- _]. by rewrite E.
Qed.

Lemma above_grown c d : tree_ok db' → c ∈ live_blocks db → d ∈ live_blocks db →
  above db' (f c) (f d) → above db c d.
Proof.
  intros Hok' Hc Hd (l' & Hl' & Hin). destruct (tree_rooted db Hok d Hd) as [l Hl].
  pose proof (chain_update_1 f db d l f_keeps Hl) as H.
  rewrite (chain_fun db' Hok' (f d) _ _ Hl' H) in Hin. exists l. split; [done|].
  apply list_elem_of_fmap in Hin as (x & E & Hx).
  by rewrite (f_inj c x Hc (proj2 (chain_live db d l Hl) x Hx) E).
Qed.

Lemma room_of_tree : tree_ok db' → block_room.
Proof.
  intros Hok'. assert (Hl : ∀ c, c ∈ live_blocks db → f c ∈ live_blocks db') by (intros c Hc; apply live_grown; eauto).
  assert (Hfs : ∀ c, b_space (f c) = b_space c ∧ b_parent (f c) = b_parent c ∧ b_id (f c) = b_id c).
  { intros c. by destruct (f_keeps c) as (? & ? & ? & _). }
  assert (Hm' : ∀ n c, c ∈ live_blocks db → meets n (b_network c) → meets n (b_network (f c))).
  { intros n c Hc. by apply meets_mono, f_bigger. }
  split_and!.
  - intros p Hp E. destruct (decide (p = b)) as [->|Hne].
    { exfalso. by apply (not_above_child db Hok b b), (above_refl db Hok). }
    rewrite <- f_b, <- (f_other p Hp Hne). apply (tree_inside db' Hok'); [by apply Hl..|].
    destruct (Hfs b) as (_ & -> & _), (Hfs p) as (_ & _ & ->). done.
  - intros c Hc Es Hm. destruct (Hfs b) as (Eb & _), (Hfs c) as (Ec & _).
    destruct (blocks_nested db' Hok' (f b) (f c)) as [H|H]; [by apply Hl..|congruence| | |];
      [|left; by apply above_grown|right; by apply above_grown].
    rewrite f_b. apply meets_sym. eapply meets_mono; [by apply f_bigger| |exact Hm]. done.
  - intros s Hs Es Hm. destruct (tree_subnet_in db Hok s Hs) as (c & Hc & E & Esc & Hin).
    exists c. split_and!; [done..|]. destruct (Hfs b) as (Eb & _), (Hfs c) as (Ec & _).
    destruct (blocks_nested db' Hok' (f b) (f c)) as [H|H]; [by apply Hl..|congruence| |by apply above_grown|].
    { rewrite f_b. apply meets_sym. eapply meets_mono; [| |exact Hm]; [|done].
      transitivity (b_network c); [done|by apply f_bigger]. }
    destruct (decide (c = b)) as [->|Hne]; [by apply (above_refl db Hok)|]. exfalso.
    destruct (above_child db' (f c) (f b) H) as (d & Hd & Hp & Ha).
    { intros E'. apply Hne. by apply f_inj. }
    apply (tree_subnet_blocks db' Hok' s d Hs Hd).
    + destruct (Hfs c) as (_ & _ & Eid). congruence.
    + apply (above_inside db' Hok') in Ha as [Ha _]. rewrite f_b in Ha. by eapply meets_mono.
Qed.

Lemma siblings_above c d : above db c d → b_parent c = b_parent d → c = d.
Proof.
  intros (l & Hl & Hin) E. inversion Hl as [? ? Hn'|? q l' ? Hq Hl']; subst; [by apply list_elem_of_singleton|].
  apply elem_of_app in Hin as [Hin|Hin]; [|by apply list_elem_of_singleton]. exfalso.
  apply (not_above_child db Hok c q); [by apply (proj2 (chain_live db q l' Hl'))|congruence|by exists l'].
Qed.

Lemma tree_of_room : block_room → tree_ok db'.
Proof.
  intros (HP & HB & HS). destruct (tree_rows db Hok) as (W1 & W2 & N1 & N2).
  assert (Hfs : ∀ c, b_space (f c) = b_space c ∧ b_parent (f c) = b_parent c ∧ b_id (f c) = b_id c).
  { intros c. by destruct (f_keeps c) as (? & ? & ? & _). }
  split.
  - split_and!; simpl; [|done| |done].
    + intros c' (c & -> & Hc)%list_elem_of_fmap. unfold f, resize_block_row. case_bool_decide; auto.
    + rewrite List.map_map. rewrite (map_ext _ b_id); [done|]. intros c. by destruct (Hfs c) as (_ & _ & ?).
  - intros c' (c & Hc & ->)%live_grown. destruct (tree_rooted db Hok c Hc) as [l H]. exists (map f l).
    by apply chain_update_1; [apply f_keeps|].
  - intros c' p' (c & Hc & ->)%live_grown (p & Hp & ->)%live_grown E.
    destruct (Hfs c) as (-> & E2 & _), (Hfs p) as (-> & _ & E4).
    assert (Ep : b_parent c = Some (b_id p)) by congruence. destruct (tree_inside db Hok c p Hc Hp Ep) as [Es Hi].
    split; [done|]. destruct (decide (c = b)) as [->|Hne].
    + rewrite f_b. transitivity (b_network p); [by apply HP|by apply f_bigger].
    + rewrite (f_other c) by done. transitivity (b_network p); [done|by apply f_bigger].
  - assert (Hs : ∀ c, c ∈ live_blocks db → b_space c = b_space b → b_parent c = b_parent b →
                   meets (b_network c) new → c = b).
    { intros c Hc Es Ep Hm. destruct (HB c Hc Es Hm) as [H|H]; [symmetry|]; by apply siblings_above. }
    intros c' d' (c & Hc & ->)%live_grown (d & Hd & ->)%live_grown.
    destruct (Hfs c) as (-> & -> & _), (Hfs d) as (-> & -> & _). intros E Ep Hm. f_equal.
    destruct (decide (c = b)) as [->|Hne], (decide (d = b)) as [->|Hnd]; [done|..].
    + symmetry. apply Hs; [done..|]. rewrite f_b, f_other in Hm by done. by apply meets_sym.
    + apply Hs; [done..|]. by rewrite f_b, f_other in Hm.
    + rewrite !f_other in Hm by done. by apply (tree_siblings db Hok).
  - intros s Hs. destruct (tree_subnet_in db Hok s Hs) as (c & Hc & E & Es & Hi). exists (f c).
    destruct (Hfs c) as (-> & _ & ->). split_and!; try done; [apply live_grown; eauto|].
    transitivity (b_network c); [done|by apply f_bigger].
  - apply (tree_subnets db Hok).
  - intros s c' Hs (c & Hc & ->)%live_grown E. destruct (Hfs c) as (_ & E2 & _). rewrite E2 in E.
    destruct (decide (c = b)) as [->|Hne]; [|rewrite f_other by done; by apply (tree_subnet_blocks db Hok)].
    rewrite f_b. intros Hm. destruct (tree_subnet_in db Hok s Hs) as (e & He & Ee & Es & _).
    assert (b_space b = b_space e) by (apply (tree_inside db Hok); congruence).
    destruct (HS s Hs) as (e' & He' & Ee' & Ha); [congruence|done|].
    apply (not_above_child db Hok b e'); [done|congruence|done].
Qed.

(** Every live row below the block lies inside the block. *)
Lemma elem_descendant_networks n : n ∈ descendant_networks db (b_id b) → wf n ∧ inside n (b_network b).
Proof.
  assert (Hd : ∀ c, c ∈ live_blocks db → b_id c ∈ live_descendants db (b_id b) → above db b c).
  { intros c Hc. unfold live_descendants. apply (descend_above db Hok (live_blocks db) b c); auto.
    intros x Hx. by apply elem_live_blocks in Hx as []. }
  unfold descendant_networks. rewrite elem_of_app, !list_elem_of_fmap.
  intros [(c & -> & [Hc H]%elem_filter)|(s & -> & [Hs H]%elem_filter)]; bool_hyps.
  - split; [by apply (wf_live_block db Hok)|]. by apply (above_inside db Hok), Hd.
  - split; [by apply (wf_live_subnet db Hok)|]. destruct (tree_subnet_in db Hok s Hs) as (c & Hc & E & _ & Hi).
    transitivity (b_network c); [done|]. apply (above_inside db Hok), Hd; [done|congruence].
Qed.

Lemma children_fit : ∃ us, map_result (λ cn, fits ← within cn new; raise_if (negb fits) (ChildOutside cn))
  (descendant_networks db (b_id b)) = Ok us.
Proof.
  assert (H : ∀ l, (∀ n, n ∈ l → wf n ∧ inside n (b_network b)) → ∃ us,
    map_result (λ cn, fits ← within cn new; raise_if (negb fits) (ChildOutside cn)) l = Ok us).
  { intros l. induction l as [|n l IH]; intros Hl; [by eexists|].
    destruct IH as [us E]; [intros; apply Hl; by right|]. destruct (Hl n ltac:(left)) as [Hw Hi].
    destruct Hg as (Hv & _ & Hbn). cbn [map_result].
    destruct (within_Ok n new Hw Hn) as (x & -> & Hx).
    { rewrite (inside_ver _ _ Hw Hi). done. }
    assert (x = true) as -> by (apply Hx; by transitivity (b_network b)). simpl.
    rewrite E. by eexists. }
  apply H, elem_descendant_networks.
Qed.

Lemma parent_room :
  _parent_containment_conflicts_block db b new = Ok None ↔
  (∀ p, p ∈ live_blocks db → b_parent b = Some (b_id p) → inside new (b_network p)).
Proof.
  unfold _parent_containment_conflicts_block. destruct (tree_rooted db Hok b Hb) as [l Hl].
  inversion Hl as [? ? Hn'|? p l' ? Hp Hl']; subst.
  - rewrite Hn'. split; [by intros _ p _ [=]|done].
  - rewrite Hp. destruct (chain_live db p l' Hl') as [Hpl _].
    destruct (tree_inside db Hok b p Hb Hpl Hp) as [_ Hi].
    destruct (containment_Ok db Hok p new Hpl Hn) as (r & -> & Hr).
    { destruct Hg as (<- & _). apply inside_ver; [by apply (wf_live_block db Hok)|done]. }
    split.
    + intros [= ->] q Hq [= E]. rewrite <- (live_id_inj db Hok p q Hpl Hq E). by apply Hr.
    + intros Hp'. f_equal. by apply Hr, Hp'.
Qed.

Lemma block_checks : is_ok (check_block_resize db true b (Canonical new)) = true ↔ block_room.
Proof.
  destruct children_fit as [us Hus]. unfold block_room.
  rewrite <- (space_subnets_nil db Hok b new Hb Hn), <- (space_blocks_nil db Hok b new Hb Hn), <- parent_room.
  assert (Hv : _validate_grow (b_network b) new = Ok tt) by by apply validate_grow_Ok; [apply (wf_live_block db Hok)|..].
  unfold check_block_resize. cbn [negb raise_if mbind result_bind _parse_cidr ip_network]. rewrite Hv, Hus.
  cbn [mbind result_bind].
  destruct (_parent_containment_conflicts_block db b new) as [[p|]|e]; simpl; [naive_solver| |naive_solver].
  destruct (_overlap_conflicts_space_blocks _ _ _ _); simpl; [|naive_solver].
  destruct (_overlap_conflicts_space_subnets_for_block _ _ _ _); simpl; naive_solver.
Qed.
End grown_block.

(** ** Lemmas: a grown subnet *)
Section walk.
Context (db : Db) (Hok : tree_ok db).

Lemma find_block b : b ∈ ip_block db → List.find (λ c, bool_decide (b_id c = b_id b)) (ip_block db) = Some b.
Proof.
  intros Hb. destruct (List.find _ _) as [c|] eqn:E.
  - apply List.find_some in E as [Hc E]. apply bool_decide_eq_true in E. f_equal.
    apply (block_id_inj db Hok); [by apply list_elem_of_In|done..].
  - apply list_elem_of_In in Hb. pose proof (List.find_none _ _ E b Hb) as H. cbv beta in H. by rewrite bool_decide_true in H.
Qed.

(** The walk finds ids of the chain, all of them when it is long enough. *)
Lemma elem_ancestor_walk steps b l found x : chain db b l → (∀ c, c ∈ l → b_id c ∉ found) →
  (x ∈ ancestor_walk steps db (Some (b_id b)) found → x ∈ found ∨ ∃ c, c ∈ l ∧ x = b_id c)
  ∧ ((length l ≤ steps)%nat → (x ∈ found ∨ ∃ c, c ∈ l ∧ x = b_id c) →
       x ∈ ancestor_walk steps db (Some (b_id b)) found).
Proof.
  intros Hl. revert steps found. induction Hl as [b Hb Hp|b p l Hb Hp Hc IH]; intros [|steps] found Hn;
    [by split; [left|simpl; lia]| |split; [by left|rewrite length_app; simpl; lia]|]; cbn [ancestor_walk];
    rewrite bool_decide_false by (apply Hn; rewrite ?elem_of_app, ?list_elem_of_singleton; auto);
    rewrite find_block by (by apply elem_live_blocks in Hb as []); rewrite Hp.
  - assert (E : ancestor_walk steps db None (found ++ [b_id b]) = found ++ [b_id b]) by by destruct steps.
    rewrite E, elem_of_app, list_elem_of_singleton. setoid_rewrite list_elem_of_singleton. naive_solver.
  - assert (Hd := chain_NoDup db Hok b _ (chain_step db b p l Hb Hp Hc)).
    apply NoDup_app in Hd as (_ & Hd & _). destruct (chain_live db p l Hc) as [Hpl Hll].
    destruct (IH steps (found ++ [b_id b])) as [IH1 IH2].
    { intros c Hcl. rewrite elem_of_app, list_elem_of_singleton. intros [H|H].
      - apply (Hn c); [apply elem_of_app; by left|done].
      - assert (c = b) as -> by (apply (live_id_inj db Hok); auto). apply (Hd b Hcl). left. }
    setoid_rewrite elem_of_app in IH1. setoid_rewrite elem_of_app in IH2.
    setoid_rewrite list_elem_of_singleton in IH1. setoid_rewrite list_elem_of_singleton in IH2.
    setoid_rewrite elem_of_app. setoid_rewrite list_elem_of_singleton. split.
    + intros H. apply IH1 in H. naive_solver.
    + intros Hlen H. rewrite length_app in Hlen. simpl in Hlen. apply IH2; [lia|]. naive_solver.
Qed.
End walk.

Section grown_subnet.
Context (db : Db) (Hok : tree_ok db) (s : Subnet) (Hs : s ∈ live_subnets db)
  (blk : IPBlock) (Hblk : blk ∈ live_blocks db) (Eblk : s_block s = b_id blk)
  (Espace : s_space s = b_space blk) (Hin : inside (s_network s) (b_network blk))
  (new : IPNetwork) (Hn : wf new) (Hg : grows (s_network s) new) (gw : option IPAddr).
Local Definition g := resize_subnet_row (s_id s) new gw.
Local Definition grown := update_subnets g db.

Definition subnet_room : Prop :=
  inside new (b_network blk)
  ∧ (∀ t, t ∈ live_subnets db → s_space t = s_space s → meets (s_network t) new → t = s)
  ∧ (∀ c, c ∈ live_blocks db → b_space c = s_space s → meets (b_network c) new → above db c blk).

Lemma g_keeps : keeps_subnet g.
Proof. intros t. unfold g, resize_subnet_row. by case_bool_decide. Qed.

Lemma subnet_id_inj t u : t ∈ live_subnets db → u ∈ live_subnets db → s_id t = s_id u → t = u.
Proof.
  intros [Ht _]%elem_live_subnets [Hu _]%elem_live_subnets. destruct (tree_rows db Hok) as (_ & _ & _ & H).
  by eapply map_NoDup_inj.
Qed.

Lemma g_s : s_network (g s) = new.
Proof. unfold g, resize_subnet_row. by rewrite bool_decide_true. Qed.

Lemma g_other t : t ∈ live_subnets db → t ≠ s → g t = t.
Proof.
  intros Ht Hne. unfold g, resize_subnet_row. rewrite bool_decide_false; [done|].
  intros E. apply Hne. by apply subnet_id_inj.
Qed.

Lemma live_grown_subnet t' : t' ∈ live_subnets grown ↔ ∃ t, t ∈ live_subnets db ∧ t' = g t.
Proof. unfold grown. rewrite (live_update_subnets g db g_keeps), list_elem_of_fmap. naive_solver. Qed.

Lemma subnet_room_of_tree : tree_ok grown → subnet_room.
Proof.
  intros Hok'. assert (Hl : ∀ t, t ∈ live_subnets db → g t ∈ live_subnets grown) by (intros t Ht; apply live_grown_subnet; eauto).
  destruct (g_keeps s) as (Ei & Es & Eb & _).
  assert (HP : inside new (b_network blk)).
  { destruct (tree_subnet_in grown Hok' (g s) (Hl s Hs)) as (c & Hc & E & _ & Hi). rewrite g_s in Hi.
    by rewrite (live_id_inj db Hok blk c Hblk Hc ltac:(congruence)). }
  split_and!; [done| |].
  - intros t Ht Et Hm. destruct (decide (t = s)) as [|Hne]; [done|]. exfalso.
    assert (E : g t = g s).
    { apply (tree_subnets grown Hok'); [by apply Hl..| |by rewrite g_s, (g_other t)].
      destruct (g_keeps t) as (_ & -> & _). congruence. }
    apply Hne, subnet_id_inj; [done..|]. destruct (g_keeps t) as (<- & _). by rewrite E.
  - intros c Hc Ec Hm. destruct (blocks_nested db Hok blk c) as [H|H]; [done..|congruence| | |done].
    { apply meets_sym. by eapply meets_mono; [|exact HP|exact Hm]. }
    destruct (decide (blk = c)) as [->|Hne]; [by apply (above_refl db Hok)|]. exfalso.
    destruct (above_child db blk c H Hne) as (d & Hd & Hp & Ha).
    apply (tree_subnet_blocks grown Hok' (g s) d (Hl s Hs) Hd); [congruence|]. rewrite g_s.
    apply meets_sym. apply (above_inside db Hok) in Ha as [Ha _]. by eapply meets_mono.
Qed.

Lemma tree_of_subnet_room : subnet_room → tree_ok grown.
Proof.
  intros (HP & HT & HB). destruct (tree_rows db Hok) as (W1 & W2 & N1 & N2). split.
  - split_and!; simpl; [done| |done|].
    + intros t' (t & -> & Ht)%list_elem_of_fmap. unfold g, resize_subnet_row. case_bool_decide; auto.
    + rewrite List.map_map. rewrite (map_ext _ s_id); [done|]. intros t. by destruct (g_keeps t).
  - intros b Hb. destruct (tree_rooted db Hok b Hb) as [l H]. exists l. by apply chain_subnets.
  - apply (tree_inside db Hok).
  - apply (tree_siblings db Hok).
  - intros t' (t & Ht & ->)%live_grown_subnet. destruct (g_keeps t) as (_ & -> & -> & _).
    destruct (decide (t = s)) as [->|Hne]; [|rewrite g_other by done; by apply (tree_subnet_in db Hok)].
    rewrite g_s. by exists blk.
  - intros t' u' (t & Ht & ->)%live_grown_subnet (u & Hu & ->)%live_grown_subnet.
    destruct (g_keeps t) as (_ & -> & _), (g_keeps u) as (_ & -> & _). intros E Hm. f_equal.
    destruct (decide (t = s)) as [->|Hnt], (decide (u = s)) as [->|Hnu]; [done|..].
    + symmetry. apply HT; [done..|]. rewrite g_s, g_other in Hm by done. by apply meets_sym.
    + apply HT; [done..|]. by rewrite g_s, g_other in Hm.
    + rewrite !g_other in Hm by done. by apply (tree_subnets db Hok).
  - intros t' c (t & Ht & ->)%live_grown_subnet Hc. destruct (g_keeps t) as (_ & _ & -> & _). intros E.
    destruct (decide (t = s)) as [->|Hne]; [|rewrite g_other by done; by apply (tree_subnet_blocks db Hok)].
    rewrite g_s. intros Hm%meets_sym.
    assert (Ep : b_parent c = Some (b_id blk)) by congruence.
    destruct (tree_inside db Hok c blk Hc Hblk Ep) as [Ec _].
    apply (not_above_child db Hok c blk Hc Ep). apply HB; [done|congruence|done].
Qed.

(** The commit's scans are the room of the subnet, for a block no deeper than
    the walk. *)
Definition subnet_scans : Prop :=
  _overlap_conflicts_space_subnets db (s_space s) new (s_id s) (s_network s) = []
  ∧ _overlap_conflicts_space_blocks_for_subnet db (s_space s) new (_ancestor_block_ids_for_subnet db s) = []
  ∧ _parent_containment_conflicts_subnet db s new = Ok None.

Lemma sibling_scan_nil : _overlap_conflicts_space_subnets db (s_space s) new (s_id s) (s_network s) = [] ↔
  (∀ t, t ∈ live_subnets db → s_space t = s_space s → meets (s_network t) new → t = s).
Proof.
  unfold _overlap_conflicts_space_subnets. rewrite filter_filter.
  rewrite (filter_ext_eq _ (λ t, bool_decide (s_space t = s_space s) && overlaps (s_network t) new
     && negb (s_deleted t) && (negb (bool_decide (s_id t = s_id s)) && negb (bool_decide (s_network t = s_network s)))))
    by (intros t; by rewrite !andb_assoc).
  rewrite (subnet_scan_nil db Hok (λ t, negb (bool_decide (s_id t = s_id s))
     && negb (bool_decide (s_network t = s_network s)))) by done.
  apply forall_proper; intros t. split; intros H Ht Et Hm; specialize (H Ht Et Hm).
  - apply andb_false_iff in H as [H|H]; apply negb_false_iff, bool_decide_eq_true in H; [by apply subnet_id_inj|].
    apply (tree_subnets db Hok); [done..|]. rewrite H.
    apply inside_meets; [by apply (wf_live_subnet db Hok)|done].
  - subst. by rewrite bool_decide_true.
Qed.

Lemma subnet_scans_room l : chain db blk l →
  (subnet_scans → subnet_room) ∧ ((length l ≤ 64)%nat → subnet_room → subnet_scans).
Proof.
  intros Hl. unfold subnet_scans, subnet_room. rewrite sibling_scan_nil.
  unfold _overlap_conflicts_space_blocks_for_subnet. rewrite (overlapping_nil db Hok) by done.
  unfold _parent_containment_conflicts_subnet, _ancestor_block_ids_for_subnet. rewrite Eblk.
  destruct (containment_Ok db Hok blk new Hblk Hn) as (r & -> & Hr).
  { destruct Hg as (<- & _). apply inside_ver; [by apply (wf_live_subnet db Hok)|done]. }
  assert (Hw : ∀ x, _) by (intros x; exact (elem_ancestor_walk db Hok 64 blk l [] x Hl (λ c _, not_elem_of_nil _))).
  split.
  - intros (HT & HB & [= ->]). split_and!; [by apply Hr|done|]. intros c Hc Ec Hm.
    specialize (HB c Hc Ec Hm). apply (proj1 (Hw _)) in HB. destruct HB as [H%not_elem_of_nil|(d & Hd & E)]; [done|].
    exists l. split; [done|]. rewrite (live_id_inj db Hok c d Hc (proj2 (chain_live db blk l Hl) d Hd) E). done.
  - intros Hlen (HP & HT & HB). split_and!; [done| |f_equal; by apply Hr]. intros c Hc Ec Hm.
    apply (proj2 (Hw _) Hlen). right. exists c. split; [|done].
    destruct (HB c Hc Ec Hm) as (m & Hm' & Hcm). by rewrite (chain_fun db Hok blk l m Hl Hm').
Qed.
End grown_subnet.

(** ** Lemmas: the commits *)

(** Every CIDR the parser makes of the text is well-formed. *)
Definition parses_wf (t : cidr_text) : Prop := ∀ n, ip_network t = Some n → wf n.

Lemma check_block_parsed db locked b t new : check_block_resize db locked b t = Ok new →
  locked = true ∧ ip_network t = Some new ∧ check_block_resize db true b (Canonical new) = Ok new.
Proof.
  unfold check_block_resize. intros (u & Hl & H)%bind_Ok. apply raise_if_Ok, negb_false_iff in Hl.
  apply bind_Ok in H as (n & Hp & H). apply parse_cidr_Ok in Hp.
  assert (n = new) as ->; [|split_and!; [done..|]; exact H].
  repeat (apply bind_Ok in H as (? & _ & H)). by injection H.
Qed.

Lemma check_block_Ok db b t new locked : locked = true → ip_network t = Some new →
  is_ok (check_block_resize db true b (Canonical new)) = true → check_block_resize db locked b t = Ok new.
Proof.
  intros -> Ht H. destruct (check_block_resize db true b (Canonical new)) as [n|e] eqn:E; [|done].
  apply check_block_parsed in E as E'. destruct E' as (_ & [= <-] & _). rewrite <- E.
  unfold check_block_resize, _parse_cidr. by rewrite Ht.
Qed.

Lemma check_block_grows db b t new locked : tree_ok db → b ∈ live_blocks db → wf new →
  check_block_resize db locked b t = Ok new → grows (b_network b) new.
Proof.
  intros Hok Hb Hw (_ & _ & H)%check_block_parsed. unfold check_block_resize in H.
  apply bind_Ok in H as (_ & _ & H). apply bind_Ok in H as (n & [= <-] & H). apply bind_Ok in H as ([] & H & _).
  by apply validate_grow_Ok in H; [|apply (wf_live_block db Hok)|].
Qed.

Lemma block_check_exact db b locked t new : tree_ok db → b ∈ live_blocks db → parses_wf t →
  check_block_resize db locked b t = Ok new ↔
    locked = true ∧ ip_network t = Some new ∧ grows (b_network b) new
    ∧ tree_ok (update_blocks (resize_block_row (b_id b) new) db).
Proof.
  intros Hok Hb Hp. split.
  - intros H. apply check_block_parsed in H as H'. destruct H' as (-> & Ht & Hc).
    pose proof (Hp new Ht) as Hw. pose proof (check_block_grows db b t new _ Hok Hb Hw H) as Hg.
    split_and!; [done..|]. apply (tree_of_room db Hok b Hb new Hw Hg), (block_checks db Hok b Hb new Hw Hg).
    by rewrite Hc.
  - intros (Hl & Ht & Hg & Htree). pose proof (Hp new Ht) as Hw. apply check_block_Ok; [done..|].
    by apply (block_checks db Hok b Hb new Hw Hg), (room_of_tree db Hok b Hb new Hg).
Qed.

Lemma tree_utilization db ids : tree_ok db → tree_ok (_update_blocks_utilization db ids).
Proof.
  intros Hok. rewrite (update_blocks_utilization_refresh db Hok).
  by apply tree_update_blocks; [apply refresh_keeps..|].
Qed.

(** The gateway move asks for a first host nobody holds; no host ends up on a
    boundary it was not on. *)
Definition gateway_free (db : Db) (s : Subnet) (new : IPNetwork) (move : bool) : Prop :=
  move = true → ∃ fu, _first_usable new = Some fu
    ∧ (s_gateway s = Some fu ∨ fu ∉ map i_address (rows_of db (s_id s))).

Definition hosts_clear (db : Db) (s : Subnet) (new : IPNetwork) : Prop := ∀ r, r ∈ rows_of db (s_id s) →
  is_placeholder (i_status r) = true ∨ is_boundary (s_network s) (s_kind s) (i_address r)
  ∨ ¬ is_boundary new (s_kind s) (i_address r).

Lemma hosts_clear_nil db s new : host_conflicts db s new = [] ↔ hosts_clear db s new.
Proof.
  unfold host_conflicts, hosts_clear. rewrite no_host_conflicts. setoid_rewrite elem_boundary.
  setoid_rewrite list_elem_of_singleton. naive_solver.
Qed.

Lemma gateway_in_use db s fu : _gateway_target_in_use db s fu (s_gateway s) = false ↔
  s_gateway s = Some fu ∨ fu ∉ map i_address (rows_of db (s_id s)).
Proof.
  unfold _gateway_target_in_use. case_bool_decide as E; [naive_solver|]. rewrite existsb_none, list_elem_of_fmap.
  setoid_rewrite bool_decide_eq_false. naive_solver.
Qed.

Lemma gateway_conflicts_nil db s new move : gateway_conflicts db s new move = [] ↔ gateway_free db s new move.
Proof.
  unfold gateway_conflicts, gateway_free. destruct move; [|done]. destruct (_first_usable new) as [fu|].
  - pose proof (gateway_in_use db s fu) as H. destruct (_gateway_target_in_use db s fu (s_gateway s)).
    + split; [done|]. intros Hf. destruct (Hf eq_refl) as (x & [= <-] & Hx). by apply H in Hx.
    + split; [|done]. intros _ _. exists fu. split; [done|]. by apply H.
  - split; [done|]. intros Hf. by destruct (Hf eq_refl) as (x & [=] & _).
Qed.

Lemma gateway_check db s new (move : bool) u :
  (if move then
     match _first_usable new with
     | None => Err (NoUsableHost (prefixlen new))
     | Some fu => raise_if (_gateway_target_in_use db s fu (s_gateway s)) (GatewayTargetInUse fu)
     end
   else Ok tt : result ResizeError unit) = Ok u ↔ gateway_free db s new move.
Proof.
  rewrite <- gateway_conflicts_nil. unfold gateway_conflicts. destruct move, u; [|done].
  destruct (_first_usable new); [|done]. rewrite raise_if_Ok. by destruct (_gateway_target_in_use _ _ _ _).
Qed.

Lemma subnet_check_exact db locked s t move new : tree_ok db → s ∈ live_subnets db → parses_wf t →
  check_subnet_resize db locked s t move = Ok new ↔
    locked = true ∧ ip_network t = Some new ∧ grows (s_network s) new ∧ gateway_free db s new move
    ∧ subnet_scans db s new ∧ hosts_clear db s new.
Proof.
  intros Hok Hs Hp. unfold check_subnet_resize. split.
  - intros (u & Hl & H)%bind_Ok. apply raise_if_Ok, negb_false_iff in Hl.
    apply bind_Ok in H as (n & Ht%parse_cidr_Ok & H). pose proof (Hp n Ht) as Hw.
    apply bind_Ok in H as (u1 & Hg & H). apply validate_grow_Ok in Hg; [|by apply (wf_live_subnet db Hok)|done].
    apply bind_Ok in H as (u2 & Hgw%gateway_check & H). apply bind_Ok in H as (u3 & H1%refuse_Ok & H).
    apply bind_Ok in H as (u4 & H2%refuse_Ok & H). apply bind_Ok in H as ([p|] & H3 & H); [done|].
    apply bind_Ok in H as (u5 & _ & H). apply bind_Ok in H as (u6 & H4%refuse_Ok & [= <-]).
    split_and!; try done. by apply hosts_clear_nil.
  - intros (-> & Ht & Hg & Hgw & (H1 & H2 & H3) & Hh). unfold _parse_cidr. rewrite Ht.
    cbn [negb raise_if mbind result_bind].
    assert (Hv : _validate_grow (s_network s) new = Ok tt) by (apply validate_grow_Ok; [apply (wf_live_subnet db Hok)|apply Hp|]; done).
    rewrite Hv. cbn [mbind result_bind]. rewrite (proj2 (gateway_check db s new move tt) Hgw). cbn [mbind result_bind].
    rewrite H1, H2, H3. cbn [mbind result_bind refuse]. by rewrite (proj2 (hosts_clear_nil db s new) Hh).
Qed.

(** What a commit writes, table by table. *)
Definition new_gateway (s : Subnet) (new : IPNetwork) (move : bool) : option IPAddr :=
  if move then match _first_usable new with Some fu => Some fu | None => s_gateway s end else s_gateway s.

Lemma tree_set_addresses db rows : tree_ok (set_addresses db rows) ↔ tree_ok db.
Proof.
  split; [|by apply tree_addresses]. intros H. apply (tree_addresses _ (ip_address db)) in H. by destruct db.
Qed.

Lemma move_gateway_tables db s gw move replace user :
  ∃ rows, fst (move_gateway_row db s gw move replace user) = set_addresses db rows.
Proof.
  unfold move_gateway_row, delete_rows. destruct gw as [a|], db as [bs ss rows]; [|by exists rows].
  destruct (move && _); [|by exists rows]. destruct (s_gateway s), replace; eauto.
Qed.

Lemma resize_tables db s new move replace user :
  ∃ rows, r_db (apply_subnet_resize db s new move replace user)
    = _update_block_utilization (_update_utilization (set_addresses
        (update_subnets (resize_subnet_row (s_id s) new (new_gateway s new move)) db) rows) (s_id s)) (s_block s).
Proof.
  unfold apply_subnet_resize. destruct (_load_boundary_placeholders _ _ _) as [ds rs].
  fold (new_gateway s new move). set (db1 := delete_rows db _). set (db2 := update_subnets _ db1).
  assert (H : ∃ db3 n, (if replace then ensure_boundary_rows db2 (s_id s) new user (s_kind s) else (db2, 0%nat)) = (db3, n)
            ∧ ∃ rows, db3 = set_addresses db2 rows).
  { destruct replace; [|exists db2, 0%nat; split; [done|]; by exists (ip_address db2)].
    unfold ensure_boundary_rows. eauto. }
  destruct H as (db3 & n & -> & rows3 & ->).
  pose proof (move_gateway_tables (set_addresses db2 rows3) s (new_gateway s new move) move replace user) as [rows4 H4].
  destruct (move_gateway_row _ _ _ _ _ _) as [db4 gr]. simpl in H4. subst db4. simpl. by exists rows4.
Qed.

Lemma resize_tree db s new move replace user :
  tree_ok (update_subnets (resize_subnet_row (s_id s) new (new_gateway s new move)) db) →
  tree_ok (r_db (apply_subnet_resize db s new move replace user)).
Proof.
  intros H. destruct (resize_tables db s new move replace user) as [rows ->]. apply tree_utilization.
  unfold _update_utilization. apply tree_update_subnets; [| |by apply tree_addresses];
    intros t; by destruct (_ && _).
Qed.

(** The address rows, when default placeholders are replaced. *)
Section resize_rows.
Context (db : Db) (s : Subnet) (new : IPNetwork) (move : bool) (user : option str).
Local Definition sid := s_id s.

(** A default-named placeholder at an old boundary. *)
Definition stale (r : IPAddress) : Prop :=
  i_subnet r = sid ∧ is_placeholder (i_status r) = true ∧ i_address r ∈ old_boundary (s_network s)
  ∧ default_named r = true.

(** The default row of a gateway that moved away. *)
Definition retired (r : IPAddress) : Prop :=
  new_gateway s new move ≠ s_gateway s ∧ i_subnet r = sid ∧ s_gateway s = Some (i_address r)
  ∧ default_gateway_row r = true.

Lemma elem_defaults r : r ∈ fst (_load_boundary_placeholders db sid (s_network s)) ↔ r ∈ ip_address db ∧ stale r.
Proof.
  unfold _load_boundary_placeholders, stale. simpl. rewrite !elem_filter. fold sid. unfold rows_of.
  rewrite elem_filter, andb_true_iff, !bool_decide_eq_true. tauto.
Qed.

Definition kept_rows : list IPAddress :=
  List.filter (λ r, negb (bool_decide (r ∈ fst (_load_boundary_placeholders db sid (s_network s))))) (ip_address db).

Definition seeded_rows : list IPAddress :=
  kept_rows ++ missing_rows (set_addresses db kept_rows) sid new user (s_kind s).

Definition gateway_moved : bool := move && negb (bool_decide (new_gateway s new move = s_gateway s)).

Definition gateway_row (a : IPAddr) : IPAddress := new_row sid a "reserved" (Some ("gateway" : str)) "Gateway" user.

Definition is_retired (r : IPAddress) : bool :=
  gateway_moved && match s_gateway s with
                   | Some old => is_row_at sid old r && default_gateway_row r
                   | None => false
                   end.

Lemma resize_rows : ip_address (r_db (apply_subnet_resize db s new move true user)) =
  List.filter (λ r, negb (is_retired r)) seeded_rows
  ++ match new_gateway s new move with Some a => if gateway_moved then [gateway_row a] else [] | None => [] end.
Proof.
  unfold apply_subnet_resize. pose proof (eq_refl : kept_rows = kept_rows) as Hk. unfold kept_rows at 1 in Hk.
  unfold sid in Hk. destruct (_load_boundary_placeholders _ _ _) as [ds rs]. cbn [fst] in Hk.
  unfold delete_rows at 1. rewrite Hk. fold (new_gateway s new move). unfold ensure_boundary_rows.
  assert (Hm : ∀ db2 rows2, ip_address db2 = rows2 → ip_address (r_db (let '(db4, gateway_row) :=
        move_gateway_row db2 s (new_gateway s new move) move true user in
      mkResized (_update_block_utilization (_update_utilization db4 (s_id s)) (s_block s)) (s_network s) new
        (length ds) (length (missing_rows (set_addresses db kept_rows) sid new user (s_kind s)))
        (EnsureReverseZones (s_id s) :: match gateway_row with Some r => [SyncDnsRecord r] | None => [] end
           ++ [BumpDhcpBundles (s_id s)])))
    = List.filter (λ r, negb (is_retired r)) rows2
      ++ match new_gateway s new move with Some a => if gateway_moved then [gateway_row a] else [] | None => [] end).
  { intros db2 rows2 <-. unfold move_gateway_row, is_retired, gateway_moved.
    assert (Ha : ∀ l : list IPAddress, List.filter (λ r, negb false) l = l) by (intros; by apply filter_all, forallb_elem_iff).
    assert (Hu : ∀ db4, ip_address (_update_block_utilization (_update_utilization db4 (s_id s)) (s_block s)) = ip_address db4).
    { intros db4. unfold _update_block_utilization. by rewrite utilization_rows. }
    destruct (new_gateway s new move) as [a|] eqn:Eg.
    - destruct (move && _) eqn:Em; simpl; rewrite Hu; [|by rewrite Ha, app_nil_r].
      destruct (s_gateway s); simpl; [done|by rewrite Ha].
    - simpl. rewrite Hu, app_nil_r. rewrite filter_all; [done|]. apply forallb_elem_iff. intros r _.
      unfold new_gateway in Eg. destruct move; [|done]. destruct (_first_usable new); [done|]. rewrite Eg. done. }
  apply Hm. done.
Qed.

Lemma is_retired_spec r : is_retired r = true ↔ retired r.
Proof.
  unfold is_retired, retired, gateway_moved, is_row_at, new_gateway. fold sid.
  destruct (s_gateway s) as [old|]; [|rewrite andb_false_r; naive_solver].
  rewrite !andb_true_iff, negb_true_iff, !bool_decide_eq_true, bool_decide_eq_false.
  destruct move; naive_solver.
Qed.

Lemma elem_kept r : r ∈ kept_rows ↔ r ∈ ip_address db ∧ ¬ stale r.
Proof.
  unfold kept_rows. rewrite elem_filter, negb_true_iff, bool_decide_eq_false, elem_defaults. tauto.
Qed.

(** The first usable address is no boundary. *)
Lemma first_usable_host fu : wf new → _first_usable new = Some fu → ¬ is_boundary new (s_kind s) fu.
Proof.
  intros (Hp & _). unfold _first_usable, is_boundary, network_address, broadcast_address, num_addresses.
  destruct (ver new); simpl; [destruct (Z.leb_spec 31 (prefixlen new))|destruct (Z.leb_spec 127 (prefixlen new))];
    intros [= <-] (_ & _ & Hf); [|injection Hf; lia]. simpl in Hp.
  assert (2 ^ 2 ≤ 2 ^ (32 - prefixlen new)) by (apply Z.pow_le_mono_r; lia).
  destruct Hf as [[=]|[=]]; lia.
Qed.

Lemma gateway_moved_to a : gateway_moved = true → new_gateway s new move = Some a →
  move = true ∧ s_gateway s ≠ Some a ∧ _first_usable new = Some a.
Proof.
  unfold gateway_moved, new_gateway. intros [-> H]%andb_true_iff. bool_hyps.
  destruct (_first_usable new); [|done]. intros [= ->]. split_and!; congruence.
Qed.

Lemma seeded_never_retired r :
  r ∈ missing_rows (set_addresses db kept_rows) sid new user (s_kind s) → ¬ retired r.
Proof.
  intros (_ & H & _)%elem_missing_rows (_ & _ & _ & Hd). unfold default_gateway_row in Hd.
  destruct (bool_decide_reflect (i_status r = "reserved")) as [E|E]; [by rewrite E in H|done].
Qed.

(** The rows after a growth: what stayed, what was seeded, the moved gateway. *)
Lemma elem_resized r : r ∈ ip_address (r_db (apply_subnet_resize db s new move true user)) ↔
  (r ∈ ip_address db ∧ ¬ stale r ∧ ¬ retired r)
  ∨ r ∈ missing_rows (set_addresses db kept_rows) sid new user (s_kind s)
  ∨ gateway_moved = true ∧ ∃ a, new_gateway s new move = Some a ∧ r = gateway_row a.
Proof.
  rewrite resize_rows, elem_of_app, elem_filter, negb_true_iff. unfold seeded_rows.
  rewrite elem_of_app, elem_kept, <- not_true_iff_false, is_retired_spec.
  pose proof (seeded_never_retired r) as Hs.
  assert (Hg : r ∈ match new_gateway s new move with
                   | Some a => if gateway_moved then [gateway_row a] else [] | None => [] end ↔
               gateway_moved = true ∧ ∃ a, new_gateway s new move = Some a ∧ r = gateway_row a).
  { destruct (new_gateway s new move), gateway_moved; rewrite ?list_elem_of_singleton, ?elem_of_nil; naive_solver. }
  rewrite Hg. clear Hg. tauto.
Qed.

Lemma kept_sublist : map i_address (rows_of (set_addresses db kept_rows) sid) `sublist_of` map i_address (rows_of db sid).
Proof.
  unfold rows_of. simpl. unfold kept_rows. rewrite filter_filter.
  apply (fmap_sublist i_address). rewrite (filter_ext_eq _ (λ r, bool_decide (i_subnet r = sid)
    && negb (bool_decide (r ∈ fst (_load_boundary_placeholders db sid (s_network s)))))).
  - rewrite <- filter_filter. apply filter_sublist.
  - intros r. apply andb_comm.
Qed.

Lemma resized_NoDup : wf new → gateway_free db s new move → NoDup (map i_address (rows_of db sid)) →
  NoDup (map i_address (rows_of (r_db (apply_subnet_resize db s new move true user)) sid)).
Proof.
  intros Hw Hg Hn. unfold rows_of. rewrite resize_rows, List.filter_app, fmap_app, filter_filter.
  assert (Hs : NoDup (map i_address (List.filter (λ r, bool_decide (i_subnet r = sid)) seeded_rows))).
  { apply (seeded_NoDup (set_addresses db kept_rows) sid new user (s_kind s) Hw).
    eapply sublist_NoDup; [exact Hn|apply kept_sublist]. }
  apply NoDup_app. split_and!.
  - eapply sublist_NoDup; [exact Hs|]. apply (fmap_sublist i_address).
    rewrite (filter_ext_eq _ (λ r, bool_decide (i_subnet r = sid) && negb (is_retired r))) by (intros; apply andb_comm).
    rewrite <- filter_filter. apply filter_sublist.
  - intros a (r & -> & [Hr Hp]%elem_filter)%list_elem_of_fmap (r' & E & [Hr' _]%elem_filter)%list_elem_of_fmap.
    destruct (new_gateway s new move) as [b|] eqn:Eg; [|by apply not_elem_of_nil in Hr'].
    destruct gateway_moved eqn:Em; [|by apply not_elem_of_nil in Hr']. apply list_elem_of_singleton in Hr' as ->.
    destruct (gateway_moved_to b Em Eg) as (H1 & H2 & H3). destruct (Hg H1) as (fu & H4 & H5).
    rewrite H3 in H4. injection H4 as <-. simpl in E. bool_hyps. unfold seeded_rows in Hr. apply elem_of_app in Hr as [Hr|Hr].
    + destruct H5 as [H5|H5]; [congruence|]. apply H5. rewrite <- E. apply list_elem_of_fmap_2, elem_filter.
      apply elem_kept in Hr as [Hr _]. split; [done|]. by apply bool_decide_eq_true.
    + apply elem_missing_rows in Hr as (_ & _ & Hr & _). rewrite E in Hr.
      by apply (first_usable_host b Hw H3), elem_boundary.
  - destruct (new_gateway s new move); [|constructor]. destruct gateway_moved; [|constructor].
    simpl. case_match; [apply NoDup_singleton|constructor].
Qed.
End resize_rows.

(** Block [t] 10.0.0.0/16 with [b] 10.0.0.0/24 and [c] 10.0.2.0/24 below it;
    subnet [s] 10.0.0.128/26 in [b], its placeholders and one host. *)
Definition net4 (a p : Z) : IPNetwork := mkNet V4 (167772160 + a) p.
Definition sample_b : IPBlock := mkBlock "b" "sp" (Some ("t" : str)) (net4 0 24) 3 256 false.
Definition sample_s : Subnet := mkSubnet "s" "sp" "b" sample_net "unicast" None 62 1 false.
Definition resize_sample : Db :=
  mkDb [mkBlock "t" "sp" None (net4 0 16) 3 65536 false; sample_b;
        mkBlock "c" "sp" (Some ("t" : str)) (net4 512 24) 0 256 false]
       [sample_s] sample_rows.

Lemma resize_sample_tree : tree_ok resize_sample.
Proof. apply tree_okb_sound. vm_compute. reflexivity. Qed.

Lemma sample_parses a p : wf (net4 a p) → parses_wf (Canonical (net4 a p)).
Proof. by intros H n [= <-]. Qed.

(** ** Claims *)

(** C26 -- a block grows exactly when it may: in a well-formed tree a commit
    succeeds precisely when it holds the lock, the text is a CIDR that properly
    contains the old one, and the tree with that CIDR written is still
    well-formed; then it writes that CIDR and recounts the chain, and the
    result is well-formed. *)
Theorem block_resize_exact (db : Db) (b : IPBlock) (locked : bool) (t : cidr_text) :
  tree_ok db → b ∈ live_blocks db → parses_wf t →
  let written new := update_blocks (resize_block_row (b_id b) new) db in
  (∀ res, commit_block_resize db locked b t = Ok res ↔
     locked = true ∧ ∃ new, ip_network t = Some new ∧ grows (b_network b) new ∧ tree_ok (written new)
       ∧ res = _update_block_utilization (written new) (b_id b))
  ∧ (∀ res, commit_block_resize db locked b t = Ok res → tree_ok res).
Proof.
  intros Hok Hb Hp written. unfold commit_block_resize. split.
  - intros res. rewrite bind_Ok. setoid_rewrite (block_check_exact db b locked t); [|done..]. split.
    + intros (new & (Hl & Ht & Hg & Hw) & [= <-]). eauto 10.
    + intros (Hl & new & Ht & Hg & Hw & ->). eauto 10.
  - intros res (new & (_ & _ & _ & Hw)%block_check_exact & [= <-])%bind_Ok; [|done..].
    by apply tree_utilization.
Qed.

Lemma block_resize_exact_witness :
  ∃ res, commit_block_resize resize_sample true sample_b (Canonical (net4 0 23)) = Ok res ∧ tree_ok res.
Proof.
  destruct (block_resize_exact resize_sample sample_b true (Canonical (net4 0 23)) resize_sample_tree) as [_ H].
  - apply (bool_decide_unpack _). vm_compute. exact I.
  - apply sample_parses. apply (bool_decide_unpack _). vm_compute. exact I.
  - eexists. split; [|apply H]; vm_compute; reflexivity.
Defined.

(** A subnet grows only when it may, and the tree stays well-formed: a
    commit that succeeds holds the lock, its text is a CIDR properly containing
    the old one, no host ends up on a boundary it was not on, a requested
    gateway address is free, and the database it leaves is well-formed.
    Conversely, below at most 64 blocks, a growth that meets these conditions
    and leaves the tree well-formed is not refused. *)
Theorem subnet_resize_exact (db : Db) (s : Subnet) (locked : bool) (t : cidr_text)
    (move replace : bool) (user : option str) :
  tree_ok db → s ∈ live_subnets db → parses_wf t →
  (∀ res, commit_subnet_resize db locked s t move replace user = Ok res →
     locked = true ∧ ip_network t = Some (new_cidr res) ∧ grows (s_network s) (new_cidr res)
     ∧ gateway_free db s (new_cidr res) move ∧ hosts_clear db s (new_cidr res) ∧ tree_ok (r_db res))
  ∧ (∀ new, (∀ blk l, b_id blk = s_block s → chain db blk l → (length l ≤ 64)%nat) →
     locked = true → ip_network t = Some new → grows (s_network s) new →
     gateway_free db s new move → hosts_clear db s new →
     tree_ok (update_subnets (resize_subnet_row (s_id s) new (new_gateway s new move)) db) →
     ∃ res, commit_subnet_resize db locked s t move replace user = Ok res ∧ new_cidr res = new).
Proof.
  intros Hok Hs Hp. destruct (tree_subnet_in db Hok s Hs) as (blk & Hblk & Eb & Es & Hi).
  destruct (tree_rooted db Hok blk Hblk) as [l Hl].
  assert (Hc : ∀ new, new_cidr (apply_subnet_resize db s new move replace user) = new).
  { intros new. unfold apply_subnet_resize. repeat case_match; by simplify_eq/=. }
  unfold commit_subnet_resize. split.
  - intros res (new & H & [= <-])%bind_Ok. rewrite Hc.
    apply subnet_check_exact in H as (H1 & H2 & H3 & H4 & H5 & H6); [|done..].
    split_and!; try done. apply resize_tree.
    apply (tree_of_subnet_room db Hok s Hs blk); [by auto..|].
    by apply (subnet_scans_room db Hok s Hs blk Hblk Eb Hi new (Hp new H2) H3 l Hl).
  - intros new Hlen H1 H2 H3 H4 H6 Htree. exists (apply_subnet_resize db s new move replace user).
    split; [|done]. rewrite (proj2 (subnet_check_exact db locked s t move new Hok Hs Hp)); [done|].
    split_and!; try done; apply (subnet_scans_room db Hok s Hs blk Hblk Eb Hi new (Hp new H2) H3 l Hl);
      first [by eapply Hlen|by eapply subnet_room_of_tree].
Qed.

Lemma subnet_resize_exact_witness :
  ∃ res, commit_subnet_resize resize_sample true sample_s (Canonical (net4 128 25)) true true None = Ok res
    ∧ tree_ok (r_db res).
Proof.
  destruct (subnet_resize_exact resize_sample sample_s true (Canonical (net4 128 25)) true true None
    resize_sample_tree) as [H _].
  - apply (bool_decide_unpack _). vm_compute. exact I.
  - apply sample_parses. apply (bool_decide_unpack _). vm_compute. exact I.
  - eexists. split; [|apply H]; vm_compute; reflexivity.
Defined.

(** What a subnet's growth does to its addresses, default placeholders
    being replaced: a row goes only when it is a default-named placeholder at an
    old boundary or the default row of a gateway that moves away; a row comes
    only as a placeholder at a new boundary or as the row of the moved gateway;
    every new boundary is held, no default placeholder is left at an old
    boundary that is none any more, and no two rows share an address. *)
Theorem subnet_resize_rows (db : Db) (s : Subnet) (locked : bool) (t : cidr_text)
    (move : bool) (user : option str) (res : SubnetResizeResult) :
  tree_ok db → s ∈ live_subnets db → parses_wf t → NoDup (map i_address (rows_of db (s_id s))) →
  commit_subnet_resize db locked s t move true user = Ok res →
  let rows := ip_address (r_db res) in
  let new := new_cidr res in
  (∀ r, r ∈ ip_address db → r ∈ rows ∨ stale s r ∨ retired s new move r)
  ∧ (∀ r, r ∈ rows → r ∈ ip_address db
       ∨ i_subnet r = s_id s ∧ is_placeholder (i_status r) = true ∧ is_boundary new (s_kind s) (i_address r)
       ∨ i_subnet r = s_id s ∧ i_status r = "reserved" ∧ new_gateway s new move = Some (i_address r))
  ∧ (∀ a, is_boundary new (s_kind s) a → a ∈ map i_address (rows_of (r_db res) (s_id s))
       ∨ ∃ r, retired s new move r ∧ i_address r = a)
  ∧ (∀ r, r ∈ rows → stale s r → is_boundary new (s_kind s) (i_address r))
  ∧ NoDup (map i_address (rows_of (r_db res) (s_id s))).
Proof.
  intros Hok Hs Hp Hnd (n & Hc & [= <-])%bind_Ok. apply subnet_check_exact in Hc as (_ & Ht & _ & Hg & _ & _); [|done..].
  pose proof (Hp n Ht) as Hw. assert (En : new_cidr (apply_subnet_resize db s n move true user) = n).
  { unfold apply_subnet_resize. repeat case_match; by simplify_eq/=. }
  rewrite En. intros rows new. subst rows new. pose proof (elem_resized db s n move user) as He.
  split_and!.
  - intros r Hr. destruct (decide (is_retired s n move r = true)) as [H|H]; rewrite is_retired_spec in H; [auto|].
    destruct (decide (r ∈ fst (_load_boundary_placeholders db (s_id s) (s_network s)))) as [H'|H'];
      [right; left; by apply (elem_defaults db s)|].
    left. apply He. left. split_and!; try done. intros Hst. apply H'. by apply (elem_defaults db s).
  - intros r [(Hr & _)|[(H1 & H2 & H3 & _)%elem_missing_rows|(_ & a & H1 & ->)]]%He; [by left| |].
    + right; left. by rewrite elem_boundary in H3.
    + right; right. done.
  - intros a Ha. pose proof (seeded_cover (set_addresses db (kept_rows db s)) (s_id s) n user (s_kind s) a Ha) as H.
    apply list_elem_of_fmap in H as (r & -> & [Hr Hi]%elem_rows_of).
    destruct (decide (is_retired s n move r = true)) as [H|H]; rewrite is_retired_spec in H; [right; by exists r|left].
    apply list_elem_of_fmap_2, elem_rows_of. split; [|done]. apply He. simpl in Hr.
    apply elem_of_app in Hr as [[Hr Hst]%elem_kept|Hr]; auto.
  - intros r [(_ & Hn & _)|[(H1 & H2 & H3 & _)%elem_missing_rows|(_ & a & H1 & ->)]]%He Hst; [done| |].
    + by rewrite elem_boundary in H3.
    + by destruct Hst as (_ & Hst & _).
  - by apply resized_NoDup.
Qed.

Lemma subnet_resize_rows_witness :
  ∃ res, commit_subnet_resize resize_sample true sample_s (Canonical (net4 128 25)) true true None = Ok res
    ∧ NoDup (map i_address (rows_of (r_db res) "s")).
Proof.
  eexists. split; [vm_compute; reflexivity|].
  eapply (subnet_resize_rows resize_sample sample_s true (Canonical (net4 128 25)) true None _ resize_sample_tree).
  - apply (bool_decide_unpack _). vm_compute. exact I.
  - apply sample_parses. apply (bool_decide_unpack _). vm_compute. exact I.
  - apply (bool_decide_unpack _). vm_compute. exact I.
  - vm_compute. reflexivity.
Defined.

(** ** Previews *)
Lemma map_nil {A B} (h : A → B) l : map h l = [] ↔ l = [].
Proof. by destruct l. Qed.

Lemma too_small_nil p : too_small p = [] ↔ p = None.
Proof. by destruct p. Qed.

(** The preview of a subnet is honest: it never fails, and it reports no
    conflict exactly when the commit, holding the lock, would succeed. *)
Theorem subnet_preview_agrees (db : Db) (s : Subnet) (t : cidr_text) (move replace : bool) (user : option str) :
  tree_ok db → s ∈ live_subnets db → parses_wf t →
  ∃ cs, preview_subnet_conflicts db s t move = Ok cs
    ∧ (cs = [] ↔ is_ok (commit_subnet_resize db true s t move replace user) = true).
Proof.
  intros Hok Hs Hp. unfold preview_subnet_conflicts, commit_subnet_resize.
  assert (Hex : is_ok (new_net ← check_subnet_resize db true s t move;
                       Ok (apply_subnet_resize db s new_net move replace user)) = true ↔
                ∃ new, check_subnet_resize db true s t move = Ok new).
  { destruct (check_subnet_resize db true s t move); simpl; naive_solver. }
  setoid_rewrite Hex. clear Hex. setoid_rewrite (subnet_check_exact db true s t move); [|done..].
  unfold _parse_cidr. destruct (ip_network t) as [new|] eqn:Ht; [|eexists; split; [done|naive_solver]].
  cbv beta iota. pose proof (Hp new Ht) as Hw. pose proof (wf_live_subnet db Hok s Hs) as Hws.
  destruct (_validate_grow (s_network s) new) as [[]|e] eqn:Hv.
  - apply validate_grow_Ok in Hv; [|done..].
    destruct (tree_subnet_in db Hok s Hs) as (blk & Hblk & Eb & _ & Hi).
    destruct (containment_Ok db Hok blk new Hblk Hw) as (p & Hc & _).
    { destruct Hv as (<- & _). by apply inside_ver. }
    unfold _parent_containment_conflicts_subnet, subnet_scans. rewrite Eb, Hc. simpl. eexists. split; [done|].
    rewrite !app_nil, !map_nil, too_small_nil, gateway_conflicts_nil, hosts_clear_nil.
    unfold _parent_containment_conflicts_subnet. split.
    + intros ((H1 & H2 & -> & H4) & H5). exists new. by rewrite Eb.
    + intros (n & _ & [= <-] & _ & H1 & (H2 & H3 & H4) & H5). rewrite Eb, Hc in H4. by injection H4 as ->.
  - simpl. eexists. split; [done|]. split; [done|]. intros (n & _ & [= <-] & Hg & _).
    apply (validate_grow_Ok _ _ tt Hws Hw) in Hg. congruence.
Qed.

Lemma subnet_preview_agrees_witness :
  ∃ cs, preview_subnet_conflicts resize_sample sample_s (Canonical (net4 128 25)) true = Ok cs
    ∧ (cs = [] ↔ is_ok (commit_subnet_resize resize_sample true sample_s (Canonical (net4 128 25)) true true None) = true).
Proof.
  apply (subnet_preview_agrees resize_sample sample_s (Canonical (net4 128 25)) true true None resize_sample_tree).
  - apply (bool_decide_unpack _). vm_compute. exact I.
  - apply sample_parses. apply (bool_decide_unpack _). vm_compute. exact I.
Defined.

(** The preview's own pass over the rows below the block. *)
Lemma preview_children db b new : tree_ok db → b ∈ live_blocks db → wf new → grows (b_network b) new →
  ∃ css, map_result (λ cn, fits ← within cn new; Ok (if (fits : bool) then [] else [ChildOutsideNewCidr cn]))
    (descendant_networks db (b_id b)) = Ok css ∧ mjoin css = ([] : list conflict).
Proof.
  intros Hok Hb Hw Hg. pose proof (elem_descendant_networks db Hok b Hb) as H. revert H.
  induction (descendant_networks db (b_id b)) as [|n l IH]; intros H; [by eexists|].
  destruct IH as (css & E & Ej); [intros; apply H; by right|]. destruct (H n ltac:(left)) as [Hwn Hi].
  destruct Hg as (Hv & _ & Hbn). cbn [map_result].
  destruct (within_Ok n new Hwn Hw) as (x & -> & Hx); [by rewrite (inside_ver _ _ Hwn Hi)|].
  assert (x = true) as -> by (apply Hx; by transitivity (b_network b)). simpl. rewrite E. by eexists.
Qed.

(** The preview of a block reports no conflict exactly when the commit,
    holding the lock, would succeed. *)
Theorem block_preview_agrees (db : Db) (b : IPBlock) (t : cidr_text) :
  tree_ok db → b ∈ live_blocks db → parses_wf t →
  preview_block_conflicts db b t = Ok [] ↔ is_ok (commit_block_resize db true b t) = true.
Proof.
  intros Hok Hb Hp. unfold preview_block_conflicts, commit_block_resize, check_block_resize, _parse_cidr.
  destruct (ip_network t) as [new|] eqn:Ht; [|done]. cbn [negb raise_if mbind result_bind].
  pose proof (Hp new Ht) as Hw. pose proof (wf_live_block db Hok b Hb) as Hwb.
  destruct (_validate_grow (b_network b) new) as [[]|e] eqn:Hv; cbn [mbind result_bind].
  - apply validate_grow_Ok in Hv; [|done..].
    destruct (preview_children db b new Hok Hb Hw Hv) as (css & Ec & Ej).
    destruct (children_fit db Hok b Hb new Hw Hv) as [us Eu]. rewrite Ec, Eu. cbn [mbind result_bind].
    rewrite Ej.
    destruct (_parent_containment_conflicts_block db b new) as [[p|]|e]; simpl; [done| |done].
    destruct (_overlap_conflicts_space_blocks _ _ _ _); simpl; [|done].
    by destruct (_overlap_conflicts_space_subnets_for_block _ _ _ _).
  - simpl. destruct (map_result _ _); simpl; split; done.
Qed.

Lemma block_preview_agrees_witness :
  preview_block_conflicts resize_sample sample_b (Canonical (net4 0 23)) = Ok [].
Proof.
  apply (block_preview_agrees resize_sample sample_b (Canonical (net4 0 23)) resize_sample_tree).
  - apply (bool_decide_unpack _). vm_compute. exact I.
  - apply sample_parses. apply (bool_decide_unpack _). vm_compute. exact I.
  - vm_compute. reflexivity.
Defined.

(** The preview of a block with rows below it fails on a CIDR of the other
    family, which the commit refuses as a family change. *)
Example block_preview_family_crash :
  preview_block_conflicts resize_sample sample_b (Canonical (mkNet V6 0 32)) = Err MixedFamilies
  ∧ status_code MixedFamilies = 500
  ∧ commit_block_resize resize_sample true sample_b (Canonical (mkNet V6 0 32)) = Err FamilyChange.
Proof. vm_compute. auto. Qed.
End Resize.
