(* ===== verification/SubnetSplit.v ===== *)
(** * Splitting a subnet

    [backend/app/services/ipam/subnet_split.py]: a subnet divided into aligned
    children of a longer prefix; its address rows, DHCP scopes and zone bindings
    move to them.  The live DHCP rows and the bindings join the IPAM tables in a
    [State]; the ids the database gives the children are the argument [new_id].
    The inherited columns are those of [Ipam.Subnet]; the warning texts and the
    DHCP bundle rebuild (the affected groups are returned) are not modelled. *)
From S2P Require Import Prelude PyStr IpNet Ipam SubnetBoundary Utilization.

Module SubnetSplit.
Import Ipam SubnetBoundary Utilization.
Local Open Scope Z_scope.

Record DHCPScope := mkScope { sc_id : str; sc_group : str; sc_subnet : str }.
Record DHCPPool := mkPool { p_scope : str; start_ip : IPAddr; end_ip : IPAddr }.
Record DHCPStaticAssignment := mkStatic { st_scope : str; st_ip : IPAddr }.
Record SubnetDomain := mkDomain { sd_subnet : str; sd_zone : str; sd_primary : bool }.

Record State := mkState {
  ipam : Db;
  dhcp_scope : list DHCPScope;
  dhcp_pool : list DHCPPool;
  dhcp_static : list DHCPStaticAssignment;
  subnet_domain : list SubnetDomain;
}.

Inductive SplitConflict :=
| StraddlesBoundary (scope : str)
| Ambiguous (scope : str) (children : list IPNetwork)
| HostOnChildBoundary (h : host_conflict).

Inductive SplitError :=
| InProgress
| NotLonger (current new : Z)
| TooLongV4
| TooLongV6
| ConfirmMismatch
| Blocked (cs : list SplitConflict).

Definition status_code (e : SplitError) : Z :=
  match e with InProgress => 423 | Blocked _ => 409 | _ => 422 end.

Definition _validate_split (parent : IPNetwork) (new_prefix : Z) : result SplitError unit :=
  if new_prefix <=? prefixlen parent then Err (NotLonger (prefixlen parent) new_prefix)
  else if bool_decide (ver parent = V4) then raise_if (30 <? new_prefix) TooLongV4
  else raise_if (126 <? new_prefix) TooLongV6.

Definition _children_of (parent : IPNetwork) (new_prefix : Z) : list IPNetwork := subnets parent new_prefix.

Definition _is_default_placeholder (r : IPAddress) : bool :=
  if negb (is_placeholder (i_status r)) then false
  else
    let is_user_named := match i_hostname r with
                         | None => false
                         | Some h => negb (bool_decide (h = [])) && negb (is_placeholder h)
                         end in
    let has_custom_desc := negb (bool_decide (i_description r = []
      ∨ i_description r = "Network address" ∨ i_description r = "Broadcast address")) in
    negb (is_user_named || has_custom_desc || negb (bool_decide (i_dns_record r = None))).

Definition _ip_in (child : IPNetwork) (a : IPAddr) : bool := contains child a.

(** ** Preview *)
Definition scopes_of (st : State) (sid : str) : list DHCPScope :=
  List.filter (λ sc, bool_decide (sc_subnet sc = sid)) (dhcp_scope st).
Definition pools_of (st : State) (sc : DHCPScope) : list DHCPPool :=
  List.filter (λ p, bool_decide (p_scope p = sc_id sc)) (dhcp_pool st).
Definition statics_of (st : State) (sc : DHCPScope) : list DHCPStaticAssignment :=
  List.filter (λ a, bool_decide (st_scope a = sc_id sc)) (dhcp_static st).

(** [not scope_pools and not scope_statics] *)
Definition is_empty_scope (st : State) (sc : DHCPScope) : bool :=
  match pools_of st sc, statics_of st sc with [], [] => true | _, _ => false end.

(** Every range and reservation of the scope lies in the child. *)
Definition fits (st : State) (child : IPNetwork) (sc : DHCPScope) : bool :=
  forallb (λ p, _ip_in child (start_ip p) && _ip_in child (end_ip p)) (pools_of st sc)
  && forallb (λ a, _ip_in child (st_ip a)) (statics_of st sc).

Record SplitChildPreview := mkChildPreview {
  cidr : IPNetwork;
  allocations_count : nat;
  placeholders_default_named : nat;
  placeholders_renamed : nat;
  dhcp_scope_id : option str;
  dhcp_pool_count : nat;
  dhcp_static_count : nat;
  dns_record_count : nat;
}.

(** One scope against one child: the scope bound so far and the two counts. *)
Definition bind_scope (st : State) (parent child : IPNetwork) (acc : option str * nat * nat)
    (sc : DHCPScope) : option str * nat * nat :=
  let '(bound, pools, statics) := acc in
  if is_empty_scope st sc then
    if _ip_in child (network_address parent) && bool_decide (bound = None)
    then (Some (sc_id sc), pools, statics) else acc
  else if fits st child sc then
    (match bound with Some _ => bound | None => Some (sc_id sc) end,
     (pools + length (pools_of st sc))%nat, (statics + length (statics_of st sc))%nat)
  else acc.

Definition child_preview (st : State) (s : Subnet) (parent child : IPNetwork) : SplitChildPreview :=
  let rows := List.filter (λ r, _ip_in child (i_address r)) (rows_of (ipam st) (s_id s)) in
  let count p := length (List.filter p rows) in
  let '(bound, pools, statics) := foldl (bind_scope st parent child) (None, 0%nat, 0%nat) (scopes_of st (s_id s)) in
  mkChildPreview child (length rows)
    (count (λ r, is_placeholder (i_status r) && _is_default_placeholder r))
    (count (λ r, is_placeholder (i_status r) && negb (_is_default_placeholder r)))
    bound pools statics
    (count (λ r, negb (bool_decide (i_dns_record r = None)) && negb (is_placeholder (i_status r)))).

Definition scope_conflicts (st : State) (children : list SplitChildPreview) (sc : DHCPScope) : list SplitConflict :=
  let matching := List.filter (λ c, bool_decide (dhcp_scope_id c = Some (sc_id sc))) children in
  if bool_decide (length matching = 0%nat) && negb (is_empty_scope st sc) then [StraddlesBoundary (sc_id sc)]
  else if (1 <? length matching)%nat then [Ambiguous (sc_id sc) (map cidr matching)]
  else [].

Definition split_host_conflicts (st : State) (s : Subnet) (children_nets : list IPNetwork) : list host_conflict :=
  boundary_host_conflicts (rows_of (ipam st) (s_id s)) children_nets (s_kind s)
    (boundary_addresses (s_network s) (s_kind s)).

(** The children and the conflicts; a refused prefix is the only conflict then. *)
Definition preview_subnet_split (st : State) (s : Subnet) (new_prefix_length : Z)
    : result SplitError (list SplitChildPreview * list SplitConflict) :=
  let parent := s_network s in
  _ ← _validate_split parent new_prefix_length;
  let children_nets := _children_of parent new_prefix_length in
  let children := map (child_preview st s parent) children_nets in
  Ok (children, mjoin (map (scope_conflicts st children) (scopes_of st (s_id s)))
                ++ map HostOnChildBoundary (split_host_conflicts st s children_nets)).

(** ** Commit *)
Definition child_total (cnet : IPNetwork) (is_v6_parent : bool) : Z :=
  if is_v6_parent then Z.min (num_addresses cnet) (2 ^ 63 - 1)
  else if 31 <=? prefixlen cnet then num_addresses cnet
  else num_addresses cnet - 2.

Definition child_row (s : Subnet) (id : str) (cnet : IPNetwork) : Subnet :=
  let gw := match s_gateway s with
            | Some g => if contains cnet g then Some g else None
            | None => None
            end in
  mkSubnet id (s_space s) (s_block s) cnet (s_kind s) gw
    (child_total cnet (bool_decide (ver (s_network s) = V6))) 0 false.

Definition child_rows (s : Subnet) (new_id : nat → str) (nets : list IPNetwork) : list Subnet :=
  imap (λ i cnet, child_row s (new_id i) cnet) nets.

(** What becomes of an address row of the parent: [None] when it is deleted. *)
Definition migrate_row (parent : IPNetwork) (children : list Subnet) (r : IPAddress) : option IPAddress :=
  if bool_decide (i_address r ∈ boundary_addresses parent "unicast") && _is_default_placeholder r then None
  else
    match List.find (λ c, _ip_in (s_network c) (i_address r)) children with
    | Some c => Some (mkIPAddress (s_id c) (i_address r) (i_status r) (i_hostname r) (i_description r)
                        (i_dns_record r) (i_created_by r))
    | None => Some r
    end.

Definition migrate_rows (db : Db) (s : Subnet) (children : list Subnet) : Db :=
  set_addresses db (omap (λ r, if bool_decide (i_subnet r = s_id s)
                               then migrate_row (s_network s) children r else Some r) (ip_address db)).

Definition seed_children (db : Db) (kind : str) (user : option str) (children : list Subnet) : Db :=
  foldl (λ db c, fst (ensure_boundary_rows db (s_id c) (s_network c) user kind)) db children.

(** The child a scope moves to: the first it fits, or the one with the
    parent's network address. *)
Definition target_child (st : State) (parent : IPNetwork) (children : list Subnet) (sc : DHCPScope) : option str :=
  match List.find (λ c, fits st (s_network c) sc && negb (is_empty_scope st sc)) children with
  | Some c => Some (s_id c)
  | None => s_id <$> List.find (λ c, _ip_in (s_network c) (network_address parent)) children
  end.

Definition rebind_scope (st : State) (s : Subnet) (children : list Subnet) (sc : DHCPScope) : DHCPScope :=
  if bool_decide (sc_subnet sc = s_id s) then
    match target_child st (s_network s) children sc with
    | Some id => mkScope (sc_id sc) (sc_group sc) id
    | None => sc
    end
  else sc.

Definition duplicate_domains (st : State) (s : Subnet) (children : list Subnet) : list SubnetDomain :=
  List.filter (λ d, negb (bool_decide (sd_subnet d = s_id s))) (subnet_domain st)
  ++ mjoin (map (λ d, map (λ c, mkDomain (s_id c) (sd_zone d) (sd_primary d)) children)
             (List.filter (λ d, bool_decide (sd_subnet d = s_id s)) (subnet_domain st))).

Definition insert_subnets (db : Db) (rows : list Subnet) : Db :=
  mkDb (ip_block db) (subnet db ++ rows) (ip_address db).
Definition delete_subnet (db : Db) (id : str) : Db :=
  mkDb (ip_block db) (List.filter (λ t, negb (bool_decide (s_id t = id))) (subnet db)) (ip_address db).

Record SubnetSplitResult := mkSplit {
  r_state : State;
  parent_cidr : IPNetwork;
  r_children : list Subnet;
  affected_groups : list str;
}.

Definition apply_split (st : State) (s : Subnet) (new_prefix_length : Z) (user : option str)
    (new_id : nat → str) : SubnetSplitResult :=
  let parent := s_network s in
  let children := child_rows s new_id (_children_of parent new_prefix_length) in
  let db1 := insert_subnets (ipam st) children in
  let db2 := migrate_rows db1 s children in
  let db3 := seed_children db2 (s_kind s) user children in
  let scopes := map (rebind_scope st s children) (dhcp_scope st) in
  let groups := map sc_group (List.filter (λ sc, match target_child st parent children sc with
                                                 | Some _ => true | None => false end) (scopes_of st (s_id s))) in
  let domains := duplicate_domains st s children in
  let db4 := foldl (λ db c, _update_utilization db (s_id c)) db3 children in
  let db5 := _update_block_utilization db4 (s_block s) in
  let db6 := delete_subnet db5 (s_id s) in
  mkSplit (mkState db6 scopes (dhcp_pool st) (dhcp_static st) domains) parent children groups.

Definition commit_subnet_split (st : State) (locked : bool) (s : Subnet) (new_prefix_length : Z)
    (confirm_cidr : cidr_text) (user : option str) (new_id : nat → str) : result SplitError SubnetSplitResult :=
  _ ← raise_if (negb locked) InProgress;
  _ ← _validate_split (s_network s) new_prefix_length;
  _ ← raise_if (negb (bool_decide (confirm_cidr = Canonical (s_network s)))) ConfirmMismatch;
  preview ← preview_subnet_split st s new_prefix_length;
  _ ← (match preview.2 with [] => Ok tt | cs => Err (Blocked cs) end);
  Ok (apply_split st s new_prefix_length user new_id).

(** ** Lemmas: the children *)
Section children.
Context (s : Subnet) (p : Z) (new_id : nat → str).
Context (Hw : wf (s_network s)) (Hp : prefixlen (s_network s) < p ≤ max_prefixlen (ver (s_network s))).
Context (Hinj : ∀ i j, new_id i = new_id j → i = j).
Local Abbreviation nets := (_children_of (s_network s) p).
Local Abbreviation kids := (child_rows s new_id nets).

Lemma kid_lookup i : kids !! i = (λ n, child_row s (new_id i) n) <$> nets !! i.
Proof. unfold child_rows. by rewrite list_lookup_imap. Qed.

Lemma elem_kids c : c ∈ kids ↔ ∃ i n, nets !! i = Some n ∧ c = child_row s (new_id i) n.
Proof.
  rewrite list_elem_of_lookup. setoid_rewrite kid_lookup. split.
  - intros [i Hi]. destruct (nets !! i) as [n|] eqn:E; [|done]. injection Hi as <-. eauto.
  - intros (i & n & E & ->). exists i. by rewrite E.
Qed.

Lemma kid_network c : c ∈ kids → s_network c ∈ nets.
Proof. intros (i & n & H & ->)%elem_kids. by eapply list_elem_of_lookup_2. Qed.

Lemma net_spec n : n ∈ nets → wf n ∧ ver n = ver (s_network s) ∧ prefixlen n = p ∧ inside n (s_network s).
Proof. intros H. apply elem_subnets in H; [done..|lia]. Qed.

Lemma kid_wf c : c ∈ kids → wf (s_network c) ∧ inside (s_network c) (s_network s).
Proof. intros (H1 & _ & _ & H2)%kid_network%net_spec. done. Qed.

Lemma kid_covers a : mem (s_network s) a → ∃ c, c ∈ kids ∧ mem (s_network c) a.
Proof.
  intros Ha. destruct (subnets_cover (s_network s) p a Hw ltac:(lia) Ha) as (n & Hn & Hm).
  apply list_elem_of_lookup in Hn as [i Hi]. exists (child_row s (new_id i) n).
  split; [|done]. apply elem_kids. eauto.
Qed.

Lemma kids_disjoint c d : c ∈ kids → d ∈ kids → meets (s_network c) (s_network d) → c = d.
Proof.
  intros Hc Hd (a & Ha & Hb). apply elem_kids in Hc as (i & n & Hi & ->), Hd as (j & m & Hj & ->). simpl in *.
  destruct (net_spec n) as (W1 & _ & P1 & _); [by eapply list_elem_of_lookup_2|].
  destruct (net_spec m) as (W2 & _ & P2 & _); [by eapply list_elem_of_lookup_2|].
  assert (n = m) as <- by (apply (same_length_disjoint n m a); congruence).
  assert (i = j) as <-; [|done]. eapply NoDup_lookup; [|exact Hi|exact Hj]. apply subnets_NoDup. lia.
Qed.

Lemma kid_ids : NoDup (map s_id kids).
Proof.
  apply NoDup_alt. intros i j x. rewrite !list_lookup_fmap, !kid_lookup.
  destruct (nets !! i), (nets !! j); simpl; try done. intros [= <-] [= E]. by apply Hinj.
Qed.

Lemma kid_id c : c ∈ kids → ∃ i, s_id c = new_id i.
Proof. intros (i & n & _ & ->)%elem_kids. eauto. Qed.

Lemma kid_fields c : c ∈ kids → s_space c = s_space s ∧ s_block c = s_block s ∧ s_deleted c = false ∧ s_kind c = s_kind s.
Proof. by intros (i & n & _ & ->)%elem_kids. Qed.

Lemma kids_networks : map s_network kids = nets.
Proof.
  apply list_eq. intros i. rewrite list_lookup_fmap, kid_lookup. by destruct (nets !! i).
Qed.

(** The first child whose network holds an address is the one that does. *)
Lemma find_kid a c : c ∈ kids → mem (s_network c) a → List.find (λ c, _ip_in (s_network c) a) kids = Some c.
Proof.
  intros Hc Ha. destruct (List.find _ _) as [d|] eqn:E.
  - apply List.find_some in E as [Hd E]. apply list_elem_of_In in Hd. f_equal. apply kids_disjoint; [done..|].
    exists a. split; [|done]. apply contains_mem in E; [done|by apply kid_wf].
  - apply list_elem_of_In in Hc. pose proof (List.find_none _ _ E c Hc) as H. unfold _ip_in in H.
    rewrite (proj2 (contains_mem (s_network c) a (proj1 (kid_wf c (proj2 (list_elem_of_In _ _) Hc))))) in H; done.
Qed.
End children.

(** ** Lemmas: the tree *)
Section split_tree.
Context (db : Db) (Hok : tree_ok db) (s : Subnet) (Hs : s ∈ live_subnets db) (p : Z) (new_id : nat → str).
Context (Hp : prefixlen (s_network s) < p ≤ max_prefixlen (ver (s_network s))).
Context (Hinj : ∀ i j, new_id i = new_id j → i = j) (Hfresh : ∀ i, new_id i ∉ map s_id (subnet db)).
Local Abbreviation kids := (child_rows s new_id (_children_of (s_network s) p)).
Local Abbreviation Hw := (wf_live_subnet db Hok s Hs).

Definition split_db (rows : list IPAddress) : Db :=
  set_addresses (delete_subnet (insert_subnets db kids) (s_id s)) rows.

Lemma elem_split_subnets rows t :
  t ∈ live_subnets (split_db rows) ↔ (t ∈ live_subnets db ∧ t ≠ s) ∨ t ∈ kids.
Proof.
  rewrite !elem_live_subnets. unfold split_db. simpl. rewrite elem_filter, elem_of_app, negb_true_iff, bool_decide_eq_false.
  destruct (tree_rows db Hok) as (_ & _ & _ & Hn). pose proof Hs as [Hs' _]%elem_live_subnets. split.
  - intros [[[Ht|Ht] Hne] Hd]; [left|by right]. split_and!; [done..|congruence].
  - intros [[[Ht Hd] Hne]|Ht].
    + split_and!; [by left| |done]. intros E. apply Hne. by apply (map_NoDup_inj s_id (subnet db)).
    + split_and!; [by right| |by apply (kid_fields s p new_id)]. intros E.
      destruct (kid_id s p new_id t Ht) as [i Ei]. apply (Hfresh i). rewrite <- Ei, E. by apply list_elem_of_fmap_2.
Qed.

Lemma split_chain rows b l : chain db b l → chain (split_db rows) b l.
Proof. induction 1; [by apply chain_top|by eapply chain_step]. Qed.

Lemma split_tree_ok rows : tree_ok (split_db rows).
Proof.
  destruct (tree_rows db Hok) as (W1 & W2 & N1 & N2).
  destruct (tree_subnet_in db Hok s Hs) as (blk & Hblk & Eblk & Espace & Hin).
  assert (Hk : ∀ c, c ∈ kids → s_space c = s_space s ∧ s_block c = s_block s ∧ inside (s_network c) (s_network s)).
  { intros c Hc. destruct (kid_fields s p new_id c Hc) as (H1 & H2 & _).
    split_and!; [done..|]. by apply (kid_wf s p new_id Hw Hp). }
  split.
  - split_and!; [done| |done|]; simpl.
    + intros t [[Ht|Ht]%elem_of_app _]%elem_filter; [auto|]. by apply (kid_wf s p new_id Hw Hp).
    + eapply sublist_NoDup; [|apply (fmap_sublist s_id), filter_sublist]. rewrite fmap_app.
      apply NoDup_app. split_and!; [done| |by apply kid_ids].
      intros x Hx (c & -> & Hc)%list_elem_of_fmap. destruct (kid_id s p new_id c Hc) as [i Ei].
      apply (Hfresh i). by rewrite <- Ei.
  - intros b Hb. destruct (tree_rooted db Hok b Hb) as [l Hl]. exists l. by apply split_chain.
  - apply (tree_inside db Hok).
  - apply (tree_siblings db Hok).
  - intros t [[Ht _]|Ht]%elem_split_subnets; [by apply (tree_subnet_in db Hok)|].
    destruct (Hk t Ht) as (-> & -> & Hi). exists blk. split_and!; [done..|by transitivity (s_network s)].
  - intros t u [[Ht Hnt]|Ht]%elem_split_subnets [[Hu Hnu]|Hu]%elem_split_subnets E Hm.
    + by apply (tree_subnets db Hok).
    + exfalso. destruct (Hk u Hu) as (E2 & _ & Hi). apply Hnt. apply (tree_subnets db Hok); [done..|congruence|].
      by eapply meets_mono; [|exact Hi|exact Hm].
    + exfalso. destruct (Hk t Ht) as (E2 & _ & Hi). apply Hnu. apply (tree_subnets db Hok); [done..|congruence|].
      apply meets_sym. by eapply meets_mono; [exact Hi| |exact Hm].
    + by apply (kids_disjoint s p new_id Hw Hp).
  - intros t c [[Ht _]|Ht]%elem_split_subnets Hc E Hm; [by apply (tree_subnet_blocks db Hok t c)|].
    destruct (Hk t Ht) as (_ & E2 & Hi). apply (tree_subnet_blocks db Hok s c); [done..|congruence|].
    by eapply meets_mono; [exact Hi| |exact Hm].
Qed.
End split_tree.

(** ** Lemmas: the address rows *)
Lemma rows_of_app db id l : rows_of (set_addresses db (ip_address db ++ l)) id
  = rows_of db id ++ List.filter (λ r, bool_decide (i_subnet r = id)) l.
Proof. unfold rows_of. simpl. apply List.filter_app. Qed.

Lemma missing_rows_ext db db' id net user kind : rows_of db id = rows_of db' id →
  missing_rows db id net user kind = missing_rows db' id net user kind.
Proof. intros E. unfold missing_rows. by rewrite E. Qed.

Lemma missing_of_other db id id' net user kind : id ≠ id' →
  List.filter (λ r, bool_decide (i_subnet r = id')) (missing_rows db id net user kind) = [].
Proof.
  intros Hne. apply filter_none_elem. intros r (Hr & _)%elem_missing_rows.
  apply bool_decide_eq_false. congruence.
Qed.

(** Seeding the children adds to each the rows it misses. *)
Lemma seed_children_rows db kind user cs : NoDup (map s_id cs) →
  ip_address (seed_children db kind user cs)
  = ip_address db ++ mjoin (map (λ c, missing_rows db (s_id c) (s_network c) user kind) cs).
Proof.
  unfold seed_children. revert db. induction cs as [|c cs IH]; intros db Hn; simpl; [by rewrite app_nil_r|].
  apply NoDup_cons in Hn as [Hc Hn]. rewrite IH by done. simpl. rewrite <- app_assoc. do 2 f_equal.
  f_equal. apply map_ext_in. intros d Hd. apply missing_rows_ext. rewrite rows_of_app.
  rewrite missing_of_other, app_nil_r; [done|]. intros E. apply Hc. rewrite E. apply list_elem_of_fmap_2. by apply list_elem_of_In.
Qed.

Lemma seed_children_tables db kind user cs :
  ∃ rows, seed_children db kind user cs = set_addresses db rows.
Proof.
  unfold seed_children. revert db. induction cs as [|c cs IH]; intros db; simpl; [exists (ip_address db); by destruct db|].
  edestruct IH as [rows ->]. by exists rows.
Qed.

Lemma rows_of_missing db kind user cs c : NoDup (map s_id cs) → c ∈ cs →
  List.filter (λ r, bool_decide (i_subnet r = s_id c))
    (mjoin (map (λ c, missing_rows db (s_id c) (s_network c) user kind) cs))
  = missing_rows db (s_id c) (s_network c) user kind.
Proof.
  assert (Hself : ∀ d, List.filter (λ r, bool_decide (i_subnet r = s_id d))
     (missing_rows db (s_id d) (s_network d) user kind) = missing_rows db (s_id d) (s_network d) user kind).
  { intros d. apply filter_all, forallb_elem_iff. intros r (Hr & _)%elem_missing_rows. by apply bool_decide_eq_true. }
  induction cs as [|d cs IH]; intros Hn Hc; [by apply not_elem_of_nil in Hc|].
  apply NoDup_cons in Hn as [Hd Hn]. simpl. rewrite List.filter_app. apply elem_of_cons in Hc as [->|Hc].
  - rewrite Hself. rewrite filter_none_elem, app_nil_r; [done|].
    intros r (l & Hr & (e & -> & He)%list_elem_of_fmap)%list_elem_of_join.
    apply elem_missing_rows in Hr as (Hr & _). apply bool_decide_eq_false. intros E. apply Hd.
    rewrite <- E, Hr. by apply list_elem_of_fmap_2.
  - rewrite missing_of_other, IH; [done..|]. intros E. apply Hd. rewrite E. by apply list_elem_of_fmap_2.
Qed.

Lemma rows_of_seeded_child db kind user cs c : NoDup (map s_id cs) → c ∈ cs →
  rows_of (seed_children db kind user cs) (s_id c)
  = rows_of (set_addresses db (ip_address db ++ missing_rows db (s_id c) (s_network c) user kind)) (s_id c).
Proof.
  intros Hn Hc. rewrite rows_of_seeded. unfold rows_of at 1. rewrite seed_children_rows by done.
  rewrite List.filter_app, rows_of_missing by done. done.
Qed.

Lemma split_rows db st s p user new_id :
  ipam st = db → ip_address (ipam (r_state (apply_split st s p user new_id)))
  = ip_address (seed_children (migrate_rows (insert_subnets db (child_rows s new_id (_children_of (s_network s) p)))
      s (child_rows s new_id (_children_of (s_network s) p))) (s_kind s) user (child_rows s new_id (_children_of (s_network s) p))).
Proof.
  intros <-. unfold apply_split. simpl. unfold _update_block_utilization. rewrite utilization_rows.
  set (kids := child_rows _ _ _). set (db3 := seed_children _ _ _ _). generalize db3. clear db3.
  induction kids as [|c cs IH]; intros db3; simpl; [done|]. by rewrite IH.
Qed.

(** The row [r] under another subnet. *)
Definition moved (r : IPAddress) (id : str) : IPAddress :=
  mkIPAddress id (i_address r) (i_status r) (i_hostname r) (i_description r) (i_dns_record r) (i_created_by r).

(** A default placeholder at a boundary of the parent: seeded anew. *)
Definition reseeded (s : Subnet) (r : IPAddress) : Prop :=
  is_boundary (s_network s) "unicast" (i_address r) ∧ _is_default_placeholder r = true.

(** The database gives new rows ids no subnet has; rows refer to subnets. *)
Record ids_ok (db : Db) (new_id : nat → str) : Prop := {
  ids_inj i j : new_id i = new_id j → i = j;
  ids_fresh i : new_id i ∉ map s_id (subnet db);
  ids_fk r : r ∈ ip_address db → i_subnet r ∈ map s_id (subnet db);
}.

Section migrate.
Context (db : Db) (Hok : tree_ok db) (s : Subnet) (Hs : s ∈ live_subnets db) (p : Z) (new_id : nat → str).
Context (Hp : prefixlen (s_network s) < p ≤ max_prefixlen (ver (s_network s))) (Hid : ids_ok db new_id).
Context (Hin : ∀ r, r ∈ rows_of db (s_id s) → mem (s_network s) (i_address r)).
Local Abbreviation kids := (child_rows s new_id (_children_of (s_network s) p)).
Local Abbreviation Hw := (wf_live_subnet db Hok s Hs).
Local Definition db2 := migrate_rows (insert_subnets db kids) s kids.

Lemma migrate_row_spec r : mem (s_network s) (i_address r) →
  (reseeded s r ∧ migrate_row (s_network s) kids r = None)
  ∨ (¬ reseeded s r ∧ ∃ c, c ∈ kids ∧ mem (s_network c) (i_address r)
       ∧ migrate_row (s_network s) kids r = Some (moved r (s_id c))).
Proof.
  intros Ha. unfold migrate_row, reseeded. rewrite <- elem_boundary.
  destruct (bool_decide_reflect (i_address r ∈ boundary_addresses (s_network s) "unicast")) as [Hb|Hb];
    destruct (_is_default_placeholder r) eqn:Ed; simpl; [left; tauto|right..];
    (split; [intros [? ?]; congruence|]);
    destruct (kid_covers s p new_id Hw Hp (i_address r) Ha) as (c & Hc & Hm);
    exists c; rewrite (find_kid s p new_id Hw Hp (i_address r) c Hc Hm); done.
Qed.

Lemma elem_migrated r : r ∈ ip_address db2 ↔
  (r ∈ ip_address db ∧ i_subnet r ≠ s_id s)
  ∨ ∃ r0 c, r0 ∈ rows_of db (s_id s) ∧ ¬ reseeded s r0 ∧ c ∈ kids ∧ mem (s_network c) (i_address r0)
      ∧ r = moved r0 (s_id c).
Proof.
  unfold db2, migrate_rows. simpl. rewrite list_elem_of_omap. split.
  - intros (r0 & Hr0 & H). case_bool_decide as E; [right|injection H as ->; by left].
    assert (Hr : r0 ∈ rows_of db (s_id s)) by by apply elem_rows_of.
    destruct (migrate_row_spec r0 (Hin r0 Hr)) as [[_ H']|(Hn & c & Hc & Hm & H')]; [congruence|].
    exists r0, c. split_and!; try done. congruence.
  - intros [[Hr Hne]|(r0 & c & Hr & Hn & Hc & Hm & ->)].
    + exists r. by rewrite bool_decide_false.
    + exists r0. pose proof Hr as [Hr0 E]%elem_rows_of. rewrite bool_decide_true by done. split; [done|].
      destruct (migrate_row_spec r0 (Hin r0 Hr)) as [[H _]|(_ & d & Hd & Hm' & ->)]; [done|].
      rewrite (kids_disjoint s p new_id Hw Hp c d); [done..|]. by exists (i_address r0).
Qed.

Lemma kid_new c : c ∈ kids → s_id c ∉ map s_id (subnet db).
Proof. intros Hc. destruct (kid_id s p new_id c Hc) as [i ->]. apply Hid. Qed.

Lemma kid_not_parent c : c ∈ kids → s_id c ≠ s_id s.
Proof.
  intros Hc E. apply (kid_new c Hc). rewrite E. apply list_elem_of_fmap_2. by apply elem_live_subnets in Hs as [].
Qed.

(** Each child gets, of the parent's addresses, a part without repetitions. *)
Lemma migrated_addresses c : c ∈ kids →
  map i_address (rows_of db2 (s_id c)) `sublist_of` map i_address (rows_of db (s_id s)).
Proof.
  intros Hc. pose proof (ids_fk db new_id Hid) as Hfk. unfold rows_of, db2, migrate_rows. simpl.
  induction (ip_address db) as [|r rows IH]; [constructor|].
  assert (Hr : ∀ r0, r0 ∈ rows → i_subnet r0 ∈ map s_id (subnet db)) by (intros; apply Hfk; by right).
  specialize (IH Hr). simpl. case_bool_decide as E.
  - destruct (migrate_row (s_network s) kids r) as [r'|] eqn:Em; simpl; [|by apply sublist_cons].
    assert (Ea : i_address r' = i_address r).
    { unfold migrate_row in Em. destruct (_ && _); [done|]. destruct (List.find _ _); by injection Em as <-. }
    destruct (bool_decide (i_subnet r' = s_id c)); simpl; [|by apply sublist_cons]. rewrite Ea. by apply sublist_skip.
  - simpl. rewrite bool_decide_false; [done|]. intros E'. apply (kid_new c Hc). rewrite <- E'. apply Hfk. left.
Qed.
End migrate.

(** ** Lemmas: the scopes *)
Lemma bound_scope st parent child scs b n m id : 
  (foldl (bind_scope st parent child) (b, n, m) scs).1.1 = Some id →
  b = Some id ∨ ∃ sc, sc ∈ scs ∧ sc_id sc = id
    ∧ (if is_empty_scope st sc then _ip_in child (network_address parent) = true else fits st child sc = true).
Proof.
  revert b n m. induction scs as [|sc scs IH]; intros b n m H; cbn [foldl] in H; [by left|].
  assert (G : ∀ b' n' m', bind_scope st parent child (b, n, m) sc = (b', n', m') →
    b' = b ∨ b' = Some (sc_id sc)
      ∧ (if is_empty_scope st sc then _ip_in child (network_address parent) = true else fits st child sc = true)).
  { intros b' n' m'. unfold bind_scope. destruct (is_empty_scope st sc).
    - destruct (_ip_in child (network_address parent)); simpl; [|intros [= <- <- <-]; auto].
      case_bool_decide; intros [= <- <- <-]; auto.
    - destruct (fits st child sc); [|intros [= <- <- <-]; auto]. destruct b; intros [= <- <- <-]; auto. }
  destruct (bind_scope st parent child (b, n, m) sc) as [[b1 n1] m1] eqn:E. destruct (G _ _ _ eq_refl) as [->|[-> Hsc]].
  - apply IH in H as [H|(sc' & Hin & H)]; [by left|]. right. exists sc'. split; [by right|done].
  - apply IH in H as [[= <-]|(sc' & Hin & H)]; right; [exists sc|exists sc']; (split; [|done]); [left|by right].
Qed.

Lemma scope_fits st s children_nets sc : NoDup (map sc_id (dhcp_scope st)) → sc ∈ scopes_of st (s_id s) →
  is_empty_scope st sc = false →
  scope_conflicts st (map (child_preview st s (s_network s)) children_nets) sc = [] →
  ∃ n, n ∈ children_nets ∧ fits st n sc = true.
Proof.
  intros Hn Hsc He. unfold scope_conflicts. rewrite He. set (matching := List.filter _ _).
  destruct matching as [|c m] eqn:Em; [done|]. intros _.
  assert (Hc : c ∈ matching) by (rewrite Em; left). unfold matching in Hc.
  apply elem_filter in Hc as [(n & -> & Hnn)%list_elem_of_fmap Hb%bool_decide_eq_true].
  exists n. split; [done|]. unfold child_preview in Hb.
  pose proof (bound_scope st (s_network s) n (scopes_of st (s_id s)) None 0 0 (sc_id sc)) as Hbs.
  destruct (foldl _ _ _) as [[b k] l]. simpl in *.
  destruct (Hbs Hb) as [[=]|(sc' & Hin & Eid & Hf)].
  assert (sc' = sc) as ->; [|by rewrite He in Hf].
  apply elem_filter in Hin as [Hin _], Hsc as [Hsc _]. by apply (map_NoDup_inj sc_id (dhcp_scope st)).
Qed.

(** ** Lemmas: the commit *)
Lemma validate_split_Ok parent p u : _validate_split parent p = Ok u →
  prefixlen parent < p ≤ max_prefixlen (ver parent).
Proof.
  unfold _validate_split. destruct (Z.leb_spec p (prefixlen parent)); [done|].
  case_bool_decide as E; intros Hle%raise_if_Ok%Z.ltb_ge; [rewrite E; simpl; lia|].
  destruct (ver parent); [done|simpl; lia].
Qed.

Lemma commit_split_Ok st locked s p confirm user new_id res :
  commit_subnet_split st locked s p confirm user new_id = Ok res →
  locked = true ∧ prefixlen (s_network s) < p ≤ max_prefixlen (ver (s_network s))
  ∧ confirm = Canonical (s_network s) ∧ res = apply_split st s p user new_id
  ∧ (∀ sc, sc ∈ scopes_of st (s_id s) →
       scope_conflicts st (map (child_preview st s (s_network s)) (_children_of (s_network s) p)) sc = [])
  ∧ split_host_conflicts st s (_children_of (s_network s) p) = [].
Proof.
  unfold commit_subnet_split. intros (u & Hl%raise_if_Ok%negb_false_iff & H)%bind_Ok.
  apply bind_Ok in H as (u1 & Hv & H). apply bind_Ok in H as (u2 & Hc & H).
  apply raise_if_Ok, negb_false_iff, bool_decide_eq_true in Hc.
  apply bind_Ok in H as (pv & Hpv & H). apply bind_Ok in H as (u3 & Hcs & [= <-]).
  unfold preview_subnet_split in Hpv. rewrite Hv in Hpv. injection Hpv as <-. cbn [snd] in Hcs.
  destruct (_ ++ _) eqn:E in Hcs; [|done]. apply app_nil in E as [E1 E2].
  split_and!; [done|by apply (validate_split_Ok _ _ u1)..|done|done| |].
  - intros sc Hsc. apply elem_of_nil_inv. intros x Hx. apply (not_elem_of_nil (A:=SplitConflict) x). rewrite <- E1.
    apply list_elem_of_join. eexists. split; [exact Hx|]. by apply list_elem_of_fmap_2.
  - by destruct (split_host_conflicts _ _ _).
Qed.

Lemma split_tables st s p user new_id : ∃ f g rows, keeps f ∧ (∀ b, b_network (f b) = b_network b)
  ∧ keeps_subnet g ∧ (∀ t, s_network (g t) = s_network t)
  ∧ ipam (r_state (apply_split st s p user new_id))
    = update_blocks f (update_subnets g (split_db (ipam st) s p new_id rows)).
Proof.
  unfold apply_split. simpl. set (kids := child_rows _ _ _). set (db2 := migrate_rows _ _ _).
  destruct (seed_children_tables db2 (s_kind s) user kids) as [rows ->].
  assert (E : ∀ db cs, foldl (λ db c, _update_utilization db (s_id c)) db cs = foldl _update_utilization db (map s_id cs)).
  { intros db cs. revert db. induction cs as [|c cs IH]; intros db; simpl; [done|]. apply IH. }
  rewrite E. destruct (subnet_recounts_counts (set_addresses db2 rows) (map s_id kids)) as (g & Hg & Hgn & ->).
  unfold _update_block_utilization.
  edestruct (block_recount_counts (update_subnets g (set_addresses db2 rows)) [s_block s]) as (f & Hf & Hfn & ->).
  exists f, g, rows. split_and!; [done..|]. unfold split_db, delete_subnet, update_blocks, update_subnets. simpl.
  f_equal. rewrite filter_map. f_equal. apply filter_ext_eq. intros t. by destruct (Hg t) as (-> & _).
Qed.

(** The subnet table after a split: the children, counted, in the parent's
    place. *)
Lemma split_subnets st s p user new_id : (∀ i, new_id i ∉ map s_id (subnet (ipam st))) → s ∈ subnet (ipam st) →
  let res := apply_split st s p user new_id in
  subnet (ipam (r_state res)) = List.filter (λ t, negb (bool_decide (s_id t = s_id s))) (subnet (ipam st))
    ++ map (λ c, set_allocated c (count_of (ipam (r_state res)) (s_id c))) (r_children res).
Proof.
  intros Hfr Hs. unfold apply_split. cbn [r_state r_children ipam]. set (kids := child_rows _ _ _). set (db2 := migrate_rows _ _ _).
  assert (Hkid : ∀ c, c ∈ kids → ∃ i, s_id c = new_id i ∧ s_deleted c = false).
  { intros c Hc. destruct (kid_id s p new_id c Hc) as [i Hi]. exists i. split; [done|]. by apply (kid_fields s p new_id). }
  destruct (seed_children_tables db2 (s_kind s) user kids) as [rows ->]. set (db3 := set_addresses db2 rows).
  assert (E : ∀ db cs, foldl (λ db c, _update_utilization db (s_id c)) db cs = foldl _update_utilization db (map s_id cs)).
  { intros db cs. revert db. induction cs as [|c cs IH]; intros db; simpl; [done|]. apply IH. }
  rewrite E, subnet_recounts_exact. unfold _update_block_utilization.
  edestruct (block_recount_counts (_update_subnets_utilization db3 (map s_id kids) false) [s_block s]) as (f & _ & _ & ->).
  unfold _update_subnets_utilization. set (g := λ t, if _ : bool then _ else _). cbn [delete_subnet update_blocks update_subnets subnet].
  change (subnet db3) with (subnet (ipam st) ++ kids). rewrite map_app, List.filter_app. f_equal.
  - f_equal. rewrite <- (List.map_id (subnet (ipam st))) at 2. apply map_ext_in. intros t Ht%list_elem_of_In. unfold g.
    rewrite bool_decide_false; [done|]. intros (c & Ec & Hc)%list_elem_of_fmap. destruct (Hkid c Hc) as (i & Hi & _). apply (Hfr i).
    rewrite <- Hi, <- Ec. by apply list_elem_of_fmap_2.
  - rewrite filter_all.
    + apply map_ext_in. intros c Hc%list_elem_of_In. unfold g. destruct (Hkid c Hc) as (_ & _ & ->).
      rewrite bool_decide_true by (by apply list_elem_of_fmap_2). reflexivity.
    + apply forallb_elem_iff. intros t (c & -> & Hc)%list_elem_of_fmap. unfold g. destruct (Hkid c Hc) as (i & Hi & ->).
      rewrite (bool_decide_true (s_id c ∈ _)) by (by apply list_elem_of_fmap_2). cbn. rewrite Hi. apply negb_true_iff, bool_decide_eq_false.
      intros Ei. apply (Hfr i). rewrite Ei. by apply list_elem_of_fmap_2.
Qed.

(** 10.0.0.0/24 with two hosts, split under two scopes. *)
Definition net (a p : Z) : IPNetwork := mkNet V4 (167772160 + a) p.
Definition addr (a : Z) : IPAddr := mkAddr V4 (167772160 + a).
Definition parent_row : Subnet := mkSubnet "s" "sp" "b" (net 0 24) "unicast" (Some (addr 1)) 254 2 false.
Definition host (a : Z) (status : str) : IPAddress := mkIPAddress "s" (addr a) status None [] None None.
Definition split_sample (pools : list DHCPPool) : State :=
  mkState (mkDb [mkBlock "b" "sp" None (net 0 22) 4 1024 false] [parent_row]
             [host 0 "network"; host 255 "broadcast"; host 10 "allocated"; host 200 "reserved"])
    [mkScope "x" "g1" "s"; mkScope "y" "g2" "s"] pools [] [mkDomain "s" "z" true].
Definition sample_pools : list DHCPPool :=
  [mkPool "x" (addr 20) (addr 30); mkPool "y" (addr 150) (addr 160)].
Definition sample_id (i : nat) : str := replicate (S i) "c"%char.

Lemma split_sample_tree pools : tree_ok (ipam (split_sample pools)).
Proof. apply tree_okb_sound. vm_compute. reflexivity. Qed.

Lemma sample_ids pools : ids_ok (ipam (split_sample pools)) sample_id.
Proof.
  split.
  - intros i j E. apply (f_equal length) in E. unfold sample_id in E. rewrite !length_replicate in E. lia.
  - intros i H. apply list_elem_of_singleton in H. unfold sample_id in H. simpl in H. injection H. discriminate.
  - intros r Hr. simpl in *. repeat (apply elem_of_cons in Hr as [->|Hr]); [simpl; left..|by apply not_elem_of_nil in Hr].
Qed.

(** ** Claims *)

(** C28 -- what a split leaves in the subnet table: the children are the aligned
    networks of the new prefix, in order, of the parent's space, block and kind,
    live and under new ids; every address of the parent lies in exactly one of
    them.  The table afterwards holds exactly the rows it held before but for
    the parent, each as it was (those in the Trash too), and the children, each
    with the count of its addresses; and the tree stays well-formed. *)
Theorem split_keeps_tree (st : State) (locked : bool) (s : Subnet) (p : Z) (confirm : cidr_text)
    (user : option str) (new_id : nat → str) (res : SubnetSplitResult) :
  tree_ok (ipam st) → s ∈ live_subnets (ipam st) → ids_ok (ipam st) new_id →
  commit_subnet_split st locked s p confirm user new_id = Ok res →
  let db' := ipam (r_state res) in
  map s_network (r_children res) = subnets (s_network s) p
  ∧ (∀ c, c ∈ r_children res → s_space c = s_space s ∧ s_block c = s_block s ∧ s_kind c = s_kind s ∧ s_deleted c = false
       ∧ s_id c ∉ map s_id (subnet (ipam st)))
  ∧ (∀ a, mem (s_network s) a → ∃ c, c ∈ r_children res ∧ mem (s_network c) a
       ∧ ∀ d, d ∈ r_children res → mem (s_network d) a → d = c)
  ∧ (∀ t, t ∈ subnet db' ↔ (t ∈ subnet (ipam st) ∧ s_id t ≠ s_id s)
       ∨ ∃ c, c ∈ r_children res ∧ t = set_allocated c (count_of db' (s_id c)))
  ∧ tree_ok db'.
Proof.
  intros Hok Hs Hid (_ & Hp & _ & -> & _)%commit_split_Ok. pose proof (wf_live_subnet _ Hok s Hs) as Hw.
  pose proof (ids_fresh _ _ Hid) as Hfr. pose proof Hs as [Hs' _]%elem_live_subnets. cbv zeta. split_and!.
  - apply kids_networks.
  - intros c Hc. destruct (kid_fields s p new_id c Hc) as (? & ? & ? & ?). destruct (kid_id s p new_id c Hc) as [i ->]. by split_and!.
  - intros a Ha. destruct (kid_covers s p new_id Hw Hp a Ha) as (c & Hc & Hm). exists c. split_and!; [done..|].
    intros d Hd Hm'. apply (kids_disjoint s p new_id Hw Hp); [done..|by exists a].
  - intros t. rewrite split_subnets at 1 by done. rewrite elem_of_app, elem_filter, negb_true_iff, bool_decide_eq_false.
    rewrite list_elem_of_fmap. naive_solver.
  - destruct (split_tables st s p user new_id) as (f & g & rows & Hf & Hfn & Hg & Hgn & E). rewrite E.
    apply tree_update_blocks; [done..|]. apply tree_update_subnets; [done..|].
    by apply (split_tree_ok (ipam st) Hok s Hs p new_id Hp (ids_inj _ _ Hid) Hfr).
Qed.

Lemma split_keeps_tree_witness :
  ∃ res, commit_subnet_split (split_sample sample_pools) true parent_row 25 (Canonical (net 0 24)) None sample_id = Ok res
    ∧ tree_ok (ipam (r_state res)).
Proof.
  eexists. split; [vm_compute; reflexivity|].
  eapply (split_keeps_tree (split_sample sample_pools) true parent_row 25 (Canonical (net 0 24)) None sample_id).
  - apply split_sample_tree.
  - apply (bool_decide_unpack _). vm_compute. exact I.
  - apply sample_ids.
  - vm_compute. reflexivity.
Defined.

(** No address is lost in a split: afterwards no row refers to the
    parent; rows of other subnets stay; a row of the parent is now the same row
    of the child that contains it, unless it was a default placeholder at a
    boundary of the parent; the other rows are placeholders at a child's
    boundary; each child holds its own boundary addresses, and no two of its
    rows share an address. *)
Theorem split_rows_follow (st : State) (locked : bool) (s : Subnet) (p : Z) (confirm : cidr_text)
    (user : option str) (new_id : nat → str) (res : SubnetSplitResult) :
  tree_ok (ipam st) → s ∈ live_subnets (ipam st) → ids_ok (ipam st) new_id →
  (∀ r, r ∈ rows_of (ipam st) (s_id s) → mem (s_network s) (i_address r)) →
  NoDup (map i_address (rows_of (ipam st) (s_id s))) →
  commit_subnet_split st locked s p confirm user new_id = Ok res →
  let rows := ip_address (ipam (r_state res)) in
  (∀ r, r ∈ rows → i_subnet r ≠ s_id s)
  ∧ (∀ r, r ∈ ip_address (ipam st) → i_subnet r ≠ s_id s → r ∈ rows)
  ∧ (∀ r, r ∈ rows_of (ipam st) (s_id s) → reseeded s r
       ∨ ∃ c, c ∈ r_children res ∧ mem (s_network c) (i_address r) ∧ moved r (s_id c) ∈ rows)
  ∧ (∀ r, r ∈ rows → (r ∈ ip_address (ipam st) ∧ i_subnet r ≠ s_id s)
       ∨ (∃ r0 c, r0 ∈ rows_of (ipam st) (s_id s) ∧ c ∈ r_children res ∧ mem (s_network c) (i_address r0)
            ∧ r = moved r0 (s_id c))
       ∨ ∃ c, c ∈ r_children res ∧ i_subnet r = s_id c ∧ is_placeholder (i_status r) = true
            ∧ is_boundary (s_network c) (s_kind s) (i_address r))
  ∧ (∀ c, c ∈ r_children res → NoDup (map i_address (rows_of (ipam (r_state res)) (s_id c)))
       ∧ ∀ a, is_boundary (s_network c) (s_kind s) a → a ∈ map i_address (rows_of (ipam (r_state res)) (s_id c))).
Proof.
  intros Hok Hs Hid Hin Hnd (_ & Hp & _ & -> & _)%commit_split_Ok.
  pose proof (wf_live_subnet _ Hok s Hs) as Hw. cbv zeta.
  pose proof (split_rows (ipam st) st s p user new_id eq_refl) as Hrows.
  assert (Hro : ∀ id, rows_of (ipam (r_state (apply_split st s p user new_id))) id = rows_of (seed_children _ _ _ _) id)
    by (intros id; unfold rows_of; rewrite Hrows; reflexivity).
  setoid_rewrite Hro. rewrite Hrows. clear Hro Hrows. cbn [r_children apply_split].
  set (kids := child_rows s new_id (_children_of (s_network s) p)).
  set (d2 := migrate_rows (insert_subnets (ipam st) kids) s kids).
  pose proof (elem_migrated (ipam st) Hok s Hs p new_id Hp Hin) as Hm. fold kids in Hm.
  change (db2 (ipam st) s p new_id) with d2 in Hm.
  assert (Hk : NoDup (map s_id kids)) by (apply kid_ids, Hid).
  assert (Hrow : ∀ r, r ∈ ip_address (seed_children d2 (s_kind s) user kids) ↔ r ∈ ip_address d2
                   ∨ ∃ c, c ∈ kids ∧ r ∈ missing_rows d2 (s_id c) (s_network c) user (s_kind s)).
  { intros r. rewrite seed_children_rows, elem_of_app, list_elem_of_join by done. split.
    - intros [H|(l & Hr & (c & -> & Hc)%list_elem_of_fmap)]; [by left|right; by exists c].
    - intros [H|(c & Hc & Hr)]; [by left|right; eexists; split; [exact Hr|by apply list_elem_of_fmap; exists c]]. }
  assert (Hnew : ∀ c, c ∈ kids → s_id c ≠ s_id s) by (intros c; by apply (kid_not_parent (ipam st) s Hs p new_id Hid)).
  split_and!.
  - intros r [[[_ H]|(r0 & c & _ & _ & Hc & _ & ->)]%Hm|(c & Hc & (-> & _)%elem_missing_rows)]%Hrow; [done|by apply Hnew..].
  - intros r Hr Hne. apply Hrow. left. apply Hm. by left.
  - intros r Hr. destruct (migrate_row_spec (ipam st) Hok s Hs p new_id Hp r (Hin r Hr)) as [[H _]|(H & c & Hc & Hmc & _)];
      [by left|right]. exists c. split_and!; [done..|]. apply Hrow. left. apply Hm. right. by exists r, c.
  - intros r [[H|(r0 & c & H1 & _ & H2 & H3 & ->)]%Hm|(c & Hc & (H1 & H2 & H3 & _)%elem_missing_rows)]%Hrow;
      [by left|right; left; by exists r0, c|right; right]. exists c. by rewrite elem_boundary in H3.
  - intros c Hc. rewrite rows_of_seeded_child by done. split.
    + apply seeded_NoDup; [by apply (kid_wf s p new_id Hw Hp)|]. eapply sublist_NoDup; [exact Hnd|].
      by apply (migrated_addresses (ipam st) s p new_id Hid).
    + intros a. apply seeded_cover.
Qed.

Lemma split_rows_follow_witness :
  ∃ res, commit_subnet_split (split_sample sample_pools) true parent_row 25 (Canonical (net 0 24)) None sample_id = Ok res
    ∧ ∀ r, r ∈ ip_address (ipam (r_state res)) → i_subnet r ≠ "s".
Proof.
  eexists. split; [vm_compute; reflexivity|].
  eapply (split_rows_follow (split_sample sample_pools) true parent_row 25 (Canonical (net 0 24)) None sample_id).
  - apply split_sample_tree.
  - apply (bool_decide_unpack _). vm_compute. exact I.
  - apply sample_ids.
  - apply Forall_forall. change (rows_of _ _) with (ip_address (ipam (split_sample sample_pools))).
    apply (bool_decide_unpack _). vm_compute. exact I.
  - apply (bool_decide_unpack _). vm_compute. exact I.
  - vm_compute. reflexivity.
Defined.

(** No scope is sliced: after a split every scope of the parent is bound
    to one child, which holds all its ranges and reservations (an empty scope
    goes to the child with the parent's network address); ids, groups and the
    scopes of other subnets are as before. *)
Theorem split_scopes_whole (st : State) (locked : bool) (s : Subnet) (p : Z) (confirm : cidr_text)
    (user : option str) (new_id : nat → str) (res : SubnetSplitResult) :
  tree_ok (ipam st) → s ∈ live_subnets (ipam st) → NoDup (map sc_id (dhcp_scope st)) →
  commit_subnet_split st locked s p confirm user new_id = Ok res →
  (∀ sc, sc ∈ dhcp_scope st → sc_subnet sc ≠ s_id s → sc ∈ dhcp_scope (r_state res))
  ∧ (∀ sc, sc ∈ scopes_of st (s_id s) → ∃ c, c ∈ r_children res
       ∧ mkScope (sc_id sc) (sc_group sc) (s_id c) ∈ dhcp_scope (r_state res)
       ∧ (if is_empty_scope st sc then mem (s_network c) (network_address (s_network s))
          else (∀ q, q ∈ pools_of st sc → mem (s_network c) (start_ip q) ∧ mem (s_network c) (end_ip q))
               ∧ ∀ a, a ∈ statics_of st sc → mem (s_network c) (st_ip a))
       ∧ sc_group sc ∈ affected_groups res).
Proof.
  intros Hok Hs Hn (_ & Hp & _ & -> & Hc & _)%commit_split_Ok. pose proof (wf_live_subnet _ Hok s Hs) as Hw.
  cbn [r_children r_state dhcp_scope affected_groups apply_split].
  set (kids := child_rows s new_id (_children_of (s_network s) p)) in *. split.
  - intros sc Hsc Hne. apply list_elem_of_fmap. exists sc. split; [|done].
    unfold rebind_scope. by rewrite bool_decide_false.
  - intros sc Hsc. pose proof Hsc as [Hsc' Es%bool_decide_eq_true]%elem_filter.
    assert (Ht : ∃ c, c ∈ kids ∧ target_child st (s_network s) kids sc = Some (s_id c)
      ∧ (if is_empty_scope st sc then mem (s_network c) (network_address (s_network s))
         else fits st (s_network c) sc = true)).
    { unfold target_child. destruct (is_empty_scope st sc) eqn:He; [|].
      - destruct (List.find (λ c, fits st (s_network c) sc && negb true) kids) as [c|] eqn:E.
        { apply List.find_some in E as [_ E]. by rewrite andb_false_r in E. }
        destruct (kid_covers s p new_id Hw Hp _ (mem_network_address _ Hw)) as (c & Hck & Hm).
        exists c. pose proof (find_kid s p new_id Hw Hp _ c Hck Hm) as Hfk. fold kids in Hfk. by rewrite Hfk.
      - destruct (scope_fits st s (_children_of (s_network s) p) sc Hn Hsc He (Hc sc Hsc)) as (n & Hnn & Hf).
        destruct (List.find (λ c, fits st (s_network c) sc && negb false) kids) as [c|] eqn:E.
        + apply List.find_some in E as [Hck E]. apply list_elem_of_In in Hck. exists c.
          rewrite andb_true_r in E. done.
        + exfalso. rewrite <- (kids_networks s p new_id) in Hnn. apply list_elem_of_fmap in Hnn as (c & -> & Hck).
          apply list_elem_of_In in Hck. pose proof (List.find_none _ _ E c Hck) as H. cbv beta in H. by rewrite Hf in H. }
    destruct Ht as (c & Hck & Ht & Hcase). exists c. split_and!; [done| | |].
    + apply list_elem_of_fmap. exists sc. split; [|done]. unfold rebind_scope. by rewrite bool_decide_true, Ht.
    + destruct (kid_wf s p new_id Hw Hp c Hck) as [Hwc _]. destruct (is_empty_scope st sc); [done|].
      unfold fits in Hcase. apply andb_true_iff in Hcase as [H1 H2]. rewrite forallb_elem_iff in H1; rewrite forallb_elem_iff in H2. split.
      * intros q Hq. specialize (H1 q Hq). cbv beta in H1. apply andb_true_iff in H1 as [H3 H4].
        by split; apply contains_mem.
      * intros a Ha. by apply contains_mem, H2.
    + apply list_elem_of_fmap_2, elem_filter. by rewrite Ht.
Qed.

Lemma split_scopes_whole_witness :
  ∃ res, commit_subnet_split (split_sample sample_pools) true parent_row 25 (Canonical (net 0 24)) None sample_id = Ok res
    ∧ ∃ c, c ∈ r_children res ∧ mkScope "y" "g2" (s_id c) ∈ dhcp_scope (r_state res).
Proof.
  eexists. split; [vm_compute; reflexivity|].
  edestruct (split_scopes_whole (split_sample sample_pools) true parent_row 25 (Canonical (net 0 24)) None sample_id)
    as [_ H].
  - apply split_sample_tree.
  - apply (bool_decide_unpack _). vm_compute. exact I.
  - apply (bool_decide_unpack _). vm_compute. exact I.
  - vm_compute. reflexivity.
  - destruct (H (mkScope "y" "g2" "s")) as (c & H1 & H2 & _).
    + apply elem_filter. split; [right; left|reflexivity].
    + exists c. split; [exact H1|exact H2].
Defined.

(** Two scopes that both lie in the first child: allowed by the comment of the
    preview, reported as straddling a boundary. *)
Example split_two_scopes_refused :
  let st := split_sample [mkPool "x" (addr 20) (addr 30); mkPool "y" (addr 40) (addr 50)] in
  fits st (net 0 25) (mkScope "y" "g2" "s") = true
  ∧ (snd <$> preview_subnet_split st parent_row 25) = Ok [StraddlesBoundary "y"].
Proof. vm_compute. auto. Qed.

(** The block is recounted while the parent is still there: its counter holds
    the parent and the children, until something recounts it again. *)
Example split_counts_twice :
  let blocks db := map b_allocated_ips (ip_block db) in
  ∃ res, commit_subnet_split (split_sample sample_pools) true parent_row 25 (Canonical (net 0 24)) None sample_id = Ok res
    ∧ blocks (ipam (r_state res)) = [10]
    ∧ blocks (_update_block_utilization (ipam (r_state res)) "b") = [6].
Proof. eexists. split; [vm_compute; reflexivity|]. vm_compute. auto. Qed.
End SubnetSplit.
