(* ===== verification/SubnetMerge.v ===== *)
(** * Merging subnets

    [backend/app/services/ipam/subnet_merge.py]: adjacent subnets of one block
    replaced by the one network they make up; their address rows, the one DHCP
    scope and the zone bindings move to it.  Columns outside [Ipam.Subnet] are
    read through [attr] (subnet id and column name to the value's text, [None]
    for NULL); they are compared, never written.  The warning texts and the DHCP
    bundle rebuild are not modelled.  [State] is that of [SubnetSplit]. *)
From S2P Require Import Prelude PyStr IpNet IpCollapse Ipam SubnetBoundary Utilization SubnetSplit.

Module SubnetMerge.
Import Ipam IpCollapse SubnetBoundary Utilization.
Import SubnetSplit(State, mkState, ipam, dhcp_scope, dhcp_pool, dhcp_static, subnet_domain, DHCPScope, mkScope,
  sc_id, sc_group, sc_subnet, SubnetDomain, mkDomain, sd_subnet, sd_zone, sd_primary, insert_subnets, moved).
Local Open Scope Z_scope.

Inductive MergeConflict :=
| NotFound (id : str)
| TooFewSubnets
| BlockMismatch
| FamilyMismatch
| NonContiguous
| MetadataMismatch (column : str)
| HostOnMergedBoundary (h : host_conflict)
| MultipleScopes (n : nat).

Inductive MergeError :=
| InProgress
| ConfirmMismatch
| Blocked (cs : list MergeConflict).

Definition status_code (e : MergeError) : Z :=
  match e with InProgress => 423 | ConfirmMismatch => 422 | Blocked _ => 409 end.

Definition _is_default_gateway_row (r : IPAddress) : bool :=
  bool_decide (i_status r = "reserved") && bool_decide (i_hostname r = Some ("gateway" : str))
  && bool_decide (i_description r = "Gateway") && bool_decide (i_dns_record r = None).

Definition get_subnet (db : Db) (id : str) : option Subnet :=
  List.find (λ s, bool_decide (s_id s = id)) (live_subnets db).

(** [[target] + siblings], duplicates dropped; a missing one ends the load. *)
Fixpoint load_siblings (db : Db) (out : list Subnet) (ids : list str) : result MergeConflict (list Subnet) :=
  match ids with
  | [] => Ok out
  | sid :: rest =>
      if bool_decide (sid ∈ map s_id out) then load_siblings db out rest
      else match get_subnet db sid with
           | None => Err (NotFound sid)
           | Some s => load_siblings db (out ++ [s]) rest
           end
  end.

Definition _load_sources (db : Db) (target : Subnet) (sibling_ids : list str) : result MergeConflict (list Subnet) :=
  load_siblings db [target] sibling_ids.

(** ** Metadata *)
Definition fields_to_check : list str :=
  ["vlan_id" : str; "vlan_ref_id" : str; "dns_zone_id" : str; "dhcp_server_group_id" : str; "ddns_enabled" : str;
   "ddns_hostname_policy" : str; "ddns_domain_override" : str; "ddns_ttl" : str; "ddns_inherit_settings" : str;
   "dns_inherit_settings" : str; "dhcp_inherit_settings" : str; "status" : str; "router_zone_id" : str].

Definition HARD_MERGE_COLUMNS : list str := ["kind" : str; "customer_id" : str; "site_id" : str].

Definition getattr (attr : str → str → option str) (s : Subnet) (column : str) : option str :=
  if bool_decide (column = "kind") then Some (s_kind s) else attr (s_id s) column.

Definition _all_eq (attr : str → str → option str) (sources : list Subnet) (column : str) : bool :=
  let values := map (λ s, getattr attr s column) sources in
  if forallb (λ v, bool_decide (v = None)) values then true
  else forallb (λ v, bool_decide (Some v = head values)) values.

Definition _check_metadata_compat (attr : str → str → option str) (sources : list Subnet) : list MergeConflict :=
  if (length sources <? 2)%nat then []
  else map MetadataMismatch (List.filter (λ c, negb (_all_eq attr sources c)) fields_to_check).

Definition carry_conflicts (attr : str → str → option str) (sources : list Subnet) : list MergeConflict :=
  map MetadataMismatch (List.filter (λ c, negb (bool_decide
    (length (remove_dups (map (λ s, getattr attr s c) sources)) ≤ 1)%nat)) HARD_MERGE_COLUMNS).

(** ** The merged network *)
Definition _summarise_or_none (nets : list IPNetwork) : option IPNetwork :=
  match nets with
  | [] => None
  | _ =>
      match collapse_addresses nets with
      | [n] => if total nets =? num_addresses n then Some n else None
      | _ => None
      end
  end.

(** ** Gateways *)

(** The dict [gateways]: each gateway with the first source that has it. *)
Definition add_gateway (gws : list (IPAddr * Subnet)) (src : Subnet) : list (IPAddr * Subnet) :=
  match s_gateway src with
  | Some gw => if bool_decide (gw ∈ map fst gws) then gws else gws ++ [(gw, src)]
  | None => gws
  end.

Definition gateways_of (sources : list Subnet) : list (IPAddr * Subnet) := foldl add_gateway [] sources.

(** The dict [by_addr]: a later row wins. *)
Definition by_addr (rows : list IPAddress) (a : IPAddr) : option IPAddress :=
  last (List.filter (λ r, bool_decide (i_address r = a)) rows).

Definition retires (rows : list IPAddress) (gw : IPAddr) (src : Subnet) : bool :=
  match by_addr rows gw with
  | Some row =>
      bool_decide (i_subnet row = s_id src)
      && bool_decide (gw = mkAddr (ver (s_network src)) (base (s_network src) + 1))
      && _is_default_gateway_row row
  | None => false
  end.

Definition _gateway_plan (sources : list Subnet) (merged : IPNetwork) (rows : list IPAddress)
    : option IPAddr * list IPAddr :=
  let gateways := gateways_of sources in
  let in_merged := List.filter (λ gw, contains merged gw) (map fst gateways) in
  if (length gateways =? 1)%nat then (head in_merged, [])
  else if bool_decide (gateways = [])
          || negb (match sources with s :: _ => has_boundary_rows merged (s_kind s) | [] => false end)
  then (None, [])
  else
    let create_gw := mkAddr (ver merged) (base merged + 1) in
    if negb (bool_decide (create_gw ∈ in_merged)) then (None, [])
    else (Some create_gw,
          map fst (List.filter (λ '(gw, src), negb (bool_decide (gw = create_gw)) && retires rows gw src) gateways)).

(** ** Preview *)
Record SubnetMergePreview := mkPreview {
  merged_cidr : option IPNetwork;
  source_ids : list str;
  surviving_dhcp_scope_id : option str;
  conflicts : list MergeConflict;
}.

Definition rows_of_sources (db : Db) (sources : list Subnet) : list IPAddress :=
  List.filter (λ r, bool_decide (i_subnet r ∈ map s_id sources)) (ip_address db).

Definition merge_host_conflicts (db : Db) (sources : list Subnet) (merged : IPNetwork) : list host_conflict :=
  let already := ⋃ map (λ src, boundary_addresses (s_network src) (s_kind src)) sources in
  boundary_host_conflicts (rows_of_sources db sources) [merged]
    (match sources with s :: _ => s_kind s | [] => [] end) already.

Definition scopes_of_sources (st : State) (sources : list Subnet) : list DHCPScope :=
  List.filter (λ sc, bool_decide (sc_subnet sc ∈ map s_id sources)) (dhcp_scope st).

Definition preview_subnet_merge (st : State) (attr : str → str → option str) (target : Subnet)
    (sibling_ids : list str) : SubnetMergePreview :=
  match _load_sources (ipam st) target sibling_ids with
  | Err c => mkPreview None [s_id target] None [c]
  | Ok sources =>
      if (length sources <? 2)%nat then mkPreview None (map s_id sources) None [TooFewSubnets]
      else
        let block := if forallb (λ s, bool_decide (s_block s = s_block target)) sources then [] else [BlockMismatch] in
        let one_family := forallb (λ s, bool_decide (ver (s_network s) = ver (s_network target))) sources in
        let merged := if one_family then _summarise_or_none (map s_network sources) else None in
        let shape := if one_family then match merged with None => [NonContiguous] | Some _ => [] end
                     else [FamilyMismatch] in
        let hosts := match merged with
                     | Some n => map HostOnMergedBoundary (merge_host_conflicts (ipam st) sources n)
                     | None => []
                     end in
        let scopes := scopes_of_sources st sources in
        let surviving := match scopes with [sc] => Some (sc_id sc) | _ => None end in
        let many := if (1 <? length scopes)%nat then [MultipleScopes (length scopes)] else [] in
        mkPreview merged (map s_id sources) surviving
          (block ++ shape ++ _check_metadata_compat attr sources ++ carry_conflicts attr sources ++ hosts ++ many)
  end.

(** ** Commit *)
Definition merged_total (net : IPNetwork) : Z :=
  if bool_decide (ver net = V6) then Z.min (num_addresses net) (2 ^ 63 - 1)
  else if 31 <=? prefixlen net then num_addresses net
  else num_addresses net - 2.

Definition source_boundary_ips (sources : list Subnet) : gset IPAddr :=
  ⋃ map (λ s, {[network_address (s_network s)]} ∪ boundary_addresses (s_network s) "unicast") sources.

(** What becomes of an address row of a source: [None] when it is deleted. *)
Definition migrate_row (sources : list Subnet) (retired : list IPAddr) (merged_id : str) (r : IPAddress) : option IPAddress :=
  if bool_decide (i_address r ∈ source_boundary_ips sources) && SubnetSplit._is_default_placeholder r then None
  else if bool_decide (i_address r ∈ retired) && _is_default_gateway_row r then None
  else Some (moved r merged_id).

Definition migrate_rows (db : Db) (sources : list Subnet) (retired : list IPAddr) (merged_id : str) : Db :=
  set_addresses db (omap (λ r, if bool_decide (i_subnet r ∈ map s_id sources)
                               then migrate_row sources retired merged_id r else Some r) (ip_address db)).

Definition rebind_scope (merged_id : str) (surviving : option str) (sc : DHCPScope) : DHCPScope :=
  if bool_decide (Some (sc_id sc) = surviving) then mkScope (sc_id sc) (sc_group sc) merged_id else sc.

(** The dict [seen_zones]: zone to "primary somewhere", in order of sight. *)
Fixpoint add_zone (zones : list (str * bool)) (zone : str) (primary : bool) : list (str * bool) :=
  match zones with
  | [] => [(zone, primary)]
  | (z, p) :: rest =>
      if bool_decide (z = zone) then (z, p || primary) :: rest else (z, p) :: add_zone rest zone primary
  end.

Definition merge_domains (domains : list SubnetDomain) (sources : list Subnet) (merged_id : str) : list SubnetDomain :=
  let mine d := bool_decide (sd_subnet d ∈ map s_id sources) in
  let seen := foldl (λ zones d, add_zone zones (sd_zone d) (sd_primary d)) [] (List.filter mine domains) in
  List.filter (λ d, negb (mine d)) domains ++ map (λ '(z, p), mkDomain merged_id z p) seen.

Definition delete_subnets (db : Db) (ids : list str) : Db :=
  mkDb (ip_block db) (List.filter (λ t, negb (bool_decide (s_id t ∈ ids))) (subnet db)) (ip_address db).

Record SubnetMergeResult := mkMerge {
  r_state : State;
  merged_subnet : Subnet;
  deleted_subnet_ids : list str;
}.

Definition apply_merge (st : State) (target : Subnet) (sources : list Subnet) (merged_net : IPNetwork)
    (surviving : option str) (user : option str) (new_id : str) : SubnetMergeResult :=
  let '(gateway, retired) := _gateway_plan sources merged_net (rows_of_sources (ipam st) sources) in
  let row := mkSubnet new_id (s_space target) (s_block target) merged_net (s_kind target) gateway
               (merged_total merged_net) 0 false in
  let db1 := insert_subnets (ipam st) [row] in
  let db2 := migrate_rows db1 sources retired new_id in
  let scopes := map (rebind_scope new_id surviving) (dhcp_scope st) in
  let domains := merge_domains (subnet_domain st) sources new_id in
  let db3 := fst (ensure_boundary_rows db2 new_id merged_net user (s_kind row)) in
  let db4 := delete_subnets db3 (map s_id sources) in
  let db5 := _update_block_utilization (_update_utilization db4 new_id) (s_block row) in
  mkMerge (mkState db5 scopes (dhcp_pool st) (dhcp_static st) domains) row (map s_id sources).

Definition commit_subnet_merge (st : State) (attr : str → str → option str) (locked : bool) (target : Subnet)
    (sibling_ids : list str) (confirm_cidr : cidr_text) (user : option str) (new_id : str)
    : result MergeError SubnetMergeResult :=
  _ ← raise_if (negb locked) InProgress;
  let preview := preview_subnet_merge st attr target sibling_ids in
  match conflicts preview, merged_cidr preview with
  | [], Some merged =>
      _ ← raise_if (negb (bool_decide (confirm_cidr = Canonical merged))) ConfirmMismatch;
      match _load_sources (ipam st) target sibling_ids with
      | Err c => Err (Blocked [c])
      | Ok sources => Ok (apply_merge st target sources merged (surviving_dhcp_scope_id preview) user new_id)
      end
  | cs, _ => Err (Blocked cs)
  end.

(** ** Lemmas: the merged network *)
Lemma summarise_spec v nets n : uniform v nets →
  _summarise_or_none nets = Some n ↔
  wf n ∧ disjoint_list nets ∧ ∀ a, mem n a ↔ ∃ x, x ∈ nets ∧ mem x a.
Proof.
  intros Hu. assert (Hw : ∀ m, m ∈ nets → wf m) by (intros m Hm; by apply Hu).
  destruct (collapse_spec v nets Hu) as (Huc & Hc & _). split.
  - intros H. assert (E : collapse_addresses nets = [n] ∧ total nets = num_addresses n).
    { unfold _summarise_or_none in H. destruct nets as [|x l]; [done|].
      destruct (collapse_addresses (x :: l)) as [|m [|m' l']]; [done| |done].
      destruct (Z.eqb_spec (total (x :: l)) (num_addresses m)); [|done]. by injection H as ->. }
    destruct E as [E Et]. rewrite E in Huc, Hc. destruct (Huc n ltac:(left)) as [Hn _].
    assert (Hcov : ∀ a, mem n a ↔ ∃ x, x ∈ nets ∧ mem x a).
    { intros a. rewrite <- Hc. split; [intros Ha; exists n; split; [left|done]|by intros (x & ->%list_elem_of_singleton & Ha)]. }
    split_and!; [done| |done]. by apply (total_cover nets n Hw Hn Hcov).
  - intros (Hn & Hd & Hcov). pose proof (collapse_single v nets Hu n Hn Hcov) as E.
    apply (total_cover nets n Hw Hn Hcov) in Hd. unfold _summarise_or_none. destruct nets as [|x l].
    + destruct (proj1 (Hcov _) (mem_network_address n Hn)) as (x & Hx & _). by apply not_elem_of_nil in Hx.
    + by rewrite E, Hd, Z.eqb_refl.
Qed.

Lemma disjoint_of_NoDup l : NoDup l → (∀ x y a, x ∈ l → y ∈ l → mem x a → mem y a → x = y) → disjoint_list l.
Proof.
  induction 1 as [|n l Hn Hd IH]; intros H; [done|]. split.
  - intros m a Hm Ha Hb. apply Hn. rewrite (H n m a); [done|left|by right|done..].
  - apply IH. intros x y a Hx Hy. apply H; by right.
Qed.

Lemma disjoint_elem l x y a : disjoint_list l → x ∈ l → y ∈ l → mem x a → mem y a → x = y.
Proof.
  induction l as [|n l IH]; intros Hd Hx Hy Ha Hb; [by apply not_elem_of_nil in Hx|]. destruct Hd as [H Hd].
  apply elem_of_cons in Hx as [->|Hx], Hy as [->|Hy]; [done|by destruct (H y a)|by destruct (H x a)|by apply IH].
Qed.

(** ** Lemmas: the sources *)
Lemma get_subnet_Some db id s : get_subnet db id = Some s → s ∈ live_subnets db ∧ s_id s = id.
Proof.
  intros [H1 H2]%List.find_some. apply bool_decide_eq_true in H2. by rewrite list_elem_of_In.
Qed.

Lemma load_siblings_spec db out ids ss : load_siblings db out ids = Ok ss →
  (∀ s, s ∈ out → s ∈ live_subnets db) → NoDup (map s_id out) →
  (∀ s, s ∈ ss → s ∈ live_subnets db) ∧ NoDup (map s_id ss) ∧ ∃ k, ss = out ++ k.
Proof.
  revert out. induction ids as [|i ids IH]; intros out H Hl Hn; simpl in H.
  - injection H as <-. split_and!; [done..|]. exists []. by rewrite app_nil_r.
  - case_bool_decide as Hi; [by apply IH|]. destruct (get_subnet db i) as [s|] eqn:E; [|done].
    apply get_subnet_Some in E as [Hs E]. apply IH in H as (H1 & H2 & k & ->).
    + split_and!; [done..|]. exists (s :: k). by rewrite <- app_assoc.
    + intros t [Ht| ->%list_elem_of_singleton]%elem_of_app; [by apply Hl|done].
    + rewrite fmap_app. apply NoDup_app. split_and!; [done| |apply NoDup_singleton].
      intros x Hx ->%list_elem_of_singleton. apply Hi. by rewrite <- E.
Qed.

(** The sources are the target and the siblings asked for. *)
Lemma load_siblings_ids db out ids ss i : load_siblings db out ids = Ok ss → i ∈ map s_id ss ↔ i ∈ map s_id out ∨ i ∈ ids.
Proof.
  revert out. induction ids as [|j ids IH]; intros out H; simpl in H; [injection H as ->; rewrite elem_of_nil; tauto|].
  rewrite elem_of_cons. case_bool_decide as Hj.
  - rewrite (IH out H). split; [tauto|]. intros [?|[->|?]]; tauto.
  - destruct (get_subnet db j) as [s|] eqn:E; [|done]. apply get_subnet_Some in E as [_ E].
    rewrite (IH _ H), List.map_app. simpl. rewrite elem_of_app, list_elem_of_singleton, E. tauto.
Qed.

(** ** Lemmas: the tree *)
Section merge_tree.
Context (db : Db) (Hok : tree_ok db) (target : Subnet) (sources : list Subnet) (row : Subnet).
Context (Ht : target ∈ sources) (Hlive : ∀ s, s ∈ sources → s ∈ live_subnets db).
Context (Hblock : ∀ s, s ∈ sources → s_block s = s_block target).
Context (Hrow : s_space row = s_space target ∧ s_block row = s_block target ∧ s_deleted row = false).
Context (Hwf : wf (s_network row)) (Hfresh : s_id row ∉ map s_id (subnet db)).
Context (Hcov : ∀ a, mem (s_network row) a ↔ ∃ s, s ∈ sources ∧ mem (s_network s) a).

Definition merge_db (rows : list IPAddress) : Db :=
  set_addresses (delete_subnets (insert_subnets db [row]) (map s_id sources)) rows.

Lemma elem_merged_subnets rows t :
  t ∈ live_subnets (merge_db rows) ↔ (t ∈ live_subnets db ∧ t ∉ sources) ∨ t = row.
Proof.
  rewrite !elem_live_subnets. unfold merge_db. simpl.
  rewrite elem_filter, elem_of_app, list_elem_of_singleton, negb_true_iff, bool_decide_eq_false.
  destruct (tree_rows db Hok) as (_ & _ & _ & Hn). split.
  - intros [[[Hin| ->] Hne] Hd]; [left|by right]. split; [done|]. intros H. by apply Hne, list_elem_of_fmap_2.
  - intros [[[Hin Hd] Hne]| ->].
    + split_and!; [by left| |done]. intros (s & E & Hs)%list_elem_of_fmap. apply Hne.
      pose proof (Hlive s Hs) as [Hs' _]%elem_live_subnets. by rewrite (map_NoDup_inj s_id (subnet db) t s).
    + split_and!; [by right| |by destruct Hrow as (_ & _ & ?)]. intros (s & E & Hs)%list_elem_of_fmap.
      apply Hfresh. rewrite E. apply list_elem_of_fmap_2. by apply Hlive, elem_live_subnets in Hs as [].
Qed.

Lemma source_space s : s ∈ sources → s_space s = s_space target.
Proof.
  intros Hs. destruct (tree_subnet_in db Hok s (Hlive s Hs)) as (b & Hb & E & -> & _).
  destruct (tree_subnet_in db Hok target (Hlive _ Ht)) as (c & Hc & E' & -> & _).
  rewrite (live_id_inj db Hok b c); [done..|]. rewrite <- E, <- E'. by apply Hblock.
Qed.

Lemma meets_source n : meets (s_network row) n → ∃ s, s ∈ sources ∧ meets (s_network s) n.
Proof. intros (a & (s & Hs & Ha)%Hcov & Hb). exists s. split; [done|]. by exists a. Qed.

Lemma merge_tree_ok rows : tree_ok (merge_db rows).
Proof.
  destruct (tree_rows db Hok) as (W1 & W2 & N1 & N2). destruct Hrow as (Esp & Ebl & Ed). split.
  - split_and!; [done| |done|]; simpl.
    + intros t [[Hin| ->%list_elem_of_singleton]%elem_of_app _]%elem_filter; [auto|done].
    + eapply sublist_NoDup; [|apply (fmap_sublist s_id), filter_sublist]. rewrite fmap_app.
      apply NoDup_app. split_and!; [done| |apply NoDup_singleton].
      by intros x Hx ->%list_elem_of_singleton.
  - intros b Hb. destruct (tree_rooted db Hok b Hb) as [l Hl]. exists l. clear Hb.
    induction Hl; [by apply chain_top|by eapply chain_step].
  - apply (tree_inside db Hok).
  - apply (tree_siblings db Hok).
  - intros t [[Hin _]| ->]%elem_merged_subnets; [by apply (tree_subnet_in db Hok)|].
    destruct (tree_subnet_in db Hok target (Hlive _ Ht)) as (b & Hb & E & Es & _). exists b.
    split_and!; [done|congruence|congruence|]. intros a (s & Hs & Ha)%Hcov.
    destruct (tree_subnet_in db Hok s (Hlive s Hs)) as (c & Hc & E' & _ & Hi).
    rewrite (live_id_inj db Hok b c); [by apply Hi|done..|]. rewrite <- E, <- E'. symmetry. by apply Hblock.
  - assert (Hout : ∀ t, t ∈ live_subnets db → s_space t = s_space row → meets (s_network row) (s_network t) → t ∈ sources).
    { intros t Hin E (s & Hs & Hm)%meets_source. assert (t = s) as ->; [|done]. symmetry.
      apply (tree_subnets db Hok); [by apply Hlive|done| |done]. rewrite (source_space s Hs). congruence. }
    intros t u [[Hin Hn]| ->]%elem_merged_subnets [[Hin' Hn']| ->]%elem_merged_subnets E Hm; [|..|done].
    + by apply (tree_subnets db Hok).
    + exfalso. apply Hn, Hout; [done..|by apply meets_sym].
    + exfalso. by apply Hn', Hout.
  - intros t c [[Hin _]| ->]%elem_merged_subnets Hc E Hm; [by apply (tree_subnet_blocks db Hok t c)|].
    apply meets_source in Hm as (s & Hs & Hm). apply (tree_subnet_blocks db Hok s c); [by apply Hlive|done| |done].
    rewrite (Hblock s Hs). congruence.
Qed.
End merge_tree.

(** ** Lemmas: the commit *)
Lemma app_nil_3 {A} (a b c d e f : list A) : a ++ b ++ c ++ d ++ e ++ f = [] →
  a = [] ∧ b = [] ∧ c = [] ∧ d = [] ∧ e = [] ∧ f = [].
Proof. intros H. repeat (apply app_nil in H as [? H]). done. Qed.

Lemma commit_merge_Ok st attr locked target ids confirm user new_id res :
  commit_subnet_merge st attr locked target ids confirm user new_id = Ok res →
  locked = true ∧ ∃ sources n, _load_sources (ipam st) target ids = Ok sources
    ∧ (2 ≤ length sources)%nat ∧ confirm = Canonical n
    ∧ (∀ s, s ∈ sources → s_block s = s_block target ∧ ver (s_network s) = ver (s_network target))
    ∧ _summarise_or_none (map s_network sources) = Some n
    ∧ (∀ c, c ∈ HARD_MERGE_COLUMNS → ∀ s t, s ∈ sources → t ∈ sources → getattr attr s c = getattr attr t c)
    ∧ merge_host_conflicts (ipam st) sources n = []
    ∧ (length (scopes_of_sources st sources) ≤ 1)%nat
    ∧ res = apply_merge st target sources n
              (match scopes_of_sources st sources with [sc] => Some (sc_id sc) | _ => None end) user new_id.
Proof.
  unfold commit_subnet_merge. intros (u & Hl%raise_if_Ok%negb_false_iff & H)%bind_Ok. split; [done|].
  unfold preview_subnet_merge in H. destruct (_load_sources (ipam st) target ids) as [sources|c]; [|done].
  destruct (Nat.ltb_spec (length sources) 2) as [|Hlen]; [done|]. cbn [conflicts merged_cidr surviving_dhcp_scope_id] in H.
  destruct (_ ++ _) eqn:E in H; [|done]. apply app_nil_3 in E as (E1 & E2 & _ & E4 & E5 & E6).
  destruct (forallb (λ s, bool_decide (ver (s_network s) = _)) sources) eqn:Ev; [|done].
  destruct (_summarise_or_none (map s_network sources)) as [n|] eqn:En; [|done].
  apply bind_Ok in H as (u' & Hc%raise_if_Ok%negb_false_iff%bool_decide_eq_true & [= <-]).
  destruct (forallb (λ s, bool_decide (s_block s = _)) sources) eqn:Eb; [|done].
  rewrite forallb_elem_iff in Ev, Eb. exists sources, n. split_and!; try done.
  - intros s Hs. split; eapply bool_decide_eq_true; [apply Eb|apply Ev]; done.
  - intros c Hcol s t Hs Ht. unfold carry_conflicts in E4. apply fmap_nil_inv in E4.
    assert (Hf : c ∉ List.filter (λ c, negb (bool_decide
      (length (remove_dups (map (λ s, getattr attr s c) sources)) ≤ 1)%nat)) HARD_MERGE_COLUMNS) by (rewrite E4; apply not_elem_of_nil).
    rewrite elem_filter, negb_true_iff, bool_decide_eq_false in Hf.
    assert (Hle : (length (remove_dups (map (λ s, getattr attr s c) sources)) ≤ 1)%nat) by (apply dec_stable; tauto).
    assert (Hr : ∀ u, u ∈ sources → getattr attr u c ∈ remove_dups (map (λ s, getattr attr s c) sources)).
    { intros w Hw. apply elem_of_remove_dups. by apply (list_elem_of_fmap_2 (λ s, getattr attr s c)). }
    pose proof (Hr s Hs) as H1. pose proof (Hr t Ht) as H2. destruct (remove_dups _) as [|x [|y l]]; [by apply not_elem_of_nil in H1| |simpl in Hle; lia].
    apply list_elem_of_singleton in H1, H2. congruence.
  - by apply fmap_nil_inv in E5.
  - destruct (Nat.ltb_spec 1 (length (scopes_of_sources st sources))); [done|lia].
Qed.

(** ** Lemmas: gateways *)
Lemma elem_gateways sources gw src : (gw, src) ∈ gateways_of sources → src ∈ sources ∧ s_gateway src = Some gw.
Proof.
  unfold gateways_of. assert (G : ∀ l gws, (gw, src) ∈ foldl add_gateway gws l →
    (gw, src) ∈ gws ∨ src ∈ l ∧ s_gateway src = Some gw).
  { intros l. induction l as [|t l IH]; intros gws H; simpl in H; [by left|].
    apply IH in H as [H|[H1 H2]]; [|right; split; [by right|done]]. unfold add_gateway in H.
    destruct (s_gateway t) as [g|] eqn:Eg; [|by left]. case_bool_decide; [by left|].
    apply elem_of_app in H as [H|[= -> ->]%list_elem_of_singleton]; [by left|]. right. split; [left|done]. }
  intros H. apply G in H as [H|H]; [by apply not_elem_of_nil in H|done].
Qed.

(** A surviving gateway is one of the sources' inside the merged network; a
    retired one is another, the default of its source. *)
Lemma gateway_plan_spec sources merged rows gw retired : _gateway_plan sources merged rows = (gw, retired) →
  (∀ g, gw = Some g → contains merged g = true ∧ ∃ s, s ∈ sources ∧ s_gateway s = Some g)
  ∧ (∀ a, a ∈ retired → gw ≠ Some a ∧ ∃ s, s ∈ sources ∧ s_gateway s = Some a
       ∧ a = mkAddr (ver (s_network s)) (base (s_network s) + 1)).
Proof.
  unfold _gateway_plan. set (gws := gateways_of sources). set (ins := List.filter _ (map fst gws)).
  assert (Hins : ∀ g, g ∈ ins → contains merged g = true ∧ ∃ s, s ∈ sources ∧ s_gateway s = Some g).
  { intros g [([g' s] & -> & H)%list_elem_of_fmap Hc]%elem_filter. split; [done|]. exists s. by apply elem_gateways in H. }
  destruct (length gws =? 1)%nat.
  { intros [= <- <-]. split; [|by intros a ?%not_elem_of_nil]. intros g Hg. apply Hins. by apply head_Some_elem_of in Hg. }
  destruct (bool_decide (gws = []) || _); [intros [= <- <-]; split; [done|by intros a ?%not_elem_of_nil]|].
  set (cgw := mkAddr (ver merged) (base merged + 1)).
  destruct (bool_decide_reflect (cgw ∈ ins)) as [Hc|]; simpl; [|intros [= <- <-]; split; [done|by intros a ?%not_elem_of_nil]].
  intros [= <- <-]. split; [by intros g [= <-]; apply Hins|].
  intros a ([a' src] & -> & [Hin Hr]%elem_filter)%list_elem_of_fmap.
  apply andb_true_iff in Hr as [Hne%negb_true_iff%bool_decide_eq_false Hr]. split; [simpl; congruence|].
  exists src. apply elem_gateways in Hin as [H1 H2]. split_and!; [done..|]. unfold retires in Hr.
  destruct (by_addr rows a') as [row|]; [|done]. apply andb_true_iff in Hr as [Hr _].
  apply andb_true_iff in Hr as [_ Hr]. by apply bool_decide_eq_true in Hr.
Qed.

(** ** Lemmas: the address rows *)
Definition pruned (sources : list Subnet) (retired : list IPAddr) (r : IPAddress) : Prop :=
  (i_address r ∈ source_boundary_ips sources ∧ SubnetSplit._is_default_placeholder r = true)
  ∨ (i_address r ∈ retired ∧ _is_default_gateway_row r = true).

Lemma elem_source_boundary sources a : a ∈ source_boundary_ips sources ↔
  ∃ s, s ∈ sources ∧ (a = network_address (s_network s) ∨ is_boundary (s_network s) "unicast" a).
Proof.
  unfold source_boundary_ips. rewrite elem_of_union_list. setoid_rewrite <- elem_boundary. split.
  - intros (X & (s & -> & Hs)%list_elem_of_fmap & Ha). exists s. split; [done|].
    apply elem_of_union in Ha as [->%elem_of_singleton|Ha]; [by left|by right].
  - intros (s & Hs & Ha). eexists. split; [by apply list_elem_of_fmap_2|]. cbv beta. rewrite elem_of_union, elem_of_singleton. done.
Qed.

Section merge_rows.
Context (db : Db) (sources : list Subnet) (retired : list IPAddr) (id : str).
Local Abbreviation ids := (map s_id sources).
Local Definition migrated := migrate_rows db sources retired id.

Lemma move_row_spec r : (pruned sources retired r ∧ migrate_row sources retired id r = None)
  ∨ (¬ pruned sources retired r ∧ migrate_row sources retired id r = Some (moved r id)).
Proof.
  unfold migrate_row, pruned.
  destruct (bool_decide_reflect (i_address r ∈ source_boundary_ips sources)), (SubnetSplit._is_default_placeholder r),
    (bool_decide_reflect (i_address r ∈ retired)), (_is_default_gateway_row r); simpl;
    first [left; split; [tauto|done]|right; split; [intros [[? ?]|[? ?]]; done|done]].
Qed.

Lemma elem_moved r : r ∈ ip_address migrated ↔
  (r ∈ ip_address db ∧ i_subnet r ∉ ids)
  ∨ ∃ r0, r0 ∈ rows_of_sources db sources ∧ ¬ pruned sources retired r0 ∧ r = moved r0 id.
Proof.
  unfold migrated, migrate_rows, rows_of_sources. simpl. rewrite list_elem_of_omap. setoid_rewrite elem_filter.
  setoid_rewrite bool_decide_eq_true. split.
  - intros (r0 & Hr0 & H). case_bool_decide as E; [right|injection H as ->; by left].
    destruct (move_row_spec r0) as [[_ H']|[Hn H']]; [congruence|]. exists r0. split_and!; [done..|congruence].
  - intros [[Hr Hne]|(r0 & [Hr E] & Hn & ->)].
    + exists r. by rewrite bool_decide_false.
    + exists r0. rewrite bool_decide_true by done. split; [done|].
      destruct (move_row_spec r0) as [[H _]|[_ ->]]; done.
Qed.

Lemma moved_addresses : (∀ r, r ∈ ip_address db → i_subnet r ≠ id) →
  map i_address (rows_of migrated id) `sublist_of` map i_address (rows_of_sources db sources).
Proof.
  unfold rows_of, migrated, migrate_rows, rows_of_sources. simpl.
  induction (ip_address db) as [|r rows IH]; intros Hfk; [constructor|].
  specialize (IH (λ x Hx, Hfk x (list_elem_of_further _ _ _ Hx))). simpl. case_bool_decide as E.
  - destruct (move_row_spec r) as [[_ ->]|[_ ->]]; simpl; [by apply sublist_cons|].
    rewrite bool_decide_true by done. simpl. by apply sublist_skip.
  - simpl. rewrite bool_decide_false; [done|]. apply Hfk. left.
Qed.
End merge_rows.

(** Rows of several subnets have distinct addresses when those of each have and
    no address is in two of them. *)
Lemma sources_NoDup (rows : list IPAddress) (ids : list str) :
  (∀ id, id ∈ ids → NoDup (map i_address (List.filter (λ r, bool_decide (i_subnet r = id)) rows))) →
  (∀ r r', r ∈ rows → r' ∈ rows → i_subnet r ∈ ids → i_subnet r' ∈ ids → i_address r = i_address r' → i_subnet r = i_subnet r') →
  NoDup (map i_address (List.filter (λ r, bool_decide (i_subnet r ∈ ids)) rows)).
Proof.
  induction rows as [|r rows IH]; intros H1 H2; simpl; [constructor|].
  assert (NoDup (map i_address (List.filter (λ r, bool_decide (i_subnet r ∈ ids)) rows))) as Hrest.
  { apply IH.
    - intros id Hid. eapply sublist_NoDup; [by apply (H1 id Hid)|]. apply (fmap_sublist i_address). simpl.
      destruct (bool_decide (i_subnet r = id)); [by apply sublist_cons|done].
    - intros x y Hx Hy. apply H2; by right. }
  case_bool_decide as Hr; [|done]. simpl. apply NoDup_cons. split; [|done].
  intros (r' & E & [Hr' Hin%bool_decide_eq_true]%elem_filter)%list_elem_of_fmap.
  assert (Es : i_subnet r = i_subnet r') by (apply H2; [left|by right|done..]).
  specialize (H1 (i_subnet r) Hr). simpl in H1. rewrite bool_decide_true in H1 by done. simpl in H1.
  apply NoDup_cons in H1 as [H1 _]. apply H1. rewrite E. apply list_elem_of_fmap_2, elem_filter.
  split; [done|]. by apply bool_decide_eq_true.
Qed.

Lemma merge_tables st target sources n surviving user id :
  ∃ f g rows row, keeps f ∧ (∀ b, b_network (f b) = b_network b)
  ∧ keeps_subnet g ∧ (∀ t, s_network (g t) = s_network t)
  ∧ merged_subnet (apply_merge st target sources n surviving user id) = row
  ∧ ipam (r_state (apply_merge st target sources n surviving user id))
    = update_blocks f (update_subnets g (merge_db (ipam st) sources row rows)).
Proof.
  unfold apply_merge. destruct (_gateway_plan _ _ _) as [gw retired]. simpl.
  set (row := mkSubnet _ _ _ _ _ _ _ _ _). set (db4 := delete_subnets _ _).
  destruct (subnet_recounts_counts db4 [id]) as (g & Hg & Hgn & Eg). cbn [foldl] in Eg. rewrite Eg.
  unfold _update_block_utilization.
  destruct (block_recount_counts (update_subnets g db4) [s_block target]) as (f & Hf & Hfn & ->).
  exists f, g, (ip_address db4), row. done.
Qed.

(** The subnet table after a merge: the merged row, counted, in the sources'
    place. *)
Lemma merge_subnets st target sources n surviving user id : id ∉ map s_id (subnet (ipam st)) →
  (∀ s, s ∈ sources → s ∈ subnet (ipam st)) →
  let res := apply_merge st target sources n surviving user id in
  let row := merged_subnet res in
  subnet (ipam (r_state res)) = List.filter (λ t, negb (bool_decide (s_id t ∈ map s_id sources))) (subnet (ipam st))
    ++ [set_allocated row (count_of (ipam (r_state res)) (s_id row))].
Proof.
  intros Hfr Hsrc. unfold apply_merge. destruct (_gateway_plan _ _ _) as [gw retired]. simpl. unfold _update_block_utilization.
  set (row := mkSubnet _ _ _ _ _ _ _ _ _). set (db4 := delete_subnets _ _).
  edestruct (block_recount_counts (_update_utilization db4 id) [s_block target]) as (f & _ & _ & ->).
  assert (Hrow : id ∉ map s_id sources).
  { intros (s & -> & Hs)%list_elem_of_fmap. apply Hfr. apply list_elem_of_fmap_2. by apply Hsrc. }
  cbn [update_blocks _update_utilization update_subnets subnet].
  change (subnet db4) with (List.filter (λ t, negb (bool_decide (s_id t ∈ map s_id sources))) (subnet (ipam st) ++ [row])).
  rewrite List.filter_app, map_app. f_equal.
  - rewrite <- (List.map_id (List.filter _ (subnet (ipam st)))) at 2. apply map_ext_in. intros t [Ht _]%list_elem_of_In%elem_filter.
    rewrite bool_decide_false; [done|]. intros <-. by apply Hfr, list_elem_of_fmap_2.
  - cbn [List.filter s_id row]. rewrite bool_decide_false by done. cbn. by rewrite bool_decide_true.
Qed.

Lemma merge_rows st target sources n surviving user id :
  let retired := snd (_gateway_plan sources n (rows_of_sources (ipam st) sources)) in
  ip_address (ipam (r_state (apply_merge st target sources n surviving user id)))
  = ip_address (migrated (ipam st) sources retired id)
    ++ missing_rows (migrated (ipam st) sources retired id) id n user (s_kind target).
Proof.
  unfold apply_merge. destruct (_gateway_plan _ _ _) as [gw retired]. simpl.
  unfold _update_block_utilization. rewrite utilization_rows. reflexivity.
Qed.

(** Sources of one block of a well-formed tree: their rows, each inside its own
    source, have distinct addresses together. *)
Lemma source_rows_NoDup (db : Db) (sources : list Subnet) (bid : str) :
  tree_ok db → (∀ s, s ∈ sources → s ∈ live_subnets db ∧ s_block s = bid) →
  (∀ s r, s ∈ live_subnets db → r ∈ rows_of db (s_id s) → mem (s_network s) (i_address r)) →
  (∀ s, s ∈ live_subnets db → NoDup (map i_address (rows_of db (s_id s)))) →
  NoDup (map i_address (rows_of_sources db sources)).
Proof.
  intros Hok Hsrc Hin Hnd. apply sources_NoDup.
  - intros i (s & -> & Hs)%list_elem_of_fmap. by apply Hnd, Hsrc.
  - intros r r' Hr Hr' (s & Es & Hs)%list_elem_of_fmap (t & Et & Ht)%list_elem_of_fmap E. rewrite Es, Et. f_equal.
    destruct (Hsrc s Hs) as [H1 B1], (Hsrc t Ht) as [H2 B2].
    destruct (tree_subnet_in _ Hok s H1) as (b & Hb & E1 & Sb & _), (tree_subnet_in _ Hok t H2) as (c & Hcc & E2 & Sc & _).
    apply (tree_subnets db Hok); [done..| |].
    + rewrite Sb, Sc. by rewrite (live_id_inj _ Hok b c Hb Hcc ltac:(congruence)).
    + exists (i_address r). split; [apply (Hin s r H1)|rewrite E; apply (Hin t r' H2)]; by apply elem_rows_of.
Qed.

(** The fields of the merged row, and the rows of the merged subnet. *)
Lemma merged_row st target sources n surviving user id :
  let plan := _gateway_plan sources n (rows_of_sources (ipam st) sources) in
  let db2 := migrated (ipam st) sources (snd plan) id in
  let res := apply_merge st target sources n surviving user id in
  deleted_subnet_ids res = map s_id sources
  ∧ s_network (merged_subnet res) = n ∧ s_kind (merged_subnet res) = s_kind target
  ∧ s_gateway (merged_subnet res) = fst plan
  ∧ rows_of (ipam (r_state res)) id
    = rows_of (set_addresses db2 (ip_address db2 ++ missing_rows db2 id n user (s_kind target))) id.
Proof.
  intros plan db2 res. unfold rows_of at 1. unfold res. rewrite merge_rows. fold plan db2.
  unfold apply_merge. fold plan. destruct plan. split_and!; reflexivity.
Qed.

(** What a commit that succeeds knows of its sources. *)
Lemma commit_sources st attr locked target ids confirm user id res :
  tree_ok (ipam st) → target ∈ live_subnets (ipam st) →
  commit_subnet_merge st attr locked target ids confirm user id = Ok res →
  ∃ sources n surviving, res = apply_merge st target sources n surviving user id
    ∧ confirm = Canonical n ∧ (2 ≤ length sources)%nat
    ∧ target ∈ sources ∧ (∀ s, s ∈ sources → s ∈ live_subnets (ipam st) ∧ s_block s = s_block target)
    ∧ NoDup (map s_id sources) ∧ wf n ∧ disjoint_list (map s_network sources)
    ∧ (∀ a, mem n a ↔ ∃ s, s ∈ sources ∧ mem (s_network s) a)
    ∧ (∀ s, s ∈ sources → s_kind s = s_kind target)
    ∧ merge_host_conflicts (ipam st) sources n = []
    ∧ ∀ i, i ∈ map s_id sources ↔ i = s_id target ∨ i ∈ ids.
Proof.
  intros Hok Htl (_ & sources & n & Hload & Hlen & Hconf & Hsrc & Hsum & Hmeta & Hhost & _ & ->)%commit_merge_Ok.
  pose proof (λ i, load_siblings_ids _ _ _ _ i Hload) as Hids.
  apply load_siblings_spec in Hload as (Hlive & Hnd & k & Ek); [|by intros s ->%list_elem_of_singleton|apply NoDup_singleton].
  assert (Ht : target ∈ sources) by (rewrite Ek; left).
  apply (summarise_spec (ver (s_network target))) in Hsum as (Hn & Hd & Hcov).
  2: { intros m (s & -> & Hs)%list_elem_of_fmap. split; [|by apply Hsrc]. by apply (wf_live_subnet (ipam st) Hok), Hlive. }
  exists sources, n. eexists. split_and!; [reflexivity|done..| |done|done|done| | |done|].
  - intros s Hs. split; [by apply Hlive|by apply Hsrc].
  - intros a. rewrite Hcov. split.
    + intros (m & (s & -> & Hs)%list_elem_of_fmap & Ha). eauto.
    + intros (s & Hs & Ha). exists (s_network s). split; [by apply list_elem_of_fmap_2|done].
  - intros s Hs. specialize (Hmeta "kind" ltac:(left) s target Hs Ht). unfold getattr in Hmeta.
    rewrite !bool_decide_true in Hmeta by done. by injection Hmeta.
  - intros i. rewrite Hids. simpl. by rewrite list_elem_of_singleton.
Qed.

(** 10.0.0.0/25 and 10.0.0.128/25 of one block. *)
Definition half (id : str) (a : Z) : Subnet :=
  mkSubnet id "sp" "b" (SubnetSplit.net a 25) "unicast" (Some (SubnetSplit.addr (a + 1))) 126 1 false.
Definition row_at (id : str) (a : Z) (status : str) : IPAddress := mkIPAddress id (SubnetSplit.addr a) status None [] None None.
Definition gateway_row (id : str) (a : Z) : IPAddress :=
  mkIPAddress id (SubnetSplit.addr a) "reserved" (Some ("gateway" : str)) "Gateway" None None.
Definition merge_sample : State :=
  mkState (mkDb [mkBlock "b" "sp" None (SubnetSplit.net 0 22) 8 1024 false] [half "s" 0; half "t" 128]
             [row_at "s" 0 "network"; gateway_row "s" 1; row_at "s" 10 "allocated"; row_at "s" 127 "broadcast";
              row_at "t" 128 "network"; gateway_row "t" 129; row_at "t" 255 "broadcast"])
    [mkScope "x" "g1" "t"] [] [] [mkDomain "s" "z" false; mkDomain "t" "z" true].
Definition no_attr (id column : str) : option str := None.

Lemma merge_sample_tree : tree_ok (ipam merge_sample).
Proof. apply tree_okb_sound. vm_compute. reflexivity. Qed.

(** ** Claims *)

(** What summarises: networks of one family summarise to [n] exactly when
    [n] is a network, no two of them (nor two copies of one) share an address,
    and together they are [n]. *)
Theorem summarise_exact (v : version) (nets : list IPNetwork) (n : IPNetwork) :
  (∀ m, m ∈ nets → wf m ∧ ver m = v) →
  _summarise_or_none nets = Some n ↔
  wf n ∧ (∀ i j x y a, nets !! i = Some x → nets !! j = Some y → mem x a → mem y a → i = j)
  ∧ ∀ a, mem n a ↔ ∃ x, x ∈ nets ∧ mem x a.
Proof.
  intros Hu. rewrite (summarise_spec v nets n Hu).
  assert (E : disjoint_list nets ↔ (∀ i j x y a, nets !! i = Some x → nets !! j = Some y → mem x a → mem y a → i = j)); [|by rewrite E].
  clear Hu. induction nets as [|m l IH]; [by split; [intros _ [|i]|]|]. simpl. rewrite IH. split.
  - intros [H1 H2] [|i] [|j] x y a Hx Hy Ha Hb; simpl in *; simplify_eq; [done|..].
    + exfalso. by apply (H1 y a (list_elem_of_lookup_2 _ _ _ Hy)).
    + exfalso. by apply (H1 x a (list_elem_of_lookup_2 _ _ _ Hx)).
    + f_equal. by eapply H2.
  - intros H. split.
    + intros y a Hy Ha Hb. apply list_elem_of_lookup in Hy as [j Hj]. by specialize (H O (S j) m y a eq_refl Hj Ha Hb).
    + intros i j x y a Hx Hy Ha Hb. specialize (H (S i) (S j) x y a Hx Hy Ha Hb). lia.
Qed.

Lemma summarise_exact_witness :
  ∃ n, _summarise_or_none [SubnetSplit.net 128 25; SubnetSplit.net 0 25] = Some n
    ∧ ∀ a, mem n a ↔ ∃ x, x ∈ [SubnetSplit.net 128 25; SubnetSplit.net 0 25] ∧ mem x a.
Proof.
  exists (SubnetSplit.net 0 24). split; [vm_compute; reflexivity|].
  apply (summarise_exact V4 [SubnetSplit.net 128 25; SubnetSplit.net 0 25]).
  - intros m Hm. repeat (apply elem_of_cons in Hm as [->|Hm]); [| |by apply not_elem_of_nil in Hm];
      (split; [apply (bool_decide_unpack _); vm_compute; exact I|reflexivity]).
  - vm_compute. reflexivity.
Defined.

(** Merging undoes a split: the children of a split, in any order,
    summarise to the parent's network. *)
Theorem split_merge_roundtrip (parent : IPNetwork) (p : Z) (u : unit) (nets : list IPNetwork) :
  wf parent → SubnetSplit._validate_split parent p = Ok u →
  nets ≡ₚ SubnetSplit._children_of parent p →
  _summarise_or_none nets = Some parent.
Proof.
  intros Hw Hv%SubnetSplit.validate_split_Ok Hp.
  assert (He : ∀ m, m ∈ nets ↔ m ∈ subnets parent p) by (intros m; by rewrite Hp).
  assert (Hnet : ∀ m, m ∈ nets → wf m ∧ ver m = ver parent ∧ prefixlen m = p ∧ ∀ a, mem m a → mem parent a).
  { intros m Hm. apply elem_subnets; [done|lia|by apply He]. }
  apply (summarise_spec (ver parent)); [intros m Hm; by destruct (Hnet m Hm) as (? & ? & _)|]. split_and!; [done| |].
  - apply disjoint_of_NoDup; [rewrite Hp; apply subnets_NoDup; lia|].
    intros x y a Hx Hy Ha Hb. destruct (Hnet x Hx) as (? & _ & ? & _), (Hnet y Hy) as (? & _ & ? & _).
    apply (same_length_disjoint x y a); congruence.
  - intros a. split.
    + intros Ha. destruct (subnets_cover parent p a Hw ltac:(lia) Ha) as (m & Hm & Hma). exists m. by rewrite He.
    + intros (m & Hm & Ha). by apply Hnet in Hm as (_ & _ & _ & H); apply H.
Qed.

Lemma split_merge_roundtrip_witness :
  _summarise_or_none (SubnetSplit._children_of (SubnetSplit.net 0 24) 27) = Some (SubnetSplit.net 0 24).
Proof.
  apply (split_merge_roundtrip (SubnetSplit.net 0 24) 27 tt).
  - apply (bool_decide_unpack _). vm_compute. exact I.
  - vm_compute. reflexivity.
  - reflexivity.
Defined.

(** C29 -- what a merge leaves in the subnet table: the merged network is the
    confirmed one, in the target's block, its addresses exactly those of the
    sources, which are the target and the siblings asked for.  The table
    afterwards holds exactly the rows it held before but for the sources, each
    as it was (those in the Trash too), and the merged row, live, under a new id,
    with the count of its addresses; a gateway it keeps is a source's, inside
    it; and the tree stays well-formed. *)
Theorem merge_keeps_tree (st : State) (attr : str → str → option str) (locked : bool) (target : Subnet)
    (ids : list str) (confirm : cidr_text) (user : option str) (id : str) (res : SubnetMergeResult) :
  tree_ok (ipam st) → target ∈ live_subnets (ipam st) → id ∉ map s_id (subnet (ipam st)) →
  commit_subnet_merge st attr locked target ids confirm user id = Ok res →
  let row := merged_subnet res in
  let db' := ipam (r_state res) in
  let source s := s ∈ live_subnets (ipam st) ∧ (s_id s = s_id target ∨ s_id s ∈ ids) in
  (∀ i, i ∈ deleted_subnet_ids res ↔ i = s_id target ∨ i ∈ ids)
  ∧ confirm = Canonical (s_network row) ∧ s_id row = id ∧ s_deleted row = false
  ∧ s_space row = s_space target ∧ s_block row = s_block target ∧ s_kind row = s_kind target
  ∧ (∀ a, mem (s_network row) a ↔ ∃ s, source s ∧ mem (s_network s) a)
  ∧ (∀ t, t ∈ subnet db' ↔ (t ∈ subnet (ipam st) ∧ s_id t ≠ s_id target ∧ s_id t ∉ ids)
       ∨ t = set_allocated row (count_of db' id))
  ∧ (∀ g, s_gateway row = Some g → mem (s_network row) g ∧ ∃ s, source s ∧ s_gateway s = Some g)
  ∧ tree_ok db'.
Proof.
  intros Hok Htl Hfr Hc. destruct (commit_sources _ _ _ _ _ _ _ _ _ Hok Htl Hc)
    as (sources & n & sv & -> & Hconf & _ & Ht & Hsrc & Hnd & Hn & _ & Hcov & Hkind & _ & Hids). clear Hc. cbv zeta.
  assert (Hlive : ∀ s, s ∈ sources → s ∈ live_subnets (ipam st)) by (intros s Hs; by apply Hsrc).
  assert (Hblock : ∀ s, s ∈ sources → s_block s = s_block target) by (intros s Hs; by apply Hsrc).
  assert (Hin : ∀ s, s ∈ sources → s ∈ subnet (ipam st)) by (intros s Hs; by apply Hlive, elem_live_subnets in Hs as []).
  pose proof (merge_subnets st target sources n sv user id Hfr Hin) as Htab. cbv zeta in Htab.
  destruct (merge_tables st target sources n sv user id) as (f & g & rows & row & Hf & Hfn & Hg & Hgn & Erow & E).
  rewrite Erow in *.
  assert (Ed : deleted_subnet_ids (apply_merge st target sources n sv user id) = map s_id sources).
  { unfold apply_merge. by destruct (_gateway_plan _ _ _). }
  assert (Hrow : s_network row = n ∧ s_space row = s_space target ∧ s_block row = s_block target ∧ s_deleted row = false ∧ s_id row = id
    ∧ s_kind row = s_kind target ∧ s_gateway row = fst (_gateway_plan sources n (rows_of_sources (ipam st) sources))).
  { rewrite <- Erow. unfold apply_merge. by destruct (_gateway_plan _ _ _). }
  destruct Hrow as (En & Hsp & Hbl & Hdel & Hid & Hki & Hgw).
  assert (Hback : ∀ s, s ∈ sources ↔ s ∈ live_subnets (ipam st) ∧ (s_id s = s_id target ∨ s_id s ∈ ids)).
  { intros s. rewrite <- Hids. split; [intros Hs; split; [by apply Hlive|by apply list_elem_of_fmap_2]|].
    intros [[Hs _]%elem_live_subnets (t & Eid & Hts)%list_elem_of_fmap]. destruct (tree_rows _ Hok) as (_ & _ & _ & Hn2).
    by rewrite (map_NoDup_inj s_id _ s t Hn2 Hs (Hin t Hts) Eid). }
  setoid_rewrite <- Hback. rewrite Ed, En. split_and!; try done.
  - intros t. rewrite Htab at 1. rewrite elem_of_app, elem_filter, negb_true_iff, bool_decide_eq_false, list_elem_of_singleton, Hids, Hid.
    tauto.
  - intros gw Eg. rewrite Hgw in Eg. destruct (_gateway_plan _ _ _) as [gw' ret] eqn:Ep.
    apply gateway_plan_spec in Ep as [Hp _]. destruct (Hp gw Eg) as (Hm & Hs). split; [by apply contains_mem|done].
  - rewrite E. apply tree_update_blocks; [done..|]. apply tree_update_subnets; [done..|].
    apply (merge_tree_ok (ipam st) Hok target sources row); [done..|by rewrite En|by rewrite Hid|by rewrite En].
Qed.

Lemma merge_keeps_tree_witness :
  ∃ res, commit_subnet_merge merge_sample no_attr true (half "s" 0) ["t"] (Canonical (SubnetSplit.net 0 24)) None "n" = Ok res
    ∧ tree_ok (ipam (r_state res)).
Proof.
  eexists. split; [vm_compute; reflexivity|].
  eapply (merge_keeps_tree merge_sample no_attr true (half "s" 0) ["t"] (Canonical (SubnetSplit.net 0 24)) None "n").
  - apply merge_sample_tree.
  - apply (bool_decide_unpack _). vm_compute. exact I.
  - apply (bool_decide_unpack _). vm_compute. exact I.
  - vm_compute. reflexivity.
Defined.

(** No address is lost in a merge: afterwards no row refers to a source;
    rows of other subnets stay; a row of a source is now the same row of the
    merged subnet, inside it, unless it was a default placeholder at a boundary
    of a source or the default gateway row of a source whose gateway was not
    kept; the other new rows are placeholders at the merged boundary; the
    boundary is held and no two rows of the merged subnet share an address. *)
Theorem merge_rows_follow (st : State) (attr : str → str → option str) (locked : bool) (target : Subnet)
    (ids : list str) (confirm : cidr_text) (user : option str) (id : str) (res : SubnetMergeResult) :
  tree_ok (ipam st) → target ∈ live_subnets (ipam st) → id ∉ map s_id (subnet (ipam st)) →
  (∀ r, r ∈ ip_address (ipam st) → i_subnet r ∈ map s_id (subnet (ipam st))) →
  (∀ s r, s ∈ live_subnets (ipam st) → r ∈ rows_of (ipam st) (s_id s) → mem (s_network s) (i_address r)) →
  (∀ s, s ∈ live_subnets (ipam st) → NoDup (map i_address (rows_of (ipam st) (s_id s)))) →
  commit_subnet_merge st attr locked target ids confirm user id = Ok res →
  let rows := ip_address (ipam (r_state res)) in
  let old := deleted_subnet_ids res in
  let row := merged_subnet res in
  (∀ r, r ∈ rows → i_subnet r ∉ old)
  ∧ (∀ r, r ∈ ip_address (ipam st) → i_subnet r ∉ old → r ∈ rows)
  ∧ (∀ r, r ∈ ip_address (ipam st) → i_subnet r ∈ old → mem (s_network row) (i_address r)
       ∧ (moved r id ∈ rows
          ∨ (∃ s, s ∈ live_subnets (ipam st) ∧ s_id s ∈ old ∧ SubnetSplit._is_default_placeholder r = true
               ∧ (i_address r = network_address (s_network s) ∨ is_boundary (s_network s) "unicast" (i_address r)))
          ∨ (s_gateway row ≠ Some (i_address r) ∧ _is_default_gateway_row r = true
             ∧ ∃ s, s ∈ live_subnets (ipam st) ∧ s_id s ∈ old ∧ s_gateway s = Some (i_address r))))
  ∧ (∀ r, r ∈ rows → i_subnet r = id → (∃ r0, r0 ∈ ip_address (ipam st) ∧ i_subnet r0 ∈ old ∧ r = moved r0 id)
       ∨ is_placeholder (i_status r) = true ∧ is_boundary (s_network row) (s_kind row) (i_address r))
  ∧ (∀ a, is_boundary (s_network row) (s_kind row) a → a ∈ map i_address (rows_of (ipam (r_state res)) id))
  ∧ NoDup (map i_address (rows_of (ipam (r_state res)) id)).
Proof.
  intros Hok Htl Hfr Hfk Hin Hnd Hc. destruct (commit_sources _ _ _ _ _ _ _ _ _ Hok Htl Hc)
    as (sources & n & sv & -> & _ & _ & _ & Hsrc & _ & Hn & Hd & Hcov & _). clear Hc. cbv zeta.
  destruct (merged_row st target sources n sv user id) as (-> & -> & -> & -> & ->). rewrite merge_rows.
  destruct (_gateway_plan sources n (rows_of_sources (ipam st) sources)) as [gw retired] eqn:Ep.
  apply gateway_plan_spec in Ep as [_ Hret]. cbn [fst snd].
  set (db2 := migrated (ipam st) sources retired id). pose proof (elem_moved (ipam st) sources retired id) as Hm. fold db2 in Hm.
  assert (Hlive : ∀ s, s ∈ sources → s ∈ live_subnets (ipam st)) by (intros s Hs; by apply Hsrc).
  assert (Hnew : id ∉ map s_id sources).
  { intros (s & -> & Hs)%list_elem_of_fmap. apply Hfr, list_elem_of_fmap_2. by apply Hlive, elem_live_subnets in Hs as []. }
  assert (Hof : ∀ r, r ∈ rows_of_sources (ipam st) sources ↔ r ∈ ip_address (ipam st) ∧ i_subnet r ∈ map s_id sources).
  { intros r. unfold rows_of_sources. by rewrite elem_filter, bool_decide_eq_true. }
  assert (Hsr : ∀ r, r ∈ ip_address (ipam st) → i_subnet r ∈ map s_id sources →
            ∃ s, s ∈ sources ∧ i_subnet r = s_id s ∧ mem (s_network s) (i_address r)).
  { intros r Hr (s & E & Hs)%list_elem_of_fmap. exists s. split_and!; [done..|].
    apply (Hin s r (Hlive s Hs)). by apply elem_rows_of. }
  split_and!.
  - intros r [[[_ H]|(r0 & _ & _ & ->)]%Hm|(-> & _)%elem_missing_rows]%elem_of_app; done.
  - intros r Hr Hne. apply elem_of_app. left. apply Hm. by left.
  - intros r Hr Hi. destruct (Hsr r Hr Hi) as (s & Hs & Es & Hma). split; [apply Hcov; eauto|].
    destruct (move_row_spec sources retired id r) as [[Hp _]|[Hp _]].
    + right. destruct Hp as [[Hb Hdp]|[Hb Hdp]].
      * left. apply elem_source_boundary in Hb as (t & Ht & Hb). exists t. split_and!; [by apply Hlive|by apply list_elem_of_fmap_2|done..].
      * right. destruct (Hret _ Hb) as (H1 & t & Ht & H2 & _). split_and!; [done..|].
        exists t. split_and!; [by apply Hlive|by apply list_elem_of_fmap_2|done].
    + left. apply elem_of_app. left. apply Hm. right. exists r. split_and!; [by apply Hof|done..].
  - intros r [[[Hr H]|(r0 & Hr0 & _ & ->)]%Hm|(H1 & H2 & H3 & _)%elem_missing_rows]%elem_of_app Hid.
    + exfalso. apply Hfr. rewrite <- Hid. by apply Hfk.
    + left. exists r0. by apply Hof in Hr0 as [? ?].
    + right. by rewrite elem_boundary in H3.
  - intros a. apply seeded_cover.
  - apply seeded_NoDup; [done|]. eapply sublist_NoDup.
    2: { apply moved_addresses. intros r Hr E. apply Hfr. rewrite <- E. by apply Hfk. }
    by apply (source_rows_NoDup _ _ (s_block target) Hok Hsrc).
Qed.

Lemma merge_rows_follow_witness :
  ∃ res, commit_subnet_merge merge_sample no_attr true (half "s" 0) ["t"] (Canonical (SubnetSplit.net 0 24)) None "n" = Ok res
    ∧ NoDup (map i_address (rows_of (ipam (r_state res)) "n")).
Proof.
  eexists. split; [vm_compute; reflexivity|].
  eapply (merge_rows_follow merge_sample no_attr true (half "s" 0) ["t"] (Canonical (SubnetSplit.net 0 24)) None "n").
  - apply merge_sample_tree.
  - apply (bool_decide_unpack _). vm_compute. exact I.
  - apply (bool_decide_unpack _). vm_compute. exact I.
  - apply Forall_forall. apply (bool_decide_unpack _). vm_compute. exact I.
  - intros s r Hs. revert r. apply Forall_forall. revert s Hs. apply Forall_forall. apply (bool_decide_unpack _). vm_compute. exact I.
  - apply Forall_forall. apply (bool_decide_unpack _). vm_compute. exact I.
  - vm_compute. reflexivity.
Defined.
End SubnetMerge.
