(* ===== verification/Mac.v ===== *)
(** * MAC addresses

    [backend/app/core/mac.py]: the strict canonicaliser every MAC column
    goes through. *)
From S2P Require Import PyStr.

Module Mac.

Inductive mac_error := NotTwelveHexChars.

(** The character class [[:\-.\s]] of [_MAC_DELIMS]. *)
Definition mac_delim (c : ascii) : bool :=
  chr_is ":" c || chr_is "-" c || chr_is "." c || is_space c.

Definition hex_digit (c : ascii) : bool := existsb (chr_is c) "0123456789abcdef".

(** [_MAC_DELIMS.sub("", raw.strip()).lower()]. *)
Definition mac_cleaned (raw : str) : str :=
  lower (List.filter (λ c, negb (mac_delim c)) (strip is_space raw)).

Definition canonicalize_mac (raw : str) : result mac_error str :=
  let cleaned := mac_cleaned raw in
  if negb (length cleaned =? 12) || negb (forallb hex_digit cleaned)
  then Err NotTwelveHexChars
  else Ok (join ":" (map (λ i, take 2 (drop i cleaned)) [0; 2; 4; 6; 8; 10])).

Lemma hex_digit_plain c : hex_digit c = true →
  mac_delim c = false ∧ lower_char c = c ∧ is_space c = false.
Proof.
  intros H. cut (negb (mac_delim c) && Ascii.eqb (lower_char c) c && negb (is_space c) = true).
  - intros Hc. bool_hyps. split_and!; [done|by apply Ascii.eqb_eq|done].
  - revert c H. apply ascii_subclass. vm_compute. reflexivity.
Qed.

Lemma filter_join ws : Forall (λ w, forallb hex_digit w = true) ws →
  List.filter (λ c, negb (mac_delim c)) (join ":" ws) = mjoin ws.
Proof.
  assert (Hw : ∀ w, forallb hex_digit w = true →
    List.filter (λ c, negb (mac_delim c)) w = w).
  { intros w Hw. apply filter_all. eapply forallb_impl, Hw. intros c Hc.
    by destruct (hex_digit_plain c Hc) as [-> _]. }
  induction 1 as [|w ws Hhex Hws IH]; [done|].
  destruct (decide (ws = [])) as [->|Hn]; [by simpl; rewrite app_nil_r, Hw|].
  rewrite join_cons, List.filter_app, Hw by done. simpl. by rewrite <- IH.
Qed.

Lemma cleaned_join ws : Forall (λ w, forallb hex_digit w = true) ws →
  mac_cleaned (join ":" ws) = mjoin ws.
Proof.
  intros Hws. unfold mac_cleaned. rewrite strip_none, filter_join by first
    [ done
    | apply (join_forallb ":"%char (λ c, negb (is_space c))); [done|];
      eapply Forall_impl; [exact Hws|]; intros w Hw; eapply forallb_impl, Hw;
      intros c Hc; by destruct (hex_digit_plain c Hc) as (_ & _ & ->) ].
  apply (lower_id hex_digit); [apply hex_digit_plain|].
  induction Hws; simpl; [done|]. by apply forallb_app_iff.
Qed.

(** The six groups of a canonical MAC spell its twelve digits. *)
Lemma canonical_groups (h : str) : length h = 12 → forallb hex_digit h = true →
  mac_cleaned (join ":" (map (λ i, take 2 (drop i h)) [0; 2; 4; 6; 8; 10])) = h.
Proof.
  intros Hlen Hh. rewrite cleaned_join.
  - clear Hh. do 12 (destruct h as [|? h]; [done|]). by destruct h.
  - apply Forall_fmap, Forall_true. intros i. simpl. apply take_forallb.
    rewrite <- (take_drop i h) in Hh. by apply forallb_app_iff in Hh as [_ ?].
Qed.

(** Canonicalising a MAC keeps its twelve hex digits whatever separators
    and case the operator typed, yields the 17-character colon form, and is a
    normal form: canonicalising again changes nothing, and two spellings get
    the same canonical form exactly when they have the same digits. *)
Theorem canonicalize_mac_normal_form (raw m : str) :
  canonicalize_mac raw = Ok m →
  canonicalize_mac m = Ok m ∧ mac_cleaned m = mac_cleaned raw ∧ length m = 17 ∧
  (∀ raw', canonicalize_mac raw' = Ok m ↔ mac_cleaned raw' = mac_cleaned raw).
Proof.
  unfold canonicalize_mac at 1. destruct (_ || _) eqn:E; [done|]. intros [= <-].
  pose proof E as [Hlen Hhex]%orb_false_iff. bool_hyps. apply Nat.eqb_eq in Hlen.
  pose proof (canonical_groups _ Hlen Hhex) as Hc.
  assert (Hsame : ∀ raw', mac_cleaned raw' = mac_cleaned raw → canonicalize_mac raw' =
    Ok (join ":" (map (λ i, take 2 (drop i (mac_cleaned raw))) [0; 2; 4; 6; 8; 10]))).
  { intros raw' Hr. unfold canonicalize_mac. by rewrite Hr, Hlen, Hhex. }
  split_and!.
  - by apply Hsame.
  - done.
  - clear -Hlen. revert Hlen. generalize (mac_cleaned raw). intros h Hlen.
    do 12 (destruct h as [|? h]; [done|]). by destruct h.
  - intros raw'. split; [|by apply Hsame].
    unfold canonicalize_mac. destruct (_ || _) eqn:E' in |- *; [done|]. intros [=].
    apply orb_false_iff in E' as [Hl Hx]. bool_hyps. apply Nat.eqb_eq in Hl.
    pose proof (canonical_groups _ Hl Hx) as Hc'. simpl in Hc, Hc'. congruence.
Qed.

Lemma canonicalize_mac_normal_form_witness :
  canonicalize_mac " AA-bb.CC:00 11 2f" = Ok "aa:bb:cc:00:11:2f" ∧
  length "aa:bb:cc:00:11:2f" = 17.
Proof.
  split; [vm_compute; reflexivity|].
  apply (canonicalize_mac_normal_form " AA-bb.CC:00 11 2f" "aa:bb:cc:00:11:2f").
  vm_compute; reflexivity.
Defined.

End Mac.
