(* ===== verification/DnsNames.v ===== *)
(** * DNS-shaped names

    [backend/app/core/dns_names.py]: the validators ([validate_*], which
    normalise or raise), the length rules of a published name, the
    non-raising sanitisers of the DHCP lease and integration paths, and the
    checks of a name on its way into a zone.  BIND's check-names rules are in
    [BindCheckNames.v].  [idna.encode] (a third-party package) is the
    parameter [idna_encode]; nothing is assumed of it. *)
From S2P Require Import PyStr.

Module DnsNames.

Definition MAX_LABEL_LEN : nat := 63.
Definition MAX_NAME_LEN : nat := 253.

(** The [ValueError]s, with the value their message quotes. *)
Inductive name_error :=
| EmptyLabel
| LabelTooLong (label : str)
| BadHostLabel (label : str)
| BadDnsLabel (label : str)
| BadIdnaLabel (label : str)
| MisplacedWildcard
| EmptyName
| RootDomain
| NameTooLong (name : str).

(** ** Character classes and label patterns *)
Definition alnum (c : ascii) : bool := is_upper_az c || is_lower_az c || is_digit c.
Definition hyphen (c : ascii) : bool := chr_is "-" c.
Definition ldh (c : ascii) : bool := alnum c || hyphen c.
Definition alnum_ (c : ascii) : bool := alnum c || chr_is "_" c.
Definition ldh_ (c : ascii) : bool := alnum_ c || hyphen c.

(** [edge(mid{0,61}edge)?\Z]: one edge character, or two edge characters
    with at most 61 [mid] characters in between. *)
Definition label_re (edge mid : ascii → bool) (s : str) : bool :=
  match s with
  | [] => false
  | c :: rest =>
      edge c &&
      match reverse rest with
      | [] => true
      | d :: inner => edge d && (length inner <=? 61) && forallb mid inner
      end
  end.

Definition _HOST_LABEL_RE (s : str) : bool := label_re alnum ldh s.

(** The pattern's leading [(?![-])] refuses a leading hyphen. *)
Definition _DNS_LABEL_RE (s : str) : bool :=
  negb (startswith "-" s) && label_re alnum_ ldh_ s.

Definition control_char (c : ascii) : bool := between 0 31 c || (ord c =? 127).

Definition zonefile_unsafe_char (c : ascii) : bool :=
  is_space c || existsb (λ d, chr_is d c) [";"; "$"; "("; ")"; ascii_of_nat 34; "@"; "\"]%char
  || control_char c.

Definition contains_control_chars (value : str) : bool := existsb control_char value.

Definition strip_control_chars (value : str) : str :=
  List.filter (λ c, negb (control_char c)) value.

Definition contains_zonefile_unsafe (value : str) : bool := existsb zonefile_unsafe_char value.

Definition _strip_root (name : str) : str * bool :=
  if endswith "." name then (drop_last name, true) else (name, false).

Section validators.
Variable idna_encode : str → option str.

Definition _to_ascii_label (label : str) : result name_error str :=
  if isascii label then Ok label
  else match idna_encode label with
       | Some a => Ok a
       | None => Err (BadIdnaLabel label)
       end.

Definition validate_host_label (label : str) : result name_error str :=
  if bool_decide (label = []) then Err EmptyLabel
  else
    ascii_label ← _to_ascii_label label;
    if MAX_LABEL_LEN <? length ascii_label then Err (LabelTooLong ascii_label)
    else if negb (_HOST_LABEL_RE ascii_label) then Err (BadHostLabel ascii_label)
    else Ok (lower ascii_label).

Definition validate_hostname (name : str) : result name_error str :=
  let raw := strip is_space name in
  if bool_decide (raw = []) then Err EmptyName
  else
    let body := fst (_strip_root raw) in
    if bool_decide (body = []) then Err RootDomain
    else
      labels ← map_result validate_host_label (split "." body);
      let normalized := join "." labels in
      if MAX_NAME_LEN <? length normalized then Err (NameTooLong normalized)
      else Ok normalized.

Definition validate_dns_label (allow_wildcard : bool) (label : str) : result name_error str :=
  if bool_decide (label = []) then Err EmptyLabel
  else if bool_decide (label = "*") then
    if allow_wildcard then Ok "*" else Err MisplacedWildcard
  else
    ascii_label ← _to_ascii_label label;
    if MAX_LABEL_LEN <? length ascii_label then Err (LabelTooLong ascii_label)
    else if negb (_DNS_LABEL_RE ascii_label) then Err (BadDnsLabel ascii_label)
    else Ok (lower ascii_label).

(** The loop over [enumerate(parts)]: only index 0 may be a wildcard. *)
Definition owner_labels (parts : list str) : result name_error (list str) :=
  match parts with
  | [] => Ok []
  | part0 :: rest =>
      l0 ← validate_dns_label true part0;
      ls ← map_result (validate_dns_label false) rest;
      Ok (l0 :: ls)
  end.

Definition validate_record_owner (name : str) : result name_error str :=
  let raw := strip is_space name in
  if bool_decide (raw = []) || bool_decide (raw = "@") then Ok "@"
  else
    let body := fst (_strip_root raw) in
    if bool_decide (body = []) then Ok "@"
    else
      out ← owner_labels (split "." body);
      let normalized := join "." out in
      if MAX_NAME_LEN <? length normalized then Err (NameTooLong normalized)
      else Ok normalized.

Definition validate_fqdn (allow_underscore : bool) (name : str) : result name_error str :=
  let raw := strip is_space name in
  if bool_decide (raw = []) then Err EmptyName
  else
    let body := fst (_strip_root raw) in
    if bool_decide (body = []) then Err RootDomain
    else
      labels ← (if allow_underscore
                then map_result (validate_dns_label false) (split "." body)
                else map_result validate_host_label (split "." body));
      let normalized := join "." labels in
      if MAX_NAME_LEN <? length normalized then Err (NameTooLong normalized)
      else Ok normalized.

Definition validate_optional_hostname (v : option str) : result name_error (option str) :=
  match v with
  | None => Ok None
  | Some v =>
      if bool_decide (strip is_space v = []) then Ok (Some [])
      else Some <$> validate_hostname v
  end.

(** Why a host name cannot be published as a record owner. *)
Inductive owner_refusal :=
| OwnerBlank
| OwnerBlanksOrControls
| OwnerInvalid (e : name_error)
| OwnerIsApex.

Definition publishable_host_owner_error (hostname : option str) : option owner_refusal :=
  match hostname with
  | None => Some OwnerBlank
  | Some h =>
      if bool_decide (strip is_space h = []) then Some OwnerBlank
      else if negb (bool_decide (h = strip is_space h)) || contains_control_chars h
      then Some OwnerBlanksOrControls
      else match validate_record_owner h with
           | Err e => Some (OwnerInvalid e)
           | Ok owner => if bool_decide (owner = "@") then Some OwnerIsApex else None
           end
  end.
End validators.

(** ** Full-name length (RFC 1035 wire limit) *)
Inductive length_error :=
| NameOverLimit (body : str)
| LabelOverLimit (label : str)
| InZoneOverLimit (host zone : str) (len : nat).

(** One name without blanks around it and without trailing dots
    ([name.strip().rstrip(".")]). *)
Definition bare_name (name : str) : str := rstrip (chr_is ".") (strip is_space name).

Definition name_length_error (name : str) : option length_error :=
  let body := bare_name name in
  if MAX_NAME_LEN <? length body then Some (NameOverLimit body)
  else match List.find (λ label, MAX_LABEL_LEN <? length label) (split "." body) with
       | Some label => Some (LabelOverLimit label)
       | None => None
       end.

Definition name_in_zone_error (hostname zone_name : str) : option length_error :=
  let zone := bare_name zone_name in
  let host := bare_name hostname in
  if bool_decide (host = []) || bool_decide (zone = []) then None
  else
    let full := host ++ "." ++ zone in
    match name_length_error full with
    | None => None
    | Some err =>
        if MAX_NAME_LEN <? length full then Some (InZoneOverLimit host zone (length full))
        else Some err
    end.

(** ** The sanitisers *)

(** [[a-z0-9-]], and [_SANITIZE_LABEL_RE.sub("-", s)]: each maximal run of
    other characters becomes one hyphen. *)
Definition sanitize_keep (c : ascii) : bool := is_lower_az c || is_digit c || hyphen c.

Fixpoint sub_runs (in_run : bool) (s : str) : str :=
  match s with
  | [] => []
  | c :: s' =>
      if sanitize_keep c then c :: sub_runs false s'
      else if in_run then sub_runs true s' else "-"%char :: sub_runs true s'
  end.

Definition sanitize_host_label (raw : option str) : str :=
  match raw with
  | None => []
  | Some raw =>
      if bool_decide (raw = []) then []
      else
        let s := lower (strip (chr_is (ascii_of_nat 34)) (strip is_space raw)) in
        strip hyphen (take MAX_LABEL_LEN (sub_runs false s))
  end.

(** [while labels and len(".".join(labels)) > MAX_NAME_LEN: labels.pop()],
    the number of labels bounding the iterations. *)
Fixpoint trim_labels (fuel : nat) (labels : list str) : list str :=
  match fuel with
  | 0 => labels
  | S fuel' =>
      if negb (bool_decide (labels = [])) && (MAX_NAME_LEN <? length (join "." labels))
      then trim_labels fuel' (removelast labels)
      else labels
  end.

Definition sanitize_hostname (raw : option str) : str :=
  match raw with
  | None => []
  | Some raw =>
      if bool_decide (raw = []) then []
      else
        let labels := List.filter (λ l, negb (bool_decide (l = [])))
                        (map (λ p, sanitize_host_label (Some p)) (split "." raw)) in
        if bool_decide (labels = []) then []
        else
          let name := join "." labels in
          if length name <=? MAX_NAME_LEN then name
          else join "." (trim_labels (length labels) labels)
  end.

(** [name.translate(_TRANSLITERATE)]. *)
Definition _TRANSLITERATE (c : ascii) : str :=
  match nat_of_ascii c with
  | 228 => "ae" | 246 => "oe" | 252 => "ue"
  | 196 => "Ae" | 214 => "Oe" | 220 => "Ue" | 223 => "ss"
  | _ => [c]
  end.

(** The base characters of [unicodedata.normalize("NFKD", c)], combining
    marks dropped.  U+03BC (from the micro sign) and U+2044 (the slash of the
    vulgar fractions) lie outside Latin-1; both are kept as the micro sign,
    which the label pattern below replaces exactly as it replaces them. *)
Definition nfkd_base (c : ascii) : str :=
  let n := ord c in
  let micro := ascii_of_nat 181 in
  if existsb (Nat.eqb n) [160; 168; 175; 180; 184] then " "
  else if existsb (Nat.eqb n) [170; 224; 225; 226; 227; 228; 229] then "a"
  else if n =? 178 then "2" else if n =? 179 then "3" else if n =? 185 then "1"
  else if n =? 188 then "1" ++ [micro] ++ "4"
  else if n =? 189 then "1" ++ [micro] ++ "2"
  else if n =? 190 then "3" ++ [micro] ++ "4"
  else if existsb (Nat.eqb n) [192; 193; 194; 195; 196; 197] then "A"
  else if n =? 199 then "C" else if n =? 231 then "c"
  else if existsb (Nat.eqb n) [200; 201; 202; 203] then "E"
  else if existsb (Nat.eqb n) [204; 205; 206; 207] then "I"
  else if n =? 209 then "N" else if n =? 241 then "n"
  else if existsb (Nat.eqb n) [210; 211; 212; 213; 214] then "O"
  else if existsb (Nat.eqb n) [217; 218; 219; 220] then "U"
  else if n =? 221 then "Y"
  else if existsb (Nat.eqb n) [232; 233; 234; 235] then "e"
  else if existsb (Nat.eqb n) [236; 237; 238; 239] then "i"
  else if existsb (Nat.eqb n) [186; 242; 243; 244; 245; 246] then "o"
  else if existsb (Nat.eqb n) [249; 250; 251; 252] then "u"
  else if existsb (Nat.eqb n) [253; 255] then "y"
  else [c].

(** The apostrophes of [_APOSTROPHES_RE] within Latin-1. *)
Definition apostrophe (c : ascii) : bool := chr_is "'" c || chr_is "`" c.

Definition _is_host_name (name : str) : bool :=
  if bool_decide (name = []) || (MAX_NAME_LEN <? length name) || negb (isascii name)
  then false
  else forallb _HOST_LABEL_RE (split "." name).

Definition sanitize_mirrored_hostname (raw : option str) : str :=
  match raw with
  | None => []
  | Some raw =>
      if bool_decide (raw = []) then []
      else
        let name := strip is_space raw in
        if _is_host_name name then name
        else
          let folded := mjoin (map nfkd_base (mjoin (map _TRANSLITERATE name))) in
          sanitize_hostname (Some (List.filter (λ c, negb (apostrophe c)) folded))
  end.

(** ** Labels *)
Lemma label_re_spec edge mid s :
  (∀ c, edge c = true → mid c = true) →
  label_re edge mid s = true ↔
  s ≠ [] ∧ length s ≤ 63 ∧ forallb mid s = true ∧
  (∀ c s', s = c :: s' → edge c = true) ∧ (∀ s' c, s = s' ++ [c] → edge c = true).
Proof.
  intros Hem. destruct s as [|c rest]; simpl; [naive_solver|].
  destruct (reverse rest) as [|d inner] eqn:Hr.
  { apply (f_equal reverse) in Hr. rewrite reverse_involutive in Hr. subst rest.
    simpl. rewrite andb_true_r, andb_true_r. split.
    - intros Hc. split_and!; try done; [lia|auto|naive_solver|].
      intros s' c' Hs. by destruct s' as [|? [|]]; simplify_eq/=.
    - intros (_ & _ & _ & H & _). by eapply H. }
  apply (f_equal reverse) in Hr. rewrite reverse_involutive, reverse_cons in Hr. subst rest.
  rewrite !andb_true_iff, Nat.leb_le, length_app, length_reverse, forallb_app_iff. simpl.
  rewrite !forallb_Forall, Forall_reverse, andb_true_r. split.
  - intros (Hc & (Hd & Hl) & Hi). split_and!; try done; [lia|auto..|naive_solver|].
    intros s' c' Hs. rewrite app_comm_cons in Hs. apply app_inj_tail in Hs as [_ <-]. done.
  - intros (_ & Hl & (Hc & Hi & Hd) & Hh & Ht). split_and!; [by eapply Hh| |lia|done].
    eapply (Ht (c :: reverse inner)). done.
Qed.

Lemma alnum_ldh c : alnum c = true → ldh c = true.
Proof. unfold ldh. by intros ->. Qed.

Lemma alnum_ldh_ c : alnum_ c = true → ldh_ c = true.
Proof. unfold ldh_. by intros ->. Qed.

Lemma alnum_hyphen c : ldh c = true → hyphen c = false → alnum c = true.
Proof. unfold ldh. intros H Hh. by rewrite Hh, orb_false_r in H. Qed.

(** A string of LDH characters with no hyphen at either end is a host label,
    up to its length. *)
Lemma host_label_intro s :
  s ≠ [] → length s ≤ 63 → forallb ldh s = true →
  (∀ c s', s = c :: s' → hyphen c = false) → (∀ s' c, s = s' ++ [c] → hyphen c = false) →
  _HOST_LABEL_RE s = true.
Proof.
  intros Hne Hlen Hs Hh Ht. apply label_re_spec; [apply alnum_ldh|]. split_and!; try done.
  - intros c s' ->. apply alnum_hyphen; [|by eapply Hh]. simpl in Hs. by bool_hyps.
  - intros s' c ->. apply alnum_hyphen; [|by eapply Ht].
    apply forallb_app_iff in Hs as [_ Hs]. simpl in Hs. by bool_hyps.
Qed.

Lemma host_label_facts s : _HOST_LABEL_RE s = true →
  s ≠ [] ∧ length s ≤ 63 ∧ forallb ldh s = true ∧
  (∀ c s', s = c :: s' → alnum c = true) ∧ (∀ s' c, s = s' ++ [c] → alnum c = true).
Proof. apply label_re_spec, alnum_ldh. Qed.

Lemma lower_edges (p : ascii → bool) s :
  (∀ c, p c = true → p (lower_char c) = true) →
  (∀ c s', s = c :: s' → p c = true) ∧ (∀ s' c, s = s' ++ [c] → p c = true) →
  (∀ c s', lower s = c :: s' → p c = true) ∧ (∀ s' c, lower s = s' ++ [c] → p c = true).
Proof.
  intros Hp [Hh Ht]. split.
  - destruct s as [|d s]; [done|]. intros c s' [= <- _]. apply Hp. by eapply Hh.
  - destruct s as [|d s _] using rev_ind; [by intros [|] ?|]. intros s' c.
    rewrite lower_app. intros [_ <-]%app_inj_tail. apply Hp. by eapply Ht.
Qed.

Lemma label_re_lower edge mid s :
  (∀ c, edge c = true → mid c = true) →
  (∀ c, edge c = true → edge (lower_char c) = true) →
  (∀ c, mid c = true → mid (lower_char c) = true) →
  label_re edge mid s = true → label_re edge mid (lower s) = true.
Proof.
  intros Hem He Hm. rewrite !label_re_spec by done. intros (Hne & Hlen & Hs & Hends).
  apply (lower_edges _ _ He) in Hends. rewrite lower_length.
  split_and!; [by destruct s|done|by eapply lower_forallb|apply Hends|apply Hends].
Qed.

Ltac by_chars := apply ascii_subclass; vm_compute; reflexivity.

Lemma host_label_lower s : _HOST_LABEL_RE s = true → _HOST_LABEL_RE (lower s) = true.
Proof.
  apply label_re_lower; [apply alnum_ldh | |].
  - apply (ascii_subclass _ (λ c, alnum (lower_char c))). vm_compute. reflexivity.
  - apply (ascii_subclass _ (λ c, ldh (lower_char c))). vm_compute. reflexivity.
Qed.

Lemma startswith_chr c s : startswith [c] s = true ↔ ∃ s', s = c :: s'.
Proof.
  unfold startswith. rewrite bool_decide_eq_true. destruct s as [|d s]; simpl.
  - naive_solver.
  - rewrite take_0. naive_solver.
Qed.

Lemma dns_label_facts s : _DNS_LABEL_RE s = true ↔
  s ≠ [] ∧ length s ≤ 63 ∧ forallb ldh_ s = true ∧
  (∀ c s', s = c :: s' → alnum_ c = true) ∧ (∀ s' c, s = s' ++ [c] → alnum_ c = true).
Proof.
  unfold _DNS_LABEL_RE. rewrite andb_true_iff, negb_true_iff.
  rewrite label_re_spec by apply alnum_ldh_. split; [tauto|].
  intros H. split; [|done]. apply not_true_iff_false. rewrite startswith_chr.
  intros (s' & ->). destruct H as (_ & _ & _ & H & _). by specialize (H _ _ eq_refl).
Qed.

Lemma dns_label_lower s : _DNS_LABEL_RE s = true → _DNS_LABEL_RE (lower s) = true.
Proof.
  rewrite !dns_label_facts. intros H.
  rewrite <- !label_re_spec in * by apply alnum_ldh_.
  revert H. apply label_re_lower; [apply alnum_ldh_ | |].
  - apply (ascii_subclass _ (λ c, alnum_ (lower_char c))). vm_compute. reflexivity.
  - apply (ascii_subclass _ (λ c, ldh_ (lower_char c))). vm_compute. reflexivity.
Qed.

(** Every host label is a DNS label (the RFC 2181 rule is the looser one). *)
Lemma host_label_dns s : _HOST_LABEL_RE s = true → _DNS_LABEL_RE s = true.
Proof.
  rewrite dns_label_facts. intros (Hne & Hlen & Hs & Hh & Ht)%host_label_facts.
  split_and!; try done.
  - eapply forallb_impl, Hs. by_chars.
  - intros c s' Hc. eapply (ascii_subclass alnum); [vm_compute; reflexivity|by eapply Hh].
  - intros s' c Hc. eapply (ascii_subclass alnum); [vm_compute; reflexivity|by eapply Ht].
Qed.

(** ** Dotted names of good labels *)
Section dotted.
(** [good] is a class of labels over [chars], none of them a dot or a blank. *)
Variables (good : str → bool) (chars : ascii → bool).
Hypothesis good_ne : ∀ l, good l = true → l ≠ [].
Hypothesis good_chars : ∀ l, good l = true → forallb chars l = true.
Hypothesis chars_plain : ∀ c, chars c = true → is_space c = false ∧ chr_is "." c = false.

Definition dotted (labels : list str) : Prop :=
  labels ≠ [] ∧ Forall (λ l, good l = true) labels.

Lemma dotted_no_dot labels : dotted labels → Forall (λ w, contains "." w = false) labels.
Proof.
  intros [_ H]. eapply Forall_impl; [exact H|]. intros l Hl. apply existsb_none.
  intros c Hc. apply chars_plain. eapply forallb_elem; [|exact Hc]. by apply good_chars.
Qed.

Lemma dotted_split labels : dotted labels → split "." (join "." labels) = labels.
Proof. intros H. apply split_join; [apply H | by apply dotted_no_dot]. Qed.

Lemma dotted_no_space labels : dotted labels →
  forallb (λ c, negb (is_space c)) (join "." labels) = true.
Proof.
  intros [_ H]. apply join_forallb; [done|]. eapply Forall_impl; [exact H|].
  intros l Hl. eapply forallb_impl, good_chars; [|done]. intros c Hc.
  by destruct (chars_plain c Hc) as [-> _].
Qed.

Lemma dotted_strip labels : dotted labels → strip is_space (join "." labels) = join "." labels.
Proof. intros H. by apply strip_none, dotted_no_space. Qed.

Lemma dotted_ne labels : dotted labels → join "." labels ≠ [].
Proof.
  intros [Hne H] Hj. apply join_empty in Hj as [->| ->]; [done|].
  inversion_clear H as [|? ? Hg]. by apply good_ne in Hg.
Qed.

Lemma dotted_not_root labels : dotted labels → endswith "." (join "." labels) = false.
Proof.
  intros [Hne H]. apply endswith_chr_false. intros s' Hs.
  destruct labels as [|l labels _] using rev_ind; [done|].
  apply Forall_app in H as [_ Hl]. apply Forall_inv in Hl.
  assert (∃ pre, join "." (labels ++ [l]) = pre ++ l) as [pre Hpre].
  { clear. induction labels as [|w ws [pre IH]]; [by exists []|].
    simpl app. rewrite join_cons by (by destruct ws). rewrite IH.
    exists (w ++ "."%char :: pre). by rewrite <- app_assoc. }
  rewrite Hpre in Hs. destruct l as [|c l _] using rev_ind; [by apply good_ne in Hl|].
  rewrite app_assoc in Hs. apply app_inj_tail in Hs as [_ ->].
  apply good_chars, forallb_app_iff in Hl as [_ Hl]. simpl in Hl. bool_hyps.
  by destruct (chars_plain "."%char H).
Qed.

Lemma dotted_strip_root labels : dotted labels →
  _strip_root (join "." labels) = (join "." labels, false).
Proof. intros H. unfold _strip_root. by rewrite dotted_not_root. Qed.

Lemma dotted_bare labels : dotted labels → bare_name (join "." labels) = join "." labels.
Proof.
  intros H. unfold bare_name. rewrite dotted_strip by done. apply rstrip_id.
  intros s' c Hs. apply chr_is_false. intros ->.
  pose proof (dotted_not_root labels H) as Hr. rewrite endswith_chr_false in Hr. by eapply Hr.
Qed.
End dotted.

Lemma ldh_plain c : ldh c = true → is_space c = false ∧ chr_is "." c = false.
Proof.
  intros H. cut (negb (is_space c) && negb (chr_is "." c) = true).
  - intros H'. by bool_hyps.
  - revert c H. by_chars.
Qed.

Lemma ldh__plain c : ldh_ c = true → is_space c = false ∧ chr_is "." c = false.
Proof.
  intros H. cut (negb (is_space c) && negb (chr_is "." c) = true).
  - intros H'. by bool_hyps.
  - revert c H. by_chars.
Qed.

Lemma host_label_ne l : _HOST_LABEL_RE l = true → l ≠ [].
Proof. by intros [? _]%host_label_facts. Qed.

Lemma host_label_chars l : _HOST_LABEL_RE l = true → forallb ldh l = true.
Proof. by intros (_ & _ & ? & _)%host_label_facts. Qed.

Lemma host_label_ascii l : _HOST_LABEL_RE l = true → isascii l = true.
Proof. intros H%host_label_chars. eapply forallb_impl, H. by_chars. Qed.

Lemma host_label_length l : _HOST_LABEL_RE l = true → length l ≤ MAX_LABEL_LEN.
Proof. by intros (_ & ? & _)%host_label_facts. Qed.

(** ** What the validators return *)
Definition host_nf (l : str) : bool := _HOST_LABEL_RE l && bool_decide (lower l = l).
Definition dns_nf (l : str) : bool := _DNS_LABEL_RE l && bool_decide (lower l = l).
Definition owner_nf (l : str) : bool := bool_decide (l = "*") || dns_nf l.
Definition owner_chars (c : ascii) : bool := ldh_ c || chr_is "*" c.

Lemma host_nf_iff l : host_nf l = true ↔ _HOST_LABEL_RE l = true ∧ lower l = l.
Proof. unfold host_nf. by rewrite andb_true_iff, bool_decide_eq_true. Qed.

Lemma dns_nf_iff l : dns_nf l = true ↔ _DNS_LABEL_RE l = true ∧ lower l = l.
Proof. unfold dns_nf. by rewrite andb_true_iff, bool_decide_eq_true. Qed.

Lemma host_nf_re l : host_nf l = true → _HOST_LABEL_RE l = true.
Proof. by intros [? _]%host_nf_iff. Qed.

Lemma host_nf_dns l : host_nf l = true → dns_nf l = true.
Proof. rewrite host_nf_iff, dns_nf_iff. intros [?%host_label_dns ?]. done. Qed.

Lemma dns_nf_facts l : dns_nf l = true → l ≠ [] ∧ length l ≤ 63 ∧ forallb ldh_ l = true.
Proof. intros [H _]%dns_nf_iff. apply dns_label_facts in H. tauto. Qed.

Lemma dns_nf_star l : dns_nf l = true → l ≠ "*".
Proof. intros H ->. by apply dns_nf_facts in H as (_ & _ & ?). Qed.

Lemma owner_nf_ne l : owner_nf l = true → l ≠ [].
Proof.
  unfold owner_nf. rewrite orb_true_iff, bool_decide_eq_true.
  intros [->|[? _]%dns_nf_facts]; done.
Qed.

Lemma owner_nf_chars l : owner_nf l = true → forallb owner_chars l = true.
Proof.
  unfold owner_nf. rewrite orb_true_iff, bool_decide_eq_true.
  intros [->|(_ & _ & H)%dns_nf_facts]; [done|].
  eapply forallb_impl, H. by_chars.
Qed.

Lemma owner_plain c : owner_chars c = true → is_space c = false ∧ chr_is "." c = false.
Proof.
  intros H. cut (negb (is_space c) && negb (chr_is "." c) = true).
  - intros H'. by bool_hyps.
  - revert c H. by_chars.
Qed.

Abbreviation host_dotted := (dotted host_nf).
Abbreviation owner_dotted := (dotted owner_nf).

Lemma host_nf_ne l : host_nf l = true → l ≠ [].
Proof. by intros ?%host_nf_re%host_label_ne. Qed.

Lemma host_nf_chars l : host_nf l = true → forallb ldh l = true.
Proof. by intros ?%host_nf_re%host_label_chars. Qed.

#[local] Hint Resolve host_nf_ne host_nf_chars ldh_plain owner_nf_ne owner_nf_chars
  owner_plain : spatium.

Lemma host_dotted_owner labels : host_dotted labels → owner_dotted labels.
Proof.
  intros [Hne H]. split; [done|]. eapply Forall_impl; [exact H|]. intros l Hl.
  unfold owner_nf. by rewrite (host_nf_dns l Hl), orb_true_r.
Qed.

Section validator_facts.
Variable idna_encode : str → option str.
Abbreviation vhl := (validate_host_label idna_encode).
Abbreviation vdl := (validate_dns_label idna_encode).

Lemma validate_host_label_Ok label r : vhl label = Ok r → host_nf r = true.
Proof.
  unfold validate_host_label. case_bool_decide; [done|]. rewrite bind_Ok.
  intros (a & _ & Ha). destruct (_ <? _); [done|].
  destruct (_HOST_LABEL_RE a) eqn:E; simplify_eq/=.
  apply host_nf_iff. split; [by apply host_label_lower | apply lower_idem].
Qed.

Lemma validate_host_label_nf l : host_nf l = true → vhl l = Ok l.
Proof.
  intros [H Hl]%host_nf_iff. unfold validate_host_label, _to_ascii_label.
  rewrite bool_decide_false by by apply host_label_ne.
  rewrite (host_label_ascii _ H). simpl.
  destruct (MAX_LABEL_LEN <? length l) eqn:E.
  - apply host_label_length in H. apply Nat.ltb_lt in E. lia.
  - by rewrite H, Hl.
Qed.

Lemma validate_dns_label_Ok w label r : vdl w label = Ok r →
  (r = "*" ∧ w = true) ∨ dns_nf r = true.
Proof.
  unfold validate_dns_label. case_bool_decide; [done|].
  case_bool_decide; [destruct w; [intros [= <-]; by left|done]|]. rewrite bind_Ok.
  intros (a & _ & Ha). destruct (_ <? _); [done|].
  destruct (_DNS_LABEL_RE a) eqn:E; simplify_eq/=. right.
  apply dns_nf_iff. split; [by apply dns_label_lower | apply lower_idem].
Qed.

Lemma validate_dns_label_nf w l : dns_nf l = true → vdl w l = Ok l.
Proof.
  intros Hnf. pose proof (dns_nf_facts l Hnf) as (Hne & Hlen & Hs).
  pose proof (dns_nf_star l Hnf) as Hst. apply dns_nf_iff in Hnf as [H Hl].
  unfold validate_dns_label, _to_ascii_label.
  rewrite !bool_decide_false by done.
  replace (isascii l) with true by (symmetry; eapply forallb_impl, Hs; by_chars). simpl.
  destruct (MAX_LABEL_LEN <? length l) eqn:E.
  - apply Nat.ltb_lt in E. unfold MAX_LABEL_LEN in E. lia.
  - by rewrite H, Hl.
Qed.

Lemma map_result_Forall {A B E} (f : A → result E B) (P : B → Prop) l ys :
  (∀ x y, f x = Ok y → P y) → map_result f l = Ok ys → Forall P ys ∧ length ys = length l.
Proof.
  intros Hf H%map_result_Ok. induction H; [by split; [constructor|]|].
  destruct IHForall2 as [? IH]. split; [constructor; eauto|]. simpl. by rewrite IH.
Qed.

Lemma map_result_split_ne {E} (f : str → result E str) s ys :
  map_result f (split "." s) = Ok ys → ys ≠ [].
Proof.
  intros H ->. apply map_result_Ok, Forall2_length in H.
  pose proof (split_nonempty "." s). by destruct (split "." s).
Qed.

Lemma validate_hostname_Ok name r : validate_hostname idna_encode name = Ok r →
  ∃ labels, host_dotted labels ∧ r = join "." labels ∧ length r ≤ MAX_NAME_LEN.
Proof.
  unfold validate_hostname. case_bool_decide; [done|]. case_bool_decide; [done|].
  rewrite bind_Ok. intros (labels & Hl & Hr).
  destruct (MAX_NAME_LEN <? _) eqn:E; simplify_eq/=. exists labels. split_and!.
  - split; [by eapply map_result_split_ne|].
    eapply map_result_Forall, Hl. apply validate_host_label_Ok.
  - done.
  - by apply Nat.ltb_ge in E.
Qed.

Lemma validate_hostname_nf labels : host_dotted labels →
  length (join "." labels) ≤ MAX_NAME_LEN →
  validate_hostname idna_encode (join "." labels) = Ok (join "." labels).
Proof.
  intros Hd Hlen. unfold validate_hostname.
  rewrite (dotted_strip host_nf ldh) by eauto with spatium.
  rewrite (dotted_strip_root host_nf ldh) by eauto with spatium. simpl.
  rewrite bool_decide_false by (apply (dotted_ne host_nf); eauto with spatium).
  rewrite (dotted_split host_nf ldh) by eauto with spatium.
  rewrite map_result_id.
  - simpl. apply Nat.ltb_ge in Hlen. by rewrite Hlen.
  - eapply Forall_impl; [apply Hd|]. apply validate_host_label_nf.
Qed.

Lemma owner_labels_Ok parts out : owner_labels idna_encode parts = Ok out → parts ≠ [] →
  ∃ l0 ls, out = l0 :: ls ∧ owner_nf l0 = true ∧ Forall (λ l, dns_nf l = true) ls.
Proof.
  destruct parts as [|p0 rest]; [done|]; simpl. rewrite bind_Ok.
  intros (l0 & H0 & H). apply bind_Ok in H as (ls & Hls & [= <-]). intros _.
  exists l0, ls. split_and!; [done| |].
  - unfold owner_nf. apply validate_dns_label_Ok in H0 as [[-> _]| ->]; [done|].
    apply orb_true_r.
  - eapply map_result_Forall, Hls. intros x y [[_ ?]|?]%validate_dns_label_Ok; done.
Qed.

Lemma owner_labels_nf l0 ls : owner_nf l0 = true → Forall (λ l, dns_nf l = true) ls →
  owner_labels idna_encode (l0 :: ls) = Ok (l0 :: ls).
Proof.
  intros H0 Hls. simpl. replace (vdl true l0) with (@Ok name_error _ l0).
  - simpl. rewrite map_result_id; [done|].
    eapply Forall_impl; [exact Hls|]. apply validate_dns_label_nf.
  - unfold owner_nf in H0. apply orb_true_iff in H0 as [->%bool_decide_eq_true|H0]; [done|].
    symmetry. by apply validate_dns_label_nf.
Qed.

Definition owner_shape (labels : list str) : Prop :=
  ∃ l0 ls, labels = l0 :: ls ∧ owner_nf l0 = true ∧ Forall (λ l, dns_nf l = true) ls.

Lemma owner_shape_dotted labels : owner_shape labels → owner_dotted labels.
Proof.
  intros (l0 & ls & -> & H0 & Hls). split; [done|]. constructor; [done|].
  eapply Forall_impl; [exact Hls|]. intros l Hl. unfold owner_nf. by rewrite Hl, orb_true_r.
Qed.

Lemma validate_record_owner_Ok name r : validate_record_owner idna_encode name = Ok r →
  r = "@" ∨ ∃ labels, owner_shape labels ∧ r = join "." labels ∧ length r ≤ MAX_NAME_LEN.
Proof.
  unfold validate_record_owner. destruct (_ || _); [intros [= <-]; by left|].
  case_bool_decide; [intros [= <-]; by left|]. rewrite bind_Ok.
  intros (out & Ho & Hr). destruct (MAX_NAME_LEN <? _) eqn:E; simplify_eq/=. right.
  exists out. split_and!; [|done|by apply Nat.ltb_ge in E].
  apply owner_labels_Ok in Ho; [exact Ho|apply split_nonempty].
Qed.

Lemma validate_record_owner_nf labels : owner_shape labels →
  length (join "." labels) ≤ MAX_NAME_LEN →
  validate_record_owner idna_encode (join "." labels) = Ok (join "." labels).
Proof.
  intros Hs Hlen. pose proof (owner_shape_dotted _ Hs) as Hd.
  unfold validate_record_owner.
  rewrite (dotted_strip owner_nf owner_chars) by eauto with spatium.
  rewrite (dotted_strip_root owner_nf owner_chars) by eauto with spatium. cbn [fst].
  rewrite !(bool_decide_false (join "." labels = [])) by (apply (dotted_ne owner_nf); eauto with spatium).
  rewrite bool_decide_false.
  - rewrite (dotted_split owner_nf owner_chars) by eauto with spatium. simpl.
    destruct Hs as (l0 & ls & -> & H0 & Hls). rewrite owner_labels_nf by done. simpl.
    apply Nat.ltb_ge in Hlen. simpl in Hlen. by rewrite Hlen.
  - intros Hj. pose proof (dotted_split owner_nf owner_chars owner_nf_chars owner_plain labels Hd) as Hl.
    rewrite Hj in Hl. simpl in Hl. destruct Hd as [_ Hd]. rewrite <- Hl in Hd.
    by apply Forall_inv in Hd.
Qed.

Lemma validate_fqdn_Ok u name r : validate_fqdn idna_encode u name = Ok r →
  ∃ labels, dotted (if u then dns_nf else host_nf) labels ∧ r = join "." labels ∧
    length r ≤ MAX_NAME_LEN.
Proof.
  unfold validate_fqdn. case_bool_decide; [done|]. case_bool_decide; [done|].
  rewrite bind_Ok. intros (labels & Hl & Hr).
  destruct (MAX_NAME_LEN <? _) eqn:E; simplify_eq/=. exists labels. split_and!.
  - destruct u; (split; [by eapply map_result_split_ne|]).
    + eapply map_result_Forall, Hl. intros x y [[_ ?]|?]%validate_dns_label_Ok; done.
    + eapply map_result_Forall, Hl. apply validate_host_label_Ok.
  - done.
  - by apply Nat.ltb_ge in E.
Qed.
End validator_facts.

(** ** What the sanitisers return *)
Lemma sub_runs_keep b s : forallb sanitize_keep (sub_runs b s) = true.
Proof.
  revert b. induction s as [|c s IH]; intros b; [done|]; simpl.
  destruct (sanitize_keep c) eqn:E; simpl; [by rewrite E, IH|].
  destruct b; simpl; auto.
Qed.

Lemma keep_ldh c : sanitize_keep c = true → ldh c = true.
Proof. revert c. by_chars. Qed.

Lemma keep_lower c : sanitize_keep c = true → lower_char c = c.
Proof.
  intros H. apply Ascii.eqb_eq. revert c H.
  apply (ascii_subclass _ (λ c, Ascii.eqb (lower_char c) c)). vm_compute. reflexivity.
Qed.

(** Kept text without hyphens at its ends is a normalised host label. *)
Lemma kept_host_nf s : forallb sanitize_keep s = true → length s ≤ MAX_LABEL_LEN →
  (∀ c s', s = c :: s' → hyphen c = false) → (∀ s' c, s = s' ++ [c] → hyphen c = false) →
  s ≠ [] → host_nf s = true.
Proof.
  intros Hk Hlen Hh Ht Hne. apply host_nf_iff. split.
  - apply host_label_intro; try done. eapply forallb_impl, Hk. apply keep_ldh.
  - by apply (lower_id sanitize_keep); [apply keep_lower|].
Qed.

Lemma sanitize_host_label_nf raw :
  sanitize_host_label raw ≠ [] → host_nf (sanitize_host_label raw) = true.
Proof.
  destruct raw as [raw|]; [|done]. unfold sanitize_host_label. case_bool_decide; [done|].
  apply kept_host_nf.
  - apply strip_forallb, take_forallb, sub_runs_keep.
  - etrans; [apply strip_length|]. rewrite length_take. lia.
  - intros c s'. apply strip_head.
  - intros s' c. apply strip_last.
Qed.

Definition fits (labels : list str) : Prop := length (join "." labels) ≤ MAX_NAME_LEN.

(** [trim_labels] keeps the longest prefix of labels that fits. *)
Lemma trim_labels_spec fuel labels : length labels ≤ fuel →
  ∃ k, trim_labels fuel labels = take k labels ∧ fits (take k labels) ∧
    ∀ i, k < i ≤ length labels → ¬ fits (take i labels).
Proof.
  revert labels. induction fuel as [|fuel IH]; intros labels Hf.
  { destruct labels; [|simpl in Hf; lia]. exists 0.
    split_and!; [done|unfold fits, MAX_NAME_LEN; simpl; lia|simpl; lia]. }
  simpl. destruct (negb (bool_decide (labels = [])) && (MAX_NAME_LEN <? length (join "." labels)))
    eqn:E.
  - bool_hyps. apply Nat.ltb_lt in H0.
    destruct labels as [|l labels _] using rev_ind; [done|].
    rewrite removelast_last. rewrite length_app in Hf. simpl in Hf.
    destruct (IH labels) as (k & Hk & Hfit & Hmax); [lia|].
    exists (Nat.min k (length labels)).
    assert (Htk : take (k `min` length labels) (labels ++ [l]) = take k labels).
    { rewrite take_app_le by lia. by rewrite <- firstn_firstn, firstn_all. }
    rewrite Htk. split_and!; [done..|]. intros i Hi. rewrite length_app in Hi. simpl in Hi.
    destruct (decide (i ≤ length labels)) as [Hle|Hgt].
    + rewrite take_app_le by done. apply Hmax. lia.
    + rewrite take_ge by (rewrite length_app; simpl; lia). unfold fits. lia.
  - exists (length labels). rewrite firstn_all. split_and!; [done| |lia].
    apply andb_false_iff in E as [E|E].
    + apply negb_false_iff, bool_decide_eq_true in E. subst. unfold fits, MAX_NAME_LEN. simpl. lia.
    + by apply Nat.ltb_ge in E.
Qed.

Definition sanitized_labels (raw : str) : list str :=
  List.filter (λ l, negb (bool_decide (l = [])))
    (map (λ p, sanitize_host_label (Some p)) (split "." raw)).

Lemma sanitized_labels_nf raw : Forall (λ l, host_nf l = true) (sanitized_labels raw).
Proof.
  apply List.Forall_forall. intros l [Hl Hne]%List.filter_In.
  apply List.in_map_iff in Hl as (p & <- & _). bool_hyps. by apply sanitize_host_label_nf.
Qed.

(** [sanitize_hostname] is the longest prefix of the sanitised labels that
    fits in a name. *)
Lemma sanitize_hostname_prefix raw :
  ∃ k, sanitize_hostname (Some raw) = join "." (take k (sanitized_labels raw)) ∧
    fits (take k (sanitized_labels raw)) ∧
    ∀ i, k < i ≤ length (sanitized_labels raw) → ¬ fits (take i (sanitized_labels raw)).
Proof.
  unfold sanitize_hostname. fold (sanitized_labels raw). case_bool_decide as Hr.
  { subst. exists 0. unfold fits, sanitized_labels, MAX_NAME_LEN. simpl. split_and!; [done|lia|lia]. }
  case_bool_decide as Hl.
  { exists 0. rewrite Hl. unfold fits, MAX_NAME_LEN. simpl. split_and!; [done|lia|lia]. }
  destruct (_ <=? _) eqn:E.
  - apply Nat.leb_le in E. exists (length (sanitized_labels raw)). rewrite firstn_all.
    split_and!; [done|done|lia].
  - destruct (trim_labels_spec (length (sanitized_labels raw)) (sanitized_labels raw))
      as (k & -> & ? & ?); [done|]. by exists k.
Qed.

(** The first sanitised label always fits, so a name is empty only when no
    label is left. *)
Lemma sanitize_hostname_labels raw :
  sanitize_hostname (Some raw) ≠ [] →
  ∃ labels, host_dotted labels ∧ fits labels ∧ sanitize_hostname (Some raw) = join "." labels.
Proof.
  destruct (sanitize_hostname_prefix raw) as (k & -> & Hfit & _). intros Hne.
  exists (take k (sanitized_labels raw)). split_and!; [|done|done]. split.
  - by intros E; rewrite E in Hne.
  - apply Forall_take, sanitized_labels_nf.
Qed.

(** ** Host names as [_is_host_name] sees them *)
Lemma is_host_name_iff name : _is_host_name name = true ↔
  dotted _HOST_LABEL_RE (split "." name) ∧ length name ≤ MAX_NAME_LEN.
Proof.
  unfold _is_host_name, dotted. rewrite <- (forallb_Forall _HOST_LABEL_RE).
  destruct (bool_decide (name = []) || (MAX_NAME_LEN <? length name) || negb (isascii name)) eqn:E.
  - split; [done|]. intros [[_ Hl] Hlen]. apply orb_true_iff in E as [E|E].
    + apply orb_true_iff in E as [E|E].
      * apply bool_decide_eq_true in E. by subst.
      * apply Nat.ltb_lt in E. lia.
    + apply negb_true_iff in E. rewrite <- E, <- (join_split "." name).
      apply join_forallb; [done|]. rewrite forallb_Forall in Hl.
      eapply Forall_impl; [exact Hl|]. apply host_label_ascii.
  - bool_hyps. apply Nat.ltb_ge in H1. split; [|tauto].
    intros Hl. split_and!; [apply split_nonempty|done|done].
Qed.

Lemma host_nf_is_host_name labels : host_dotted labels → fits labels →
  _is_host_name (join "." labels) = true.
Proof.
  intros Hd Hfit. apply is_host_name_iff. split; [|done].
  rewrite (dotted_split host_nf ldh) by eauto with spatium.
  destruct Hd as [Hne Hd]. split; [done|]. eapply Forall_impl; [exact Hd|]. apply host_nf_re.
Qed.

Lemma host_re_chars : ∀ l, _HOST_LABEL_RE l = true → forallb ldh l = true.
Proof. exact host_label_chars. Qed.

(** A legal host name has no blank, no control character, no edge dot. *)
Lemma is_host_name_chars name : _is_host_name name = true →
  forallb (λ c, negb (is_space c) && negb (control_char c)) name = true.
Proof.
  intros [[_ Hl] _]%is_host_name_iff. rewrite <- (join_split "." name).
  apply join_forallb; [done|]. eapply Forall_impl; [exact Hl|].
  intros l H%host_label_chars. eapply forallb_impl, H. by_chars.
Qed.

Lemma is_host_name_plain name : _is_host_name name = true →
  strip is_space name = name ∧ _strip_root name = (name, false) ∧
  contains_control_chars name = false ∧ name ≠ [] ∧ bare_name name = name.
Proof.
  intros H. pose proof (is_host_name_chars name H) as Hc.
  apply is_host_name_iff in H as [Hd _]. rewrite <- (join_split "." name) in Hc |- *.
  split_and!.
  - by apply (dotted_strip _HOST_LABEL_RE ldh host_label_chars ldh_plain).
  - by apply (dotted_strip_root _HOST_LABEL_RE ldh host_label_ne host_label_chars ldh_plain).
  - apply existsb_none. intros c Hin. pose proof (forallb_elem _ _ _ Hc Hin) as Hp.
    simpl in Hp. by bool_hyps.
  - by apply (dotted_ne _HOST_LABEL_RE host_label_ne).
  - by apply (dotted_bare _HOST_LABEL_RE ldh host_label_ne host_label_chars ldh_plain).
Qed.

Section host_names.
Variable idna_encode : str → option str.

Lemma validate_host_label_ascii l r : isascii l = true →
  validate_host_label idna_encode l = Ok r ↔ _HOST_LABEL_RE l = true ∧ r = lower l.
Proof.
  intros Ha. unfold validate_host_label, _to_ascii_label. rewrite Ha.
  case_bool_decide as Hl; [subst; naive_solver|]. simpl.
  destruct (MAX_LABEL_LEN <? length l) eqn:E.
  - split; [done|]. intros [H _]. apply host_label_length in H. apply Nat.ltb_lt in E. lia.
  - destruct (_HOST_LABEL_RE l); simpl; naive_solver.
Qed.

Lemma validate_host_labels_ascii ls rs : Forall (λ l, isascii l = true) ls →
  map_result (validate_host_label idna_encode) ls = Ok rs ↔
  Forall (λ l, _HOST_LABEL_RE l = true) ls ∧ rs = map lower ls.
Proof.
  intros Ha. rewrite map_result_Ok. split.
  - induction 1 as [|l r ls rs Hl _ IH]; [by split|].
    apply Forall_cons in Ha as [Hla Ha]. apply validate_host_label_ascii in Hl as [? ->]; [|done].
    destruct IH as [? ->]; [done|]. by split; [constructor|].
  - intros [Hre ->]. induction Hre as [|l ls Hl _ IH]; [constructor|].
    apply Forall_cons in Ha as [Hla Ha]. constructor; [|auto].
    by apply validate_host_label_ascii.
Qed.

Lemma strip_root_ascii s : isascii s = true → isascii (fst (_strip_root s)) = true.
Proof.
  unfold _strip_root. destruct (endswith "." s) eqn:E; [|done].
  apply endswith_chr in E as [s' ->]. simpl. rewrite drop_last_snoc.
  by intros [? _]%forallb_app_iff.
Qed.

Lemma validate_hostname_ascii name r : isascii name = true →
  let body := fst (_strip_root (strip is_space name)) in
  validate_hostname idna_encode name = Ok r ↔ _is_host_name body = true ∧ r = lower body.
Proof.
  intros Ha body. unfold validate_hostname.
  assert (Hb : isascii body = true) by (by apply strip_root_ascii, strip_forallb).
  rewrite is_host_name_iff. unfold dotted.
  case_bool_decide as Hraw.
  { unfold body. rewrite Hraw. split; [done|]. intros [[[_ H] _] _]. by apply Forall_inv in H. }
  fold body. case_bool_decide as Hbody.
  { rewrite Hbody. split; [done|]. intros [[[_ H] _] _]. by apply Forall_inv in H. }
  rewrite bind_Ok. setoid_rewrite validate_host_labels_ascii; [|by apply split_forallb].
  assert (Hj : join "." (map lower (split "." body)) = lower body)
    by (by rewrite <- lower_join, join_split).
  split.
  - intros (labels & [Hre ->] & H). rewrite Hj, lower_length in H.
    destruct (MAX_NAME_LEN <? length body) eqn:E; [done|]. apply Nat.ltb_ge in E.
    injection H as <-. split_and!; [apply split_nonempty|done|done|done].
  - intros [[[_ Hre] Hlen] ->]. exists (map lower (split "." body)). split; [done|].
    rewrite Hj, lower_length. apply Nat.ltb_ge in Hlen. by rewrite Hlen.
Qed.

Lemma validate_dns_label_host w l : _HOST_LABEL_RE l = true →
  validate_dns_label idna_encode w l = Ok (lower l).
Proof.
  intros H. unfold validate_dns_label, _to_ascii_label.
  rewrite (host_label_ascii l H), bool_decide_false by by apply host_label_ne.
  rewrite bool_decide_false by (by intros ->). simpl.
  rewrite (proj2 (Nat.ltb_ge _ _) (host_label_length l H)).
  by rewrite (host_label_dns l H).
Qed.

Lemma map_result_host ls : Forall (λ l, _HOST_LABEL_RE l = true) ls →
  map_result (validate_dns_label idna_encode false) ls = Ok (map lower ls).
Proof.
  intros H. apply map_result_Ok. induction H; constructor; [by apply validate_dns_label_host|done].
Qed.

(** A legal host name is accepted as a record owner, case folded. *)
Lemma host_name_owner name : _is_host_name name = true →
  validate_record_owner idna_encode name = Ok (lower name) ∧ lower name ≠ "@".
Proof.
  intros H. destruct (is_host_name_plain name H) as (Hs & Hr & _ & Hne & _).
  assert (Hat : ∀ s, lower s = "@" → s = "@").
  { intros [|c [|]]; [done| |done]. intros [= Hc]. f_equal.
    apply Ascii.eqb_eq. revert c Hc.
    assert (Hall : ∀ c, implb (Ascii.eqb (lower_char c) "@") (Ascii.eqb c "@") = true)
      by (apply ascii_forall; vm_compute; reflexivity).
    intros c Hc. specialize (Hall c). rewrite Hc in Hall. by rewrite ascii_eqb_refl in Hall. }
  assert (Hnat : name ≠ "@") by (by intros ->).
  apply is_host_name_iff in H as [[_ Hre] Hlen].
  split; [|by intros ?%Hat].
  unfold validate_record_owner. rewrite Hs, Hr. cbn [fst].
  rewrite !bool_decide_false by done. cbn [orb].
  pose proof (join_split "." name) as Hj.
  destruct (split "." name) as [|l0 ls]; [by subst name|].
  apply Forall_cons in Hre as [H0 Hre].
  unfold owner_labels. rewrite validate_dns_label_host by done. cbn [mbind result_bind].
  rewrite map_result_host by done. cbn [mbind result_bind].
  change (lower l0 :: map lower ls) with (map lower (l0 :: ls)).
  rewrite <- lower_join, Hj, lower_length by done.
  destruct (MAX_NAME_LEN <? length name) eqn:E; [|done].
  apply Nat.ltb_lt in E. lia.
Qed.

Lemma host_name_publishable name : _is_host_name name = true →
  publishable_host_owner_error idna_encode (Some name) = None.
Proof.
  intros H. destruct (is_host_name_plain name H) as (Hs & _ & Hc & Hne & _).
  destruct (host_name_owner name H) as [Ho Hat].
  unfold publishable_host_owner_error. rewrite Hs, Hc, Ho.
  rewrite bool_decide_false, bool_decide_true by done. simpl.
  by rewrite bool_decide_false.
Qed.
End host_names.

(** ** Length of a published name *)
Lemma name_length_error_None name : name_length_error name = None ↔
  length (bare_name name) ≤ MAX_NAME_LEN ∧
  Forall (λ l, length l ≤ MAX_LABEL_LEN) (split "." (bare_name name)).
Proof.
  unfold name_length_error. destruct (MAX_NAME_LEN <? length (bare_name name)) eqn:E.
  - split; [done|]. intros [H _]. apply Nat.ltb_lt in E. lia.
  - apply Nat.ltb_ge in E. destruct (List.find _ _) as [l|] eqn:F.
    + split; [done|]. intros [_ H]. apply List.find_some in F as [Hin Hl].
      apply Nat.ltb_lt in Hl. rewrite List.Forall_forall in H. specialize (H l Hin). lia.
    + split; [|done]. intros _. split; [done|]. apply List.Forall_forall. intros l Hin.
      eapply List.find_none in F; [|exact Hin]. by apply Nat.ltb_ge in F.
Qed.

(** Appending a zone to a host leaves the blanks and dots at the outer ends. *)
Lemma bare_name_app host zone : bare_name host = host → bare_name zone = zone →
  host ≠ [] → zone ≠ [] → bare_name (host ++ "." ++ zone) = host ++ "." ++ zone.
Proof.
  assert (Hends : ∀ n, bare_name n = n →
    (∀ c s', n = c :: s' → is_space c = false) ∧
    (∀ s' c, n = s' ++ [c] → is_space c = false ∧ chr_is "." c = false)).
  { intros n Hn. assert (Hst : strip is_space n = n).
    { unfold bare_name in Hn. destruct (rstrip_prefix (chr_is ".") (strip is_space n)) as (t & Ht & _).
      rewrite Hn in Ht. pose proof (strip_length is_space n) as Hlen.
      rewrite Ht, length_app in Hlen. destruct t; [by rewrite app_nil_r in Ht|simpl in Hlen; lia]. }
    split.
    - intros c s' Hs. rewrite <- Hst in Hs. by apply strip_head in Hs.
    - intros s' c Hs. split.
      + rewrite <- Hst in Hs. by apply strip_last in Hs.
      + rewrite <- Hn in Hs. unfold bare_name in Hs. by apply rstrip_last in Hs. }
  intros Hh Hz Hhne Hzne. destruct (Hends host Hh) as [Hhead _].
  destruct (Hends zone Hz) as [_ Htail].
  assert (Hlast : ∀ s' c, host ++ "." ++ zone = s' ++ [c] → is_space c = false ∧ chr_is "." c = false).
  { intros s' c. destruct zone as [|d zone _] using rev_ind; [done|].
    rewrite !app_assoc. intros [_ <-]%app_inj_tail. by eapply Htail. }
  unfold bare_name. rewrite strip_id, rstrip_id; [done|..].
  - intros s' c Hs. by eapply Hlast.
  - intros c s' Hs. destruct host as [|d host]; [done|]. injection Hs as -> _. by eapply Hhead.
  - intros s' c Hs. by eapply Hlast.
Qed.

Lemma name_in_zone_error_None hostname zone_name :
  name_in_zone_error hostname zone_name = None ↔
  bare_name hostname = [] ∨ bare_name zone_name = [] ∨
  name_length_error (bare_name hostname ++ "." ++ bare_name zone_name) = None.
Proof.
  unfold name_in_zone_error. case_bool_decide; simpl; [naive_solver|].
  case_bool_decide; simpl; [naive_solver|].
  destruct (name_length_error _); [destruct (_ <? _)|]; naive_solver.
Qed.

(** ** Properties *)

(** On ASCII input [validate_hostname] is exactly: drop the surrounding
    blanks and one trailing root dot, accept when what is left is a legal host
    name ([_is_host_name], the predicate of the mirror path), and return it in
    lower case.  The two independent spellings of the host-name rule in the
    module agree. *)
Theorem validate_hostname_decides (idna_encode : str → option str) (name r : str) :
  isascii name = true →
  validate_hostname idna_encode name = Ok r ↔
  _is_host_name (fst (_strip_root (strip is_space name))) = true ∧
  r = lower (fst (_strip_root (strip is_space name))).
Proof. apply validate_hostname_ascii. Qed.

Lemma validate_hostname_decides_witness :
  validate_hostname (λ _, None) " Web-01.Corp.Example. " = Ok "web-01.corp.example".
Proof.
  apply (validate_hostname_decides (λ _, None) " Web-01.Corp.Example. "
    "web-01.corp.example"); [vm_compute; reflexivity|].
  split; vm_compute; reflexivity.
Defined.

(** Whatever the internationalised-name encoder does, an accepted host
    name comes back in normal form: validating it again changes nothing, it is
    lower case, at most 253 characters, every label matches the host-label
    pattern, and it can be published as a record owner. *)
Theorem validate_hostname_normal_form (idna_encode : str → option str) (name r : str) :
  validate_hostname idna_encode name = Ok r →
  validate_hostname idna_encode r = Ok r ∧ lower r = r ∧ length r ≤ MAX_NAME_LEN ∧
  Forall (λ l, _HOST_LABEL_RE l = true) (split "." r) ∧
  publishable_host_owner_error idna_encode (Some r) = None.
Proof.
  intros (labels & Hd & -> & Hlen)%validate_hostname_Ok.
  pose proof (host_nf_is_host_name labels Hd Hlen) as Hh.
  split_and!; [by apply validate_hostname_nf| |exact Hlen| |by apply host_name_publishable].
  - rewrite lower_join by done. f_equal. destruct Hd as [_ Hd]. clear -Hd.
    induction Hd as [|l ls Hl _ IH]; [done|]; simpl. rewrite IH. f_equal.
    by apply host_nf_iff in Hl as [_ ?].
  - by apply is_host_name_iff in Hh as [[_ ?] _].
Qed.

Lemma validate_hostname_normal_form_witness :
  length "web01.corp" ≤ MAX_NAME_LEN.
Proof.
  apply (validate_hostname_normal_form (λ _, None) "WEB01.corp." "web01.corp").
  vm_compute. reflexivity.
Defined.

(** C39 -- No record owner that passes validation can break out of its line in
    a zone file: it is the apex ["@"] or a name with no blank, control or
    master-file syntax character, at most 253 characters with labels of 1 to
    63, on which validation is idempotent. *)
Theorem validate_record_owner_safe (idna_encode : str → option str) (name r : str) :
  validate_record_owner idna_encode name = Ok r →
  validate_record_owner idna_encode r = Ok r ∧
  (r = "@" ∨
   contains_zonefile_unsafe r = false ∧ length r ≤ MAX_NAME_LEN ∧
   Forall (λ l, 0 < length l ≤ MAX_LABEL_LEN) (split "." r)).
Proof.
  intros [->|(labels & Hs & -> & Hlen)]%validate_record_owner_Ok; [split; [done|by left]|].
  pose proof (owner_shape_dotted labels Hs) as Hd.
  split; [by apply validate_record_owner_nf|right]. split_and!; [|done|].
  - apply existsb_none. intros c Hc.
    assert (Hp : forallb (λ c, negb (zonefile_unsafe_char c)) (join "." labels) = true).
    { apply join_forallb; [done|]. eapply Forall_impl; [apply Hd|].
      intros l H%owner_nf_chars. eapply forallb_impl, H. by_chars. }
    pose proof (forallb_elem _ _ _ Hp Hc) as H. simpl in H. by bool_hyps.
  - rewrite (dotted_split owner_nf owner_chars) by eauto with spatium.
    eapply Forall_impl; [apply Hd|]. intros l Hl. split.
    + destruct l; [by apply owner_nf_ne in Hl|simpl; lia].
    + unfold owner_nf in Hl. apply orb_true_iff in Hl as [->%bool_decide_eq_true|Hl].
      * unfold MAX_LABEL_LEN. simpl. lia.
      * by apply dns_nf_facts in Hl as (_ & ? & _).
Qed.

Lemma validate_record_owner_safe_witness :
  validate_record_owner (λ _, None) "*.apps" = Ok "*.apps".
Proof.
  apply (validate_record_owner_safe (λ _, None) " *.Apps. " "*.apps").
  vm_compute. reflexivity.
Defined.

(** The DHCP lease sanitiser never produces an invalid host name: its
    result is the longest prefix of the sanitised labels that fits in 253
    characters; it is empty only when no label is left, and otherwise
    [validate_hostname] accepts it unchanged. *)
Theorem sanitize_hostname_valid (idna_encode : str → option str) (raw : str) :
  let labels := sanitized_labels raw in
  ∃ k, sanitize_hostname (Some raw) = join "." (take k labels) ∧
    (∀ i, k < i ≤ length labels → MAX_NAME_LEN < length (join "." (take i labels))) ∧
    (sanitize_hostname (Some raw) = [] ↔ labels = []) ∧
    (labels ≠ [] →
     validate_hostname idna_encode (sanitize_hostname (Some raw)) =
       Ok (sanitize_hostname (Some raw))).
Proof.
  intros labels. destruct (sanitize_hostname_prefix raw) as (k & Hk & Hfit & Hmax).
  fold labels in Hk, Hfit, Hmax. exists k.
  assert (Hempty : sanitize_hostname (Some raw) = [] ↔ labels = []).
  { rewrite Hk. split; [|by intros ->; rewrite take_nil].
    intros Hj. destruct labels as [|l ls] eqn:El; [done|exfalso].
    pose proof (sanitized_labels_nf raw) as Hnf. fold labels in Hnf. rewrite El in Hnf.
    apply Forall_cons in Hnf as [Hl _].
    destruct k as [|k].
    - apply (Hmax 1); [simpl; lia|]. unfold fits. cbn [take join]. rewrite ?take_0; cbn [join].
      apply host_nf_re, host_label_length in Hl. unfold MAX_LABEL_LEN, MAX_NAME_LEN in *. lia.
    - simpl in Hj. apply host_nf_ne in Hl. destruct (take k ls); simpl in Hj; [done|].
      by apply app_nil in Hj as [? _]. }
  split; [done|split; [|split; [exact Hempty|]]].
  - intros i Hi. specialize (Hmax i Hi). unfold fits in Hmax. lia.
  - intros Hne. destruct (sanitize_hostname_labels raw) as (ls & Hd & Hf & ->); [tauto|].
    by apply validate_hostname_nf.
Qed.

(** A name mirrored from an integration is always publishable: what
    [sanitize_mirrored_hostname] returns is empty or a legal host name that
    the IPAM to DNS sync accepts as a record owner, and an already legal name
    is passed through unchanged, case included. *)
Theorem sanitize_mirrored_publishable (idna_encode : str → option str) (raw : str) :
  let h := sanitize_mirrored_hostname (Some raw) in
  (h = [] ∨ _is_host_name h = true ∧ publishable_host_owner_error idna_encode (Some h) = None) ∧
  (_is_host_name raw = true → h = raw).
Proof.
  intros h. assert (Hh : h = [] ∨ _is_host_name h = true).
  { unfold h, sanitize_mirrored_hostname. case_bool_decide; [by left|].
    destruct (_is_host_name (strip is_space raw)) eqn:E; [by right|].
    set (folded := List.filter _ _).
    destruct (decide (sanitize_hostname (Some folded) = [])) as [->|Hne]; [by left|right].
    destruct (sanitize_hostname_labels folded Hne) as (ls & Hd & Hf & ->).
    by apply host_nf_is_host_name. }
  split.
  - destruct Hh as [?|Hh]; [by left|right]. split; [done|]. by apply host_name_publishable.
  - intros Hraw. destruct (is_host_name_plain raw Hraw) as (Hs & _ & _ & Hne & _).
    unfold h, sanitize_mirrored_hostname. rewrite Hs, Hraw. by rewrite bool_decide_false.
Qed.

Lemma sanitize_mirrored_publishable_witness :
  sanitize_mirrored_hostname (Some "ESX-01.Lab") = "ESX-01.Lab".
Proof.
  apply (sanitize_mirrored_publishable (λ _, None) "ESX-01.Lab"). vm_compute. reflexivity.
Defined.

(** The documented contract of [contains_control_chars] names the C1 controls,
    which its pattern does not cover: NEL (0x85) is not detected. *)
Example c1_control_undetected : contains_control_chars [ascii_of_nat 133] = false.
Proof. reflexivity. Qed.
End DnsNames.
