(* ===== verification/BindCheckNames.v ===== *)
(** * What BIND's check-names refuses

    The second half of [backend/app/core/dns_names.py]: the host-name scan of
    a dotted name, the SOA fields (primary name server, admin mailbox), the
    check-names rule for a record's owner and target, and the publish-path
    rule for an address's host record.  The length rules and the label
    patterns come from [DnsNames.v]. *)
From S2P Require Import PyStr DnsNames.
Import DnsNames.

Module BindCheckNames.

Definition BIND_HOST_OWNER_TYPES : list str := ["A"; "AAAA"; "MX"].
Definition BIND_HOST_TARGET_TYPES : list str := ["MX"; "NS"; "SRV"].
Definition BIND_SERVICE_BINDING_TYPES : list str := ["SVCB"; "HTTPS"].
Definition _REVERSE_MAPPING_SUFFIXES : list str := ["in-addr.arpa"; "ip6.arpa"; "ip6.int"].
Definition _DNSSD_BROWSE_PREFIXES : list (list str) :=
  map (λ first, [first; "_dns-sd"; "_udp"]) ["b"; "db"; "lb"; "r"; "dr"].
Definition _TARGET_LENGTH_TYPES : list str := ["MX"; "NS"; "SRV"; "CNAME"; "PTR"; "DNAME"].
Definition _AD_GC_PREFIX : list str := ["gc"; "_msdcs"].
Definition _SPF_EXISTS_LABELS : list str := ["_spf"; "_spf_verify"; "_spf_rate"].

Definition mem (x : str) (l : list str) : bool := bool_decide (x ∈ l).

(** The [for i, label in enumerate(...)] loop of [_first_non_host_label]. *)
Fixpoint non_host_scan (wildcard : bool) (i : nat) (labels : list str) : option str :=
  match labels with
  | [] => None
  | label :: rest =>
      if wildcard && (i =? 0) && bool_decide (label = "*")
      then non_host_scan wildcard (S i) rest
      else if negb (isascii label) || negb (_HOST_LABEL_RE label) then Some label
      else non_host_scan wildcard (S i) rest
  end.

Definition _first_non_host_label (wildcard : bool) (name : str) : option str :=
  let body := bare_name name in
  if bool_decide (body = []) then None
  else non_host_scan wildcard 0 (split "." body).

(** ** SOA fields *)
Inductive soa_error :=
| NotQualified
| SoaUnsafe
| SoaTooLong
| SoaEmptyLabel
| SoaLabelTooLong (label20 : str)
| SoaNotAscii (label : str)
| SoaBadMailbox (label : str)
| SoaNotHostLabel (label : str).

(** [value[:-1] if value.endswith(".") else value]. *)
Definition without_root (value : str) : str :=
  if endswith "." value then drop_last value else value.

Fixpoint primary_ns_scan (labels : list str) : option soa_error :=
  match labels with
  | [] => None
  | label :: rest =>
      if bool_decide (label = []) then Some SoaEmptyLabel
      else if MAX_LABEL_LEN <? length label then Some (SoaLabelTooLong (take 20 label))
      else if negb (isascii label) || negb (_HOST_LABEL_RE label)
      then Some (SoaNotHostLabel label)
      else primary_ns_scan rest
  end.

Definition primary_ns_error (value : option str) : option soa_error :=
  match value with
  | None => None
  | Some v =>
      if bool_decide (v = []) then None
      else
        let body := without_root v in
        if bool_decide (body = []) || negb (contains "." body) then Some NotQualified
        else if MAX_NAME_LEN <? length body then Some SoaTooLong
        else primary_ns_scan (split "." body)
  end.

(** [_MAILBOX_LOCAL_RE], [^[\x21-\x7e]+\Z]. *)
Definition _MAILBOX_LOCAL_RE (s : str) : bool :=
  negb (bool_decide (s = [])) && forallb (between 33 126) s.

Fixpoint admin_email_scan (i : nat) (labels : list str) : option soa_error :=
  match labels with
  | [] => None
  | label :: rest =>
      if bool_decide (label = []) then Some SoaEmptyLabel
      else if MAX_LABEL_LEN <? length label then Some (SoaLabelTooLong (take 20 label))
      else if negb (isascii label) then Some (SoaNotAscii label)
      else if i =? 0 then
        if negb (_MAILBOX_LOCAL_RE label) then Some (SoaBadMailbox label)
        else admin_email_scan (S i) rest
      else if negb (_HOST_LABEL_RE label) then Some (SoaNotHostLabel label)
      else admin_email_scan (S i) rest
  end.

Definition admin_email_error (value : option str) : option soa_error :=
  match value with
  | None => None
  | Some v =>
      if bool_decide (v = []) then None
      else if contains_zonefile_unsafe v then Some SoaUnsafe
      else
        let body := without_root v in
        if bool_decide (body = []) || negb (contains "." body) then Some NotQualified
        else if MAX_NAME_LEN <? length body then Some SoaTooLong
        else admin_email_scan 0 (split "." body)
  end.

(** ** Owner and target *)
Definition _zone_absolute (name origin : str) : str :=
  let name := strip is_space name in
  let origin := bare_name origin ++ "." in
  if bool_decide (name = []) || bool_decide (name = "@") then origin
  else if endswith "." name then name
  else if negb (bool_decide (origin = ".")) then name ++ "." ++ origin else name ++ ".".

Definition _owner_absolute (owner origin : str) : str :=
  let name := strip is_space owner in
  let zone := lower (bare_name origin) in
  let body := lower (rstrip (chr_is ".") name) in
  if negb (bool_decide (zone = [])) &&
     (bool_decide (body = zone) || endswith ("." ++ zone) body)
  then rstrip (chr_is ".") name ++ "."
  else _zone_absolute name origin.

Definition _bind_owner_exempt (record_type owner : str) : bool :=
  let labels := split "." (bare_name owner) in
  let lowered := map lower labels in
  if (mem record_type ["A"; "AAAA"]) && (2 <=? length labels)
     && bool_decide (take 2 lowered = _AD_GC_PREFIX)
     && bool_decide (_first_non_host_label false (join "." (drop 2 labels)) = None)
  then true
  else bool_decide (record_type = "A") &&
       existsb (λ label, mem label _SPF_EXISTS_LABELS) (removelast lowered).

Definition _is_reverse_mapping (owner : str) : bool :=
  let labels := split "." (lower (bare_name owner)) in
  if bool_decide (take 3 labels ∈ _DNSSD_BROWSE_PREFIXES) then false
  else
    let body := join "." labels in
    existsb (λ s, bool_decide (body = s) || endswith ("." ++ s) body) _REVERSE_MAPPING_SUFFIXES.

Inductive check_error :=
| OwnerTooLong (e : length_error)
| TargetTooLong (e : length_error)
| OwnerNotHost (owner bad : str)
| TargetNotHost (target bad : str).

(** [int(t) == 0] for a token of ASCII digits. *)
Definition int_is_zero (t : str) : bool := forallb (chr_is "0") t.

(** The token of the value BIND reads as a host name, if the type has one. *)
Definition target_token (rtype owner origin : str) (tokens : list str) : option str :=
  if mem rtype BIND_HOST_TARGET_TYPES then last tokens
  else if mem rtype BIND_SERVICE_BINDING_TYPES then
    match tokens with
    | t0 :: t1 :: _ =>
        if negb (isascii t0 && isdigit t0) || int_is_zero t0 then None else Some t1
    | _ => None
    end
  else if bool_decide (rtype = "PTR") && _is_reverse_mapping (_zone_absolute owner origin)
  then last tokens
  else None.

Definition owner_length_check (check_owner : bool) (owner origin : str) : option check_error :=
  if check_owner then OwnerTooLong <$> name_length_error (_owner_absolute owner origin)
  else None.

Definition target_length_check (check_target : bool) (rtype : str) (value : option str)
    (origin : str) : option check_error :=
  match value with
  | Some v =>
      if check_target && mem rtype _TARGET_LENGTH_TYPES then
        match last (split_ws v) with
        | Some t => TargetTooLong <$> name_length_error (_zone_absolute t origin)
        | None => None
        end
      else None
  | None => None
  end.

Definition owner_host_check (check_owner : bool) (rtype owner origin : str)
    : option check_error :=
  if check_owner && mem rtype BIND_HOST_OWNER_TYPES then
    let owner_abs := _zone_absolute owner origin in
    match _first_non_host_label true owner_abs with
    | Some bad =>
        if negb (_bind_owner_exempt rtype owner_abs) then Some (OwnerNotHost owner_abs bad)
        else None
    | None => None
    end
  else None.

Definition target_host_check (check_target : bool) (rtype owner : str) (value : option str)
    (origin : str) : option check_error :=
  match value with
  | Some v =>
      if check_target then
        match target_token rtype owner origin (split_ws v) with
        | Some target =>
            let target_abs := _zone_absolute target origin in
            TargetNotHost target_abs <$> _first_non_host_label false target_abs
        | None => None
        end
      else None
  | None => None
  end.

(** The statement sequence of the function: the first check that fails is
    the answer. *)
Definition orelse {A} (a b : option A) : option A :=
  match a with Some x => Some x | None => b end.

Definition bind_check_names_error (record_type owner : str) (value : option str)
    (origin : str) (check_owner check_target : bool) : option check_error :=
  let rtype := upper (strip is_space record_type) in
  orelse (owner_length_check check_owner owner origin)
    (orelse (target_length_check check_target rtype value origin)
       (orelse (owner_host_check check_owner rtype owner origin)
          (target_host_check check_target rtype owner value origin))).

(** ** The publish path *)
Inductive publish_error :=
| InZone (e : length_error)
| CheckNames (e : check_error).

Definition host_in_zone_error (hostname zone_name : str) : option publish_error :=
  match name_in_zone_error hostname zone_name with
  | Some err => Some (InZone err)
  | None =>
      let host := bare_name hostname in
      let zone := bare_name zone_name in
      if bool_decide (host = []) || bool_decide (zone = []) then None
      else CheckNames <$> bind_check_names_error "A" (host ++ "." ++ zone ++ ".") None zone
                            true false
  end.

Lemma non_host_scan_plain i labels :
  non_host_scan false i labels = None ↔ Forall (λ l, _HOST_LABEL_RE l = true) labels.
Proof.
  revert i. induction labels as [|l ls IH]; intros i; simpl; [split; [constructor|done]|].
  rewrite Forall_cons, <- (IH (S i)).
  destruct (_HOST_LABEL_RE l) eqn:E.
  - rewrite (host_label_ascii l E). simpl. tauto.
  - rewrite orb_true_r. naive_solver.
Qed.

(** With [wildcard], only a leftmost ["*"] is let through besides host labels. *)
Lemma non_host_scan_None w labels : non_host_scan w 0 labels = None ↔
  match labels with
  | [] => True
  | l0 :: ls => (_HOST_LABEL_RE l0 = true ∨ w = true ∧ l0 = "*") ∧
                Forall (λ l, _HOST_LABEL_RE l = true) ls
  end.
Proof.
  destruct labels as [|l0 ls]; simpl; [done|].
  assert (Htail : ∀ b, non_host_scan b 1 ls = None ↔ Forall (λ l, _HOST_LABEL_RE l = true) ls).
  { intros b. rewrite <- (non_host_scan_plain 1). cut (∀ i, i ≠ 0 →
      non_host_scan b i ls = non_host_scan false i ls); [intros H; by rewrite H|].
    clear. induction ls as [|l ls IH]; intros i Hi; simpl; [done|].
    replace (i =? 0) with false by (symmetry; by apply Nat.eqb_neq).
    rewrite andb_false_r, andb_false_l. simpl. rewrite IH by lia. done. }
  destruct w; simpl.
  - case_bool_decide as Hstar; [rewrite Htail; subst; naive_solver|].
    destruct (_HOST_LABEL_RE l0) eqn:E.
    + rewrite (host_label_ascii l0 E). simpl. rewrite Htail. naive_solver.
    + rewrite orb_true_r. naive_solver.
  - destruct (_HOST_LABEL_RE l0) eqn:E.
    + rewrite (host_label_ascii l0 E). simpl. rewrite Htail. naive_solver.
    + rewrite orb_true_r. naive_solver.
Qed.

Lemma first_non_host_None w name : _first_non_host_label w name = None ↔
  bare_name name = [] ∨ non_host_scan w 0 (split "." (bare_name name)) = None.
Proof. unfold _first_non_host_label. case_bool_decide; naive_solver. Qed.

(** ** SOA fields *)
Lemma primary_ns_scan_None labels :
  primary_ns_scan labels = None ↔ Forall (λ l, _HOST_LABEL_RE l = true) labels.
Proof.
  induction labels as [|l ls IH]; simpl; [split; [constructor|done]|].
  rewrite Forall_cons, <- IH. case_bool_decide as Hl; [subst; naive_solver|].
  destruct (MAX_LABEL_LEN <? length l) eqn:E.
  - split; [done|]. intros [H%host_label_length _]. apply Nat.ltb_lt in E. lia.
  - destruct (_HOST_LABEL_RE l) eqn:Er.
    + rewrite (host_label_ascii l Er). naive_solver.
    + rewrite orb_true_r. naive_solver.
Qed.

Lemma admin_email_tail_None i labels : i ≠ 0 →
  admin_email_scan i labels = None ↔ Forall (λ l, _HOST_LABEL_RE l = true) labels.
Proof.
  revert i. induction labels as [|l ls IH]; intros i Hi; simpl; [split; [constructor|done]|].
  rewrite Forall_cons, <- (IH (S i)) by done.
  case_bool_decide as Hl; [subst; naive_solver|].
  replace (i =? 0) with false by (symmetry; by apply Nat.eqb_neq).
  destruct (MAX_LABEL_LEN <? length l) eqn:E.
  - split; [done|]. intros [H%host_label_length _]. apply Nat.ltb_lt in E. lia.
  - destruct (_HOST_LABEL_RE l) eqn:Er.
    + rewrite (host_label_ascii l Er). naive_solver.
    + destruct (isascii l); simpl; naive_solver.
Qed.

Lemma no_dot_iff s : contains "." s = false ↔ split "." s = [s].
Proof.
  split; [apply split_no_sep|]. intros H.
  pose proof (split_labels_no_sep "." s) as Hl. rewrite H in Hl. by apply Forall_inv in Hl.
Qed.

(** A Primary NS is accepted exactly when it is unset or, less one
    trailing root dot, a legal host name ([_is_host_name]) of at least two
    labels. *)
Theorem primary_ns_error_spec (v : str) :
  primary_ns_error (Some v) = None ↔
  v = [] ∨ contains "." (without_root v) = true ∧ _is_host_name (without_root v) = true.
Proof.
  unfold primary_ns_error. case_bool_decide as Hv; [naive_solver|].
  rewrite is_host_name_iff. unfold dotted.
  destruct (bool_decide _ || _) eqn:E.
  - split; [done|]. intros [?|[Hc [[_ Hl] _]]]; [done|]. rewrite Hc in E.
    rewrite orb_false_r in E. apply bool_decide_eq_true in E. by rewrite E in Hc.
  - bool_hyps. destruct (MAX_NAME_LEN <? _) eqn:En.
    + apply Nat.ltb_lt in En. split; [done|]. intros [?|(_ & _ & ?)]; [done|lia].
    + apply Nat.ltb_ge in En. rewrite primary_ns_scan_None. split.
      * intros Hl. right. split_and!; [by destruct (contains _ _)|apply split_nonempty|done|done].
      * intros [?|(_ & [_ Hl] & _)]; done.
Qed.

Lemma between_ascii l : forallb (between 33 126) l = true → isascii l = true.
Proof. apply forallb_impl. by_chars. Qed.

(** An Admin Email is accepted exactly when it is unset or, less one
    trailing root dot, [local.domain] with a non-empty printable local part of
    at most 63 characters and a legal host name as its domain, of at most 253
    characters together and without zone-file syntax: the accepted mailbox can
    be written into the SOA line as it stands. *)
Theorem admin_email_error_spec (v : str) :
  admin_email_error (Some v) = None ↔
  v = [] ∨
  contains_zonefile_unsafe v = false ∧
  ∃ local domain, without_root v = local ++ "." ++ domain ∧ contains "." local = false ∧
    _MAILBOX_LOCAL_RE local = true ∧ length local ≤ MAX_LABEL_LEN ∧
    _is_host_name domain = true ∧ length (without_root v) ≤ MAX_NAME_LEN.
Proof.
  unfold admin_email_error. case_bool_decide as Hv; [naive_solver|].
  destruct (contains_zonefile_unsafe v) eqn:Hu; [naive_solver|].
  destruct (bool_decide _ || _) eqn:E.
  { split; [done|]. intros [?|(_ & local & domain & Hb & _)]; [done|].
    apply orb_true_iff in E as [E|E].
    - apply bool_decide_eq_true in E. rewrite E in Hb. by destruct local.
    - rewrite Hb, contains_app in E. simpl in E. by rewrite orb_true_r in E. }
  bool_hyps. destruct (MAX_NAME_LEN <? _) eqn:En.
  { apply Nat.ltb_lt in En. split; [done|].
    intros [?|(_ & ? & ? & _ & _ & _ & _ & _ & ?)]; [done|lia]. }
  apply Nat.ltb_ge in En. generalize dependent (without_root v). intros body Hb Hdot En.
  pose proof (join_split "." body) as Hj.
  pose proof (split_labels_no_sep "." body) as Hns.
  destruct (split "." body) as [|local ls] eqn:Hs; [by pose proof (split_nonempty "." body)|].
  assert (Hls : ls ≠ []).
  { intros ->. simpl in Hj. subst body. by rewrite (proj2 (no_dot_iff local)) in Hdot. }
  rewrite join_cons in Hj by done. apply Forall_cons in Hns as [Hnl Hns].
  assert (Hloc : admin_email_scan 0 (local :: ls) = None ↔
    _MAILBOX_LOCAL_RE local = true ∧ length local ≤ MAX_LABEL_LEN ∧
    Forall (λ l, _HOST_LABEL_RE l = true) ls).
  { simpl. rewrite <- (admin_email_tail_None 1) by done.
    case_bool_decide as Hl; [subst; naive_solver|].
    destruct (MAX_LABEL_LEN <? length local) eqn:El.
    - apply Nat.ltb_lt in El. split; [done|]. intros (_ & ? & _). lia.
    - apply Nat.ltb_ge in El. destruct (_MAILBOX_LOCAL_RE local) eqn:Em.
      + unfold _MAILBOX_LOCAL_RE in Em. bool_hyps. rewrite between_ascii by done.
        simpl. naive_solver.
      + destruct (isascii local); simpl; naive_solver. }
  rewrite Hloc. split.
  - intros (Hm & Hlen & Hhost). right. split; [done|].
    exists local, (join "." ls). split_and!; try done.
    apply is_host_name_iff. rewrite split_join by done. split; [done|].
    rewrite <- Hj, length_app in En. simpl in En. unfold MAX_NAME_LEN in *. lia.
  - intros [?|(_ & l & d & Hld & Hnd & Hm & Hlen & Hd & _)]; [done|].
    rewrite Hld in Hs. simpl in Hs. rewrite split_app in Hs by done.
    injection Hs as -> <-. apply is_host_name_iff in Hd as [[_ Hd] _]. done.
Qed.

(** ** Record checks *)
Lemma orelse_None {A} (a b : option A) : orelse a b = None ↔ a = None ∧ b = None.
Proof. destruct a; simpl; naive_solver. Qed.

Lemma fmap_None_iff {A B} (f : A → B) (o : option A) : f <$> o = None ↔ o = None.
Proof. by destruct o. Qed.

(** Checking only what an edit changes is sound: a record passes the
    full check exactly when its owner passes on its own and its target passes
    on its own, so an owner edit and a target edit each checked alone add up to
    the check of the whole record; and with both switches off nothing is
    refused. *)
Theorem bind_check_names_split (rtype owner : str) (value : option str) (origin : str) :
  (bind_check_names_error rtype owner value origin true true = None ↔
   bind_check_names_error rtype owner value origin true false = None ∧
   bind_check_names_error rtype owner value origin false true = None) ∧
  bind_check_names_error rtype owner value origin false false = None.
Proof.
  unfold bind_check_names_error. rewrite !orelse_None.
  replace (target_length_check false _ value origin) with (@None check_error) by by destruct value.
  replace (target_host_check false _ owner value origin) with (@None check_error)
    by by destruct value.
  change (owner_length_check false owner origin) with (@None check_error).
  change (owner_host_check false _ owner origin) with (@None check_error).
  tauto.
Qed.

Lemma endswith_app p s : endswith p (s ++ p) = true.
Proof.
  unfold endswith, startswith. apply bool_decide_eq_true.
  by rewrite reverse_app, take_app_length.
Qed.

Lemma bare_ends n : bare_name n = n → n ≠ [] →
  (∀ c s', n = c :: s' → is_space c = false) ∧ rstrip (chr_is ".") n = n.
Proof.
  intros Hn Hne. unfold bare_name in Hn.
  destruct (rstrip_prefix (chr_is ".") (strip is_space n)) as (t & Ht & _).
  rewrite Hn in Ht. pose proof (strip_length is_space n) as Hlen.
  rewrite Ht, length_app in Hlen. destruct t; [|simpl in Hlen; lia].
  rewrite app_nil_r in Ht. split.
  - intros c s' Hs. rewrite <- Ht in Hs. by apply strip_head in Hs.
  - by rewrite Ht in Hn.
Qed.

(** A bare name with its root dot added back. *)
Section rooted.
Variable n : str.
Hypotheses (Hn : bare_name n = n) (Hne : n ≠ []).

Lemma rooted_strip : strip is_space (n ++ ".") = n ++ ".".
Proof.
  destruct (bare_ends n Hn Hne) as [Hh _]. apply strip_id.
  - intros c s' Hs. destruct n as [|d s]; [done|]. injection Hs as -> _. by eapply Hh.
  - by intros s' c [_ <-]%app_inj_tail.
Qed.

Lemma rooted_rstrip : rstrip (chr_is ".") (n ++ ".") = n.
Proof.
  destruct (bare_ends n Hn Hne) as [_ Hr]. unfold rstrip in *.
  rewrite reverse_snoc. exact Hr.
Qed.

Lemma rooted_bare : bare_name (n ++ ".") = n.
Proof. unfold bare_name. by rewrite rooted_strip, rooted_rstrip. Qed.

Lemma rooted_zone_absolute origin : _zone_absolute (n ++ ".") origin = n ++ ".".
Proof.
  unfold _zone_absolute. rewrite rooted_strip.
  assert (Hlen : length n ≠ 0) by (intros Hz; by apply nil_length_inv in Hz).
  rewrite (bool_decide_false (n ++ "." = [])), (bool_decide_false (n ++ "." = "@")).
  - simpl. by rewrite (endswith_app "." n).
  - intros Ha. apply (f_equal length) in Ha. rewrite length_app in Ha. simpl in Ha. lia.
  - intros Ha. by apply app_nil in Ha as [? _].
Qed.
End rooted.

(** The publish check of [host.zone] on bare names: length, then labels. *)
Lemma host_in_zone_error_None (h z : str) :
  bare_name h = h → bare_name z = z → h ≠ [] → z ≠ [] →
  host_in_zone_error h z = None ↔
  (length (h ++ "." ++ z) ≤ MAX_NAME_LEN ∧
   Forall (λ l, length l ≤ MAX_LABEL_LEN) (split "." (h ++ "." ++ z))) ∧
  (non_host_scan true 0 (split "." (h ++ "." ++ z)) = None ∨
   _bind_owner_exempt "A" ((h ++ "." ++ z) ++ ".") = true).
Proof.
  intros Hh Hz Hhne Hzne.
  pose proof (bare_name_app h z Hh Hz Hhne Hzne) as Hfull.
  assert (Hfne : h ++ "." ++ z ≠ []) by (by destruct h).
  unfold host_in_zone_error. pose proof (name_in_zone_error_None h z) as Hiz.
  rewrite Hh, Hz in Hiz. rewrite Hh, Hz.
  destruct (name_in_zone_error h z) as [e|] eqn:E.
  { split; [done|]. intros [Hlen _].
    enough (Some e = None) by done. apply Hiz. do 2 right.
    apply name_length_error_None. by rewrite Hfull. }
  assert (Hlen : name_length_error (h ++ "." ++ z) = None).
  { destruct Hiz as [Hiz _]. destruct (Hiz eq_refl) as [?|[?|?]]; done. }
  pose proof Hlen as [Hl1 Hl2]%name_length_error_None. rewrite Hfull in Hl1, Hl2.
  rewrite !bool_decide_false by done. simpl orb. cbv iota.
  replace (h ++ "." ++ z ++ ".") with ((h ++ "." ++ z) ++ ".") by (by rewrite <- !app_assoc).
  set (full := h ++ "." ++ z) in *.
  rewrite fmap_None_iff. unfold bind_check_names_error.
  assert (Hoa : _owner_absolute (full ++ ".") z = full ++ ".").
  { unfold _owner_absolute. rewrite rooted_strip, rooted_rstrip, Hz by done.
    rewrite bool_decide_false by (by destruct z).
    replace (lower full) with (lower h ++ ("." ++ lower z))
      by (unfold full; by rewrite !lower_app).
    by rewrite endswith_app, orb_true_r. }
  replace (upper (strip is_space "A")) with ("A" : str) by (vm_compute; reflexivity).
  unfold owner_length_check, target_length_check, target_host_check. cbn [andb].
  rewrite Hoa. unfold name_length_error at 1. rewrite rooted_bare by done.
  assert (Hnl : name_length_error (full ++ ".") = None).
  { apply name_length_error_None. by rewrite rooted_bare. }
  unfold name_length_error in Hnl. rewrite rooted_bare in Hnl by done. rewrite Hnl. simpl.
  unfold owner_host_check. replace (mem "A" BIND_HOST_OWNER_TYPES) with true by done.
  cbn [andb]. rewrite rooted_zone_absolute by done.
  pose proof (first_non_host_None true (full ++ ".")) as Hf.
  rewrite rooted_bare in Hf by done.
  destruct (_first_non_host_label true (full ++ ".")) as [bad|] eqn:Eb.
  - assert (Hscan : non_host_scan true 0 (split "." full) ≠ None) by naive_solver.
    destruct (_bind_owner_exempt "A" (full ++ ".")) eqn:Ee; simpl; naive_solver.
  - simpl. destruct Hf as [Hf _]. destruct (Hf eq_refl) as [?|?]; [done|]. naive_solver.
Qed.

Lemma host_name_join h z : _is_host_name h = true → _is_host_name z = true →
  length (h ++ "." ++ z) ≤ MAX_NAME_LEN → _is_host_name (h ++ "." ++ z) = true.
Proof.
  rewrite !is_host_name_iff. intros [[_ Hh] _] [[_ Hz] _] Hlen. split; [|done].
  unfold dotted. simpl. rewrite split_app_sep. split; [|by apply Forall_app].
  pose proof (split_nonempty "." h). by destruct (split "." h).
Qed.

(** A legal host name in a legally named zone publishes its address
    record exactly when the full name fits: for host names [h] and [z] the
    publish check refuses [h.z] only for being longer than 253 characters.
    In particular no name [validate_hostname] or the sanitisers return is
    refused in such a zone for its labels. *)
Theorem host_in_zone_complete (h z : str) :
  _is_host_name h = true → _is_host_name z = true →
  host_in_zone_error h z = None ↔ length h + 1 + length z ≤ MAX_NAME_LEN.
Proof.
  intros Hh Hz.
  destruct (is_host_name_plain h Hh) as (_ & _ & _ & Hhne & Hhb).
  destruct (is_host_name_plain z Hz) as (_ & _ & _ & Hzne & Hzb).
  rewrite host_in_zone_error_None by done.
  assert (Hlen : length (h ++ "." ++ z) = length h + 1 + length z)
    by (rewrite !length_app; simpl; lia).
  rewrite Hlen. split; [tauto|]. intros Hfit.
  pose proof (host_name_join h z Hh Hz) as Hj. rewrite Hlen in Hj. specialize (Hj Hfit).
  apply is_host_name_iff in Hj as [[Hne Hre] _]. split_and!; [done| |left].
  - eapply Forall_impl; [exact Hre|]. apply host_label_length.
  - apply non_host_scan_None. destruct (split "." (h ++ "." ++ z)); [done|].
    apply Forall_cons in Hre as [? ?]. auto.
Qed.

Lemma host_in_zone_complete_witness :
  host_in_zone_error "web01" "corp.example.com" = None.
Proof.
  apply (host_in_zone_complete "web01" "corp.example.com");
    [vm_compute; reflexivity | vm_compute; reflexivity |
     apply Nat.leb_le; vm_compute; reflexivity].
Defined.

(** What the publish check lets through loads in BIND: the full name is
    at most 253 characters with labels of at most 63, and either every label is
    a host label (a leftmost ["*"] aside) or the name carries one of BIND's own
    exceptions for an A record. *)
Theorem host_in_zone_sound (h z : str) :
  bare_name h = h → bare_name z = z → h ≠ [] → z ≠ [] →
  host_in_zone_error h z = None →
  length (h ++ "." ++ z) ≤ MAX_NAME_LEN ∧
  Forall (λ l, length l ≤ MAX_LABEL_LEN) (split "." h ++ split "." z) ∧
  (_bind_owner_exempt "A" (h ++ "." ++ z ++ ".") = true ∨
   ((∃ ls, split "." h = "*" :: ls ∧ Forall (λ l, _HOST_LABEL_RE l = true) ls) ∨
    Forall (λ l, _HOST_LABEL_RE l = true) (split "." h)) ∧
   Forall (λ l, _HOST_LABEL_RE l = true) (split "." z)).
Proof.
  intros Hh Hz Hhne Hzne H. apply host_in_zone_error_None in H; [|done..].
  destruct H as ((Hlen & Hls) & Hor). simpl in Hls, Hor.
  rewrite split_app_sep in Hls, Hor. split_and!; [done|done|].
  destruct Hor as [Hscan|He].
  - right. apply non_host_scan_None in Hscan.
    destruct (split "." h) as [|l0 ls] eqn:E; [by pose proof (split_nonempty "." h)|].
    simpl in Hscan. destruct Hscan as [H0 [Hl Hz']%Forall_app]. split; [|done].
    destruct H0 as [?|[_ ->]]; [right; by constructor|left; eauto].
  - left. by rewrite <- !app_assoc in He.
Qed.

Lemma host_in_zone_sound_witness :
  length ("*" ++ "." ++ "corp.example") ≤ MAX_NAME_LEN.
Proof.
  apply (host_in_zone_sound "*" "corp.example"); vm_compute; (reflexivity || discriminate).
Defined.

(** A zone named with an underscore label takes no host record. *)
Example underscore_zone_refused : is_Some (host_in_zone_error "web" "_msdcs.example.com").
Proof. vm_compute. by eexists. Qed.
End BindCheckNames.
