(* ===== verification/Permissions.v ===== *)
(** * Role-based access control

    [backend/app/core/permissions.py], decision half: the grant predicates,
    the narrowing by a resource-scoped API token, the permission check, the
    self-introspection list and the ceiling on delegated grants.  The request
    gates built on them are in [PermissionGates.v]. *)
From S2P Require Import PyStr.

Module Permissions.

(** A value found under a key of a permission entry (JSON) or in an attribute
    of a grant row: [None], a string, or anything else, of which the code only
    ever takes [str(v)].  A missing key reads as the default the code passes
    to [get] / [getattr]: [VStr ""] for the action and the type, [VNone] for
    the resource id. *)
Inductive pyval :=
| VNone
| VStr (s : str)
| VObj (repr : str).

#[export] Instance pyval_eq_dec : EqDecision pyval.
Proof. solve_decision. Defined.

Record grant := Grant { g_action : pyval; g_type : pyval; g_rid : pyval }.

(** A member of a permission list: a dict, an object exposing the three
    attributes, or some other value (which exposes none of them). *)
Inductive entry :=
| EDict (g : grant)
| EObj (g : grant)
| EAtom.

Record role := Role { permissions : option (list entry) }.
Record group := Group { roles : list role }.

(** [time_bound] is [_active_time_bound_grants] and [token_binding]
    [_api_token_resource_grants], both stashed by the auth dependency; an
    absent attribute is the empty list. *)
Record user := User {
  is_active : bool;
  is_superadmin : bool;
  groups : list group;
  time_bound : list grant;
  token_binding : list entry;
}.

Definition _ADMIN_IMPLIES : list str := ["read"; "write"; "delete"; "admin"].

Definition val_is (v : pyval) (s : str) : bool := bool_decide (v = VStr s).
Definition str_in (s : str) (l : list str) : bool := bool_decide (s ∈ l).

Definition _action_matches (granted : pyval) (requested : str) : bool :=
  if val_is granted "*" || val_is granted requested then true
  else if val_is granted "admin" && str_in requested _ADMIN_IMPLIES then true
  else false.

Definition _resource_type_matches (granted : pyval) (requested : str) : bool :=
  val_is granted "*" || val_is granted requested.

(** Any instance: no id, the empty id, or the wildcard. *)
Definition rid_any (granted : pyval) : bool :=
  bool_decide (granted = VNone) || val_is granted [] || val_is granted "*".

(** [str(v)]. *)
Definition py_str (v : pyval) : str :=
  match v with VNone => "None" | VStr s => s | VObj r => r end.

Definition _resource_id_matches (granted : pyval) (requested : option str) : bool :=
  if rid_any granted then true
  else match requested with
       | None => false
       | Some requested => bool_decide (py_str granted = requested)
       end.

(** One grant against one request, as each loop of the module tests it. *)
Definition grant_allows (g : grant) (action resource_type : str) (req_rid : option str) : bool :=
  _action_matches (g_action g) action &&
  _resource_type_matches (g_type g) resource_type &&
  _resource_id_matches (g_rid g) req_rid.

Definition dict_of (e : entry) : option grant :=
  match e with EDict g => Some g | _ => None end.

Definition _token_grants_for (u : user) : list grant := omap dict_of (token_binding u).

(** Write and delete imply read for a token grant. *)
Definition token_action_ok (g : grant) (action : str) : bool :=
  _action_matches (g_action g) action ||
  (bool_decide (action = "read") && (val_is (g_action g) "write" || val_is (g_action g) "delete")).

Definition _token_grants_allow (grants : list grant) (action resource_type : str)
    (req_rid : option str) : bool :=
  existsb (λ g,
    token_action_ok g action &&
    _resource_type_matches (g_type g) resource_type &&
    match req_rid with
    | None => true
    | Some _ => _resource_id_matches (g_rid g) req_rid
    end) grants.

Definition token_scope_allows (u : user) (resource_type : str) (resource_id : option str) : bool :=
  let grants := _token_grants_for u in
  if bool_decide (length grants = 0) then true
  else existsb (λ g, _resource_type_matches (g_type g) resource_type &&
                     _resource_id_matches (g_rid g) resource_id) grants.

(** The loop of [token_scoped_resource_ids]: a wildcard grant ends it. *)
Fixpoint scoped_ids (grants : list grant) (resource_type : str) (ids : gset str)
    : option (gset str) :=
  match grants with
  | [] => Some ids
  | g :: rest =>
      if negb (_resource_type_matches (g_type g) resource_type)
      then scoped_ids rest resource_type ids
      else if rid_any (g_rid g) then None
      else scoped_ids rest resource_type ({[py_str (g_rid g)]} ∪ ids)
  end.

Definition token_scoped_resource_ids (u : user) (resource_type : str) : option (gset str) :=
  let grants := _token_grants_for u in
  if bool_decide (length grants = 0) then None else scoped_ids grants resource_type ∅.

Definition all_roles (u : user) : list role := mjoin (map roles (groups u)).
Definition role_entries (r : role) : list entry := default [] (permissions r).
Definition static_entries (u : user) : list entry := mjoin (map role_entries (all_roles u)).

Definition _user_rbac_allows (u : user) (action resource_type : str) (req_rid : option str)
    (include_time_bound : bool) : bool :=
  if is_superadmin u then true
  else if existsb (λ g, grant_allows g action resource_type req_rid)
            (omap dict_of (static_entries u)) then true
  else if negb include_time_bound then false
  else existsb (λ g, grant_allows g action resource_type req_rid) (time_bound u).

Definition user_has_permission (u : user) (action resource_type : str)
    (resource_id : option str) : bool :=
  if negb (is_active u) then false
  else if negb (_user_rbac_allows u action resource_type resource_id true) then false
  else
    let token_grants := _token_grants_for u in
    if negb (bool_decide (length token_grants = 0)) &&
       negb (_token_grants_allow token_grants action resource_type resource_id)
    then false else true.

Definition is_effective_superadmin (u : user) : bool :=
  if is_superadmin u && bool_decide (length (_token_grants_for u) = 0) then true
  else user_has_permission u "*" "*" None.

Definition SUBNET_TOKEN_COARSE_TYPES : list str := ["ip_space"; "ip_block"; "subnet"; "ip_address"].
Definition ZONE_TOKEN_COARSE_TYPES : list str := ["dns_group"; "dns_zone"; "dns_record"].

Definition type_level_allows (u : user) (action resource_type : str) : bool :=
  if negb (is_active u) then false
  else if negb (_user_rbac_allows u action resource_type None true) then false
  else
    let grants := _token_grants_for u in
    if bool_decide (length grants = 0) || _token_grants_allow grants action resource_type None
    then true
    else if str_in resource_type ZONE_TOKEN_COARSE_TYPES &&
            _token_grants_allow grants action "dns_zone" None then true
    else str_in resource_type SUBNET_TOKEN_COARSE_TYPES &&
         _token_grants_allow grants action "subnet" None.

(** ** Self-introspection *)
Abbreviation triple := (str * str * option str)%type.

Definition grant_triple (g : grant) : option triple :=
  match g_action g, g_type g with
  | VStr action, VStr resource_type =>
      let rid := match g_rid g with
                 | VStr r => if str_in r [[]; "*"] then None else Some r
                 | _ => None
                 end in
      Some (action, resource_type, rid)
  | _, _ => None
  end.

(** An object without the attributes reads as the defaults, all empty. *)
Definition _perm_triple (e : entry) : option triple :=
  match e with
  | EDict g | EObj g => grant_triple g
  | EAtom => grant_triple (Grant (VStr []) (VStr []) VNone)
  end.

Definition base_triples (u : user) : gset triple :=
  (if is_superadmin u then {[("*", "*", None)]} else ∅) ∪
  list_to_set (omap _perm_triple (static_entries u)) ∪
  list_to_set (omap grant_triple (time_bound u)).

(** What a token leaves of one RBAC triple. *)
Definition narrow_triple (token_grants : list grant) (t : triple) : list triple :=
  let '(action, resource_type, rid) := t in
  match rid with
  | Some r =>
      if _token_grants_allow token_grants action resource_type (Some r) then [t] else []
  | None =>
      omap (λ g,
        if token_action_ok g action && _resource_type_matches (g_type g) resource_type
        then Some (action, resource_type,
                   if rid_any (g_rid g) then None else Some (py_str (g_rid g)))
        else None) token_grants
  end.

Definition effective_triples (u : user) : gset triple :=
  if negb (is_active u) then ∅
  else
    let triples := base_triples u in
    let token_grants := _token_grants_for u in
    if bool_decide (length token_grants = 0) then triples
    else list_to_set (mjoin (map (narrow_triple token_grants) (elements triples))).

(** The order of the returned list: by type, action and id ([None] as ""). *)
Definition triple_key (t : triple) : list str :=
  let '(action, resource_type, rid) := t in [resource_type; action; default [] rid].

Definition triple_le (t1 t2 : triple) : Prop := keys_leb (triple_key t1) (triple_key t2) = true.
#[export] Instance triple_le_dec : RelDecision triple_le.
Proof. intros t1 t2. unfold triple_le. apply _. Defined.

Definition effective_grants (u : user) : list triple :=
  merge_sort triple_le (elements (effective_triples u)).

(** ** The privilege ceiling *)
Definition caller_can_grant (u : user) (perms : list entry) : bool :=
  if is_effective_superadmin u then true
  else forallb (λ perm,
    match _perm_triple perm with
    | None => false
    | Some (action, resource_type, rid) =>
        if bool_decide (action = "*") || bool_decide (resource_type = "*") then false
        else if negb (user_has_permission u action resource_type rid) then false
        else if negb (_user_rbac_allows u action resource_type rid false) then false
        else true
    end) perms.

(** [has_any_grant_for]: the resource id is ignored. *)
Definition has_any_grant_for (u : user) (action resource_type : str) : bool :=
  if negb (is_active u) then false
  else if is_effective_superadmin u then true
  else existsb (λ t, match t with
                     | Some (a, ty, _) => _action_matches (VStr a) action &&
                                          _resource_type_matches (VStr ty) resource_type
                     | None => false
                     end)
         (map _perm_triple (static_entries u) ++ map grant_triple (time_bound u)).

Definition _has_any_read_grant (u : user) (resource_type : str) : bool :=
  if negb (has_any_grant_for u "read" resource_type) then false
  else
    let grants := _token_grants_for u in
    bool_decide (length grants = 0) || _token_grants_allow grants "read" resource_type None.

(** ** The predicates *)
Lemma val_is_iff v s : val_is v s = true ↔ v = VStr s.
Proof. apply bool_decide_eq_true. Qed.

Lemma val_is_VStr a s : val_is (VStr a) s = bool_decide (a = s).
Proof. unfold val_is. apply bool_decide_ext. naive_solver. Qed.

Lemma action_matches_iff v a : _action_matches v a = true ↔
  v = VStr "*" ∨ v = VStr a ∨ (v = VStr "admin" ∧ a ∈ _ADMIN_IMPLIES).
Proof.
  unfold _action_matches. rewrite <- !val_is_iff.
  destruct (val_is v "*"), (val_is v a); simpl; [naive_solver..|].
  unfold str_in. destruct (val_is v "admin"); simpl; [|naive_solver].
  case_bool_decide; naive_solver.
Qed.

Lemma type_matches_iff v ty : _resource_type_matches v ty = true ↔ v = VStr "*" ∨ v = VStr ty.
Proof. unfold _resource_type_matches. by rewrite orb_true_iff, !val_is_iff. Qed.

Lemma rid_matches_iff v rid : _resource_id_matches v rid = true ↔
  rid_any v = true ∨ rid = Some (py_str v).
Proof.
  unfold _resource_id_matches. destruct (rid_any v), rid as [r|]; simpl; try naive_solver.
  rewrite bool_decide_eq_true. naive_solver.
Qed.

Lemma grant_allows_iff g a ty rid : grant_allows g a ty rid = true ↔
  _action_matches (g_action g) a = true ∧ _resource_type_matches (g_type g) ty = true ∧
  _resource_id_matches (g_rid g) rid = true.
Proof. unfold grant_allows. rewrite !andb_true_iff. tauto. Qed.

(** Covering is transitive: what covers a covering action covers the request. *)
Lemma action_trans v a0 a : _action_matches v a0 = true →
  _action_matches (VStr a0) a = true → _action_matches v a = true.
Proof.
  rewrite !action_matches_iff. intros [->|[->|[-> H0]]]; [by left|tauto|].
  intros [[= ->]|[[= ->]|[_ H]]]; [set_solver|by right; right|by right; right].
Qed.

Lemma type_trans v ty0 ty : _resource_type_matches v ty0 = true →
  _resource_type_matches (VStr ty0) ty = true → _resource_type_matches v ty = true.
Proof. rewrite !type_matches_iff. intros [->| ->]; [by left|done]. Qed.

Lemma token_action_trans g a0 a : token_action_ok g a0 = true →
  _action_matches (VStr a0) a = true → token_action_ok g a = true.
Proof.
  unfold token_action_ok. rewrite !orb_true_iff, !andb_true_iff, !orb_true_iff.
  intros [H|[Hr H]] Ha; [left; by eapply action_trans|].
  apply bool_decide_eq_true in Hr as ->. apply action_matches_iff in Ha as [?|[[= <-]|[? _]]].
  - done.
  - right. by rewrite bool_decide_true.
  - done.
Qed.

Lemma rid_wild v : rid_any v = true → ∀ rid, _resource_id_matches v rid = true.
Proof. intros H rid. apply rid_matches_iff. by left. Qed.

Lemma rbac_iff u a ty rid tb : _user_rbac_allows u a ty rid tb = true ↔
  is_superadmin u = true ∨
  (∃ g, g ∈ omap dict_of (static_entries u) ∧ grant_allows g a ty rid = true) ∨
  (tb = true ∧ ∃ g, g ∈ time_bound u ∧ grant_allows g a ty rid = true).
Proof.
  unfold _user_rbac_allows. destruct (is_superadmin u); [naive_solver|].
  rewrite <- !existsb_elem. destruct (existsb _ (omap _ _)); [naive_solver|].
  destruct tb; simpl; naive_solver.
Qed.

Definition token_ok (u : user) (a ty : str) (rid : option str) : Prop :=
  _token_grants_for u = [] ∨ _token_grants_allow (_token_grants_for u) a ty rid = true.

Lemma has_permission_iff u a ty rid : user_has_permission u a ty rid = true ↔
  is_active u = true ∧ _user_rbac_allows u a ty rid true = true ∧ token_ok u a ty rid.
Proof.
  unfold user_has_permission, token_ok.
  destruct (is_active u); simpl; [|naive_solver].
  destruct (_user_rbac_allows u a ty rid true); simpl; [|naive_solver].
  case_bool_decide as Hl.
  - apply nil_length_inv in Hl. simpl. tauto.
  - assert (_token_grants_for u ≠ []) by (intros E; by rewrite E in Hl).
    destruct (_token_grants_allow _ _ _ _); simpl; naive_solver.
Qed.

Lemma token_allow_iff gs a ty rid : _token_grants_allow gs a ty rid = true ↔
  ∃ g, g ∈ gs ∧ token_action_ok g a = true ∧ _resource_type_matches (g_type g) ty = true ∧
    (rid = None ∨ _resource_id_matches (g_rid g) rid = true).
Proof.
  unfold _token_grants_allow. rewrite existsb_elem.
  split; intros (g & Hg & H); exists g; (split; [done|]).
  - rewrite !andb_true_iff in H. destruct rid; naive_solver.
  - rewrite !andb_true_iff. destruct rid; naive_solver.
Qed.

Lemma no_token_iff u : bool_decide (length (_token_grants_for u) = 0) = true ↔
  _token_grants_for u = [].
Proof.
  rewrite bool_decide_eq_true. split; [by intros ?%nil_length_inv|by intros ->].
Qed.

Lemma if_or_iff (b c : bool) : (if b then true else c) = true ↔ b = true ∨ c = true.
Proof. destruct b; naive_solver. Qed.

(** ** Token views *)
Lemma scoped_ids_spec gs ty ids r :
  match scoped_ids gs ty ids with None => True | Some s => r ∈ s end ↔
  r ∈ ids ∨ existsb (λ g, _resource_type_matches (g_type g) ty &&
                         _resource_id_matches (g_rid g) (Some r)) gs = true.
Proof.
  revert ids. induction gs as [|g gs IH]; intros ids; simpl; [naive_solver|].
  destruct (_resource_type_matches (g_type g) ty); simpl; [|apply IH].
  destruct (rid_any (g_rid g)) eqn:Ea.
  - rewrite (rid_wild _ Ea). naive_solver.
  - rewrite IH, elem_of_union, elem_of_singleton, orb_true_iff, rid_matches_iff, Ea.
    naive_solver.
Qed.

(** ** Triples *)
Definition triple_allows (t : triple) (a ty : str) (rid : option str) : bool :=
  let '(a0, ty0, r0) := t in
  _action_matches (VStr a0) a && _resource_type_matches (VStr ty0) ty &&
  match r0 with None => true | Some r => bool_decide (rid = Some r) end.

(** Entries as the API stores them: dicts whose fields are strings, the id
    optional. *)
Definition wf_grant (g : grant) : Prop :=
  (∃ a, g_action g = VStr a) ∧ (∃ ty, g_type g = VStr ty) ∧
  (g_rid g = VNone ∨ ∃ r, g_rid g = VStr r).
Definition wf_entry (e : entry) : Prop := ∃ g, e = EDict g ∧ wf_grant g.
Definition wf_user (u : user) : Prop :=
  (∀ e, e ∈ static_entries u → wf_entry e) ∧ (∀ g, g ∈ time_bound u → wf_grant g).

Lemma rid_any_str r : rid_any (VStr r) = str_in r [[]; "*"].
Proof.
  unfold rid_any, str_in. rewrite !val_is_VStr.
  rewrite (bool_decide_false (VStr r = VNone)) by done. simpl.
  repeat case_bool_decide; set_solver.
Qed.

Lemma wf_grant_triple g : wf_grant g →
  ∃ t, grant_triple g = Some t ∧ ∀ a ty rid, triple_allows t a ty rid = grant_allows g a ty rid.
Proof.
  destruct g as [ga gt gr]. intros ([a0 Ha] & [ty0 Ht] & Hr). simpl in *. subst ga gt.
  unfold grant_triple. simpl. eexists. split; [done|]. intros a ty rid.
  unfold triple_allows, grant_allows. simpl. f_equal.
  destruct Hr as [->|[r ->]]; [done|].
  pose proof (rid_any_str r) as Hany. unfold _resource_id_matches. rewrite Hany.
  destruct (str_in r [[]; "*"]); [done|]. destruct rid as [rid|]; [|done].
  simpl. apply bool_decide_ext. naive_solver.
Qed.

Lemma base_triples_iff u a ty rid : wf_user u →
  (∃ t, t ∈ base_triples u ∧ triple_allows t a ty rid = true) ↔
  _user_rbac_allows u a ty rid true = true.
Proof.
  intros [Hs Ht]. rewrite rbac_iff. unfold base_triples. split.
  - intros (t & Hin & Hal). rewrite !elem_of_union, !elem_of_list_to_set in Hin.
    destruct Hin as [[Hin|Hin]|Hin].
    + left. destruct (is_superadmin u); [done|set_solver].
    + right; left. apply list_elem_of_omap in Hin as (e & He & Htr).
      destruct (Hs e He) as (g & -> & Hg). destruct (wf_grant_triple g Hg) as (t' & Ht' & Heq).
      simpl in Htr. rewrite Ht' in Htr. injection Htr as ->. exists g. rewrite <- Heq.
      split; [|done]. apply list_elem_of_omap. by exists (EDict g).
    + right; right. split; [done|]. apply list_elem_of_omap in Hin as (g & Hg & Htr).
      destruct (wf_grant_triple g (Ht g Hg)) as (t' & Ht' & Heq).
      rewrite Ht' in Htr. injection Htr as ->. exists g. by rewrite <- Heq.
  - setoid_rewrite elem_of_union. setoid_rewrite elem_of_union.
    setoid_rewrite elem_of_list_to_set. intros [Hsu|[(g & Hg & Hal)|(_ & g & Hg & Hal)]].
    + rewrite Hsu. exists ("*", "*", None). split; [set_solver|done].
    + apply list_elem_of_omap in Hg as (e & He & Hd).
      destruct (Hs e He) as (g' & -> & Hwf). injection Hd as ->.
      destruct (wf_grant_triple g Hwf) as (t & Ht' & Heq). exists t. rewrite Heq.
      split; [|done]. left; right. apply list_elem_of_omap. by exists (EDict g).
    + destruct (wf_grant_triple g (Ht g Hg)) as (t & Ht' & Heq). exists t. rewrite Heq.
      split; [|done]. right. apply list_elem_of_omap. by exists g.
Qed.

Lemma elem_of_effective u t : t ∈ effective_grants u ↔ t ∈ effective_triples u.
Proof. unfold effective_grants. by rewrite merge_sort_Permutation, elem_of_elements. Qed.

(** Narrowing keeps only what both the triple and the token cover. *)
Lemma narrow_sound gs t t' a ty rid : t' ∈ narrow_triple gs t → triple_allows t' a ty rid = true →
  triple_allows t a ty rid = true ∧ _token_grants_allow gs a ty rid = true.
Proof.
  destruct t as [[a0 ty0] [r0|]]; simpl.
  - destruct (_token_grants_allow gs a0 ty0 (Some r0)) eqn:Et; [|set_solver].
    intros ->%list_elem_of_singleton. simpl. intros H. split; [done|]. bool_hyps. subst rid.
    apply token_allow_iff in Et as (g & Hg & Hga & Hgt & Hgr). apply token_allow_iff.
    exists g. split_and!; [done|by eapply token_action_trans|by eapply type_trans|done].
  - intros (g & Hg & Hsome)%list_elem_of_omap.
    destruct (_ && _) eqn:Eg; [|done]. injection Hsome as <-. simpl.
    rewrite !andb_true_iff. intros [[Ha Ht] Hr]. bool_hyps. split; [by rewrite Ha, Ht|].
    apply token_allow_iff. exists g.
    split_and!; [done|by eapply token_action_trans|by eapply type_trans|].
    rewrite rid_matches_iff. destruct (rid_any (g_rid g)); [naive_solver|].
    apply bool_decide_eq_true in Hr. naive_solver.
Qed.

(** ** Properties *)

(** The caller without the API token's resource binding. *)
Definition without_token (u : user) : user :=
  User (is_active u) (is_superadmin u) (groups u) (time_bound u) [].

(** C32 -- A resource-scoped API token only ever narrows its owner, and its two
    per-row views agree with the check: an allowed request is allowed to the
    owner without the token; an allowed request on an instance passes
    [token_scope_allows]; and [token_scope_allows] admits exactly the instances
    [token_scoped_resource_ids] lists (all of them when it returns [None]), so
    a by-id read and a list endpoint show the same rows. *)
Theorem token_narrows (u : user) (a ty : str) :
  (∀ rid, user_has_permission u a ty rid = true →
          user_has_permission (without_token u) a ty rid = true) ∧
  (∀ r, user_has_permission u a ty (Some r) = true → token_scope_allows u ty (Some r) = true) ∧
  (∀ r, token_scope_allows u ty (Some r) = true ↔
        match token_scoped_resource_ids u ty with None => True | Some ids => r ∈ ids end).
Proof.
  split_and!.
  - intros rid. rewrite !has_permission_iff, !rbac_iff. unfold token_ok. simpl.
    intros (? & ? & _). split_and!; [done|done|by left].
  - intros r (_ & _ & Ht)%has_permission_iff. unfold token_scope_allows.
    destruct (bool_decide _) eqn:E; [done|]. destruct Ht as [Ht|Ht].
    { apply no_token_iff in Ht. congruence. }
    apply token_allow_iff in Ht as (g & Hg & _ & Hty & [?|Hr]); [done|].
    apply existsb_elem. exists g. by rewrite Hty, Hr.
  - intros r. unfold token_scope_allows, token_scoped_resource_ids.
    destruct (bool_decide _); [done|]. rewrite scoped_ids_spec. set_solver.
Qed.

(** A delegate of two subnets and of one zone group. *)
Definition sample_user (tokens : list entry) : user :=
  User true false
    [Group [Role (Some [EDict (Grant (VStr "admin") (VStr "subnet") VNone);
                        EDict (Grant (VStr "read") (VStr "dns_group") (VStr "g1"))])]]
    [Grant (VStr "write") (VStr "dns_zone") (VStr "z1")] tokens.
Definition sample_token : list entry :=
  [EDict (Grant (VStr "write") (VStr "subnet") (VStr "s1"))].

Lemma token_narrows_witness :
  user_has_permission (without_token (sample_user sample_token)) "read" "subnet" (Some "s1") = true.
Proof.
  apply (token_narrows (sample_user sample_token) "read" "subnet").
  vm_compute. reflexivity.
Defined.

(** The self-introspection list never over-reports: for a user whose
    stored grants are well formed, a request matched by a returned triple is
    permitted; and for a caller without a token binding the list is exact, a
    request being permitted if and only if some returned triple matches it. *)
Theorem effective_grants_sound (u : user) (a ty : str) (rid : option str) :
  wf_user u →
  ((∃ t, t ∈ effective_grants u ∧ triple_allows t a ty rid = true) →
   user_has_permission u a ty rid = true) ∧
  (_token_grants_for u = [] →
   (∃ t, t ∈ effective_grants u ∧ triple_allows t a ty rid = true) ↔
   user_has_permission u a ty rid = true).
Proof.
  intros Hwf. setoid_rewrite elem_of_effective. unfold effective_triples.
  rewrite has_permission_iff. pose proof (base_triples_iff u a ty rid Hwf) as Hbase.
  destruct (is_active u); simpl; [|split; set_solver].
  destruct (bool_decide _) eqn:E.
  - apply no_token_iff in E. unfold token_ok. split; intros; naive_solver.
  - split.
    + intros (t' & Hin & Hal). apply elem_of_list_to_set, list_elem_of_join in Hin as (l & Ht' & Hl).
      apply list_elem_of_fmap in Hl as (t & -> & Ht). apply elem_of_elements in Ht.
      destruct (narrow_sound _ _ _ _ _ _ Ht' Hal) as [Hal' Htok].
      split_and!; [done| |by right]. apply Hbase. eauto.
    + intros Hn. apply no_token_iff in Hn. congruence.
Qed.

Lemma sample_wf tokens : wf_user (sample_user tokens).
Proof.
  split.
  - cut (Forall wf_entry (static_entries (sample_user tokens))); [by rewrite Forall_forall|].
    apply Forall_cons; split; [|apply Forall_cons; split; [|apply Forall_nil; done]];
      eexists; (split; [reflexivity|]); unfold wf_grant; simpl; eauto 10.
  - cut (Forall wf_grant (time_bound (sample_user tokens))); [by rewrite Forall_forall|].
    apply Forall_cons; split; [|apply Forall_nil; done]. unfold wf_grant. simpl. eauto 10.
Qed.

Lemma effective_grants_sound_witness :
  user_has_permission (sample_user []) "delete" "subnet" (Some "s9") = true.
Proof.
  refine (proj1 (effective_grants_sound (sample_user []) "delete" "subnet" (Some "s9")
    (sample_wf [])) _).
  exists ("admin", "subnet", None). split; [|vm_compute; reflexivity].
  apply (bool_decide_unpack _). vm_compute. exact I.
Defined.

(** The list under-reports for a resource-scoped token: an RBAC triple
    that is broader than the token's action (a wildcard or admin grant) is
    dropped instead of narrowed, so a superadmin holding a token that reads one
    subnet is shown no grants at all although the request is permitted.  The
    documented equivalence of the list with the check does not hold there. *)
Theorem effective_grants_under_reports :
  let u := User true true [] [] [EDict (Grant (VStr "read") (VStr "subnet") (VStr "s1"))] in
  wf_user u ∧ user_has_permission u "read" "subnet" (Some "s1") = true ∧
  effective_grants u = [].
Proof.
  intros u. split; [by split; intros ? ?%not_elem_of_nil|]. split; vm_compute; reflexivity.
Qed.

(** Privilege ceiling: when a caller who is not an effective superadmin
    may grant a set of permissions, no entry is a wildcard, and every request
    any of them would allow is already allowed to the caller by a static role
    alone (so a temporary grant is never turned into a durable one); without a
    token binding it is allowed by the full check. *)
Theorem caller_can_grant_ceiling (u : user) (perms : list entry) (g : grant) (a ty : str)
    (rid : option str) :
  is_effective_superadmin u = false → caller_can_grant u perms = true →
  EDict g ∈ perms ∨ EObj g ∈ perms → grant_allows g a ty rid = true →
  g_action g ≠ VStr "*" ∧ g_type g ≠ VStr "*" ∧
  _user_rbac_allows u a ty rid false = true ∧
  (_token_grants_for u = [] → user_has_permission u a ty rid = true).
Proof.
  intros Hns Hcan Hin Hal. unfold caller_can_grant in Hcan. rewrite Hns in Hcan.
  assert (Htr : match grant_triple g with
     | None => false
     | Some (a0, ty0, r0) =>
        if bool_decide (a0 = "*") || bool_decide (ty0 = "*") then false
        else if negb (user_has_permission u a0 ty0 r0) then false
        else if negb (_user_rbac_allows u a0 ty0 r0 false) then false else true
     end = true).
  { destruct Hin as [Hin|Hin]; exact (forallb_elem _ _ _ Hcan Hin). }
  clear Hcan Hin. apply grant_allows_iff in Hal as (Ha & Ht & Hr).
  unfold grant_triple in Htr.
  destruct (g_action g) as [|a0|] eqn:Ega, (g_type g) as [|ty0|] eqn:Egt; try done.
  set (r0 := match g_rid g with VStr r => _ | _ => _ end) in Htr.
  destruct (bool_decide _ || bool_decide _) eqn:Ew; [done|].
  apply orb_false_iff in Ew as [Ewa Ewt]. rewrite bool_decide_eq_false in Ewa, Ewt.
  destruct (user_has_permission u a0 ty0 r0) eqn:Ep; [|done].
  destruct (_user_rbac_allows u a0 ty0 r0 false) eqn:Es; [|done]. clear Htr.
  assert (Hrid : ∀ v, _resource_id_matches v r0 = true → _resource_id_matches v rid = true).
  { intros v. rewrite (rid_matches_iff v r0). intros [Hv|Hv]; [by apply rid_wild|].
    rewrite rid_matches_iff in *. right. unfold r0 in Hv. destruct (g_rid g) as [|r|]; try done.
    pose proof (rid_any_str r) as Hany. destruct (str_in r _); [done|].
    rewrite Hany in Hr. destruct Hr as [|Hr]; [done|]. simpl in Hr. congruence. }
  assert (Hgr : ∀ g', grant_allows g' a0 ty0 r0 = true → grant_allows g' a ty rid = true).
  { intros g'. rewrite !grant_allows_iff. intros (? & ? & ?).
    split_and!; [by eapply action_trans|by eapply type_trans|auto]. }
  assert (Hstatic : _user_rbac_allows u a ty rid false = true).
  { apply rbac_iff in Es. apply rbac_iff. destruct Es as [?|[(g' & ? & ?)|[? _]]];
      [by left|right; left; exists g'; auto|done]. }
  split_and!; [congruence|congruence|done|]. intros Hno.
  apply has_permission_iff in Ep as (Hact & _ & _). apply has_permission_iff.
  split_and!; [done| |by left]. apply rbac_iff in Hstatic. apply rbac_iff. naive_solver.
Qed.

Lemma caller_can_grant_ceiling_witness :
  _user_rbac_allows (sample_user []) "read" "subnet" (Some "s3") false = true.
Proof.
  refine (proj1 (proj2 (proj2 (caller_can_grant_ceiling (sample_user [])
    [EDict (Grant (VStr "write") (VStr "subnet") VNone);
     EDict (Grant (VStr "admin") (VStr "subnet") (VStr "s3"))]
    (Grant (VStr "admin") (VStr "subnet") (VStr "s3")) "read" "subnet" (Some "s3") _ _ _ _))));
    [vm_compute; reflexivity | vm_compute; reflexivity | left; apply list_elem_of_In; simpl; tauto
    | vm_compute; reflexivity].
Defined.

(** The ceiling is the owner's, not the token's: because an any-instance
    triple takes the coarse token check, a caller whose token reaches one
    subnet may grant read on every subnet, although that token cannot read
    another one. *)
Theorem caller_can_grant_past_token :
  let u := sample_user [EDict (Grant (VStr "admin") (VStr "role") VNone);
                        EDict (Grant (VStr "read") (VStr "subnet") (VStr "s1"))] in
  caller_can_grant u [EDict (Grant (VStr "read") (VStr "subnet") VNone)] = true ∧
  user_has_permission u "read" "subnet" (Some "s2") = false.
Proof. split; vm_compute; reflexivity. Qed.

(** The check is monotone: turning a user into one with at least the
    same static entries and temporary grants, and with a token binding lifted
    or widened, never takes a permission away. *)
Theorem user_has_permission_monotone (u u' : user) (a ty : str) (rid : option str) :
  (is_active u = true → is_active u' = true) →
  (is_superadmin u = true → is_superadmin u' = true) →
  static_entries u ⊆ static_entries u' → time_bound u ⊆ time_bound u' →
  (_token_grants_for u' = [] ∨
   _token_grants_for u ≠ [] ∧ _token_grants_for u ⊆ _token_grants_for u') →
  user_has_permission u a ty rid = true → user_has_permission u' a ty rid = true.
Proof.
  intros Hact Hsu Hst Htb Htok. rewrite !has_permission_iff, !rbac_iff.
  intros (Ha & Hr & Ht). split_and!; [auto| |].
  - destruct Hr as [?|[(g & Hg & ?)|(? & g & Hg & ?)]]; [auto| |].
    + right; left. exists g. split; [|done]. apply list_elem_of_omap in Hg as (e & He & Hd).
      apply list_elem_of_omap. exists e. auto.
    + right; right. split; [done|]. exists g. auto.
  - unfold token_ok in *. destruct Htok as [?|[Hne Hsub]]; [by left|right].
    destruct Ht as [?|Ht]; [done|]. apply token_allow_iff in Ht as (g & ? & ?).
    apply token_allow_iff. exists g. auto.
Qed.

Lemma user_has_permission_monotone_witness :
  user_has_permission (sample_user []) "write" "subnet" (Some "s1") = true.
Proof.
  apply (user_has_permission_monotone (sample_user sample_token) (sample_user []));
    try (intros; assumption); try (intros x Hx; exact Hx).
  - left. reflexivity.
  - vm_compute. reflexivity.
Defined.

(** Two-person rule: an action outside read / write / delete / admin
    (such as [approve]) is never conferred by an admin grant.  It is permitted
    only to a superadmin or through a grant that names the action itself or
    the wildcard action. *)
Theorem bespoke_action_explicit (u : user) (a ty : str) (rid : option str) :
  a ∉ _ADMIN_IMPLIES → user_has_permission u a ty rid = true →
  is_superadmin u = true ∨
  ∃ g, (EDict g ∈ static_entries u ∨ g ∈ time_bound u) ∧
       (g_action g = VStr a ∨ g_action g = VStr "*").
Proof.
  intros Hna (_ & Hr & _)%has_permission_iff. apply rbac_iff in Hr.
  assert (Hg : ∀ g, grant_allows g a ty rid = true → g_action g = VStr a ∨ g_action g = VStr "*").
  { intros g (Ha & _ & _)%grant_allows_iff. apply action_matches_iff in Ha. naive_solver. }
  destruct Hr as [?|[(g & Hin & Hal)|(_ & g & Hin & Hal)]]; [by left|right..].
  - apply list_elem_of_omap in Hin as ([g'| |] & He & Hd); simplify_eq/=. exists g. auto.
  - exists g. auto.
Qed.

Lemma bespoke_action_explicit_witness :
  let u := User true false [Group [Role (Some
             [EDict (Grant (VStr "approve") (VStr "change_request") VNone)])]] [] [] in
  is_superadmin u = true ∨
  ∃ g, (EDict g ∈ static_entries u ∨ g ∈ time_bound u) ∧
       (g_action g = VStr "approve" ∨ g_action g = VStr "*").
Proof.
  intros u. apply (bespoke_action_explicit u "approve" "change_request" None).
  - apply (bool_decide_unpack _). vm_compute. exact I.
  - vm_compute. reflexivity.
Defined.

(** The type-level gate widens the check only where documented: it
    admits every type-level permission, and beyond it only a token bound to
    subnets on the IPAM container types or one bound to zones on the DNS ones,
    whose owner holds the permission. *)
Theorem type_level_allows_spec (u : user) (a ty : str) :
  type_level_allows u a ty = true ↔
  user_has_permission u a ty None = true ∨
  user_has_permission (without_token u) a ty None = true ∧
  (ty ∈ ZONE_TOKEN_COARSE_TYPES ∧
     _token_grants_allow (_token_grants_for u) a "dns_zone" None = true ∨
   ty ∈ SUBNET_TOKEN_COARSE_TYPES ∧
     _token_grants_allow (_token_grants_for u) a "subnet" None = true).
Proof.
  rewrite !has_permission_iff. unfold token_ok, type_level_allows.
  replace (_user_rbac_allows (without_token u) a ty None true)
    with (_user_rbac_allows u a ty None true) by done.
  replace (is_active (without_token u)) with (is_active u) by done.
  destruct (is_active u); simpl; [|naive_solver].
  destruct (_user_rbac_allows u a ty None true); simpl; [|naive_solver].
  pose proof (no_token_iff u) as Hno. unfold str_in.
  destruct (bool_decide _) eqn:E; [naive_solver|].
  assert (Hn : _token_grants_for u ≠ []) by naive_solver.
  assert (Hwo : _token_grants_for (without_token u) = []) by done.
  destruct (_token_grants_allow (_token_grants_for u) a ty None); [tauto|].
  cbn [orb]; rewrite if_or_iff, !andb_true_iff, !bool_decide_eq_true. intuition discriminate.
Qed.

(** The coarse gate admits every delegate its per-row gates would: for a
    caller who is not a legacy-column superadmin and whose grants are well
    formed, a permission on any instance implies [has_any_grant_for]; and for
    [read] without a token conflict also [_has_any_read_grant]. *)
Theorem coarse_gate_complete (u : user) (a ty : str) (rid : option str) :
  wf_user u → is_superadmin u = false → user_has_permission u a ty rid = true →
  has_any_grant_for u a ty = true ∧ (a = "read" → _has_any_read_grant u ty = true).
Proof.
  intros [Hs Ht] Hsu (Hact & Hr & Htok)%has_permission_iff.
  assert (Hany : has_any_grant_for u a ty = true).
  { unfold has_any_grant_for. rewrite Hact. simpl. destruct (is_effective_superadmin u); [done|].
    assert (Hgen : ∀ g, wf_grant g → grant_allows g a ty rid = true →
      match grant_triple g with
      | Some (a0, ty0, _) => _action_matches (VStr a0) a && _resource_type_matches (VStr ty0) ty
      | None => false end = true).
    { intros [ga gt gr] ([a0 Ha0] & [ty0 Ht0] & _) (Ha & Hty & _)%grant_allows_iff.
      simpl in *. subst. unfold grant_triple. simpl. by rewrite Ha, Hty. }
    apply existsb_elem. apply rbac_iff in Hr as [?|[(g & Hg & Hal)|(_ & g & Hg & Hal)]]; [congruence|..].
    - apply list_elem_of_omap in Hg as ([g'| |] & He & Hd); simplify_eq/=.
      destruct (Hs _ He) as (g' & [= <-] & Hwf). exists (grant_triple g). split; [|by apply Hgen].
      apply elem_of_app. left. by apply (list_elem_of_fmap_2 _perm_triple _ (EDict g)).
    - exists (grant_triple g). split; [|by apply Hgen; [apply Ht|]].
      apply elem_of_app. right. by apply list_elem_of_fmap_2. }
  split; [done|]. intros ->. unfold _has_any_read_grant. rewrite Hany. simpl.
  destruct Htok as [Htok|Htok]; [by rewrite (proj2 (no_token_iff u) Htok)|].
  apply orb_true_iff. right. apply token_allow_iff in Htok as (g & ? & ? & ? & _).
  apply token_allow_iff. exists g. auto.
Qed.

Lemma coarse_gate_complete_witness :
  has_any_grant_for (sample_user []) "write" "dns_zone" = true.
Proof.
  apply (coarse_gate_complete (sample_user []) "write" "dns_zone" (Some "z1")).
  - apply sample_wf.
  - reflexivity.
  - vm_compute. reflexivity.
Defined.

(** The exception is real: a legacy-column superadmin whose token is
    bound to one address set passes the per-row check there, but the coarse
    delegation gate, which looks only at role and temporary grants once the
    token suspends the superadmin shortcut, refuses the request before it. *)
Theorem coarse_gate_refuses_superadmin_token :
  let u := User true true [] [] [EDict (Grant (VStr "write") (VStr "address_set") (VStr "a1"))] in
  user_has_permission u "write" "address_set" (Some "a1") = true ∧
  has_any_grant_for u "write" "address_set" = false.
Proof. split; vm_compute; reflexivity. Qed.
End Permissions.
