(* ===== verification/PermissionGates.v ===== *)
(** * Request gates

    [backend/app/core/permissions.py], request half: the action an HTTP
    request needs, the keys routes are classified under, and the dependency
    factories ([require_*]) that admit a caller or refuse it with an audit
    row.  Each factory's inner [_dep] is one decision function here; the
    decisions of [Permissions.v] are used as they are. *)
From S2P Require Import PyStr Permissions.
Import Permissions.

Module PermissionGates.

(** The matched route of a request: its path template, and whether its handler
    carries [@read_only_post]. *)
Record route := Route { template : str; read_only_post : bool }.
Record request := Request {
  method : str;
  url_path : str;
  matched : option route;
  path_params : list (str * str);
}.

Definition _METHOD_TO_ACTION : list (str * str) :=
  [("GET", "read"); ("HEAD", "read"); ("OPTIONS", "read"); ("POST", "write");
   ("PUT", "write"); ("PATCH", "write"); ("DELETE", "delete")].

Definition MULTI_ROW_DELETE_SUFFIXES : list str := ["/bulk-delete"; "/orphans/purge"].

(** [d.get(k)] on a dict given by its items. *)
Fixpoint assoc {B} (k : str) (l : list (str * B)) : option B :=
  match l with
  | [] => None
  | (k', v) :: l' => if bool_decide (k = k') then Some v else assoc k l'
  end.

Definition method_action_for_request (r : request) : str :=
  let m := upper (method r) in
  if bool_decide (m = "POST") &&
     existsb (λ suffix, endswith suffix (rstrip (chr_is "/") (url_path r)))
       MULTI_ROW_DELETE_SUFFIXES
  then "delete"
  else default "write" (assoc m _METHOD_TO_ACTION).

Definition is_read_only_post (rt : option route) : bool :=
  match rt with Some rt => read_only_post rt | None => false end.

Definition action_for_request (r : request) : str :=
  let action := method_action_for_request r in
  if bool_decide (action = "write") && bool_decide (upper (method r) = "POST")
     && is_read_only_post (matched r)
  then "read" else action.

Definition gate_actions (r : request) : list str :=
  let action := action_for_request r in
  let method_action := method_action_for_request r in
  if bool_decide (method_action = action) then [action] else [action; method_action].

(** ** Route keys *)

(** First occurrence of [sep] in [s]: what precedes and what follows it. *)
Fixpoint find_sub (sep s : str) : option (str * str) :=
  if startswith sep s then Some ([], drop (length sep) s)
  else match s with
       | [] => None
       | c :: s' =>
           match find_sub sep s' with
           | Some (before, after) => Some (c :: before, after)
           | None => None
           end
       end.

(** [\w] of a [str] pattern: letters, digits, underscore. *)
Definition word_char (c : ascii) : bool :=
  is_upper_az c || is_lower_az c || is_digit c || chr_is "_" c
  || existsb (Nat.eqb (ord c)) [170; 178; 179; 181; 185; 186; 188; 189; 190]
  || (between 192 255 c && negb (ord c =? 215) && negb (ord c =? 247)).

Fixpoint span (p : ascii → bool) (s : str) : str * str :=
  match s with
  | [] => ([], [])
  | c :: s' => if p c then let '(a, b) := span p s' in (c :: a, b) else ([], s)
  end.

(** A match of [\{(\w+):\w+\}] at the start of the string: group 1 and the
    rest of the string. *)
Definition converter_at (s : str) : option (str * str) :=
  match s with
  | "{"%char :: s1 =>
      match span word_char s1 with
      | (name, ":"%char :: s2) =>
          match span word_char s2 with
          | (conv, "}"%char :: rest) =>
              if bool_decide (name = []) || bool_decide (conv = []) then None
              else Some (name, rest)
          | _ => None
          end
      | _ => None
      end
  | _ => None
  end.

(** [re.sub(pattern, r"{\1}", path)], scanning left to right; the length of
    the string bounds the number of steps. *)
Fixpoint fold_converters (fuel : nat) (s : str) : str :=
  match fuel, s with
  | 0, _ => s
  | _, [] => []
  | S fuel', c :: s' =>
      match converter_at s with
      | Some (name, rest) => "{" ++ name ++ "}" ++ fold_converters fuel' rest
      | None => c :: fold_converters fuel' s'
      end
  end.

Definition fold_template (path : str) : str := fold_converters (length path) path.

Definition or_slash (s : str) : str := if bool_decide (s = []) then "/" else s.

Definition route_key (method path prefix : str) : str :=
  let template := fold_template path in
  let tail := match find_sub prefix template with Some (_, after) => after | None => template end in
  upper method ++ " " ++ or_slash tail.

Definition route_template (r : request) : str :=
  match matched r with Some rt => template rt | None => [] end.

Definition request_route_key (r : request) (prefix : str) : str :=
  route_key (method r) (route_template r) prefix.

Definition mount_route_key (method path prefix : str) : str :=
  let template := fold_template path in
  let template :=
    match find_sub (prefix ++ "/") template with
    | Some (head, tail) =>
        if bool_decide (head = []) || startswith "/api/" head then "/" ++ tail else template
    | None => template
    end in
  upper method ++ " " ++ template.

(** ** Admission *)
Inductive detail :=
| NeedOn (action resource_type : str)
| NeedOnOneOf (action : str) (types : list str)
| NeedOnEach (action : str) (types : list str)
| NoMapping
| Denied.

(** A gate's decision; a refusal carries what [_record_denial] logs. *)
Inductive verdict :=
| Admits
| Refused (logged_action logged_type : str) (d : detail).

Definition verdict_of (b : bool) (la lt : str) (d : detail) : verdict :=
  if b then Admits else Refused la lt d.

Definition require_permission (action resource_type : str) (u : user) : verdict :=
  verdict_of (user_has_permission u action resource_type None) action resource_type
    (NeedOn action resource_type).

Definition require_any_permission (pairs : list (str * str)) (u : user) : verdict :=
  let '(action, resource_type) := default ("read", "*") (head pairs) in
  verdict_of (existsb (λ p, user_has_permission u (fst p) (snd p) None) pairs)
    action resource_type Denied.

Definition RESOURCE_TYPE_CERTIFICATE_STORE : str := "certificate_store".
Definition RESOURCE_TYPE_APPLIANCE : str := "appliance".

Definition require_certificate_store (action : str) (u : user) : verdict :=
  let appliance_action := if bool_decide (action = "read") then "read" else "admin" in
  require_any_permission
    [(action, RESOURCE_TYPE_CERTIFICATE_STORE); (appliance_action, RESOURCE_TYPE_APPLIANCE)] u.

(** The loop stops at the first type that is not held. *)
Fixpoint require_type_level (action : str) (resource_types : list str) (u : user) : verdict :=
  match resource_types with
  | [] => Admits
  | rt :: rest =>
      if negb (type_level_allows u action rt) then Refused action rt (NeedOn action rt)
      else require_type_level action rest u
  end.

Definition require_permission_or_scoped (action resource_type : str) (u : user) : verdict :=
  let token_grants := _token_grants_for u in
  verdict_of
    (user_has_permission u action resource_type None ||
     (has_any_grant_for u action resource_type &&
      (bool_decide (length token_grants = 0) ||
       _token_grants_allow token_grants action resource_type None)))
    action resource_type (NeedOn action resource_type).

(** [(resource_type, list_route, read_routes, write_routes)]. *)
Record instance_rule := InstanceRule {
  ir_type : str; ir_list : str; ir_read : list str; ir_write : list str }.

Section gates.
(** [str(UUID(s))], [None] when [UUID] raises [ValueError]: Python's [uuid]
    parser, of which the gates use only that it names one instance. *)
Variable uuid_str : str → option str.

Definition _instance_scoped_admit (r : request) (u : user) (action : str)
    (instance_routes : list (str * instance_rule)) (prefix : str) : bool :=
  let key := request_route_key r prefix in
  existsb (λ '(pname, rule),
    match assoc pname (path_params r) with
    | None =>
        bool_decide (action = "read") && bool_decide (key = ir_list rule)
        && _has_any_read_grant u (ir_type rule)
    | Some raw =>
        match uuid_str raw with
        | None => false
        | Some rid =>
            let allowed := if bool_decide (action = "read") then ir_read rule else ir_write rule in
            str_in key allowed && user_has_permission u action (ir_type rule) (Some rid)
        end
    end) instance_routes.

Definition require_resource_permission (resource_type : str)
    (instance : option (str * instance_rule)) (prefix : option str) (r : request) (u : user)
    : verdict :=
  let action := action_for_request r in
  verdict_of
    (existsb (λ a, user_has_permission u a resource_type None) (gate_actions r) ||
     match instance with
     | Some pr => _instance_scoped_admit r u (method_action_for_request r) [pr]
                    (default "/ipam" prefix)
     | None => false
     end)
    action resource_type (NeedOn action resource_type).

Definition require_any_resource_permission (resource_types : list str) (r : request) (u : user)
    : verdict :=
  let action := action_for_request r in
  verdict_of
    (existsb (λ rt, existsb (λ a, user_has_permission u a rt None) (gate_actions r)) resource_types)
    action (default "*" (head resource_types)) (NeedOnOneOf action resource_types).

(** The type-level test of a classified route: every type it serves. *)
Definition serves_all (needed : list str) (r : request) (u : user) : bool :=
  negb (bool_decide (needed = [])) &&
  forallb (λ rt, existsb (λ a, type_level_allows u a rt) (gate_actions r)) needed.

Definition each_detail (action : str) (needed : list str) : detail :=
  if bool_decide (needed = []) then NoMapping else NeedOnEach action needed.

Definition require_any_resource_or_scoped (unscoped_types : list str)
    (scoped_routes : list (str * list str)) (instance_routes : option (list (str * instance_rule)))
    (route_types : option (list (str * list str))) (r : request) (u : user) : verdict :=
  let action := action_for_request r in
  let key := request_route_key r "/ipam" in
  let needed := match route_types with
                | Some types => default [] (assoc key types)
                | None => unscoped_types
                end in
  let unscoped :=
    match route_types with
    | Some _ => serves_all needed r u
    | None => existsb (λ rt, existsb (λ a, user_has_permission u a rt None) (gate_actions r))
                unscoped_types
    end in
  let method_action := method_action_for_request r in
  let delegated :=
    negb (bool_decide (method_action = "read")) &&
    existsb (λ '(rt, routes), str_in key routes && has_any_grant_for u method_action rt)
      scoped_routes in
  let instance :=
    match instance_routes with
    | Some rules => _instance_scoped_admit r u method_action rules "/ipam"
    | None => false
    end in
  let all_types := unscoped_types ++ map fst scoped_routes in
  match route_types with
  | Some _ => verdict_of (unscoped || delegated || instance) action (default "*" (head needed))
                (each_detail action needed)
  | None => verdict_of (unscoped || delegated || instance) action (default "*" (head all_types))
              (NeedOnOneOf action all_types)
  end.

Definition require_route_types (route_types : list (str * list str)) (prefix : str)
    (r : request) (u : user) : verdict :=
  let action := action_for_request r in
  let needed := default [] (assoc (mount_route_key (method r) (route_template r) prefix) route_types) in
  verdict_of (serves_all needed r u) action (default "*" (head needed)) (each_detail action needed).
End gates.

(** ** The audit row of a refusal *)
Record audit_row := AuditRow {
  ar_action : str; ar_type : str; ar_id : str; ar_display : str; ar_result : str;
  ar_detail : str }.

Definition denial_row (action resource_type : str) (resource_id : option str) : audit_row :=
  let shown := match resource_id with
               | Some r => if bool_decide (r = []) then "*" else r
               | None => "*" end in
  AuditRow action resource_type (default [] resource_id) (resource_type ++ ":" ++ shown) "denied"
    ("permission denied (" ++ action ++ " on " ++ resource_type ++ ")").

(** Best effort: a failed write ([committed = false]) is swallowed. *)
Definition _record_denial (committed : bool) (log : list audit_row) (action resource_type : str)
    (resource_id : option str) : list audit_row :=
  if committed then log ++ [denial_row action resource_type resource_id] else log.

(** What a dependency does with its verdict: let the request through, or log
    the refusal and raise 403. *)
Definition enforce (v : verdict) (committed : bool) (log : list audit_row)
    : result detail unit * list audit_row :=
  match v with
  | Admits => (Ok tt, log)
  | Refused action resource_type d =>
      (Err d, _record_denial committed log action resource_type None)
  end.

(** [refuse_and_audit]: the caller's own row, then the exception. *)
Definition refuse_and_audit {E} (committed : bool) (log : list audit_row)
    (action resource_type resource_id resource_display reason : str) (detail : E)
    : result E unit * list audit_row :=
  (Err detail,
   if committed
   then log ++ [AuditRow action resource_type resource_id resource_display "denied" reason]
   else log).

(** ** Actions *)
Lemma method_action_cases r :
  method_action_for_request r = "read" ∨ method_action_for_request r = "write" ∨
  method_action_for_request r = "delete".
Proof.
  unfold method_action_for_request. destruct (_ && _); [auto|].
  generalize (upper (method r)). intros m. simpl. repeat case_bool_decide; auto.
Qed.

Lemma method_action_read r : method_action_for_request r = "read" →
  upper (method r) ∈ ["GET"; "HEAD"; "OPTIONS"].
Proof.
  unfold method_action_for_request. destruct (_ && _); [done|].
  generalize (upper (method r)). intros m. simpl.
  repeat case_bool_decide; subst; try done; set_solver.
Qed.

Lemma gate_actions_own r : method_action_for_request r ∈ gate_actions r.
Proof. unfold gate_actions. case_bool_decide as H; [rewrite H|]; set_solver. Qed.

Lemma verdict_of_Admits b la lt d : verdict_of b la lt d = Admits ↔ b = true.
Proof. destruct b; simpl; split; done. Qed.

(** The action a gate asks for: only a safe method, or a POST whose
    handler is marked read-only and whose path is not a multi-row delete, asks
    for [read]; a multi-row delete asks for [delete] and nothing weaker; and
    the read-only relaxation is additive, the method's own action still being
    accepted. *)
Theorem gate_action_rules (r : request) :
  (action_for_request r = "read" →
   upper (method r) ∈ ["GET"; "HEAD"; "OPTIONS"] ∨
   upper (method r) = "POST" ∧ is_read_only_post (matched r) = true ∧
   ∀ suffix, suffix ∈ MULTI_ROW_DELETE_SUFFIXES →
     endswith suffix (rstrip (chr_is "/") (url_path r)) = false) ∧
  (∀ suffix, upper (method r) = "POST" → suffix ∈ MULTI_ROW_DELETE_SUFFIXES →
     endswith suffix (rstrip (chr_is "/") (url_path r)) = true → gate_actions r = ["delete"]) ∧
  method_action_for_request r ∈ gate_actions r ∧
  (∀ a, a ∈ gate_actions r → a = method_action_for_request r ∨ a = "read").
Proof.
  split_and!.
  - unfold action_for_request. destruct (_ && _) eqn:E; [|intros ?%method_action_read; by left].
    intros _. right. bool_hyps. split_and!; [done|done|].
    unfold method_action_for_request in H.
    destruct (bool_decide (upper (method r) = "POST") && _) eqn:Em; [done|].
    rewrite (bool_decide_true _ H1) in Em. simpl orb in Em. rewrite andb_true_l in Em.
    by rewrite existsb_none in Em.
  - intros suffix Hm Hs He. assert (Hd : method_action_for_request r = "delete").
    { unfold method_action_for_request. rewrite (bool_decide_true _ Hm).
      rewrite (proj2 (existsb_elem _ _)); [done|]. eauto. }
    unfold gate_actions, action_for_request. by rewrite Hd.
  - apply gate_actions_own.
  - intros a. unfold gate_actions, action_for_request.
    destruct (_ && _); case_bool_decide; set_solver.
Qed.

Lemma gate_action_rules_witness :
  gate_actions (Request "post" "/api/v1/dns/zones/bulk-delete/" (Some (Route "/x" true)) [])
  = ["delete"].
Proof.
  apply (proj1 (proj2 (gate_action_rules
    (Request "post" "/api/v1/dns/zones/bulk-delete/" (Some (Route "/x" true)) [])))
    "/bulk-delete"); [reflexivity | apply elem_of_cons; by left | vm_compute; reflexivity].
Defined.

(** ** Gates as data *)
Inductive gate :=
| GPermission (action resource_type : str)
| GAny (pairs : list (str * str))
| GCertificateStore (action : str)
| GTypeLevel (action : str) (first : str) (rest : list str)
| GPermissionOrScoped (action resource_type : str)
| GResource (resource_type : str) (instance : option (str * instance_rule)) (prefix : option str)
| GAnyResource (types : list str)
| GOrScoped (unscoped : list str) (scoped : list (str * list str))
    (instance : option (list (str * instance_rule))) (types : option (list (str * list str)))
| GRouteTypes (types : list (str * list str)) (prefix : str).

Definition run_gate (uuid_str : str → option str) (g : gate) (r : request) (u : user) : verdict :=
  match g with
  | GPermission a ty => require_permission a ty u
  | GAny pairs => require_any_permission pairs u
  | GCertificateStore a => require_certificate_store a u
  | GTypeLevel a first rest => require_type_level a (first :: rest) u
  | GPermissionOrScoped a ty => require_permission_or_scoped a ty u
  | GResource ty i p => require_resource_permission uuid_str ty i p r u
  | GAnyResource tys => require_any_resource_permission tys r u
  | GOrScoped un sc i t => require_any_resource_or_scoped uuid_str un sc i t r u
  | GRouteTypes t p => require_route_types t p r u
  end.

Lemma inactive_permission u a ty rid : is_active u = false → user_has_permission u a ty rid = false.
Proof. intros H. unfold user_has_permission. by rewrite H. Qed.

Lemma inactive_type_level u a ty : is_active u = false → type_level_allows u a ty = false.
Proof. intros H. unfold type_level_allows. by rewrite H. Qed.

Lemma inactive_any_grant u a ty : is_active u = false → has_any_grant_for u a ty = false.
Proof. intros H. unfold has_any_grant_for. by rewrite H. Qed.

#[local] Hint Rewrite inactive_permission inactive_type_level inactive_any_grant using assumption
  : pystr.

Lemma existsb_false {A} (p : A → bool) l : (∀ x, p x = false) → existsb p l = false.
Proof. intros H. apply existsb_none. auto. Qed.

Lemma inactive_instance uuid_str r u a rules p : is_active u = false →
  _instance_scoped_admit uuid_str r u a rules p = false.
Proof.
  intros H. apply existsb_false. intros [pname rule].
  destruct (assoc _ _) as [raw|].
  - destruct (uuid_str raw); [|done]. rewrite inactive_permission by done. apply andb_false_r.
  - unfold _has_any_read_grant. rewrite inactive_any_grant by done. apply andb_false_r.
Qed.

Lemma inactive_serves needed r u : is_active u = false → serves_all needed r u = false.
Proof.
  intros H. unfold serves_all. destruct needed as [|rt rest]; [done|]. simpl.
  rewrite existsb_false by (intros; by apply inactive_type_level). done.
Qed.

Lemma inactive_refused uuid_str g r u : is_active u = false →
  run_gate uuid_str g r u ≠ Admits.
Proof.
  intros H. destruct g as [a ty|pairs|a|a f rest|a ty|ty i p|tys|un sc i t|t p]; simpl.
  - unfold require_permission. rewrite verdict_of_Admits. by rewrite inactive_permission.
  - unfold require_any_permission. destruct (default _ _). rewrite verdict_of_Admits.
    rewrite existsb_false; [done|]. intros x. by apply inactive_permission.
  - unfold require_certificate_store, require_any_permission. simpl.
    rewrite !inactive_permission by done. done.
  - by rewrite inactive_type_level.
  - unfold require_permission_or_scoped. rewrite verdict_of_Admits.
    by rewrite inactive_permission, inactive_any_grant.
  - unfold require_resource_permission. rewrite verdict_of_Admits.
    rewrite existsb_false by (intros; by apply inactive_permission). cbn [orb].
    destruct i; [by rewrite inactive_instance|done].
  - unfold require_any_resource_permission. rewrite verdict_of_Admits.
    rewrite existsb_false; [done|]. intros x. apply existsb_false. intros; by apply inactive_permission.
  - unfold require_any_resource_or_scoped.
    assert (Hs : existsb (λ '(rt, routes), str_in (request_route_key r "/ipam") routes &&
       has_any_grant_for u (method_action_for_request r) rt) sc = false).
    { apply existsb_false. intros [rt routes]. rewrite inactive_any_grant by done. apply andb_false_r. }
    assert (Hi : match i with Some rules => _instance_scoped_admit uuid_str r u
       (method_action_for_request r) rules "/ipam" | None => false end = false).
    { destruct i; [by apply inactive_instance|done]. }
    destruct t; rewrite verdict_of_Admits, Hs, Hi, andb_false_r, !orb_false_r.
    + by rewrite inactive_serves.
    + rewrite existsb_false; [done|]. intros x. apply existsb_false.
      intros; by apply inactive_permission.
  - unfold require_route_types. rewrite verdict_of_Admits. by rewrite inactive_serves.
Qed.

(** Every gate fails closed and leaves a trail: a request it lets
    through leaves the audit log as it was and its caller is active; a request
    it refuses raises, and writes exactly one row with result [denied] (none
    when the best-effort write fails).  In particular an inactive user, even a
    superadmin, passes no gate. *)
Theorem gates_fail_closed (uuid_str : str → option str) (g : gate) (r : request) (u : user)
    (committed : bool) (log : list audit_row) :
  match enforce (run_gate uuid_str g r u) committed log with
  | (Ok _, log') => log' = log ∧ is_active u = true
  | (Err _, log') =>
      run_gate uuid_str g r u ≠ Admits ∧
      ∃ row, ar_result row = "denied" ∧ log' = if committed then log ++ [row] else log
  end.
Proof.
  destruct (run_gate uuid_str g r u) as [|la lt d] eqn:E; simpl.
  - split; [done|]. destruct (is_active u) eqn:Ha; [done|].
    by apply (inactive_refused uuid_str g r u) in Ha.
  - split; [done|]. exists (denial_row la lt None). by destruct committed.
Qed.

(** Routes are closed until classified: a route missing from the map of
    types admits nobody through [require_route_types], and through the
    delegation gate only a delegate of a type (or an instance rule) that lists
    that very route, and never for a read by delegation. *)
Theorem unclassified_route_closed (uuid_str : str → option str) (r : request) (u : user)
    (types : list (str * list str)) (prefix : str)
    (unscoped : list str) (scoped : list (str * list str)) :
  (assoc (mount_route_key (method r) (route_template r) prefix) types = None →
   require_route_types types prefix r u ≠ Admits) ∧
  (assoc (request_route_key r "/ipam") types = None →
   require_any_resource_or_scoped uuid_str unscoped scoped None (Some types) r u = Admits →
   method_action_for_request r ≠ "read" ∧
   ∃ rt routes, (rt, routes) ∈ scoped ∧ request_route_key r "/ipam" ∈ routes ∧
     has_any_grant_for u (method_action_for_request r) rt = true).
Proof.
  split.
  - intros H. unfold require_route_types. rewrite H. by rewrite verdict_of_Admits.
  - intros H. unfold require_any_resource_or_scoped. rewrite H, verdict_of_Admits. simpl.
    rewrite orb_false_r, andb_true_iff, negb_true_iff, bool_decide_eq_false, existsb_elem.
    intros [Hm ([rt routes] & Hin & Hr)]. split; [done|]. exists rt, routes.
    unfold str_in in Hr. bool_hyps. done.
Qed.

Definition sample_delegate : user :=
  User true false [Group [Role (Some
    [EDict (Grant (VStr "write") (VStr "address_set") (VStr "a1"))])]] [] [].
Definition sample_put : request :=
  Request "PUT" "/api/v1/ipam/addresses/7" (Some (Route "/ipam/addresses/{address_id}" false))
    [("address_id", "7")].

Lemma unclassified_route_closed_witness :
  method_action_for_request sample_put ≠ "read".
Proof.
  refine (proj1 (proj2 (unclassified_route_closed (λ _, None) sample_put sample_delegate [] "/dns"
    ["subnet"] [("address_set", ["PUT /addresses/{address_id}"])]) eq_refl _)).
  vm_compute. reflexivity.
Defined.

(** ** Route keys *)
Lemma startswith_app p s t : startswith p s = true → startswith p (s ++ t) = true.
Proof.
  unfold startswith. rewrite !bool_decide_eq_true. intros H.
  rewrite take_app_le; [done|]. rewrite <- H, length_take at 1. lia.
Qed.

Lemma find_sub_app sep s b a t : find_sub sep s = Some (b, a) →
  find_sub sep (s ++ t) = Some (b, a ++ t).
Proof.
  revert b a. induction s as [|c s IH]; intros b a; simpl.
  - destruct (startswith sep []) eqn:E; [|done]. intros [= <- <-].
    unfold startswith in E. apply bool_decide_eq_true in E.
    rewrite take_nil in E. subst sep. destruct t; simpl; by rewrite ?take_0.
  - destruct (startswith sep (c :: s)) eqn:E.
    + intros [= <- <-]. change (c :: s ++ t) with ((c :: s) ++ t).
      rewrite (startswith_app _ _ _ E). f_equal. f_equal.
      unfold startswith in E. apply bool_decide_eq_true in E.
      rewrite drop_app_le; [done|]. rewrite <- E, length_take at 1. lia.
    + destruct (find_sub sep s) as [[b' a']|] eqn:F; [|done]. intros [= <- <-].
      rewrite (IH _ _ eq_refl).
      destruct (startswith sep (c :: s ++ t)) eqn:E'; [exfalso|done].
      (* an occurrence at the head of the longer string would be one of [s] *)
      unfold startswith in E, E'. apply bool_decide_eq_true in E'.
      apply bool_decide_eq_false in E. apply E.
      assert (Hlen : length sep ≤ length s).
      { clear -F. revert b' a' F. induction s as [|d s IH]; intros b' a'; simpl.
        - destruct (startswith sep []) eqn:E; [|done]. unfold startswith in E.
          apply bool_decide_eq_true in E. rewrite take_nil in E. by subst.
        - destruct (startswith sep (d :: s)) eqn:E.
          + intros _. unfold startswith in E. apply bool_decide_eq_true in E.
            apply (f_equal length) in E. rewrite length_take in E. simpl in *. lia.
          + destruct (find_sub sep s) as [[? ?]|]; [|done]. intros _.
            specialize (IH _ _ eq_refl). lia. }
      change (c :: s ++ t) with ((c :: s) ++ t) in E'.
      rewrite take_app_le in E'; [done|simpl; lia].
Qed.

Lemma fold_converters_fuel n m s : length s ≤ n → length s ≤ m →
  fold_converters n s = fold_converters m s.
Proof.
  assert (Hspan : ∀ p s a b, span p s = (a, b) → length b ≤ length s).
  { intros p s0. induction s0 as [|c s0 IH]; intros a b; simpl; [by intros [= <- <-]|].
    destruct (p c); [|by intros [= <- <-]]. destruct (span p s0) as [a' b'].
    intros [= <- <-]. specialize (IH _ _ eq_refl). lia. }
  assert (Hconv : ∀ s name rest, converter_at s = Some (name, rest) → length rest < length s).
  { intros s0 name rest. unfold converter_at.
    destruct s0 as [|c s1]; [done|]. intros H.
    repeat (case_match; try done). simplify_eq/=.
    match goal with H1 : span _ s1 = (_, _ :: ?s2), H2 : span _ ?s2 = (_, _ :: _) |- _ =>
      apply Hspan in H1; apply Hspan in H2; simpl in H1, H2 end. lia. }
  revert m s. induction n as [|n IH]; intros m s Hn Hm.
  { destruct s; [by destruct m|simpl in Hn; lia]. }
  destruct m as [|m]; [destruct s; [done|simpl in Hm; lia]|].
  destruct s as [|c s]; [done|]. cbn [fold_converters].
  destruct (converter_at (c :: s)) as [[name rest]|] eqn:E.
  - apply Hconv in E. simpl in *. rewrite (IH m); [done|lia|lia].
  - simpl in *. rewrite (IH m); [done|lia|lia].
Qed.

Lemma fold_template_app s t : contains "{" s = false →
  fold_template (s ++ t) = s ++ fold_template t.
Proof.
  unfold fold_template. intros Hs. induction s as [|c s IH].
  - done.
  - simpl in Hs. apply orb_false_iff in Hs as [Hc Hs]. specialize (IH Hs).
    rewrite <- !app_comm_cons. cbn [length fold_converters].
    assert (Hconv : ∀ s', converter_at (c :: s') = None).
    { intros s'. clear -Hc. each_ascii c; reflexivity || discriminate Hc. }
    by rewrite Hconv, IH.
Qed.

(** The two spellings of a route give one key: for a router mounted at
    [prefix], the template a request carries ([p], relative to the router) and
    the template of the route table ([/api/v1] + [prefix] + [p]) have the same
    [mount_route_key], provided the mount does not also occur inside [p]. *)
Theorem mount_route_key_agrees (m prefix p : str) :
  contains "{" prefix = false →
  find_sub (prefix ++ "/") ("/api/v1" ++ prefix ++ "/") = Some ("/api/v1", []) →
  find_sub (prefix ++ "/") (fold_template ("/" ++ p)) = None →
  mount_route_key m ("/api/v1" ++ prefix ++ "/" ++ p) prefix = mount_route_key m ("/" ++ p) prefix.
Proof.
  intros Hnb Hfirst Hnone. unfold mount_route_key. rewrite Hnone.
  assert (Hp : fold_template ("/" ++ p) = "/" ++ fold_template p) by by apply fold_template_app.
  assert (Hm : fold_template ("/api/v1" ++ prefix ++ "/" ++ p) =
    ("/api/v1" ++ prefix ++ "/") ++ fold_template p).
  { rewrite !fold_template_app by done. by rewrite <- !app_assoc. }
  rewrite Hm, Hp. rewrite (find_sub_app _ _ _ _ (fold_template p) Hfirst). simpl. done.
Qed.

Lemma mount_route_key_agrees_witness :
  mount_route_key "get" "/api/v1/dns/groups/{group_id:uuid}" "/dns" = "GET /groups/{group_id}".
Proof.
  transitivity (mount_route_key "get" "/groups/{group_id:uuid}" "/dns");
    [|vm_compute; reflexivity].
  apply (mount_route_key_agrees "get" "/dns" "groups/{group_id:uuid}"); vm_compute; reflexivity.
Defined.

Example route_key_example :
  route_key "put" "/api/v1/ipam/addresses/{address_id:path}" "/ipam" = "PUT /addresses/{address_id}".
Proof. vm_compute. reflexivity. Qed.
End PermissionGates.
