(* ===== verification/DnsTxt.v ===== *)
(** * TXT presentation form

    [backend/app/drivers/dns/_txt.py] (and its identical copy under
    [agent/dns]): quoting, escaping, splitting and reading back TXT values.
    This file works on code points and octets, both as integers: a text is a
    list of Unicode code points, a byte string a list of integers below 256.
    [str.isprintable] (the Unicode tables) is the parameter [isprintable];
    texts hold no lone surrogate, on which Python's encoder would raise. *)
From S2P Require Import Prelude.
#[local] Open Scope Z_scope.

Module DnsTxt.

Abbreviation text := (list Z).
Abbreviation octets := (list Z).

(** ** Python's UTF-8 codec *)
Definition valid_cp (c : Z) : bool :=
  ((0 <=? c) && (c <? 55296)) || ((57344 <=? c) && (c <? 1114112)).

Definition encode_cp (c : Z) : octets :=
  if c <? 128 then [c]
  else if c <? 2048 then [192 + c / 64; 128 + c mod 64]
  else if c <? 65536 then [224 + c / 4096; 128 + (c / 64) mod 64; 128 + c mod 64]
  else [240 + c / 262144; 128 + (c / 4096) mod 64; 128 + (c / 64) mod 64; 128 + c mod 64].

Definition utf8_encode (s : text) : octets := mjoin (map encode_cp s).

Definition in_range (lo hi b : Z) : bool := (lo <=? b) && (b <=? hi).
Definition cont (b : Z) : bool := in_range 128 191 b.

(** Decoding of one character with all its octets given: overlong forms,
    surrogates and code points past U+10FFFF are refused. *)
Definition decode_seq (bs : octets) : option Z :=
  match bs with
  | [a] => if in_range 0 127 a then Some a else None
  | [a; b] =>
      if in_range 194 223 a && cont b then Some ((a - 192) * 64 + (b - 128)) else None
  | [a; b; c] =>
      if in_range 224 239 a && cont b && cont c
         && (negb (a =? 224) || (160 <=? b)) && (negb (a =? 237) || (b <=? 159))
      then Some ((a - 224) * 4096 + (b - 128) * 64 + (c - 128)) else None
  | [a; b; c; d] =>
      if in_range 240 244 a && cont b && cont c && cont d
         && (negb (a =? 240) || (144 <=? b)) && (negb (a =? 244) || (b <=? 143))
      then Some ((a - 240) * 262144 + (b - 128) * 4096 + (c - 128) * 64 + (d - 128)) else None
  | _ => None
  end.

(** The number of octets a lead octet announces (1 for ASCII, 0 for none). *)
Definition lead_len (a : Z) : nat :=
  if in_range 0 127 a then 1
  else if in_range 194 223 a then 2
  else if in_range 224 239 a then 3
  else if in_range 240 244 a then 4 else 0.

Fixpoint utf8_decode_go (fuel : nat) (bs : octets) : option text :=
  match fuel, bs with
  | _, [] => Some []
  | O, _ => None
  | S fuel', a :: _ =>
      let n := lead_len a in
      match decode_seq (take n bs), utf8_decode_go fuel' (drop n bs) with
      | Some c, Some s => Some (c :: s)
      | _, _ => None
      end
  end.

Definition utf8_decode (bs : octets) : option text := utf8_decode_go (length bs) bs.

(** [str.isspace] on one code point. *)
Definition isspace (c : Z) : bool :=
  in_range 9 13 c || in_range 28 32 c || (c =? 133) || (c =? 160) || (c =? 5760)
  || in_range 8192 8202 c || (c =? 8232) || (c =? 8233) || (c =? 8239) || (c =? 8287)
  || (c =? 12288).

Definition strip (s : text) : text :=
  reverse (dropwhile isspace (reverse (dropwhile isspace s))).

(** ** The module *)
Definition _MAX_STRING_OCTETS : nat := 255.
Definition QUOTE : Z := 34.
Definition BACKSLASH : Z := 92.

Definition _strip_control (value : text) : text :=
  List.filter (λ ch, (32 <=? ch) && negb (ch =? 127)) value.

Definition is_ascii_digit (c : Z) : bool := in_range 48 57 c.

(** The inner loop of [_parse_quoted_txt]: the octets up to the closing quote
    and what follows it.  Two code points may be consumed at a time, hence the
    fuel (the length of the text). *)
Fixpoint parse_body (fuel : nat) (s : text) (buf : octets) : option (octets * text) :=
  match fuel, s with
  | O, _ => None
  | _, [] => None
  | S fuel', ch :: rest =>
      if ch =? BACKSLASH then
        match rest with
        | [] => None
        | e :: rest' =>
            let digits := take 3 rest in
            if (length digits =? 3)%nat && forallb is_ascii_digit digits then
              match digits with
              | [d1; d2; d3] =>
                  let octet := (d1 - 48) * 100 + (d2 - 48) * 10 + (d3 - 48) in
                  if 255 <? octet then None
                  else parse_body fuel' (drop 3 rest) (buf ++ [octet])
              | _ => None
              end
            else parse_body fuel' rest' (buf ++ encode_cp e)
        end
      else if ch =? QUOTE then Some (buf, rest)
      else parse_body fuel' rest (buf ++ encode_cp ch)
  end.

(** The outer loop: blanks, then one quoted string, which must be followed by
    a blank or the end. *)
Fixpoint parse_parts (fuel : nat) (s : text) : option (list octets) :=
  match fuel, s with
  | _, [] => Some []
  | O, _ => None
  | S fuel', ch :: rest =>
      if isspace ch then parse_parts fuel' rest
      else if negb (ch =? QUOTE) then None
      else match parse_body (length rest) rest [] with
           | None => None
           | Some (part, after) =>
               if match after with [] => false | c :: _ => negb (isspace c) end then None
               else match parse_parts fuel' after with
                    | Some parts => Some (part :: parts)
                    | None => None
                    end
           end
  end.

Definition _parse_quoted_txt (s : text) : option (list octets) :=
  match parse_parts (length s) s with
  | Some [] => None
  | r => r
  end.

Definition is_continuation (b : Z) : bool := Z.land b 192 =? 128.
Definition is_lead (b : Z) : bool := Z.land b 192 =? 192.

(** [while k > pos and end - k < 3 and data[k] is a continuation: k -= 1],
    with [pos] the start of the remaining data. *)
Fixpoint back_up (fuel : nat) (data : octets) (k : nat) : nat :=
  match fuel with
  | O => k
  | S fuel' =>
      if (0 <? k)%nat && is_continuation (nth k data 0) then back_up fuel' data (k - 1) else k
  end.

Definition chunk_end (data : octets) : nat :=
  let n := length data in
  let e := Nat.min _MAX_STRING_OCTETS n in
  if (e <? n)%nat && is_continuation (nth e data 0) then
    let k := back_up 3 data e in
    if (0 <? k)%nat && is_lead (nth k data 0) then k else e
  else e.

Fixpoint chunk_loop (fuel : nat) (data : octets) : list octets :=
  match fuel, data with
  | _, [] => []
  | O, _ => []
  | S fuel', _ => take (chunk_end data) data :: chunk_loop fuel' (drop (chunk_end data) data)
  end.

Definition _chunk_octets (data : octets) : list octets :=
  match data with [] => [[]] | _ => chunk_loop (length data) data end.

Definition _utf8_seq_len (lead : Z) : nat :=
  if in_range 194 223 lead then 2
  else if in_range 224 239 lead then 3
  else if in_range 240 244 lead then 4 else 0.

(** [f"\\{c:03d}"]. *)
Definition ddd (c : Z) : text :=
  [BACKSLASH; 48 + c / 100; 48 + (c / 10) mod 10; 48 + c mod 10].

Section quoting.
Variable isprintable : Z → bool.

Fixpoint escape_go (fuel : nat) (data : octets) : text :=
  match fuel, data with
  | _, [] => []
  | O, _ => []
  | S fuel', c :: rest =>
      if c =? QUOTE then [BACKSLASH; QUOTE] ++ escape_go fuel' rest
      else if c =? BACKSLASH then [BACKSLASH; BACKSLASH] ++ escape_go fuel' rest
      else if (32 <=? c) && (c <? 127) then c :: escape_go fuel' rest
      else
        let seq := _utf8_seq_len c in
        let char := if (0 <? seq)%nat && (seq <=? length data)%nat
                    then decode_seq (take seq data) else None in
        match char with
        | Some ch =>
            if isprintable ch then ch :: escape_go fuel' (drop seq data)
            else ddd c ++ escape_go fuel' rest
        | None => ddd c ++ escape_go fuel' rest
        end
  end.

Definition _escape_octets (data : octets) : text := escape_go (length data) data.

Definition txt_strings (value : text) : list octets :=
  let s := _strip_control value in
  let stripped := strip s in
  let parsed := match stripped with
                | c :: _ => if c =? QUOTE then _parse_quoted_txt stripped else None
                | [] => None
                end in
  let strings := match parsed with Some l => l | None => [utf8_encode s] end in
  mjoin (map _chunk_octets strings).

Definition quoted (c : octets) : text := [QUOTE] ++ _escape_octets c ++ [QUOTE].

Fixpoint join_space (ws : list text) : text :=
  match ws with
  | [] => []
  | [w] => w
  | w :: ws' => w ++ [32] ++ join_space ws'
  end.

Definition quote_strings (strings : list octets) : text := join_space (map quoted strings).

Definition txt_value (strings : list octets) : text :=
  match utf8_decode (mjoin strings) with
  | None => quote_strings strings
  | Some bare =>
      if negb (bool_decide (strings = [])) && bool_decide (txt_strings bare = strings)
      then bare else quote_strings strings
  end.

Definition quote_txt (value : text) : text := join_space (map quoted (txt_strings value)).
End quoting.

(** ** Octets *)
Definition octet (b : Z) : bool := in_range 0 255 b.
Definition is_octets (bs : octets) : bool := forallb octet bs.

Lemma in_range_spec lo hi b : in_range lo hi b = true ↔ lo <= b <= hi.
Proof. unfold in_range. rewrite andb_true_iff, !Z.leb_le. reflexivity. Qed.

Lemma in_range_false lo hi b : in_range lo hi b = false ↔ b < lo ∨ hi < b.
Proof. rewrite <- not_true_iff_false, in_range_spec. lia. Qed.

(** Reflect the range and comparison tests of the context. *)
Ltac zb :=
  bool_hyps;
  repeat match goal with
  | H : in_range _ _ _ = true |- _ => apply in_range_spec in H
  | H : in_range _ _ _ = false |- _ => apply in_range_false in H
  | H : (_ <=? _) = true |- _ => apply Z.leb_le in H
  | H : (_ <=? _) = false |- _ => apply Z.leb_gt in H
  | H : (_ <? _) = true |- _ => apply Z.ltb_lt in H
  | H : (_ <? _) = false |- _ => apply Z.ltb_ge in H
  | H : (_ =? _) = true |- _ => apply Z.eqb_eq in H
  | H : (_ =? _) = false |- _ => apply Z.eqb_neq in H
  end.

Ltac zdiv := Z.to_euclidean_division_equations; lia.

(** A boolean property of octets, decided by evaluating it on all of them. *)
Lemma octet_forall (P : Z → bool) :
  forallb P (map Z.of_nat (seq 0 256)) = true → ∀ b, octet b = true → P b = true.
Proof.
  intros H b Hb. unfold octet in Hb. zb. eapply forallb_elem; [exact H|].
  apply list_elem_of_In, List.in_map_iff. exists (Z.to_nat b).
  split; [lia|]. apply List.in_seq. lia.
Qed.

Lemma is_continuation_spec b : octet b = true → is_continuation b = cont b.
Proof.
  intros H. apply eqb_prop. revert b H. apply octet_forall. by vm_compute.
Qed.

Lemma is_lead_spec b : octet b = true → is_lead b = in_range 192 255 b.
Proof.
  intros H. apply eqb_prop. revert b H. apply octet_forall. by vm_compute.
Qed.

(** ** The UTF-8 codec *)
Lemma valid_cp_bounds c : valid_cp c = true → 0 <= c < 1114112.
Proof. unfold valid_cp. intros [H|H]%orb_true_iff; zb; lia. Qed.

(** The octets of a character: the first is ASCII or a lead octet, the others
    are continuation octets, at most three of them. *)
Lemma encode_cp_shape c :
  valid_cp c = true →
  ∃ b bs, encode_cp c = b :: bs ∧ octet b = true ∧ is_continuation b = false
    ∧ (bs ≠ [] → is_lead b = true) ∧ (length bs ≤ 3)%nat
    ∧ forallb octet bs = true ∧ forallb is_continuation bs = true.
Proof.
  intros Hc%valid_cp_bounds.
  assert (L : ∀ b, 128 <= b <= 191 → octet b = true ∧ is_continuation b = true).
  { intros b Hb. assert (octet b = true) as Ho by (apply in_range_spec; lia).
    split; [done|]. rewrite is_continuation_spec by done. apply in_range_spec. lia. }
  assert (B : ∀ b, 0 <= b <= 127 ∨ 192 <= b <= 255 → octet b = true ∧ is_continuation b = false).
  { intros b Hb. assert (octet b = true) as Ho by (apply in_range_spec; lia).
    split; [done|]. rewrite is_continuation_spec by done. apply in_range_false. lia. }
  assert (LD : ∀ b, 192 <= b <= 255 → is_lead b = true).
  { intros b Hb. rewrite is_lead_spec; apply in_range_spec; lia. }
  unfold encode_cp. repeat case_match; zb; eexists _, _; split; try reflexivity.
  all: split_and?; try (apply B; zdiv); try (intros _; apply LD; zdiv); simpl; try lia; try done.
  all: rewrite ?andb_true_iff; split_and?; try (apply L; zdiv); done.
Qed.

Lemma encode_cp_octets c : valid_cp c = true → is_octets (encode_cp c) = true.
Proof.
  intros (b & bs & -> & Hb & _ & _ & _ & Hbs & _)%encode_cp_shape.
  unfold is_octets. simpl. by rewrite Hb, Hbs.
Qed.

Lemma utf8_encode_app s1 s2 : utf8_encode (s1 ++ s2) = utf8_encode s1 ++ utf8_encode s2.
Proof. unfold utf8_encode. rewrite List.map_app. apply join_app. Qed.

Lemma utf8_encode_cons c s : utf8_encode (c :: s) = encode_cp c ++ utf8_encode s.
Proof. reflexivity. Qed.

Lemma utf8_encode_octets s : forallb valid_cp s = true → is_octets (utf8_encode s) = true.
Proof.
  induction s as [|c s IH]; simpl; [done|]. intros [Hc Hs]%andb_true_iff.
  unfold is_octets in *. rewrite utf8_encode_cons. apply forallb_app_iff.
  split; [by apply encode_cp_octets|auto].
Qed.

(** A decoded character encodes back to the octets it came from. *)
Lemma decode_encode bs c : decode_seq bs = Some c → encode_cp c = bs ∧ valid_cp c = true.
Proof.
  intros H. unfold decode_seq in H.
  repeat (case_match; try discriminate); simplify_eq; unfold cont in *.
  all: repeat match goal with
       | H : (_ || _)%bool = true |- _ => apply orb_true_iff in H; destruct H
       | _ => progress zb
       end.
  all: unfold encode_cp, valid_cp; rewrite orb_true_iff, !andb_true_iff.
  all: split; [|lia].
  all: repeat case_match; zb; try lia; repeat f_equal; zdiv.
Qed.

Lemma decode_multi bs c : decode_seq bs = Some c → (2 ≤ length bs)%nat → 128 <= c.
Proof.
  intros H Hl. apply decode_encode in H as [He Hv]. revert He. apply valid_cp_bounds in Hv.
  unfold encode_cp. destruct (Z.ltb_spec c 128); [|lia]. intros <-. simpl in Hl. lia.
Qed.

(** ** Escaping is read back exactly *)
Lemma ddd_digits c :
  octet c = true →
  is_ascii_digit (48 + c / 100) = true ∧ is_ascii_digit (48 + (c / 10) mod 10) = true
  ∧ is_ascii_digit (48 + c mod 10) = true
  ∧ (48 + c / 100 - 48) * 100 + (48 + (c / 10) mod 10 - 48) * 10 + (48 + c mod 10 - 48) = c.
Proof. intros Hc. unfold octet, is_ascii_digit in *. rewrite !in_range_spec in *. zdiv. Qed.

Lemma parse_body_ddd f c rest buf :
  octet c = true →
  parse_body (S f) (ddd c ++ rest) buf = parse_body f rest (buf ++ [c]).
Proof.
  intros Hc. destruct (ddd_digits c Hc) as (H1 & H2 & H3 & Hv).
  unfold ddd. cbn [app parse_body]. rewrite Z.eqb_refl. cbn [take length Nat.eqb andb forallb drop].
  rewrite H1, H2, H3. cbn [andb]. rewrite Hv. unfold octet in Hc. zb.
  destruct (Z.ltb_spec 255 c); [lia|done].
Qed.

Lemma parse_body_escaped f e rest buf :
  is_ascii_digit e = false →
  parse_body (S f) (BACKSLASH :: e :: rest) buf = parse_body f rest (buf ++ encode_cp e).
Proof.
  intros He. cbn [parse_body]. rewrite Z.eqb_refl. cbn [take forallb]. rewrite He.
  by rewrite andb_false_r.
Qed.

Lemma parse_body_plain f c rest buf :
  c ≠ QUOTE → c ≠ BACKSLASH →
  parse_body (S f) (c :: rest) buf = parse_body f rest (buf ++ encode_cp c).
Proof.
  intros H1%Z.eqb_neq H2%Z.eqb_neq. cbn [parse_body]. by rewrite H1, H2.
Qed.

Lemma seq_len_pos c : (0 < _utf8_seq_len c)%nat → (2 ≤ _utf8_seq_len c)%nat.
Proof. unfold _utf8_seq_len. repeat case_match; lia. Qed.

Section quoting_proofs.
Variable isprintable : Z → bool.

(** One step of the escape loop, on a non-empty rest of the data: it writes
    one token, which stands for a non-empty prefix of the data. *)
Inductive token : octets → text → Prop :=
| TQuote : token [QUOTE] [BACKSLASH; QUOTE]
| TBackslash : token [BACKSLASH] [BACKSLASH; BACKSLASH]
| TAscii c : 32 <= c < 127 → c ≠ QUOTE → c ≠ BACKSLASH → token [c] [c]
| TChar ch : 128 <= ch → valid_cp ch = true → token (encode_cp ch) [ch]
| TOctet c : octet c = true → token [c] (ddd c).

Lemma escape_step f c rest :
  is_octets (c :: rest) = true →
  ∃ d t rest', c :: rest = d ++ rest' ∧ d ≠ [] ∧ token d t
    ∧ escape_go isprintable (S f) (c :: rest) = t ++ escape_go isprintable f rest'.
Proof.
  intros Ho. pose proof Ho as Hc. unfold is_octets in Hc. cbn [forallb] in Hc. bool_hyps.
  cbn [escape_go].
  destruct (c =? QUOTE) eqn:EQ; [zb; subst; exists [QUOTE]; eexists _, rest; eauto using token|].
  destruct (c =? BACKSLASH) eqn:EB; [zb; subst; exists [BACKSLASH]; eexists _, rest; eauto using token|].
  destruct ((32 <=? c) && (c <? 127)) eqn:EA.
  { zb. exists [c], [c], rest. split_and!; auto. by apply TAscii. }
  assert (D : ∃ d t rest', c :: rest = d ++ rest' ∧ d ≠ [] ∧ token d t
     ∧ ddd c ++ escape_go isprintable f rest = t ++ escape_go isprintable f rest').
  { exists [c]; eexists _, rest. split_and!; auto. by apply TOctet. }
  destruct ((0 <? _utf8_seq_len c)%nat && (_utf8_seq_len c <=? length (c :: rest))%nat) eqn:EL;
    [|exact D].
  destruct (decode_seq (take (_utf8_seq_len c) (c :: rest))) as [ch|] eqn:ED; [|exact D].
  destruct (isprintable ch); [|exact D]. bool_hyps.
  rewrite Nat.ltb_lt, Nat.leb_le in *.
  assert (length (take (_utf8_seq_len c) (c :: rest)) = _utf8_seq_len c) as Hlen
    by (rewrite length_take; lia).
  pose proof (decode_encode _ _ ED) as [He Hv].
  exists (take (_utf8_seq_len c) (c :: rest)), [ch], (drop (_utf8_seq_len c) (c :: rest)).
  split_and!.
  - by rewrite take_drop.
  - intros E. rewrite E in Hlen. simpl in Hlen. lia.
  - rewrite <- He. apply TChar; [|done].
    eapply decode_multi; [exact ED|]. rewrite Hlen. by apply seq_len_pos.
  - done.
Qed.

(** What reading a token back does. *)
Lemma parse_body_token f d t rest buf :
  token d t → parse_body (S f) (t ++ rest) buf = parse_body f rest (buf ++ d).
Proof.
  destruct 1 as [| |c Hc H1 H2|ch Hch Hv|c Hc]; cbn [app].
  - by apply parse_body_escaped.
  - by apply parse_body_escaped.
  - rewrite parse_body_plain by done. unfold encode_cp.
    destruct (Z.ltb_spec c 128); [done|lia].
  - apply parse_body_plain; unfold QUOTE, BACKSLASH; lia.
  - by apply parse_body_ddd.
Qed.

Definition visible (ch : Z) : bool := (32 <=? ch) && negb (ch =? 127).

Lemma token_visible d t : token d t → forallb visible t = true ∧ t ≠ [].
Proof.
  assert (V : ∀ ch, 32 <= ch → ch ≠ 127 → visible ch = true).
  { intros ch H1 H2. unfold visible. apply andb_true_iff.
    rewrite Z.leb_le, negb_true_iff, Z.eqb_neq. done. }
  destruct 1 as [| |c Hc H1 H2|ch Hch Hv|c Hc]; split; try done; simpl; rewrite ?andb_true_r.
  - apply V; lia.
  - apply V; lia.
  - apply in_range_spec in Hc. rewrite !andb_true_iff. split_and?; try (apply V; zdiv); done.
Qed.

Lemma escape_visible f data :
  is_octets data = true → forallb visible (escape_go isprintable f data) = true.
Proof.
  revert data. induction f as [|f IH]; intros [|c rest] Ho; try done.
  destruct (escape_step f c rest Ho) as (d & t & rest' & E & Hd & Ht & ->).
  apply forallb_app_iff. split; [by apply token_visible in Ht as []|]. apply IH.
  unfold is_octets in *. rewrite E in Ho. by apply forallb_app_iff in Ho as [].
Qed.

Lemma parse_body_escape f data n rest buf :
  is_octets data = true → (length data ≤ f)%nat →
  (length (escape_go isprintable f data) < n)%nat →
  parse_body n (escape_go isprintable f data ++ QUOTE :: rest) buf = Some (buf ++ data, rest).
Proof.
  revert data n buf. induction f as [|f IH]; intros [|c data] n buf Ho Hf Hn;
    try (simpl in Hf; lia).
  1,2: destruct n as [|n]; [simpl in Hn; lia|]; simpl; by rewrite app_nil_r.
  destruct (escape_step f c data Ho) as (d & t & rest' & E & Hd & Ht & Eg).
  rewrite Eg in *. rewrite E in *. destruct n as [|n]; [lia|].
  rewrite <- (assoc (++)), (parse_body_token n d t) by done.
  pose proof (token_visible _ _ Ht) as [_ Ht'].
  assert (0 < length d)%nat by (destruct d; simpl; [done|lia]).
  assert (0 < length t)%nat by (destruct t; simpl; [done|lia]).
  rewrite length_app in *. rewrite IH.
  - by rewrite <- (assoc (++)).
  - unfold is_octets in *. by apply forallb_app_iff in Ho as [].
  - lia.
  - lia.
Qed.

Lemma parse_parts_quoted strings n :
  Forall (λ s, is_octets s = true) strings →
  (length (quote_strings isprintable strings) ≤ n)%nat →
  parse_parts n (quote_strings isprintable strings) = Some strings.
Proof.
  intros H. revert n. unfold quote_strings.
  induction H as [|d ds Hd Hds IH]; intros n Hn; [by destruct n|].
  assert (E : ∃ tl, join_space (map (quoted isprintable) (d :: ds))
      = QUOTE :: _escape_octets isprintable d ++ QUOTE :: tl
      ∧ match tl with [] => ds = [] | c :: tl' => c = 32 ∧
          tl' = join_space (map (quoted isprintable) ds) end).
  { destruct ds; eexists; (split; [unfold quoted; simpl|]).
    - reflexivity.
    - done.
    - by rewrite <- (assoc (++)).
    - done. }
  destruct E as (tl & E & Htl). rewrite E in *. simpl in Hn. rewrite length_app in Hn.
  simpl in Hn. destruct n as [|n]; [lia|]. cbn [parse_parts].
  change (isspace QUOTE) with false. change (negb (QUOTE =? QUOTE)) with false. cbv iota.
  unfold _escape_octets in *. rewrite parse_body_escape; try done; [|rewrite length_app; simpl; lia].
  destruct tl as [|c tl'].
  - subst ds. simpl. by destruct n.
  - destruct Htl as [-> ->]. cbn [negb isspace]. destruct n as [|n]; [simpl in Hn; lia|].
    cbn [parse_parts]. change (isspace 32) with true. cbv iota. simpl. rewrite IH; [done|].
    simpl in Hn. lia.
Qed.

Lemma quote_strings_visible strings :
  Forall (λ s, is_octets s = true) strings →
  forallb visible (quote_strings isprintable strings) = true.
Proof.
  assert (Q : ∀ d, is_octets d = true → forallb visible (quoted isprintable d) = true).
  { intros d Hd. unfold quoted. rewrite !forallb_app_iff.
    split_and!; try done. by apply escape_visible. }
  unfold quote_strings. induction 1 as [|d ds Hd Hds IH]; [done|].
  destruct ds as [|d' ds']; [by apply Q|].
  cbn [map join_space] in *. rewrite !forallb_app_iff. split_and!; try done. by apply Q.
Qed.

Lemma strip_quoted (m : text) : strip (QUOTE :: m ++ [QUOTE]) = QUOTE :: m ++ [QUOTE].
Proof.
  unfold strip. change (QUOTE :: m ++ [QUOTE]) with ([QUOTE] ++ m ++ [QUOTE]).
  replace (dropwhile isspace ([QUOTE] ++ m ++ [QUOTE])) with ([QUOTE] ++ m ++ [QUOTE]) by done.
  rewrite !reverse_app. simpl.
  by rewrite reverse_cons, reverse_app, reverse_involutive, reverse_involutive.
Qed.

(** The rendering of a non-empty list starts and ends with a quote. *)
Lemma quote_strings_ends strings :
  strings ≠ [] → ∃ m, quote_strings isprintable strings = QUOTE :: m ++ [QUOTE].
Proof.
  unfold quote_strings. induction strings as [|d [|d' ds] IH]; intros H; [done| |].
  - by exists (_escape_octets isprintable d).
  - destruct IH as [m Hm]; [done|]. cbn [map join_space] in *.
    rewrite Hm. unfold quoted at 1.
    exists (_escape_octets isprintable d ++ [QUOTE; 32; QUOTE] ++ m).
    simpl. by rewrite <- !(assoc (++)).
Qed.

Definition char_string (s : octets) : Prop :=
  is_octets s = true ∧ (length s ≤ _MAX_STRING_OCTETS)%nat.

Lemma chunk_end_short data :
  (length data ≤ _MAX_STRING_OCTETS)%nat → chunk_end data = length data.
Proof.
  intros H. unfold chunk_end. rewrite Nat.min_r by done. by rewrite Nat.ltb_irrefl.
Qed.

Lemma chunk_octets_short s :
  (length s ≤ _MAX_STRING_OCTETS)%nat → _chunk_octets s = [s].
Proof.
  intros H. destruct s as [|c s]; [done|]. unfold _chunk_octets. cbn [length chunk_loop].
  rewrite chunk_end_short, take_ge, drop_ge by done. by destruct s.
Qed.

Lemma txt_strings_quoted strings :
  strings ≠ [] → Forall char_string strings →
  txt_strings (quote_strings isprintable strings) = strings.
Proof.
  intros Hne Hs. unfold txt_strings, _strip_control.
  assert (Forall (λ s, is_octets s = true) strings) as Ho
    by (eapply Forall_impl; [exact Hs|]; by intros ? []).
  rewrite filter_all by (by apply quote_strings_visible).
  destruct (quote_strings_ends strings Hne) as [m Hm].
  assert (strip (quote_strings isprintable strings) = quote_strings isprintable strings) as ->
    by (by rewrite Hm, strip_quoted).
  assert (_parse_quoted_txt (quote_strings isprintable strings) = Some strings) as Hp.
  { unfold _parse_quoted_txt. rewrite parse_parts_quoted by (done || lia). by destruct strings. }
  rewrite Hp. rewrite Hm. rewrite Z.eqb_refl.
  clear -Hs. induction Hs as [|s l [_ Hl] _ IH]; [done|].
  cbn [map mjoin list_join foldr]. rewrite chunk_octets_short by done. simpl. f_equal. exact IH.
Qed.
End quoting_proofs.

(** ** Chunks *)
Lemma back_up_le fuel data k : (back_up fuel data k ≤ k)%nat.
Proof.
  revert k. induction fuel as [|f IH]; intros k; simpl; [done|].
  case_match; [|done]. etrans; [apply IH|]. lia.
Qed.

Lemma chunk_end_bounds data :
  data ≠ [] → (0 < chunk_end data ≤ _MAX_STRING_OCTETS)%nat ∧ (chunk_end data ≤ length data)%nat.
Proof.
  intros Hd. assert (0 < length data)%nat by (destruct data; simpl; [done|lia]).
  unfold chunk_end. set (e := Nat.min _MAX_STRING_OCTETS (length data)).
  assert (0 < e ≤ _MAX_STRING_OCTETS)%nat by (unfold e, _MAX_STRING_OCTETS; lia).
  assert (e ≤ length data)%nat by lia.
  pose proof (back_up_le 3 data e).
  case_match; [|lia]. destruct (0 <? back_up 3 data e)%nat eqn:E; cbn [andb]; [|lia].
  apply Nat.ltb_lt in E. case_match; lia.
Qed.

(** The loop covers the data: nothing is lost, and every piece is legal. *)
Lemma chunk_loop_spec fuel data :
  (length data ≤ fuel)%nat → is_octets data = true →
  mjoin (chunk_loop fuel data) = data ∧ Forall char_string (chunk_loop fuel data).
Proof.
  revert data. induction fuel as [|f IH]; intros [|c data] Hf Ho; simpl in Hf; try lia;
    try (by split; [|constructor]).
  cbn [chunk_loop]. destruct (chunk_end_bounds (c :: data)) as [He Hl]; [done|].
  set (n := chunk_end (c :: data)) in *. set (d := c :: data) in *.
  unfold is_octets in Ho. rewrite <- (take_drop n d) in Ho.
  apply forallb_app_iff in Ho as [Ho1 Ho2].
  destruct (IH (drop n d)) as [IH1 IH2]; [rewrite length_drop; simpl in *; lia|done|].
  split.
  - change (take n d ++ mjoin (chunk_loop f (drop n d)) = d). rewrite IH1. apply take_drop.
  - constructor; [|exact IH2]. split; [done|]. rewrite length_take. lia.
Qed.

Lemma chunk_octets_spec data :
  is_octets data = true →
  mjoin (_chunk_octets data) = data ∧ Forall char_string (_chunk_octets data)
  ∧ _chunk_octets data ≠ [].
Proof.
  intros Ho. destruct data as [|c data].
  { split_and!; try done. repeat constructor. }
  unfold _chunk_octets. destruct (chunk_loop_spec (length (c :: data)) (c :: data)) as [H1 H2];
    [lia|done|]. split_and!; try done.
Qed.

(** ** What is read is legal *)
Lemma octets_snoc buf bs :
  is_octets buf = true → is_octets bs = true → is_octets (buf ++ bs) = true.
Proof. intros. by apply forallb_app_iff. Qed.

Lemma parse_body_legal n s buf d after :
  parse_body n s buf = Some (d, after) → is_octets buf = true → forallb valid_cp s = true →
  is_octets d = true ∧ forallb valid_cp after = true.
Proof.
  revert s buf. induction n as [|n IH]; intros [|ch s] buf Hp Hb Hs; try discriminate.
  cbn [parse_body] in Hp. cbn [forallb] in Hs. bool_hyps.
  destruct (ch =? BACKSLASH).
  - destruct s as [|e s']; [done|]. cbn [forallb] in *. bool_hyps. case_match.
    + bool_hyps. destruct (take 3 (e :: s')) as [|d1 [|d2 [|d3 [|]]]] eqn:Et; try discriminate.
      case_match; [done|]. cbn [forallb] in *. bool_hyps.
      eapply IH; [exact Hp| |].
      * apply octets_snoc; [done|]. unfold is_octets, octet. simpl. rewrite andb_true_r.
        apply in_range_spec. unfold is_ascii_digit in *. zb. lia.
      * assert (forallb valid_cp (e :: s') = true) as Hes by (simpl; by apply andb_true_iff).
        rewrite <- (take_drop 3 (e :: s')) in Hes. by apply forallb_app_iff in Hes as [].
    + eapply IH; [exact Hp| |done]. apply octets_snoc; [done|by apply encode_cp_octets].
  - case_match; [by simplify_eq|].
    eapply IH; [exact Hp| |done]. apply octets_snoc; [done|by apply encode_cp_octets].
Qed.

Lemma parse_parts_legal n s parts :
  parse_parts n s = Some parts → forallb valid_cp s = true →
  Forall (λ d, is_octets d = true) parts.
Proof.
  revert s parts. induction n as [|n IH]; intros [|ch s] parts Hp Hs; try discriminate;
    try (injection Hp as <-; constructor).
  cbn [parse_parts] in Hp. cbn [forallb] in Hs. apply andb_true_iff in Hs as [Hch Hs].
  destruct (isspace ch); [eauto|]. destruct (negb (ch =? QUOTE)); [done|].
  destruct (parse_body _ s []) as [[part after]|] eqn:Eb; [|done].
  apply parse_body_legal in Eb as [H1 H2]; [|done..].
  case_match; [done|]. destruct (parse_parts n after) eqn:Ep; [|done]. simplify_eq.
  constructor; eauto.
Qed.

Lemma strip_valid s : forallb valid_cp s = true → forallb valid_cp (strip s) = true.
Proof.
  intros H. unfold strip. rewrite !forallb_Forall, Forall_reverse, <- forallb_Forall.
  apply dropwhile_forallb. rewrite forallb_Forall, Forall_reverse, <- forallb_Forall.
  by apply dropwhile_forallb.
Qed.

Lemma strip_control_valid s :
  forallb valid_cp s = true → forallb valid_cp (_strip_control s) = true.
Proof.
  unfold _strip_control. rewrite !List.forallb_forall. intros H x Hx.
  apply List.filter_In in Hx as []. auto.
Qed.

Lemma chunks_legal l :
  l ≠ [] → Forall (λ d, is_octets d = true) l →
  mjoin (map _chunk_octets l) ≠ [] ∧ Forall char_string (mjoin (map _chunk_octets l)).
Proof.
  intros Hne H. split.
  - destruct H as [|d l Hd _]; [done|]. destruct (chunk_octets_spec d Hd) as (_ & _ & Hn).
    cbn. by destruct (_chunk_octets d).
  - induction H as [|d l Hd H IH]; [constructor|]. cbn.
    apply Forall_app. split; [by apply chunk_octets_spec|].
    destruct l; [constructor|by apply IH].
Qed.

Lemma txt_strings_legal value :
  forallb valid_cp value = true →
  txt_strings value ≠ [] ∧ Forall char_string (txt_strings value).
Proof.
  intros Hv%strip_control_valid. unfold txt_strings.
  set (s := _strip_control value) in *.
  assert (D : [utf8_encode s] ≠ [] ∧ Forall (λ d, is_octets d = true) [utf8_encode s]).
  { split; [done|]. constructor; [by apply utf8_encode_octets|constructor]. }
  destruct (strip s) as [|c t] eqn:Es; [by apply chunks_legal; destruct D|].
  destruct (c =? QUOTE); [|by apply chunks_legal; destruct D].
  destruct (_parse_quoted_txt (c :: t)) as [parts|] eqn:Ep; [|by apply chunks_legal; destruct D].
  unfold _parse_quoted_txt in Ep. rewrite <- Es in Ep.
  destruct (parse_parts _ (strip s)) as [[|p ps]|] eqn:E; try discriminate. injection Ep as <-.
  apply chunks_legal; [done|]. eapply parse_parts_legal; [exact E|by apply strip_valid].
Qed.

(** ** Decoding inverts encoding *)
Lemma implies_test a k m b : (a = k → m <= b) → negb (a =? k) || (m <=? b) = true.
Proof. intros H. destruct (Z.eqb_spec a k); [|done]. simpl. apply Z.leb_le. auto. Qed.

Lemma encode_decode c :
  valid_cp c = true →
  decode_seq (encode_cp c) = Some c ∧ ∃ b bs, encode_cp c = b :: bs ∧ lead_len b = length (encode_cp c).
Proof.
  intros Hv. assert (0 <= c < 1114112) as Hb by (by apply valid_cp_bounds).
  unfold valid_cp in Hv. rewrite orb_true_iff, !andb_true_iff, !Z.ltb_lt, !Z.leb_le in Hv.
  assert (R : ∀ lo hi b, lo <= b <= hi → in_range lo hi b = true) by (intros; by apply in_range_spec).
  assert (F : ∀ lo hi b, b < lo ∨ hi < b → in_range lo hi b = false) by (intros; by apply in_range_false).
  unfold encode_cp. repeat case_match; zb.
  - split; [|eexists _, _; split; [reflexivity|]]; unfold lead_len; simpl; rewrite R by lia; done.
  - split; [|eexists _, _; split; [reflexivity|]].
    + unfold decode_seq, cont. rewrite !R by zdiv. cbn [andb]. f_equal. zdiv.
    + unfold lead_len. rewrite (F 0 127), R by zdiv. done.
  - split; [|eexists _, _; split; [reflexivity|]].
    + unfold decode_seq, cont. rewrite !R by zdiv. cbn [andb].
      rewrite !implies_test by (intros; zdiv). cbn [andb]. f_equal. zdiv.
    + unfold lead_len. rewrite (F 0 127), (F 194 223), R by zdiv. done.
  - split; [|eexists _, _; split; [reflexivity|]].
    + unfold decode_seq, cont. rewrite !R by zdiv. cbn [andb].
      rewrite !implies_test by (intros; zdiv). cbn [andb]. f_equal. zdiv.
    + unfold lead_len. rewrite (F 0 127), (F 194 223), (F 224 239), R by zdiv. done.
Qed.

Lemma utf8_decode_encode s :
  forallb valid_cp s = true → utf8_decode (utf8_encode s) = Some s.
Proof.
  intros Hs. unfold utf8_decode.
  enough (∀ n, (length (utf8_encode s) ≤ n)%nat → utf8_decode_go n (utf8_encode s) = Some s) as H
    by (by apply H).
  induction s as [|c s IH]; intros n Hn; [by destruct n|].
  cbn [forallb] in Hs. apply andb_true_iff in Hs as [Hc Hs].
  destruct (encode_decode c Hc) as (Hd & b & bs & E & Hl).
  rewrite utf8_encode_cons in *. rewrite length_app in Hn.
  destruct n as [|n]; [rewrite E in Hn; simpl in Hn; lia|].
  rewrite E at 1. cbn [app utf8_decode_go]. rewrite Hl.
  change (b :: bs ++ utf8_encode s) with ((b :: bs) ++ utf8_encode s). rewrite <- E.
  rewrite take_app_length, drop_app_length, Hd, IH; [done..|].
  rewrite E in Hn. simpl in Hn. lia.
Qed.

(** ** Chunks of encoded text *)

(** Every position inside encoded text is at some offset of some character. *)
Lemma position_in_text s e :
  (e < length (utf8_encode s))%nat →
  ∃ s1 c s2 j, s = s1 ++ c :: s2 ∧ e = (length (utf8_encode s1) + j)%nat
    ∧ (j < length (encode_cp c))%nat.
Proof.
  revert e. induction s as [|c s IH]; intros e He; [simpl in He; lia|].
  rewrite utf8_encode_cons, length_app in He.
  destruct (decide (e < length (encode_cp c))%nat) as [Hl|Hl].
  - exists [], c, s, e. done.
  - destruct (IH (e - length (encode_cp c))%nat) as (s1 & c' & s2 & j & -> & Hj & Hj'); [lia|].
    exists (c :: s1), c', s2, j. rewrite utf8_encode_cons, length_app. split_and!; [done|lia|done].
Qed.

Lemma nth_in_char s1 c s2 j :
  (j < length (encode_cp c))%nat →
  nth (length (utf8_encode s1) + j) (utf8_encode (s1 ++ c :: s2)) 0 = nth j (encode_cp c) 0.
Proof.
  intros Hj. rewrite utf8_encode_app, utf8_encode_cons.
  rewrite List.app_nth2 by lia. rewrite List.app_nth1 by lia. f_equal. lia.
Qed.

Lemma nth_cont c j :
  valid_cp c = true → (j < length (encode_cp c))%nat →
  is_continuation (nth j (encode_cp c) 0) = (0 <? j)%nat.
Proof.
  intros (b & bs & E & _ & H0 & _ & _ & _ & Hbs)%encode_cp_shape. rewrite E.
  destruct j as [|j]; [done|]. simpl. intros Hj.
  eapply forallb_elem; [exact Hbs|]. apply list_elem_of_In, List.nth_In. lia.
Qed.

(** Backing up from offset [j] of a character reaches its first octet. *)
Lemma back_up_char s1 c s2 j fuel :
  valid_cp c = true → (j < length (encode_cp c))%nat → (j ≤ fuel)%nat →
  back_up fuel (utf8_encode (s1 ++ c :: s2)) (length (utf8_encode s1) + j)
  = length (utf8_encode s1).
Proof.
  intros Hc. revert fuel. induction j as [|j IH]; intros fuel Hj Hf.
  - destruct fuel; simpl; [lia|].
    rewrite nth_in_char, nth_cont by done. rewrite andb_false_r. lia.
  - destruct fuel as [|fuel]; [lia|]. cbn [back_up].
    rewrite nth_in_char, nth_cont by done.
    destruct (Nat.ltb_spec 0 (length (utf8_encode s1) + S j)); [|lia]. cbn [andb Nat.ltb Nat.leb].
    replace (length (utf8_encode s1) + S j - 1)%nat with (length (utf8_encode s1) + j)%nat by lia.
    apply IH; lia.
Qed.

Lemma chunk_end_boundary s :
  forallb valid_cp s = true → s ≠ [] →
  ∃ s1 s2, s = s1 ++ s2 ∧ chunk_end (utf8_encode s) = length (utf8_encode s1).
Proof.
  intros Hs Hne. unfold chunk_end.
  set (d := utf8_encode s). set (e := Nat.min _MAX_STRING_OCTETS (length d)).
  destruct (e <? length d)%nat eqn:El; cbn [andb].
  2:{ apply Nat.ltb_ge in El. exists s, []. rewrite app_nil_r. split; [done|]. unfold e, d in *. lia. }
  apply Nat.ltb_lt in El. assert (e = 255%nat) as He by (unfold e, _MAX_STRING_OCTETS in *; lia).
  destruct (position_in_text s e El) as (s1 & c & s2 & j & Es & Ej & Hj).
  assert (valid_cp c = true) as Hc.
  { rewrite Es in Hs. apply forallb_app_iff in Hs as [_ Hs]. simpl in Hs. by bool_hyps. }
  pose proof (encode_cp_shape c Hc) as (b & bs & Ec & _ & _ & Hlead & Hlen & _).
  assert (j ≤ 3)%nat by (rewrite Ec in Hj; simpl in Hj; lia).
  unfold d. rewrite Ej, Es, nth_in_char, nth_cont by done.
  destruct (Nat.ltb_spec 0 j) as [Hj0|Hj0].
  2:{ exists s1, (c :: s2). split; [done|lia]. }
  rewrite back_up_char by done. destruct (Nat.ltb_spec 0 (length (utf8_encode s1))); [|lia].
  exists s1, (c :: s2). split; [done|].
  replace (length (utf8_encode s1)) with (length (utf8_encode s1) + 0)%nat at 1 by lia.
  rewrite nth_in_char by lia. rewrite Ec. cbn [nth]. rewrite Hlead; [done|].
  intros ->. rewrite Ec in Hj. simpl in Hj. lia.
Qed.

Lemma chunk_loop_chars fuel s :
  (length (utf8_encode s) ≤ fuel)%nat → forallb valid_cp s = true →
  ∃ ts, chunk_loop fuel (utf8_encode s) = map utf8_encode ts ∧ mjoin ts = s.
Proof.
  revert s. induction fuel as [|f IH]; intros s Hf Hs.
  { exists []. destruct s as [|c s]; [done|].
    rewrite utf8_encode_cons, length_app in Hf. simpl in Hs. bool_hyps.
    destruct (encode_cp_shape c) as (b & bs & E & _); [done|]. rewrite E in Hf. simpl in Hf. lia. }
  destruct s as [|c0 s0]; [by exists []|]. set (s := c0 :: s0) in *.
  assert (utf8_encode s ≠ []) as Hne.
  { unfold s. rewrite utf8_encode_cons. simpl in Hs. bool_hyps.
    destruct (encode_cp_shape c0) as (b & bs & E & _); [done|]. by rewrite E. }
  destruct (chunk_end_bounds _ Hne) as [Hb _].
  destruct (chunk_end_boundary s Hs ltac:(done)) as (s1 & s2 & E & Hend).
  destruct (utf8_encode s) as [|x xs] eqn:Ex; [done|]. cbn [chunk_loop].
  rewrite <- Ex in *. rewrite Hend in *. rewrite E in Hs, Hf |- *.
  rewrite utf8_encode_app in *. rewrite length_app in Hf.
  apply forallb_app_iff in Hs as [Hs1 Hs2].
  destruct (IH s2) as (ts & Ets & Hts); [lia|done|].
  exists (s1 :: ts). rewrite take_app_length, drop_app_length, Ets. simpl. by rewrite <- Hts.
Qed.

Lemma chunk_octets_chars s :
  forallb valid_cp s = true →
  ∃ ts, _chunk_octets (utf8_encode s) = map utf8_encode ts ∧ mjoin ts = s.
Proof.
  intros Hs. unfold _chunk_octets. destruct (utf8_encode s) as [|x xs] eqn:Ex.
  - exists [[]]. split; [done|]. destruct s as [|c s]; [done|].
    rewrite utf8_encode_cons in Ex. simpl in Hs. bool_hyps.
    destruct (encode_cp_shape c) as (b & bs & E & _); [done|]. by rewrite E in Ex.
  - rewrite <- Ex. by apply chunk_loop_chars.
Qed.

(** A value that is not in presentation form, with nothing to strip. *)
Definition plain (v : text) : Prop :=
  forallb valid_cp v = true ∧ forallb visible v = true ∧ head (strip v) ≠ Some QUOTE.

Lemma txt_strings_plain v : plain v → txt_strings v = _chunk_octets (utf8_encode v).
Proof.
  intros (Hv & Hc & Hq). unfold txt_strings, _strip_control. rewrite filter_all by done.
  destruct (strip v) as [|c t]; [by simpl; rewrite app_nil_r|].
  destruct (c =? QUOTE) eqn:E; [zb; subst; by destruct Hq|]. simpl. by rewrite app_nil_r.
Qed.

(** ** Claims *)

(** C33 -- what a server stores can be read back: rendering character-strings
    (any octets, at most 255 in each) in presentation form, or as the stored
    value of a read-back, and parsing the result gives the very same strings. *)
Theorem txt_value_roundtrip (isprintable : Z → bool) (strings : list octets) :
  strings ≠ [] → Forall char_string strings →
  txt_strings (quote_strings isprintable strings) = strings
  ∧ txt_strings (txt_value isprintable strings) = strings.
Proof.
  intros Hne Hs. split; [by apply txt_strings_quoted|]. unfold txt_value.
  destruct (utf8_decode (mjoin strings)) as [bare|]; [|by apply txt_strings_quoted].
  case_match eqn:E; [|by apply txt_strings_quoted]. by bool_hyps.
Qed.

Lemma txt_value_roundtrip_witness :
  let strings := [[107; 61; 34; 200]; [226; 130; 172; 0]] in
  txt_strings (quote_strings (λ c, 160 <? c) strings) = strings
  ∧ txt_strings (txt_value (λ c, 160 <? c) strings) = strings.
Proof.
  apply (txt_value_roundtrip (λ c, 160 <? c) [[107; 61; 34; 200]; [226; 130; 172; 0]]); [done|].
  repeat constructor.
Defined.

(** The wire rendering is canonical: whatever text is stored, it stands
    for at least one character-string, each of at most 255 octets; the
    rendering stands for the same strings, and rendering twice changes nothing. *)
Theorem quote_txt_canonical (isprintable : Z → bool) (value : text) :
  forallb valid_cp value = true →
  txt_strings value ≠ [] ∧ Forall char_string (txt_strings value)
  ∧ txt_strings (quote_txt isprintable value) = txt_strings value
  ∧ quote_txt isprintable (quote_txt isprintable value) = quote_txt isprintable value.
Proof.
  intros Hv. destruct (txt_strings_legal value Hv) as [Hne Hs].
  pose proof (txt_strings_quoted isprintable _ Hne Hs) as E.
  change (txt_strings (quote_txt isprintable value) = txt_strings value) in E.
  split_and!; [done..|]. unfold quote_txt at 1. by rewrite E.
Qed.

Lemma quote_txt_canonical_witness :
  quote_txt (λ c, 160 <? c) (quote_txt (λ c, 160 <? c) [118; 9; 34; 8364])
  = quote_txt (λ c, 160 <? c) [118; 9; 34; 8364].
Proof. apply (quote_txt_canonical (λ c, 160 <? c) [118; 9; 34; 8364]). reflexivity. Defined.

(** Plain text survives: a stored value that is not in presentation form
    is cut into strings of at most 255 octets that each hold whole UTF-8
    characters and together spell the value, and a server's read-back of those
    strings is stored as the same plain value again. *)
Theorem plain_value_whole_characters (isprintable : Z → bool) (v : text) :
  plain v →
  (∃ ts, txt_strings v = map utf8_encode ts ∧ mjoin ts = v
    ∧ Forall (λ t, (length (utf8_encode t) ≤ _MAX_STRING_OCTETS)%nat) ts)
  ∧ txt_value isprintable (txt_strings v) = v.
Proof.
  intros Hp. pose proof Hp as (Hv & _ & _).
  pose proof (txt_strings_legal v Hv) as [Hne Hs].
  rewrite (txt_strings_plain v Hp) in *.
  destruct (chunk_octets_chars v Hv) as (ts & E & Hj). split.
  - exists ts. split_and!; [done..|]. rewrite E, Forall_map in Hs.
    eapply Forall_impl; [exact Hs|]. by intros t [].
  - unfold txt_value.
    destruct (chunk_octets_spec (utf8_encode v)) as (-> & _ & _); [by apply utf8_encode_octets|].
    rewrite utf8_decode_encode by done.
    rewrite (txt_strings_plain v Hp).
    rewrite bool_decide_false by done. by rewrite bool_decide_true.
Qed.

Lemma plain_value_whole_characters_witness :
  txt_value (λ c, 160 <? c) (txt_strings (replicate 200 8364)) = replicate 200 8364
  ∧ length (txt_strings (replicate 200 8364)) = 3%nat.
Proof.
  split; [|reflexivity]. apply (plain_value_whole_characters (λ c, 160 <? c) (replicate 200 8364)).
  split_and!; [reflexivity..|discriminate].
Defined.
End DnsTxt.
