(* ===== verification/FkGraph.v ===== *)
(** * Factory reset: the foreign-key graph

    [backend/app/services/factory_reset/fk_graph.py]: which tables a section
    wipe removes through [ON DELETE CASCADE] keys, which keys can refuse it,
    which tables can be truncated, and the order of the deletes.  The graph
    functions are modelled whole; the SQL text builders and the readers of
    the live catalogue are not.  A Python [set] of table names is a [gset];
    where the code turns a set into a list the order is the one [elements]
    gives, and the theorems do not depend on it. *)
From S2P Require Import Prelude PyStr.

Module FkGraph.

Record FKEdge := mkFKEdge {
  child : str;
  parent : str;
  ondelete : str;
  columns : list str;
  ref_columns : list str;
}.

#[export] Instance FKEdge_eq_dec : EqDecision FKEdge.
Proof. solve_decision. Defined.

(** A row of [FK_EDGES_SQL]. *)
Record EdgeRow := mkEdgeRow {
  r_child : str; r_parent : str; r_deltype : str; r_cols : list str; r_ref_cols : list str }.

Definition _DELTYPE (d : str) : option str :=
  if bool_decide (d = "a") then Some "NO ACTION"
  else if bool_decide (d = "r") then Some "RESTRICT"
  else if bool_decide (d = "c") then Some "CASCADE"
  else if bool_decide (d = "n") then Some "SET NULL"
  else if bool_decide (d = "d") then Some "SET DEFAULT"
  else None.

Definition edges_from_rows (rows : list EdgeRow) : list FKEdge :=
  map (λ r, mkFKEdge (r_child r) (r_parent r) (default "NO ACTION" (_DELTYPE (r_deltype r)))
                     (r_cols r) (r_ref_cols r)) rows.

Definition cascades (e : FKEdge) : bool := bool_decide (ondelete e = "CASCADE").

(** [e.ondelete in ("RESTRICT", "NO ACTION")] *)
Definition refuses (e : FKEdge) : bool :=
  bool_decide (ondelete e = "RESTRICT") || bool_decide (ondelete e = "NO ACTION").

Definition by_parent (edges : list FKEdge) (p : str) : list FKEdge :=
  List.filter (λ e, cascades e && bool_decide (parent e = p)) edges.

(** One [for e in by_parent.get(parent)] loop; the top of the stack is the
    head of the list. *)
Fixpoint push_children (es : list FKEdge) (seen : gset str) (stack : list str)
    : gset str * list str :=
  match es with
  | [] => (seen, stack)
  | e :: es' =>
      if bool_decide (child e ∉ seen)
      then push_children es' ({[child e]} ∪ seen) (child e :: stack)
      else push_children es' seen stack
  end.

(** [while stack]: at most one round per seed table and per edge. *)
Fixpoint closure_loop (fuel : nat) (edges : list FKEdge) (seen : gset str) (stack : list str)
    : gset str :=
  match fuel, stack with
  | _, [] => seen
  | O, _ => seen
  | S fuel', p :: stack' =>
      let '(seen', stack'') := push_children (by_parent edges p) seen stack' in
      closure_loop fuel' edges seen' stack''
  end.

Definition cascade_closure (edges : list FKEdge) (tables : list str) : gset str :=
  let seed : gset str := list_to_set tables in
  closure_loop (length (elements seed) + length edges) edges seed (reverse (elements seed)) ∖ seed.

Definition blocking_edges (edges : list FKEdge) (tables : list str) : list FKEdge :=
  let members : gset str := list_to_set tables in
  let wiped := members ∪ cascade_closure edges tables in
  List.filter (λ e, refuses e && bool_decide (parent e ∈ wiped)
                    && bool_decide (child e ∉ members)) edges.

(** One [for e in edge_list] pass of [truncatable]. *)
Fixpoint trunc_pass (es : list FKEdge) (keep : gset str) (changed : bool) : gset str * bool :=
  match es with
  | [] => (keep, changed)
  | e :: es' =>
      if bool_decide (parent e ∈ keep) && bool_decide (child e ∉ keep)
      then trunc_pass es' (keep ∖ {[parent e]}) true
      else trunc_pass es' keep changed
  end.

(** [while changed]: a round that changes something drops a table. *)
Fixpoint trunc_loop (fuel : nat) (es : list FKEdge) (keep : gset str) : gset str :=
  match fuel with
  | O => keep
  | S fuel' =>
      let '(keep', changed) := trunc_pass es keep false in
      if changed then trunc_loop fuel' es keep' else keep'
  end.

Definition truncatable (edges : list FKEdge) (tables : list str) : gset str :=
  let keep : gset str := list_to_set tables in
  trunc_loop (S (size keep)) (List.filter (λ e, bool_decide (child e ≠ parent e)) edges) keep.

(** [list(dict.fromkeys(tables))]: duplicates go, the first one stays. *)
Fixpoint fromkeys_go (seen : list str) (l : list str) : list str :=
  match l with
  | [] => []
  | x :: l' => if bool_decide (x ∈ seen) then fromkeys_go seen l'
               else x :: fromkeys_go (x :: seen) l'
  end.

Definition fromkeys (l : list str) : list str := fromkeys_go [] l.

(** [before[t]]: the tables that must be deleted before [t]. *)
Definition before (edges : list FKEdge) (members : gset str) (t : str) : gset str :=
  list_to_set (map child (List.filter (λ e,
    refuses e && bool_decide (child e ≠ parent e) && bool_decide (child e ∈ members)
    && bool_decide (parent e ∈ members) && bool_decide (parent e = t)) edges)).

(** [remaining.remove(t)] *)
Fixpoint remove_first (t : str) (l : list str) : list str :=
  match l with
  | [] => []
  | x :: l' => if bool_decide (x = t) then l' else x :: remove_first t l'
  end.

Record OrderState := mkOrderState {
  out : list str; done_ : gset str; remaining : list str; progressed : bool }.

(** The [for t in list(remaining)] loop over a snapshot. *)
Fixpoint order_pass (bef : str → gset str) (snapshot : list str) (st : OrderState) : OrderState :=
  match snapshot with
  | [] => st
  | t :: snapshot' =>
      order_pass bef snapshot'
        (if bool_decide (bef t ⊆ done_ st)
         then mkOrderState (out st ++ [t]) ({[t]} ∪ done_ st) (remove_first t (remaining st)) true
         else st)
  end.

(** [while remaining]: a round without progress ends the loop, one with
    progress shortens [remaining]. *)
Fixpoint order_loop (fuel : nat) (bef : str → gset str) (st : OrderState) : list str :=
  match fuel, remaining st with
  | _, [] => out st
  | O, _ => out st
  | S fuel', _ =>
      let st' := order_pass bef (remaining st)
                   (mkOrderState (out st) (done_ st) (remaining st) false) in
      if progressed st' then order_loop fuel' bef st' else out st' ++ remaining st'
  end.

Definition delete_order (edges : list FKEdge) (tables : list str) : list str :=
  let ordered_in := fromkeys tables in
  let members : gset str := list_to_set ordered_in in
  order_loop (length ordered_in) (before edges members)
             (mkOrderState [] ∅ ordered_in false).

(** ** Specifications *)

(** [reaches edges S t]: an [ON DELETE CASCADE] chain leads from [S] to [t]. *)
Inductive reaches (edges : list FKEdge) (S : gset str) : str → Prop :=
| reaches_seed t : t ∈ S → reaches edges S t
| reaches_step e : e ∈ edges → ondelete e = "CASCADE" → reaches edges S (parent e) →
    reaches edges S (child e).

(** No key into the set is held outside it. *)
Definition self_contained (edges : list FKEdge) (K : gset str) : Prop :=
  ∀ e, e ∈ edges → parent e ∈ K → child e ∈ K.

(** [l] lists every table after the ones that must precede it. *)
Definition respects (bef : str → gset str) (l : list str) : Prop :=
  ∀ l1 t l2, l = l1 ++ t :: l2 → bef t ⊆ list_to_set l1.

(** ** The cascade closure *)
Lemma elem_of_by_parent edges p e :
  e ∈ by_parent edges p ↔ e ∈ edges ∧ ondelete e = "CASCADE" ∧ parent e = p.
Proof.
  unfold by_parent, cascades. rewrite list_elem_of_In, List.filter_In, <- list_elem_of_In.
  by rewrite andb_true_iff, !bool_decide_eq_true.
Qed.

(** What one inner loop adds, and that it only trades unseen tables for stack
    entries. *)
Lemma push_children_spec es seen stack seen' stack' U :
  push_children es seen stack = (seen', stack') →
  list_to_set (map child es) ⊆ U →
  seen' = seen ∪ list_to_set (map child es)
  ∧ (∀ x, x ∈ stack' ↔ x ∈ stack ∨ x ∈ seen' ∖ seen)
  ∧ (length stack' + size (U ∖ seen') = length stack + size (U ∖ seen))%nat.
Proof.
  revert seen stack. induction es as [|e es IH]; intros seen stack H HU; simpl in H.
  - injection H as <- <-. split_and!; [set_solver|set_solver|done].
  - cbn [map list_to_set] in HU. case_bool_decide as Hs.
    + apply IH in H as (H1 & H2 & H3); [|set_solver]. split_and!.
      * set_solver.
      * intros x. rewrite H2, H1. set_unfold. destruct (decide (x = child e)); subst;
          pose proof (eq_refl (child e)); tauto.
      * simpl in H3. assert (size (U ∖ seen) = S (size (U ∖ ({[child e]} ∪ seen)))) as ->; [|lia].
        replace (U ∖ seen) with ({[child e]} ∪ U ∖ ({[child e]} ∪ seen)).
        { rewrite size_union by set_solver. by rewrite size_singleton. }
        assert (child e ∈ U) as HeU by set_solver.
        apply set_eq. intros x. set_unfold. destruct (decide (x = child e)); subst;
          pose proof (eq_refl (child e)); tauto.
    + apply IH in H as (H1 & H2 & H3); [|set_solver]. split_and!; [|done..].
      set_solver.
Qed.

Lemma closure_loop_reaches fuel edges seed seen stack t :
  (∀ x, x ∈ seen → reaches edges seed x) → (∀ x, x ∈ stack → x ∈ seen) →
  t ∈ closure_loop fuel edges seen stack → reaches edges seed t.
Proof.
  revert seen stack. induction fuel as [|f IH]; intros seen [|p stack] Hseen Hst; simpl; auto.
  destruct (push_children (by_parent edges p) seen stack) as [seen' stack'] eqn:E.
  destruct (push_children_spec _ _ _ _ _ _ E (reflexivity _)) as (H1 & H2 & _).
  apply IH.
  - intros x. rewrite H1, elem_of_union, elem_of_list_to_set, list_elem_of_fmap.
    intros [?|(e & -> & He)]; [auto|]. apply elem_of_by_parent in He as (He & Hc & Hp).
    apply reaches_step; [done..|]. rewrite Hp. apply Hseen, Hst. left.
  - intros x. rewrite H2, H1. set_unfold. naive_solver.
Qed.

Lemma closure_loop_complete fuel edges seen stack U :
  (∀ e, e ∈ edges → ondelete e = "CASCADE" → child e ∈ U) →
  (length stack + size (U ∖ seen) ≤ fuel)%nat →
  (∀ e, e ∈ edges → ondelete e = "CASCADE" → parent e ∈ seen →
     parent e ∈ stack ∨ child e ∈ seen) →
  let R := closure_loop fuel edges seen stack in
  seen ⊆ R ∧ ∀ e, e ∈ edges → ondelete e = "CASCADE" → parent e ∈ R → child e ∈ R.
Proof.
  intros HU. revert seen stack. induction fuel as [|f IH]; intros seen [|p stack] Hf Hinv; simpl.
  1,3: split; [done|]; intros e H1 H2 H3; destruct (Hinv e H1 H2 H3); set_solver.
  { simpl in Hf. lia. }
  destruct (push_children (by_parent edges p) seen stack) as [seen' stack'] eqn:E.
  destruct (push_children_spec _ _ _ _ _ U E) as (H1 & H2 & H3).
  { intros x Hx. apply elem_of_list_to_set, list_elem_of_fmap in Hx as (e & -> & He).
    apply elem_of_by_parent in He as (? & ? & _). auto. }
  destruct (IH seen' stack') as [IH1 IH2].
  - simpl in Hf. lia.
  - intros e He Hc Hp. rewrite H2.
    assert (parent e = p → child e ∈ seen') as Hchild.
    { intros <-. rewrite H1. apply elem_of_union_r, elem_of_list_to_set, list_elem_of_fmap.
      exists e. split; [done|]. by apply elem_of_by_parent. }
    destruct (decide (parent e ∈ seen)) as [Hs|Hs]; [|set_solver].
    destruct (Hinv e He Hc Hs) as [[Hp'|Hp']%elem_of_cons|Hp']; [auto|auto|].
    right. rewrite H1. set_solver.
  - split; [set_solver|done].
Qed.

Lemma size_list_to_set_le (l : list str) : (size (list_to_set (C:=gset str) l) ≤ length l)%nat.
Proof.
  induction l as [|x l IH]; [done|]; simpl.
  rewrite size_union_alt, size_singleton.
  assert (size ((list_to_set l : gset str) ∖ {[x]}) ≤ size (list_to_set l : gset str))%nat
    by (apply subseteq_size; set_solver). lia.
Qed.

(** ** Truncation *)
Lemma trunc_pass_spec es keep changed keep' changed' :
  trunc_pass es keep changed = (keep', changed') →
  keep' ⊆ keep
  ∧ (∀ K, K ⊆ keep → self_contained es K → K ⊆ keep')
  ∧ (changed' = false → changed = false ∧ keep' = keep ∧ self_contained es keep)
  ∧ (changed' = true → changed = false → (size keep' < size keep)%nat).
Proof.
  assert (L : ∀ (x : str) (k : gset str), x ∈ k → (size (k ∖ {[x]}) < size k)%nat).
  { intros x k Hx. apply subset_size. set_solver. }
  revert keep changed. induction es as [|e es IH]; intros keep changed H; simpl in H.
  { injection H as <- <-. split_and!; try done.
    - intros ->. split_and!; [done..|]. intros e []%not_elem_of_nil.
    - congruence. }
  destruct (bool_decide (parent e ∈ keep) && bool_decide (child e ∉ keep)) eqn:E.
  - apply andb_true_iff in E as [Ep%bool_decide_eq_true Ec%bool_decide_eq_true].
    apply IH in H as (H1 & H2 & H3 & H4). split_and!.
    + set_solver.
    + intros K HK Hc. apply H2; [|intros e' He'; apply Hc; by right].
      assert (parent e ∈ K → child e ∈ K) by (apply Hc; left). set_solver.
    + intros Hf. by destruct (H3 Hf).
    + intros _ _. specialize (L (parent e) keep Ep). apply subseteq_size in H1. lia.
  - apply IH in H as (H1 & H2 & H3 & H4). split_and!; [done| | |done].
    + intros K HK Hc. apply H2; [done|]. intros e' He'. apply Hc. by right.
    + intros Hf. destruct (H3 Hf) as (? & ? & Hs). split_and!; [done..|].
      intros e' [->|He']%elem_of_cons Hp; [|by apply Hs].
      destruct (decide (child e ∈ keep)); [done|].
      rewrite bool_decide_true, bool_decide_true in E; done.
Qed.

Lemma trunc_loop_spec fuel es keep :
  (size keep < fuel)%nat →
  let R := trunc_loop fuel es keep in
  R ⊆ keep ∧ self_contained es R ∧ ∀ K, K ⊆ keep → self_contained es K → K ⊆ R.
Proof.
  revert keep. induction fuel as [|f IH]; intros keep Hf; [lia|]; simpl.
  destruct (trunc_pass es keep false) as [keep' changed] eqn:E.
  apply trunc_pass_spec in E as (H1 & H2 & H3 & H4). destruct changed.
  - destruct (IH keep') as (I1 & I2 & I3); [specialize (H4 eq_refl eq_refl); lia|].
    split_and!; [set_solver|done|]. intros K HK Hc. apply I3; [|done]. by apply H2.
  - destruct (H3 eq_refl) as (_ & -> & Hs). split_and!; [done..|]. auto.
Qed.

Lemma self_contained_other edges K :
  self_contained (List.filter (λ e, bool_decide (child e ≠ parent e)) edges) K
  ↔ self_contained edges K.
Proof.
  split; intros H e He Hp.
  - destruct (decide (child e = parent e)) as [->|Hn]; [done|]. apply H; [|done].
    apply list_elem_of_In, List.filter_In. rewrite <- list_elem_of_In.
    by rewrite bool_decide_eq_true.
  - apply list_elem_of_In, List.filter_In in He as [He _]. apply H; [|done].
    by apply list_elem_of_In.
Qed.

(** ** The delete order *)
Lemma fromkeys_go_spec seen l :
  NoDup (fromkeys_go seen l) ∧ ∀ x, x ∈ fromkeys_go seen l ↔ x ∈ l ∧ x ∉ seen.
Proof.
  revert seen. induction l as [|y l IH]; intros seen; simpl.
  - split; [constructor|]. set_solver.
  - case_bool_decide as Hy.
    + destruct (IH seen) as [IH1 IH2]. split; [done|]. set_solver.
    + destruct (IH (y :: seen)) as [IH1 IH2]. split.
      * constructor; [|done]. rewrite IH2. set_solver.
      * intros x. rewrite !elem_of_cons, IH2, not_elem_of_cons.
        destruct (decide (x = y)); subst; pose proof (eq_refl y); tauto.
Qed.

Lemma fromkeys_NoDup l : NoDup (fromkeys l).
Proof. apply fromkeys_go_spec. Qed.

Lemma elem_of_fromkeys l x : x ∈ fromkeys l ↔ x ∈ l.
Proof. unfold fromkeys. rewrite (proj2 (fromkeys_go_spec [] l)). set_solver. Qed.

Lemma remove_first_perm t l : t ∈ l → l ≡ₚ t :: remove_first t l.
Proof.
  induction l as [|x l IH]; [set_solver|]. simpl. intros H. case_bool_decide as E; [by subst|].
  apply elem_of_cons in H as [->|H]; [done|]. rewrite (IH H) at 1. constructor.
Qed.

Lemma remove_first_sublist t l : remove_first t l `sublist_of` l.
Proof. induction l as [|x l IH]; simpl; [done|]. case_bool_decide; by constructor. Qed.

(** The invariant of the ordering loops. *)
Record order_inv (bef : str → gset str) (l : list str) (st : OrderState) : Prop := {
  inv_perm : out st ++ remaining st ≡ₚ l;
  inv_done : done_ st = list_to_set (out st);
  inv_order : respects bef (out st);
  inv_sub : remaining st `sublist_of` l;
}.

Lemma respects_snoc bef l t : respects bef l → bef t ⊆ list_to_set l → respects bef (l ++ [t]).
Proof.
  intros H Ht l1 x l2 E. destruct (decide (l2 = [])) as [->|Hn].
  - apply app_inj_tail in E as [-> ->]. done.
  - destruct (exists_last Hn) as (l2' & y & ->).
    rewrite app_comm_cons, (assoc (++)) in E. apply app_inj_tail in E as [-> ->]. by eapply H.
Qed.

Lemma order_inv_place bef l st t :
  order_inv bef l st → t ∈ remaining st → bef t ⊆ done_ st →
  order_inv bef l
    (mkOrderState (out st ++ [t]) ({[t]} ∪ done_ st) (remove_first t (remaining st)) true).
Proof.
  intros [I1 I2 I3 I4] Ht Hb. split; simpl.
  - rewrite <- I1, <- (assoc (++)). apply Permutation_app_head. simpl.
    symmetry. by apply remove_first_perm.
  - rewrite I2, list_to_set_app_L. set_solver.
  - apply respects_snoc; [done|]. by rewrite <- I2.
  - by rewrite remove_first_sublist.
Qed.

Lemma order_pass_inv bef l snap st :
  order_inv bef l st → NoDup snap → (∀ t, t ∈ snap → t ∈ remaining st) →
  let st' := order_pass bef snap st in
  order_inv bef l st'
  ∧ (progressed st' = false →
      st' = st ∧ ∀ t, t ∈ snap → ¬ bef t ⊆ done_ st)
  ∧ (progressed st = false → progressed st' = true →
      length (remaining st') < length (remaining st))
  ∧ length (remaining st') ≤ length (remaining st).
Proof.
  revert st. induction snap as [|t snap IH]; intros st Hinv Hnd Hsub; simpl.
  { split_and!; [done| |congruence|done]. intros _. split; [done|]. set_solver. }
  apply NoDup_cons in Hnd as [Hnt Hnd]. case_bool_decide as Hb.
  - pose proof (remove_first_perm t (remaining st)) as Hp.
    specialize (Hp ltac:(apply Hsub; left)).
    edestruct IH as (H1 & H2 & _ & H4); [eapply order_inv_place; [exact Hinv| |exact Hb]|done| |].
    + apply Hsub. left.
    + intros x Hx. simpl. assert (x ∈ remaining st) as Hr by (apply Hsub; by right).
      rewrite Hp in Hr. apply elem_of_cons in Hr as [->|?]; done.
    + simpl in H2, H4. apply Permutation_length in Hp. simpl in Hp. split_and!; [done| | |lia].
      * intros Hf. destruct (H2 Hf) as [E _]. by rewrite E in Hf.
      * intros _ _. lia.
  - edestruct (IH st) as (H1 & H2 & H3 & H4); [done..| |].
    + intros x Hx. apply Hsub. by right.
    + split_and!; [done| |done|done]. intros Hf. destruct (H2 Hf) as [E Hn].
      split; [done|]. intros x [->|Hx]%elem_of_cons; auto.
Qed.

(** The loop returns a permutation of the tables: first those it could place,
    in an order that respects [bef], then, in input order, a rest in which
    every table waits for another one of the rest. *)
Lemma order_loop_spec fuel bef l st :
  NoDup l → (∀ t, bef t ⊆ list_to_set l) → order_inv bef l st →
  (length (remaining st) ≤ fuel) →
  ∃ pre rest, order_loop fuel bef st = pre ++ rest ∧ pre ++ rest ≡ₚ l ∧ respects bef pre
    ∧ rest `sublist_of` l ∧ ∀ t, t ∈ rest → ∃ u, u ∈ bef t ∧ u ∈ rest.
Proof.
  intros Hnd Hbef. revert st. induction fuel as [|f IH]; intros st Hinv Hf.
  { destruct (remaining st) eqn:E; [|simpl in Hf; lia]. exists (out st), [].
    simpl. rewrite E, app_nil_r. destruct Hinv as [I1 I2 I3 I4]. rewrite E, app_nil_r in I1.
    split_and!; [done..|apply sublist_nil_l|]. set_solver. }
  simpl. destruct (remaining st) as [|t0 r0] eqn:E.
  { exists (out st), []. rewrite app_nil_r. destruct Hinv as [I1 I2 I3 I4].
    rewrite E, app_nil_r in I1. split_and!; [done..|apply sublist_nil_l|]. set_solver. }
  rewrite <- E in *. set (st0 := mkOrderState (out st) (done_ st) (remaining st) false).
  assert (order_inv bef l st0) as Hinv0 by (by destruct Hinv).
  assert (NoDup (remaining st)) as Hndr.
  { destruct Hinv as [I1 _ _ _]. rewrite <- I1 in Hnd. by apply NoDup_app in Hnd as (_ & _ & ?). }
  destruct (order_pass_inv bef l (remaining st) st0 Hinv0 Hndr) as (H1 & H2 & H3 & _); [done|].
  destruct (progressed (order_pass bef (remaining st) st0)) eqn:Ep.
  - apply IH; [done|]. specialize (H3 eq_refl eq_refl). simpl in H3. lia.
  - destruct (H2 eq_refl) as [-> Hstuck]. simpl. exists (out st), (remaining st).
    destruct Hinv as [I1 I2 I3 I4]. split_and!; [done..|].
    intros t Ht. specialize (Hstuck t Ht). simpl in Hstuck. rewrite I2 in Hstuck.
    destruct (set_choose_or_empty (bef t ∖ list_to_set (out st))) as [[u Hu]|He].
    2:{ destruct Hstuck. clear -He. set_solver. }
    exists u. apply elem_of_difference in Hu as [Hu Hn]. split; [done|].
    assert (u ∈ l) as Hl by (apply (elem_of_list_to_set (C:=gset str)); by apply (Hbef t)).
    rewrite <- I1 in Hl. apply elem_of_app in Hl as [Hl|Hl]; [|done].
    destruct Hn. by apply elem_of_list_to_set.
Qed.

Lemma elem_of_before edges members t u :
  u ∈ before edges members t
  ↔ ∃ e, e ∈ edges ∧ refuses e = true ∧ child e ≠ parent e ∧ child e ∈ members
      ∧ parent e ∈ members ∧ parent e = t ∧ child e = u.
Proof.
  unfold before. rewrite elem_of_list_to_set, list_elem_of_fmap.
  setoid_rewrite list_elem_of_In. setoid_rewrite List.filter_In.
  setoid_rewrite andb_true_iff. setoid_rewrite andb_true_iff.
  setoid_rewrite andb_true_iff. setoid_rewrite andb_true_iff.
  setoid_rewrite bool_decide_eq_true. setoid_rewrite <- list_elem_of_In.
  split; intros (e & H); exists e; intuition (subst; auto).
Qed.

(** The refusing keys among the tables follow a rank: there is no cycle. *)
Definition acyclic (edges : list FKEdge) (tables : list str) (rank : str → nat) : Prop :=
  ∀ e, e ∈ edges → refuses e = true → child e ≠ parent e → child e ∈ tables →
    parent e ∈ tables → rank (child e) < rank (parent e).

(** [a] is listed before [b]. *)
Definition precedes (l : list str) (a b : str) : Prop := ∃ l1 l2, l = l1 ++ b :: l2 ∧ a ∈ l1.

Lemma delete_order_split edges tables :
  ∃ pre rest, delete_order edges tables = pre ++ rest
    ∧ pre ++ rest ≡ₚ fromkeys tables
    ∧ (∀ e, e ∈ edges → refuses e = true → child e ≠ parent e → child e ∈ tables →
        parent e ∈ pre → precedes pre (child e) (parent e))
    ∧ rest `sublist_of` fromkeys tables
    ∧ ∀ t, t ∈ rest → ∃ e, e ∈ edges ∧ refuses e = true ∧ child e ≠ parent e
        ∧ parent e = t ∧ child e ∈ rest.
Proof.
  unfold delete_order. set (members := list_to_set (fromkeys tables) : gset str).
  destruct (order_loop_spec (length (fromkeys tables)) (before edges members) (fromkeys tables)
    (mkOrderState [] ∅ (fromkeys tables) false)) as (pre & rest & E & Hp & Hr & Hs & Hw).
  - apply fromkeys_NoDup.
  - intros t u (e & _ & _ & _ & Hc & _ & _ & <-)%elem_of_before. done.
  - split; simpl; [done|done| |done]. intros [|? ?] ? ? Hl; discriminate Hl.
  - done.
  - exists pre, rest. split_and!; [done|done| |done|].
    + intros e He Href Hn Hc Hpre. apply list_elem_of_split in Hpre as (l1 & l2 & El).
      exists l1, l2. split; [done|]. apply (elem_of_list_to_set (C:=gset str)).
      apply (Hr _ _ _ El), elem_of_before. exists e.
      unfold members. rewrite !elem_of_list_to_set, !elem_of_fromkeys.
      split_and!; try done. rewrite <- elem_of_fromkeys, <- Hp, El. set_solver.
    + intros t Ht. destruct (Hw t Ht) as (u & Hu & Hur).
      apply elem_of_before in Hu as (e & He & Href & Hn & _ & _ & <- & <-). eauto 10.
Qed.

Lemma delete_order_acyclic edges tables rank e :
  acyclic edges tables rank → e ∈ edges → refuses e = true → child e ≠ parent e →
  child e ∈ tables → parent e ∈ tables →
  precedes (delete_order edges tables) (child e) (parent e).
Proof.
  intros Hac He Href Hn Hc Hpar.
  destruct (delete_order_split edges tables) as (pre & rest & -> & Hp & Hr & Hs & Hw).
  assert (Hin : ∀ t, t ∈ rest → t ∈ tables).
  { intros t Ht. apply elem_of_fromkeys. by eapply elem_of_sublist. }
  assert (∀ n t, rank t < n → t ∉ rest) as Hempty.
  { induction n as [|n IH]; intros t Hlt Ht; [lia|].
    destruct (Hw t Ht) as (e' & He' & Href' & Hn' & <- & Hc').
    specialize (Hac e' He' Href' Hn' (Hin _ Hc') (Hin _ Ht)). apply (IH (child e')); [lia|done]. }
  destruct rest as [|t rest]; [|destruct (Hempty (S (rank t)) t); [lia|left]].
  rewrite app_nil_r in *. apply Hr; [done..|]. rewrite Hp. by apply elem_of_fromkeys.
Qed.

(** ** Claims *)

(** The cascade preview is exact: the closure holds precisely the tables
    outside the wipe that some chain of [ON DELETE CASCADE] keys reaches from
    it, whatever the shape of the key graph. *)
Theorem cascade_closure_exact (edges : list FKEdge) (tables : list str) (t : str) :
  t ∈ cascade_closure edges tables
  ↔ (t ∉ (list_to_set tables : gset str)) ∧ reaches edges (list_to_set tables) t.
Proof.
  unfold cascade_closure. set (seed := list_to_set tables : gset str).
  rewrite elem_of_difference. split.
  - intros [H Hn]. split; [done|]. eapply closure_loop_reaches; [|..|exact H].
    + intros x. apply reaches_seed.
    + intros x. by rewrite elem_of_reverse, elem_of_elements.
  - intros [Hn Hr]. split; [|done].
    destruct (closure_loop_complete (length (elements seed) + length edges) edges seed
      (reverse (elements seed)) (list_to_set (map child edges))) as [H1 H2].
    + intros e He _. apply elem_of_list_to_set, list_elem_of_fmap. eauto.
    + rewrite length_reverse. pose proof (size_list_to_set_le (map child edges)) as Hs.
      rewrite List.length_map in Hs.
      assert (size ((list_to_set (map child edges) : gset str) ∖ seed)
        ≤ size (list_to_set (map child edges) : gset str))%nat by (apply subseteq_size; set_solver).
      lia.
    + intros e _ _ Hp. left. by rewrite elem_of_reverse, elem_of_elements.
    + clear Hn. induction Hr as [t Ht|e He Hc Hp IH]; [auto|]. by apply H2.
Qed.

(** C36 -- [truncatable] is the greatest subset of the wipe that no key from
    outside the subset points into: truncating it cannot be refused, and no
    larger choice would do. *)
Theorem truncatable_greatest (edges : list FKEdge) (tables : list str) :
  let K := truncatable edges tables in
  K ⊆ list_to_set tables ∧ self_contained edges K
  ∧ ∀ K', K' ⊆ list_to_set tables → self_contained edges K' → K' ⊆ K.
Proof.
  unfold truncatable. set (keep := list_to_set tables : gset str).
  destruct (trunc_loop_spec (S (size keep))
    (List.filter (λ e, bool_decide (child e ≠ parent e)) edges) keep) as (H1 & H2 & H3); [lia|].
  rewrite self_contained_other in H2. split_and!; [done..|].
  intros K' HK Hc. apply H3; [done|]. by apply self_contained_other.
Qed.

(** The delete order lists every table of the wipe once: first tables
    placed after everything that holds a refusing key into them, then, in input
    order, a rest in which every table is referenced by another of the rest (so
    there is a rest only when the keys form a cycle). *)
Theorem delete_order_spec (edges : list FKEdge) (tables : list str) :
  NoDup (delete_order edges tables)
  ∧ (∀ t, t ∈ delete_order edges tables ↔ t ∈ tables)
  ∧ ∃ pre rest, delete_order edges tables = pre ++ rest
    ∧ (∀ e, e ∈ edges → refuses e = true → child e ≠ parent e → child e ∈ tables →
        parent e ∈ pre → precedes pre (child e) (parent e))
    ∧ rest `sublist_of` fromkeys tables
    ∧ ∀ t, t ∈ rest → ∃ e, e ∈ edges ∧ refuses e = true ∧ child e ≠ parent e
        ∧ parent e = t ∧ child e ∈ rest.
Proof.
  destruct (delete_order_split edges tables) as (pre & rest & E & Hp & Hr & Hs & Hw).
  rewrite E. split_and!.
  - rewrite Hp. apply fromkeys_NoDup.
  - intros t. rewrite Hp. apply elem_of_fromkeys.
  - by exists pre, rest.
Qed.

(** C37 -- when no key blocks the wipe and the refusing keys among its tables
    have no cycle, every refusing key into a table of the wipe is held by a
    table of the wipe that is deleted earlier (or by the table itself). *)
Theorem delete_order_unrefused (edges : list FKEdge) (tables : list str) (rank : str → nat)
    (e : FKEdge) :
  blocking_edges edges tables = [] → acyclic edges tables rank →
  e ∈ edges → refuses e = true → parent e ∈ tables → child e ≠ parent e →
  precedes (delete_order edges tables) (child e) (parent e).
Proof.
  intros Hb Hac He Href Hp Hn. eapply delete_order_acyclic; [done..| |done].
  destruct (decide (child e ∈ tables)) as [|Hc]; [done|].
  assert (e ∈ blocking_edges edges tables) as Hin; [|rewrite Hb in Hin; by apply not_elem_of_nil in Hin].
  unfold blocking_edges. apply list_elem_of_In, List.filter_In. rewrite <- list_elem_of_In.
  split; [done|]. rewrite Href, !bool_decide_true; [done| |].
  - by rewrite elem_of_list_to_set.
  - apply elem_of_union_l. by apply elem_of_list_to_set.
Qed.

Definition zone_edges : list FKEdge :=
  [mkFKEdge "record" "zone" "CASCADE" ["zone_id"] ["id"];
   mkFKEdge "zone" "view" "RESTRICT" ["view_id"] ["id"];
   mkFKEdge "view" "group" "NO ACTION" ["group_id"] ["id"]].

Lemma delete_order_unrefused_witness :
  precedes (delete_order zone_edges ["group"; "view"; "zone"]) "zone" "view".
Proof.
  refine (delete_order_unrefused zone_edges ["group"; "view"; "zone"]
    (λ t, if bool_decide (t = "zone") then 0 else if bool_decide (t = "view") then 1 else 2)
    (mkFKEdge "zone" "view" "RESTRICT" ["view_id"] ["id"]) _ _ _ _ _ _).
  - vm_compute. reflexivity.
  - intros e. unfold zone_edges. rewrite !elem_of_cons.
    intros [->|[->|[->|[]%not_elem_of_nil]]] H; try discriminate H; vm_compute; intros; lia.
  - apply (bool_decide_unpack _). vm_compute. exact I.
  - reflexivity.
  - apply (bool_decide_unpack _). vm_compute. exact I.
  - discriminate.
Defined.

(** The order does not look through cascades: a table of the wipe may
    hold a refusing key into a table that an earlier delete of the wipe removes
    by cascade, with nothing reported as blocking. *)
Theorem delete_order_misses_cascade :
  let edges := [mkFKEdge "record" "zone" "CASCADE" ["zone_id"] ["id"];
                mkFKEdge "lock" "record" "RESTRICT" ["record_id"] ["id"]] in
  let tables : list str := ["zone"; "lock"] in
  blocking_edges edges tables = [] ∧ delete_order edges tables = tables
  ∧ ("record" : str) ∈ cascade_closure edges ["zone" : str].
Proof.
  split_and!; [vm_compute; reflexivity..|]. apply (bool_decide_unpack _). vm_compute. exact I.
Qed.
End FkGraph.
