(* ===== verification/UpgradeLease.v ===== *)
(** * The single-upgrader lease

    [backend/app/services/upgrades/mutex.py] and the Lease wrappers it calls in
    [backend/app/services/appliance/k8s.py].  An operation is a [prog]: a tree
    of clock readings and API requests, so that several drivers can be
    interleaved request by request.  The API server itself is the interface
    [KubeApi]: a state, a relation that answers a request (or leaves it
    unanswered, applied or not), and the documented laws of [resourceVersion].
    Instants are microseconds; a [renewTime] that does not parse is [Garbage];
    an error text is a value of [LeaseError].  The retry budget of [_read] is
    the default 0, the one every operation of this file uses. *)
From S2P Require Import Prelude PyStr.
#[local] Open Scope Z_scope.

Module UpgradeLease.

(** ** Data *)
Inductive stamp := At (micros : Z) | Garbage.

(** The Lease as JSON: [None] for a missing key. *)
Record Lease := mkLease {
  holderIdentity : option str;
  leaseDurationSeconds : option Z;
  acquireTime : option stamp;
  renewTime : option stamp;
  leaseTransitions : option Z;
  resourceVersion : option str;
}.

Record LeasePatch := mkPatch {
  p_holder : str;
  p_duration : option Z;
  p_renew : Z;
  p_acquire : option Z;
  p_transitions : option Z;
}.

Inductive Request :=
| Get
| Create (holder : str) (duration : Z) (now : Z)
| Patch (p : LeasePatch) (rv : option str).

Inductive Response :=
| Unavailable
| Status (code : Z) (body : option Lease).

Inductive LeaseError :=
| NotMounted
| Unanswered
| StatusError (code : Z)
| Conflict
| HeldBy (h : option str)
| LostTo (h : option str).

#[export] Instance LeaseError_eq_dec : EqDecision LeaseError.
Proof. solve_decision. Defined.

(** ** Programs: the effects of an operation, in the order it has them *)
Inductive prog (A : Type) : Type :=
| Ret (a : A)
| LeaseUnknown
| Clock (k : Z → prog A)
| Call (q : Request) (k : Response → prog A).
Arguments Ret {A} a.
Arguments LeaseUnknown {A}.
Arguments Clock {A} k.
Arguments Call {A} q k.

Fixpoint prog_bind {A B} (f : A → prog B) (p : prog A) : prog B :=
  match p with
  | Ret a => f a
  | LeaseUnknown => LeaseUnknown
  | Clock k => Clock (λ now, prog_bind f (k now))
  | Call q k => Call q (λ r, prog_bind f (k r))
  end.

#[export] Instance prog_mret : MRet prog := @Ret.
#[export] Instance prog_mbind : MBind prog := @prog_bind.

Definition clock : prog Z := Clock Ret.
Definition request (q : Request) : prog Response := Call q Ret.

(** ** The Lease wrappers of [k8s.py] *)
Section mutex.
(** [get_config() is not None], and the pod's [_identity()]. *)
Variables (configured : bool) (_identity : str).

(** The body is only kept for a 200. *)
Definition get_lease : prog Response :=
  if negb configured then Ret Unavailable
  else r ← request Get;
       Ret (match r with
            | Status code body => if code =? 200 then Status code body else Status code None
            | Unavailable => Unavailable
            end).

Definition create_lease (holder : str) (duration : Z) : prog (bool * option LeaseError) :=
  if negb configured then Ret (false, Some NotMounted)
  else now ← clock;
       r ← request (Create holder duration now);
       Ret (match r with
            | Unavailable => (false, Some Unanswered)
            | Status code _ =>
                if (code =? 200) || (code =? 201) then (true, None)
                else (false, Some (StatusError code))
            end).

Definition update_lease (holder : str) (duration : Z) (bump_transitions : bool)
    (expected_transitions : option Z) (resource_version : option str)
    : prog (bool * option LeaseError) :=
  if negb configured then Ret (false, Some NotMounted)
  else now ← clock;
       r ← request (Patch
             {| p_holder := holder; p_duration := Some duration; p_renew := now;
                p_acquire := if bump_transitions then Some now else None;
                p_transitions :=
                  if bump_transitions then Z.succ <$> expected_transitions else None |}
             resource_version);
       Ret (match r with
            | Unavailable => (false, Some Unanswered)
            | Status code _ =>
                if code =? 200 then (true, None)
                else if code =? 409 then (false, Some Conflict)
                else (false, Some (StatusError code))
            end).

Definition CLEAR_AGE : Z := 7200 * 1000000.

(** Unlike [update_lease], a 409 is reported like any other status. *)
Definition clear_lease_holder (resource_version : option str) : prog (bool * option LeaseError) :=
  if negb configured then Ret (false, Some NotMounted)
  else now ← clock;
       r ← request (Patch
             {| p_holder := []; p_duration := None; p_renew := now - CLEAR_AGE;
                p_acquire := None; p_transitions := None |}
             resource_version);
       Ret (match r with
            | Unavailable => (false, Some Unanswered)
            | Status code _ =>
                if code =? 200 then (true, None) else (false, Some (StatusError code))
            end).

(** ** The mutex *)
Definition LEASE_DURATION_S : Z := 60.

Record LeaseState := mkState {
  held : bool;
  holder : option str;
  renew_time : option stamp;
  transitions : Z;
  expired : bool;
}.

Definition _NO_LEASE : LeaseState := mkState false None None 0 false.

(** [int(x or d)] *)
Definition int_or (x : option Z) (d : Z) : Z :=
  match x with Some z => if z =? 0 then d else z | None => d end.

Definition truthy (s : option str) : bool :=
  match s with Some (_ :: _) => true | _ => false end.

Definition micros (seconds : Z) : Z := seconds * 1000000.

Definition lease_duration (l : Lease) : Z := int_or (leaseDurationSeconds l) LEASE_DURATION_S.

Definition _parse_lease (body : option Lease) : prog LeaseState :=
  match body with
  | None => Ret _NO_LEASE
  | Some spec =>
      expired ← match renewTime spec with
                | None => Ret false
                | Some Garbage => Ret true
                | Some (At renewed) =>
                    now ← clock;
                    Ret (micros (lease_duration spec) <? now - renewed)
                end;
      Ret (mkState (truthy (holderIdentity spec) && negb expired) (holderIdentity spec)
                   (renewTime spec) (int_or (leaseTransitions spec) 0) expired)
  end.

Definition UNREACHABLE_HOLDER : str := "<unreachable>".

(** [str(version) if version else None] *)
Definition version_of (body : Lease) : option str :=
  if truthy (resourceVersion body) then resourceVersion body else None.

Definition conservatively_held (h : str) : LeaseState := mkState true (Some h) None 0 false.

Definition _read : prog (LeaseState * option str) :=
  r ← get_lease;
  match r with
  | Unavailable =>
      if configured then Ret (conservatively_held UNREACHABLE_HOLDER, None)
      else Ret (_NO_LEASE, None)
  | Status code body =>
      if code =? 404 then Ret (_NO_LEASE, None)
      else
        let hint := if code =? 403 then "<rbac-missing>"
                    else if code =? 401 then "<forbidden>" else UNREACHABLE_HOLDER in
        if negb (code =? 200) then Ret (conservatively_held hint, None)
        else match body with
             | None => Ret (conservatively_held hint, None)
             | Some b => state ← _parse_lease (Some b); Ret (state, version_of b)
             end
  end.

Definition get_state : prog LeaseState := r ← _read; Ret (r.1).

(** [holder or _identity()] *)
Definition who (h : option str) : str :=
  match h with Some (c :: s) => c :: s | _ => _identity end.

Definition read_state_strict : prog LeaseState :=
  r ← get_lease;
  match r with
  | Unavailable => LeaseUnknown
  | Status code body =>
      if code =? 404 then Ret _NO_LEASE
      else if negb (code =? 200) then LeaseUnknown
      else match body with None => LeaseUnknown | Some b => _parse_lease (Some b) end
  end.

(** [(err or _).startswith(conflict)]: of the error texts only the 409 of
    [update_lease] starts so. *)
Definition is_conflict (err : option LeaseError) : bool :=
  match err with Some Conflict => true | _ => false end.

Definition renew (h : option str) (duration : Z) : prog (bool * option LeaseError) :=
  let me := who h in
  if negb configured then Ret (false, Some (LostTo None))
  else
    r ← get_lease;
    match r with
    | Unavailable => LeaseUnknown
    | Status code body =>
        if code =? 404 then Ret (false, Some (LostTo None))
        else if negb (code =? 200) then LeaseUnknown
        else match body with
             | None => LeaseUnknown
             | Some b =>
                 state ← _parse_lease (Some b);
                 if negb (bool_decide (holder state = Some me))
                 then Ret (false, Some (LostTo (holder state)))
                 else
                   w ← update_lease me duration false None (version_of b);
                   if negb (fst w) && negb (is_conflict (snd w)) then LeaseUnknown else Ret w
             end
    end.

Definition acquire (h : option str) (duration : Z) : prog (bool * option LeaseError) :=
  let me := who h in
  sv ← _read;
  let '(state, version) := (sv : LeaseState * option str) in
  if negb (held state) && bool_decide (holder state = None) then
    w ← create_lease me duration;
    if (fst w : bool) then Ret (true, None)
    else
      state' ← get_state;
      if held state' && negb (bool_decide (holder state' = Some me))
      then Ret (false, Some (HeldBy (holder state')))
      else Ret (false, snd w)
  else if held state && bool_decide (holder state = Some me) then renew (Some me) duration
  else if held state then Ret (false, Some (HeldBy (holder state)))
  else
    w ← update_lease me duration true (Some (transitions state)) version;
    if (fst w : bool) then Ret (true, None) else Ret (false, snd w).

(** The [for attempt in range(max(1, attempts))] loop; the sleep between two
    attempts has no effect on the Lease. *)
Fixpoint release_attempts (attempts : nat) (me : str) : prog bool :=
  match attempts with
  | O => Ret false
  | S attempts' =>
      r ← get_lease;
      match r with
      | Unavailable => release_attempts attempts' me
      | Status code body =>
          if code =? 404 then Ret false
          else if negb (code =? 200) then release_attempts attempts' me
          else match body with
               | None => release_attempts attempts' me
               | Some b =>
                   state ← _parse_lease (Some b);
                   if negb (held state) || negb (bool_decide (holder state = Some me))
                   then Ret false
                   else
                     w ← clear_lease_holder (version_of b);
                     if (fst w : bool) then Ret true else release_attempts attempts' me
               end
      end
  end.

Definition release_if_held (h : option str) (attempts : nat) : prog bool :=
  if negb configured then Ret false else release_attempts (Nat.max 1 attempts) (who h).

Inductive force_kind := Released | NoLease | NotHeld | Alive | Unreadable | WriteFailed.

Record ForceReleaseOutcome := mkOutcome {
  outcome : force_kind;
  state_ : option LeaseState;
  idle_ : option Z;
  error_ : option LeaseError;
}.

(** [min_idle] and the idle time are in microseconds. *)
Definition force_release_idle (min_idle : Z) : prog ForceReleaseOutcome :=
  if negb configured then Ret (mkOutcome NoLease None None None)
  else
    r ← get_lease;
    match r with
    | Unavailable => Ret (mkOutcome Unreadable None None (Some Unanswered))
    | Status code body =>
        if code =? 404 then Ret (mkOutcome NotHeld None None None)
        else if negb (code =? 200) then Ret (mkOutcome Unreadable None None (Some (StatusError code)))
        else match body with
             | None => Ret (mkOutcome Unreadable None None (Some (StatusError code)))
             | Some b =>
                 state ← _parse_lease (Some b);
                 if negb (truthy (holder state)) then Ret (mkOutcome NotHeld (Some state) None None)
                 else
                   idle ← match renew_time state with
                          | Some (At renewed) => now ← clock; Ret (Some (now - renewed))
                          | _ => Ret None
                          end;
                   if match (idle : option Z) with Some i => i <? min_idle | None => false end
                   then Ret (mkOutcome Alive (Some state) idle None)
                   else
                     w ← clear_lease_holder (version_of b);
                     if negb (fst w) then Ret (mkOutcome WriteFailed (Some state) idle (snd w))
                     else Ret (mkOutcome Released (Some state) idle None)
             end
    end.

Definition release (h : option str) : prog (bool * option LeaseError) :=
  if negb configured then Ret (true, None)
  else match h with
       | None => clear_lease_holder None
       | Some me =>
           sv ← _read;
           let '(state, version) := (sv : LeaseState * option str) in
           if negb (bool_decide (holder state = Some me)) then Ret (true, None)
           else clear_lease_holder version
       end.
End mutex.

(** ** The API server *)

(** What an accepted write stores: a POST, and a strategic merge patch. *)
Definition created (h : str) (duration now : Z) (version : str) : Lease :=
  mkLease (Some h) (Some duration) (Some (At now)) (Some (At now)) (Some 1) (Some version).

Definition patched (p : LeasePatch) (version : str) (l : Lease) : Lease :=
  mkLease (Some (p_holder p))
    (match p_duration p with Some d => Some d | None => leaseDurationSeconds l end)
    (match p_acquire p with Some t => Some (At t) | None => acquireTime l end)
    (Some (At (p_renew p)))
    (match p_transitions p with Some n => Some n | None => leaseTransitions l end)
    (Some version).

Definition accepted (r : Response) : bool :=
  match r with Status code _ => (code =? 200) || (code =? 201) | Unavailable => false end.

(** The contract of the API server: reads are of the stored object; a POST is
    only stored when there is none; a PATCH with a version is only stored when
    that is the version of the stored object; every write that changes the
    object gives it a version never used before; a refused write is not stored
    (but an unanswered one may be). *)
Class KubeApi (server : Type) := {
  lease_of : server → option Lease;
  used : server → str → Prop;
  serve : server → Request → Response → server → Prop;
  api_version s l : lease_of s = Some l →
    ∃ v, resourceVersion l = Some v ∧ v ≠ [] ∧ used s v;
  api_used s q r s' v : serve s q r s' → used s v → used s' v;
  api_get s r s' : serve s Get r s' →
    lease_of s' = lease_of s
    ∧ (∀ b, r = Status 200 (Some b) → lease_of s = Some b)
    ∧ (∀ b, r = Status 404 b → lease_of s = None);
  api_create s h d now r s' : serve s (Create h d now) r s' →
    (lease_of s' = lease_of s ∧ accepted r = false)
    ∨ (lease_of s = None ∧ ∃ v, ¬ used s v ∧ lease_of s' = Some (created h d now v));
  api_patch s p rv r s' : serve s (Patch p rv) r s' →
    (lease_of s' = lease_of s ∧ accepted r = false)
    ∨ (∃ l, lease_of s = Some l ∧ (rv = None ∨ rv = resourceVersion l)
       ∧ (∀ b, r ≠ Status 409 b)
       ∧ ((lease_of s' = lease_of s ∧ ∃ v, resourceVersion l = Some v ∧ patched p v l = l)
          ∨ ∃ v, ¬ used s v ∧ lease_of s' = Some (patched p v l)));
}.

(** ** Interleaving *)

(** Who runs a program: a driver under its own identity, or an operator. *)
Inductive role := Driver (me : str) | Operator.

#[export] Instance role_eq_dec : EqDecision role.
Proof. solve_decision. Defined.

Section system.
Context {server : Type} {api : KubeApi server}.
(** Every pod's clock is within [skew] microseconds of the true time. *)
Variable skew : Z.

Record Sys := mkSys { srv : server; time : Z; threads : list (role * { A : Type & prog A }) }.

Definition thread {A} (r : role) (p : prog A) : role * { A : Type & prog A } := (r, existT A p).

(** One step, labelled with the thread that takes it: time passes, a thread
    reads its clock, or one of its requests reaches the server. *)
Inductive step : option nat → Sys → Sys → Prop :=
| step_time s t : time s <= t → step None s (mkSys (srv s) t (threads s))
| step_clock s i r A k now :
    threads s !! i = Some (thread (A:=A) r (Clock k)) →
    time s - skew <= now <= time s + skew →
    step (Some i) s (mkSys (srv s) (time s) (<[i := thread r (k now)]> (threads s)))
| step_call s i r A q k resp srv' :
    threads s !! i = Some (thread (A:=A) r (Call q k)) →
    serve (srv s) q resp srv' →
    step (Some i) s (mkSys srv' (time s) (<[i := thread r (k resp)]> (threads s))).

Inductive reachable (s0 : Sys) : Sys → Prop :=
| reach_init : reachable s0 s0
| reach_step s l s' : reachable s0 s → step l s s' → reachable s0 s'.
End system.

(** The programs of a driver named [me], and of an operator: any sequence of
    the operations of the mutex, on any pod. *)
Definition LABELS : list str := [UNREACHABLE_HOLDER; "<rbac-missing>"; "<forbidden>"].

Inductive drives : role → ∀ A, prog A → Prop :=
| drv_ret r A (a : A) : drives r A (Ret a)
| drv_unknown r A : drives r A LeaseUnknown
| drv_bind r A B (p : prog A) (f : A → prog B) :
    drives r A p → (∀ a, drives r B (f a)) → drives r B (p ≫= f)
| drv_acquire me c id h d : who id h = me → drives (Driver me) _ (acquire c id h d)
| drv_renew me c id h d : who id h = me → drives (Driver me) _ (renew c id h d)
| drv_release me c : me ∉ LABELS → drives (Driver me) _ (release c (Some me))
| drv_release_if_held me c id h n : who id h = me → drives (Driver me) _ (release_if_held c id h n)
| drv_get_state r c : drives r _ (get_state c)
| drv_read_strict r c : drives r _ (read_state_strict c)
| drv_abort c : drives Operator _ (release c None)
| drv_force c idle : drives Operator _ (force_release_idle c idle).

(** Nobody holds [l] at [horizon] any more. *)
Definition lapsed_by (horizon : Z) (l : Lease) : Prop :=
  truthy (holderIdentity l) = false ∨ renewTime l = Some Garbage
  ∨ ∃ t, renewTime l = Some (At t) ∧ t + micros (lease_duration l) < horizon.

(** ** What a program may do *)

(** What a program has learnt so far. *)
Inductive fact := Saw (l : Lease) | Clocked (now : Z).

Definition learn (q : Request) (r : Response) : list fact :=
  match q, r with
  | Get, Status code (Some l) => if code =? 200 then [Saw l] else []
  | _, _ => []
  end.

Definition free (K : list fact) (l : Lease) : Prop :=
  truthy (holderIdentity l) = false ∨ renewTime l = Some Garbage
  ∨ ∃ t now, renewTime l = Some (At t) ∧ Clocked now ∈ K ∧ micros (lease_duration l) < now - t.

(** A driver creates the lease in its own name, or writes over a lease it has
    read, at the version it read: its own name when that was its own or free,
    nobody's name when it was its own. *)
Definition allowed (r : role) (K : list fact) (q : Request) : Prop :=
  match r, q with
  | _, Get => True
  | Driver me, Create h _ _ => h = me
  | Driver me, Patch p rv =>
      ∃ l, Saw l ∈ K ∧ rv = resourceVersion l
        ∧ (holderIdentity l = Some me ∧ (p_holder p = me ∨ p_holder p = [])
           ∨ p_holder p = me ∧ free K l)
  | Operator, Create _ _ _ => False
  | Operator, Patch p _ => p_holder p = []
  end.

(** The server only shows leases that have a version. *)
Definition shown (q : Request) (r : Response) : Prop :=
  ∀ l, q = Get → r = Status 200 (Some l) → truthy (resourceVersion l) = true.

(** Every request of [p] is allowed, and its result satisfies [Q]. *)
Fixpoint wp {A} (r : role) (K : list fact) (p : prog A) (Q : A → list fact → Prop) : Prop :=
  match p with
  | Ret a => Q a K
  | LeaseUnknown => True
  | Clock k => ∀ now, wp r (Clocked now :: K) (k now) Q
  | Call q k => allowed r K q ∧ ∀ resp, shown q resp → wp r (learn q resp ++ K) (k resp) Q
  end.

Lemma wp_weaken {A} r K (p : prog A) (Q Q' : A → list fact → Prop) :
  (∀ a K', K ⊆ K' → Q a K' → Q' a K') → wp r K p Q → wp r K p Q'.
Proof.
  revert K. induction p as [a| |k IH|q k IH]; intros K HQ; simpl; auto.
  - intros H now. eapply IH; [|exact (H now)]. intros a K1 H1. apply HQ. set_solver.
  - intros [Ha H]. split; [done|]. intros resp Hr. eapply IH; [|exact (H resp Hr)].
    intros a K1 H1. apply HQ. set_solver.
Qed.

Lemma wp_bind {A B} r K (p : prog A) (f : A → prog B) Q :
  wp r K p (λ a K', K ⊆ K' → wp r K' (f a) Q) → wp r K (p ≫= f) Q.
Proof.
  revert K. induction p as [a| |k IH|q k IH]; intros K; simpl; auto.
  - intros H now. apply IH. eapply wp_weaken; [|exact (H now)].
    intros a K' HK HQ _. apply HQ. set_solver.
  - intros [Ha H]. split; [done|]. intros resp Hr. apply IH.
    eapply wp_weaken; [|exact (H resp Hr)]. intros a K' HK HQ _. apply HQ. set_solver.
Qed.

(** ** The operations are allowed *)
Section operations.
Variables (c : bool) (id : str).
Implicit Types (K : list fact).

Lemma wp_get r K (Q : Response → list fact → Prop) :
  Q Unavailable K →
  (∀ code, (code =? 200) = false → Q (Status code None) K) →
  Q (Status 200 None) K →
  (∀ l, truthy (resourceVersion l) = true → Q (Status 200 (Some l)) (Saw l :: K)) →
  wp r K (get_lease c) Q.
Proof.
  intros H1 H2 H3 H4. unfold get_lease. destruct c; simpl; [|done].
  split; [by destruct r|]. intros [|code body] Hr; simpl; [done|].
  destruct (code =? 200) eqn:E.
  - apply Z.eqb_eq in E as ->. destruct body as [l|]; simpl; [|done].
    apply H4. by apply (Hr l).
  - destruct body; simpl; auto.
Qed.

Lemma wp_parse r K l (Q : LeaseState → list fact → Prop) :
  (∀ st K', K ⊆ K' → holder st = holderIdentity l → renew_time st = renewTime l →
     (held st = false → free K' l) → Q st K') →
  wp r K (_parse_lease (Some l)) Q.
Proof.
  intros H. unfold _parse_lease. destruct (renewTime l) as [[t|]|] eqn:Et; simpl.
  - intros now. apply H; simpl; try done; [set_solver|]. intros Hh. unfold free.
    apply andb_false_iff in Hh as [Hh|Hh]; [by left|].
    apply negb_false_iff, Z.ltb_lt in Hh. right; right. exists t, now.
    split_and!; [done|left|done].
  - apply H; simpl; try done. intros _. right. by left.
  - apply H; simpl; try done. rewrite andb_true_r. intros Hh. by left.
Qed.

Lemma wp_update r K me d b e rv (Q : bool * option LeaseError → list fact → Prop) :
  (∀ p now, p_holder p = me → allowed r (Clocked now :: K) (Patch p rv)) →
  (∀ w K', K ⊆ K' → Q w K') → wp r K (update_lease c me d b e rv) Q.
Proof.
  intros H1 H2. unfold update_lease. destruct c; simpl; [|by apply H2].
  intros now. split; [by apply H1|]. intros resp _. apply H2. destruct resp; set_solver.
Qed.

Lemma wp_clear r K rv (Q : bool * option LeaseError → list fact → Prop) :
  (∀ p now, p_holder p = [] → allowed r (Clocked now :: K) (Patch p rv)) →
  (∀ w K', K ⊆ K' → Q w K') → wp r K (clear_lease_holder c rv) Q.
Proof.
  intros H1 H2. unfold clear_lease_holder. destruct c; simpl; [|by apply H2].
  intros now. split; [by apply H1|]. intros resp _. apply H2. destruct resp; set_solver.
Qed.

Lemma wp_create r K me d (Q : bool * option LeaseError → list fact → Prop) :
  r = Driver me → (∀ w K', K ⊆ K' → Q w K') → wp r K (create_lease c me d) Q.
Proof.
  intros -> H2. unfold create_lease. destruct c; simpl; [|by apply H2].
  intros now. split; [done|]. intros resp _. apply H2. destruct resp; set_solver.
Qed.

(** What [_read] returns: the state of a lease it has seen, with its version,
    or no lease, or a label in the holder's place. *)
Lemma wp_read r K (Q : LeaseState * option str → list fact → Prop) :
  (∀ st l K', K ⊆ K' → Saw l ∈ K' → holder st = holderIdentity l →
     (held st = false → free K' l) → Q (st, resourceVersion l) K') →
  Q (_NO_LEASE, None) K →
  (∀ h, h ∈ LABELS → Q (conservatively_held h, None) K) →
  wp r K (_read c) Q.
Proof.
  intros H1 H2 H3. unfold _read. apply wp_bind, wp_get.
  - intros _. destruct c; [|done]. apply H3. left.
  - intros code E _. destruct (code =? 404); [done|]. rewrite E. apply H3.
    destruct (code =? 403); [right; left|]. destruct (code =? 401); [by right; right; left|left].
  - intros _. apply H3. left.
  - intros l Hl HK. simpl. apply wp_bind, wp_parse. intros st K' HK' Hh _ Hf _. simpl.
    unfold version_of. rewrite Hl. apply H1; [set_solver..|done|done].
Qed.

Lemma wp_read_true r K : wp r K (_read c) (λ _ _, True).
Proof. by apply wp_read. Qed.

Lemma wp_get_state r K : wp r K (get_state c) (λ _ _, True).
Proof. apply wp_bind. eapply wp_weaken, wp_read_true. done. Qed.

Lemma wp_read_strict r K : wp r K (read_state_strict c) (λ _ _, True).
Proof.
  apply wp_bind, wp_get; [done| |done|].
  - intros code E _. destruct (code =? 404); simpl; [done|]. by rewrite E.
  - intros l Hl _. simpl. by apply wp_parse.
Qed.

Lemma who_who h : who id (Some (who id h)) = who id h.
Proof. by destruct h as [[|]|], id. Qed.

Lemma wp_renew h d K : wp (Driver (who id h)) K (renew c id h d) (λ _ _, True).
Proof.
  unfold renew. destruct (negb c); [done|]. apply wp_bind, wp_get; [done| |done|].
  - intros code E _. destruct (code =? 404); simpl; [done|]. by rewrite E.
  - intros l Hl _. simpl. apply wp_bind, wp_parse. intros st K' HK Hh _ _ _.
    case_bool_decide as Hme; simpl; [|done]. apply wp_bind, wp_update.
    + intros p now Hp. exists l. unfold version_of. rewrite Hl. split_and!; [set_solver|done|].
      left. split; [congruence|by left].
    + intros w K1 _ _. by destruct (_ && _).
Qed.

Lemma wp_acquire h d K : wp (Driver (who id h)) K (acquire c id h d) (λ _ _, True).
Proof.
  unfold acquire. apply wp_bind, wp_read.
  - intros st l K' HK HS Hh Hf _. destruct (held st) eqn:Eh; cbn [negb andb].
    + case_bool_decide; [|done].
      pose proof (wp_renew (Some (who id h)) d K') as Hr. by rewrite who_who in Hr.
    + case_bool_decide.
      * apply wp_bind, wp_create; [done|]. intros [[] e] K1 _ _; simpl; [done|].
        apply wp_bind. eapply wp_weaken, wp_get_state. intros st' K2 _ _ _. by destruct (_ && _).
      * apply wp_bind, wp_update.
        -- intros p now Hp. exists l. split_and!; [set_solver|done|]. right. split; [done|].
           specialize (Hf eq_refl). unfold free in *. set_solver.
        -- intros [[] e] K1 _ _; done.
  - intros _. simpl. apply wp_bind, wp_create; [done|]. intros [[] e] K1 _ _; simpl; [done|].
    apply wp_bind. eapply wp_weaken, wp_get_state. intros st' K2 _ _ _. by destruct (_ && _).
  - intros x Hx _. simpl. case_bool_decide; [|done].
    pose proof (wp_renew (Some (who id h)) d K) as Hr. by rewrite who_who in Hr.
Qed.

Lemma wp_release_attempts n me K :
  wp (Driver me) K (release_attempts c n me) (λ _ _, True).
Proof.
  revert K. induction n as [|n IH]; intros K; simpl; [done|].
  apply wp_bind, wp_get; [by intros| |by intros|].
  - intros code E _. destruct (code =? 404); simpl; [done|]. by rewrite E.
  - intros l Hl _. simpl. apply wp_bind, wp_parse. intros st K' HK Hh _ _ _.
    destruct (held st); simpl; [|done]. case_bool_decide as Hme; simpl; [|done].
    apply wp_bind, wp_clear.
    + intros p now Hp. exists l. unfold version_of. rewrite Hl. split_and!; [set_solver|done|].
      left. split; [congruence|by right].
    + intros [[] e] K1 _ _; simpl; auto.
Qed.

Lemma wp_release me K :
  me ∉ LABELS → wp (Driver me) K (release c (Some me)) (λ _ _, True).
Proof.
  intros Hm. unfold release. destruct (negb c); [done|]. apply wp_bind, wp_read.
  - intros st l K' HK HS Hh Hf _. case_bool_decide as Hme; simpl; [|done].
    apply wp_clear; [|done]. intros p now Hp. exists l. split_and!; [set_solver|done|].
    left. split; [congruence|by right].
  - done.
  - intros x Hx _. simpl. rewrite bool_decide_false; [done|]. intros [= ->]. done.
Qed.

Lemma wp_force K idle : wp Operator K (force_release_idle c idle) (λ _ _, True).
Proof.
  unfold force_release_idle. destruct (negb c); [done|].
  apply wp_bind, wp_get; [done| |done|].
  - intros code E _. destruct (code =? 404); simpl; [done|]. by rewrite E.
  - intros l Hl _. simpl. apply wp_bind, wp_parse. intros st K' HK Hh Hr _ _.
    destruct (truthy (holder st)); simpl; [|done].
    assert (∀ K1 i, wp Operator K1 (if match i with Some i => i <? idle | None => false end
       then Ret (mkOutcome Alive (Some st) i None)
       else w ← clear_lease_holder c (version_of l);
            if negb (fst w) then Ret (mkOutcome WriteFailed (Some st) i (snd w))
            else Ret (mkOutcome Released (Some st) i None)) (λ _ _, True)) as F.
    { intros K1 i. destruct (match i with Some i => i <? idle | None => false end); [done|].
      apply wp_bind, wp_clear; [by intros|]. intros [[] e] K2 _ _; done. }
    apply wp_bind. destruct (renew_time st) as [[t|]|]; 
      [intros now _; apply (F _ (Some _))|intros _; apply (F _ None)..].
Qed.
End operations.

(** Whatever the sequence of operations, every request is allowed. *)
Lemma drives_wp r A (p : prog A) K : drives r A p → wp r K p (λ _ _, True).
Proof.
  intros H. revert K. induction H; intros K; try done.
  - apply wp_bind. eapply wp_weaken; [|apply IHdrives]. auto.
  - subst. apply wp_acquire.
  - subst. apply wp_renew.
  - by apply wp_release.
  - subst. unfold release_if_held. destruct (negb c); [done|]. apply wp_release_attempts.
  - apply wp_get_state.
  - apply wp_read_strict.
  - unfold release. destruct (negb c); [done|]. by apply wp_clear.
  - apply wp_force.
Qed.

(** ** The interleaved system *)
Section invariant.
Context {server : Type} {api : KubeApi server}.
Variable skew : Z.

(** A fact stays true: the object at a version does not change. *)
Definition valid (s : server) (t : Z) (f : fact) : Prop :=
  match f with
  | Clocked now => now <= t + skew
  | Saw l => ∃ v, resourceVersion l = Some v ∧ used s v
      ∧ ∀ l', lease_of s = Some l' → resourceVersion l' = Some v → l' = l
  end.

Definition thread_ok (s : server) (t : Z) (rp : role * { A : Type & prog A }) : Prop :=
  let '(r, existT A p) := rp in
  ∃ K, (∀ f, f ∈ K → valid s t f) ∧ wp r K p (λ _ _, True).

Definition sys_ok (s : Sys (server:=server)) : Prop :=
  ∀ i rp, threads s !! i = Some rp → thread_ok (srv s) (time s) rp.

(** What a request may do to the stored lease: nothing, or store a version
    never used before. *)
Lemma serve_effect s q resp s' :
  serve s q resp s' →
  lease_of s' = lease_of s
  ∨ ∃ l' v, lease_of s' = Some l' ∧ resourceVersion l' = Some v ∧ ¬ used s v
      ∧ match q with
        | Get => False
        | Create h d now => lease_of s = None ∧ l' = created h d now v
        | Patch p rv => ∃ l, lease_of s = Some l ∧ (rv = None ∨ rv = resourceVersion l)
                         ∧ l' = patched p v l
        end.
Proof.
  intros H. destruct q as [|h d now|p rv].
  - apply api_get in H as [? _]. by left.
  - apply api_create in H as [[? _]|(? & v & Hv & E)]; [by left|right].
    eexists _, v. split_and!; try done.
  - apply api_patch in H as [[? _]|(l & Hl & Hrv & _ & [[? _]|(v & Hv & E)])]; [by left..|right].
    eexists _, v. split_and!; try done. by exists l.
Qed.

Lemma valid_serve s q resp s' t f : serve s q resp s' → valid s t f → valid s' t f.
Proof.
  intros H. destruct f as [l|now]; simpl; [|done]. intros (v & Hv & Hu & Hl).
  exists v. split_and!; [done|by eapply api_used|]. intros l' Hl' Hv'.
  destruct (serve_effect _ _ _ _ H) as [E|(l1 & v1 & E & Hv1 & Hn & _)].
  - apply Hl; congruence.
  - destruct Hn. congruence.
Qed.

Lemma serve_shown s q resp s' : serve s q resp s' → shown q resp.
Proof.
  intros H l -> ->. apply api_get in H as (_ & H & _).
  destruct (api_version _ _ (H l eq_refl)) as (v & -> & Hv & _). by destruct v.
Qed.

Lemma learn_valid s q resp s' t f : serve s q resp s' → f ∈ learn q resp → valid s t f.
Proof.
  intros H Hf. destruct q; [|by apply not_elem_of_nil in Hf..].
  destruct resp as [|code [l|]]; simpl in Hf; try by apply not_elem_of_nil in Hf.
  destruct (code =? 200) eqn:E; [|by apply not_elem_of_nil in Hf].
  apply Z.eqb_eq in E as ->. apply list_elem_of_singleton in Hf as ->.
  apply api_get in H as (_ & H & _). specialize (H l eq_refl).
  destruct (api_version _ _ H) as (v & Hv & _ & Hu). exists v. split_and!; [done..|].
  intros l' Hl' _. congruence.
Qed.

Lemma thread_ok_mono s t t' rp : t <= t' → thread_ok s t rp → thread_ok s t' rp.
Proof.
  intros Ht. destruct rp as [r [A p]]. intros (K & HK & Hp). exists K. split; [|done].
  intros f Hf. specialize (HK f Hf). destruct f; simpl in *; [done|lia].
Qed.

Lemma thread_ok_serve s q resp s' t rp :
  serve s q resp s' → thread_ok s t rp → thread_ok s' t rp.
Proof.
  intros H. destruct rp as [r [A p]]. intros (K & HK & Hp). exists K. split; [|done].
  intros f Hf. by eapply valid_serve, HK.
Qed.

Lemma step_ok l s s' : step skew l s s' → sys_ok s → sys_ok s'.
Proof.
  intros H Hs. destruct H as [s t Ht|s i r A k now Hi Hnow|s i r A q k resp srv' Hi Hserve];
    intros j rp Hj; simpl in *.
  - eapply thread_ok_mono; [done|by eapply Hs].
  - destruct (decide (i = j)) as [<-|Hn].
    + rewrite list_lookup_insert_eq in Hj by (by eapply lookup_lt_Some). simplify_eq.
      destruct (Hs _ _ Hi) as (K & HK & Hp). exists (Clocked now :: K). split; [|exact (Hp now)].
      intros f [->|Hf]%elem_of_cons; [simpl; lia|auto].
    + rewrite list_lookup_insert_ne in Hj by done. by eapply Hs.
  - destruct (decide (i = j)) as [<-|Hn].
    + rewrite list_lookup_insert_eq in Hj by (by eapply lookup_lt_Some). simplify_eq.
      destruct (Hs _ _ Hi) as (K & HK & [_ Hp]). exists (learn q resp ++ K).
      split; [|apply Hp; by eapply serve_shown].
      intros f [Hf|Hf]%elem_of_app; (eapply valid_serve; [done|]).
      * by eapply learn_valid.
      * auto.
    + rewrite list_lookup_insert_ne in Hj by done. eapply thread_ok_serve; [done|by eapply Hs].
Qed.

Lemma reachable_ok s0 s :
  (∀ i r A p, threads s0 !! i = Some (thread (A:=A) r p) → drives r A p) →
  reachable skew s0 s → sys_ok s.
Proof.
  intros H0. induction 1 as [|s l s' _ IH Hstep]; [|by eapply step_ok].
  intros i [r [A p]] Hi. exists []. split; [intros f []%not_elem_of_nil|].
  apply drives_wp. by eapply H0.
Qed.

(** The rule every change of the lease follows, by the role of its author. *)
Definition justified (t : Z) (r : role) (old new : option Lease) : Prop :=
  ∃ l', new = Some l' ∧
  match r, old with
  | Driver me, None => holderIdentity l' = Some me
  | Driver me, Some l =>
      (holderIdentity l = Some me ∧ (holderIdentity l' = Some me ∨ holderIdentity l' = Some []))
      ∨ (holderIdentity l' = Some me ∧ lapsed_by (t + skew) l)
  | Operator, _ => holderIdentity l' = Some []
  end.

Lemma free_lapsed s t K l :
  (∀ f, f ∈ K → valid s t f) → free K l → lapsed_by (t + skew) l.
Proof.
  intros HK [H|[H|(t0 & now & H & Hc & Hlt)]]; [by left|right; by left|].
  right; right. exists t0. split; [done|]. specialize (HK _ Hc). simpl in HK. lia.
Qed.

Lemma call_justified s i r A q (k : Response → prog A) resp srv' :
  sys_ok s → threads s !! i = Some (thread r (Call q k)) → serve (srv s) q resp srv' →
  lease_of srv' ≠ lease_of (srv s) →
  justified (time s) r (lease_of (srv s)) (lease_of srv').
Proof.
  intros Hs Hi Hserve Hne. destruct (Hs _ _ Hi) as (K & HK & [Ha _]).
  destruct (serve_effect _ _ _ _ Hserve) as [|(l' & v & E & _ & _ & Hq)]; [done|].
  exists l'. split; [done|].
  destruct q as [|h d now|p rv]; [done| |].
  - destruct Hq as [-> ->]. destruct r; simpl in Ha; [by subst|done].
  - destruct Hq as (l & Hl & Hrv & ->). rewrite Hl. destruct r as [me|]; simpl in *; [|by f_equal].
    destruct Ha as (l1 & HS & -> & Hcase).
    destruct (HK _ HS) as (v1 & Hv1 & _ & Huniq). destruct Hrv as [Hrv|Hrv]; [congruence|].
    rewrite (Huniq l Hl) in * by congruence.
    destruct Hcase as [[Hme Hp]|[Hp Hfree]].
    + left. split; [done|]. destruct Hp; [left|right]; by f_equal.
    + right. split; [by f_equal|]. by eapply free_lapsed.
Qed.
End invariant.

(** ** A server in memory *)

(** An executable server that answers every request; it also implements the
    interface when requests may go unanswered. *)
Record mem := mkMem { m_lease : option Lease; m_next : nat }.

Definition ver (n : nat) : str := replicate (S n) "1"%char.

Definition with_version (v : str) (l : Lease) : Lease :=
  mkLease (holderIdentity l) (leaseDurationSeconds l) (acquireTime l) (renewTime l)
          (leaseTransitions l) (Some v).

Definition mem_lease_of (m : mem) : option Lease := with_version (ver (m_next m)) <$> m_lease m.

Definition mem_serve (m : mem) (q : Request) : Response * mem :=
  let next := ver (S (m_next m)) in
  match q, mem_lease_of m with
  | Get, Some l => (Status 200 (Some l), m)
  | Get, None => (Status 404 None, m)
  | Create h d now, None => (Status 201 None, mkMem (Some (created h d now next)) (S (m_next m)))
  | Create _ _ _, Some _ => (Status 409 None, m)
  | Patch _ _, None => (Status 404 None, m)
  | Patch p rv, Some l =>
      if bool_decide (rv = None) || bool_decide (rv = resourceVersion l)
      then (Status 200 None, mkMem (Some (patched p next l)) (S (m_next m)))
      else (Status 409 None, m)
  end.

Definition mem_step (m : mem) (q : Request) (r : Response) (m' : mem) : Prop :=
  (r = fst (mem_serve m q) ∧ m' = snd (mem_serve m q))
  ∨ (r = Unavailable ∧ (m' = m ∨ m' = snd (mem_serve m q))).

Definition mem_used (m : mem) (v : str) : Prop := (length v ≤ S (m_next m))%nat.

Lemma mem_serve_cases m q :
  (mem_lease_of (snd (mem_serve m q)) = mem_lease_of m ∧ m_next (snd (mem_serve m q)) = m_next m
    ∧ (q ≠ Get → accepted (fst (mem_serve m q)) = false))
  ∨ (m_next (snd (mem_serve m q)) = S (m_next m)
     ∧ (∀ b, fst (mem_serve m q) ≠ Status 409 b)
     ∧ match q with
       | Get => False
       | Create h d now => mem_lease_of m = None
           ∧ mem_lease_of (snd (mem_serve m q)) = Some (created h d now (ver (S (m_next m))))
       | Patch p rv => ∃ l, mem_lease_of m = Some l ∧ (rv = None ∨ rv = resourceVersion l)
           ∧ mem_lease_of (snd (mem_serve m q)) = Some (patched p (ver (S (m_next m))) l)
       end).
Proof.
  unfold mem_serve. destruct q as [|h d now|p rv], (mem_lease_of m) as [l|] eqn:E; simpl;
    try (left; by rewrite ?E).
  - right. split_and!; [done..|]. by unfold mem_lease_of.
  - destruct (bool_decide (rv = None) || bool_decide (rv = resourceVersion l)) eqn:Eb; simpl;
      [right|left; by rewrite ?E].
    apply orb_true_iff in Eb. rewrite !bool_decide_eq_true in Eb.
    split_and!; [done..|]. exists l. split_and!; done.
Qed.

#[export] Instance mem_api : KubeApi mem.
Proof.
  refine {| lease_of := mem_lease_of; used := mem_used; serve := mem_step |}.
  - intros m l Hl. exists (ver (m_next m)). unfold mem_lease_of in Hl.
    destruct (m_lease m); simplify_eq/=. split_and!; [done..|].
    unfold mem_used, ver. by rewrite length_replicate.
  - intros m q r m' v H Hu. unfold mem_used in *.
    assert (m_next m ≤ m_next m')%nat; [|lia].
    destruct (mem_serve_cases m q) as [(_ & E & _)|(E & _)], H as [[_ ->]|[_ [->| ->]]]; lia.
  - intros m r m' H. assert (snd (mem_serve m Get) = m) as E.
    { unfold mem_serve. by destruct (mem_lease_of m). }
    unfold mem_step in H. rewrite E in H. unfold mem_serve in H.
    destruct H as [[-> ->]|[-> [-> | ->]]]; try (split_and!; congruence).
    destruct (mem_lease_of m); simpl; split_and!; try congruence.
  - intros m h d now r m' H.
    destruct (mem_serve_cases m (Create h d now)) as [(E & _ & Ea)|(E & _ & En & El)].
    + left. destruct H as [[-> ->]|[-> [-> | ->]]]; auto.
    + assert (¬ mem_used m (ver (S (m_next m)))) as Hf.
      { unfold mem_used, ver. rewrite length_replicate. lia. }
      destruct H as [[-> ->]|[-> [-> | ->]]]; [right|left|right]; eauto.
  - intros m p rv r m' H.
    destruct (mem_serve_cases m (Patch p rv)) as [(E & _ & Ea)|(E & Hc & l & Hl & Hrv & El)].
    + left. destruct H as [[-> ->]|[-> [-> | ->]]]; auto.
    + assert (¬ mem_used m (ver (S (m_next m)))) as Hf.
      { unfold mem_used, ver. rewrite length_replicate. lia. }
      destruct H as [[-> ->]|[-> [-> | ->]]]; [right|left|right]; eauto 10.
Defined.

(** Run a program alone, every clock reading being [now]. *)
Fixpoint exec {A} (now : Z) (p : prog A) (m : mem) : option A * mem :=
  match p with
  | Ret a => (Some a, m)
  | LeaseUnknown => (None, m)
  | Clock k => exec now (k now) m
  | Call q k => let '(r, m') := mem_serve m q in exec now (k r) m'
  end.

(** ** Executions against an arbitrary server *)
Inductive event := EClock (now : Z) | ECall (q : Request) (r : Response).

(** [runs p tr o]: with the readings and answers of [tr], [p] returns [Some a]
    or raises. *)
Inductive runs {A} : prog A → list event → option A → Prop :=
| runs_ret a : runs (Ret a) [] (Some a)
| runs_unknown : runs LeaseUnknown [] None
| runs_clock k now tr o : runs (k now) tr o → runs (Clock k) (EClock now :: tr) o
| runs_call q k r tr o : runs (k r) tr o → runs (Call q k) (ECall q r :: tr) o.

Lemma runs_bind {A B} (p : prog A) (f : A → prog B) tr o :
  runs (p ≫= f) tr o →
  (∃ a t1 t2, tr = t1 ++ t2 ∧ runs p t1 (Some a) ∧ runs (f a) t2 o) ∨ (runs p tr None ∧ o = None).
Proof.
  revert tr. induction p as [a| |k IH|q k IH]; intros tr H; simpl in H.
  - left. exists a, [], tr. by repeat constructor.
  - right. inversion H; subst. by repeat constructor.
  - inversion H as [| |k' now tr' o' H' Ek|]; subst. apply IH in H' as [(a & t1 & t2 & -> & H1 & H2)|[H1 ->]].
    + left. exists a, (EClock now :: t1), t2. by repeat constructor.
    + right. by repeat constructor.
  - inversion H as [| | |q' k' r tr' o' H' Ek]; subst.
    apply IH in H' as [(a & t1 & t2 & -> & H1 & H2)|[H1 ->]].
    + left. exists a, (ECall q r :: t1), t2. by repeat constructor.
    + right. by repeat constructor.
Qed.

Definition kept (r : Response) : Response :=
  match r with
  | Status code body => if code =? 200 then Status code body else Status code None
  | Unavailable => Unavailable
  end.

Lemma runs_get tr o :
  runs (get_lease true) tr o → ∃ r, tr = [ECall Get r] ∧ o = Some (kept r).
Proof.
  unfold get_lease. simpl. intros H. inversion H as [| | |q k r tr' o' H' Ek]; subst.
  exists r. inversion H'; subst. by split.
Qed.

Lemma runs_parse l tr o :
  runs (_parse_lease (Some l)) tr o →
  (∀ e, e ∈ tr → ∃ now, e = EClock now)
  ∧ ∃ st, o = Some st ∧ holder st = holderIdentity l ∧ renew_time st = renewTime l.
Proof.
  unfold _parse_lease. destruct (renewTime l) as [[t|]|] eqn:Et; simpl; intros H.
  - inversion H as [| |k now tr' o' H' Ek|]; subst. inversion H'; subst.
    split; [|by eexists]. intros e ->%list_elem_of_singleton. by exists now.
  - inversion H; subst. split; [intros e []%not_elem_of_nil|by eexists].
  - inversion H; subst. split; [intros e []%not_elem_of_nil|by eexists].
Qed.

Lemma runs_update me d b e rv tr o :
  runs (update_lease true me d b e rv) tr o →
  ∃ now p r w, tr = [EClock now; ECall (Patch p rv) r] ∧ o = Some w ∧ p_holder p = me
    ∧ w = match r with
          | Unavailable => (false, Some Unanswered)
          | Status code _ =>
              if code =? 200 then (true, None)
              else if code =? 409 then (false, Some Conflict)
              else (false, Some (StatusError code))
          end.
Proof.
  unfold update_lease. simpl. intros H. inversion H as [| |k now tr' o' H' Ek|]; subst.
  inversion H' as [| | |q k r tr1 o1 H1 Ek]; subst. inversion H1; subst.
  eexists now, _, r, _. split_and!; [reflexivity..|done|reflexivity].
Qed.

Lemma runs_clear rv tr o :
  runs (clear_lease_holder true rv) tr o →
  ∃ now p r, tr = [EClock now; ECall (Patch p rv) r] ∧ p_holder p = [].
Proof.
  unfold clear_lease_holder. simpl. intros H. inversion H as [| |k now tr' o' H' Ek|]; subst.
  inversion H' as [| | |q k r tr1 o1 H1 Ek]; subst. inversion H1; subst.
  eexists now, _, r. split_and!; reflexivity.
Qed.

(** The request was answered in a way that says nothing about the holder. *)
Definition inconclusive (e : event) : Prop :=
  match e with
  | EClock _ => False
  | ECall q r =>
      r = Unavailable ∨ (∃ code b, r = Status code b ∧ code ≠ 404 ∧ code ≠ 200)
      ∨ (q = Get ∧ r = Status 200 None) ∨ (q ≠ Get ∧ ∃ b, r = Status 404 b)
  end.

Lemma renew_write_runs me d rv tr o :
  runs (w ← update_lease true me d false None rv;
        if negb (fst w) && negb (is_conflict (snd w)) then LeaseUnknown else Ret w) tr o →
  match o with
  | None => ∃ e, e ∈ tr ∧ inconclusive e
  | Some (true, _) => ∃ p b, p_holder p = me ∧ ECall (Patch p rv) (Status 200 b) ∈ tr
  | Some (false, _) => ∃ p b, ECall (Patch p rv) (Status 409 b) ∈ tr
  end.
Proof.
  intros H. apply runs_bind in H as [(w & t5 & t6 & -> & H5 & H6)|[H5 ->]].
  2:{ apply runs_update in H5 as (? & ? & ? & ? & _ & [=] & _). }
  apply runs_update in H5 as (now & p & r & w' & -> & [= <-] & Hp & ->).
  destruct r as [|code b]; cbn in H6.
  { inversion H6; subst. exists (ECall (Patch p rv) Unavailable).
    split; [set_solver|by left]. }
  destruct (code =? 200) eqn:E200; cbn in H6.
  { apply Z.eqb_eq in E200 as ->. inversion H6; subst. exists p, b. set_solver. }
  destruct (code =? 409) eqn:E409; cbn in H6; inversion H6; subst.
  - apply Z.eqb_eq in E409 as ->. exists p, b. set_solver.
  - apply Z.eqb_neq in E409, E200. exists (ECall (Patch p rv) (Status code b)).
    split; [set_solver|]. destruct (decide (code = 404)) as [->|Hn].
    + right; right; right. eauto.
    + right; left. eauto.
Qed.

Lemma idle_runs (rt : option stamp) tr o :
  runs (match rt with
        | Some (At renewed) => now ← clock; Ret (Some (now - renewed))
        | _ => Ret None
        end) tr o →
  (∀ e, e ∈ tr → ∃ now, e = EClock now)
  ∧ ∃ i, o = Some i
    ∧ match rt with
      | Some (At t) => ∃ now, EClock now ∈ tr ∧ i = Some (now - t)
      | _ => i = None
      end.
Proof.
  destruct rt as [[t|]|]; simpl; intros H.
  2,3: inversion H; subst; split; [intros e []%not_elem_of_nil|by eexists].
  inversion H as [| |k now tr' o' H' Ek|]; subst. inversion H'; subst. split.
  - intros e ->%list_elem_of_singleton. eauto.
  - eexists. split; [done|]. exists now. split; [left|done].
Qed.

Lemma force_finish_runs (alive : bool) st i rv tr o :
  runs (if alive then Ret (mkOutcome Alive (Some st) i None)
        else w ← clear_lease_holder true rv;
             if negb (fst w) then Ret (mkOutcome WriteFailed (Some st) i (snd w))
             else Ret (mkOutcome Released (Some st) i None)) tr o →
  ∃ r, o = Some r
  ∧ ((outcome r = Alive ∧ alive = true ∧ tr = [])
     ∨ ((outcome r = Released ∨ outcome r = WriteFailed) ∧ alive = false
        ∧ ∃ now p resp, tr = [EClock now; ECall (Patch p rv) resp] ∧ p_holder p = [])).
Proof.
  destruct alive; intros H.
  { inversion H; subst. eexists. split; [done|]. by left. }
  apply runs_bind in H as [(w & t1 & t2 & -> & H1 & H2)|[H1 ->]].
  - apply runs_clear in H1 as (now & p & resp & -> & Hp).
    assert (t2 = [] ∧ ∃ r, o = Some r ∧ (outcome r = Released ∨ outcome r = WriteFailed)) as
      [-> (r & -> & Hr)] by (destruct (negb (fst w)); inversion H2; subst; (split; [done|]); eexists; split; eauto).
    exists r. split; [done|]. right. eauto 10.
  - unfold clear_lease_holder in H1. simpl in H1. inversion H1 as [| |k now tr' o' H' Ek|]; subst.
    inversion H' as [| | |q k r tr1 o1 H2 Ek]; subst. inversion H2.
Qed.

(** ** A lone client of the memory server *)
Lemma exec_bind {A B} now (p : prog A) (f : A → prog B) m :
  exec now (p ≫= f) m
  = match exec now p m with
    | (Some a, m') => exec now (f a) m'
    | (None, m') => (None, m')
    end.
Proof.
  revert m. induction p as [a| |k IH|q k IH]; intros m; simpl; try done.
  destruct (mem_serve m q) as [r m']. apply IH.
Qed.

(** The state [_parse_lease] computes when its clock shows [now]. *)
Definition parsed_at (now : Z) (l : Lease) : LeaseState :=
  let e := match renewTime l with
           | None => false | Some Garbage => true
           | Some (At t) => micros (lease_duration l) <? now - t
           end in
  mkState (truthy (holderIdentity l) && negb e) (holderIdentity l) (renewTime l)
          (int_or (leaseTransitions l) 0) e.

Lemma exec_parse now l m : exec now (_parse_lease (Some l)) m = (Some (parsed_at now l), m).
Proof. unfold _parse_lease, parsed_at. by destruct (renewTime l) as [[]|]. Qed.

Lemma mem_lease_version m l : mem_lease_of m = Some l → resourceVersion l = Some (ver (m_next m)).
Proof. unfold mem_lease_of. destruct (m_lease m); intros; by simplify_eq/=. Qed.

Lemma exec_read now m :
  exec now (_read true) m
  = (Some match mem_lease_of m with
          | Some l => (parsed_at now l, resourceVersion l)
          | None => (_NO_LEASE, None)
          end, m).
Proof.
  unfold _read, get_lease. simpl. destruct (mem_lease_of m) as [l|] eqn:E; [|done]. simpl.
  change (exec now (_parse_lease (Some l) ≫= λ st, Ret (st, version_of l)) m
          = (Some (parsed_at now l, resourceVersion l), m)).
  rewrite exec_bind, exec_parse. simpl. unfold version_of.
  by rewrite (mem_lease_version m l E).
Qed.

(** A write at the version just read is accepted. *)
Lemma exec_update now m l me d b e :
  mem_lease_of m = Some l →
  exec now (update_lease true me d b e (resourceVersion l)) m
  = (Some (true, None),
     mkMem (Some (patched (mkPatch me (Some d) now (if b then Some now else None)
                             (if b then Z.succ <$> e else None)) (ver (S (m_next m))) l))
           (S (m_next m))).
Proof.
  intros E. unfold update_lease, mem_serve. simpl. rewrite E.
  rewrite (bool_decide_true (resourceVersion l = resourceVersion l)) by done.
  by rewrite orb_true_r.
Qed.

Lemma exec_clear now m l :
  mem_lease_of m = Some l →
  exec now (clear_lease_holder true (resourceVersion l)) m
  = (Some (true, None),
     mkMem (Some (patched (mkPatch [] None (now - CLEAR_AGE) None None) (ver (S (m_next m))) l))
           (S (m_next m))).
Proof.
  intros E. unfold clear_lease_holder, mem_serve. simpl. rewrite E.
  rewrite (bool_decide_true (resourceVersion l = resourceVersion l)) by done.
  by rewrite orb_true_r.
Qed.

Lemma exec_acquire_free now m l id h d :
  mem_lease_of m = Some l → holderIdentity l ≠ None → held (parsed_at now l) = false →
  ∃ m' l', exec now (acquire true id h d) m = (Some (true, None), m')
    ∧ mem_lease_of m' = Some l' ∧ holderIdentity l' = Some (who id h)
    ∧ renewTime l' = Some (At now) ∧ leaseDurationSeconds l' = Some d
    ∧ leaseTransitions l' = Some (int_or (leaseTransitions l) 0 + 1).
Proof.
  intros E Hh Hf. unfold acquire. rewrite exec_bind, exec_read, E, Hf.
  assert (holder (parsed_at now l) = holderIdentity l) as -> by done.
  cbn [negb andb]. rewrite bool_decide_false by done.
  rewrite exec_bind, (exec_update now m l) by done. simpl. eexists _, _. split; [reflexivity|].
  split_and!; reflexivity.
Qed.

(** ** Claims *)

(** C25 -- mutual exclusion: with any number of drivers and operators running
    any sequence of lease operations, interleaved request by request, with
    requests lost or unanswered in any way and clocks off by up to [skew], a
    driver changes the lease only by creating it in its own name, by renewing
    or clearing its own, or by taking over one nobody holds any more at that
    instant: a live lease of another driver is never touched except by an
    operator, who can only clear it. *)
Theorem lease_mutual_exclusion {server} {api : KubeApi server} (skew : Z) (s0 s s' : Sys)
    (label : option nat) :
  (∀ i r A p, threads s0 !! i = Some (thread (A:=A) r p) → drives r A p) →
  reachable skew s0 s → step skew label s s' →
  lease_of (srv s') ≠ lease_of (srv s) →
  ∃ i r A (p : prog A), label = Some i ∧ threads s !! i = Some (thread r p)
    ∧ justified skew (time s) r (lease_of (srv s)) (lease_of (srv s')).
Proof.
  intros H0 Hr Hstep Hne. pose proof (reachable_ok skew s0 s H0 Hr) as Hok.
  destruct Hstep as [s t Ht|s i r A k now Hi Hnow|s i r A q k resp srv' Hi Hs]; [done..|].
  exists i, r, A, (Call q k). split_and!; [done..|]. by eapply call_justified.
Qed.

Definition two_drivers : Sys (server := mem) :=
  mkSys (mkMem None 0) 0
    [thread (Driver "a") (acquire true "a" None 600); thread (Driver "b") (acquire true "b" None 600)].

Lemma lease_mutual_exclusion_witness :
  ∃ s s' : Sys (server := mem), reachable 0 two_drivers s ∧ step 0 (Some 0%nat) s s'
    ∧ ∃ i r A (p : prog A), Some 0%nat = Some i ∧ threads s !! i = Some (thread r p)
      ∧ justified 0 (time s) r (lease_of (srv s)) (lease_of (srv s')).
Proof.
  eexists _, _. match goal with |- ?R ∧ ?S ∧ _ => assert (R ∧ S) as [HR HS] end.
  { split.
    - eapply reach_step; [eapply reach_step; [apply reach_init|]|].
      + eapply (step_call 0 two_drivers 0); [reflexivity|]. left. split; reflexivity.
      + eapply (step_clock 0 _ 0); [reflexivity|]. simpl. instantiate (1 := 0). lia.
    - eapply (step_call 0 _ 0); [reflexivity|]. left. split; reflexivity. }
  split; [exact HR|]. split; [exact HS|].
  eapply (lease_mutual_exclusion 0 two_drivers _ _ _ ltac:(shelve) HR HS).
  Unshelve.
  - vm_compute. discriminate.
  - intros [|[|i]] r A p H; try discriminate H; inversion H; subst;
      apply drv_acquire; reflexivity.
Defined.

(** A renewal reports the lease as lost only on evidence: the lease was
    seen to be gone or to name someone else, or the write was refused with a
    conflict; it reports success only when the lease was seen to be the
    caller's own and the write at that very version was accepted; and it
    raises only when some request was not conclusively answered. *)
Theorem renew_lost_only_when_seen (id : str) (h : option str) (duration : Z)
    (tr : list event) (o : option (bool * option LeaseError)) :
  runs (renew true id h duration) tr o →
  let me := who id h in
  match o with
  | None => ∃ e, e ∈ tr ∧ inconclusive e
  | Some (true, _) =>
      ∃ l p b, ECall Get (Status 200 (Some l)) ∈ tr ∧ holderIdentity l = Some me
        ∧ p_holder p = me ∧ ECall (Patch p (version_of l)) (Status 200 b) ∈ tr
  | Some (false, _) =>
      (∃ b, ECall Get (Status 404 b) ∈ tr)
      ∨ (∃ l, ECall Get (Status 200 (Some l)) ∈ tr ∧ holderIdentity l ≠ Some me)
      ∨ ∃ p rv b, ECall (Patch p rv) (Status 409 b) ∈ tr
  end.
Proof.
  intros H me. unfold renew in H. cbn [negb] in H. subst me.
  apply runs_bind in H as [(r & t1 & t2 & -> & H1 & H2)|[H1 ->]].
  2:{ apply runs_get in H1 as (r & _ & [=]). }
  apply runs_get in H1 as (r0 & -> & [= ->]). destruct r0 as [|code body]; cbn [kept] in H2.
  { inversion H2; subst. exists (ECall Get Unavailable). split; [left|by left]. }
  destruct (code =? 200) eqn:E200.
  2:{ cbn in H2. rewrite E200 in H2. destruct (code =? 404) eqn:E404; cbn [negb] in H2.
      - apply Z.eqb_eq in E404 as ->. inversion H2; subst. left. exists body. left.
      - apply Z.eqb_neq in E404, E200. inversion H2; subst.
        eexists. split; [left|]. right; left. eauto. }
  apply Z.eqb_eq in E200 as ->. change (200 =? 404) with false in H2.
  change (200 =? 200) with true in H2. cbn [negb] in H2. destruct body as [l|].
  2:{ inversion H2; subst. eexists. split; [left|]. right; right; left. done. }
  apply runs_bind in H2 as [(st & t3 & t4 & -> & H3 & H4)|[H3 ->]].
  2:{ apply runs_parse in H3 as (_ & st & [=] & _). }
  apply runs_parse in H3 as (_ & st' & [= <-] & Hh & _). case_bool_decide as Hme; cbn [negb] in H4.
  2:{ inversion H4; subst. right; left. exists l. split; [left|congruence]. }
  apply renew_write_runs in H4. destruct o as [[[] e]|].
  - destruct H4 as (p & b & Hp & Hin). exists l, p, b. split_and!; [left|congruence|done|set_solver].
  - destruct H4 as (p & b & Hin). right; right. exists p, (version_of l), b. set_solver.
  - destruct H4 as (e & He & Hi). exists e. split; [set_solver|done].
Qed.

Lemma renew_lost_only_when_seen_witness : ∃ e, e ∈ [ECall Get Unavailable] ∧ inconclusive e.
Proof.
  apply (renew_lost_only_when_seen "a" None 600 [ECall Get Unavailable] None).
  apply runs_call, runs_unknown.
Defined.

(** The operator's way out only clears a lease it has read, with a holder
    that has not renewed for the required time (by the operator's clock) or
    whose renewal time is unusable, and does so at the version it read; every
    other outcome writes nothing. *)
Theorem force_release_only_idle (min_idle : Z) (tr : list event)
    (o : option ForceReleaseOutcome) :
  runs (force_release_idle true min_idle) tr o →
  ∃ r, o = Some r
  ∧ match outcome r with
    | Released | WriteFailed =>
        ∃ l p rv, ECall Get (Status 200 (Some l)) ∈ tr ∧ truthy (holderIdentity l) = true
          ∧ p_holder p = [] ∧ rv = version_of l ∧ (∃ resp, ECall (Patch p rv) resp ∈ tr)
          ∧ match renewTime l with
            | Some (At t) => ∃ now, EClock now ∈ tr ∧ min_idle <= now - t
            | _ => True
            end
    | _ => ∀ q resp, ECall q resp ∈ tr → q = Get
    end.
Proof.
  intros H. unfold force_release_idle in H. cbn [negb] in H.
  assert (G : ∀ r q resp, ECall q resp ∈ [ECall Get r] ++ [] → q = Get).
  { intros r q resp Hin. apply list_elem_of_singleton in Hin. by injection Hin as -> _. }
  apply runs_bind in H as [(r & t1 & t2 & -> & H1 & H2)|[H1 ->]].
  2:{ apply runs_get in H1 as (r & _ & [=]). }
  apply runs_get in H1 as (r0 & -> & [= ->]). destruct r0 as [|code body]; cbn [kept] in H2.
  { inversion H2; subst. eexists. split; [done|]. simpl. apply G. }
  destruct (code =? 200) eqn:E200.
  2:{ cbn in H2. rewrite E200 in H2. destruct (code =? 404); cbn [negb] in H2;
        inversion H2; subst; eexists; (split; [done|]); simpl; apply G. }
  apply Z.eqb_eq in E200 as ->. change (200 =? 404) with false in H2.
  change (200 =? 200) with true in H2. cbn [negb] in H2. destruct body as [l|].
  2:{ inversion H2; subst. eexists. split; [done|]. simpl. apply G. }
  apply runs_bind in H2 as [(st & t3 & t4 & -> & H3 & H4)|[H3 ->]].
  2:{ apply runs_parse in H3 as (_ & st & [=] & _). }
  apply runs_parse in H3 as (Hc & st' & [= <-] & Hh & Hr).
  assert (G' : ∀ t, (∀ e, e ∈ t → ∃ now, e = EClock now) →
     ∀ q resp, ECall q resp ∈ [ECall Get (Status 200 (Some l))] ++ t3 ++ t → q = Get).
  { intros t Ht q resp [Hin|[Hin|Hin]%elem_of_app]%elem_of_cons.
    - by injection Hin as -> _.
    - by destruct (Hc _ Hin).
    - by destruct (Ht _ Hin). }
  rewrite Hh in H4. destruct (truthy (holderIdentity l)) eqn:Et; cbn [negb] in H4.
  2:{ inversion H4; subst. eexists. split; [done|]. cbn [outcome].
      apply G'. intros e []%not_elem_of_nil. }
  apply runs_bind in H4 as [(i & t5 & t6 & -> & H5 & H6)|[H5 ->]].
  2:{ apply idle_runs in H5 as (_ & i & [=] & _). }
  apply idle_runs in H5 as (Hc5 & i' & [= <-] & Hi). rewrite Hr in Hi.
  apply force_finish_runs in H6 as (r & -> & [(Ho & Ha & ->)|(Hk & Ha & now & p & resp & -> & Hp)]).
  { exists r. split; [done|]. rewrite Ho. apply G'. by rewrite app_nil_r. }
  exists r. split; [done|].
  assert (∃ l0 p0 rv,
    ECall Get (Status 200 (Some l0)) ∈ [ECall Get (Status 200 (Some l))] ++ t3 ++ t5 ++
      [EClock now; ECall (Patch p (version_of l)) resp]
    ∧ truthy (holderIdentity l0) = true ∧ p_holder p0 = [] ∧ rv = version_of l0
    ∧ (∃ resp0, ECall (Patch p0 rv) resp0 ∈ [ECall Get (Status 200 (Some l))] ++ t3 ++ t5 ++
        [EClock now; ECall (Patch p (version_of l)) resp])
    ∧ match renewTime l0 with
      | Some (At t) => ∃ now0, EClock now0 ∈ [ECall Get (Status 200 (Some l))] ++ t3 ++ t5 ++
          [EClock now; ECall (Patch p (version_of l)) resp] ∧ min_idle <= now0 - t
      | _ => True
      end) as Hgoal; [|by destruct Hk as [-> | ->]].
  exists l, p, (version_of l). split_and!; [left|done|done|done| |].
  - exists resp. set_solver.
  - destruct (renewTime l) as [[t|]|]; [|done..]. destruct Hi as (now0 & Hn & ->).
    exists now0. split; [set_solver|]. by apply Z.ltb_ge in Ha.
Qed.

Lemma force_release_only_idle_witness :
  ∃ r, Some (mkOutcome NotHeld None None None) = Some r
    ∧ ∀ q resp, ECall q resp ∈ [ECall Get (Status 404 None)] → q = Get.
Proof.
  destruct (force_release_only_idle 5 [ECall Get (Status 404 None)]
    (Some (mkOutcome NotHeld None None None))) as (r & H1 & H2).
  - apply runs_call, runs_ret.
  - exists r. injection H1 as <-. split; [reflexivity|exact H2].
Defined.

(** The life of the lease on a server that answers: the first driver
    creates it; while it is alive another driver is refused and the lease is
    untouched; once it has expired, or its holder has released it, another
    driver gets it at the first try, with the transition counted. *)
Theorem lease_lifecycle (now : Z) (m : mem) (id : str) (h : option str) (duration : Z) :
  let b := who id h in
  match mem_lease_of m with
  | None => ∃ m' l', exec now (acquire true id h duration) m = (Some (true, None), m')
      ∧ mem_lease_of m' = Some l' ∧ holderIdentity l' = Some b
  | Some l => ∀ a, holderIdentity l = Some a → a ≠ b → a ≠ [] →
      (held (parsed_at now l) = true →
        exec now (acquire true id h duration) m = (Some (false, Some (HeldBy (Some a))), m))
      ∧ (held (parsed_at now l) = false → ∃ m' l',
          exec now (acquire true id h duration) m = (Some (true, None), m')
          ∧ mem_lease_of m' = Some l' ∧ holderIdentity l' = Some b
          ∧ leaseTransitions l' = Some (int_or (leaseTransitions l) 0 + 1))
      ∧ ∃ m1 m2 l2, exec now (release true (Some a)) m = (Some (true, None), m1)
          ∧ exec now (acquire true id h duration) m1 = (Some (true, None), m2)
          ∧ mem_lease_of m2 = Some l2 ∧ holderIdentity l2 = Some b
  end.
Proof.
  cbv zeta. destruct (mem_lease_of m) as [l|] eqn:E.
  2:{ unfold acquire. rewrite exec_bind, exec_read, E. cbn [held holder _NO_LEASE negb andb].
      rewrite bool_decide_true by done. rewrite exec_bind.
      unfold create_lease, mem_serve. simpl. rewrite E. simpl.
      eexists _, _. split; [reflexivity|]. split; reflexivity. }
  intros a Ha Hab Hne. assert (holder (parsed_at now l) = Some a) as Hh by done. split_and!.
  - intros Hheld. unfold acquire. rewrite exec_bind, exec_read, E, Hheld, Hh. cbn [negb andb].
    rewrite bool_decide_false; [done|]. congruence.
  - intros Hf. destruct (exec_acquire_free now m l id h duration) as (m' & l' & H1 & H2 & H3 & _ & _ & H4);
      [done|congruence|done|]. by exists m', l'.
  - pose proof (exec_clear now m l E) as Hc.
    destruct (exec_acquire_free now
      (mkMem (Some (patched (mkPatch [] None (now - CLEAR_AGE) None None) (ver (S (m_next m))) l))
             (S (m_next m)))
      (patched (mkPatch [] None (now - CLEAR_AGE) None None) (ver (S (m_next m))) l) id h duration)
      as (m' & l' & H1 & H2 & H3 & _); [done..|].
    eexists _, m', l'. split; [|split; [exact H1|done]].
    unfold release. cbn [negb]. rewrite exec_bind, exec_read, E, Hh, bool_decide_true by done. apply Hc.
Qed.
End UpgradeLease.
