(* ===== verification/Serial.v ===== *)
(** * Zone serials

    [backend/app/services/dns/serial.py]: the next SOA serial of a zone. *)
From S2P Require Import Prelude.
#[local] Open Scope Z_scope.

Module Serial.

Definition SERIAL_MODULUS : Z := 2 ^ 32.

(** The UTC date of [now]; [strftime("%Y%m%d")] read as a number. *)
Record date := mkDate { year : Z; month : Z; day : Z }.

Definition ymd (now : date) : Z := year now * 10000 + month now * 100 + day now.

Definition _next_serial (current : Z) (now : date) : Z :=
  let today_base := ymd now * 100 in
  if (1000000000 <=? current) && (current <=? 9999999999) then
    let cur_date := current / 100 in
    let cur_nn := current mod 100 in
    if cur_date =? today_base / 100 then
      if cur_nn <? 99 then current + 1 else current + 1
    else if current <? today_base then today_base else current + 1
  else if current <? today_base then today_base else current + 1.

Definition compute_next_serial (current : Z) (now : date) : Z :=
  let nxt := _next_serial current now mod SERIAL_MODULUS in
  if nxt =? 0 then 1 else nxt.

(** [zone.last_serial]; a missing value counts as 0. *)
Definition bump_zone_serial (last_serial : option Z) (now : date) : Z * option Z :=
  let nxt := compute_next_serial (default 0 last_serial) now in (nxt, Some nxt).

(** ** Specification: RFC 1982 serial arithmetic *)
Definition valid_date (d : date) : Prop :=
  1 <= year d ∧ 1 <= month d <= 12 ∧ 1 <= day d <= 31.

Definition is_serial (s : Z) : Prop := 0 <= s < SERIAL_MODULUS.

(** [a] is later than [b] (the comparison a secondary makes). *)
Definition later (a b : Z) : Prop := 0 < (a - b) mod SERIAL_MODULUS < 2 ^ 31.

(** Serials after each of a list of bumps. *)
Fixpoint bumps (last : option Z) (days : list date) : list Z :=
  match days with
  | [] => []
  | d :: days' => let '(n, last') := bump_zone_serial last d in n :: bumps last' days'
  end.

(** Both branches of the convention come to the same: today's base when that
    is ahead, one more otherwise. *)
Lemma next_serial_max current now :
  _next_serial current now = Z.max (ymd now * 100) (current + 1).
Proof.
  unfold _next_serial. rewrite Z.div_mul by done.
  pose proof (Z.div_mod current 100). pose proof (Z.mod_pos_bound current 100).
  repeat case_match; rewrite ?Z.ltb_lt, ?Z.ltb_ge, ?Z.eqb_eq in *; lia.
Qed.

Lemma compute_next_serial_range current now :
  let s := compute_next_serial current now in is_serial s ∧ 1 <= s.
Proof.
  cbv zeta. unfold compute_next_serial, is_serial, SERIAL_MODULUS.
  pose proof (Z.mod_pos_bound (_next_serial current now) (2 ^ 32) eq_refl).
  destruct (Z.eqb_spec (_next_serial current now mod 2 ^ 32) 0); lia.
Qed.

Lemma compute_next_serial_later current now :
  is_serial current → valid_date now → year now <= 2147 →
  later (compute_next_serial current now) current.
Proof.
  unfold is_serial, valid_date, later, compute_next_serial, SERIAL_MODULUS.
  intros Hc (Hy & Hm & Hd) Hy2. rewrite next_serial_max. unfold ymd.
  change (2 ^ 32) with 4294967296 in *. change (2 ^ 31) with 2147483648.
  set (b := (year now * 10000 + month now * 100 + day now) * 100).
  assert (0 <= b < 2147483648) as Hb by (unfold b; lia).
  destruct (Z.eqb_spec (Z.max b (current + 1) mod 4294967296) 0) as [E|E].
  - assert (current = 4294967295) as ->; [|by vm_compute].
    destruct (decide (current + 1 = 4294967296)); [lia|]. rewrite Z.mod_small in E by lia. lia.
  - assert (Z.max b (current + 1) ≠ 4294967296) by (intros H; by rewrite H in E).
    rewrite (Z.mod_small (Z.max b (current + 1))) by lia. rewrite Z.mod_small by lia. lia.
Qed.

(** C40 -- a zone's serial always moves forward: whatever 32-bit value is stored
    (or none), every bump stores the value it returns, which is a 32-bit serial,
    never the "never seeded" 0, and later than the one before it in RFC 1982
    arithmetic, also past 2^32 - 1 and whatever the clock does, up to the
    year 2147; within the YYYYMMDDNN range it is at least today's base. *)
Theorem bump_zone_serial_advances (last : option Z) (now : date) :
  is_serial (default 0 last) → valid_date now → year now <= 2147 →
  let '(s, stored) := bump_zone_serial last now in
  stored = Some s ∧ is_serial s ∧ 1 <= s ∧ later s (default 0 last)
  ∧ (default 0 last < SERIAL_MODULUS - 1 → default 0 last < s ∧ ymd now * 100 <= s).
Proof.
  intros Hc Hd Hy. simpl. pose proof (compute_next_serial_range (default 0 last) now) as [H1 H2].
  do 3 (split; [done|]). split; [by apply compute_next_serial_later|]. intros Hlt.
  unfold compute_next_serial, is_serial, valid_date, SERIAL_MODULUS, ymd in *.
  rewrite next_serial_max in *. unfold ymd in *. change (2 ^ 32) with 4294967296 in *.
  rewrite Z.mod_small in * by lia. destruct (Z.eqb_spec (Z.max
    ((year now * 10000 + month now * 100 + day now) * 100) (default 0 last + 1)) 0); lia.
Qed.

Lemma bump_zone_serial_advances_witness :
  later 1 4294967295 ∧ bump_zone_serial (Some 4294967295) (mkDate 2026 1 31) = (1, Some 1).
Proof.
  split; [|reflexivity].
  apply (bump_zone_serial_advances (Some 4294967295) (mkDate 2026 1 31));
    unfold is_serial, valid_date, SERIAL_MODULUS; simpl; lia.
Defined.

(** The bound on the year is needed: from 2148 on, a small serial jumps more
    than half the number space, which a secondary reads as going back. *)
Example late_year_goes_back : ¬ later (compute_next_serial 1 (mkDate 2148 1 1)) 1.
Proof. vm_compute. intros [_ H]. discriminate H. Qed.
End Serial.
