(* ===== verification/Lockout.v ===== *)
(** * Account lockout

    [backend/app/services/account_lockout.py]: the failed-login counter, the
    lock it sets, and the wrong-code budget of the second factor.  Instants and
    durations are microseconds; the user row is the record of the columns the
    module reads and writes ([None] is SQL NULL); [platform_setting_default]
    and the settings row reach the model as a [LockoutPolicy]. *)
From S2P Require Import Prelude.
#[local] Open Scope Z_scope.

Module Lockout.

Definition MFA_FAIL_MAX : Z := 5.
Definition MFA_FAIL_WINDOW_MINUTES : Z := 15.
Definition minutes (m : Z) : Z := m * 60 * 1000000.

Record LockoutPolicy := mkPolicy {
  threshold : Z; duration_minutes : Z; reset_minutes : Z }.

Definition enabled (p : LockoutPolicy) : bool := 0 <? threshold p.

Record User := mkUser {
  failed_login_count : option Z;
  failed_login_locked_until : option Z;
  last_failed_login_at : option Z;
  mfa_failed_count : option Z;
  mfa_last_failed_at : option Z;
}.

(** [x or 0], and the truth of a counter. *)
Definition count (x : option Z) : Z := default 0 x.
Definition nonzero (x : option Z) : bool := negb (count x =? 0).
Definition is_set (x : option Z) : bool := bool_decide (x ≠ None).

Definition is_locked (u : User) (now : Z) : bool :=
  match failed_login_locked_until u with
  | None => false
  | Some until => now <? until
  end.

Definition register_failure (u : User) (p : LockoutPolicy) (now : Z) : bool * User :=
  if negb (enabled p) then (false, u)
  else
    let old := match last_failed_login_at u with
               | Some t => minutes (reset_minutes p) <? now - t
               | None => false
               end in
    let n := count (if old then Some 0 else failed_login_count u) + 1 in
    let locks := threshold p <=? n in
    (locks,
     mkUser (Some n)
            (if locks then Some (now + minutes (duration_minutes p))
             else failed_login_locked_until u)
            (Some now) (mfa_failed_count u) (mfa_last_failed_at u)).

Definition register_success (u : User) : User :=
  let u1 := if nonzero (failed_login_count u) || is_set (failed_login_locked_until u)
            then mkUser (Some 0) None None (mfa_failed_count u) (mfa_last_failed_at u) else u in
  if nonzero (mfa_failed_count u1) || is_set (mfa_last_failed_at u1)
  then mkUser (failed_login_count u1) (failed_login_locked_until u1) (last_failed_login_at u1)
              (Some 0) None
  else u1.

Definition _mfa_window_open (u : User) (now : Z) : bool :=
  match mfa_last_failed_at u with
  | None => false
  | Some t => now - t <=? minutes MFA_FAIL_WINDOW_MINUTES
  end.

Definition mfa_attempts_exhausted (u : User) (now : Z) : bool :=
  (MFA_FAIL_MAX <=? count (mfa_failed_count u)) && _mfa_window_open u now.

(** [int(seconds)] truncates towards zero. *)
Definition mfa_retry_after_seconds (u : User) (now : Z) : Z :=
  match mfa_last_failed_at u with
  | None => 0
  | Some t => Z.max 1 (Z.quot (t + minutes MFA_FAIL_WINDOW_MINUTES - now) 1000000 + 1)
  end.

Definition register_mfa_failure (u : User) (now : Z) : bool * User :=
  let n := count (if negb (_mfa_window_open u now) then Some 0 else mfa_failed_count u) + 1 in
  (n =? MFA_FAIL_MAX,
   mkUser (failed_login_count u) (failed_login_locked_until u) (last_failed_login_at u)
          (Some n) (Some now)).

Definition unlock (u : User) : bool * User :=
  if bool_decide (failed_login_count u = Some 0)
     && bool_decide (failed_login_locked_until u = None)
     && bool_decide (last_failed_login_at u = None)
     && negb (nonzero (mfa_failed_count u))
     && bool_decide (mfa_last_failed_at u = None)
  then (false, u)
  else (true, mkUser (Some 0) None None (Some 0) None).

(** ** Repeated failures *)

(** Failed logins at the given instants, in order. *)
Fixpoint failures (u : User) (p : LockoutPolicy) (times : list Z) : User :=
  match times with
  | [] => u
  | t :: ts => failures (snd (register_failure u p t)) p ts
  end.

(** Each instant follows the one before it within [gap]. *)
Fixpoint within (gap : Z) (prev : Z) (times : list Z) : Prop :=
  match times with
  | [] => True
  | t :: ts => t - prev <= gap ∧ within gap t ts
  end.

(** Failures in a row, each within the window of the one before. *)
Definition chained (gap : Z) (burst : list Z) : Prop :=
  match burst with [] => False | t :: ts => within gap t ts end.

(** A lock is earned: as many failures in a row as the threshold asks for, and
    the lock's time after the last of them is not over. *)
Definition earned (p : LockoutPolicy) (times : list Z) (now : Z) : Prop :=
  ∃ pre burst post t, times = pre ++ burst ++ post ∧ chained (minutes (reset_minutes p)) burst
    ∧ threshold p <= Z.of_nat (length burst) ∧ last burst = Some t
    ∧ now < t + minutes (duration_minutes p).

(** No failure is on record. *)
Definition clean (u : User) : Prop :=
  count (failed_login_count u) = 0 ∧ failed_login_locked_until u = None
  ∧ last_failed_login_at u = None.

Lemma enabled_spec p : enabled p = true ↔ 0 < threshold p.
Proof. unfold enabled. apply Z.ltb_lt. Qed.

Lemma last_default {A} (l : list A) (d : A) : l ≠ [] → last l = Some (List.last l d).
Proof. induction l as [|x [|y l] IH]; intros H; [done|done|]. simpl in *. by apply IH. Qed.

Lemma failures_snoc u p times t :
  failures u p (times ++ [t]) = snd (register_failure (failures u p times) p t).
Proof. revert u. induction times as [|x xs IH]; intros u; [done|]. cbn [app failures]. apply IH. Qed.

Lemma within_snoc gap x l t : within gap x (l ++ [t]) ↔ within gap x l ∧ t - List.last l x <= gap.
Proof.
  revert x. induction l as [|y l IH]; intros x; cbn [app within]; [simpl; tauto|].
  rewrite IH. replace (List.last (y :: l) x) with (List.last l y); [tauto|].
  destruct l as [|z l]; [done|]. change (List.last (z :: l) y = List.last (z :: l) x).
  apply (inj Some). by rewrite <- !last_default.
Qed.

Lemma chained_snoc gap l t : chained gap (l ++ [t]) ↔
  l = [] ∨ chained gap l ∧ ∀ x, last l = Some x → t - x <= gap.
Proof.
  destruct l as [|x l]; cbn [app chained]; [cbn; tauto|]. rewrite within_snoc.
  assert (E : last (x :: l) = Some (List.last l x)).
  { destruct l as [|y l]; [done|]. by rewrite last_cons_cons, (last_default (y :: l) x). }
  rewrite E. split; [intros [H1 H2]; right; split; [done|]; by intros y [= <-]|].
  intros [|[H1 H2]]; [done|]. auto.
Qed.

Lemma sorted_app_l (l1 l2 : list Z) : Sorted Z.le (l1 ++ l2) → Sorted Z.le l1.
Proof.
  intros H%Sorted_StronglySorted; [|intros ???; lia].
  by eapply StronglySorted_Sorted, StronglySorted_app_1_l.
Qed.

Lemma sorted_app_r (l1 l2 : list Z) : Sorted Z.le (l1 ++ l2) → Sorted Z.le l2.
Proof.
  intros H%Sorted_StronglySorted; [|intros ???; lia].
  by eapply StronglySorted_Sorted, StronglySorted_app_1_r.
Qed.

Lemma sorted_last_le l x t : Sorted Z.le (l ++ [t]) → x ∈ l → x <= t.
Proof.
  intros H%Sorted_StronglySorted Hx; [|intros ???; lia].
  by apply (StronglySorted_app_1_elem_of Z.le l [t]); [..|left].
Qed.

(** What the columns hold after failures in order: the longest run of chained
    failures at the end, the last failure, and a lock that is earned. *)
Definition counted (p : LockoutPolicy) (times : list Z) (u : User) : Prop :=
  let gap := minutes (reset_minutes p) in
  last_failed_login_at u = last times
  ∧ (times = [] ∧ count (failed_login_count u) = 0
     ∨ ∃ pre burst, times = pre ++ burst ∧ chained gap burst
       ∧ count (failed_login_count u) = Z.of_nat (length burst))
  ∧ (∀ pre burst, times = pre ++ burst → chained gap burst →
       Z.of_nat (length burst) <= count (failed_login_count u))
  ∧ ∀ now, is_locked u now = true ↔ earned p times now.

Lemma earned_snoc p times t now : earned p (times ++ [t]) now ↔
  earned p times now
  ∨ now < t + minutes (duration_minutes p)
    ∧ ∃ pre burst, times ++ [t] = pre ++ burst ∧ chained (minutes (reset_minutes p)) burst
      ∧ threshold p <= Z.of_nat (length burst).
Proof.
  split.
  - intros (pre & burst & post & x & E & Hc & Hn & Hl & Hnow). destruct post as [|y post _] using rev_ind.
    + rewrite app_nil_r in E. right. destruct burst as [|z burst _] using rev_ind; [done|].
      rewrite last_snoc in Hl. rewrite (assoc (++)) in E. apply app_inj_tail in E as [-> ->]. simplify_eq.
      split; [done|]. exists pre, (burst ++ [x]). by rewrite (assoc (++)).
    + left. rewrite !(assoc (++)) in E. apply app_inj_tail in E as [-> ->].
      exists pre, burst, post, x. by rewrite (assoc (++)).
  - intros [(pre & burst & post & x & -> & H)|(Hnow & pre & burst & E & Hc & Hn)].
    + exists pre, burst, (post ++ [t]), x. by rewrite !(assoc (++)).
    + exists pre, burst, [], t. rewrite app_nil_r. split_and!; try done.
      destruct burst as [|z burst _] using rev_ind; [done|].
      rewrite (assoc (++)) in E. apply app_inj_tail in E as [_ ->]. by rewrite last_snoc.
Qed.

Lemma failures_counted p u times :
  enabled p = true → 0 <= count (failed_login_count u) → times ≠ [] →
  1 <= count (failed_login_count (failures u p times)).
Proof.
  intros He. revert u. induction times as [|x xs IH]; intros u Hu Hn; [done|].
  cbn [failures]. set (u' := snd (register_failure u p x)).
  assert (1 <= count (failed_login_count u')) as Hu'.
  { unfold u', register_failure. rewrite He. cbn [negb snd failed_login_count count default].
    simpl. destruct (last_failed_login_at u) as [l|]; [destruct (_ <? _)|]; simpl; lia. }
  destruct xs as [|y ys]; [done|]. apply IH; [lia|done].
Qed.

Lemma unlock_clean u : clean (snd (unlock u)).
Proof.
  unfold unlock. destruct (_ && _) eqn:E; [|done]. bool_hyps. unfold clean. simpl.
  split_and!; [|done..]. by rewrite H.
Qed.

Lemma success_clean u :
  clean u ∨ 1 <= count (failed_login_count u) → clean (register_success u).
Proof.
  unfold register_success. intros H.
  set (u1 := if _ || is_set (failed_login_locked_until u) then _ else u).
  assert (clean u1) as H1.
  { unfold u1. destruct (nonzero _ || _) eqn:E; [done|]. destruct H as [H|H]; [done|].
    apply orb_false_iff in E as [E _]. unfold nonzero in E. apply negb_false_iff, Z.eqb_eq in E. lia. }
  by destruct (nonzero (mfa_failed_count u1) || _).
Qed.

Lemma counted_start p u : clean u → counted p [] u.
Proof.
  intros (Hc & Hl & Ha). split_and!; [done|by left|..].
  - intros [|??] [|??] E Hch; try done.
  - intros now. unfold is_locked. rewrite Hl. split; [done|].
    intros (pre & burst & post & x & E & Hch & _). by destruct pre, burst.
Qed.

Lemma counted_step p u times t :
  enabled p = true → Sorted Z.le (times ++ [t]) → counted p times u →
  counted p (times ++ [t]) (snd (register_failure u p t)).
Proof.
  intros He Hs (Hl & Hrun & Hmax & Hlock). apply enabled_spec in He as Hp.
  unfold register_failure. rewrite He. cbn [negb snd]. rewrite Hl.
  set (old := match last times with Some t0 => _ | None => false end).
  set (n := count _ + 1). set (gap := minutes (reset_minutes p)) in *.
  assert (Hreset : old = true → ∃ x, last times = Some x ∧ gap < t - x).
  { unfold old. destruct (last times) as [x|]; [|done]. intros ?%Z.ltb_lt. eauto. }
  assert (Hkeep : old = false → ∀ x, last times = Some x → t - x <= gap).
  { unfold old. intros H x Hx. rewrite Hx in H. by apply Z.ltb_ge in H. }
  assert (Hn : n = if old then 1 else count (failed_login_count u) + 1) by (unfold n; by destruct old).
  assert (Hnow_run : ∃ pre burst, times ++ [t] = pre ++ burst ∧ chained gap burst ∧ n = Z.of_nat (length burst)).
  { rewrite Hn. destruct old; [by exists times, [t]|].
    destruct Hrun as [[-> ->]|(pre & burst & -> & Hch & ->)]; [by exists [], [t]|].
    exists pre, (burst ++ [t]). split_and!; [by rewrite (assoc (++))| |rewrite length_app; simpl; lia].
    apply chained_snoc. right. split; [done|]. intros x Hx. apply Hkeep; [done|]. by rewrite last_app, Hx. }
  assert (Hnow_max : ∀ pre burst, times ++ [t] = pre ++ burst → chained gap burst → Z.of_nat (length burst) <= n).
  { intros pre burst E Hch. destruct burst as [|z burst _] using rev_ind; [done|].
    rewrite (assoc (++)) in E. apply app_inj_tail in E as [-> ->].
    rewrite length_app. simpl. apply chained_snoc in Hch as [->|[Hch Hx]]; [|rewrite Hn; destruct old].
    - rewrite Hn. destruct old; simpl; [lia|]. destruct Hrun as [[_ ->]|(? & ? & _ & _ & ->)]; lia.
    - destruct (Hreset eq_refl) as (x & Hlx & Hgap). destruct burst as [|w burst _] using rev_ind; [done|].
      rewrite (assoc (++)), last_snoc in Hlx. simplify_eq. rewrite last_snoc in Hx. specialize (Hx x eq_refl). lia.
    - specialize (Hmax pre burst eq_refl Hch). lia. }
  split_and!; [by rewrite last_snoc|by right|done|]. intros now. rewrite earned_snoc, <- Hlock. fold gap.
  destruct (Z.leb_spec (threshold p) n) as [Hthr|Hthr]; unfold is_locked at 1; cbn [failed_login_locked_until].
  - rewrite Z.ltb_lt. split.
    + intros H. right. split; [done|]. destruct Hnow_run as (pre & burst & E & Hch & Hlen).
      exists pre, burst. split_and!; [done..|lia].
    + intros [H|[H _]]; [|done]. apply Hlock in H as (pre & burst & post & x & -> & _ & _ & Hx & H).
      enough (x <= t) by lia. apply (sorted_last_le _ _ _ Hs). apply last_Some_elem_of in Hx. set_solver.
  - change (match failed_login_locked_until u with Some _ => _ | None => false end) with (is_locked u now).
    split; [by left|]. intros [H|(_ & pre & burst & E & Hch & Hb)]; [done|]. specialize (Hnow_max pre burst E Hch). lia.
Qed.

Lemma failures_counted_exactly p u times :
  enabled p = true → clean u → Sorted Z.le times → counted p times (failures u p times).
Proof.
  intros He Hu. induction times as [|t times IH] using rev_ind; intros Hs; [by apply counted_start|].
  rewrite failures_snoc. apply counted_step; [done..|]. apply IH. by eapply sorted_app_l.
Qed.

Lemma sorted_within gap x y times :
  Sorted Z.le (x :: times) → (∀ z, z ∈ times → z <= y) → y - x <= gap → within gap x times.
Proof.
  revert x. induction times as [|z zs IH]; intros x Hs Hle Hg; [done|].
  apply Sorted_inv in Hs as [Hs Hh]. inversion Hh; subst.
  split; [specialize (Hle z ltac:(left)); lia|]. apply IH; [done| |].
  - intros w Hw. apply Hle. by right.
  - lia.
Qed.

(** In order, what fits in one window is chained. *)
Lemma rolling_chained gap burst a b :
  Sorted Z.le burst → head burst = Some a → last burst = Some b → b - a <= gap → chained gap burst.
Proof.
  intros Hs Ha Hb Hg. destruct burst as [|x burst]; [done|]. simpl in Ha. simplify_eq. cbn [chained].
  apply (sorted_within _ _ b); [done| |done].
  destruct burst as [|y burst _] using rev_ind; [by intros z ?%not_elem_of_nil|].
  rewrite app_comm_cons, last_snoc in Hb. simplify_eq.
  intros z [Hz| ->%list_elem_of_singleton]%elem_of_app; [|lia].
  apply (sorted_last_le (a :: burst) z b); [by rewrite <- app_comm_cons|by right].
Qed.

(** What is never within the window of the failure before is chained alone. *)
Lemma apart_chained gap times pre burst post :
  (∀ i x y, times !! i = Some x → times !! S i = Some y → gap < y - x) →
  times = pre ++ burst ++ post → chained gap burst → length burst = 1%nat.
Proof.
  intros H -> Hc. destruct burst as [|x [|y burst]]; [done|done|]. destruct Hc as [Hc _].
  assert (gap < y - x); [|lia]. apply (H (length pre)); rewrite lookup_app_r by lia.
  - by rewrite Nat.sub_diag.
  - by replace (S (length pre) - length pre)%nat with 1%nat by lia.
Qed.

(** ** Claims *)

(** C38 -- what locks an account.  From a clean account, after failures at
    instants in order and with lockout enabled, the account is locked exactly
    while a lock is earned: some failures in a row, each within the reset window
    of the one before and as many as the threshold, the lock's time after the
    last of them not over.  So as many failures as the threshold inside one
    rolling window always lock it, wherever they stand, and with a threshold
    above one failures that are all more than the window apart never do.  With
    lockout disabled a failure changes nothing; a success or an unlock leaves
    nothing on record. *)
Theorem lockout_threshold (p : LockoutPolicy) (u : User) (times : list Z) (now : Z) :
  clean u → Sorted Z.le times →
  (enabled p = true → is_locked (failures u p times) now = true ↔ earned p times now)
  ∧ (enabled p = true → ∀ pre burst post a b, times = pre ++ burst ++ post →
       head burst = Some a → last burst = Some b → b - a <= minutes (reset_minutes p) →
       threshold p <= Z.of_nat (length burst) → now < b + minutes (duration_minutes p) →
       is_locked (failures u p times) now = true)
  ∧ (enabled p = true → 1 < threshold p →
       (∀ i x y, times !! i = Some x → times !! S i = Some y → minutes (reset_minutes p) < y - x) →
       is_locked (failures u p times) now = false)
  ∧ (enabled p = false → failures u p times = u)
  ∧ clean (snd (unlock (failures u p times)))
  ∧ clean (register_success (failures u p times)).
Proof.
  intros Hu Hs.
  assert (L : enabled p = true → is_locked (failures u p times) now = true ↔ earned p times now)
    by (intros He; by apply failures_counted_exactly).
  assert (D : enabled p = false → failures u p times = u).
  { intros He. clear -He. revert u. induction times as [|t ts IH]; intros u; [done|]. cbn [failures].
    unfold register_failure. rewrite He. apply IH. }
  split_and!; [exact L|..|exact D|apply unlock_clean|].
  - intros He pre burst post a b E Ha Hb Hg Hn Hnow. apply (L He). exists pre, burst, post, b. split_and!; try done.
    apply (rolling_chained _ _ a b); [|done..]. rewrite E in Hs.
    by apply sorted_app_r in Hs; apply sorted_app_l in Hs.
  - intros He H1 Hap. apply not_true_iff_false. rewrite (L He).
    intros (pre & burst & post & b & E & Hc & Hn & _). rewrite (apart_chained _ _ _ _ _ Hap E Hc) in Hn. lia.
  - apply success_clean. destruct (enabled p) eqn:He; [|left; by rewrite D].
    destruct (decide (times = [])) as [->|Hne]; [by left|]. right. apply failures_counted; [done| |done].
    destruct Hu as (-> & _). done.
Qed.

(** Three failures inside one window of five minutes, with others before and
    after, lock the account. *)
Lemma lockout_threshold_witness :
  let u := mkUser (Some 0) None None (Some 0) None in
  is_locked (failures u (mkPolicy 3 10 5)
    [0; minutes 20; minutes 22; minutes 24; minutes 31]) (minutes 33) = true.
Proof.
  cbv zeta.
  destruct (lockout_threshold (mkPolicy 3 10 5) (mkUser (Some 0) None None (Some 0) None)
    [0; minutes 20; minutes 22; minutes 24; minutes 31] (minutes 33)) as (_ & H & _).
  - split_and!; reflexivity.
  - repeat constructor; unfold minutes; lia.
  - apply (H eq_refl [0] [minutes 20; minutes 22; minutes 24] [minutes 31] (minutes 20) (minutes 24));
      (reflexivity || (unfold minutes; simpl; lia)).
Defined.

(** The counter chains: the window is measured from the failure before.  Of
    the failures at 0, 4 and 8 minutes no three are inside one window of five,
    yet the third locks. *)
Example chained_failures_lock :
  is_locked (failures (mkUser (Some 0) None None (Some 0) None) (mkPolicy 3 10 5)
    [0; minutes 4; minutes 8]) (minutes 17) = true
  ∧ minutes (reset_minutes (mkPolicy 3 10 5)) < minutes 8 - 0.
Proof. split; vm_compute; reflexivity. Qed.

(** ** The second factor *)

(** The sign-in handler asks first and registers only the attempts it lets
    through: wrong codes at the given instants, all let through. *)
Fixpoint mfa_run (u : User) (times : list Z) : option User :=
  match times with
  | [] => Some u
  | t :: ts => if mfa_attempts_exhausted u t then None
               else mfa_run (snd (register_mfa_failure u t)) ts
  end.

Lemma mfa_window_spec u t now :
  mfa_last_failed_at u = Some t →
  (_mfa_window_open u now = true ↔ now - t <= minutes MFA_FAIL_WINDOW_MINUTES).
Proof. intros H. unfold _mfa_window_open. rewrite H. apply Z.leb_le. Qed.

Lemma register_mfa_counts u t now :
  mfa_last_failed_at u = Some t → now - t <= minutes MFA_FAIL_WINDOW_MINUTES →
  count (mfa_failed_count (snd (register_mfa_failure u now))) = count (mfa_failed_count u) + 1.
Proof.
  intros Ht Hn. unfold register_mfa_failure. cbn [snd mfa_failed_count].
  by rewrite (proj2 (mfa_window_spec u t now Ht) Hn).
Qed.

(** Inside an open window the count grows with every attempt let through. *)
Lemma mfa_run_counts u t times v :
  mfa_last_failed_at u = Some t → within (minutes MFA_FAIL_WINDOW_MINUTES) t times →
  times ≠ [] → mfa_run u times = Some v →
  count (mfa_failed_count u) + Z.of_nat (length times) <= MFA_FAIL_MAX.
Proof.
  revert u t. induction times as [|x xs IH]; intros u t Ht Hw Hne Hr; [done|].
  destruct Hw as [Hx Hw]. cbn [mfa_run] in Hr.
  destruct (mfa_attempts_exhausted u x) eqn:Ee; [done|].
  unfold mfa_attempts_exhausted in Ee.
  rewrite (proj2 (mfa_window_spec u t x Ht) Hx), andb_true_r in Ee. apply Z.leb_gt in Ee.
  destruct xs as [|y ys]; [simpl length; lia|].
  assert (H := IH (snd (register_mfa_failure u x)) x eq_refl Hw ltac:(done) Hr).
  rewrite (register_mfa_counts u t x Ht Hx) in H. simpl length in *. lia.
Qed.

Lemma mfa_run_app u ts1 ts2 v :
  mfa_run u (ts1 ++ ts2) = Some v → ∃ w, mfa_run u ts1 = Some w ∧ mfa_run w ts2 = Some v.
Proof.
  revert u. induction ts1 as [|t ts IH]; intros u H; simpl in *; [eauto|].
  destruct (mfa_attempts_exhausted u t); [done|]. auto.
Qed.

Lemma mfa_run_nonneg u ts v :
  0 <= count (mfa_failed_count u) → mfa_run u ts = Some v → 0 <= count (mfa_failed_count v).
Proof.
  revert u. induction ts as [|t ts IH]; intros u Hu H; simpl in *; [by simplify_eq|].
  destruct (mfa_attempts_exhausted u t); [done|]. apply IH in H; [done|]. simpl.
  destruct (negb (_mfa_window_open u t)); simpl; lia.
Qed.

(** Six attempts in a row do not fit in a window. *)
Lemma mfa_six u t1 mid b v :
  0 <= count (mfa_failed_count u) → length mid = 5%nat → Sorted Z.le (t1 :: mid) →
  (∀ z, z ∈ mid → z <= b) → mfa_run u (t1 :: mid) = Some v →
  minutes MFA_FAIL_WINDOW_MINUTES < b - t1.
Proof.
  intros Hu Hlen Hs Hb Hr. destruct (Z.lt_ge_cases (minutes MFA_FAIL_WINDOW_MINUTES) (b - t1))
    as [|Hge]; [done|]. exfalso.
  pose proof (sorted_within _ _ _ _ Hs Hb Hge) as Hwi. cbn [mfa_run] in Hr.
  destruct (mfa_attempts_exhausted u t1); [done|].
  pose proof (mfa_run_counts (snd (register_mfa_failure u t1)) t1 mid v eq_refl Hwi ltac:(by destruct mid) Hr) as H.
  rewrite Hlen in H. simpl in H. unfold MFA_FAIL_MAX in H.
  destruct (negb (_mfa_window_open u t1)); simpl in H; lia.
Qed.

Lemma sorted_lookup_le l i j x y :
  Sorted Z.le l → l !! i = Some x → l !! j = Some y → (i ≤ j)%nat → x <= y.
Proof.
  intros Hs Hi Hj Hij. apply Sorted_StronglySorted in Hs; [|intros ???; lia].
  revert i j Hi Hj Hij. induction Hs as [|z l Hs IH Hz]; intros i j Hi Hj Hij; [done|].
  destruct i as [|i], j as [|j]; simpl in *; simplify_eq; try lia.
  - eapply Forall_lookup_1 in Hz; [|exact Hj]. done.
  - eapply IH; [done..|lia].
Qed.

(** The wrong-code budget holds: of the attempts the guard lets through,
    at non-decreasing instants and whatever was on record before, no six fall
    within one window of fifteen minutes; and the advertised retry delay is
    enough: once it has passed the guard lets an attempt through. *)
Theorem mfa_budget (u v : User) (times : list Z) (i : nat) (a b now : Z) :
  0 <= count (mfa_failed_count u) → Sorted Z.le times → mfa_run u times = Some v →
  times !! i = Some a → times !! (i + 5)%nat = Some b →
  minutes MFA_FAIL_WINDOW_MINUTES < b - a
  ∧ mfa_attempts_exhausted u (now + mfa_retry_after_seconds u now * 1000000) = false.
Proof.
  intros Hu Hs Hr Ha Hb. split.
  - rewrite <- (take_drop_middle times i a Ha) in Hr.
    apply mfa_run_app in Hr as (w & Hw & Hr). apply mfa_run_nonneg in Hw; [|done].
    rewrite <- (take_drop 5 (drop (S i) times)), app_comm_cons in Hr.
    apply mfa_run_app in Hr as (x & Hx & _).
    eapply (mfa_six w a (take 5 (drop (S i) times))); [done| | | |exact Hx].
    + apply lookup_lt_Some in Hb. rewrite length_take, length_drop. lia.
    + apply (sorted_app_r (take i times)), (sorted_app_l _ (drop 5 (drop (S i) times))).
      by rewrite <- (assoc (++)), <- app_comm_cons, take_drop, take_drop_middle.
    + intros z (k & Hk)%list_elem_of_lookup.
      apply lookup_take_Some in Hk as [Hk Hlt]. rewrite lookup_drop in Hk.
      eapply (sorted_lookup_le times (S i + k) (i + 5)); [done..|lia].
  - unfold mfa_attempts_exhausted, mfa_retry_after_seconds, _mfa_window_open.
    destruct (mfa_last_failed_at u) as [t|]; [|by rewrite andb_false_r].
    apply andb_false_iff. right. apply Z.leb_gt.
    set (left := t + minutes MFA_FAIL_WINDOW_MINUTES - now).
    assert (left < Z.max 1 (Z.quot left 1000000 + 1) * 1000000); [|unfold left in *; lia].
    destruct (Z.lt_ge_cases left 0); [lia|]. pose proof (Z.quot_div_nonneg left 1000000).
    pose proof (Z.div_mod left 1000000). pose proof (Z.mod_pos_bound left 1000000). lia.
Qed.

Lemma mfa_budget_witness :
  let u := mkUser (Some 0) None None (Some 0) None in
  let times := [0; 1; 2; 3; 4; 5 + minutes 15] in
  minutes MFA_FAIL_WINDOW_MINUTES < (5 + minutes 15) - 0.
Proof.
  cbv zeta.
  refine (proj1 (mfa_budget (mkUser (Some 0) None None (Some 0) None) _
    [0; 1; 2; 3; 4; 5 + minutes 15] 0 _ _ 0 _ _ _ _ _)).
  - simpl. lia.
  - repeat constructor; unfold minutes; lia.
  - reflexivity.
  - reflexivity.
  - reflexivity.
Defined.
End Lockout.
