(* ===== verification/Rrset.v ===== *)
(** * The RRset an operation ships

    [backend/app/services/dns/rrset.py]: every record operation of a batch is
    stamped with the complete RRset its name and type should end up with.  An
    operation payload is a record of the dict keys the module reads ([None] for
    a missing key or null); the [dns_record] table is the list of its live rows
    in query order; a payload belongs to one operation. *)
From S2P Require Import Prelude PyStr.

Module Rrset.

(** ** Data *)
Abbreviation rkey := (str * str)%type.

Record member := mkMember {
  m_value : str;
  m_ttl : option Z;
  m_priority : option Z;
  m_weight : option Z;
  m_port : option Z;
  m_id : option str;
}.

(** A member and the set as they go on the wire. *)
Record wire_member := mkWire {
  w_value : str; w_priority : option Z; w_weight : option Z; w_port : option Z }.

Record wire_rrset := mkRrset { w_ttl : Z; w_members : list wire_member }.

Record payload := mkPayload {
  p_type : option str;
  p_name : option str;
  p_value : option str;
  p_ttl : option Z;
  p_priority : option Z;
  p_weight : option Z;
  p_port : option Z;
  p_record_id : option str;
  p_rrset_action : option str;
  p_rrset : option wire_rrset;
}.

Record record_op := mkOp { o_op : str; o_record : payload }.

Record DNSRecord := mkRow {
  d_id : str;
  d_zone_id : str;
  d_name : str;
  d_type : str;
  d_value : str;
  d_ttl : option Z;
  d_priority : option Z;
  d_weight : option Z;
  d_port : option Z;
}.

#[export] Instance member_eq_dec : EqDecision member.
Proof. solve_decision. Defined.
#[export] Instance wire_member_eq_dec : EqDecision wire_member.
Proof. solve_decision. Defined.
#[export] Instance wire_rrset_eq_dec : EqDecision wire_rrset.
Proof. solve_decision. Defined.
#[export] Instance payload_eq_dec : EqDecision payload.
Proof. solve_decision. Defined.
#[export] Instance record_op_eq_dec : EqDecision record_op.
Proof. solve_decision. Defined.

(** ** Operations *)
Definition RRSET_OPS : list str := ["create"; "update"; "delete"].
Definition _NAME_CHUNK : nat := 5000.
Definition DNS_TTL_MAX : Z := 2147483647.
Definition ZONE_DEFAULT_TTL : Z := 3600.

(** [x or d] on a string that may be missing. *)
Definition str_or (x : option str) (d : str) : str :=
  match x with Some (c :: s) => c :: s | _ => d end.

Definition rrset_key (r : payload) : option rkey :=
  match p_type r with
  | None | Some [] => None
  | Some t => if bool_decide (t = "DNSSEC_OP") then None
              else Some (lower (str_or (p_name r) "@"), upper t)
  end.

Definition rrset_target (op : str) (r : payload) : option rkey :=
  if negb (bool_decide (op ∈ RRSET_OPS)) || bool_decide (p_value r = None) then None
  else rrset_key r.

(** [_member] of an operation's payload and of a row. *)
Definition _member_of_payload (r : payload) : member :=
  mkMember (str_or (p_value r) []) (p_ttl r) (p_priority r) (p_weight r) (p_port r)
           (p_record_id r).

Definition _member_of_row (d : DNSRecord) : member :=
  mkMember (d_value d) (d_ttl d) (d_priority d) (d_weight d) (d_port d) (Some (d_id d)).

Definition _same_rr (a b : member) : bool :=
  bool_decide (strip is_space (m_value a) = strip is_space (m_value b))
  && bool_decide (m_priority a = m_priority b) && bool_decide (m_weight a = m_weight b)
  && bool_decide (m_port a = m_port b).

Definition row_key (d : DNSRecord) : rkey :=
  (lower (str_or (Some (d_name d)) "@"), upper (d_type d)).

(** [names[start : start + _NAME_CHUNK]] for each start. *)
Fixpoint chunks (fuel n : nat) (l : list str) : list (list str) :=
  match fuel, l with
  | _, [] => []
  | O, _ => []
  | S fuel', _ => take n l :: chunks fuel' n (drop n l)
  end.

(** [if key in out: out[key].append(...)] *)
Definition add_row (out : gmap rkey (list member)) (d : DNSRecord) : gmap rkey (list member) :=
  match out !! row_key d with
  | Some ms => <[row_key d := ms ++ [_member_of_row d]]> out
  | None => out
  end.

Definition query (table : list DNSRecord) (zone : str) (names : list str) : list DNSRecord :=
  List.filter (λ d, bool_decide (d_zone_id d = zone) && bool_decide (lower (d_name d) ∈ names))
    table.

Definition resolve_rrsets (table : list DNSRecord) (zone : str) (keys : gset rkey)
    : gmap rkey (list member) :=
  let names := merge_sort str_le (elements (set_map fst keys : gset str)) in
  foldl (λ out ns, foldl add_row out (query table zone ns))
        (gset_to_gmap [] keys) (chunks (length names) _NAME_CHUNK names).

Fixpoint unique_go (kept : list member) (l : list member) : list member :=
  match l with
  | [] => kept
  | m :: l' => if existsb (_same_rr m) kept then unique_go kept l'
               else unique_go (kept ++ [m]) l'
  end.

Definition _fold (op : str) (r : payload) (members : list member) : list member :=
  let own := _member_of_payload r in
  let desired :=
    if bool_decide (op = "delete") && negb (bool_decide (m_id own = None))
    then List.filter (λ m, negb (bool_decide (m_id m = m_id own))) members
    else List.filter (λ m, negb (_same_rr m own)) members
         ++ (if bool_decide (op = "delete") then [] else [own]) in
  unique_go [] desired.

Definition servable_ttl (ttl : option Z) : option Z :=
  match ttl with
  | Some t => if (t <? 0)%Z || (DNS_TTL_MAX <? t)%Z then None else Some t
  | None => None
  end.

Definition min_or (l : list Z) (d : Z) : Z :=
  match l with [] => d | x :: l' => foldl Z.min x l' end.

Definition _rrset_payload (members : list member) (zone_ttl : option Z) : wire_rrset :=
  let default_ttl := default ZONE_DEFAULT_TTL (servable_ttl zone_ttl) in
  let ttls := map (λ m, default default_ttl (servable_ttl (m_ttl m))) members in
  mkRrset (min_or ttls default_ttl)
          (map (λ m, mkWire (m_value m) (m_priority m) (m_weight m) (m_port m)) members).

Definition stampable (agentless : bool) (o : record_op) : bool :=
  bool_decide (str_or (p_rrset_action (o_record o)) [] = [])
  || (agentless && bool_decide (o_op o = "update")
      && bool_decide (p_rrset_action (o_record o) = Some "add")).

Definition target (o : record_op) : option rkey := rrset_target (o_op o) (o_record o).

Definition with_rrset (o : record_op) (w : wire_rrset) : record_op :=
  let r := o_record o in
  mkOp (o_op o) (mkPayload (p_type r) (p_name r) (p_value r) (p_ttl r) (p_priority r)
                  (p_weight r) (p_port r) (p_record_id r) (p_rrset_action r) (Some w)).

Definition fold_step (final : gmap rkey (list member)) (o : record_op) : gmap rkey (list member) :=
  match target o with
  | Some k => <[k := _fold (o_op o) (o_record o) (default [] (final !! k))]> final
  | None => final
  end.

Definition stamp_rrsets_for_ops (table : list DNSRecord) (zone : str) (zone_ttl : option Z)
    (agentless : bool) (ops : list record_op) : list record_op :=
  let sts := List.filter (stampable agentless) ops in
  let keys : gset rkey := list_to_set (omap target sts) in
  if bool_decide (keys = ∅) then ops
  else
    let final := foldl fold_step (resolve_rrsets table zone keys) sts in
    map (λ o, if stampable agentless o then
                match target o with
                | Some k => with_rrset o (_rrset_payload (default [] (final !! k)) zone_ttl)
                | None => o
                end
              else o) ops.

(** ** Specification *)

(** What makes two members one resource record. *)
Definition rr_of (m : member) : str * option Z * option Z * option Z :=
  (strip is_space (m_value m), m_priority m, m_weight m, m_port m).

(** *** The record set a batch should leave, told by its holders

    A record is held by the live rows of the key and by what the batch writes. *)
Definition written (o : record_op) : member :=
  let r := o_record o in
  mkMember (default [] (p_value r)) (p_ttl r) (p_priority r) (p_weight r) (p_port r) (p_record_id r).

Definition standing (table : list DNSRecord) (zone : str) (k : rkey) (m : member) : Prop :=
  ∃ d, d ∈ table ∧ d_zone_id d = zone ∧ lower (d_name d) = fst k ∧ upper (d_type d) = snd k
    ∧ m = mkMember (d_value d) (d_ttl d) (d_priority d) (d_weight d) (d_port d) (Some (d_id d)).

(** A delete that names a row takes out that row, one that names none every
    holder of its record. *)
Definition takes_out (o : record_op) (m : member) : Prop :=
  o_op o = "delete" ∧ match p_record_id (o_record o) with
                      | Some i => m_id m = Some i
                      | None => rr_of m = rr_of (written o)
                      end.

(** [m] is left once [ops] ran: a row no operation takes out, or a member an
    operation writes and no later one takes out. *)
Definition stands (rows : member → Prop) (ops : list record_op) (m : member) : Prop :=
  (rows m ∧ ∀ o, o ∈ ops → ¬ takes_out o m)
  ∨ ∃ pre o post, ops = pre ++ o :: post ∧ o_op o ≠ "delete" ∧ m = written o ∧ ∀ o', o' ∈ post → ¬ takes_out o' m.

(** No operation after the first deletes a row whose record another member
    that is left holds too.  (The first operation finds every row; what a later
    one finds was de-duplicated.) *)
Definition twin_free (rows : member → Prop) (ops : list record_op) : Prop :=
  ∀ pre o post i m m', ops = pre ++ o :: post → pre ≠ [] →
    o_op o = "delete" → p_record_id (o_record o) = Some i →
    stands rows pre m → stands rows pre m' → m_id m = Some i → rr_of m' = rr_of m → m_id m' = Some i.

(** The operations of a batch on one key. *)
Definition ops_on (agentless : bool) (ops : list record_op) (k : rkey) : list record_op :=
  List.filter (λ o, stampable agentless o && bool_decide (target o = Some k)) ops.

(** The TTL a member asks for. *)
Definition asked_ttl (zone_ttl : option Z) (m : member) : Z :=
  match servable_ttl (m_ttl m) with
  | Some t => t
  | None => match servable_ttl zone_ttl with Some t => t | None => ZONE_DEFAULT_TTL end
  end.

(** *** The folds of the code, per key

    The live members of a key, and the set a batch ends with. *)
Definition live (table : list DNSRecord) (zone : str) (k : rkey) : list member :=
  map _member_of_row (List.filter (λ d, bool_decide (d_zone_id d = zone)
    && bool_decide (lower (d_name d) = fst k) && bool_decide (upper (d_type d) = snd k)) table).

Definition apply_op (ms : list member) (o : record_op) : list member :=
  _fold (o_op o) (o_record o) ms.

Definition final_set (table : list DNSRecord) (zone : str) (agentless : bool)
    (ops : list record_op) (k : rkey) : list member :=
  foldl apply_op (live table zone k) (ops_on agentless ops k).

(** ** Resource records *)
Lemma same_rr_spec a b : _same_rr a b = true ↔ rr_of a = rr_of b.
Proof.
  unfold _same_rr, rr_of. rewrite !andb_true_iff, !bool_decide_eq_true.
  split; [intros [[[-> ->] ->] ->]; done|intros [= -> -> -> ->]; done].
Qed.

Lemma same_rr_false a b : _same_rr a b = false ↔ rr_of a ≠ rr_of b.
Proof. rewrite <- same_rr_spec. by destruct (_same_rr a b). Qed.

Lemma exists_same m kept : existsb (_same_rr m) kept = true ↔ rr_of m ∈ map rr_of kept.
Proof.
  rewrite existsb_elem, list_elem_of_fmap.
  split; intros (y & H1 & H2); exists y; by rewrite same_rr_spec in *.
Qed.

Lemma unique_go_spec kept l :
  NoDup (map rr_of kept) →
  NoDup (map rr_of (unique_go kept l))
  ∧ (∀ m, m ∈ kept → m ∈ unique_go kept l)
  ∧ (∀ m, m ∈ unique_go kept l → m ∈ kept ∨ m ∈ l)
  ∧ ∀ m, m ∈ l → rr_of m ∈ map rr_of (unique_go kept l).
Proof.
  revert kept. induction l as [|x l IH]; intros kept Hk; simpl.
  { split_and!; [done|done|auto|]. intros m []%not_elem_of_nil. }
  destruct (existsb (_same_rr x) kept) eqn:E.
  - destruct (IH kept Hk) as (I1 & I2 & I3 & I4). split_and!; [done|done| |].
    + intros m Hm. rewrite elem_of_cons. destruct (I3 m Hm); auto.
    + intros m [->|Hm]%elem_of_cons; [|auto]. apply exists_same, list_elem_of_fmap in E as (y & -> & Hy).
      apply list_elem_of_fmap. eauto.
  - assert (Hn : rr_of x ∉ map rr_of kept) by (rewrite <- exists_same; by rewrite E).
    destruct (IH (kept ++ [x])) as (I1 & I2 & I3 & I4).
    { rewrite List.map_app. apply NoDup_app. split_and!; [done| |apply NoDup_singleton].
      intros y Hy ->%list_elem_of_singleton. done. }
    split_and!; [done| | |].
    + intros m Hm. apply I2, elem_of_app. by left.
    + intros m Hm. rewrite elem_of_cons. destruct (I3 m Hm) as [[?|?%list_elem_of_singleton]%elem_of_app|]; auto.
    + intros m [->|Hm]%elem_of_cons; [|auto]. apply list_elem_of_fmap. exists x.
      split; [done|]. apply I2, elem_of_app. right. left.
Qed.

(** A member whose record is held by no other member survives. *)
Lemma unique_keeps l m :
  m ∈ l → (∀ m', m' ∈ l → rr_of m' = rr_of m → m' = m) → m ∈ unique_go [] l.
Proof.
  intros Hm Hu. destruct (unique_go_spec [] l) as (_ & _ & H3 & H4); [constructor|].
  specialize (H4 m Hm). apply list_elem_of_fmap in H4 as (m' & E & Hm').
  destruct (H3 m' Hm') as [[]%not_elem_of_nil|Hl]. by rewrite (Hu m' Hl (eq_sym E)) in Hm'.
Qed.

(** ** One operation *)

(** What an operation takes out of the set, besides duplicates. *)
Definition drops (o : record_op) (m : member) : Prop :=
  if bool_decide (o_op o = "delete") && negb (bool_decide (p_record_id (o_record o) = None))
  then m_id m = p_record_id (o_record o)
  else rr_of m = rr_of (_member_of_payload (o_record o)).

Definition adds (o : record_op) (m : member) : Prop :=
  o_op o ≠ "delete" ∧ m = _member_of_payload (o_record o).

Lemma apply_op_spec ms o :
  NoDup (map rr_of (apply_op ms o))
  ∧ (∀ m, m ∈ apply_op ms o → adds o m ∨ (m ∈ ms ∧ ¬ drops o m))
  ∧ (∀ m, adds o m → m ∈ apply_op ms o)
  ∧ (∀ m, m ∈ ms → ¬ drops o m → rr_of m ∈ map rr_of (apply_op ms o)).
Proof.
  unfold apply_op, _fold, drops, adds. cbn [m_id _member_of_payload].
  destruct (bool_decide (o_op o = "delete") && negb (bool_decide (p_record_id (o_record o) = None))) eqn:E.
  - bool_hyps. edestruct (unique_go_spec []) as (I1 & _ & I3 & I4); [apply NoDup_nil_2|].
    split_and!; [exact I1| | |].
    + intros m Hm. destruct (I3 m Hm) as [[]%not_elem_of_nil|Hl]. right.
      apply elem_filter in Hl as [Hl Hn]. by bool_hyps.
    + intros m [Hn _]. done.
    + intros m Hm Hn. apply I4, elem_filter. split; [done|]. by rewrite bool_decide_false.
  - edestruct (unique_go_spec []) as (I1 & _ & I3 & I4); [apply NoDup_nil_2|].
    split_and!; [exact I1| | |].
    + intros m Hm. destruct (I3 m Hm) as [[]%not_elem_of_nil|Hl].
      apply elem_of_app in Hl as [Hl|Hl].
      * right. apply elem_filter in Hl as [Hl Hn]. split; [done|].
        apply same_rr_false. by bool_hyps.
      * left. case_bool_decide; [by apply not_elem_of_nil in Hl|]. by apply list_elem_of_singleton in Hl.
    + intros m [Hn ->]. apply unique_keeps.
      * apply elem_of_app. right. rewrite bool_decide_false by done. left.
      * intros m' [Hl|Hl]%elem_of_app Hs.
        -- apply elem_filter in Hl as [_ Hl]. by apply negb_true_iff, same_rr_false in Hl.
        -- rewrite bool_decide_false in Hl by done. by apply list_elem_of_singleton in Hl.
    + intros m Hm Hn. apply I4, elem_of_app. left. apply elem_filter. split; [done|].
      by apply negb_true_iff, same_rr_false.
Qed.

(** ** The query *)
Lemma add_rows_lookup out ds k :
  foldl add_row out ds !! k
  = (λ ms, ms ++ map _member_of_row (List.filter (λ d, bool_decide (row_key d = k)) ds)) <$> out !! k.
Proof.
  revert out. induction ds as [|d ds IH]; intros out; simpl.
  { destruct (out !! k); simpl; by rewrite ?app_nil_r. }
  rewrite IH. unfold add_row. case_bool_decide as E.
  - subst k. destruct (out !! row_key d) as [ms|] eqn:El.
    + rewrite lookup_insert_eq. simpl. by rewrite <- (assoc (++)).
    + by rewrite El.
  - destruct (out !! row_key d); [rewrite lookup_insert_ne by done|]; done.
Qed.

Lemma lower_nil s : lower s = [] ↔ s = [].
Proof. by destruct s. Qed.

(** A chunk of names finds the rows of a key exactly when it holds its name. *)
Lemma query_key table zone ns k :
  fst k ≠ [] → [] ∉ ns →
  map _member_of_row (List.filter (λ d, bool_decide (row_key d = k)) (query table zone ns))
  = if bool_decide (fst k ∈ ns) then live table zone k else [].
Proof.
  intros Hk Hns. unfold query, live. rewrite filter_filter.
  assert (R : ∀ d, lower (d_name d) ∈ ns → lower (d_name d) = fst (row_key d)).
  { intros d Hd. unfold row_key, str_or. destruct (d_name d) as [|c n]; [|done]. done. }
  case_bool_decide as Hin.
  - f_equal. apply filter_ext_eq. intros d. apply eq_bool_prop_intro.
    rewrite !Is_true_true, !andb_true_iff, !bool_decide_eq_true. split.
    + intros [[Hz Hn] <-]. rewrite (R d Hn). done.
    + intros [[Hz Hn] Ht]. rewrite Hn. split; [done|]. unfold row_key, str_or.
      destruct (d_name d) as [|c n]; [simpl in Hn; congruence|].
      destruct k as [k1 k2]; simpl in *; by subst.
  - replace (List.filter _ table) with (@nil DNSRecord); [done|]. symmetry. apply filter_none.
    intros d. destruct (_ && _) eqn:E; [|done]. bool_hyps. destruct Hin.
    rewrite <- H0. by rewrite <- R.
Qed.

Lemma chunks_join fuel n l :
  (0 < n)%nat → (length l ≤ fuel)%nat → mjoin (chunks fuel n l) = l.
Proof.
  intros Hn. revert l. induction fuel as [|f IH]; intros [|x l] Hl; simpl in Hl; try done; try lia.
  destruct n as [|n]; [lia|]. cbn [chunks].
  change (take (S n) (x :: l) ++ mjoin (chunks f (S n) (drop (S n) (x :: l))) = x :: l).
  rewrite IH; [apply take_drop|]. rewrite length_drop. simpl. lia.
Qed.

Lemma chunked_query table zone cs out k :
  fst k ≠ [] → [] ∉ mjoin cs → NoDup (mjoin cs) →
  foldl (λ out ns, foldl add_row out (query table zone ns)) out cs !! k
  = (λ ms, ms ++ if bool_decide (fst k ∈ mjoin cs) then live table zone k else []) <$> out !! k.
Proof.
  intros Hk. revert out. induction cs as [|ns cs IH]; intros out Hns Hnd; cbn [foldl].
  { rewrite bool_decide_false by (by intros ?%not_elem_of_nil).
    destruct (out !! k); simpl; by rewrite ?app_nil_r. }
  change (mjoin (ns :: cs)) with (ns ++ mjoin cs) in *.
  apply NoDup_app in Hnd as (Hnd1 & Hdis & Hnd2).
  rewrite IH; [|set_solver|done]. rewrite add_rows_lookup, query_key by set_solver.
  rewrite <- option_fmap_compose. apply option_fmap_ext. intros ms. simpl.
  rewrite <- (assoc (++)). f_equal.
  destruct (decide (fst k ∈ ns)) as [Hin|Hin].
  - rewrite (bool_decide_true (fst k ∈ ns)), (bool_decide_true (fst k ∈ ns ++ _)) by set_solver.
    rewrite bool_decide_false by (by apply Hdis). by rewrite app_nil_r.
  - rewrite (bool_decide_false (fst k ∈ ns)) by done. simpl.
    destruct (decide (fst k ∈ mjoin cs)); [rewrite !bool_decide_true|rewrite !bool_decide_false]; set_solver.
Qed.

Lemma resolve_lookup table zone keys k :
  (∀ k', k' ∈ keys → fst k' ≠ []) → k ∈ keys →
  resolve_rrsets table zone keys !! k = Some (live table zone k).
Proof.
  intros Hne Hk. unfold resolve_rrsets.
  set (names := merge_sort str_le (elements (set_map fst keys : gset str))).
  assert (P : names ≡ₚ elements (set_map fst keys : gset str)) by apply merge_sort_Permutation.
  assert (Hin : ∀ n, n ∈ names ↔ ∃ k', n = fst k' ∧ k' ∈ keys).
  { intros n. rewrite P, elem_of_elements, elem_of_map. done. }
  rewrite chunked_query; rewrite ?chunks_join by (unfold _NAME_CHUNK; lia).
  - rewrite bool_decide_true by (apply Hin; eauto).
    assert (gset_to_gmap ([] : list member) keys !! k = Some []) as ->
      by (by apply lookup_gset_to_gmap_Some). done.
  - by apply Hne.
  - intros (k' & E & Hk')%Hin. by apply (Hne k').
  - rewrite P. apply NoDup_elements.
Qed.

Lemma target_name o k : target o = Some k → fst k ≠ [].
Proof.
  unfold target, rrset_target, rrset_key. intros H.
  repeat (case_match; try discriminate); simplify_eq/=; rewrite lower_nil; unfold str_or;
    repeat case_match; done.
Qed.

(** ** The batch *)
Lemma fold_steps_lookup final ops k :
  is_Some (final !! k) →
  foldl fold_step final ops !! k
  = (λ ms, foldl apply_op ms (List.filter (λ o, bool_decide (target o = Some k)) ops))
    <$> final !! k.
Proof.
  revert final. induction ops as [|o ops IH]; intros final [ms Hms]; simpl; [by rewrite Hms|].
  assert (fold_step final o !! k
    = Some (if bool_decide (target o = Some k) then apply_op ms o else ms)) as E.
  { unfold fold_step, apply_op. destruct (target o) as [k'|] eqn:Et.
    - destruct (decide (k' = k)) as [->|Hn].
      + by rewrite lookup_insert_eq, Hms, bool_decide_true.
      + rewrite lookup_insert_ne by done. rewrite bool_decide_false by congruence. done.
    - by rewrite bool_decide_false. }
  rewrite IH by eauto. rewrite E, Hms. simpl. by case_bool_decide.
Qed.

Lemma foldl_apply_NoDup ms ops :
  ops ≠ [] → NoDup (map rr_of (foldl apply_op ms ops)).
Proof.
  intros H. destruct (exists_last H) as (ops' & o & ->). rewrite foldl_app. simpl.
  apply apply_op_spec.
Qed.

Lemma stamp_lookup table zone zone_ttl agentless ops i o k :
  ops !! i = Some o → stampable agentless o = true → target o = Some k →
  stamp_rrsets_for_ops table zone zone_ttl agentless ops !! i
  = Some (with_rrset o (_rrset_payload (final_set table zone agentless ops k) zone_ttl)).
Proof.
  intros Hi Hst Ht. unfold stamp_rrsets_for_ops.
  set (sts := List.filter (stampable agentless) ops).
  assert (Ho : o ∈ sts) by (apply elem_filter; split; [by eapply list_elem_of_lookup_2|done]).
  assert (Hk : k ∈ (list_to_set (omap target sts) : gset rkey)).
  { apply elem_of_list_to_set, list_elem_of_omap. eauto. }
  rewrite bool_decide_false by (intros E; rewrite E in Hk; set_solver).
  rewrite list_lookup_fmap, Hi. simpl. rewrite Hst, Ht.
  assert (R : resolve_rrsets table zone (list_to_set (omap target sts)) !! k = Some (live table zone k)).
  { apply resolve_lookup; [|done]. intros k' (o' & _ & Ho')%elem_of_list_to_set%list_elem_of_omap.
    by eapply target_name. }
  rewrite fold_steps_lookup by eauto. rewrite R. simpl. unfold final_set, ops_on, sts. rewrite filter_filter.
  done.
Qed.

(** ** The folds against the holders *)
Lemma written_member o : _member_of_payload (o_record o) = written o.
Proof. unfold _member_of_payload, written, str_or. by destruct (p_value (o_record o)) as [[|c s]|]. Qed.

Lemma elem_live table zone k m : m ∈ live table zone k ↔ standing table zone k m.
Proof.
  unfold live, standing. rewrite list_elem_of_fmap. setoid_rewrite elem_filter. repeat setoid_rewrite andb_true_iff.
  repeat setoid_rewrite bool_decide_eq_true. unfold _member_of_row. naive_solver.
Qed.

Lemma takes_out_drops o m : takes_out o m → drops o m.
Proof.
  intros [Hd H]. unfold drops. rewrite Hd, (bool_decide_true ("delete" = "delete")) by done. rewrite written_member.
  destruct (p_record_id (o_record o)) as [i|].
  - by rewrite (bool_decide_false (Some i = None)).
  - by rewrite (bool_decide_true (@None str = None)).
Qed.

(** What a drop takes away and is not meant to, it writes again. *)
Lemma drops_cases o m : drops o m → takes_out o m ∨ o_op o ≠ "delete" ∧ rr_of m = rr_of (written o).
Proof.
  unfold drops, takes_out. rewrite written_member. destruct (decide (o_op o = "delete")) as [E|E].
  - rewrite (bool_decide_true (o_op o = "delete")) by done. destruct (p_record_id (o_record o)) as [i|].
    + rewrite (bool_decide_false (Some i = None)) by done. by left.
    + rewrite (bool_decide_true (@None str = None)) by done. by left.
  - rewrite (bool_decide_false (o_op o = "delete")) by done. by right.
Qed.

Lemma stands_snoc rows ops o m : stands rows (ops ++ [o]) m ↔
  (stands rows ops m ∧ ¬ takes_out o m) ∨ (o_op o ≠ "delete" ∧ m = written o).
Proof.
  split.
  - intros [[Hr Ho]|(pre & o1 & post & E & Hd & -> & Hp)].
    + left. split; [left; split; [done|]; intros o' Ho'; apply Ho, elem_of_app; by left|]. apply Ho, elem_of_app. right. left.
    + destruct post as [|x post] using rev_ind; [apply app_inj_tail in E as [-> ->]; by right|]. clear IHpost.
      rewrite app_comm_cons, (assoc (++)) in E. apply app_inj_tail in E as [-> ->]. left. split.
      * right. exists pre, o1, post. split_and!; [done..|]. intros o' Ho'. apply Hp, elem_of_app. by left.
      * apply Hp, elem_of_app. right. left.
  - intros [[[[Hr Ho]|(pre & o1 & post & -> & Hd & -> & Hp)] Hn]|[Hd ->]].
    + left. split; [done|]. intros o' [Ho'| ->%list_elem_of_singleton]%elem_of_app; auto.
    + right. exists pre, o1, (post ++ [o]). rewrite <- (assoc (++)). split_and!; [done..|].
      intros o' [Ho'| ->%list_elem_of_singleton]%elem_of_app; auto.
    + right. exists ops, o, []. split_and!; [done..|]. by intros o' ?%not_elem_of_nil.
Qed.

(** The folds keep no member that is taken out. *)
Lemma fold_sound (rows : member → Prop) ms ops m : (∀ x, x ∈ ms → rows x) → m ∈ foldl apply_op ms ops → stands rows ops m.
Proof.
  intros Hms. revert m. induction ops as [|o ops IH] using rev_ind; intros m Hm; simpl in *.
  { left. split; [by apply Hms|]. by intros o ?%not_elem_of_nil. }
  rewrite foldl_app in Hm. simpl in Hm. apply stands_snoc.
  destruct (apply_op_spec (foldl apply_op ms ops) o) as (_ & A2 & _). destruct (A2 m Hm) as [[Hn ->]|[Hin Hd]].
  - right. by rewrite written_member.
  - left. split; [by apply IH|]. intros Ht. by apply Hd, takes_out_drops.
Qed.

Lemma twin_free_prefix rows ops o : twin_free rows (ops ++ [o]) → twin_free rows ops.
Proof.
  intros H pre o' post i m m' E. apply (H pre o' (post ++ [o])). rewrite E. by rewrite <- (assoc (++)).
Qed.

#[export] Instance drops_dec o m : Decision (drops o m).
Proof. unfold drops. destruct (_ && _); apply _. Defined.

(** Without twins they lose no record that stands. *)
Lemma fold_complete (rows : member → Prop) ms ops m : (∀ x, x ∈ ms ↔ rows x) → twin_free rows ops →
  stands rows ops m → rr_of m ∈ map rr_of (foldl apply_op ms ops).
Proof.
  intros Hms. revert m. induction ops as [|o ops IH] using rev_ind; intros m Ht Hm.
  { destruct Hm as [[Hm _]|(pre & o & post & E & _)]; [|by destruct pre]. apply list_elem_of_fmap_2. by apply Hms. }
  rewrite foldl_app. simpl. destruct (apply_op_spec (foldl apply_op ms ops) o) as (_ & _ & A3 & A4).
  assert (Hw : o_op o ≠ "delete" → rr_of (written o) ∈ map rr_of (apply_op (foldl apply_op ms ops) o)).
  { intros Hd. apply list_elem_of_fmap_2, A3. by rewrite <- written_member. }
  pose proof Hm as Hm0. apply stands_snoc in Hm as [[Hm Hn]|[Hd ->]]; [|by apply Hw].
  assert (Hk : ∀ m', m' ∈ foldl apply_op ms ops → rr_of m = rr_of m' →
    (drops o m' → takes_out o m' → False) → rr_of m ∈ map rr_of (apply_op (foldl apply_op ms ops) o)).
  { intros m' Hm' E Hk. rewrite E. destruct (decide (drops o m')) as [Hdr|Hdr]; [|by apply A4].
    pose proof (drops_cases _ _ Hdr) as [Hto|[Hd Hrr]]; [by destruct Hk|rewrite Hrr; by apply Hw]. }
  destruct (decide (ops = [])) as [->|Hne].
  { apply (Hk m); [|done|auto]. destruct Hm as [[Hm _]|(pre & o1 & post & E & _)]; [by apply Hms|by destruct pre]. }
  pose proof (IH m (twin_free_prefix _ _ _ Ht) Hm) as (m' & E & Hm')%list_elem_of_fmap.
  apply (Hk m' Hm' E). intros _ [Hd Hto]. apply Hn. split; [done|].
  destruct (p_record_id (o_record o)) as [i|] eqn:Ei; [|congruence].
  apply (Ht ops o [] i m' m); try done. by apply (fold_sound rows ms); [intros x; apply Hms|].
Qed.

Lemma min_or_spec l d :
  (∀ x, x ∈ l → (min_or l d <= x)%Z) ∧ (l ≠ [] → min_or l d ∈ l).
Proof.
  destruct l as [|x l]; simpl; [split; [intros x []%not_elem_of_nil|done]|].
  revert x. induction l as [|y l IH]; intros x; simpl.
  { split; [|left]. intros z ->%list_elem_of_singleton. lia. }
  destruct (IH (Z.min x y)) as [IH1 IH2]. split.
  - intros z Hz. apply elem_of_cons in Hz as [->|Hz].
    + specialize (IH1 (Z.min x y) (list_elem_of_here _ _)). lia.
    + apply elem_of_cons in Hz as [->|Hz].
      * specialize (IH1 (Z.min x y) (list_elem_of_here _ _)). lia.
      * apply IH1. by right.
  - intros _. specialize (IH2 ltac:(done)). apply elem_of_cons in IH2 as [E|Hl].
    + rewrite E. destruct (Z.min_spec x y) as [[_ ->]|[_ ->]]; [left|right; left].
    + by right; right.
Qed.

Lemma servable_range t x : servable_ttl t = Some x → (0 <= x <= DNS_TTL_MAX)%Z.
Proof. unfold servable_ttl. destruct t as [y|]; [|done]. case_match eqn:E; intros; simplify_eq. lia. Qed.

Lemma asked_range zone_ttl m : (0 <= asked_ttl zone_ttl m <= DNS_TTL_MAX)%Z.
Proof.
  unfold asked_ttl. destruct (servable_ttl (m_ttl m)) eqn:E; [by apply servable_range in E|].
  destruct (servable_ttl zone_ttl) eqn:Ez; [by apply servable_range in Ez|]. vm_compute. split; discriminate.
Qed.

(** One TTL, the lowest a member asks for. *)
Lemma payload_ttl F zone_ttl : let t := w_ttl (_rrset_payload F zone_ttl) in
  (0 <= t <= DNS_TTL_MAX)%Z ∧ (∀ m, m ∈ F → (t <= asked_ttl zone_ttl m)%Z)
  ∧ (F ≠ [] → ∃ m, m ∈ F ∧ t = asked_ttl zone_ttl m).
Proof.
  cbv zeta. cbn [w_ttl _rrset_payload]. set (d := default ZONE_DEFAULT_TTL _). set (l := map _ F).
  assert (El : l = map (asked_ttl zone_ttl) F).
  { unfold l. apply map_ext. intros m. unfold asked_ttl, d. by destruct (servable_ttl (m_ttl m)), (servable_ttl zone_ttl). }
  destruct (min_or_spec l d) as [Hle Hin].
  assert (Hex : F ≠ [] → ∃ m, m ∈ F ∧ min_or l d = asked_ttl zone_ttl m).
  { intros Hne. assert (l ≠ []) as Hl by (rewrite El; by destruct F).
    specialize (Hin Hl). rewrite El in Hin at 2. apply list_elem_of_fmap in Hin as (m & E & Hm). eauto. }
  split_and!; [..|exact Hex].
  - destruct F as [|x F]; [|destruct Hex as (m & _ & ->); [done|apply asked_range]..].
    apply (asked_range zone_ttl (mkMember [] None None None None None)).
  - destruct F as [|x F]; [|destruct Hex as (m & _ & ->); [done|apply asked_range]..].
    apply (asked_range zone_ttl (mkMember [] None None None None None)).
  - intros m Hm. apply Hle. rewrite El. by apply list_elem_of_fmap_2.
Qed.

(** ** Claims *)

(** C36 -- a batch is stamped with final sets.  Every RRset operation of a key
    carries one and the same set, every other operation is left as it was.  The
    members of that set are the holders that are left once the batch ran (the
    live rows no operation takes out, and what an operation writes and no later
    one takes out), one per record: a delete that names a row takes out that
    row only.  No record is missing unless, after the first operation on the
    key, a row is deleted whose record another member that is left holds too.
    The TTL is servable and the lowest a member asks for. *)
Theorem stamped_with_final_set (table : list DNSRecord) (zone : str) (zone_ttl : option Z)
    (agentless : bool) (ops : list record_op) :
  let out := stamp_rrsets_for_ops table zone zone_ttl agentless ops in
  ∃ sets : rkey → wire_rrset,
    length out = length ops
    ∧ (∀ i o, ops !! i = Some o →
        out !! i = Some (match (if stampable agentless o then target o else None) with
                         | Some k => with_rrset o (sets k) | None => o end))
    ∧ ∀ k, ops_on agentless ops k ≠ [] →
        let left_over := stands (standing table zone k) (ops_on agentless ops k) in
        ∃ F : list member,
          w_members (sets k) = map (λ m, mkWire (m_value m) (m_priority m) (m_weight m) (m_port m)) F
          ∧ NoDup (map rr_of F)
          ∧ (∀ m, m ∈ F → left_over m)
          ∧ (twin_free (standing table zone k) (ops_on agentless ops k) →
              ∀ m, left_over m → rr_of m ∈ map rr_of F)
          ∧ (0 <= w_ttl (sets k) <= DNS_TTL_MAX)%Z
          ∧ (∀ m, m ∈ F → (w_ttl (sets k) <= asked_ttl zone_ttl m)%Z)
          ∧ (F ≠ [] → ∃ m, m ∈ F ∧ w_ttl (sets k) = asked_ttl zone_ttl m).
Proof.
  cbv zeta. exists (λ k, _rrset_payload (final_set table zone agentless ops k) zone_ttl). split_and!.
  - unfold stamp_rrsets_for_ops. case_bool_decide; [done|]. apply length_map.
  - intros i o Hi. destruct (stampable agentless o) eqn:Es; [destruct (target o) as [k|] eqn:Et|].
    + by apply stamp_lookup.
    + unfold stamp_rrsets_for_ops. case_bool_decide; [done|]. rewrite list_lookup_fmap, Hi. simpl. by rewrite Es, Et.
    + unfold stamp_rrsets_for_ops. case_bool_decide; [done|]. rewrite list_lookup_fmap, Hi. simpl. by rewrite Es.
  - intros k Hk. exists (final_set table zone agentless ops k). unfold final_set.
    split_and!; [done|by apply foldl_apply_NoDup|..].
    + intros m. apply fold_sound. intros x. apply elem_live.
    + intros Ht m. apply fold_complete; [|done]. intros x. apply elem_live.
    + apply payload_ttl.
    + apply payload_ttl.
    + apply payload_ttl.
    + apply payload_ttl.
Qed.

Definition sample_row (i v : str) : DNSRecord := mkRow i "z" "www" "A" v None None None None.

Definition sample_op (op i v : str) : record_op :=
  mkOp op (mkPayload (Some "A") (Some "www") (Some v) None None None None (Some i) None None).

(** Deleting one of two twin rows keeps the record: a batch of one operation on
    the key is always [twin_free]. *)
Lemma one_op_twin_free rows o : twin_free rows [o].
Proof. intros [|x [|y pre]] o' post i m m' E Hne; [done|discriminate E..]. Qed.

Example twin_kept :
  let table := [sample_row "1" "10.0.0.1"; sample_row "2" "10.0.0.1"; sample_row "3" "10.0.0.9"] in
  final_set table "z" false [sample_op "delete" "1" "10.0.0.1"] ("www", "A")
  = map _member_of_row [sample_row "2" "10.0.0.1"; sample_row "3" "10.0.0.9"].
Proof. vm_compute. reflexivity. Qed.

(** A record with twin rows can be lost: the set is de-duplicated after every
    operation of a batch, so an operation on another row of the key may keep
    one twin in the other's place and a later delete of that one, by its row,
    leaves nothing, although the other twin is a live row no operation takes
    out.  In the opposite order the record is kept. *)
Example twin_lost_in_batch :
  let table := [sample_row "1" "10.0.0.1"; sample_row "2" "10.0.0.1"; sample_row "3" "10.0.0.9"] in
  let d1 := sample_op "delete" "1" "10.0.0.1" in
  let d3 := sample_op "delete" "3" "10.0.0.9" in
  let k : rkey := ("www", "A") in
  let twin := _member_of_row (sample_row "2" "10.0.0.1") in
  stands (standing table "z" k) (ops_on false [d3; d1] k) twin
  ∧ final_set table "z" false [d3; d1] k = []
  ∧ final_set table "z" false [d1; d3] k = [twin].
Proof.
  cbv zeta. split_and!; [|vm_compute; reflexivity..]. left. split.
  - exists (sample_row "2" "10.0.0.1"). split_and!; [right; left|done..].
  - replace (ops_on _ _ _) with [sample_op "delete" "3" "10.0.0.9"; sample_op "delete" "1" "10.0.0.1"]
      by (vm_compute; reflexivity).
    intros o [->|[->|[]%not_elem_of_nil]%elem_of_cons]%elem_of_cons [_ Ho]; discriminate Ho.
Qed.
End Rrset.
