(* ===== verification/CnameRule.v ===== *)
(** * A CNAME is the only record at its name

    [backend/app/services/dns/cname_conflict.py] and its use by the importers
    ([backend/app/services/dns_import/cname_check.py]): the rule on rows in
    memory, and its database twin as a query of a table of live rows in
    creation order.  A view or row id is a string. *)
From S2P Require Import Prelude PyStr DnsNames.

Module CnameRule.

Definition APEX_CNAME_DETAIL : str :=
  "A CNAME cannot be at the zone apex: the apex always holds the zone's SOA and NS records, and a CNAME must be the only record at its name (RFC 1034 section 3.6.2, RFC 2181 section 10.1). Use A / AAAA records at the apex, or an ALIAS where the group's servers support one.".

Definition is_apex (name : str) : bool :=
  let n := strip is_space name in bool_decide (n = []) || bool_decide (n = "@").

Definition views_overlap (a b : option str) : bool :=
  bool_decide (a = None) || bool_decide (b = None) || bool_decide (a = b).

(** [record_type.strip().upper() == "CNAME"] *)
Definition is_cname (record_type : str) : bool :=
  bool_decide (upper (strip is_space record_type) = "CNAME").

Definition types_conflict (record_type other_type : str) : bool :=
  is_cname record_type || is_cname other_type.

(** ** The rule on rows in memory *)
Record NameRow := mkNameRow {
  n_name : str;
  n_type : str;
  n_value : str;
  n_view : option str;
}.

#[export] Instance NameRow_eq_dec : EqDecision NameRow.
Proof. solve_decision. Defined.

Definition _rel (name : str) : str :=
  let n := rstrip (λ c, Ascii.eqb c ".") (lower (strip is_space name)) in
  if bool_decide (n = []) then "@" else n.

Definition _meet (a b : NameRow) : bool :=
  bool_decide (_rel (n_name a) = _rel (n_name b)) && views_overlap (n_view a) (n_view b)
  && types_conflict (n_type a) (n_type b).

Definition _describe (record_type fqdn other_type other_value : str) (other_id : option str) : str :=
  let name := rstrip (λ c, Ascii.eqb c ".") fqdn in
  let rtype := upper (strip is_space record_type) in
  let ref : str := match other_id with Some i => " (id " ++ i ++ ")" | None => [] end in
  let what : str :=
    if bool_decide (upper other_type = "CNAME") then
      if bool_decide (rtype = "CNAME") then
        name ++ " already has a CNAME to " ++ other_value ++ ref
             ++ ", and a name holds at most one CNAME"
      else name ++ " is a CNAME to " ++ other_value ++ ref ++ ", so it can hold no "
             ++ rtype ++ " record"
    else name ++ " already holds data (" ++ other_type ++ " " ++ other_value ++ ref
           ++ "), so it cannot take a CNAME" in
  what ++ ". A CNAME must be the only record at its name (RFC 1034 section 3.6.2, RFC 2181 section 10.1); PowerDNS and BIND both refuse a zone that breaks this, and the server stops applying it.".

(** The first loop: other data that meets a standing CNAME. *)
Fixpoint refuse_data (standing : list NameRow) (i : nat) (rows : list NameRow)
    (refused : gmap nat str) : gmap nat str :=
  match rows with
  | [] => refused
  | row :: rows' =>
      refuse_data standing (S i) rows'
        (if is_cname (n_type row) then refused
         else match List.find (_meet row) standing with
              | Some st => <[i := _describe (n_type row) (n_name row) (n_type st) (n_value st) None]> refused
              | None => refused
              end)
  end.

(** [next((r for j, r in enumerate(new_rows) if ...), None)] *)
Fixpoint find_data (i j : nat) (row : NameRow) (rows : list NameRow) (refused : gmap nat str)
    : option NameRow :=
  match rows with
  | [] => None
  | r :: rows' =>
      if bool_decide (refused !! j = None) && negb (j =? i)%nat && _meet row r
         && negb (is_cname (n_type r))
      then Some r else find_data i (S j) row rows' refused
  end.

Definition orelse {A} (x y : option A) : option A :=
  match x with Some a => Some a | None => y end.

(** The second loop: the CNAMEs. *)
Fixpoint refuse_cnames (new_rows standing : list NameRow) (i : nat) (rows : list NameRow)
    (refused : gmap nat str) (kept_cnames : list NameRow) : gmap nat str :=
  match rows with
  | [] => refused
  | row :: rows' =>
      if negb (is_cname (n_type row)) then
        refuse_cnames new_rows standing (S i) rows' refused kept_cnames
      else if is_apex (n_name row) then
        refuse_cnames new_rows standing (S i) rows' (<[i := APEX_CNAME_DETAIL]> refused) kept_cnames
      else
        match orelse (List.find (_meet row) standing)
              (orelse (find_data i 0 row new_rows refused) (List.find (_meet row) kept_cnames)) with
        | Some other =>
            refuse_cnames new_rows standing (S i) rows'
              (<[i := _describe "CNAME" (n_name row) (n_type other) (n_value other) None]> refused)
              kept_cnames
        | None => refuse_cnames new_rows standing (S i) rows' refused (kept_cnames ++ [row])
        end
  end.

Definition refused_by_cname_rule (new_rows standing : list NameRow) : gmap nat str :=
  refuse_cnames new_rows standing 0 new_rows (refuse_data standing 0 new_rows ∅) [].

(** ** The rule in the database *)
Record DbRow := mkDbRow {
  db_id : str; db_zone : str; db_name : str; db_type : str; db_value : str;
  db_view : option str; db_own_fk : option str }.

Definition find_cname_conflict (table : list DbRow) (zone_id : str) (view_id : option str)
    (name record_type : str) (exclude_id : option str) : option DbRow :=
  List.find (λ r,
    bool_decide (db_zone r = zone_id)
    && bool_decide (lower (db_name r) = lower (strip is_space name))
    && match view_id with
       | None => true
       | Some v => bool_decide (db_view r = None) || bool_decide (db_view r = Some v)
       end
    && (is_cname record_type || bool_decide (upper (db_type r) = "CNAME"))
    && match exclude_id with None => true | Some i => negb (bool_decide (db_id r = i)) end) table.

Definition find_record_insert_conflict (table : list DbRow) (zone_id name record_type own_id : str)
    : option DbRow :=
  let rtype := upper (strip is_space record_type) in
  List.find (λ r,
    negb (bool_decide (db_own_fk r = Some own_id))
    && (bool_decide (upper (strip is_space (db_type r)) = rtype)
        || types_conflict rtype (db_type r)))
    (List.filter (λ r, bool_decide (db_zone r = zone_id)
       && bool_decide (lower (db_name r) = lower (strip is_space name))) table).

Definition describe_cname_conflict (record_type fqdn : str) (existing : DbRow) : str :=
  _describe record_type fqdn (db_type existing) (db_value existing) (Some (db_id existing)).

(** ** The importers *)
Record ImportedRecord := mkImported { i_name : str; i_type : str; i_value : str }.

Definition storable (r : ImportedRecord) : bool :=
  negb (bool_decide (i_type r = "SOA")) && negb (DnsNames.contains_control_chars (i_name r))
  && negb (DnsNames.contains_control_chars (i_value r)).

(** [[i for i, r in enumerate(zone.records) if ...]] *)
Fixpoint storable_indices (i : nat) (records : list ImportedRecord) : list nat :=
  match records with
  | [] => []
  | r :: rs => if storable r then i :: storable_indices (S i) rs else storable_indices (S i) rs
  end.

Definition cname_skips (records : list ImportedRecord) : gmap nat str :=
  let idx := storable_indices 0 records in
  let rows := map (λ r, mkNameRow (i_name r) (i_type r) (i_value r) None)
                  (List.filter storable records) in
  list_to_map (omap (λ '(j, why), (λ i, (i, why)) <$> idx !! j)
                    (map_to_list (refused_by_cname_rule rows []))).

(** ** Meeting *)
Lemma views_overlap_sym a b : views_overlap a b = views_overlap b a.
Proof.
  unfold views_overlap. rewrite (bool_decide_ext (a = b) (b = a)) by naive_solver.
  by rewrite (orb_comm (bool_decide (a = None))).
Qed.

Lemma meet_sym a b : _meet a b = _meet b a.
Proof.
  unfold _meet, types_conflict.
  rewrite (bool_decide_ext (_rel (n_name a) = _rel (n_name b)) (_rel (n_name b) = _rel (n_name a)))
    by naive_solver.
  by rewrite views_overlap_sym, (orb_comm (is_cname (n_type a))).
Qed.

Lemma meet_cname a b : _meet a b = true → is_cname (n_type a) = true ∨ is_cname (n_type b) = true.
Proof. unfold _meet, types_conflict. intros H. bool_hyps. by apply orb_true_iff. Qed.

Lemma orelse_is_Some {A} (x y : option A) : is_Some (orelse x y) ↔ is_Some x ∨ is_Some y.
Proof. destruct x; simpl; [naive_solver|]. split; [by right|]. by intros [[? [=]]|?]. Qed.

Lemma refuse_data_spec standing i rows R j :
  is_Some (refuse_data standing i rows R !! j)
  ↔ is_Some (R !! j)
    ∨ ∃ row, rows !! (j - i) = Some row ∧ i ≤ j ∧ is_cname (n_type row) = false
        ∧ ∃ st, st ∈ standing ∧ _meet row st = true.
Proof.
  revert i R. induction rows as [|row rows IH]; intros i R; simpl.
  { split; [by left|]. intros [?|(r & Hr & _)]; [done|]. by destruct (j - i). }
  rewrite IH. clear IH.
  assert (T : (∃ r, rows !! (j - S i) = Some r ∧ S i ≤ j ∧ is_cname (n_type r) = false
       ∧ ∃ st, st ∈ standing ∧ _meet r st = true)
     ↔ ∃ r, (row :: rows) !! (j - i) = Some r ∧ i < j ∧ is_cname (n_type r) = false
       ∧ ∃ st, st ∈ standing ∧ _meet r st = true).
  { split; intros (r & Hr & Hle & Hx); exists r; (split; [|split; [lia|done]]).
    - by replace (j - i) with (S (j - S i)) by lia.
    - by replace (j - i) with (S (j - S i)) in Hr by lia. }
  rewrite T. clear T. destruct (is_cname (n_type row)) eqn:Ec.
  - split; (intros [?|(r & Hr & Hle & Hx)]; [by left|right; exists r; split; [done|]]).
    + split; [lia|done].
    + split; [|done]. destruct (decide (i = j)) as [<-|]; [|lia].
      rewrite Nat.sub_diag in Hr. simpl in Hr. simplify_eq. destruct Hx as [Hx _]. congruence.
  - pose proof (find_is_Some (_meet row) standing) as F.
    destruct (List.find (_meet row) standing) as [st|].
    + destruct (decide (i = j)) as [<-|Hij].
      * rewrite lookup_insert_eq, Nat.sub_diag. split; [|by left]. intros _. right.
        exists row. split_and!; [done|lia|done|]. by apply F.
      * rewrite lookup_insert_ne by done.
        split; (intros [?|(r & Hr & Hle & Hx)]; [by left|right; exists r; split; [done|split; [lia|done]]]).
    + split; (intros [?|(r & Hr & Hle & Hx)]; [by left|right; exists r; split; [done|]]).
      * split; [lia|done].
      * split; [|done]. destruct (decide (i = j)) as [<-|]; [|lia].
        rewrite Nat.sub_diag in Hr. simpl in Hr. simplify_eq. destruct Hx as [_ Hx].
        apply F in Hx as [? [=]].
Qed.

Lemma find_data_spec i j row rows R :
  is_Some (find_data i j row rows R)
  ↔ ∃ k r, rows !! k = Some r ∧ R !! (j + k) = None ∧ j + k ≠ i ∧ _meet row r = true
      ∧ is_cname (n_type r) = false.
Proof.
  revert j. induction rows as [|x rows IH]; intros j; simpl.
  { split; [by intros [? [=]]|]. by intros (k & r & Hr & _). }
  destruct (bool_decide (R !! j = None) && negb (j =? i) && _meet row x && negb (is_cname (n_type x))) eqn:E.
  - split; [intros _|by eauto]. bool_hyps. exists 0, x. rewrite Nat.add_0_r.
    apply Nat.eqb_neq in H2. done.
  - rewrite IH. split.
    + intros (k & r & H). exists (S k), r. by rewrite Nat.add_succ_r.
    + intros ([|k] & r & H1 & H2 & H3 & H4 & H5).
      * simpl in H1. simplify_eq. rewrite Nat.add_0_r in *.
        rewrite bool_decide_true in E by done. apply Nat.eqb_neq in H3.
        by rewrite H3, H4, H5 in E.
      * exists k, r. by rewrite Nat.add_succ_r in *.
Qed.

(** What refuses a CNAME, read off the final refusals. *)
Definition blocks (new_rows standing : list NameRow) (F : gmap nat str) (j : nat) (row : NameRow)
    : Prop :=
  is_apex (n_name row) = true
  ∨ (∃ st, st ∈ standing ∧ _meet row st = true)
  ∨ (∃ k r, new_rows !! k = Some r ∧ F !! k = None ∧ is_cname (n_type r) = false
       ∧ _meet row r = true)
  ∨ (∃ k r, k < j ∧ new_rows !! k = Some r ∧ F !! k = None ∧ is_cname (n_type r) = true
       ∧ _meet row r = true).

(** The second loop only decides the CNAMEs still to come. *)
Lemma refuse_cnames_keeps new standing i rows R K j :
  j < i ∨ (∀ r, rows !! (j - i) = Some r → is_cname (n_type r) = false) →
  refuse_cnames new standing i rows R K !! j = R !! j.
Proof.
  revert i R K. induction rows as [|row rows IH]; intros i R K Hj; [done|]. cbn [refuse_cnames].
  assert (Hj' : j < S i ∨ (∀ r, rows !! (j - S i) = Some r → is_cname (n_type r) = false)).
  { destruct Hj as [Hj|Hj]; [left; lia|]. destruct (decide (j < S i)); [by left|right].
    intros r Hr. apply Hj. by replace (j - i) with (S (j - S i)) by lia. }
  destruct (is_cname (n_type row)) eqn:Ec; cbn [negb]; [|by apply IH].
  assert (j ≠ i) as Hn.
  { intros ->. destruct Hj as [Hj|Hj]; [lia|]. rewrite Nat.sub_diag in Hj.
    specialize (Hj row eq_refl). congruence. }
  destruct (is_apex _); [rewrite IH by done; by rewrite lookup_insert_ne|].
  destruct (orelse _ _); [rewrite IH by done; by rewrite lookup_insert_ne|by apply IH].
Qed.

(** The kept CNAMEs are the accepted ones among the first [n] rows. *)
Definition kept_ok (new_rows : list NameRow) (n : nat) (R : gmap nat str) (K : list NameRow) : Prop :=
  ∀ r, r ∈ K ↔ ∃ k, k < n ∧ new_rows !! k = Some r ∧ R !! k = None ∧ is_cname (n_type r) = true.

(** What the loop tests at a CNAME is what refuses it in the end. *)
Lemma blocks_decision new standing pre row0 rows R K :
  new = pre ++ row0 :: rows → is_cname (n_type row0) = true →
  kept_ok new (length pre) R K →
  let i := length pre in
  let F := refuse_cnames new standing i (row0 :: rows) R K in
  blocks new standing F i row0
  ↔ is_apex (n_name row0) = true
    ∨ is_Some (orelse (List.find (_meet row0) standing)
        (orelse (find_data i 0 row0 new R) (List.find (_meet row0) K))).
Proof.
  intros Hnew Hc HK i F. rewrite !orelse_is_Some, !find_is_Some, find_data_spec. unfold blocks.
  assert (HF : ∀ k r, new !! k = Some r → k < i ∨ is_cname (n_type r) = false → F !! k = R !! k).
  { intros k r Hk Hor. apply refuse_cnames_keeps. destruct Hor as [|Hn]; [by left|].
    destruct (decide (k < i)); [by left|right]. intros r' Hr'.
    rewrite Hnew, lookup_app_r in Hk by (unfold i in *; lia).
    change (length pre) with i in Hk. congruence. }
  apply or_iff_compat_l, or_iff_compat_l. split; (intros [H|H]; [left|right]).
  - destruct H as (k & r & Hk & HFk & Hn & Hm). exists k, r. simpl.
    split_and!; [done|by rewrite <- (HF k r) by auto| |done|done].
    intros ->. unfold i in Hk. rewrite Hnew, list_lookup_middle in Hk by done. congruence.
  - destruct H as (k & r & Hlt & Hk & HFk & Hn & Hm). exists r. split; [|done]. apply HK.
    exists k. split_and!; [done|done|by rewrite <- (HF k r) by auto|done].
  - destruct H as (k & r & Hk & HRk & Hne & Hm & Hn). exists k, r. simpl in HRk.
    split_and!; [done|by rewrite (HF k r) by auto|done|done].
  - destruct H as (r & Hr & Hm). apply HK in Hr as (k & Hlt & Hk & HRk & Hn). exists k, r.
    split_and!; [done|done|by rewrite (HF k r) by auto|done|done].
Qed.

(** One row: what the loop goes on with. *)
Lemma refuse_cnames_step new standing pre row0 rows R K :
  new = pre ++ row0 :: rows → R !! length pre = None ∨ is_cname (n_type row0) = false →
  kept_ok new (length pre) R K →
  ∃ R' K', refuse_cnames new standing (length pre) (row0 :: rows) R K
      = refuse_cnames new standing (S (length pre)) rows R' K'
    ∧ (∀ k, k ≠ length pre → R' !! k = R !! k)
    ∧ kept_ok new (S (length pre)) R' K'
    ∧ (is_cname (n_type row0) = true →
       (is_Some (R' !! length pre) ↔ is_apex (n_name row0) = true
         ∨ is_Some (orelse (List.find (_meet row0) standing)
             (orelse (find_data (length pre) 0 row0 new R) (List.find (_meet row0) K))))).
Proof.
  intros Hnew HR HK. set (i := length pre) in *. cbn [refuse_cnames]. unfold kept_ok in *.
  assert (Hi : new !! i = Some row0) by (rewrite Hnew; by apply list_lookup_middle).
  assert (HKi : ∀ w r, r ∈ K ↔ ∃ k, k < S i ∧ new !! k = Some r ∧ (<[i := w]> R) !! k = None
    ∧ is_cname (n_type r) = true).
  { intros w r. rewrite (HK r). split; intros (k & Hlt & Hk & Hn & Hc).
    - exists k. rewrite lookup_insert_ne by lia. split_and!; [lia|done..].
    - destruct (decide (k = i)) as [->|]; [by rewrite lookup_insert_eq in Hn|].
      rewrite lookup_insert_ne in Hn by done. exists k. split_and!; [lia|done..]. }
  destruct (is_cname (n_type row0)) eqn:Ec; cbn [negb].
  2:{ exists R, K. split_and!; [done..| |done]. intros r. rewrite (HK r).
      split; intros (k & Hlt & Hk & Hn & Hc); exists k; (split; [|done]); [lia|].
      destruct (decide (k = i)) as [->|]; [congruence|lia]. }
  destruct HR as [HR|HR]; [|done].
  destruct (is_apex (n_name row0)) eqn:Ea.
  { eexists _, K. split; [reflexivity|]. split_and!; [by intros; rewrite lookup_insert_ne|apply HKi|].
    intros _. rewrite lookup_insert_eq. naive_solver. }
  destruct (orelse _ _) as [other|] eqn:Eo.
  { eexists _, K. split; [reflexivity|]. split_and!; [by intros; rewrite lookup_insert_ne|apply HKi|].
    intros _. rewrite lookup_insert_eq. naive_solver. }
  exists R, (K ++ [row0]). split_and!; [done..| |].
  - intros r. rewrite elem_of_app, list_elem_of_singleton, (HK r). split.
    + intros [(k & Hlt & Hx)| ->]; [exists k; split; [lia|done]|]. exists i. split_and!; [lia|done..].
    + intros (k & Hlt & Hk & Hn & Hc). destruct (decide (k = i)) as [->|].
      * right. congruence.
      * left. exists k. split_and!; [lia|done..].
  - intros _. rewrite HR. split; [by intros [? [=]]|]. intros [[=]|[? [=]]].
Qed.

Lemma refuse_cnames_spec new standing pre rows R K :
  new = pre ++ rows →
  (∀ k r, new !! k = Some r → length pre ≤ k → is_cname (n_type r) = true → R !! k = None) →
  kept_ok new (length pre) R K →
  let F := refuse_cnames new standing (length pre) rows R K in
  ∀ j row, new !! j = Some row → length pre ≤ j → is_cname (n_type row) = true →
    (is_Some (F !! j) ↔ blocks new standing F j row).
Proof.
  revert pre R K. induction rows as [|row0 rows IH]; intros pre R K Hnew HR HK F j row Hj Hle Hc.
  { subst new. rewrite app_nil_r in Hj. apply lookup_lt_Some in Hj. lia. }
  assert (Hi : new !! length pre = Some row0) by (rewrite Hnew; by apply list_lookup_middle).
  assert (HRi : R !! length pre = None ∨ is_cname (n_type row0) = false).
  { destruct (is_cname (n_type row0)) eqn:E; [left|by right]. by eapply HR. }
  destruct (refuse_cnames_step new standing pre row0 rows R K Hnew HRi HK)
    as (R' & K' & EF & HR' & HK' & Hdec).
  destruct (decide (j = length pre)) as [->|Hne].
  - assert (row = row0) as -> by congruence. unfold F.
    rewrite (blocks_decision new standing pre row0 rows R K Hnew Hc HK), <- (Hdec Hc).
    rewrite EF. rewrite refuse_cnames_keeps; [done|left; lia].
  - unfold F. rewrite EF. clear F.
    assert (length (pre ++ [row0]) = S (length pre)) as El by (rewrite length_app; simpl; lia).
    rewrite <- El in *. apply IH; [|..|done|lia|done].
    + by rewrite <- (assoc (++)).
    + intros k r Hk Hlek Hck. rewrite HR' by lia. eapply HR; [done|lia|done].
    + done.
Qed.

Lemma refused_spec new standing j row :
  new !! j = Some row →
  (is_Some (refused_by_cname_rule new standing !! j)
   ↔ if is_cname (n_type row) then blocks new standing (refused_by_cname_rule new standing) j row
     else ∃ st, st ∈ standing ∧ _meet row st = true).
Proof.
  intros Hj. unfold refused_by_cname_rule. set (R := refuse_data standing 0 new ∅).
  assert (HR : ∀ k r, new !! k = Some r →
    (is_Some (R !! k) ↔ is_cname (n_type r) = false ∧ ∃ st, st ∈ standing ∧ _meet r st = true)).
  { intros k r Hk. unfold R. rewrite refuse_data_spec, Nat.sub_0_r, lookup_empty. split.
    - intros [[? [=]]|(r' & Hr' & _ & H)]. by simplify_eq.
    - intros H. right. exists r. split_and!; [done|lia|apply H..]. }
  destruct (is_cname (n_type row)) eqn:Ec.
  - apply (refuse_cnames_spec new standing [] new R []); [done| | |done|simpl; lia|done].
    + intros k r Hk _ Hc. apply eq_None_not_Some. rewrite (HR k r Hk). intros [? _]. congruence.
    + intros r. split; [by intros ?%not_elem_of_nil|]. intros (k & Hlt & _). simpl in Hlt. lia.
  - rewrite refuse_cnames_keeps, (HR j row Hj).
    + split; [by intros [_ ?]|done].
    + right. intros r Hr. rewrite Nat.sub_0_r in Hr. congruence.
Qed.

(** What the rule accepts can be stored together. *)
Lemma accepted_consistent (new_rows standing : list NameRow) j row :
  let F := refused_by_cname_rule new_rows standing in
  new_rows !! j = Some row → F !! j = None →
  (is_cname (n_type row) = true → is_apex (n_name row) = false)
  ∧ (∀ st, st ∈ standing → _meet row st = false)
  ∧ ∀ k r, k ≠ j → new_rows !! k = Some r → F !! k = None → _meet row r = false.
Proof.
  intros F Hj HF. assert (S := refused_spec new_rows standing). fold F in S.
  assert (C : ∀ j row, new_rows !! j = Some row → F !! j = None → is_cname (n_type row) = true →
    ¬ blocks new_rows standing F j row).
  { intros i x Hi HFi Hc Hb. specialize (S i x Hi). rewrite Hc, HFi in S.
    apply S in Hb as [? [=]]. }
  split_and!.
  - intros Hc. apply not_true_iff_false. intros Ha. apply (C j row Hj HF Hc). by left.
  - intros st Hst. apply not_true_iff_false. intros Hm. destruct (is_cname (n_type row)) eqn:Hc.
    + apply (C j row Hj HF Hc). right; left. by exists st.
    + specialize (S j row Hj). rewrite Hc, HF in S. destruct S as [_ S].
      destruct S as [? [=]]. by exists st.
  - intros k r Hkj Hk HFk. apply not_true_iff_false. intros Hm.
    destruct (is_cname (n_type row)) eqn:Hc.
    + apply (C j row Hj HF Hc). right; right. destruct (is_cname (n_type r)) eqn:Hr; [right|left; by exists k, r].
      destruct (decide (k < j)); [by exists k, r|]. exfalso. apply (C k r Hk HFk Hr). right; right; right.
      exists j, row. split_and!; [lia|done..|]. by rewrite meet_sym.
    + destruct (meet_cname _ _ Hm) as [|Hr]; [congruence|]. apply (C k r Hk HFk Hr).
      right; right; left. exists j, row. by rewrite meet_sym.
Qed.

(** ** The two spellings of the rule *)

(** A name as the record API stores it: stripped, not empty, no final dot. *)
Definition plain_name (n : str) : Prop :=
  strip is_space n = n ∧ ∃ n' c, n = n' ++ [c] ∧ c ≠ "."%char.

Definition as_name_row (r : DbRow) : NameRow :=
  mkNameRow (db_name r) (db_type r) (db_value r) (db_view r).

Lemma lower_char_dot c : lower_char c = "."%char → c = "."%char.
Proof. each_ascii c; intros H; vm_compute in H; congruence. Qed.

Lemma rel_plain n : plain_name n → _rel n = lower n.
Proof.
  intros (Hs & n' & c & -> & Hc). unfold _rel. rewrite Hs. unfold lower. rewrite List.map_app.
  rewrite rstrip_id.
  - rewrite bool_decide_false; [done|]. by destruct (map lower_char n').
  - intros s' d E. apply app_inj_tail in E as [_ <-]. apply Ascii.eqb_neq.
    intros E. by apply Hc, lower_char_dot.
Qed.

(** ** Claims *)

(** C35 -- the rule is decided exactly: other data is refused precisely when it
    meets a standing row, a CNAME precisely when it is at the apex or meets a
    standing row, accepted other data, or an earlier accepted CNAME.  So what
    is accepted can be stored together: no accepted CNAME is at the apex, and
    no accepted row meets a standing row or another accepted row. *)
Theorem cname_rule_exact (new_rows standing : list NameRow) :
  let F := refused_by_cname_rule new_rows standing in
  (∀ j row, new_rows !! j = Some row →
     (is_Some (F !! j) ↔ if is_cname (n_type row) then blocks new_rows standing F j row
                         else ∃ st, st ∈ standing ∧ _meet row st = true))
  ∧ ∀ j row, new_rows !! j = Some row → F !! j = None →
      (is_cname (n_type row) = true → is_apex (n_name row) = false)
      ∧ (∀ st, st ∈ standing → _meet row st = false)
      ∧ ∀ k r, k ≠ j → new_rows !! k = Some r → F !! k = None → _meet row r = false.
Proof.
  intros F. split; [apply refused_spec|]. intros j row. apply accepted_consistent.
Qed.

(** The database check is the same rule: for names and types in the form
    the record API stores, a conflict is found for a described record exactly
    when some live row of the zone, other than the excluded one, meets it. *)
Theorem find_cname_conflict_twin (table : list DbRow) (zone : str) (view : option str)
    (name record_type value : str) (exclude : option str) :
  plain_name name →
  (∀ r, r ∈ table → plain_name (db_name r) ∧ strip is_space (db_type r) = db_type r) →
  is_Some (find_cname_conflict table zone view name record_type exclude)
  ↔ ∃ r, r ∈ table ∧ db_zone r = zone ∧ Some (db_id r) ≠ exclude
      ∧ _meet (mkNameRow name record_type value view) (as_name_row r) = true.
Proof.
  intros Hn Ht. unfold find_cname_conflict. rewrite find_is_Some. destruct (Hn) as [En _].
  rewrite En. apply exist_proper. intros r. split.
  - intros [Hr H]. destruct (Ht r Hr) as [Hp Hs]. rewrite !andb_true_iff in H.
    destruct H as [[[[Hz Hl] Hv] Hc] Hx]. apply bool_decide_eq_true in Hz, Hl.
    split_and!; [done|done| |].
    + destruct exclude; [|done]. apply negb_true_iff, bool_decide_eq_false in Hx. congruence.
    + unfold _meet, as_name_row. simpl. rewrite !rel_plain by done.
      rewrite !andb_true_iff, bool_decide_eq_true. split_and!; [done| |].
      * unfold views_overlap. destruct view as [v|]; [|done].
        apply orb_true_iff in Hv as [E|E]; apply bool_decide_eq_true in E; rewrite E; simpl; [done|].
        by apply bool_decide_eq_true.
      * unfold types_conflict. unfold is_cname at 2. by rewrite Hs.
  - intros (Hr & Hz & Hx & H). destruct (Ht r Hr) as [Hp Hs]. split; [done|].
    unfold _meet, as_name_row in H. simpl in H. rewrite !rel_plain in H by done.
    rewrite !andb_true_iff in H. destruct H as [[Hl Hv] Hc]. apply bool_decide_eq_true in Hl.
    rewrite !andb_true_iff. split_and!.
    + by apply bool_decide_eq_true.
    + by apply bool_decide_eq_true.
    + unfold views_overlap in Hv. destruct view as [v|]; [|done]. simpl in Hv.
      by rewrite (bool_decide_ext (db_view r = Some v) (Some v = db_view r)) by naive_solver.
    + unfold types_conflict in Hc. unfold is_cname at 2 in Hc. by rewrite Hs in Hc.
    + destruct exclude as [x|]; [|done]. apply negb_true_iff, bool_decide_eq_false. congruence.
Qed.

Lemma find_cname_conflict_twin_witness :
  let row := mkDbRow "1" "z" "WWW" "CNAME" "web" None None in
  ∃ r, r ∈ [row] ∧ db_zone r = "z" ∧ Some (db_id r) ≠ None
    ∧ _meet (mkNameRow "www" "A" "10.0.0.1" (Some "v")) (as_name_row r) = true.
Proof.
  cbv zeta. apply (find_cname_conflict_twin [mkDbRow "1" "z" "WWW" "CNAME" "web" None None]).
  - split; [reflexivity|]. exists "ww", "w"%char. split; [reflexivity|discriminate].
  - intros r ->%list_elem_of_singleton. split; [|reflexivity].
    split; [reflexivity|]. exists "WW", "W"%char. split; [reflexivity|discriminate].
  - eexists. reflexivity.
Defined.
End CnameRule.
