(* ===== verification/Svcb.v ===== *)
(** * SVCB and HTTPS records

    The block of [services/technitium/rdata.py] on SVCB / HTTPS rdata: one
    comparison form for what an operator writes, what Technitium is sent and
    what it reports back.  [ZoneDiff] compares values by [svcb_canonical].  A
    byte string is a [str] (a byte is a Latin-1 character); [encode] is UTF-8. *)
From S2P Require Import IpNet PyStr Json PyValue.
Import Json PyValue.
Import IpNet(version, V4, V6).

Module Svcb.

(** ** [str(ip_address(s))] *)
Definition octet (n : Z) (i : nat) : Z := Z.land (Z.shiftr n (8 * Z.of_nat (3 - i))) 255.
Definition hextet (n : Z) (i : nat) : Z := Z.land (Z.shiftr n (16 * Z.of_nat (7 - i))) 65535.

(** ["%x" % n] for a 16-bit [n]. *)
Definition hex16 (n : Z) : str :=
  let ds := map (λ i, hex_digit (Z.to_nat (Z.land (Z.shiftr n (4 * Z.of_nat (3 - i))) 15))) (seq 0 4) in
  match dropwhile (chr_is "0") ds with [] => "0" | s => s end.

(** [_compress_hextets]: the longest run of zeros, the first of several. *)
Fixpoint zero_run (l : list str) : nat :=
  match l with w :: l' => if bool_decide (w = "0") then S (zero_run l') else 0 | [] => 0 end.

Fixpoint best_run (i : nat) (best : nat * nat) (l : list str) : nat * nat :=
  match l with
  | [] => best
  | _ :: l' => best_run (S i) (if snd best <? zero_run l then (i, zero_run l) else best) l'
  end.

Definition compress (hextets : list str) : list str :=
  let '(start, len) := best_run 0 (0, 0) hextets in
  if 1 <? len then
    (if bool_decide (start = 0) then [[]] else []) ++ take start hextets ++ [[]] ++ drop (start + len) hextets
    ++ (if bool_decide (start + len = length hextets) then [[]] else [])
  else hextets.

Definition str_of_addr (a : addr) : str :=
  match ip_version a with
  | V4 => join "." (map (λ i, str_of_Z (octet (ip_int a) i)) (seq 0 4))
  | V6 => join ":" (compress (map (λ i, hex16 (hextet (ip_int a) i)) (seq 0 8))) ++
          from_option (λ scope, "%" ++ scope) [] (scope_id a)
  end.

(** ** [bytes.fromhex], [bytes.hex], [base64] *)
Definition byte (n : Z) : ascii := ascii_of_nat (Z.to_nat n).

Definition ascii_space (c : ascii) : bool := between 9 13 c || chr_is " " c.

Fixpoint fromhex (s : str) : option str :=
  match s with
  | [] => Some []
  | c :: s' =>
      if ascii_space c then fromhex s'
      else match s' with
           | d :: s'' =>
               hi ← hex_value c;
               lo ← hex_value d;
               rest ← fromhex s'';
               Some (byte (16 * hi + lo) :: rest)
           | [] => None
           end
  end.

Definition hex_upper (data : str) : str := mjoin (map (λ b, upper [hex_digit (ord b / 16); hex_digit (ord b mod 16)]) data).

Definition b64_value (c : ascii) : option Z :=
  if is_upper_az c then Some (Z.of_nat (ord c - 65))
  else if is_lower_az c then Some (Z.of_nat (ord c - 71))
  else if is_digit c then Some (Z.of_nat (ord c + 4))
  else if chr_is "+" c then Some 62%Z
  else if chr_is "/" c then Some 63%Z
  else None.

Definition b64_char (n : Z) : ascii :=
  if (n <? 26)%Z then byte (n + 65) else if (n <? 52)%Z then byte (n + 71)
  else if (n <? 62)%Z then byte (n - 4) else if (n =? 62)%Z then "+"%char else "/"%char.

(** [binascii.a2b_base64(s, strict_mode=True)]: [quad] characters of a group of
    four are read, [left] are their bits not yet written. *)
Fixpoint a2b_base64 (quad pads : nat) (padding : bool) (left : Z) (s : str) : option str :=
  match s with
  | [] => if bool_decide (quad = 0) then Some [] else None
  | c :: s' =>
      if chr_is "=" c then
        if 2 <=? quad then
          if 4 <=? quad + S pads then (if bool_decide (s' = []) then Some [] else None)
          else a2b_base64 quad (S pads) true left s'
        else a2b_base64 quad pads true left s'
      else
        v ← b64_value c;
        if padding then None
        else match quad with
        | 0 => a2b_base64 1 0 false v s'
        | 1 => cons (byte (4 * left + v / 16)) <$> a2b_base64 2 0 false (v mod 16) s'
        | 2 => cons (byte (16 * left + v / 4)) <$> a2b_base64 3 0 false (v mod 4) s'
        | _ => cons (byte (64 * left + v)) <$> a2b_base64 0 0 false 0 s'
        end
  end.

Definition b64decode (s : str) : option str :=
  if negb (isascii s) || startswith "=" s then None else a2b_base64 0 0 false 0 s.

Fixpoint b64encode (data : str) : str :=
  match data with
  | [] => []
  | a :: [] =>
      let n := Z.of_nat (ord a) in
      [b64_char (n / 4); b64_char (n mod 4 * 16); "="%char; "="%char]
  | a :: b :: [] =>
      let n := Z.of_nat (256 * ord a + ord b) in
      [b64_char (n / 1024); b64_char (n / 16 mod 64); b64_char (n mod 16 * 4); "="%char]
  | a :: b :: c :: rest =>
      let n := Z.of_nat (256 * (256 * ord a + ord b) + ord c) in
      b64_char (n / 262144) :: b64_char (n / 4096 mod 64) :: b64_char (n / 64 mod 64) :: b64_char (n mod 64) :: b64encode rest
  end.

(** ** Keys *)
Definition _SVCB_KEY_NUM : list (str * Z) :=
  [("mandatory" : str, 0); ("alpn", 1); ("no-default-alpn", 2); ("port", 3); ("ipv4hint", 4); ("ech", 5);
   ("ipv6hint", 6); ("dohpath", 7)]%Z.

Definition _SVCB_KEY_NAME (num : Z) : option str := fst <$> List.find (λ '(_, n), (n =? num)%Z) _SVCB_KEY_NUM.

(** [s.isascii() and s.isdigit()] *)
Definition ascii_digits (s : str) : bool := negb (bool_decide (s = [])) && forallb is_digit s.

Definition replace_chr (a b : ascii) (s : str) : str := map (λ c, if chr_is a c then b else c) s.
Definition remove_chr (a : ascii) (s : str) : str := List.filter (λ c, negb (chr_is a c)) s.

Definition named_key (digits : str) : str :=
  let num := default 0%Z (int_of_str digits) in
  default ("key" ++ str_of_Z num) (_SVCB_KEY_NAME num).

Definition _svcb_is_generic (key : str) : bool := startswith "key" key && ascii_digits (drop 3 key).

Definition _svcb_norm_key (key : str) : str :=
  let k := replace_chr "_" "-" (lower (strip is_space key)) in
  if ascii_digits k then named_key k
  else if _svcb_is_generic k then named_key (drop 3 k)
  else k.

Definition _svcb_key_num (key : str) : Z :=
  match dget key _SVCB_KEY_NUM with
  | Some n => n
  | None => if _svcb_is_generic key then default 0%Z (int_of_str (drop 3 key)) else 65536%Z
  end.

(** ** Presentation form *)
Definition BACKSLASH : ascii := ascii_of_nat 92.

(** [cur] is the token being read. *)
Fixpoint split_go (cur : str) (in_quote : bool) (s : str) : list str :=
  match s with
  | [] => if bool_decide (cur = []) then [] else [cur]
  | c :: s' =>
      if chr_is BACKSLASH c then
        match s' with
        | d :: s'' => split_go (cur ++ [c; d]) in_quote s''
        | [] => [cur ++ [c]]
        end
      else if chr_is QUOTE c then split_go (cur ++ [c]) (negb in_quote) s'
      else if is_space c && negb in_quote then
        (if bool_decide (cur = []) then [] else [cur]) ++ split_go [] in_quote s'
      else split_go (cur ++ [c]) in_quote s'
  end.

Definition _svcb_split (value : str) : list str := split_go [] false value.

Definition _svcb_unquote (raw : str) : str :=
  if (2 <=? length raw) && startswith [QUOTE] raw && endswith [QUOTE] raw then removelast (drop 1 raw) else raw.

Definition decimal3 (a b c : ascii) : option Z :=
  if forallb is_digit [a; b; c] then int_of_str [a; b; c] else None.

Fixpoint _svcb_unescape (text : str) : str :=
  match text with
  | [] => []
  | ch :: rest =>
      if chr_is BACKSLASH ch then
        match rest with
        | [] => [ch]
        | d :: rest1 =>
            match rest1 with
            | e :: f :: rest3 =>
                match decimal3 d e f with
                | Some n => if (n <? 256)%Z then byte n :: _svcb_unescape rest3 else encode [d] ++ _svcb_unescape rest1
                | None => encode [d] ++ _svcb_unescape rest1
                end
            | _ => encode [d] ++ _svcb_unescape rest1
            end
        end
      else encode [ch] ++ _svcb_unescape rest
  end.

Definition digits3 (n : nat) : str := [digit_chr (n / 100); digit_chr (n / 10 mod 10); digit_chr (n mod 10)].

Definition escape_byte (b : ascii) : str :=
  if chr_is QUOTE b || chr_is BACKSLASH b then [BACKSLASH; b]
  else if between 33 126 b then [b]
  else BACKSLASH :: digits3 (ord b).

Definition _svcb_escape (data : str) : str := mjoin (map escape_byte data).

Definition _svcb_hex_bytes (value : str) : option str := fromhex (remove_chr "-" (remove_chr ":" value)).
Definition _svcb_b64_bytes (value : str) : option str := b64decode (strip is_space value).
Definition _svcb_ip (value : str) : str :=
  from_option str_of_addr (strip is_space value) (ip_address (strip is_space value)).

(** ** Values *)
Definition nonempty (s : str) : option str := if bool_decide (s = []) then None else Some s.
Definition nonblank (s : str) : bool := negb (bool_decide (strip is_space s = [])).

(** The order of [sorted(..., key=lambda n: (_svcb_key_num(n), n))]. *)
Definition key_le (a b : str) : Prop :=
  (_svcb_key_num a < _svcb_key_num b)%Z ∨ (_svcb_key_num a = _svcb_key_num b ∧ str_le a b).

#[export] Instance key_le_dec : RelDecision key_le.
Proof. intros a b. unfold key_le. apply _. Defined.

Definition _svcb_canon_value (key : str) (val : option str) (from_daemon : bool) : option str :=
  v ← val ≫= nonempty;
  if bool_decide (key = "mandatory") then
    nonempty (join "," (merge_sort key_le (remove_dups (map _svcb_norm_key (List.filter nonblank (split "," v))))))
  else if bool_decide (key = "ipv4hint") || bool_decide (key = "ipv6hint") then
    Some (join "," (map _svcb_ip (List.filter nonblank (split "," v))))
  else if bool_decide (key = "port") then
    Some (if ascii_digits (strip is_space v) then str_of_Z (default 0%Z (int_of_str v)) else v)
  else if bool_decide (key = "ech") then
    Some (from_option b64encode v (if from_daemon then _svcb_hex_bytes v else _svcb_b64_bytes v))
  else if _svcb_is_generic key then
    match (if from_daemon then _svcb_hex_bytes v else Some (_svcb_unescape v)) with
    | None => Some v
    | Some data => nonempty (_svcb_escape data)
    end
  else Some v.

(** ** Parameter lists *)
Abbreviation params := (list (str * option str)).

Definition param_le (a b : str * option str) : Prop := key_le (fst a) (fst b).

#[export] Instance param_le_dec : RelDecision param_le.
Proof. intros a b. unfold param_le. apply _. Defined.

Definition canon_param (from_daemon : bool) (item : str * option str) : str * option str :=
  let key := _svcb_norm_key (fst item) in (key, _svcb_canon_value key (snd item) from_daemon).

Definition _svcb_param_list (items : params) (from_daemon : bool) : params :=
  merge_sort param_le (dict_of (map (canon_param from_daemon) items)).

Definition _svcb_wire_key (key : str) : str := if _svcb_is_generic key then drop 3 key else key.

Definition _svcb_wire_value (key : str) (val : option str) : str :=
  let set := val ≫= nonempty in
  match set with
  | Some v =>
      if bool_decide (key = "mandatory") then join "," (map _svcb_wire_key (split "," v))
      else if bool_decide (key = "ech") then from_option hex_upper v (_svcb_b64_bytes v)
      else if _svcb_is_generic key then hex_upper (_svcb_unescape v)
      else v
  | None =>
      if _svcb_is_generic key then []
      else match val with
           | None => if bool_decide (key = "no-default-alpn") then "true" else []
           | Some v => v
           end
  end.

Definition wire_parts (ps : params) : list str :=
  mjoin (map (λ '(k, v), [_svcb_wire_key k; _svcb_wire_value k v]) ps).

Definition _svcb_wire (ps : params) : str :=
  match ps with [] => "false" | _ => join "|" (wire_parts ps) end.

Definition render_param (item : str * option str) : str :=
  let '(k, val) := item in
  match val with
  | None => k
  | Some v => k ++ "=" ++ (if existsb is_space v then QUOTE :: v ++ [QUOTE] else v)
  end.

Definition _svcb_render (ps : params) : str := join " " (map render_param ps).

(** ** Targets and whole values *)
Definition _zone_file_target (name : str) (origin : option str) : str :=
  let name := strip is_space name in
  if bool_decide (name = []) || bool_decide (name = ".") then "."
  else if endswith "." name then default "." (nonempty (lower (rstrip (chr_is ".") name)))
  else
    let zone := lower (rstrip (chr_is ".") (strip is_space (default [] origin))) in
    if bool_decide (name = "@") then default "." (nonempty zone)
    else if bool_decide (zone = []) then lower name
    else lower (name ++ "." ++ zone).

(** [tok.partition("=")], the value [None] when there is no sign. *)
Fixpoint partition_eq (s : str) : str * option str :=
  match s with
  | [] => ([], None)
  | c :: s' => if chr_is "=" c then ([], Some s') else let '(k, v) := partition_eq s' in (c :: k, v)
  end.

Definition parse_param (tok : str) : str * option str :=
  let '(key, raw) := partition_eq tok in (key, _svcb_unquote <$> raw).

Definition _svcb_parse (value : str) (origin : option str) : Z * str * params :=
  match _svcb_split value with
  | t0 :: t1 :: ts =>
      (if ascii_digits t0 then default 0%Z (int_of_str t0) else 1%Z,
       _zone_file_target t1 origin, _svcb_param_list (map parse_param ts) false)
  | _ => (1%Z, ".", [])
  end.

Definition svcb_params (value : str) (origin : option str) : Z * str * str :=
  let '(priority, target, ps) := _svcb_parse value origin in (priority, target, _svcb_wire ps).

Definition svcb_canonical (value zone_name : str) : str :=
  let '(priority, target, ps) := _svcb_parse value (Some zone_name) in
  let rendered := _svcb_render ps in
  let tgt := if bool_decide (target = ".") then target else target ++ "." in
  str_of_Z priority ++ " " ++ tgt ++ (if bool_decide (rendered = []) then [] else " " ++ rendered).

(** ** Read-back *)
Definition _svcb_daemon_target (name : json) : str :=
  default "." (nonempty (lower (rstrip (chr_is ".") (strip is_space (if truthy name then py_str name else []))))).

Definition _svcb_daemon_params (raw : json) : params :=
  match raw with
  | JObj kvs =>
      _svcb_param_list (map (λ '(k, v), (k, match v with JNull | JStr [] => None | _ => Some (py_str v) end)) kvs) true
  | _ => []
  end.

(** ** Examples *)
Example addresses : map (λ s, str_of_addr <$> ip_address s)
    ["10.0.0.1"; "0:0:0:0:0:0:0:0"; "2001:DB8:0:0:1:0:0:1"; "1:0:0:2:0:0:0:3"; "fe80::A%eth0"; "1:2:3:4:5:6:7:0"; "1:2:3:4:5:6:0:0"]
  = map Some ["10.0.0.1" : str; "::"; "2001:db8::1:0:0:1"; "1:0:0:2::3"; "fe80::a%eth0"; "1:2:3:4:5:6:7:0"; "1:2:3:4:5:6::"].
Proof. vm_compute. reflexivity. Qed.

Example base64s : map b64decode ["AAAA="; "AAAA=="; "AA=="; "AA="; "AAA="; "AAA"; "="; "AA==AA"; "AA=A"; "A==="; "AAA=="; "QUI="]
  = let z := ascii_of_nat 0 in
    [Some [z; z; z]; Some [z; z; z]; Some [z]; None; Some [z; z]; None; None; None; None; None; None; Some "AB"].
Proof. vm_compute. reflexivity. Qed.

Example base64_back : map b64encode ["A"; "AB"; "ABC"; "ABCD"] = ["QQ==" : str; "QUI="; "QUJD"; "QUJDRA=="].
Proof. vm_compute. reflexivity. Qed.

Example canonical_form :
  svcb_canonical ("1 svc PORT=0443 key1=h2,h3 ipv6hint=2001:DB8:0::1 key65000=a" ++ [BACKSLASH] ++ "032b") "Example.net."
  = "1 svc.example.net. alpn=h2,h3 port=443 ipv6hint=2001:db8::1 key65000=a" ++ [BACKSLASH] ++ "032b".
Proof. vm_compute. reflexivity. Qed.

Example wire_form : svcb_params "1 . port=443 alpn=h2,h3 no-default-alpn key065000=hi" None
  = (1%Z, "." : str, "alpn|h2,h3|no-default-alpn|true|port|443|65000|6869" : str).
Proof. vm_compute. reflexivity. Qed.

(** ** Sorting by key *)
#[export] Instance key_le_trans : Transitive key_le.
Proof.
  intros a b c [H1|[H1 H1']] [H2|[H2 H2']]; unfold key_le; [left; lia..|].
  right. split; [lia|]. by apply (str_le_trans _ b).
Qed.

#[export] Instance key_le_total : Total key_le.
Proof.
  intros a b. unfold key_le. destruct (Z.lt_trichotomy (_svcb_key_num a) (_svcb_key_num b)) as [?|[?|?]]; [by left; left| |by right; left].
  destruct (str_le_total a b); [left|right]; right; by split.
Qed.

Lemma key_le_antisymm a b : key_le a b → key_le b a → a = b.
Proof. intros [H1|[H1 H1']] [H2|[H2 H2']]; [lia..|]. by apply str_le_antisymm. Qed.

#[export] Instance param_le_trans : Transitive param_le.
Proof. intros a b c. unfold param_le. apply key_le_trans. Qed.

#[export] Instance param_le_total : Total param_le.
Proof. intros a b. apply key_le_total. Qed.

(** Items with distinct keys sort to one list. *)
Lemma sorted_params_unique (ps qs : params) : NoDup (map fst ps) → ps ≡ₚ qs → merge_sort param_le ps = merge_sort param_le qs.
Proof.
  intros Hd Hp. apply (Sorted_unique_strong param_le); [|apply Sorted_merge_sort, param_le_total..|].
  - intros p q. rewrite !merge_sort_Permutation. intros H1 H2 L1 L2. rewrite <- Hp in H2.
    apply (map_NoDup_inj fst ps _ _ Hd H1 H2). by apply key_le_antisymm.
  - rewrite !merge_sort_Permutation. done.
Qed.

Lemma param_list_perm (items : params) fd : NoDup (map fst (map (canon_param fd) items)) →
  _svcb_param_list items fd ≡ₚ map (canon_param fd) items.
Proof. intros Hd. unfold _svcb_param_list. by rewrite merge_sort_Permutation, dict_of_id. Qed.

Lemma param_list_unique (items items' : params) fd fd' :
  map (canon_param fd) items ≡ₚ map (canon_param fd') items' → NoDup (map fst (map (canon_param fd) items)) →
  _svcb_param_list items fd = _svcb_param_list items' fd'.
Proof.
  intros Hp Hd. unfold _svcb_param_list. rewrite !dict_of_id.
  - by apply sorted_params_unique.
  - by rewrite <- Hp.
  - done.
Qed.

Lemma param_list_sorted items fd : Sorted param_le (_svcb_param_list items fd) ∧ NoDup (map fst (_svcb_param_list items fd)).
Proof.
  split; [apply Sorted_merge_sort, param_le_total|]. unfold _svcb_param_list. rewrite merge_sort_Permutation. apply dict_of_NoDup.
Qed.

(** ** The wire form *)
Lemma wire_split ps : ps ≠ [] → (∀ w, w ∈ wire_parts ps → contains "|" w = false) → split "|" (_svcb_wire ps) = wire_parts ps.
Proof.
  intros Hn Hw. unfold _svcb_wire. destruct ps as [|[k v] ps]; [done|].
  apply split_join; [done|]. by apply Forall_forall.
Qed.

Definition canon_token (t : str) : str * option str := canon_param false (parse_param t).

(** One reading of a value: what [svcb_canonical] depends on. *)
Definition same_record (zone value value' : str) : Prop :=
  ∃ t0 t1 ts t0' t1' ts',
    _svcb_split value = t0 :: t1 :: ts ∧ _svcb_split value' = t0' :: t1' :: ts' ∧
    (if ascii_digits t0 then default 0%Z (int_of_str t0) else 1%Z)
    = (if ascii_digits t0' then default 0%Z (int_of_str t0') else 1%Z) ∧
    _zone_file_target t1 (Some zone) = _zone_file_target t1' (Some zone) ∧
    map canon_token ts ≡ₚ map canon_token ts' ∧ NoDup (map fst (map canon_token ts)).

(** ** Properties *)

(** C34 -- The comparison form of SVCB / HTTPS rdata.  Two values that name the
    same priority and target in a zone and the same parameters, in any order
    and under any spelling of the keys, each key once, have one canonical
    form.  Parameters always come out in the order of their key numbers, each
    key once.  And what is sent to Technitium reads back, split at bars, as
    exactly the keys and values, as long as none of these holds a bar. *)
Theorem svcb_one_form (zone : str) :
  (∀ value value', same_record zone value value' → svcb_canonical value zone = svcb_canonical value' zone) ∧
  (∀ value, let '(_, _, ps) := _svcb_parse value (Some zone) in Sorted param_le ps ∧ NoDup (map fst ps)) ∧
  (∀ ps, ps ≠ [] → (∀ w, w ∈ wire_parts ps → contains "|" w = false) → split "|" (_svcb_wire ps) = wire_parts ps).
Proof.
  split_and!.
  - intros value value' (t0 & t1 & ts & t0' & t1' & ts' & Hs & Hs' & Hp & Ht & Hi & Hd). unfold svcb_canonical, _svcb_parse.
    rewrite Hs, Hs', Hp, Ht. rewrite (param_list_unique (map parse_param ts) (map parse_param ts') false false); [done| |];
      by rewrite !map_map in *.
  - intros value. unfold _svcb_parse. destruct (_svcb_split value) as [|t0 [|t1 ts]]; [by split; constructor..|].
    apply param_list_sorted.
  - apply wire_split.
Qed.

Example reordered : same_record "example.net" "1 svc.example.net. PORT=443 alpn=h2" "01 svc key1=h2 port=0443".
Proof.
  exists "1", "svc.example.net.", ["PORT=443"; "alpn=h2"], "01", "svc", ["key1=h2"; "port=0443"].
  split_and!; try (vm_compute; reflexivity).
  - set (l := map _ ["PORT=443" : str; "alpn=h2"]). vm_compute in l. subst l.
    set (l := map _ ["key1=h2" : str; "port=0443"]). vm_compute in l. subst l. apply Permutation_swap.
  - apply (bool_decide_unpack _). vm_compute. reflexivity.
Qed.

(** A bar in a value becomes a parameter of its own. *)
Example bar_in_value : svcb_params "1 . alpn=h2|port|8443" None = svcb_params "1 . alpn=h2 port=8443" None.
Proof. vm_compute. reflexivity. Qed.
End Svcb.
