(* ===== verification/ZoneDiff.v ===== *)
(** * Zone-file import: the diff

    [backend/app/services/dns_io/diff.py]: parsed zone-file records against the
    live rows of the zone, with [managed_by] / [managed_reason] of
    [backend/app/services/dns_io/spreadsheet.py].  Ids are strings; the
    presentation form of a TXT value is the one of [DnsTxt], so the canonical
    value of a key is a list of code points.  SVCB and HTTPS values
    compare by [Svcb.svcb_canonical]; [str.isprintable] is the parameter
    [isprintable]. *)
From S2P Require Import Prelude PyStr DnsTxt CnameRule Svcb.

Module ZoneDiff.

(** ** Data *)
Record ParsedRecord := mkParsed {
  p_name : str;
  p_type : str;
  p_value : str;
  p_ttl : option Z;
  p_priority : option Z;
  p_weight : option Z;
  p_port : option Z;
}.

(** A live row: what the diff compares, and what says who owns it. *)
Record DNSRecord := mkRow {
  r_id : str;
  r_name : str;
  r_type : str;
  r_value : str;
  r_ttl : option Z;
  r_priority : option Z;
  r_weight : option Z;
  r_port : option Z;
  r_view : option str;
  pool_member_id : option str;
  tailscale_tenant_id : option str;
  netbird_instance_id : option str;
  kubernetes_cluster_id : option str;
  acme_tag : bool;
  auto_generated : bool;
  ip_alias : bool;
  ip_address_id : option str;
  import_source : option str;
}.

Record RecordChange := mkChange {
  op : str;
  c_name : str;
  c_type : str;
  c_value : str;
  c_ttl : option Z;
  c_priority : option Z;
  c_weight : option Z;
  c_port : option Z;
  existing_id : option str;
  c_view : option str;
}.

Record Diff := mkDiff {
  to_create : list RecordChange;
  to_update : list RecordChange;
  to_delete : list RecordChange;
  unchanged : list RecordChange;
  skipped : list str;
}.

(** ** Ownership *)
Definition EXTERNAL_IMPORT_SOURCE : str := "ddns_external".

Definition managed_by (r : DNSRecord) : option str :=
  if bool_decide (pool_member_id r ≠ None) then Some "pool"
  else if bool_decide (tailscale_tenant_id r ≠ None) then Some "tailscale"
  else if bool_decide (netbird_instance_id r ≠ None) then Some "netbird"
  else if bool_decide (kubernetes_cluster_id r ≠ None) then Some "kubernetes"
  else if acme_tag r then Some "acme"
  else if auto_generated r || ip_alias r || bool_decide (ip_address_id r ≠ None) then Some "ipam"
  else if bool_decide (import_source r = Some EXTERNAL_IMPORT_SOURCE) then Some "ddns"
  else None.

Definition _MANAGED_REASON (owner : str) : str :=
  if bool_decide (owner = "ipam") then "generated by IPAM; edit the IP address instead"
  else if bool_decide (owner = "pool") then "managed by a DNS pool; edit the pool member instead"
  else if bool_decide (owner = "tailscale") then "synthesised by the Tailscale integration"
  else if bool_decide (owner = "netbird") then "synthesised by the NetBird integration"
  else if bool_decide (owner = "kubernetes") then "mirrored from a Kubernetes cluster"
  else if bool_decide (owner = "acme") then "an ACME challenge record; its certificate order removes it"
  else "registered by a dynamic-update client in the live zone; delete it from the record list to remove it".

Definition managed_reason (r : DNSRecord) : option str := _MANAGED_REASON <$> managed_by r.

(** ** Keys *)
Abbreviation key := (str * str * list Z)%type.

Definition cps (s : str) : list Z := map (λ c, Z.of_nat (ord c)) s.

Definition _NAME_VALUED_TYPES : list str := ["CNAME"; "DNAME"; "NS"; "PTR"; "MX"; "SRV"].

Definition _abs_name (v zone : str) : str :=
  let v := lower (strip is_space v) in
  if bool_decide (v = []) || bool_decide (v = "@") then zone
  else if endswith v "." then v else v ++ "." ++ zone.

(** [s.rpartition(" ")], when [s] holds a space. *)
Fixpoint rpartition_space (s : str) : option (str * str) :=
  match s with
  | [] => None
  | c :: s' =>
      match rpartition_space s' with
      | Some (h, t) => Some (c :: h, t)
      | None => if Ascii.eqb c " " then Some ([], s') else None
      end
  end.

Section diff.
Variable isprintable : Z → bool.

Definition _canonical_value (rtype value : str) (zone : option str) : list Z :=
  match zone with
  | None => cps value
  | Some zone =>
      if bool_decide (rtype = "TXT") then DnsTxt.quote_txt isprintable (cps value)
      else if bool_decide (rtype ∈ _NAME_VALUED_TYPES) then cps (_abs_name value zone)
      else if bool_decide (rtype = "NAPTR") then
        match rpartition_space (strip is_space value) with
        | Some (head, replacement) => cps (lower head ++ " " ++ _abs_name replacement zone)
        | None => cps value
        end
      else if bool_decide (rtype = "SVCB") || bool_decide (rtype = "HTTPS")
      then cps (Svcb.svcb_canonical (strip is_space value) zone)
      else cps value
  end.

Definition _record_key (name rtype value : str) (zone : option str) : key :=
  (lower name, upper rtype, _canonical_value (upper rtype) value zone).

Definition _label (name rtype value : str) : str := name ++ " " ++ rtype ++ " " ++ value.

Definition _scope_name (view_id : option str) (view_names : gmap str str) : str :=
  match view_id with
  | None => "shared (no view)"
  | Some v => "view " ++ default v (view_names !! v)
  end.

Definition pkey (zone : option str) (p : ParsedRecord) : key :=
  _record_key (p_name p) (p_type p) (p_value p) zone.
Definition rkey (zone : option str) (r : DNSRecord) : key :=
  _record_key (r_name r) (r_type r) (r_value r) zone.

(** A dict from keys to lists, in insertion order; [setdefault(k, []).append(r)]. *)
Fixpoint append_at (d : list (key * list DNSRecord)) (k : key) (r : DNSRecord)
    : list (key * list DNSRecord) :=
  match d with
  | [] => [(k, [r])]
  | (k', rs) :: d' =>
      if bool_decide (k' = k) then (k', rs ++ [r]) :: d' else (k', rs) :: append_at d' k r
  end.

Fixpoint get (d : list (key * list DNSRecord)) (k : key) : list DNSRecord :=
  match d with
  | [] => []
  | (k', rs) :: d' => if bool_decide (k' = k) then rs else get d' k
  end.

Definition index_rows (zone : option str) (rows : list DNSRecord) : list (key * list DNSRecord) :=
  foldl (λ d r, append_at d (rkey zone r) r) [] rows.

(** [a or b] on lists. *)
Definition list_or {A} (a b : list A) : list A := match a with [] => b | _ => a end.

Definition _effective (zone_default_ttl : option Z) (row : DNSRecord) : option Z :=
  match r_ttl row with None => zone_default_ttl | t => t end.

Definition rk (p : ParsedRecord) : str * str := (lower (p_name p), upper (p_type p)).

Definition min_step (dflt : option Z) (k : str * str) (m : gmap (str * str) Z) (row : DNSRecord)
    : gmap (str * str) Z :=
  match _effective dflt row with
  | None => m
  | Some eff => <[k := Z.min eff (default eff (m !! k))]> m
  end.

Definition rrset_mins (zone : option str) (dflt : option Z)
    (in_scope shared : list (key * list DNSRecord)) (parsed : list ParsedRecord)
    : gmap (str * str) Z :=
  foldl (λ m p, foldl (min_step dflt (rk p)) m
                  (list_or (get in_scope (pkey zone p)) (get shared (pkey zone p)))) ∅ parsed.

Definition _changes (dflt : option Z) (mins : gmap (str * str) Z) (p : ParsedRecord)
    (row : DNSRecord) : bool * bool :=
  let ttl_changed :=
    match r_ttl row, dflt with
    | None, Some d => bool_decide (p_ttl p ≠ None) && negb (bool_decide (p_ttl p = Some d))
    | _, _ => negb (bool_decide (default 0%Z (p_ttl p) = default 0%Z (r_ttl row)))
    end in
  let ttl_changed := ttl_changed && negb (bool_decide (p_ttl p = mins !! rk p)) in
  (ttl_changed,
   negb (bool_decide (p_priority p = r_priority row)) || negb (bool_decide (p_weight p = r_weight row))
   || negb (bool_decide (p_port p = r_port row))).

Definition _unchanged (p : ParsedRecord) (row : DNSRecord) : RecordChange :=
  mkChange "unchanged" (p_name p) (p_type p) (p_value p) (p_ttl p) (p_priority p) (p_weight p)
           (p_port p) (Some (r_id row)) (r_view row).

Definition add_create (d : Diff) (c : RecordChange) : Diff :=
  mkDiff (to_create d ++ [c]) (to_update d) (to_delete d) (unchanged d) (skipped d).
Definition add_update (d : Diff) (c : RecordChange) : Diff :=
  mkDiff (to_create d) (to_update d ++ [c]) (to_delete d) (unchanged d) (skipped d).
Definition add_delete (d : Diff) (c : RecordChange) : Diff :=
  mkDiff (to_create d) (to_update d) (to_delete d ++ [c]) (unchanged d) (skipped d).
Definition add_unchanged (d : Diff) (c : RecordChange) : Diff :=
  mkDiff (to_create d) (to_update d) (to_delete d) (unchanged d ++ [c]) (skipped d).
Definition add_skipped (d : Diff) (s : str) : Diff :=
  mkDiff (to_create d) (to_update d) (to_delete d) (unchanged d) (skipped d ++ [s]).
(** One row of the file's key: [for row in rows]. *)
Definition diff_row (dflt : option Z) (mins : gmap (str * str) Z) (p : ParsedRecord)
    (d : Diff) (row : DNSRecord) : Diff :=
  let '(ttl_changed, meta_changed) := _changes dflt mins p row in
  if negb (ttl_changed || meta_changed) then add_unchanged d (_unchanged p row)
  else match managed_reason row with
       | Some reason =>
           add_skipped d (_label (p_name p) (p_type p) (p_value p)
                            ++ ": not changed - this record is " ++ reason)
       | None =>
           add_update d (mkChange "update" (p_name p) (p_type p) (p_value p)
             (if ttl_changed then p_ttl p else r_ttl row) (p_priority p) (p_weight p) (p_port p)
             (Some (r_id row)) (r_view row))
       end.

Definition scope_names (names : gmap str str) (rows : list DNSRecord) : list str :=
  merge_sort str_le (remove_dups (map (λ r, _scope_name (r_view r) names) rows)).

(** One parsed record whose key is new: the body of [for p in parsed_list]. *)
Definition diff_parsed (dflt : option Z) (view_id : option str) (names : gmap str str)
    (zone : option str) (in_scope shared in_views : list (key * list DNSRecord))
    (mins : gmap (str * str) Z) (d : Diff) (p : ParsedRecord) : Diff :=
  let k := pkey zone p in
  let label := _label (p_name p) (p_type p) (p_value p) in
  match get in_scope k, get shared k, get in_views k with
  | row :: rows, _, _ => foldl (diff_row dflt mins p) d (row :: rows)
  | [], shared_rows, view_rows =>
      match (if bool_decide (view_id ≠ None) then head shared_rows else None) with
      | Some row =>
          let '(t, m) := _changes dflt mins p row in
          if t || m then
            add_skipped d (label ++ ": not changed - this record is shared by every view; import it without a view to change it")
          else add_unchanged d (_unchanged p row)
      | None =>
          if bool_decide (view_id = None) && negb (bool_decide (view_rows = [])) then
            add_skipped d (label ++ ": not created - it exists only in "
              ++ join ", " (scope_names names view_rows)
              ++ "; a shared copy would render in every view. Import into a view to manage view records")
          else
            add_create d (mkChange "create" (p_name p) (p_type p) (p_value p) (p_ttl p)
                            (p_priority p) (p_weight p) (p_port p) None view_id)
      end
  end.

(** The loop over the parsed records, with [seen_keys]. *)
Fixpoint diff_file (dflt : option Z) (view_id : option str) (names : gmap str str)
    (zone : option str) (in_scope shared in_views : list (key * list DNSRecord))
    (mins : gmap (str * str) Z) (seen : gset key) (d : Diff) (parsed : list ParsedRecord)
    : gset key * Diff :=
  match parsed with
  | [] => (seen, d)
  | p :: ps =>
      if bool_decide (pkey zone p ∈ seen)
      then diff_file dflt view_id names zone in_scope shared in_views mins seen d ps
      else diff_file dflt view_id names zone in_scope shared in_views mins ({[pkey zone p]} ∪ seen)
             (diff_parsed dflt view_id names zone in_scope shared in_views mins d p) ps
  end.

(** A row of the scope the file does not name. *)
Definition diff_leftover (replace : bool) (d : Diff) (row : DNSRecord) : Diff :=
  match managed_reason row with
  | Some reason =>
      if replace then
        add_skipped d (_label (r_name row) (r_type row) (r_value row)
                         ++ ": not deleted - this record is " ++ reason)
      else d
  | None =>
      add_delete d (mkChange "delete" (r_name row) (r_type row) (r_value row) (r_ttl row)
        (r_priority row) (r_weight row) (r_port row) (Some (r_id row)) (r_view row))
  end.

Definition diff_leftovers (replace : bool) (seen : gset key) (d : Diff)
    (in_scope : list (key * list DNSRecord)) : Diff :=
  foldl (λ d '(k, rows), if bool_decide (k ∈ seen) then d else foldl (diff_leftover replace) d rows)
        d in_scope.

(** The note on the rows of other scopes a replace leaves in place. *)
Definition scope_count (names : gmap str str) (rows : list DNSRecord) (scope : str) : str :=
  str_of_nat (length (List.filter (λ r, bool_decide (_scope_name (r_view r) names = scope)) rows))
    ++ " " ++ scope.

Definition note_out_of_scope (replace : bool) (view_id : option str) (names : gmap str str)
    (d : Diff) (out_of_scope : list DNSRecord) : Diff :=
  if replace && negb (bool_decide (out_of_scope = [])) then
    add_skipped d ("not deleted: " ++ str_of_nat (length out_of_scope)
      ++ " record(s) outside this import's scope (" ++ _scope_name view_id names
      ++ ") were left in place - "
      ++ join ", " (map (scope_count names out_of_scope) (scope_names names out_of_scope)))
  else d.

Definition zone_origin (zone_name : option str) : option str :=
  match zone_name with
  | Some (c :: n) => Some (rstrip (λ c, Ascii.eqb c ".") (lower (c :: n)) ++ ".")
  | _ => None
  end.

Definition diff_records (parsed : list ParsedRecord) (existing : list DNSRecord)
    (zone_default_ttl : option Z) (view_id : option str) (view_names : gmap str str)
    (replace : bool) (zone_name : option str) : Diff :=
  let zone := zone_origin zone_name in
  let mine := λ r, bool_decide (r_view r = view_id) in
  let out_of_scope := List.filter (λ r, negb (mine r)) existing in
  let in_scope := index_rows zone (List.filter mine existing) in
  let shared := index_rows zone (List.filter (λ r, bool_decide (r_view r = None)) out_of_scope) in
  let in_views :=
    index_rows zone (List.filter (λ r, negb (bool_decide (r_view r = None))) out_of_scope) in
  let mins := rrset_mins zone zone_default_ttl in_scope shared parsed in
  let '(seen, d) :=
    diff_file zone_default_ttl view_id view_names zone in_scope shared in_views mins ∅
      (mkDiff [] [] [] [] []) parsed in
  note_out_of_scope replace view_id view_names (diff_leftovers replace seen d in_scope) out_of_scope.
End diff.

(** [for i, c in enumerate(diff.to_create)] of [apply_cname_rule]. *)
Fixpoint keep_creates (refused : gmap nat str) (i : nat) (cs : list RecordChange)
    : list RecordChange * list str :=
  match cs with
  | [] => ([], [])
  | c :: cs' =>
      let '(keep, skip) := keep_creates refused (S i) cs' in
      match refused !! i with
      | Some why => (keep, (c_name c ++ " " ++ c_type c ++ " " ++ c_value c ++ ": skipped - " ++ why) :: skip)
      | None => (c :: keep, skip)
      end
  end.

Definition change_row (c : RecordChange) : CnameRule.NameRow :=
  CnameRule.mkNameRow (c_name c) (c_type c) (c_value c) (c_view c).

Definition standing_row (r : DNSRecord) : CnameRule.NameRow :=
  CnameRule.mkNameRow (r_name r) (r_type r) (r_value r) (r_view r).

(** The rows that survive the import. *)
Definition standing (d : Diff) (existing : list DNSRecord) (replace : bool) : list DNSRecord :=
  let dropped := if replace then map existing_id (to_delete d) else [] in
  List.filter (λ r, negb (bool_decide (Some (r_id r) ∈ dropped))) existing.

Definition apply_cname_rule (d : Diff) (existing : list DNSRecord) (replace : bool) : Diff :=
  let refused := CnameRule.refused_by_cname_rule (map change_row (to_create d))
                   (map standing_row (standing d existing replace)) in
  if bool_decide (refused = ∅) then d
  else let '(keep, skip) := keep_creates refused 0 (to_create d) in
       mkDiff keep (to_update d) (to_delete d) (unchanged d) (skipped d ++ skip).

(** ** Dicts of rows *)
Section proofs.
Variable isprintable : Z → bool.
Abbreviation pkey := (pkey isprintable).
Abbreviation rkey := (rkey isprintable).
Abbreviation index_rows := (index_rows isprintable).

Lemma get_append d k r k' :
  get (append_at d k r) k' = if bool_decide (k = k') then get d k' ++ [r] else get d k'.
Proof.
  induction d as [|[k1 rs] d IH]; simpl; [by case_bool_decide|].
  destruct (decide (k1 = k)) as [->|Hn].
  - rewrite (bool_decide_true (k = k)) by done. simpl. by case_bool_decide.
  - rewrite (bool_decide_false (k1 = k)) by done. simpl. rewrite IH.
    destruct (decide (k1 = k')) as [->|]; [|by rewrite (bool_decide_false (k1 = k'))].
    rewrite (bool_decide_true (k' = k')) by done. by rewrite bool_decide_false by congruence.
Qed.

Lemma append_keys d k r :
  map fst (append_at d k r) = if bool_decide (k ∈ map fst d) then map fst d else map fst d ++ [k].
Proof.
  induction d as [|[k1 rs] d IH]; simpl; [done|].
  destruct (decide (k1 = k)) as [->|Hn].
  - rewrite (bool_decide_true (k = k)) by done. by rewrite bool_decide_true by left.
  - rewrite (bool_decide_false (k1 = k)) by done. simpl. rewrite IH.
    destruct (decide (k ∈ map fst d)).
    + by rewrite !bool_decide_true by (done || by right).
    + rewrite !bool_decide_false; [done| |done]. by intros [?|?]%elem_of_cons.
Qed.

Lemma index_rows_go zone rows d :
  NoDup (map fst d) →
  let d' := foldl (λ d r, append_at d (rkey zone r) r) d rows in
  NoDup (map fst d')
  ∧ ∀ k, get d' k = get d k ++ List.filter (λ r, bool_decide (rkey zone r = k)) rows.
Proof.
  revert d. induction rows as [|r rows IH]; intros d Hd; simpl.
  { split; [done|]. intros k. by rewrite app_nil_r. }
  destruct (IH (append_at d (rkey zone r) r)) as [I1 I2].
  { rewrite append_keys. case_bool_decide; [done|]. apply NoDup_app.
    split_and!; [done| |apply NoDup_singleton]. intros x Hx ->%list_elem_of_singleton. done. }
  split; [done|]. intros k. rewrite I2, get_append.
  case_bool_decide; [by rewrite <- (assoc (++))|done].
Qed.

Lemma get_index zone rows k :
  get (index_rows zone rows) k = List.filter (λ r, bool_decide (rkey zone r = k)) rows.
Proof. unfold ZoneDiff.index_rows. by rewrite (proj2 (index_rows_go zone rows [] ltac:(constructor))). Qed.

Lemma elem_get_index zone rows k r :
  r ∈ get (index_rows zone rows) k ↔ r ∈ rows ∧ rkey zone r = k.
Proof. by rewrite get_index, elem_filter, bool_decide_eq_true. Qed.

Lemma get_item d k rs : NoDup (map fst d) → (k, rs) ∈ d → get d k = rs.
Proof.
  induction d as [|[k1 rs1] d IH]; intros Hd H; [by apply not_elem_of_nil in H|].
  apply NoDup_cons in Hd as [Hn Hd]. simpl. apply elem_of_cons in H as [[= -> ->]|H].
  - by rewrite bool_decide_true.
  - rewrite bool_decide_false; [auto|]. intros ->. destruct Hn. apply list_elem_of_fmap.
    by exists (k, rs).
Qed.

Lemma get_nonempty d k : get d k ≠ [] → (k, get d k) ∈ d.
Proof.
  induction d as [|[k1 rs] d IH]; simpl; [done|]. case_bool_decide as E; [subst; intros _; left|].
  intros H. right. by apply IH.
Qed.

Lemma elem_index_item zone rows k rs :
  (k, rs) ∈ index_rows zone rows →
  rs = List.filter (λ r, bool_decide (rkey zone r = k)) rows.
Proof.
  intros H. rewrite <- get_index. symmetry. apply get_item; [|done].
  apply (index_rows_go zone rows []). constructor.
Qed.

(** ** The loops *)
Lemma diff_file_seen dflt view names zone A B C mins seen d ps :
  fst (diff_file isprintable dflt view names zone A B C mins seen d ps)
  = seen ∪ list_to_set (map (pkey zone) ps).
Proof.
  revert seen d. induction ps as [|p ps IH]; intros seen d; simpl; [set_solver|].
  case_bool_decide; rewrite IH; set_solver.
Qed.

(** A property of the diff every row and record preserves. *)
Lemma diff_file_inv (P : Diff → Prop) dflt view names zone A B C mins seen d ps :
  P d →
  (∀ d p, P d → p ∈ ps →
     P (diff_parsed isprintable dflt view names zone A B C mins d p)) →
  P (snd (diff_file isprintable dflt view names zone A B C mins seen d ps)).
Proof.
  revert seen d. induction ps as [|p ps IH]; intros seen d Hd Hstep; simpl; [done|].
  case_bool_decide; apply IH; try done.
  - intros d' p' Hp' Hin. apply Hstep; [done|by right].
  - apply Hstep; [done|left].
  - intros d' p' Hp' Hin. apply Hstep; [done|by right].
Qed.

Lemma foldl_inv {A B} (P : A → Prop) (f : A → B → A) a l :
  P a → (∀ a b, P a → b ∈ l → P (f a b)) → P (foldl f a l).
Proof.
  revert a. induction l as [|b l IH]; intros a Ha Hf; simpl; [done|].
  apply IH; [apply Hf; [done|left]|]. intros a' b' Ha' Hb. apply Hf; [done|by right].
Qed.

Lemma diff_row_fields dflt mins p d row :
  let d' := diff_row dflt mins p d row in
  to_create d' = to_create d ∧ to_delete d' = to_delete d
  ∧ ∀ c, c ∈ to_update d' → c ∈ to_update d
      ∨ (managed_reason row = None ∧ existing_id c = Some (r_id row) ∧ c_view c = r_view row
         ∧ (fst (_changes dflt mins p row) || snd (_changes dflt mins p row)) = true).
Proof.
  unfold diff_row. destruct (_changes dflt mins p row) as [t m] eqn:Ec.
  destruct (negb (t || m)) eqn:Et; simpl; [auto|]. apply negb_false_iff in Et.
  destruct (managed_reason row) eqn:E; simpl; [auto|]. split_and!; [done..|].
  intros c [Hc| ->%list_elem_of_singleton]%elem_of_app; auto.
Qed.

Lemma diff_leftover_delete replace d row c :
  c ∈ to_delete (diff_leftover replace d row)
  ↔ c ∈ to_delete d
    ∨ managed_reason row = None
      ∧ c = mkChange "delete" (r_name row) (r_type row) (r_value row) (r_ttl row)
              (r_priority row) (r_weight row) (r_port row) (Some (r_id row)) (r_view row).
Proof.
  unfold diff_leftover. destruct (managed_reason row); [destruct replace|]; simpl.
  - naive_solver.
  - naive_solver.
  - rewrite elem_of_app, list_elem_of_singleton. naive_solver.
Qed.

Lemma diff_leftover_others replace d row :
  to_create (diff_leftover replace d row) = to_create d
  ∧ to_update (diff_leftover replace d row) = to_update d.
Proof. unfold diff_leftover. by destruct (managed_reason row); [destruct replace|]. Qed.

Definition delete_of (r : DNSRecord) : RecordChange :=
  mkChange "delete" (r_name r) (r_type r) (r_value r) (r_ttl r)
    (r_priority r) (r_weight r) (r_port r) (Some (r_id r)) (r_view r).

Definition create_of (view : option str) (p : ParsedRecord) : RecordChange :=
  mkChange "create" (p_name p) (p_type p) (p_value p) (p_ttl p)
    (p_priority p) (p_weight p) (p_port p) None view.

Lemma leftover_rows_delete replace d rows c :
  c ∈ to_delete (foldl (diff_leftover replace) d rows)
  ↔ c ∈ to_delete d ∨ ∃ r, r ∈ rows ∧ managed_reason r = None ∧ c = delete_of r.
Proof.
  revert d. induction rows as [|r rows IH]; intros d; simpl.
  { split; [by left|]. intros [?|(r & []%not_elem_of_nil & _)]; done. }
  rewrite IH, diff_leftover_delete. fold (delete_of r). setoid_rewrite elem_of_cons. split.
  - intros [[?|[? ?]]|(r' & ? & ?)]; eauto 10.
  - intros [?|(r' & [->|?] & ? & ?)]; eauto 10.
Qed.

Lemma leftovers_delete replace seen d items c :
  c ∈ to_delete (diff_leftovers replace seen d items)
  ↔ c ∈ to_delete d ∨ ∃ k rs r, (k, rs) ∈ items ∧ (k ∉ seen) ∧ r ∈ rs
      ∧ managed_reason r = None ∧ c = delete_of r.
Proof.
  unfold diff_leftovers. revert d. induction items as [|[k rs] items IH]; intros d; simpl.
  { split; [by left|]. intros [?|(k & rs & r & []%not_elem_of_nil & _)]; done. }
  rewrite IH. clear IH. setoid_rewrite elem_of_cons. case_bool_decide as Hk.
  - split; (intros [?|(k' & rs' & r & Hin & Hn & H)]; [by left|right]).
    + exists k', rs', r. auto.
    + destruct Hin as [[= -> ->]|Hin]; [done|]. by exists k', rs', r.
  - rewrite leftover_rows_delete. split.
    + intros [[?|(r & Hr)]|(k' & rs' & r & Hin & H)]; [by left|right|right].
      * exists k, rs, r. split_and!; [by left|done|apply Hr..].
      * exists k', rs', r. auto.
    + intros [?|(k' & rs' & r & Hin & Hn & Hr)]; [by left; left|].
      destruct Hin as [[= -> ->]|Hin]; [left; right; by exists r|right]. by exists k', rs', r.
Qed.

Lemma leftovers_others replace seen d items :
  to_create (diff_leftovers replace seen d items) = to_create d
  ∧ to_update (diff_leftovers replace seen d items) = to_update d.
Proof.
  unfold diff_leftovers.
  apply (foldl_inv (λ d', to_create d' = to_create d ∧ to_update d' = to_update d)); [done|].
  intros d1 [k rs] H1 _. case_bool_decide; [done|].
  apply (foldl_inv (λ d', to_create d' = to_create d ∧ to_update d' = to_update d)); [done|].
  intros d2 r H2 _. destruct (diff_leftover_others replace d2 r) as [-> ->]. done.
Qed.

Lemma note_fields replace view names d oos :
  let d' := note_out_of_scope replace view names d oos in
  to_create d' = to_create d ∧ to_update d' = to_update d ∧ to_delete d' = to_delete d.
Proof. unfold note_out_of_scope. by destruct (_ && _). Qed.

(** ** The whole diff, field by field *)
Section fields.
Variables (parsed : list ParsedRecord) (existing : list DNSRecord) (dflt : option Z)
  (view : option str) (names : gmap str str) (replace : bool) (zone_name : option str).
Let zone := zone_origin zone_name.
Let mine := λ r, bool_decide (r_view r = view).
Let others := List.filter (λ r, negb (mine r)) existing.
Let in_scope := index_rows zone (List.filter mine existing).
Let shared := index_rows zone (List.filter (λ r, bool_decide (r_view r = None)) others).
Let in_views := index_rows zone (List.filter (λ r, negb (bool_decide (r_view r = None))) others).
Let mins := rrset_mins isprintable zone dflt in_scope shared parsed.
Let file := diff_file isprintable dflt view names zone in_scope shared in_views mins ∅
              (mkDiff [] [] [] [] []) parsed.
Let d := diff_records isprintable parsed existing dflt view names replace zone_name.

Lemma diff_fields :
  to_create d = to_create (snd file) ∧ to_update d = to_update (snd file)
  ∧ to_delete d = to_delete (diff_leftovers replace (fst file) (snd file) in_scope).
Proof.
  change d with (let '(seen, d0) := file in
    note_out_of_scope replace view names (diff_leftovers replace seen d0 in_scope) others).
  destruct file as [seen fd]. cbn [fst snd].
  destruct (note_fields replace view names (diff_leftovers replace seen fd in_scope) others)
    as (-> & -> & ->).
  by destruct (leftovers_others replace seen fd in_scope) as [-> ->].
Qed.

Lemma elem_in_scope k r :
  r ∈ get in_scope k ↔ r ∈ existing ∧ r_view r = view ∧ rkey zone r = k.
Proof.
  unfold in_scope. rewrite elem_get_index, elem_filter. unfold mine.
  rewrite bool_decide_eq_true. tauto.
Qed.

Lemma elem_shared k r :
  r ∈ get shared k ↔ r ∈ existing ∧ r_view r ≠ view ∧ r_view r = None ∧ rkey zone r = k.
Proof.
  unfold shared, others. rewrite elem_get_index, !elem_filter. unfold mine.
  rewrite negb_true_iff, bool_decide_eq_true, bool_decide_eq_false. tauto.
Qed.

Lemma elem_in_views k r :
  r ∈ get in_views k ↔ r ∈ existing ∧ r_view r ≠ view ∧ r_view r ≠ None ∧ rkey zone r = k.
Proof.
  unfold in_views, others. rewrite elem_get_index, !elem_filter. unfold mine.
  rewrite !negb_true_iff, !bool_decide_eq_false. tauto.
Qed.

Lemma file_delete : to_delete (snd file) = [].
Proof.
  unfold file. apply (diff_file_inv (λ d, to_delete d = [])); [done|].
  intros d1 p H1 _. unfold diff_parsed. destruct (get in_scope _) as [|r rs].
  - destruct (if bool_decide _ then _ else _) as [row|];
      [destruct (_changes _ _ _ _) as [[] []]; done|by destruct (_ && _)].
  - apply (foldl_inv (λ d, to_delete d = [])); [done|]. intros d2 row H2 _.
    by destruct (diff_row_fields dflt mins p d2 row) as (_ & -> & _).
Qed.

Lemma diff_delete c :
  c ∈ to_delete d
  ↔ ∃ r, r ∈ existing ∧ r_view r = view ∧ managed_reason r = None
      ∧ (rkey zone r ∉ map (pkey zone) parsed) ∧ c = delete_of r.
Proof.
  destruct diff_fields as (_ & _ & ->). rewrite leftovers_delete, file_delete.
  unfold file. rewrite diff_file_seen. split.
  - intros [[]%not_elem_of_nil|(k & rs & r & Hin & Hk & Hr & Hm & ->)].
    assert (rs = get in_scope k) as ->
      by (unfold in_scope in *; rewrite get_index; by apply elem_index_item).
    apply elem_in_scope in Hr as (Hr & Hv & <-). exists r. split_and!; try done. set_solver.
  - intros (r & Hr & Hv & Hm & Hk & ->). right.
    assert (Hin : r ∈ get in_scope (rkey zone r)) by (by apply elem_in_scope).
    exists (rkey zone r), (get in_scope (rkey zone r)), r. split_and!; try done; [|set_solver].
    apply get_nonempty. intros E. rewrite E in Hin. by apply not_elem_of_nil in Hin.
Qed.

Lemma diff_update c :
  c ∈ to_update d →
  ∃ r p, r ∈ existing ∧ p ∈ parsed ∧ rkey zone r = pkey zone p ∧ r_view r = view
    ∧ managed_reason r = None ∧ existing_id c = Some (r_id r) ∧ c_view c = view
    ∧ (fst (_changes dflt mins p r) || snd (_changes dflt mins p r)) = true.
Proof.
  destruct diff_fields as (_ & -> & _). revert c. unfold file.
  set (ok := λ c, ∃ r p, r ∈ existing ∧ p ∈ parsed ∧ rkey zone r = pkey zone p ∧ r_view r = view
    ∧ managed_reason r = None ∧ existing_id c = Some (r_id r) ∧ c_view c = view
    ∧ (fst (_changes dflt mins p r) || snd (_changes dflt mins p r)) = true).
  apply (diff_file_inv (λ d, ∀ c, c ∈ to_update d → ok c)); [intros c []%not_elem_of_nil|].
  intros d1 p H1 Hp. unfold diff_parsed. destruct (get in_scope _) as [|r rs] eqn:Eg.
  - destruct (if bool_decide _ then _ else _) as [row|];
      [destruct (_changes _ _ _ _) as [[] []]; done|by destruct (_ && _)].
  - rewrite <- Eg. apply (foldl_inv (λ d, ∀ c, c ∈ to_update d → ok c)); [done|].
    intros d2 row H2 Hrow c Hc. apply elem_in_scope in Hrow as (Hr & Hv & Hk).
    destruct (diff_row_fields dflt mins p d2 row) as (_ & _ & Hu).
    destruct (Hu c Hc) as [?|(Hm & He & Hcv & Hch)]; [auto|]. exists row, p. split_and!; congruence.
Qed.

(** No row the import may serve [p] with: of its scope, and for a view also
    the shared rows, for a shared import also the rows of the views. *)
Definition unserved (p : ParsedRecord) : Prop :=
  ∀ r, r ∈ existing → rkey zone r = pkey zone p → view ≠ None ∧ r_view r ≠ None ∧ r_view r ≠ view.

Lemma unserved_get p :
  unserved p ↔ get in_scope (pkey zone p) = [] ∧ (view ≠ None → get shared (pkey zone p) = [])
    ∧ (view = None → get in_views (pkey zone p) = []).
Proof.
  assert (N : ∀ l : list DNSRecord, l = [] ↔ ∀ r, r ∉ l).
  { intros l. split; [intros -> r; by apply not_elem_of_nil|].
    destruct l as [|r l]; [done|]. intros H. destruct (H r). left. }
  rewrite !N. unfold unserved. setoid_rewrite elem_in_scope.
  setoid_rewrite elem_shared. setoid_rewrite elem_in_views. split.
  - intros H. split_and!; intros; intros Hx; naive_solver.
  - intros (H1 & H2 & H3) r Hr Hk. destruct (decide (r_view r = view)) as [Hv|Hv]; [naive_solver|].
    destruct (decide (view = None)) as [Hn|Hn].
    + exfalso. apply (H3 Hn r). split_and!; [done..| |done]. congruence.
    + split_and!; [done| |done]. intros Hvn. by apply (H2 Hn r).
Qed.

Lemma diff_parsed_create d1 p :
  let d' := diff_parsed isprintable dflt view names zone in_scope shared in_views mins d1 p in
  (unserved p → to_create d' = to_create d1 ++ [create_of view p])
  ∧ (¬ unserved p → to_create d' = to_create d1).
Proof.
  cbv zeta. rewrite unserved_get. unfold diff_parsed.
  destruct (get in_scope (pkey zone p)) as [|r rs].
  - destruct (get shared (pkey zone p)) as [|sh shs], (get in_views (pkey zone p)) as [|w ws];
      destruct (decide (view = None)) as [Hv|Hv].
    all: rewrite ?(bool_decide_true (view = None)), ?(bool_decide_false (view = None)) by done.
    all: rewrite ?(bool_decide_false (view ≠ None)), ?(bool_decide_true (view ≠ None)) by tauto.
    all: simpl; try (split; [done|]; tauto).
    all: try (split; [intros (_ & _ & H3); by specialize (H3 Hv)|done]).
    all: split; [intros (_ & H2 & _); by specialize (H2 Hv)|intros _].
    all: by destruct (_ || _).
  - split; [by intros [[=] _]|]. intros _.
    apply (foldl_inv (λ d, to_create d = to_create d1)); [done|]. intros d2 row H2 _.
    by destruct (diff_row_fields dflt mins p d2 row) as (-> & _).
Qed.

Lemma unserved_dec p : unserved p ∨ ¬ unserved p.
Proof.
  rewrite unserved_get. destruct (decide (view = None)), (get in_scope (pkey zone p)),
    (get shared (pkey zone p)), (get in_views (pkey zone p)); naive_solver.
Qed.

Lemma diff_create c :
  c ∈ to_create d → ∃ p, p ∈ parsed ∧ unserved p ∧ c = create_of view p.
Proof.
  destruct diff_fields as (-> & _). revert c. unfold file.
  set (ok := λ c, ∃ p, p ∈ parsed ∧ unserved p ∧ c = create_of view p).
  apply (diff_file_inv (λ d, ∀ c, c ∈ to_create d → ok c)); [intros c []%not_elem_of_nil|].
  intros d1 p H1 Hp c. destruct (diff_parsed_create d1 p) as [P1 P2].
  destruct (unserved_dec p) as [Hu|Hu]; [rewrite P1 by done|rewrite P2 by done; apply H1].
  intros [?| ->%list_elem_of_singleton]%elem_of_app; [auto|]. by exists p.
Qed.

(** An unserved key is created, in the words of the first record that has it. *)
Lemma file_creates seen d1 ps p :
  p ∈ ps → (pkey zone p ∉ seen) → unserved p →
  ∃ p', p' ∈ ps ∧ pkey zone p' = pkey zone p
    ∧ create_of view p' ∈ to_create (snd (diff_file isprintable dflt view names zone
        in_scope shared in_views mins seen d1 ps)).
Proof.
  revert seen d1. induction ps as [|q ps IH]; intros seen d1 Hp Hs Hu; [by apply not_elem_of_nil in Hp|].
  simpl. destruct (decide (pkey zone q = pkey zone p)) as [E|E].
  - rewrite bool_decide_false by congruence. exists q. split_and!; [left|done|].
    apply (diff_file_inv (λ d, create_of view q ∈ to_create d)).
    + destruct (diff_parsed_create d1 q) as [P _].
      rewrite P; [apply elem_of_app; right; left|]. unfold unserved. by rewrite E.
    + intros d2 p2 H2 _. destruct (diff_parsed_create d2 p2) as [P1 P2].
      destruct (unserved_dec p2) as [?|?]; [rewrite P1 by done|by rewrite P2].
      apply elem_of_app. by left.
  - apply elem_of_cons in Hp as [->|Hp]; [done|]. case_bool_decide.
    + destruct (IH seen d1 Hp Hs Hu) as (p' & ? & ? & ?). exists p'. split_and!; [by right|done..].
    + destruct (IH ({[pkey zone q]} ∪ seen) (diff_parsed isprintable dflt view names
        zone in_scope shared in_views mins d1 q) Hp ltac:(set_solver) Hu) as (p' & ? & ? & ?).
      exists p'. split_and!; [by right|done..].
Qed.

(** ** The TTL of an RRset *)

(** [t] is the lowest effective TTL among the rows serving the file's records
    of the RRset [k]. *)
Definition served (p : ParsedRecord) : list DNSRecord :=
  list_or (get in_scope (pkey zone p)) (get shared (pkey zone p)).

Lemma min_steps_lookup k rows m k' :
  foldl (min_step dflt k) m rows !! k'
  = if bool_decide (k = k')
    then foldl (λ o e, Some (Z.min e (default e o))) (m !! k') (omap (_effective dflt) rows)
    else m !! k'.
Proof.
  revert m. induction rows as [|r rows IH]; intros m; simpl; [by case_bool_decide|].
  rewrite IH. unfold min_step. destruct (_effective dflt r) as [e|] eqn:E; simpl; [|done].
  case_bool_decide as Hk; [subst; by rewrite lookup_insert_eq|by rewrite lookup_insert_ne].
Qed.

Lemma mins_lookup_go ps m k :
  foldl (λ m p, foldl (min_step dflt (rk p)) m (served p)) m ps !! k
  = foldl (λ o e, Some (Z.min e (default e o))) (m !! k)
      (omap (_effective dflt) (mjoin (map served (List.filter (λ p, bool_decide (rk p = k)) ps)))).
Proof.
  revert m. induction ps as [|p ps IH]; intros m; cbn [foldl List.filter]; [done|].
  rewrite IH, min_steps_lookup. case_bool_decide; [|done].
  cbn [map]. change (mjoin (served p :: ?l)) with (served p ++ mjoin l).
  rewrite omap_app, foldl_app. done.
Qed.

Lemma fold_min l o t :
  t ∈ l ∨ o = Some t → (∀ e, e ∈ l → (t <= e)%Z) → (∀ x, o = Some x → (t <= x)%Z) →
  foldl (λ o e, Some (Z.min e (default e o))) o l = Some t.
Proof.
  revert o. induction l as [|e l IH]; intros o Ht Hl Ho; simpl.
  { by destruct Ht as [?%not_elem_of_nil|?]. }
  assert (Hd : (t <= default e o)%Z) by (destruct o; simpl; [by apply Ho|apply Hl; left]).
  assert (He : (t <= e)%Z) by (apply Hl; left).
  apply IH; [|intros; apply Hl; by right|intros x [= <-]; lia].
  destruct Ht as [[->|Ht]%elem_of_cons| ->]; [right|by left|right]; simpl in *; f_equal; lia.
Qed.

(** What the file says when it is the zone's own export: the rows of the scope
    and no others, with their fields, each at the TTL its RRset is served with. *)
Definition own_export : Prop :=
  (∀ p, p ∈ parsed → ∃ r, r ∈ existing ∧ r_view r = view ∧ rkey zone r = pkey zone p)
  ∧ (∀ r, r ∈ existing → r_view r = view → ∃ p, p ∈ parsed ∧ pkey zone p = rkey zone r)
  ∧ (∀ p r, p ∈ parsed → r ∈ existing → r_view r = view → rkey zone r = pkey zone p →
       p_priority p = r_priority r ∧ p_weight p = r_weight r ∧ p_port p = r_port r)
  ∧ ∀ p, p ∈ parsed → ∃ t, p_ttl p = Some t
      ∧ (∃ r, r ∈ existing ∧ r_view r = view ∧ (lower (r_name r), upper (r_type r)) = rk p
           ∧ _effective dflt r = Some t)
      ∧ ∀ r e, r ∈ existing → r_view r = view → (lower (r_name r), upper (r_type r)) = rk p →
          _effective dflt r = Some e → (t <= e)%Z.

Lemma own_export_mins p : own_export → p ∈ parsed → mins !! rk p = p_ttl p.
Proof.
  intros (H1 & H2 & _ & H4) Hp. destruct (H4 p Hp) as (t & -> & (r & Hr & Hv & Hk & He) & Hmin).
  assert (S : ∀ q, q ∈ parsed → ∀ x, x ∈ served q ↔ x ∈ get in_scope (pkey zone q)).
  { intros q Hq x. destruct (H1 q Hq) as (y & Hy & Hyv & Hyk). unfold served, list_or.
    assert (y ∈ get in_scope (pkey zone q)) as Hin by (by apply elem_in_scope).
    destruct (get in_scope (pkey zone q)); [by apply not_elem_of_nil in Hin|done]. }
  assert (mins !! rk p = foldl (λ o e, Some (Z.min e (default e o))) None
    (omap (_effective dflt) (mjoin (map served (List.filter (λ q, bool_decide (rk q = rk p)) parsed))))) as ->
    by (pose proof (mins_lookup_go parsed ∅ (rk p)) as E; rewrite lookup_empty in E; exact E).
  apply fold_min; [left| |done].
  - apply list_elem_of_omap. exists r. split; [|done]. apply list_elem_of_join.
    destruct (H2 r Hr Hv) as (q & Hq & Hqk). exists (served q). split.
    + apply (S q Hq), elem_in_scope. done.
    + apply list_elem_of_fmap. exists q. split; [done|]. apply elem_filter. split; [done|].
      apply bool_decide_eq_true. unfold ZoneDiff.pkey, ZoneDiff.rkey, _record_key in Hqk.
      injection Hqk as E1 E2 _. unfold rk at 1. congruence.
  - intros e (x & Hx & Hex)%list_elem_of_omap. apply list_elem_of_join in Hx as (l & Hx & Hl).
    apply list_elem_of_fmap in Hl as (q & -> & Hq). apply elem_filter in Hq as [Hq Hqr].
    apply bool_decide_eq_true in Hqr. apply (S q Hq), elem_in_scope in Hx as (Hx & Hxv & Hxk).
    eapply Hmin; [done|done| |done]. rewrite <- Hqr.
    unfold ZoneDiff.pkey, ZoneDiff.rkey, _record_key in Hxk. injection Hxk as E1 E2 _.
    unfold rk. congruence.
Qed.

Lemma own_export_no_change : own_export → to_create d = [] ∧ to_update d = [] ∧ to_delete d = [].
Proof.
  assert (N : ∀ l : list RecordChange, (∀ c, c ∉ l) → l = []).
  { intros [|c l] H; [done|]. destruct (H c). left. }
  intros Hown. pose proof Hown as (H1 & H2 & H3 & _). split_and!; apply N; intros c Hc.
  - apply diff_create in Hc as (p & Hp & Hu & _). destruct (H1 p Hp) as (r & Hr & Hv & Hk).
    by destruct (Hu r Hr Hk) as (_ & _ & ?).
  - apply diff_update in Hc as (r & p & Hr & Hp & Hk & Hv & _ & _ & _ & Hch).
    destruct (H3 p r Hp Hr Hv Hk) as (E1 & E2 & E3).
    unfold _changes in Hch. cbn [fst snd] in Hch.
    rewrite (own_export_mins p Hown Hp), E1, E2, E3 in Hch.
    rewrite (bool_decide_true (p_ttl p = p_ttl p)), (bool_decide_true (r_priority r = r_priority r)),
      (bool_decide_true (r_weight r = r_weight r)), (bool_decide_true (r_port r = r_port r)) in Hch
      by done. by rewrite andb_false_r in Hch.
  - apply diff_delete in Hc as (r & Hr & Hv & _ & Hk & _). destruct Hk.
    destruct (H2 r Hr Hv) as (p & Hp & <-). apply list_elem_of_fmap. eauto.
Qed.
End fields.
End proofs.

(** ** The CNAME rule on the creations *)
Lemma keep_creates_elem refused i cs c :
  c ∈ fst (keep_creates refused i cs) →
  ∃ j, i ≤ j ∧ cs !! (j - i) = Some c ∧ refused !! j = None.
Proof.
  revert i. induction cs as [|x cs IH]; intros i; simpl; [by intros ?%not_elem_of_nil|].
  pose proof (IH (S i)) as IHi. destruct (keep_creates refused (S i) cs) as [keep skip]. simpl in IHi.
  assert (G : c ∈ keep → ∃ j, i ≤ j ∧ (x :: cs) !! (j - i) = Some c ∧ refused !! j = None).
  { intros (j & Hj & Hc & Hr)%IHi. exists j. split_and!; [lia| |done].
    by replace (j - i) with (S (j - S i)) by lia. }
  destruct (refused !! i) eqn:E; simpl; [exact G|].
  intros [->|Hc]%elem_of_cons; [|by apply G]. exists i. by rewrite Nat.sub_diag.
Qed.

Lemma keep_creates_pairs (R : RecordChange → RecordChange → Prop) refused i cs :
  (∀ j k a b, i ≤ j → j < k → cs !! (j - i) = Some a → cs !! (k - i) = Some b →
     refused !! j = None → refused !! k = None → R a b) →
  ForallOrdPairs R (fst (keep_creates refused i cs)).
Proof.
  revert i. induction cs as [|x cs IH]; intros i HR; simpl; [constructor|].
  assert (IHi : ForallOrdPairs R (fst (keep_creates refused (S i) cs))).
  { apply IH. intros j k a b Hj Hk Ha Hb. apply HR; [lia|done| |].
    - by replace (j - i) with (S (j - S i)) by lia.
    - by replace (k - i) with (S (k - S i)) by lia. }
  pose proof (keep_creates_elem refused (S i) cs) as He.
  destruct (keep_creates refused (S i) cs) as [keep skip]. simpl in *.
  destruct (refused !! i) eqn:E; simpl; [done|]. constructor; [|done].
  apply List.Forall_forall. intros c Hc%list_elem_of_In. destruct (He c Hc) as (j & Hj & Hcj & Hr).
  eapply (HR i j); [lia|lia|by rewrite Nat.sub_diag| |done|done].
  by replace (j - i) with (S (j - S i)) by lia.
Qed.

(** ** Claims *)

(** C30 -- scope and ownership: an import updates and deletes only rows of its
    own scope that nothing else manages.  The rows it deletes are exactly those
    the file does not name; the records it creates are, in its own scope,
    exactly those of the file that no row serves yet (for a view also no shared
    row, for a shared import also no row of a view). *)
Theorem import_touches_own_rows (isprintable : Z → bool)
    (parsed : list ParsedRecord) (existing : list DNSRecord) (dflt : option Z) (view : option str)
    (names : gmap str str) (replace : bool) (zone_name : option str) :
  let zone := zone_origin zone_name in
  let pk := pkey isprintable zone in
  let rowk := rkey isprintable zone in
  let d := diff_records isprintable parsed existing dflt view names replace zone_name in
  let unserved p := ∀ r, r ∈ existing → rowk r = pk p →
                      view ≠ None ∧ r_view r ≠ None ∧ r_view r ≠ view in
  (∀ c, c ∈ to_update d → ∃ r p, r ∈ existing ∧ p ∈ parsed ∧ rowk r = pk p ∧ r_view r = view
     ∧ managed_reason r = None ∧ existing_id c = Some (r_id r) ∧ c_view c = view)
  ∧ (∀ c, c ∈ to_delete d ↔ ∃ r, r ∈ existing ∧ r_view r = view ∧ managed_reason r = None
       ∧ (rowk r ∉ map pk parsed) ∧ c = delete_of r)
  ∧ (∀ c, c ∈ to_create d → ∃ p, p ∈ parsed ∧ unserved p ∧ c = create_of view p)
  ∧ ∀ p, p ∈ parsed → unserved p →
      ∃ p', p' ∈ parsed ∧ pk p' = pk p ∧ create_of view p' ∈ to_create d.
Proof.
  cbv zeta. split_and!.
  - intros c Hc. apply diff_update in Hc as (r & p & H). exists r, p. tauto.
  - intros c. apply diff_delete.
  - intros c. apply diff_create.
  - intros p Hp Hu. destruct (diff_fields isprintable parsed existing dflt view names replace
      zone_name) as (-> & _).
    eapply (file_creates isprintable parsed existing dflt view names replace zone_name); [done|set_solver|done].
Qed.

(** A re-import changes nothing: when the file names exactly the rows of
    the import's scope, with their fields, each at the TTL its RRset is served
    with, the diff creates, updates and deletes nothing. *)
Theorem reimport_unchanged (isprintable : Z → bool)
    (parsed : list ParsedRecord) (existing : list DNSRecord) (dflt : option Z) (view : option str)
    (names : gmap str str) (replace : bool) (zone_name : option str) :
  own_export isprintable parsed existing dflt view zone_name →
  let d := diff_records isprintable parsed existing dflt view names replace zone_name in
  to_create d = [] ∧ to_update d = [] ∧ to_delete d = [].
Proof. apply own_export_no_change. Qed.

Definition plain_row (i name value : str) (ttl : option Z) : DNSRecord :=
  mkRow i name "A" value ttl None None None None None None None None false false false None None.

(** An RRset whose two rows hold different TTLs: the file has the lower one. *)
Lemma reimport_unchanged_witness :
  let rows := [plain_row "1" "www" "10.0.0.1" None; plain_row "2" "WWW" "10.0.0.2" (Some 300%Z)] in
  let file := [mkParsed "www" "A" "10.0.0.1" (Some 300%Z) None None None;
               mkParsed "www" "A" "10.0.0.2" (Some 300%Z) None None None] in
  let d := diff_records (λ _, true) file rows (Some 3600%Z) None ∅ true (Some "example.com") in
  to_create d = [] ∧ to_update d = [] ∧ to_delete d = [].
Proof.
  cbv zeta. apply (reimport_unchanged (λ _, true)). split_and!.
  - intros p Hp. repeat (apply elem_of_cons in Hp as [->|Hp]); [..|by apply not_elem_of_nil in Hp].
    + eexists. split; [left|]. split; reflexivity.
    + eexists. split; [right; left|]. split; reflexivity.
  - intros r Hr _. repeat (apply elem_of_cons in Hr as [->|Hr]); [..|by apply not_elem_of_nil in Hr].
    + eexists. split; [left|reflexivity].
    + eexists. split; [right; left|reflexivity].
  - intros p r Hp Hr _ _. repeat (apply elem_of_cons in Hp as [->|Hp]); [..|by apply not_elem_of_nil in Hp];
      repeat (apply elem_of_cons in Hr as [->|Hr]); by try apply not_elem_of_nil in Hr.
  - intros p Hp. exists 300%Z. split_and!.
    + by repeat (apply elem_of_cons in Hp as [->|Hp]); [..|apply not_elem_of_nil in Hp].
    + eexists. split; [right; left|]. split; [reflexivity|]. split; [|reflexivity].
      by repeat (apply elem_of_cons in Hp as [->|Hp]); [..|apply not_elem_of_nil in Hp].
    + intros r e Hr _ _ He. repeat (apply elem_of_cons in Hr as [->|Hr]);
        [..|by apply not_elem_of_nil in Hr]; simpl in He; injection He as <-; lia.
Defined.

(** What survives the CNAME rule can be stored: among the creations left,
    no CNAME is at the apex, none meets a row that survives the import, and no
    two meet each other; the other lists are untouched. *)
Theorem cname_rule_applied (d : Diff) (existing : list DNSRecord) (replace : bool) :
  let d' := apply_cname_rule d existing replace in
  (∀ c, c ∈ to_create d' → c ∈ to_create d
     ∧ (CnameRule.is_cname (c_type c) = true → CnameRule.is_apex (c_name c) = false)
     ∧ ∀ r, r ∈ standing d existing replace →
         CnameRule._meet (change_row c) (standing_row r) = false)
  ∧ ForallOrdPairs (λ a b, CnameRule._meet (change_row a) (change_row b) = false) (to_create d')
  ∧ to_update d' = to_update d ∧ to_delete d' = to_delete d ∧ unchanged d' = unchanged d.
Proof.
  unfold apply_cname_rule.
  set (rows := map change_row (to_create d)). set (st := map standing_row (standing d existing replace)).
  set (F := CnameRule.refused_by_cname_rule rows st).
  assert (A : ∀ j c, to_create d !! j = Some c → rows !! j = Some (change_row c)).
  { intros j c Hj. unfold rows. by rewrite list_lookup_fmap, Hj. }
  assert (K : to_create (if bool_decide (F = ∅) then d else
    let '(keep, skip) := keep_creates F 0 (to_create d) in
    mkDiff keep (to_update d) (to_delete d) (unchanged d) (skipped d ++ skip))
    = fst (keep_creates F 0 (to_create d))).
  { case_bool_decide as E; [|by destruct (keep_creates F 0 (to_create d))]. rewrite E. clear.
    generalize 0. induction (to_create d) as [|c cs IH]; intros n; simpl; [done|].
    rewrite lookup_empty. specialize (IH (S n)).
    destruct (keep_creates ∅ (S n) cs). simpl in *. by rewrite <- IH. }
  rewrite K. split_and!.
  - intros c Hc. apply keep_creates_elem in Hc as (j & _ & Hj & HF). rewrite Nat.sub_0_r in Hj.
    destruct (CnameRule.accepted_consistent rows st j _ (A j c Hj) HF) as (H1 & H2 & _).
    split_and!; [by eapply list_elem_of_lookup_2|done|].
    intros r Hr. apply H2, list_elem_of_fmap. eauto.
  - apply keep_creates_pairs. intros j k a b _ Hjk Ha Hb HFj HFk. rewrite Nat.sub_0_r in Ha, Hb.
    destruct (CnameRule.accepted_consistent rows st j _ (A j a Ha) HFj) as (_ & _ & H3).
    eapply (H3 k); [lia|by apply A|done].
  - by case_bool_decide; [|destruct (keep_creates F 0 (to_create d))].
  - by case_bool_decide; [|destruct (keep_creates F 0 (to_create d))].
  - by case_bool_decide; [|destruct (keep_creates F 0 (to_create d))].
Qed.
End ZoneDiff.
