(* ===== verification/AuditChain.v ===== *)
(** * The audit log's hash chain

    [backend/app/services/audit_chain.py] and the walk of
    [backend/app/tasks/audit_chain_verify.py] over the table of
    [backend/app/models/audit.py]: every row is hashed with the hash of the row
    before it; the verifier recomputes the chain.  A UUID or a timestamp is its
    text; the table is the list of its rows in [seq] order.  What PostgreSQL
    does to a JSONB value is the parameter [store] (class [Jsonb]). *)
From S2P Require Import PyStr Json Sha256.
Import Json.
#[local] Open Scope Z_scope.

Module AuditChain.

(** ** Rows *)

(** The hashed columns; [None] is SQL NULL (and, before the flush, unset). *)
Record AuditLog := mkAudit {
  id : option str;
  timestamp : option str;
  user_id : option str;
  user_display_name : option str;
  auth_source : option str;
  source_ip : option str;
  user_agent : option str;
  action : option str;
  resource_type : option str;
  resource_id : option str;
  resource_display : option str;
  old_value : option json;
  new_value : option json;
  changed_fields : option json;
  request_id : option str;
  result : option str;
  error_detail : option str;
}.

Record Row := mkRow { seq : Z; content : AuditLog; row_hash : str; prev_hash : option str }.

(** [str(row.user_id) if row.user_id else None], and the like. *)
Definition text_if_any (o : option str) : json :=
  match o with Some t => if bool_decide (t = []) then JNull else JStr t | None => JNull end.

Definition payload (row : AuditLog) : list (str * json) :=
  [("id" : str, JStr (default "None" (id row)));
   ("timestamp" : str, text_if_any (timestamp row));
   ("user_id" : str, text_if_any (user_id row));
   ("user_display_name" : str, text_or_null (user_display_name row));
   ("auth_source" : str, text_or_null (auth_source row));
   ("source_ip" : str, text_or_null (source_ip row));
   ("user_agent" : str, text_or_null (user_agent row));
   ("action" : str, text_or_null (action row));
   ("resource_type" : str, text_or_null (resource_type row));
   ("resource_id" : str, text_or_null (resource_id row));
   ("resource_display" : str, text_or_null (resource_display row));
   ("old_value" : str, default JNull (old_value row));
   ("new_value" : str, default JNull (new_value row));
   ("changed_fields" : str, default JNull (changed_fields row));
   ("request_id" : str, text_or_null (request_id row));
   ("result" : str, text_or_null (result row));
   ("error_detail" : str, text_or_null (error_detail row))].

Definition canonical_json (row : AuditLog) : str := dumps (JObj (payload row)).

(** The octets [hash_row] feeds to SHA-256. *)
Definition hash_input (prev_hash : option str) (canonical : str) : str :=
  from_option encode [] prev_hash ++ "|" ++ encode canonical.
Definition hash_row (prev_hash : option str) (canonical : str) : str := Sha256.hexdigest (hash_input prev_hash canonical).

(** ** Values as a JSONB column returns them *)

(** [Decimal(token)]: its digits, and its exponent. *)
Definition digits_of (t : str) : str := List.filter is_digit t.
Definition digits_value (ds : str) : Z := foldl (λ n c, 10 * n + (Z.of_nat (ord c) - 48)) 0 ds.
Definition mantissa (token : str) : str := hd [] (split "e" token).
Definition exponent_part (token : str) : Z :=
  match split "e" token with
  | _ :: x :: _ => (if startswith "-" x then -1 else 1) * digits_value (digits_of x)
  | _ => 0
  end.
Definition fraction (token : str) : str :=
  match split "." (mantissa token) with _ :: f :: _ => f | _ => [] end.
Definition decimal_exponent (token : str) : Z := exponent_part token - Z.of_nat (length (fraction token)).
Definition decimal_digits (token : str) : Z := digits_value (digits_of (mantissa token)).

Definition _pg_number (token : str) : json :=
  let exponent := decimal_exponent token in
  if 0 <=? exponent then
    JInt ((if startswith "-" token then -1 else 1) * decimal_digits token * 10 ^ exponent)
  else if decimal_digits token =? 0 then JFloat "0.0" else JFloat token.

Definition CONSTANTS : list str := ["NaN"; "Infinity"; "-Infinity"].

(** [json.loads(json.dumps(value, default=str), parse_float=_pg_number,
    parse_constant=str)]. *)
Fixpoint normalise_jsonb_value (value : json) : json :=
  match value with
  | JFloat t => if bool_decide (t ∈ CONSTANTS) then JStr t else _pg_number t
  | JArr l => JArr (map normalise_jsonb_value l)
  | JObj kvs => JObj (map (λ '(k, x), (k, normalise_jsonb_value x)) kvs)
  | JOther s => JStr s
  | _ => value
  end.

(** No object has a key twice. *)
Fixpoint unique_keys (v : json) : bool :=
  match v with
  | JArr l => forallb unique_keys l
  | JObj kvs => bool_decide (NoDup (map fst kvs)) && forallb (λ '(k, x), unique_keys x) kvs
  | _ => true
  end.

(** What the JSONB round trip leaves alone: an object's keys may be reordered,
    so equality is that of [Json]. *)
Definition jsonb_number (t : str) : bool :=
  negb (bool_decide (t ∈ CONSTANTS))
  && match _pg_number t with JFloat u => bool_decide (u = t) | _ => false end.
Fixpoint jsonb_stable (v : json) : bool :=
  match v with
  | JFloat t => jsonb_number t
  | JArr l => forallb jsonb_stable l
  | JObj kvs => bool_decide (NoDup (map fst kvs)) && forallb (λ '(k, x), jsonb_stable x) kvs
  | JOther _ => false
  | _ => true
  end.

(** PostgreSQL: a JSONB column returns strings, booleans, null, integers and
    numbers in plain notation unchanged, arrays in order, and objects with
    their members, the keys in an order of its own. *)
Class Jsonb (store : json → json) : Prop :=
  store_stable : ∀ v, jsonb_stable v = true → store v ≡ v.

(** ** Hashing new rows *)
Definition _REQUEST_ID_MAX : nat := 64.

(** [get_contextvars().get("request_id")], as text. *)
Definition _current_request_id (bound : option str) : option str :=
  match bound with
  | None => None
  | Some value =>
      let capped := take _REQUEST_ID_MAX value in
      if bool_decide (capped = []) then None else Some capped
  end.

Definition or_default {A} (o : option A) (d : option A) : option A := match o with Some _ => o | None => d end.

(** The defaults an INSERT would fill in, set before the hash is taken; the
    columns with a scalar default are [auth_source] and [result]. *)
Definition materialise (now : str) (request : option str) (uuid : str) (row : AuditLog) : AuditLog :=
  mkAudit (or_default (id row) (Some uuid)) (or_default (timestamp row) (Some now)) (user_id row)
    (user_display_name row) (or_default (auth_source row) (Some "local")) (source_ip row) (user_agent row)
    (action row) (resource_type row) (resource_id row) (resource_display row)
    (normalise_jsonb_value <$> old_value row) (normalise_jsonb_value <$> new_value row)
    (normalise_jsonb_value <$> changed_fields row) (or_default (request_id row) request)
    (or_default (result row) (Some "success")) (error_detail row).

(** A row of the session: its columns, and the hash it may already have. *)
Record NewRow := mkNew { nr_row : AuditLog; nr_hash : option str }.
Definition unhashed (r : NewRow) : bool :=
  match nr_hash r with None => true | Some h => bool_decide (h = []) end.

Record Hashed := mkHashed { h_row : AuditLog; h_prev : option str; h_hash : str }.

Fixpoint chain_rows (prev : option str) (rows : list AuditLog) : list Hashed :=
  match rows with
  | [] => []
  | row :: rest =>
      let h := hash_row prev (canonical_json row) in
      mkHashed row prev h :: chain_rows (Some h) rest
  end.

(** [last_hash]: the hash of the newest row the transaction sees. *)
Definition last_hash_of (log : list Row) : option str := row_hash <$> last log.

Definition compute_audit_hashes (log : list Row) (now : str) (bound : option str) (uuid4 : nat → str)
    (new : list NewRow) : list Hashed :=
  let new_rows := map nr_row (List.filter unhashed new) in
  chain_rows (last_hash_of log) (imap (λ i, materialise now (_current_request_id bound) (uuid4 i)) new_rows).

(** ** The verifier *)
Inductive reason := prev_hash_mismatch | row_hash_mismatch.
Record ChainBreak := mkBreak {
  br_seq : Z; audit_id : str; expected_hash : str; actual_hash : str; br_reason : reason;
  br_action : option str; br_type : option str; br_resource : option str;
}.

Definition break_at (row : Row) (expected actual : str) (why : reason) : ChainBreak :=
  mkBreak (seq row) (default "None" (id (content row))) expected actual why
    (action (content row)) (resource_type (content row)) (resource_id (content row)).

Definition check_row (expected_prev : option str) (row : Row) : list ChainBreak :=
  (if bool_decide (prev_hash row = expected_prev) then []
   else [break_at row (default [] expected_prev) (default [] (prev_hash row)) prev_hash_mismatch])
  ++ (let recomputed := hash_row (prev_hash row) (canonical_json (content row)) in
      if bool_decide (recomputed = row_hash row) then []
      else [break_at row recomputed (row_hash row) row_hash_mismatch]).

Record Walk := mkWalk {
  breaks : list ChainBreak;
  expected_prev : option str;
  last_seq : Z;
  rows_checked : Z;
  last_hash : option str;
  seen_seq : option Z;
  first_seq : option Z;
}.

(** The body of [for row in page]. *)
Definition walk_row (w : Walk) (row : Row) : Walk :=
  mkWalk (breaks w ++ check_row (expected_prev w) row) (Some (row_hash row)) (last_seq w)
    (rows_checked w + 1) (last_hash w) (seen_seq w)
    (match first_seq w with None => Some (seq row) | s => s end).

(** [SELECT ... WHERE seq > last_seq ORDER BY seq LIMIT limit]. *)
Definition after (log : list Row) (s : Z) : list Row := List.filter (λ r, s <? seq r) log.
Definition fetch (log : list Row) (s limit : Z) : list Row := take (Z.to_nat limit) (after log s).

Definition walk_page (w : Walk) (page : list Row) : Walk :=
  let w' := foldl walk_row w page in
  match last page with
  | None => w'
  | Some r => mkWalk (breaks w') (expected_prev w') (seq r) (rows_checked w') (Some (row_hash r)) (Some (seq r)) (first_seq w')
  end.

(** What [on_chunk] is called with, page by page. *)
Record Chunk := mkChunk { ck_seq : Z; ck_hash : str; ck_rows : Z; ck_breaks : Z }.
Definition chunk_of (w : Walk) (page : list Row) : list Chunk :=
  match last page with
  | None => []
  | Some r => [mkChunk (seq r) (row_hash r) (rows_checked w) (Z.of_nat (length (breaks w)))]
  end.

(** [while True]; the flag is [complete]. *)
Fixpoint walk_pages (fuel : nat) (log : list Row) (chunk_size : Z) (max_rows : option Z) (w : Walk)
    : option (Walk * bool * list Chunk) :=
  match fuel with
  | O => None
  | S fuel' =>
      let remaining := match max_rows with Some m => m - rows_checked w | None => chunk_size end in
      if remaining <=? 0 then Some (w, false, [])
      else
        let limit := Z.min chunk_size remaining in
        let page := fetch log (last_seq w) limit in
        let w' := walk_page w page in
        if Z.of_nat (length page) <? limit then Some (w', true, chunk_of w' page)
        else '(w'', complete, chunks) ← walk_pages fuel' log chunk_size max_rows w';
             Some (w'', complete, chunk_of w' page ++ chunks)
  end.

Record ChainVerifyResult := mkVerify {
  ok : bool; v_rows : Z; v_breaks : list ChainBreak; v_first : option Z; v_last : option Z;
  v_hash : option str; partial : bool; on_chunk_calls : list Chunk;
}.

(** The anchor of the newest window: [None] when the window is the whole log
    (or the log is empty).  A negative OFFSET is an error of the database. *)
Definition window_anchor (log : list Row) (max_rows : Z) : option (option (Z * str)) :=
  if max_rows <? 1 then None
  else Some (
    r ← reverse log !! Z.to_nat (max_rows - 1);
    p ← last (List.filter (λ p, seq p <? seq r) log);
    Some (seq p, row_hash p)).

Definition walk_from (start_after : option (Z * str)) : Walk :=
  match start_after with
  | None => mkWalk [] None 0 0 None None None
  | Some (s, h) => mkWalk [] (Some h) s 0 (Some h) (Some s) None
  end.

Definition finish (log : list Row) (window_anchored : bool) (r : Walk * bool * list Chunk) : ChainVerifyResult :=
  let '(w, complete, chunks) := r in
  let complete := complete || bool_decide (after log (last_seq w) = []) in
  mkVerify (bool_decide (breaks w = [])) (rows_checked w) (breaks w) (first_seq w) (seen_seq w) (last_hash w)
    (window_anchored || negb complete) chunks.

Definition verify_chain (log : list Row) (max_rows : option Z) (start_after : option (Z * str))
    (chunk_size : Z) (newest : bool) : option ChainVerifyResult :=
  let chunk_size := Z.max 1 chunk_size in
  let fuel := S (length log) in
  match newest, max_rows, start_after with
  | true, Some m, None =>
      anchor ← window_anchor log m;
      finish log (bool_decide (anchor ≠ None)) <$> walk_pages fuel log chunk_size None (walk_from anchor)
  | _, _, _ => finish log false <$> walk_pages fuel log chunk_size max_rows (walk_from start_after)
  end.

(** ** The nightly walk *)
Record Checkpoint := mkCheckpoint { verified_seq : Z; verified_hash : option str; full_pass_done_at : option Z }.

Definition FULL_PASS_INTERVAL : Z := 7 * 24 * 3600 * 1000000.
Definition _FUTURE_SKEW : Z := 3600 * 1000000.

Inductive full_pass := future | stale | mismatch.
Definition _full_pass_reason (done_at : option Z) (now : Z) : option full_pass :=
  match done_at with
  | None => None
  | Some t =>
      let age := now - t in
      if age <? - _FUTURE_SKEW then Some future
      else if FULL_PASS_INTERVAL <? age then Some stale else None
  end.

Definition checkpoint_still_valid (log : list Row) (s : Z) (h : str) : bool :=
  bool_decide (row_hash <$> List.find (λ r, seq r =? s) log = Some h).

Definition resume_point (log : list Row) (cp : option Checkpoint) (now : Z) : option (Z * str) :=
  cp ← cp;
  if 0 <? verified_seq cp then
    match verified_hash cp with
    | Some ((_ :: _) as h) =>
        match _full_pass_reason (full_pass_done_at cp) now with
        | Some _ => None
        | None => if checkpoint_still_valid log (verified_seq cp) h then Some (verified_seq cp, h) else None
        end
    | _ => None
    end
  else None.

(** [_save], the callback of every page. *)
Definition _save (cp : Checkpoint) (c : Chunk) : Checkpoint :=
  if ck_breaks c =? 0 then mkCheckpoint (ck_seq c) (Some (ck_hash c)) (full_pass_done_at cp) else cp.

Definition VERIFY_CHUNK_SIZE : Z := 5000.

(** [later] is the clock at the end of the walk. *)
Definition _walk_with_checkpoint (log : list Row) (cp : option Checkpoint) (now later : Z)
    : option (ChainVerifyResult * Checkpoint) :=
  let start := resume_point log cp now in
  let cp0 := match start with None => mkCheckpoint 0 None None | Some _ => default (mkCheckpoint 0 None None) cp end in
  res ← verify_chain log None start VERIFY_CHUNK_SIZE false;
  let cp1 := foldl _save cp0 (on_chunk_calls res) in
  let cp2 := if ok res && negb (partial res) && bool_decide (full_pass_done_at cp1 = None)
             then mkCheckpoint (verified_seq cp1) (verified_hash cp1) (Some later) else cp1 in
  Some (res, cp2).

(** ** Transactions

    The chain lock is held from a transaction's first audit flush to its
    commit or rollback; [nextval] is not undone by a rollback. *)
Section system.
Context (store : json → json).

(** The JSON columns of a row hold dicts (no key twice) and floats. *)
Definition values_ok (row : AuditLog) : bool :=
  let ok v := from_option (λ v, floats_ok v && unique_keys v) true v in
  ok (old_value row) && ok (new_value row) && ok (changed_fields row).

Definition db_columns (row : AuditLog) : AuditLog :=
  mkAudit (id row) (timestamp row) (user_id row) (user_display_name row) (auth_source row) (source_ip row)
    (user_agent row) (action row) (resource_type row) (resource_id row) (resource_display row)
    (store <$> old_value row) (store <$> new_value row) (store <$> changed_fields row)
    (request_id row) (result row) (error_detail row).

(** The INSERTs of one flush, at the given sequence numbers. *)
Definition inserted (hashed : list Hashed) (seqs : list Z) : list Row :=
  zip_with (λ h s, mkRow s (db_columns (h_row h)) (h_hash h) (h_prev h)) hashed seqs.

Record State := mkState {
  committed : list Row;
  holder : option (nat * list Row);
  nextval : Z;
}.

Definition visible (st : State) (tx : nat) : list Row :=
  committed st ++ match holder st with Some (t, own) => if bool_decide (t = tx) then own else [] | None => [] end.

(** The sequence numbers handed out from [n] on, in order, gaps allowed. *)
Fixpoint drawn (n : Z) (seqs : list Z) (n' : Z) : Prop :=
  match seqs with [] => n <= n' | s :: rest => n <= s ∧ drawn (s + 1) rest n' end.

Definition lock_free_for (st : State) (tx : nat) : bool :=
  match holder st with None => true | Some (t, _) => bool_decide (t = tx) end.

Inductive step : State → State → Prop :=
| step_flush st tx now bound uuid4 new seqs n' :
    lock_free_for st tx = true →
    let hashed := compute_audit_hashes (visible st tx) now bound uuid4 new in
    length seqs = length hashed → drawn (nextval st) seqs n' →
    Forall (λ r, unhashed r = true ∧ values_ok (nr_row r) = true) new →
    step st (mkState (committed st)
      (Some (tx, drop (length (committed st)) (visible st tx) ++ inserted hashed seqs)) n')
| step_commit st tx own :
    holder st = Some (tx, own) → step st (mkState (committed st ++ own) None (nextval st))
| step_rollback st tx own :
    holder st = Some (tx, own) → step st (mkState (committed st) None (nextval st)).

Inductive reachable : State → Prop :=
| reach_init : reachable (mkState [] None 1)
| reach_step st st' : reachable st → step st st' → reachable st'.
End system.

(** ** The reference walk: one pass over the rows *)
Fixpoint check_rows (expected : option str) (rows : list Row) : list ChainBreak :=
  match rows with
  | [] => []
  | r :: rest => check_row expected r ++ check_rows (Some (row_hash r)) rest
  end.

(** The hash the row after [rows] must chain from. *)
Definition tip (expected : option str) (rows : list Row) : option str :=
  match last rows with Some r => Some (row_hash r) | None => expected end.

Definition sorted (log : list Row) : Prop := StronglySorted (λ a b, seq a < seq b) log ∧ Forall (λ r, 0 < seq r) log.

Lemma tip_app e P Q : tip e (P ++ Q) = tip (tip e P) Q.
Proof. unfold tip. rewrite last_app. by destruct (last Q). Qed.

Lemma check_rows_app e P Q : check_rows e (P ++ Q) = check_rows e P ++ check_rows (tip e P) Q.
Proof.
  revert e. induction P as [|r P IH]; intros e; [done|]. simpl. rewrite IH, <- app_assoc. do 3 f_equal.
  unfold tip. rewrite last_cons. by destruct (last P).
Qed.

Lemma foldl_walk_row w rows :
  foldl walk_row w rows = mkWalk (breaks w ++ check_rows (expected_prev w) rows) (tip (expected_prev w) rows) (last_seq w)
    (rows_checked w + Z.of_nat (length rows)) (last_hash w) (seen_seq w)
    (match first_seq w with None => seq <$> head rows | s => s end).
Proof.
  revert w. induction rows as [|r rows IH]; intros w.
  - simpl. rewrite app_nil_r, Z.add_0_r. destruct w as [? ? ? ? ? ? []]; done.
  - cbn [foldl]. rewrite IH. cbn [walk_row breaks expected_prev last_seq rows_checked last_hash seen_seq first_seq].
    f_equal; [by rewrite <- app_assoc| |cbn [length]; lia|by destruct (first_seq w)].
    unfold tip. rewrite last_cons. by destruct (last rows).
Qed.

(** A page taken up in one go. *)
Lemma walk_page_spec w rows :
  walk_page w rows = mkWalk (breaks w ++ check_rows (expected_prev w) rows) (tip (expected_prev w) rows)
    (from_option seq (last_seq w) (last rows)) (rows_checked w + Z.of_nat (length rows))
    (tip (last_hash w) rows) (match last rows with Some r => Some (seq r) | None => seen_seq w end)
    (match first_seq w with None => seq <$> head rows | s => s end).
Proof. unfold walk_page. rewrite foldl_walk_row. unfold tip. by destruct (last rows). Qed.

Lemma walk_page_app w P Q : walk_page (walk_page w P) Q = walk_page w (P ++ Q).
Proof.
  rewrite !walk_page_spec. simpl. rewrite check_rows_app, !tip_app, length_app, last_app, <- app_assoc.
  f_equal; [by destruct (last Q)|lia|by destruct (last Q)|]. destruct (first_seq w); [done|]. by destruct P.
Qed.

(** ** Paging *)
Lemma after_suffix log s : sorted log → ∃ P, log = P ++ after log s ∧ Forall (λ r, seq r <= s) P.
Proof.
  intros [Hs _]. induction Hs as [|r log Hs IH Hr]; [by exists []|]. unfold after in *. simpl.
  destruct (s <? seq r) eqn:E.
  - exists []. split; [|done]. simpl. f_equal. symmetry. apply filter_all. apply forallb_elem_iff. intros x Hx.
    apply Z.ltb_lt in E. apply Z.ltb_lt. rewrite Forall_forall in Hr. specialize (Hr x Hx). lia.
  - destruct IH as (P & HP & HF). exists (r :: P). split; [simpl; by rewrite <- HP|].
    constructor; [apply Z.ltb_ge in E; lia|done].
Qed.

Lemma sorted_app P Q : sorted (P ++ Q) → sorted P ∧ sorted Q ∧ ∀ p q, p ∈ P → q ∈ Q → seq p < seq q.
Proof.
  by intros [(H1 & H2 & H3)%StronglySorted_app [Hp Hq]%Forall_app].
Qed.

Lemma after_split P Q r : sorted (P ++ Q) → last P = Some r → after (P ++ Q) (seq r) = Q.
Proof.
  intros Hs Hl. apply sorted_app in Hs as ([HP _] & _ & Hpq). unfold after. rewrite List.filter_app.
  apply last_Some in Hl as [P' ->]. rewrite (filter_none_elem _ (P' ++ [r])), (filter_all _ Q); [done| |].
  - apply forallb_elem_iff. intros q Hq. apply Z.ltb_lt. apply Hpq; [|done]. apply elem_of_app. right. left.
  - intros x Hx. apply Z.ltb_ge. apply StronglySorted_app in HP as (H & _ & _).
    apply elem_of_app in Hx as [Hx|Hx].
    + specialize (H x r Hx ltac:(left)). lia.
    + apply list_elem_of_singleton in Hx as ->. lia.
Qed.

Lemma after_0 log : sorted log → after log 0 = log.
Proof.
  intros [_ Hp]. apply filter_all. apply forallb_elem_iff. intros r Hr. apply Z.ltb_lt. by rewrite Forall_forall in Hp; apply Hp.
Qed.

(** What is left after the first rows of what was left. *)
Lemma after_drop log s R Q : sorted log → after log s = R ++ Q →
  after log (from_option seq s (last R)) = Q.
Proof.
  intros Hs E. destruct (last R) as [r|] eqn:Hl; simpl.
  2: { apply last_None in Hl as ->. done. }
  destruct (after_suffix log s Hs) as (P & HP & HF). rewrite E, app_assoc in HP. rewrite HP. apply after_split; [by rewrite <- HP|].
  by rewrite last_app, Hl.
Qed.

(** The rows a walk may still read. *)
Definition quota (max_rows : option Z) (checked : Z) (rows : list Row) : list Row :=
  match max_rows with Some m => take (Z.to_nat (m - checked)) rows | None => rows end.

(** The call [on_chunk] gets once the rows [P], ending in [r], are walked. *)
Definition chunk_at (w : Walk) (P : list Row) (r : Row) : Chunk :=
  mkChunk (seq r) (row_hash r) (rows_checked w + Z.of_nat (length P))
    (Z.of_nat (length (breaks w ++ check_rows (expected_prev w) P))).

Definition chunks_of (w : Walk) (R : list Row) (chunks : list Chunk) : Prop :=
  (∀ c, c ∈ chunks → ∃ P Q r, R = P ++ Q ∧ last P = Some r ∧ c = chunk_at w P r)
  ∧ (∀ r, last R = Some r → last chunks = Some (chunk_at w R r)).

Lemma chunk_of_page w page : chunk_of (walk_page w page) page
  = match last page with Some r => [chunk_at w page r] | None => [] end.
Proof. unfold chunk_of, chunk_at. rewrite walk_page_spec. by destruct (last page). Qed.

Lemma chunk_at_page w page Q r : last Q = Some r → chunk_at (walk_page w page) Q r = chunk_at w (page ++ Q) r.
Proof.
  intros Hl. unfold chunk_at. rewrite walk_page_spec. simpl. rewrite check_rows_app, !length_app. f_equal; lia.
Qed.

Lemma chunks_of_nil w : chunks_of w [] [].
Proof. split; [by intros c ?%not_elem_of_nil|done]. Qed.

Lemma chunks_of_page w page : chunks_of w page (chunk_of (walk_page w page) page).
Proof.
  rewrite chunk_of_page. split.
  - destruct (last page) as [r|] eqn:E; [|by intros c ?%not_elem_of_nil]. intros c ->%list_elem_of_singleton.
    exists page, [], r. by rewrite app_nil_r.
  - by intros r ->.
Qed.

Lemma chunks_of_app w page Q chunks : page ≠ [] → chunks_of (walk_page w page) Q chunks →
  chunks_of w (page ++ Q) (chunk_of (walk_page w page) page ++ chunks).
Proof.
  intros Hne [H1 H2]. destruct (chunks_of_page w page) as [H3 H4]. split.
  - intros c [Hc|Hc]%elem_of_app.
    + destruct (H3 c Hc) as (P & P' & r & -> & Hr & ->). exists P, (P' ++ Q), r. by rewrite <- app_assoc.
    + destruct (H1 c Hc) as (P & P' & r & -> & Hr & ->). exists (page ++ P), P', r.
      rewrite <- app_assoc, last_app, Hr. split_and!; [done..|]. by apply chunk_at_page.
  - intros r. rewrite !last_app. destruct (last Q) as [q|] eqn:E.
    + intros [= <-]. rewrite (H2 q) by done. f_equal. by apply chunk_at_page.
    + apply last_None in E as ->. intros Hr. rewrite app_nil_r. destruct (last chunks) as [c|] eqn:Ec; [|by apply H4].
      apply last_Some_elem_of in Ec. destruct (H1 c Ec) as (P & P' & q & E & Hq & _).
      symmetry in E. apply app_nil in E as [-> ->]. done.
Qed.

Lemma walk_pages_spec fuel log chunk_size max_rows w :
  sorted log → 1 <= chunk_size → (length (after log (last_seq w)) < fuel)%nat →
  let R := quota max_rows (rows_checked w) (after log (last_seq w)) in
  ∃ complete chunks, walk_pages fuel log chunk_size max_rows w = Some (walk_page w R, complete, chunks)
    ∧ (complete = true → R = after log (last_seq w)) ∧ chunks_of w R chunks.
Proof.
  intros Hs Hc. revert w. induction fuel as [|fuel IH]; intros w Hf; [lia|]. cbn [walk_pages]. cbv zeta.
  set (rows := after log (last_seq w)) in *. set (remaining := match max_rows with Some m => m - rows_checked w | None => chunk_size end).
  destruct (Z.leb_spec remaining 0) as [Hr|Hr].
  { exists false, []. destruct max_rows as [m|]; simpl in Hr; [|lia]. simpl. unfold remaining in Hr.
    replace (Z.to_nat (m - rows_checked w)) with 0%nat by lia. simpl. split_and!; [by destruct w|done|apply chunks_of_nil]. }
  set (limit := Z.min chunk_size remaining). set (page := fetch log (last_seq w) limit).
  assert (Hpage : page = take (Z.to_nat limit) rows) by done. assert (Hlim : 1 <= limit) by lia.
  destruct (Z.ltb_spec (Z.of_nat (length page)) limit) as [Hl|Hl].
  - assert (page = rows) as Hpr.
    { rewrite Hpage. apply take_ge. rewrite Hpage, length_take in Hl. lia. }
    assert (quota max_rows (rows_checked w) rows = rows) as ->.
    { destruct max_rows as [m|]; [|done]. simpl. apply take_ge. rewrite Hpr in Hl. lia. }
    eexists _, _. rewrite <- Hpr. split_and!; [done..|apply chunks_of_page].
  - assert (Hlen : length page = Z.to_nat limit) by (rewrite Hpage, length_take in *; lia).
    assert (Hsplit : rows = page ++ drop (Z.to_nat limit) rows) by (by rewrite Hpage, take_drop).
    set (Q := drop (Z.to_nat limit) rows) in *.
    assert (HQ : after log (last_seq (walk_page w page)) = Q).
    { rewrite walk_page_spec. cbn [last_seq]. by apply (after_drop log (last_seq w)). }
    destruct (IH (walk_page w page)) as (complete & chunks & E & H1 & H2).
    { rewrite HQ. rewrite Hsplit, length_app in Hf. lia. }
    rewrite HQ in E, H1, H2. rewrite E. simpl.
    assert (HR : quota max_rows (rows_checked w) rows = page ++ quota max_rows (rows_checked (walk_page w page)) Q).
    { rewrite walk_page_spec. cbn [rows_checked]. destruct max_rows as [m|]; [|done]. simpl. rewrite Hsplit at 1.
      rewrite take_app, Hlen, take_ge by (rewrite Hlen; lia). do 2 f_equal. lia. }
    eexists _, _. split_and!; [by rewrite HR, walk_page_app|intros Hcm; by rewrite HR, (H1 Hcm), Hsplit|].
    rewrite HR. apply chunks_of_app; [|done]. intros E'. rewrite E' in Hlen. simpl in Hlen. lia.
Qed.

(** What a walk over [R], out of [rows] still to read, returns. *)
Definition verdict (start : option (Z * str)) (anchored : bool) (rows R : list Row) (chunks : list Chunk) : ChainVerifyResult :=
  let e := snd <$> start in
  mkVerify (bool_decide (check_rows e R = [])) (Z.of_nat (length R)) (check_rows e R) (seq <$> head R)
    (match last R with Some r => Some (seq r) | None => fst <$> start end) (tip e R)
    (anchored || (length R <? length rows)%nat) chunks.

Definition start_seq (start : option (Z * str)) : Z := from_option fst 0 start.

Lemma walk_verdict log anchored chunk_size max_rows start :
  sorted log → let rows := after log (start_seq start) in let R := quota max_rows 0 rows in
  ∃ chunks, finish log anchored <$> walk_pages (S (length log)) log (Z.max 1 chunk_size) max_rows (walk_from start)
      = Some (verdict start anchored rows R chunks)
    ∧ chunks_of (walk_from start) R chunks.
Proof.
  intros Hs rows R.
  assert (E : last_seq (walk_from start) = start_seq start ∧ rows_checked (walk_from start) = 0) by (by destruct start as [[]|]).
  destruct E as [E1 E2].
  destruct (walk_pages_spec (S (length log)) log (Z.max 1 chunk_size) max_rows (walk_from start) Hs) as (b & chunks & Hw & Hb & Hc);
    [lia|rewrite E1; pose proof (List.filter_length_le (λ r, start_seq start <? seq r) log); unfold after; lia|].
  rewrite E1, E2 in Hw, Hb, Hc. fold rows R in Hw, Hb, Hc. exists chunks. split; [|done].
  rewrite Hw. simpl. f_equal. unfold finish, verdict. rewrite walk_page_spec.
  assert (HQ : ∃ Q, rows = R ++ Q).
  { unfold R, quota. destruct max_rows as [m|]; [exists (drop (Z.to_nat (m - 0)) rows); by rewrite take_drop|by exists []; rewrite app_nil_r]. }
  destruct HQ as [Q HQ]. cbn [breaks rows_checked first_seq seen_seq last_hash last_seq].
  assert (after log (from_option seq (last_seq (walk_from start)) (last R)) = Q) as ->.
  { rewrite E1. by apply after_drop. }
  assert (b || bool_decide (Q = []) = negb (length R <? length rows)%nat) as ->.
  { destruct (Nat.ltb_spec (length R) (length rows)) as [Hl|Hl]; rewrite HQ, length_app in Hl.
    - rewrite bool_decide_false by (intros ->; simpl in Hl; lia). rewrite orb_false_r.
      destruct b; [|done]. specialize (Hb eq_refl). rewrite HQ in Hb. apply (f_equal length) in Hb. rewrite length_app in Hb. lia.
    - rewrite bool_decide_true; [by rewrite orb_true_r|]. destruct Q; [done|]. simpl in Hl. lia. }
  rewrite negb_involutive. destruct start as [[s h]|]; simpl; f_equal; lia || done.
Qed.

Lemma full_walk log chunk_size : sorted log →
  ∃ chunks, verify_chain log None None chunk_size false = Some (verdict None false log log chunks)
    ∧ chunks_of (walk_from None) log chunks.
Proof.
  intros Hs. destruct (walk_verdict log false chunk_size None None Hs) as (chunks & E & H).
  simpl in E, H. rewrite after_0 in E, H by done. exists chunks. split; [|done]. unfold verify_chain. exact E.
Qed.

(** ** The JSONB round trip *)
Lemma normalise_stable v : floats_ok v = true → unique_keys v = true → jsonb_stable (normalise_jsonb_value v) = true.
Proof.
  induction v as [| | |t| | |l IH|kvs IH] using json_nested_ind; simpl; try done; intros Hf Hu.
  - case_bool_decide as E; [done|]. unfold _pg_number.
    destruct (0 <=? decimal_exponent t) eqn:E1; [done|]. destruct (decimal_digits t =? 0) eqn:E2; simpl; [done|].
    unfold jsonb_number. rewrite bool_decide_false by done. simpl. unfold _pg_number. rewrite E1, E2. by apply bool_decide_eq_true.
  - rewrite Forall_forall in IH. apply forallb_elem_iff. intros x (y & -> & Hy)%list_elem_of_fmap.
    apply (IH y Hy); [by apply (forallb_elem _ _ _ Hf)|by apply (forallb_elem _ _ _ Hu)].
  - rewrite Forall_forall in IH. apply andb_true_iff in Hu as [Hk%bool_decide_eq_true Hu]. apply andb_true_iff. split.
    + apply bool_decide_eq_true. by rewrite (keys_map_values normalise_jsonb_value).
    + apply forallb_elem_iff. intros [k x] ([k' y] & [= -> ->] & Hy)%list_elem_of_fmap.
      apply (IH _ Hy); [by apply (forallb_elem _ _ _ Hf) in Hy|by apply (forallb_elem _ _ _ Hu) in Hy].
Qed.

Section stored.
Context (store : json → json) `{!Jsonb store}.

(** A hashed row reads back with the text that was hashed. *)
Lemma stored_canonical now request uuid row : values_ok row = true →
  canonical_json (db_columns store (materialise now request uuid row)) = canonical_json (materialise now request uuid row).
Proof.
  unfold values_ok. intros [[H1 H2]%andb_true_iff H3]%andb_true_iff.
  assert (Hc : ∀ o : option json, from_option (λ v, floats_ok v && unique_keys v) true o = true →
    default JNull (store <$> (normalise_jsonb_value <$> o)) ≡ default JNull (normalise_jsonb_value <$> o)).
  { intros [v|]; [|done]. intros [Hf Hu]%andb_true_iff. simpl. by apply (store_stable (normalise_jsonb_value v)), normalise_stable. }
  unfold canonical_json. apply dumps_proper, obj_cong. unfold payload, materialise, db_columns. simpl.
  repeat constructor; by apply Hc.
Qed.

Lemma inserted_cons h hs s ss : inserted store (h :: hs) (s :: ss)
  = mkRow s (db_columns store (h_row h)) (h_hash h) (h_prev h) :: inserted store hs ss.
Proof. done. Qed.

(** Rows chained from [prev] read back as a clean chain from [prev]. *)
Lemma inserted_clean prev rows seqs : length seqs = length rows →
  (∀ r, r ∈ rows → canonical_json (db_columns store r) = canonical_json r) →
  check_rows prev (inserted store (chain_rows prev rows) seqs) = [].
Proof.
  revert prev seqs. induction rows as [|r rows IH]; intros prev [|s seqs]; try done. intros [= Hl] Hr.
  cbn [chain_rows]. cbv zeta. rewrite inserted_cons. cbn [check_rows h_row h_hash h_prev row_hash].
  rewrite IH; [|done|by intros x Hx; apply Hr; right]. rewrite app_nil_r. unfold check_row. cbn [prev_hash content row_hash].
  rewrite bool_decide_true by done. rewrite Hr by left. by rewrite bool_decide_true.
Qed.
End stored.

Lemma chain_rows_length prev rows : length (chain_rows prev rows) = length rows.
Proof. revert prev. induction rows as [|r rows IH]; intros prev; simpl; [done|]. by rewrite IH. Qed.

(** ** Reachable logs *)
Section invariant.
Context (store : json → json) `{!Jsonb store}.

Definition clean_log (log : list Row) (n : Z) : Prop :=
  check_rows None log = [] ∧ sorted log ∧ Forall (λ r, seq r < n) log.

Definition good_state (st : State) : Prop :=
  1 <= nextval st ∧ clean_log (committed st) (nextval st)
  ∧ ∀ tx own, holder st = Some (tx, own) → clean_log (committed st ++ own) (nextval st).

Lemma clean_log_mono log n n' : clean_log log n → n <= n' → clean_log log n'.
Proof. intros (H1 & H2 & H3) Hn. split_and!; [done..|]. eapply Forall_impl; [exact H3|]. simpl. lia. Qed.

Lemma drawn_spec n seqs n' : drawn n seqs n' → 1 <= n → n <= n' ∧ StronglySorted Z.lt seqs ∧ Forall (λ s, n <= s < n') seqs.
Proof.
  revert n. induction seqs as [|s seqs IH]; intros n; simpl; [intros; split_and!; [done|constructor|constructor]|].
  intros [Hs Hd] Hn. destruct (IH _ Hd) as (H1 & H2 & H3); [lia|].
  split_and!; [lia| |].
  - constructor; [done|]. eapply Forall_impl; [exact H3|]. simpl. lia.
  - constructor; [lia|]. eapply Forall_impl; [exact H3|]. simpl. lia.
Qed.

Lemma inserted_seqs hs seqs : length seqs = length hs → map seq (inserted store hs seqs) = seqs.
Proof. revert seqs. induction hs as [|h hs IH]; intros [|s seqs]; try done. intros [= Hl]. simpl. f_equal. by apply IH. Qed.

(** Inserting rows hashed on top of a clean log keeps it clean. *)
Lemma append_clean log n rows seqs n' : clean_log log n → 1 <= n → length seqs = length rows → drawn n seqs n' →
  (∀ r, r ∈ rows → canonical_json (db_columns store r) = canonical_json r) →
  clean_log (log ++ inserted store (chain_rows (last_hash_of log) rows) seqs) n' ∧ n <= n'.
Proof.
  intros (H1 & [H2 H2'] & H3) Hn Hl Hd Hr. destruct (drawn_spec _ _ _ Hd Hn) as (Hle & Hs & Hin). split; [|done].
  set (new := inserted store (chain_rows (last_hash_of log) rows) seqs).
  assert (Hq : map seq new = seqs) by (apply inserted_seqs; by rewrite chain_rows_length).
  assert (Hnew : ∀ r, r ∈ new → n <= seq r < n').
  { intros r Hr'. rewrite Forall_forall in Hin. apply Hin. rewrite <- Hq. by apply list_elem_of_fmap_2. }
  rewrite Forall_forall in H2', H3. split_and!.
  - rewrite check_rows_app, H1. simpl. replace (tip None log) with (last_hash_of log)
      by (unfold tip, last_hash_of; by destruct (last log)). by apply inserted_clean.
  - split.
    + apply StronglySorted_app. split_and!; [|done|].
      * intros x y Hx Hy. specialize (H3 x Hx). specialize (Hnew y Hy). simpl in H3. lia.
      * clear -Hs Hq. revert Hs. rewrite <- Hq. generalize new. intros l. induction l as [|x l IH]; simpl; intros H; [constructor|].
        apply StronglySorted_inv in H as [H F]. constructor; [by apply IH|]. rewrite Forall_fmap in F. done.
    + apply Forall_app. split; [by apply Forall_forall|]. apply Forall_forall. intros r Hr'. specialize (Hnew r Hr'). simpl. lia.
  - apply Forall_app. split; apply Forall_forall; intros r Hr'; [specialize (H3 r Hr')|specialize (Hnew r Hr')]; simpl in *; lia.
Qed.

Lemma reachable_good st : reachable store st → good_state st.
Proof.
  induction 1 as [|st st' _ (Hn & Hc & Hh) Hstep].
  { split_and!; [done| |done]. split_and!; [done|split; constructor|constructor]. }
  inversion Hstep as [? tx now bound uuid4 new seqs n' Hfree hashed Hl Hd Hv|? tx own Ho|? tx own Ho]; subst; simpl.
  - assert (Hvis : ∃ own, visible st tx = committed st ++ own ∧ clean_log (visible st tx) (nextval st)).
    { unfold visible. unfold lock_free_for in Hfree. destruct (holder st) as [[t own]|] eqn:E.
      - rewrite Hfree. exists own. split; [done|]. by apply (Hh t).
      - exists []. split; [done|]. by rewrite app_nil_r. }
    destruct Hvis as (own & Hvis & Hclean).
    assert (Hu : List.filter unhashed new = new).
    { apply filter_all, forallb_elem_iff. intros r Hr. rewrite Forall_forall in Hv. by apply Hv. }
    destruct (append_clean _ _ (imap (λ i, materialise now (_current_request_id bound) (uuid4 i)) (map nr_row new)) seqs n' Hclean Hn)
      as [Happ Hle].
    { rewrite Hl. unfold hashed, compute_audit_hashes. by rewrite chain_rows_length, Hu. }
    { done. }
    { intros r (i & x & -> & Hx)%elem_of_lookup_imap. apply list_lookup_fmap_Some in Hx as (y & -> & Hy).
      apply stored_canonical; [done|]. rewrite Forall_forall in Hv. apply Hv. by apply list_elem_of_lookup_2 with i. }
    split_and!; [simpl; lia|by apply (clean_log_mono _ (nextval st))|]. intros ? ? [= <- <-].
    unfold hashed, compute_audit_hashes. rewrite Hu. cbn [committed nextval]. rewrite app_assoc.
    assert (committed st ++ drop (length (committed st)) (visible st tx) = visible st tx) as ->; [|exact Happ].
    rewrite Hvis. by rewrite drop_app_length.
  - split_and!; [done|by apply (Hh tx)|done].
  - split_and!; [done..|done].
Qed.
End invariant.

(** ** Two logs with one tip *)

(** The same hashed columns: a missing id reads as the text [None], an empty
    [timestamp] or [user_id] as NULL. *)
Definition same_columns (a b : AuditLog) : Prop :=
  default "None" (id a) = default "None" (id b) ∧ text_if_any (timestamp a) = text_if_any (timestamp b)
  ∧ text_if_any (user_id a) = text_if_any (user_id b) ∧ user_display_name a = user_display_name b
  ∧ auth_source a = auth_source b ∧ source_ip a = source_ip b ∧ user_agent a = user_agent b ∧ action a = action b
  ∧ resource_type a = resource_type b ∧ resource_id a = resource_id b ∧ resource_display a = resource_display b
  ∧ default JNull (old_value a) ≡ default JNull (old_value b) ∧ default JNull (new_value a) ≡ default JNull (new_value b)
  ∧ default JNull (changed_fields a) ≡ default JNull (changed_fields b) ∧ request_id a = request_id b
  ∧ result a = result b ∧ error_detail a = error_detail b.

Lemma text_inj a b : text_or_null a ≡ text_or_null b → a = b.
Proof. destruct a, b; unfold equiv, json_equiv; simpl; congruence. Qed.

Lemma text_if_any_inj a b : text_if_any a ≡ text_if_any b → text_if_any a = text_if_any b.
Proof.
  unfold equiv, json_equiv. destruct a as [a|], b as [b|]; simpl; repeat case_bool_decide; simpl; congruence.
Qed.

Lemma canonical_inj a b : values_ok a = true → values_ok b = true → canonical_json a = canonical_json b → same_columns a b.
Proof.
  assert (Hok : ∀ a, values_ok a = true → floats_ok (JObj (payload a)) = true).
  { intros r. unfold values_ok. intros [[H1 H2]%andb_true_iff H3]%andb_true_iff.
    assert (Hc : ∀ o : option json, from_option (λ v, floats_ok v && unique_keys v) true o = true → floats_ok (default JNull o) = true).
    { intros [v|]; [|done]. by intros [Hf _]%andb_true_iff. }
    assert (Ht : ∀ o, floats_ok (text_or_null o) = true) by (by intros []).
    assert (Hi : ∀ o, floats_ok (text_if_any o) = true) by (intros []; simpl; [|done]; by case_bool_decide).
    cbn [floats_ok payload forallb]. by rewrite !Ht, !Hi, !Hc. }
  intros Ha Hb H. apply dumps_inj in H; [|by apply Hok..].
  apply obj_inv in H; [|apply (bool_decide_unpack _); vm_compute; exact I|done].
  unfold payload in H. repeat (apply Forall2_cons in H; destruct H as [[_ ?] H]). cbn [snd] in *. unfold same_columns.
  split_and!; try done; try (by apply text_inj); try (by apply text_if_any_inj).
  match goal with H : JStr _ ≡ JStr _ |- _ => unfold equiv, json_equiv in H; simpl in H; congruence end.
Qed.

(** The text that was hashed tells the previous hash and the row. *)
Definition digest_or_none (p : option str) : Prop := p = None ∨ ∃ x, p = Some (Sha256.hexdigest x).

Lemma hex_no_bar s : forallb Sha256.is_hex s = true → isascii s = true ∧ contains "|" s = false.
Proof.
  intros H. split.
  - revert H. apply forallb_impl. intros c. apply ascii_subclass. vm_compute. reflexivity.
  - apply existsb_none. intros c Hc. pose proof (forallb_elem _ _ _ H Hc) as Hx.
    apply (ascii_subclass Sha256.is_hex (λ c, negb (chr_is "|" c))) in Hx; [by apply negb_true_iff in Hx|].
    vm_compute. reflexivity.
Qed.

Lemma bar_split (a b r s : str) : contains "|" a = false → contains "|" b = false →
  a ++ "|" ++ r = b ++ "|" ++ s → a = b ∧ r = s.
Proof.
  revert b. induction a as [|c a IH]; intros [|d b]; simpl; intros Ha Hb H.
  - by injection H.
  - by injection H as <- _.
  - by injection H as -> _.
  - injection H as -> H. apply orb_false_iff in Ha as [_ Ha], Hb as [_ Hb]. by destruct (IH b Ha Hb H) as [-> ->].
Qed.

Lemma hash_input_inj p q c d : digest_or_none p → digest_or_none q → hash_input p c = hash_input q d → p = q ∧ c = d.
Proof.
  unfold hash_input. intros Hp Hq H.
  assert (Hd : ∀ p, digest_or_none p → contains "|" (from_option encode [] p) = false
    ∧ (from_option encode [] p = [] → p = None) ∧ ∀ x, p = Some x → encode x = x).
  { intros o [->|[x ->]]; [done|]. destruct (hex_no_bar _ (Sha256.hexdigest_hex x)) as [Ha Hb]. simpl.
    rewrite encode_ascii by done. split_and!; [done| |by intros ? [= <-]; apply encode_ascii].
    intros E. apply (f_equal length) in E. by rewrite Sha256.hexdigest_length in E. }
  destruct (Hd p Hp) as (Hp1 & Hp2 & Hp3), (Hd q Hq) as (Hq1 & Hq2 & Hq3).
  apply bar_split in H as [H1 H2]; [|done..]. apply encode_inj in H2. split; [|done].
  destruct p as [x|], q as [y|]; simpl in H1; [|by apply Hp2 in H1|by symmetry in H1; apply Hq2 in H1|done].
  by rewrite (Hp3 x), (Hq3 y) in H1 by done; subst.
Qed.

Lemma check_row_clean e r : check_row e r = [] →
  prev_hash r = e ∧ hash_row (prev_hash r) (canonical_json (content r)) = row_hash r.
Proof. unfold check_row. cbv zeta. repeat case_bool_decide; done. Qed.

Lemma tip_digest log : check_rows None log = [] → digest_or_none (tip None log).
Proof.
  destruct log as [|r log _] using rev_ind; [by left|]. rewrite check_rows_app, tip_app. intros [_ H]%app_nil.
  simpl in H. rewrite app_nil_r in H. apply check_row_clean in H as [_ H].
  right. exists (hash_input (prev_hash r) (canonical_json (content r))). unfold tip. simpl. by rewrite <- H.
Qed.

(** A row of each log whose hashed texts differ and have one digest. *)
Definition collision (log1 log2 : list Row) : Prop :=
  ∃ a b, a ∈ log1 ∧ b ∈ log2
    ∧ hash_input (prev_hash a) (canonical_json (content a)) ≠ hash_input (prev_hash b) (canonical_json (content b))
    ∧ hash_row (prev_hash a) (canonical_json (content a)) = hash_row (prev_hash b) (canonical_json (content b)).

Lemma one_tip log1 log2 : check_rows None log1 = [] → check_rows None log2 = [] → tip None log1 = tip None log2 →
  Forall2 (λ a b, prev_hash a = prev_hash b ∧ row_hash a = row_hash b ∧ canonical_json (content a) = canonical_json (content b)) log1 log2
  ∨ collision log1 log2.
Proof.
  revert log2. induction log1 as [|a log1 IH] using rev_ind; intros log2 H1 H2 Ht.
  { destruct log2 as [|b log2 _] using rev_ind; [by left; constructor|]. rewrite tip_app in Ht. done. }
  destruct log2 as [|b log2 _] using rev_ind; [by rewrite tip_app in Ht|].
  rewrite !tip_app in Ht. injection Ht as Ht. rewrite check_rows_app in H1, H2.
  apply app_nil in H1 as [H1 Ha], H2 as [H2 Hb]. simpl in Ha, Hb. rewrite app_nil_r in Ha, Hb.
  apply check_row_clean in Ha as [Pa Ha], Hb as [Pb Hb].
  destruct (decide (hash_input (prev_hash a) (canonical_json (content a)) = hash_input (prev_hash b) (canonical_json (content b)))) as [E|E].
  - apply hash_input_inj in E as [E1 E2]; [|rewrite Pa; by apply tip_digest|rewrite Pb; by apply tip_digest].
    destruct (IH log2 H1 H2) as [IH'|(x & y & Hx & Hy & Hd)]; [congruence| |].
    + left. apply Forall2_app; [done|]. by repeat constructor.
    + right. exists x, y. split_and!; [apply elem_of_app; by left|apply elem_of_app; by left|apply Hd..].
  - right. exists a, b. split_and!; [apply elem_of_app; right; left|apply elem_of_app; right; left|done|congruence].
Qed.

(** ** Night after night *)

(** The checkpoint tells the truth: a clean walk from the first row ended at
    the row it names. *)
Definition vouches (cp : Checkpoint) (log : list Row) : Prop :=
  0 < verified_seq cp → ∃ P Q r, log = P ++ Q ∧ last P = Some r ∧ seq r = verified_seq cp
    ∧ verified_hash cp = Some (row_hash r) ∧ check_rows None P = [].

Lemma vouches_append cp log new : vouches cp log → vouches cp (log ++ new).
Proof.
  intros H Hp. destruct (H Hp) as (P & Q & r & -> & H1). exists P, (Q ++ new), r. by rewrite <- app_assoc.
Qed.

Lemma save_fold cp chunks :
  foldl _save cp chunks = cp ∨ ∃ c, c ∈ chunks ∧ ck_breaks c = 0
    ∧ foldl _save cp chunks = mkCheckpoint (ck_seq c) (Some (ck_hash c)) (full_pass_done_at cp).
Proof.
  induction chunks as [|c chunks IH] using rev_ind; [by left|]. rewrite foldl_snoc.
  assert (Hs : ∀ cp, _save cp c = if ck_breaks c =? 0 then mkCheckpoint (ck_seq c) (Some (ck_hash c)) (full_pass_done_at cp) else cp) by done.
  rewrite Hs. destruct (Z.eqb_spec (ck_breaks c) 0) as [E|E].
  - right. exists c. split_and!; [apply elem_of_app; right; left|done|].
    destruct IH as [->|(d & _ & _ & ->)]; done.
  - destruct IH as [->|(d & Hd & H)]; [by left|]. right. exists d. split; [apply elem_of_app; by left|done].
Qed.

(** Where a resumed walk starts. *)
Lemma resume_point_spec log cpo now s h : sorted log → (∀ cp, cpo = Some cp → vouches cp log) →
  resume_point log cpo now = Some (s, h) →
  ∃ P r, log = P ++ after log s ∧ last P = Some r ∧ seq r = s ∧ row_hash r = h ∧ check_rows None P = [].
Proof.
  intros Hs Hv. unfold resume_point. destruct cpo as [cp|]; simpl; [|done].
  destruct (Z.ltb_spec 0 (verified_seq cp)) as [Hp|]; [|done]. destruct (verified_hash cp) as [[|x h']|] eqn:Eh; try done.
  destruct (_full_pass_reason _ _); [done|]. destruct (checkpoint_still_valid _ _ _); [|done]. intros [= <- <-].
  destruct (Hv cp eq_refl Hp) as (P & Q & r & -> & Hr & <- & E & Hc). exists P, r. rewrite Eh in E. injection E as E.
  rewrite (after_split P Q r Hs Hr). by rewrite <- E.
Qed.

(** What a nightly run finds, given a truthful checkpoint. *)
Lemma nightly_walk log cpo now later : sorted log → (∀ cp, cpo = Some cp → vouches cp log) →
  ∃ res cp, _walk_with_checkpoint log cpo now later = Some (res, cp) ∧ partial res = false
    ∧ v_breaks res = check_rows None log ∧ ok res = bool_decide (check_rows None log = []) ∧ vouches cp log.
Proof.
  intros Hs Hv. unfold _walk_with_checkpoint. set (start := resume_point log cpo now).
  assert (Hstart : ∃ P, log = P ++ after log (start_seq start) ∧ snd <$> start = tip None P ∧ check_rows None P = []).
  { destruct start as [[s h]|] eqn:E.
    - destruct (resume_point_spec _ _ _ _ _ Hs Hv E) as (P & r & HP & Hr & _ & <- & Hc). exists P.
      split_and!; [done| |done]. simpl. unfold tip. by rewrite Hr.
    - exists []. simpl. by rewrite after_0. }
  destruct Hstart as (P & HP & Hst & Hc). set (R := after log (start_seq start)) in *.
  destruct (walk_verdict log false VERIFY_CHUNK_SIZE None start Hs) as (chunks & E & Hck & _).
  cbn [quota] in E, Hck. fold R in E, Hck.
  assert (Hfull : check_rows None log = check_rows (snd <$> start) R) by (rewrite HP at 1; by rewrite check_rows_app, Hc, Hst).
  unfold verify_chain. rewrite E. exists (verdict start false R R chunks). eexists. rewrite Hfull.
  split_and!; [reflexivity|simpl; apply Nat.ltb_irrefl|done|done|]. cbn [on_chunk_calls verdict].
  set (cp0 := match start with None => _ | _ => _ end). set (cp1 := foldl _save cp0 chunks).
  assert (Hv1 : vouches cp1 log).
  { unfold cp1. destruct (save_fold cp0 chunks) as [->|(c & Hin & Hz & ->)].
    - unfold cp0. destruct start eqn:Es; [|intros H; simpl in H; lia].
      destruct cpo as [cp|]; [by apply Hv|done].
    - intros _. destruct (Hck c Hin) as (P1 & Q1 & r & HR & Hr & ->). exists (P ++ P1), Q1, r. simpl in *.
      split_and!; [by rewrite HP, HR, app_assoc|by rewrite last_app, Hr|done..|]. rewrite check_rows_app, Hc. simpl.
      assert (E0 : breaks (walk_from start) ++ check_rows (expected_prev (walk_from start)) P1 = []) by (apply nil_length_inv; lia).
      rewrite <- Hst. by destruct start as [[]|]. }
  case_match; exact Hv1.
Qed.

(** Each night some rows were appended, then the walk ran. *)
Fixpoint nights (log : list Row) (cp : option Checkpoint) (runs : list (list Row * Z * Z)) : option (list (bool * list ChainBreak)) :=
  match runs with
  | [] => Some []
  | (new, now, later) :: rest =>
      '(res, cp') ← _walk_with_checkpoint (log ++ new) cp now later;
      found ← nights (log ++ new) (Some cp') rest;
      Some ((ok res, v_breaks res) :: found)
  end.

Fixpoint full_passes (log : list Row) (runs : list (list Row * Z * Z)) : list (bool * list ChainBreak) :=
  match runs with
  | [] => []
  | (new, _, _) :: rest =>
      let found := check_rows None (log ++ new) in
      (bool_decide (found = []), found) :: full_passes (log ++ new) rest
  end.

Lemma nights_spec log cpo runs : sorted (log ++ mjoin (map (λ run, fst (fst run)) runs)) →
  (∀ cp, cpo = Some cp → vouches cp log) → nights log cpo runs = Some (full_passes log runs).
Proof.
  revert log cpo. induction runs as [|[[new now] later] runs IH]; intros log cpo Hs Hv; [done|]. simpl in Hs |- *.
  rewrite app_assoc in Hs. destruct (nightly_walk (log ++ new) cpo now later) as (res & cp & E & _ & Hb & Hok & Hcp).
  { by apply sorted_app in Hs as [? _]. }
  { intros cp Hcp. by apply vouches_append, Hv. }
  rewrite E. simpl. rewrite IH; [|done|by intros ? [= <-]]. simpl. by rewrite Hb, Hok.
Qed.

(** ** The newest window *)
Lemma filter_before P Q r : sorted (P ++ r :: Q) → List.filter (λ p, seq p <? seq r) (P ++ r :: Q) = P.
Proof.
  intros Hs. pose proof (sorted_app _ _ Hs) as (_ & [HQ _] & Hpq). rewrite List.filter_app.
  apply StronglySorted_inv in HQ as [_ HQ]. rewrite Forall_forall in HQ. simpl. rewrite Z.ltb_irrefl.
  rewrite filter_all, filter_none_elem; [by rewrite app_nil_r|..].
  - intros q Hq. apply Z.ltb_ge. specialize (HQ q Hq). simpl in HQ. lia.
  - apply forallb_elem_iff. intros p Hp. apply Z.ltb_lt. apply Hpq; [done|left].
Qed.

Lemma window_anchor_spec log m : sorted log → 1 <= m →
  let k := (length log - Z.to_nat m)%nat in
  ∃ anchor, window_anchor log m = Some anchor ∧ after log (start_seq anchor) = drop k log
    ∧ snd <$> anchor = tip None (take k log) ∧ (anchor ≠ None ↔ take k log ≠ []).
Proof.
  intros Hs Hm k. unfold window_anchor. rewrite (proj2 (Z.ltb_ge m 1) Hm). eexists. split; [reflexivity|].
  destruct (decide (length log < Z.to_nat m)%nat) as [Hk|Hk].
  { rewrite lookup_ge_None_2 by (rewrite length_reverse; lia). simpl. unfold k.
    replace (length log - Z.to_nat m)%nat with 0%nat by lia. by rewrite drop_0, after_0. }
  rewrite reverse_lookup by lia. replace (length log - S (Z.to_nat (m - 1)))%nat with k by lia.
  destruct (lookup_lt_is_Some_2 log k) as [r Hr]; [unfold k; lia|]. rewrite Hr. simpl.
  pose proof (take_drop_middle log k r Hr) as Hl. assert (Hd : drop k log = r :: drop (S k) log) by (by apply drop_S).
  assert (List.filter (λ p, seq p <? seq r) log = take k log) as -> by (rewrite <- Hl at 1; apply filter_before; by rewrite Hl).
  unfold tip. destruct (last (take k log)) as [p|] eqn:Hp; simpl.
  - split_and!; [|done|]; [|split; [intros _ E; by rewrite E in Hp|done]].
    rewrite <- (take_drop k log) at 1. apply after_split; [by rewrite take_drop|done].
  - apply last_None in Hp. split_and!; [|done|done]. rewrite after_0 by done. rewrite <- (take_drop k log) at 1. by rewrite Hp.
Qed.

(** ** A small log *)
#[export] Instance identity_jsonb : Jsonb (λ v, v).
Proof. by intros v _. Qed.

Definition audit_row (act : str) (value : json) : AuditLog :=
  mkAudit None None None (Some "system") None None None (Some act) (Some "subnet") (Some "s1") (Some "10.0.0.0/24")
    None (Some value) None None None None.
Definition sample_new : list NewRow :=
  [mkNew (audit_row "create" (JObj [("n" : str, JFloat "1e+16")])) None; mkNew (audit_row "update" (JOther "2026-01-01")) None].
Definition sample_uuid (i : nat) : str := "u" ++ str_of_nat i.
Definition sample_hashed (log : list Row) : list Hashed := compute_audit_hashes log "2026-01-01T00:00:00+00:00" (Some "req") sample_uuid sample_new.
(** Two flushes of two rows; a rolled-back number is missing. *)
Definition sample_log : list Row :=
  let first := inserted (λ v, v) (sample_hashed []) [1; 2] in
  first ++ inserted (λ v, v) (sample_hashed first) [4; 5].

Lemma sample_sorted : sorted sample_log.
Proof.
  split; [|apply (bool_decide_unpack _); vm_compute; exact I].
  apply Sorted_StronglySorted; [intros x y z; apply Z.lt_trans|]. repeat constructor.
Qed.

(** ** Theorems *)

(** C24 -- the verifier, whatever its page size, terminates and reports exactly
    the breaks of one pass over the rows in [seq] order, in that order, having
    read every row; it is [ok] exactly when there is none. *)
Theorem verify_one_pass (log : list Row) (chunk_size : Z) (newest : bool) : sorted log →
  ∃ calls, verify_chain log None None chunk_size newest
    = Some (mkVerify (bool_decide (check_rows None log = [])) (Z.of_nat (length log)) (check_rows None log)
              (seq <$> head log) (seq <$> last log) (row_hash <$> last log) false calls).
Proof.
  intros Hs. destruct (full_walk log chunk_size Hs) as (calls & E & _). exists calls.
  transitivity (verify_chain log None None chunk_size false); [by destruct newest|]. rewrite E. f_equal.
  unfold verdict, tip. simpl. rewrite Nat.ltb_irrefl. by destruct (last log).
Qed.

Lemma verify_one_pass_witness : ∃ calls, verify_chain sample_log None None 3 false
  = Some (mkVerify true 4 [] (Some 1) (Some 5) (row_hash <$> last sample_log) false calls).
Proof.
  destruct (verify_one_pass sample_log 3 false sample_sorted) as [calls E]. exists calls. rewrite E.
  vm_compute. reflexivity.
Defined.

(** The newest window: a walk capped to the newest [m] rows covers
    exactly them and reports exactly the breaks that a full pass reports on
    them; it says it is partial exactly when older rows exist. *)
Theorem newest_window_exact (log : list Row) (m chunk_size : Z) : sorted log → 1 <= m →
  ∃ older window res, log = older ++ window ∧ Z.of_nat (length window) = Z.min m (Z.of_nat (length log))
    ∧ verify_chain log (Some m) None chunk_size true = Some res
    ∧ v_rows res = Z.of_nat (length window)
    ∧ check_rows None log = check_rows None older ++ v_breaks res
    ∧ ok res = bool_decide (v_breaks res = [])
    ∧ (partial res = true ↔ older ≠ []).
Proof.
  intros Hs Hm. set (k := (length log - Z.to_nat m)%nat).
  exists (take k log), (drop k log). destruct (window_anchor_spec log m Hs Hm) as (anchor & Ha & Haft & Htip & Hnone).
  fold k in Haft, Htip, Hnone.
  destruct (walk_verdict log (bool_decide (anchor ≠ None)) chunk_size None anchor Hs) as (calls & E & _).
  cbn [quota] in E. rewrite Haft in E. exists (verdict anchor (bool_decide (anchor ≠ None)) (drop k log) (drop k log) calls).
  split_and!.
  - by rewrite take_drop.
  - rewrite length_drop. lia.
  - unfold verify_chain. rewrite Ha. exact E.
  - done.
  - cbn [v_breaks verdict]. rewrite Htip, <- check_rows_app. by rewrite take_drop.
  - done.
  - cbn [partial verdict]. rewrite Nat.ltb_irrefl, orb_false_r, bool_decide_eq_true. by rewrite Hnone.
Qed.

Lemma newest_window_exact_witness :
  ∃ older window res, sample_log = older ++ window ∧ length window = 2%nat
    ∧ verify_chain sample_log (Some 2) None 5000 true = Some res ∧ ok res = true ∧ partial res = true.
Proof.
  destruct (newest_window_exact sample_log 2 5000 sample_sorted ltac:(lia)) as (older & window & res & H1 & H2 & H3 & H4 & H5 & H6 & H7).
  assert (Hw : length window = 2%nat) by (change (length sample_log) with 4%nat in H2; lia).
  exists older, window, res. split_and!; [done..| |].
  - revert H3. vm_compute. by intros [= <-].
  - revert H3. vm_compute. by intros [= <-].
Defined.

(** C6 -- tampering is evident: two logs that both verify and end in the same
    hash hold the same rows (every hashed column, JSON up to the order of
    keys), or somebody found two different texts with one SHA-256 digest, and
    they are among the texts of these logs. *)
Theorem tamper_evident (log1 log2 : list Row) (c1 c2 : Z) (res1 res2 : ChainVerifyResult) :
  sorted log1 → sorted log2 →
  Forall (λ r, values_ok (content r) = true) (log1 ++ log2) →
  verify_chain log1 None None c1 false = Some res1 → verify_chain log2 None None c2 false = Some res2 →
  ok res1 = true → ok res2 = true → v_hash res1 = v_hash res2 →
  Forall2 (λ a b, same_columns (content a) (content b) ∧ row_hash a = row_hash b ∧ prev_hash a = prev_hash b) log1 log2
  ∨ collision log1 log2.
Proof.
  intros Hs1 Hs2 [Hv1 Hv2]%Forall_app E1 E2 Ho1 Ho2 Ht.
  destruct (full_walk log1 c1 Hs1) as (k1 & F1 & _), (full_walk log2 c2 Hs2) as (k2 & F2 & _).
  rewrite E1 in F1. rewrite E2 in F2. injection F1 as ->. injection F2 as ->.
  apply bool_decide_eq_true in Ho1, Ho2. destruct (one_tip log1 log2 Ho1 Ho2 Ht) as [H|H]; [left|by right].
  apply Forall2_same_length_lookup. split; [by eapply Forall2_length|]. intros i a b Ha Hb.
  destruct (Forall2_lookup_lr _ _ _ _ _ _ H Ha Hb) as (Hp & Hr & Hcj). split_and!; [|done..].
  apply canonical_inj; [by eapply (Forall_lookup_1 _ _ _ _ Hv1)|by eapply (Forall_lookup_1 _ _ _ _ Hv2)|done].
Qed.

Lemma tamper_evident_witness :
  Forall2 (λ a b, same_columns (content a) (content b) ∧ row_hash a = row_hash b ∧ prev_hash a = prev_hash b) sample_log sample_log
  ∨ collision sample_log sample_log.
Proof.
  eapply (tamper_evident sample_log sample_log 2 5000); [apply sample_sorted|apply sample_sorted|..].
  - apply (bool_decide_unpack _). vm_compute. exact I.
  - vm_compute. reflexivity.
  - vm_compute. reflexivity.
  - reflexivity.
  - reflexivity.
  - reflexivity.
Defined.

(** The verifier alone does not see rows missing at the end. *)
Example truncated_tail_verifies : ok <$> verify_chain (take 3 sample_log) None None 5000 false = Some true.
Proof. vm_compute. reflexivity. Qed.

(** An edited value, and a deleted row in the middle, are reported. *)
Example edited_row_reported :
  (λ r, map (λ b, (br_seq b, br_reason b)) (v_breaks r))
    <$> verify_chain (alter (λ r, mkRow (seq r) (audit_row "delete" JNull) (row_hash r) (prev_hash r)) 1%nat sample_log) None None 5000 false
  = Some [(2, row_hash_mismatch)]
  ∧ (λ r, map (λ b, (br_seq b, br_reason b)) (v_breaks r)) <$> verify_chain (delete 1%nat sample_log) None None 5000 false
  = Some [(4, prev_hash_mismatch)].
Proof. vm_compute. split; reflexivity. Qed.

(** C7 -- the log that concurrent transactions write always verifies: whatever
    the interleaving of flushes, commits and rollbacks, whatever the JSON values
    and however JSONB reorders their keys, the committed rows form one chain. *)
Theorem committed_log_verifies (store : json → json) (Hstore : Jsonb store) (st : State) (chunk_size : Z) :
  reachable store st →
  ∃ res, verify_chain (committed st) None None chunk_size false = Some res
    ∧ ok res = true ∧ v_breaks res = [] ∧ partial res = false ∧ v_rows res = Z.of_nat (length (committed st)).
Proof.
  intros (_ & (Hc & Hs & _) & _)%reachable_good; [|done]. destruct (full_walk (committed st) chunk_size Hs) as (calls & E & _).
  eexists. split; [exact E|]. unfold verdict. simpl. rewrite Hc, Nat.ltb_irrefl. done.
Qed.

Definition first_flush : State := mkState [] (Some (7%nat, inserted (λ v, v) (sample_hashed []) [1; 2])) 3.
Lemma committed_log_verifies_witness :
  ∃ st res, length (committed st) = 2%nat ∧ verify_chain (committed st) None None 1 false = Some res ∧ ok res = true.
Proof.
  exists (mkState (inserted (λ v, v) (sample_hashed []) [1; 2]) None 3).
  destruct (committed_log_verifies (λ v, v) _ (mkState (inserted (λ v, v) (sample_hashed []) [1; 2]) None 3) 1) as (res & E & Hok & _).
  - apply (reach_step _ first_flush); [|by apply (step_commit _ first_flush 7%nat)].
    apply (reach_step _ (mkState [] None 1)); [apply reach_init|].
    apply (step_flush (λ v, v) (mkState [] None 1) 7%nat "2026-01-01T00:00:00+00:00" (Some "req") sample_uuid sample_new [1; 2] 3).
    + reflexivity.
    + vm_compute. reflexivity.
    + simpl. lia.
    + repeat constructor.
  - exists res. split_and!; [vm_compute; reflexivity|done|done].
Defined.

(** Resuming from the checkpoint loses nothing: rows may be appended
    before every nightly run, and every run still finds exactly the breaks of a
    full pass over the log as it then is. *)
Theorem nightly_runs_exact (runs : list (list Row * Z * Z)) :
  sorted (mjoin (map (λ run, fst (fst run)) runs)) → nights [] None runs = Some (full_passes [] runs).
Proof. intros Hs. by apply nights_spec. Qed.

Lemma nightly_runs_exact_witness :
  nights [] None [(take 2 sample_log, 0, 10); (drop 2 sample_log, 20, 30)] = Some [(true, []); (true, [])].
Proof.
  rewrite (nightly_runs_exact [(take 2 sample_log, 0, 10); (drop 2 sample_log, 20, 30)]).
  - vm_compute. reflexivity.
  - exact sample_sorted.
Defined.
End AuditChain.
