(* ===== verification/TokenScopes.v ===== *)
(** * API token scopes

    [backend/app/services/api_token_scopes.py]: the coarse gate a scoped API
    token passes before RBAC, the check of a stored operation's family, and the
    validation of scopes and resource grants when a token is issued.  A handler's
    markers ([read_only_post], [token_outbound]) reach the gate as booleans. *)
From S2P Require Import PyStr Permissions.
Import Permissions.

Module TokenScopes.

Definition TOKEN_SCOPE_VOCABULARY : list str := ["read"; "ipam:write"; "dns:write"; "dhcp:write"].
Definition RETIRED_SCOPES : list str := ["agent"].
Definition _SAFE_METHODS : list str := ["GET"; "HEAD"; "OPTIONS"].
Definition WRITE_SCOPES : list str := ["ipam:write"; "dns:write"; "dhcp:write"].

Definition _IPAM_PREFIXES : list str :=
  ["/api/v1/ipam"; "/api/v1/vlans"; "/api/v1/vrfs"; "/api/v1/network-devices"; "/api/v1/address-sets";
   "/api/v1/multicast"; "/api/v1/av/flows"; "/api/v1/av/reserved-ranges"; "/api/v1/custom-fields"].
Definition _DNS_PREFIXES : list str := ["/api/v1/dns"].
Definition _DHCP_PREFIXES : list str := ["/api/v1/dhcp"].
Definition _AGENT_PREFIXES : list str := ["/api/v1/dns/agents"; "/api/v1/dhcp/agents"].
Definition _MCP_PREFIXES : list str := ["/api/v1/ai/mcp"].

(** ** Route patterns

    The regular expressions of the module are sequences of path segments: a
    literal, [[^/]+], or an alternative of literals; [fullmatch] compares
    segment by segment. *)
Inductive segment := Lit (s : str) | AnySeg | OneOf (l : list str).

Definition seg_matches (p : segment) (s : str) : bool :=
  match p with
  | Lit t => bool_decide (s = t)
  | AnySeg => negb (bool_decide (s = []))
  | OneOf l => bool_decide (s ∈ l)
  end.

Fixpoint segs_match (ps : list segment) (ss : list str) : bool :=
  match ps, ss with
  | [], [] => true
  | p :: ps', s :: ss' => seg_matches p s && segs_match ps' ss'
  | _, _ => false
  end.

Definition api (ps : list segment) (path : str) : bool :=
  segs_match (Lit "" :: Lit "api" :: Lit "v1" :: ps) (split "/" path).

(** The registered-domain routes, but for the synchronous RDAP refresh
    ([domains/<id>/refresh-whois]); the pattern's dot is no newline. *)
Definition domains_route (path : str) : bool :=
  if bool_decide (path = "/api/v1/domains") then true
  else startswith "/api/v1/domains/" path
       && negb (contains (ascii_of_nat 10) (drop (length ("/api/v1/domains/" : str)) path))
       && negb (api [Lit "domains"; AnySeg; Lit "refresh-whois"] path).

Definition _ROUTE_RULES : list (str * str * (str → bool)) :=
  [("ipam:write", "POST", api [Lit "nmap"; Lit "scans"; AnySeg; Lit "stamp-discovered"]);
   ("dns:write", "POST", api [Lit "acme"; Lit "register"]);
   ("dns:write", "DELETE", api [Lit "acme"; Lit "accounts"; AnySeg]);
   ("dns:write", "*", domains_route);
   ("dhcp:write", "POST", api [Lit "new-devices"; Lit "block"])].

Definition _APPLY_TIME_ROUTES : list (str * (str → bool)) :=
  [("POST", api [Lit "requests"]);
   ("POST", api [Lit "requests"; AnySeg; OneOf ["approve"; "reject"; "cancel"]]);
   ("POST", api [Lit "change-requests"; AnySeg; OneOf ["approve"; "reject"; "cancel"]]);
   ("POST", api [Lit "ai"; Lit "proposals"; AnySeg; Lit "apply"])].

(** ** Operations and their families *)
Definition OPERATION_WRITE_SCOPE : list (str * str) :=
  map (λ op, (op, "ipam:write"))
    ["allocate_subnet"; "create_ip_address"; "create_address_set"; "delete_subnet"; "delete_block"; "delete_space";
     "commit_netbox_import"; "create_multicast_group"; "allocate_multicast_groups"; "create_multicast_domain";
     "update_multicast_domain"; "delete_multicast_domain"]
  ++ map (λ op, (op, "dns:write"))
    ["create_dns_record"; "create_dns_zone"; "delete_zone"; "sign_zone_dnssec"; "unsign_zone_dnssec";
     "set_zone_update_acl"; "commit_dns_import"]
  ++ map (λ op, (op, "dhcp:write"))
    ["create_dhcp_static"; "delete_scope"; "delete_group"; "commit_dhcp_import"; "allowlist_ra_router"; "block_mac"].

Definition write_scope_of (operation_name : str) : option str :=
  snd <$> List.find (λ p, bool_decide (fst p = operation_name)) OPERATION_WRITE_SCOPE.

(** ** The gate *)
Definition _path_under (path : str) (prefixes : list str) : bool :=
  existsb (λ p, bool_decide (path = p) || startswith (p ++ "/") path) prefixes.

Definition _route_rule_matches (scope method path : str) : bool :=
  existsb (λ '(s, m, rx), bool_decide (s = scope) && (bool_decide (m = "*") || bool_decide (m = method)) && rx path)
    _ROUTE_RULES.

Definition _apply_time_route (method path : str) : bool :=
  existsb (λ '(m, rx), bool_decide (m = method) && rx path) _APPLY_TIME_ROUTES.

(** [enforce_operation_token_scope]: [true] where the code returns, [false]
    where it raises 403. *)
Definition enforce_operation_token_scope (scopes : list str) (operation_name : str) : bool :=
  if bool_decide (scopes = []) then true
  else match write_scope_of operation_name with Some needed => bool_decide (needed ∈ scopes) | None => false end.

Definition scopes_allow_outbound_tool (scopes : list str) (outbound_scope : option str) : bool :=
  bool_decide (scopes = [])
  || match outbound_scope with Some s => bool_decide (s ∈ scopes) | None => false end.

(** One turn of [for scope in scopes]: does it return [True]? *)
Definition scope_admits (method path : str) (is_safe read_only_post_request outbound_route : bool) (scope : str) : bool :=
  let read := bool_decide (scope = "read") in
  let writes := bool_decide (scope ∈ WRITE_SCOPES) in
  if read && outbound_route then false
  else if read && (is_safe || read_only_post_request) then true
  else if read && _path_under path _MCP_PREFIXES then true
  else if writes && _route_rule_matches scope method path then true
  else if writes && _apply_time_route method path then true
  else if bool_decide (scope = "ipam:write") && _path_under path _IPAM_PREFIXES then true
  else if bool_decide (scope = "dns:write") && _path_under path _DNS_PREFIXES
       then negb (_path_under path _AGENT_PREFIXES)
  else if bool_decide (scope = "dhcp:write") && _path_under path _DHCP_PREFIXES
       then negb (_path_under path _AGENT_PREFIXES)
  else false.

Definition scope_matches_request (scopes : list str) (method path : str) (read_only_route outbound_route : bool) : bool :=
  if bool_decide (scopes = []) then true
  else
    let method := upper method in
    let is_safe := bool_decide (method ∈ _SAFE_METHODS) in
    let read_only_post_request := read_only_route && bool_decide (method = "POST") in
    existsb (scope_admits method path is_safe read_only_post_request outbound_route) scopes.

(** ** Issuing a token *)
Inductive scope_error := Retired (l : list str) | Unknown (l : list str).

(** [dict.fromkeys(l)], and the loop with [seen]. *)
Fixpoint dedupe (seen l : list str) : list str :=
  match l with
  | [] => []
  | s :: l' => if bool_decide (s ∈ seen) then dedupe seen l' else s :: dedupe (s :: seen) l'
  end.

Definition validate_scopes (scopes : list str) : result scope_error (list str) :=
  let retired := List.filter (λ s, bool_decide (s ∈ RETIRED_SCOPES)) scopes in
  _ ← raise_if (negb (bool_decide (retired = []))) (Retired (dedupe [] retired));
  let invalid := List.filter (λ s, negb (bool_decide (s ∈ TOKEN_SCOPE_VOCABULARY))) scopes in
  _ ← raise_if (negb (bool_decide (invalid = []))) (Unknown invalid);
  Ok (dedupe [] scopes).

Definition TOKEN_GRANT_RESOURCE_TYPES : list str := ["subnet"; "dns_zone"].
Definition TOKEN_GRANT_ACTIONS : list str := ["read"; "write"; "delete"; "admin"; "*"].

Inductive grant_error := NotAnObject | BadAction (v : pyval) | BadType (v : pyval) | NoResource.

Definition val_in (v : pyval) (l : list str) : bool := match v with VStr s => bool_decide (s ∈ l) | _ => false end.
(** [not rid or not str(rid).strip()]; the dict's values are strings, [None]
    or some other true value. *)
Definition blank (v : pyval) : bool :=
  match v with VNone => true | _ => bool_decide (strip is_space (py_str v) = []) end.

Definition validate_grant (e : entry) : result grant_error entry :=
  match e with
  | EDict g =>
      _ ← raise_if (negb (val_in (g_action g) TOKEN_GRANT_ACTIONS)) (BadAction (g_action g));
      _ ← raise_if (negb (val_in (g_type g) TOKEN_GRANT_RESOURCE_TYPES)) (BadType (g_type g));
      _ ← raise_if (blank (g_rid g)) NoResource;
      Ok (EDict (Grant (g_action g) (g_type g) (VStr (py_str (g_rid g)))))
  | _ => Err NotAnObject
  end.

Definition validate_resource_grant_shape (grants : list entry) : result grant_error (list entry) :=
  map_result validate_grant grants.

(** ** Lemmas *)
Lemma path_under_iff path l : _path_under path l = true ↔ ∃ p, p ∈ l ∧ (path = p ∨ ∃ t, path = p ++ "/" ++ t).
Proof.
  unfold _path_under. rewrite existsb_elem. split; intros (p & Hp & H); exists p; (split; [done|]).
  - apply orb_true_iff in H as [H|H]; [left; by apply bool_decide_eq_true in H|right].
    unfold startswith in H. apply bool_decide_eq_true in H. exists (drop (length (p ++ "/")) path).
    rewrite app_assoc, <- H at 1. rewrite take_drop. done.
  - destruct H as [->|[t ->]]; apply orb_true_iff; [left; by apply bool_decide_eq_true|right].
    unfold startswith. apply bool_decide_eq_true. by rewrite app_assoc, take_app_length.
Qed.

(** The segments of a path under [p] begin with those of [p]. *)
Lemma under_segments path p : path = p ∨ (∃ t, path = p ++ "/" ++ t) → ∃ ss, split "/" path = split "/" p ++ ss.
Proof.
  intros [->|[t ->]]; [exists []; by rewrite app_nil_r|]. exists (split "/" t). apply split_app_sep.
Qed.

(** No rule of the module is about an agent route. *)
Lemma agent_path_rules path : _path_under path _AGENT_PREFIXES = true →
  (∀ scope method, _route_rule_matches scope method path = false)
  ∧ (∀ method, _apply_time_route method path = false)
  ∧ _path_under path _IPAM_PREFIXES = false ∧ _path_under path _MCP_PREFIXES = false.
Proof.
  rewrite path_under_iff. intros (p & Hp & Hu). pose proof (under_segments _ _ Hu) as [ss Hss].
  assert (Hd : domains_route path = false).
  { unfold domains_route. assert (startswith "/api/v1/domains/" path = false ∧ path ≠ "/api/v1/domains") as [-> Hne].
    { repeat (apply elem_of_cons in Hp as [->|Hp]; [by destruct Hu as [->|[t ->]]|]). by apply not_elem_of_nil in Hp. }
    by rewrite bool_decide_false. }
  assert (Hs : ∃ a, split "/" path = "" :: "api" :: "v1" :: a :: "agents" :: ss ∧ a ∈ ["dns" : str; "dhcp" : str]).
  { repeat (apply elem_of_cons in Hp as [->|Hp]; [eexists; split; [rewrite Hss; reflexivity|]; apply (bool_decide_unpack _); vm_compute; exact I|]).
    by apply not_elem_of_nil in Hp. }
  destruct Hs as (a & Hsp & Ha).
  assert (Hapi : ∀ b ps, b ≠ "dns" → b ≠ "dhcp" → api (Lit b :: ps) path = false).
  { intros b ps H1 H2. unfold api. rewrite Hsp. simpl. rewrite bool_decide_false; [done|]. intros ->.
    repeat (apply elem_of_cons in Ha as [->|Ha]; [done|]). by apply not_elem_of_nil in Ha. }
  assert (Hpre : ∀ l, forallb (λ p, match split "/" p with _ :: _ :: _ :: b :: _ => negb (bool_decide (b ∈ ["dns" : str; "dhcp" : str])) | _ => false end) l = true →
    _path_under path l = false).
  { intros l Hl. destruct (_path_under path l) eqn:E; [|done]. exfalso. apply path_under_iff in E as (q & Hq & Hqu).
    apply under_segments in Hqu as [ss' Hss']. rewrite Hsp in Hss'. pose proof (forallb_elem _ _ _ Hl Hq) as Hb. cbv beta in Hb.
    destruct (split "/" q) as [|? [|? [|? [|b ?]]]]; try done. injection Hss' as _ _ _ -> _.
    by apply negb_true_iff, bool_decide_eq_false in Hb. }
  split_and!.
  - intros scope method. unfold _route_rule_matches, _ROUTE_RULES. simpl. rewrite Hd, !Hapi by done. by rewrite !andb_false_r.
  - intros method. unfold _apply_time_route, _APPLY_TIME_ROUTES. simpl. rewrite !Hapi by done. by rewrite !andb_false_r.
  - apply Hpre. vm_compute. reflexivity.
  - apply Hpre. vm_compute. reflexivity.
Qed.

Lemma scope_gate_iff scopes method path ro ob : scope_matches_request scopes method path ro ob = true ↔
  scopes = [] ∨ ∃ s, s ∈ scopes ∧ scope_admits (upper method) path (bool_decide (upper method ∈ _SAFE_METHODS))
    (ro && bool_decide (upper method = "POST")) ob s = true.
Proof.
  unfold scope_matches_request. case_bool_decide as E; [naive_solver|]. rewrite existsb_elem. naive_solver.
Qed.

Lemma dedupe_spec seen l : NoDup (dedupe seen l) ∧ ∀ s, s ∈ dedupe seen l ↔ s ∈ l ∧ s ∉ seen.
Proof.
  revert seen. induction l as [|x l IH]; intros seen; simpl; [split; [constructor|set_solver]|].
  destruct (IH seen) as [I1 I2], (IH (x :: seen)) as [J1 J2]. case_bool_decide as E.
  - split; [done|]. intros s. rewrite I2. set_solver.
  - split.
    + constructor; [|done]. rewrite J2. set_solver.
    + intros s. rewrite elem_of_cons, J2. destruct (decide (s = x)) as [->|]; set_solver.
Qed.

(** ** Theorems *)

(** *** What each scope is for, read off the documentation *)
Definition below (path prefix : str) : Prop := path = prefix ∨ ∃ t, path = prefix ++ "/" ++ t.
Definition segments (path : str) (ss : list str) : Prop := split "/" path = ["" : str; "api" : str; "v1" : str] ++ ss.
Definition is_write_scope (s : str) : Prop := s = "ipam:write" ∨ s = "dns:write" ∨ s = "dhcp:write".
Definition agent_route (path : str) : Prop := below path "/api/v1/dns/agents" ∨ below path "/api/v1/dhcp/agents".

(** The trees of the API a write scope opens, all of whose routes are its own. *)
Definition families : list (str * list str) :=
  [("ipam:write", ["/api/v1/ipam"; "/api/v1/vlans"; "/api/v1/vrfs"; "/api/v1/network-devices"; "/api/v1/address-sets";
                   "/api/v1/multicast"; "/api/v1/av/flows"; "/api/v1/av/reserved-ranges"; "/api/v1/custom-fields"] : list str);
   ("dns:write", ["/api/v1/dns"] : list str);
   ("dhcp:write", ["/api/v1/dhcp"] : list str)].

(** [may_write s m p]: holding [s] lets a token call [m p] whatever the method
    does: the trees of the scope but for the agents' routes, the single routes
    mounted elsewhere, and, for any write scope, asking for a change and
    deciding on one. *)
Inductive may_write : str → str → str → Prop :=
| mw_family s m p trees tree : (s, trees) ∈ families → tree ∈ trees → below p tree → ¬ agent_route p → may_write s m p
| mw_stamp p id : segments p ["nmap"; "scans"; id; "stamp-discovered"] → id ≠ [] → may_write "ipam:write" "POST" p
| mw_acme_register p : segments p ["acme"; "register"] → may_write "dns:write" "POST" p
| mw_acme_delete p id : segments p ["acme"; "accounts"; id] → id ≠ [] → may_write "dns:write" "DELETE" p
| mw_domains m : may_write "dns:write" m "/api/v1/domains"
| mw_domain m t : ascii_of_nat 10 ∉ t →
    ¬ (∃ id, id ≠ [] ∧ segments ("/api/v1/domains/" ++ t) ["domains"; id; "refresh-whois"]) →
    may_write "dns:write" m ("/api/v1/domains/" ++ t)
| mw_block p : segments p ["new-devices"; "block"] → may_write "dhcp:write" "POST" p
| mw_request s p : is_write_scope s → segments p ["requests"] → may_write s "POST" p
| mw_decide s p root id verb : is_write_scope s → root = "requests" ∨ root = "change-requests" →
    verb = "approve" ∨ verb = "reject" ∨ verb = "cancel" → id ≠ [] → segments p [root; id; verb] → may_write s "POST" p
| mw_proposal s p id : is_write_scope s → id ≠ [] → segments p ["ai"; "proposals"; id; "apply"] → may_write s "POST" p.

(** What [read] is for: safe methods, marked POSTs and the MCP endpoint, of
    routes that send no traffic out. *)
Definition may_read (m path : str) (ro ob : bool) : Prop :=
  ob = false ∧ (m = "GET" ∨ m = "HEAD" ∨ m = "OPTIONS" ∨ (ro = true ∧ m = "POST") ∨ below path "/api/v1/ai/mcp").

Lemma below_iff path l : _path_under path l = true ↔ ∃ p, p ∈ l ∧ below path p.
Proof. apply path_under_iff. Qed.

Lemma below_one path p : _path_under path [p] = true ↔ below path p.
Proof. rewrite below_iff. split; [by intros (q & ->%list_elem_of_singleton & H)|]. intros H. exists p. split; [by left|done]. Qed.

Lemma agent_iff path : _path_under path _AGENT_PREFIXES = true ↔ agent_route path.
Proof.
  rewrite below_iff. unfold agent_route, _AGENT_PREFIXES. split.
  - intros (q & Hq & H). repeat (apply elem_of_cons in Hq as [->|Hq]; [auto|]). by apply not_elem_of_nil in Hq.
  - intros [H|H]; eexists; (split; [|exact H]); [by left|right; by left].
Qed.

Lemma api_segments ps path : api ps path = true ↔ ∃ ss, segments path ss ∧ segs_match ps ss = true.
Proof.
  unfold api, segments. split.
  - simpl. intros H. destruct (split "/" path) as [|a [|b [|c ss]]]; simpl in H; rewrite ?andb_false_r in H; try done.
    rewrite !andb_true_iff, !bool_decide_eq_true in H. destruct H as (-> & -> & -> & H). by exists ss.
  - intros (ss & -> & H). exact H.
Qed.

(** A pattern spelt out on a path of its length. *)
Lemma seg_lit a s : seg_matches (Lit a) s = true ↔ s = a.
Proof. apply bool_decide_eq_true. Qed.
Lemma seg_any s : seg_matches AnySeg s = true ↔ s ≠ [].
Proof. simpl. rewrite negb_true_iff. apply bool_decide_eq_false. Qed.
Lemma seg_oneof l s : seg_matches (OneOf l) s = true ↔ s ∈ l.
Proof. apply bool_decide_eq_true. Qed.

Lemma match_nil ss : segs_match [] ss = true ↔ ss = [].
Proof. by destruct ss. Qed.

Lemma match_cons p ps ss : segs_match (p :: ps) ss = true ↔
  ∃ s ss', ss = s :: ss' ∧ seg_matches p s = true ∧ segs_match ps ss' = true.
Proof. destruct ss as [|s ss]; simpl; rewrite ?andb_true_iff; naive_solver. Qed.

Ltac api_pattern := rewrite api_segments; repeat setoid_rewrite match_cons; repeat setoid_rewrite match_nil;
  repeat setoid_rewrite seg_lit; repeat setoid_rewrite seg_any; repeat setoid_rewrite seg_oneof; naive_solver.

Lemma api_lit1 a path : api [Lit a] path = true ↔ segments path [a].
Proof. api_pattern. Qed.
Lemma api_lit2 a b path : api [Lit a; Lit b] path = true ↔ segments path [a; b].
Proof. api_pattern. Qed.
Lemma api_any a path : api [Lit a; AnySeg] path = true ↔ ∃ x, x ≠ [] ∧ segments path [a; x].
Proof. api_pattern. Qed.
Lemma api_lit_any a b path : api [Lit a; Lit b; AnySeg] path = true ↔ ∃ x, x ≠ [] ∧ segments path [a; b; x].
Proof. api_pattern. Qed.
Lemma api_any_lit a b path : api [Lit a; AnySeg; Lit b] path = true ↔ ∃ x, x ≠ [] ∧ segments path [a; x; b].
Proof. api_pattern. Qed.
Lemma api_lit_any_lit a b c path : api [Lit a; Lit b; AnySeg; Lit c] path = true ↔ ∃ x, x ≠ [] ∧ segments path [a; b; x; c].
Proof. api_pattern. Qed.
Lemma api_any_oneof a l path : api [Lit a; AnySeg; OneOf l] path = true ↔ ∃ x v, x ≠ [] ∧ v ∈ l ∧ segments path [a; x; v].
Proof. api_pattern. Qed.

Lemma domains_iff path : domains_route path = true ↔ path = "/api/v1/domains" ∨ ∃ t, path = "/api/v1/domains/" ++ t
  ∧ ascii_of_nat 10 ∉ t ∧ ¬ (∃ id, id ≠ [] ∧ segments path ["domains"; id; "refresh-whois"]).
Proof.
  unfold domains_route. case_bool_decide as E; [split; [by left|done]|].
  rewrite !andb_true_iff, !negb_true_iff, contains_false, <- not_true_iff_false, api_any_lit. unfold startswith.
  rewrite bool_decide_eq_true. split.
  - intros [[Hs Hn] Hr]. right. exists (drop (length ("/api/v1/domains/" : str)) path). split_and!; [|done|done].
    rewrite <- Hs at 1. by rewrite take_drop.
  - intros [?|(t & -> & Hn & Hr)]; [done|]. by rewrite take_app_length, drop_app_length.
Qed.

Lemma route_rule_iff s m p : _route_rule_matches s m p = true ↔
  (s = "ipam:write" ∧ m = "POST" ∧ ∃ id, id ≠ [] ∧ segments p ["nmap"; "scans"; id; "stamp-discovered"])
  ∨ (s = "dns:write" ∧ (m = "POST" ∧ segments p ["acme"; "register"] ∨ m = "DELETE" ∧ (∃ id, id ≠ [] ∧ segments p ["acme"; "accounts"; id])
                       ∨ domains_route p = true))
  ∨ (s = "dhcp:write" ∧ m = "POST" ∧ segments p ["new-devices"; "block"]).
Proof.
  unfold _route_rule_matches, _ROUTE_RULES. cbn [existsb].
  rewrite !orb_true_iff, !andb_true_iff, !orb_true_iff, !bool_decide_eq_true, api_lit_any_lit, api_lit_any, !api_lit2. naive_solver.
Qed.

Lemma apply_time_iff m p : _apply_time_route m p = true ↔ m = "POST" ∧
  (segments p ["requests"]
   ∨ (∃ root id verb, (root = "requests" ∨ root = "change-requests") ∧ id ≠ []
        ∧ (verb = "approve" ∨ verb = "reject" ∨ verb = "cancel") ∧ segments p [root; id; verb])
   ∨ ∃ id, id ≠ [] ∧ segments p ["ai"; "proposals"; id; "apply"]).
Proof.
  assert (Hv : ∀ v : str, v ∈ ["approve" : str; "reject" : str; "cancel" : str] ↔ v = "approve" ∨ v = "reject" ∨ v = "cancel").
  { intros v. rewrite !elem_of_cons, elem_of_nil. tauto. }
  unfold _apply_time_route, _APPLY_TIME_ROUTES. cbn [existsb].
  rewrite !orb_true_iff, !andb_true_iff, !bool_decide_eq_true, api_lit1, !api_any_oneof, api_lit_any_lit.
  split.
  - intros [[<- H]|[[<- (x & v & Hx & Hv' & H)]|[[<- (x & v & Hx & Hv' & H)]|[[<- H]|?]]]]; [..|done]; split; try done;
      [by left|right; left; exists "requests", x, v|right; left; exists "change-requests", x, v|by right; right];
      rewrite <- Hv; split_and!; auto.
  - intros [-> [H|[(root & x & v & [-> | ->] & Hx & Hv' & H)|H]]]; rewrite <- ?Hv in *;
      [by left|right; left|right; right; left|by right; right; right; left]; (split; [done|]); eauto.
Qed.

Lemma families_iff s p : (∃ trees tree, (s, trees) ∈ families ∧ tree ∈ trees ∧ below p tree) ↔
  (s = "ipam:write" ∧ _path_under p _IPAM_PREFIXES = true) ∨ (s = "dns:write" ∧ _path_under p _DNS_PREFIXES = true)
  ∨ (s = "dhcp:write" ∧ _path_under p _DHCP_PREFIXES = true).
Proof.
  rewrite !below_iff. split.
  - intros (trees & tree & Hs & Ht & Hb). unfold families in Hs.
    repeat (apply elem_of_cons in Hs as [[= -> ->]|Hs]; [naive_solver|]). by apply not_elem_of_nil in Hs.
  - intros [(-> & q & Hq & H)|[(-> & q & Hq & H)|(-> & q & Hq & H)]]; eexists _, q; (split; [|split; [exact Hq|exact H]]);
      unfold families; rewrite !elem_of_cons; naive_solver.
Qed.

Lemma may_write_iff s m p : may_write s m p ↔
  ((∃ trees tree, (s, trees) ∈ families ∧ tree ∈ trees ∧ below p tree) ∧ ¬ agent_route p)
  ∨ _route_rule_matches s m p = true ∨ is_write_scope s ∧ _apply_time_route m p = true.
Proof.
  rewrite route_rule_iff, apply_time_iff, domains_iff. split.
  - intros H. destruct H; subst; try (by left; split; [eauto|]); right; try (by left; eauto 10); try (by right; eauto 12).
  - intros [[(trees & tree & H) Ha]|[H|H]]; [by destruct H as (? & ? & ?); econstructor| |].
    + destruct H as [(-> & -> & id & ? & ?)|[(-> & H)|(-> & -> & H)]]; [by eapply mw_stamp| |by apply mw_block].
      destruct H as [[-> H]|[(-> & id & ? & ?)|[->|(t & -> & H1 & H2)]]];
        [by apply mw_acme_register|by eapply mw_acme_delete|apply mw_domains|by apply mw_domain].
    + destruct H as (Hw & -> & [H|[(root & id & verb & Hr & Hi & Hv & H)|(id & Hi & H)]]);
        [by apply mw_request|by eapply mw_decide|by eapply mw_proposal].
Qed.

Lemma write_scope_iff s : s ∈ WRITE_SCOPES ↔ is_write_scope s.
Proof. unfold WRITE_SCOPES, is_write_scope. rewrite !elem_of_cons, elem_of_nil. tauto. Qed.

Lemma may_write_scope s m p : may_write s m p → is_write_scope s.
Proof.
  unfold is_write_scope. intros []; auto. unfold families in *.
  repeat match goal with H : _ ∈ _ :: _ |- _ => apply elem_of_cons in H as [H|H]; [injection H; auto|] end. by apply not_elem_of_nil in H.
Qed.

(** The right-hand side with the lists and patterns of the code. *)
Lemma may_write_code s m p : may_write s m p ↔
  ((s = "ipam:write" ∧ _path_under p _IPAM_PREFIXES = true) ∨ (s = "dns:write" ∧ _path_under p _DNS_PREFIXES = true)
   ∨ (s = "dhcp:write" ∧ _path_under p _DHCP_PREFIXES = true)) ∧ _path_under p _AGENT_PREFIXES = false
  ∨ _route_rule_matches s m p = true ∨ is_write_scope s ∧ _apply_time_route m p = true.
Proof. by rewrite may_write_iff, families_iff, <- agent_iff, not_true_iff_false. Qed.

Lemma scope_admits_iff m p safe ropost ob s : scope_admits m p safe ropost ob s = true ↔
  (s = "read" ∧ ob = false ∧ (safe = true ∨ ropost = true ∨ below p "/api/v1/ai/mcp")) ∨ may_write s m p.
Proof.
  rewrite <- below_one. change ["/api/v1/ai/mcp" : str] with _MCP_PREFIXES. unfold scope_admits.
  destruct (decide (s = "read")) as [->|Er].
  - rewrite (bool_decide_true ("read" = "read")) by done.
    replace (bool_decide ("read" ∈ WRITE_SCOPES)) with false by (vm_compute; reflexivity).
    rewrite !(bool_decide_false ("read" = _)) by done. cbn [andb].
    assert (Hn : ¬ may_write "read" m p) by (intros H%may_write_scope; unfold is_write_scope in H; naive_solver).
    destruct ob, safe, ropost, (_path_under p _MCP_PREFIXES); simpl; naive_solver.
  - rewrite (bool_decide_false _ Er), may_write_code. cbn [andb].
    assert (Hi : _path_under p _IPAM_PREFIXES = true → _path_under p _AGENT_PREFIXES = false).
    { intros Hi. apply not_true_is_false. intros Ha. apply agent_path_rules in Ha as (_ & _ & Ha & _). congruence. }
    destruct (decide (is_write_scope s)) as [Hw|Hw].
    + rewrite (bool_decide_true (s ∈ WRITE_SCOPES)) by (by apply write_scope_iff). cbn [andb].
      destruct (_route_rule_matches s m p) eqn:E1; [naive_solver|]. destruct (_apply_time_route m p) eqn:E2; [naive_solver|].
      destruct Hw as [->|[->| ->]].
      * rewrite (bool_decide_true ("ipam:write" = "ipam:write")), !(bool_decide_false ("ipam:write" = _)) by done. cbn [andb].
        destruct (_path_under p _IPAM_PREFIXES); naive_solver.
      * rewrite (bool_decide_true ("dns:write" = "dns:write")), !(bool_decide_false ("dns:write" = _)) by done. cbn [andb].
        destruct (_path_under p _DNS_PREFIXES), (_path_under p _AGENT_PREFIXES); simpl; naive_solver.
      * rewrite (bool_decide_true ("dhcp:write" = "dhcp:write")), !(bool_decide_false ("dhcp:write" = _)) by done. cbn [andb].
        destruct (_path_under p _DHCP_PREFIXES), (_path_under p _AGENT_PREFIXES); simpl; naive_solver.
    + rewrite (bool_decide_false (s ∈ WRITE_SCOPES)) by (by rewrite write_scope_iff). cbn [andb].
      assert (s ≠ "ipam:write" ∧ s ≠ "dns:write" ∧ s ≠ "dhcp:write") as (N1 & N2 & N3) by (unfold is_write_scope in Hw; tauto).
      rewrite (bool_decide_false _ N1), (bool_decide_false _ N2), (bool_decide_false _ N3). cbn [andb].
      rewrite route_rule_iff. naive_solver.
Qed.

(** *** The trees of two scopes are apart *)
Definition top (path : str) : str := nth 3 (split "/" path) [].
Definition owner (path : str) : option str :=
  fst <$> List.find (λ '(_, trees), existsb (λ t, bool_decide (top t = top path)) trees) families.

Lemma below_top path tree : (3 < length (split "/" tree))%nat → below path tree → top path = top tree.
Proof. intros Hl [ss Hs]%under_segments. unfold top. rewrite Hs. by rewrite app_nth1. Qed.

Lemma family_owner s trees tree path : (s, trees) ∈ families → tree ∈ trees → below path tree → owner path = Some s.
Proof.
  intros Hs Ht Hb.
  assert (Hc : forallb (λ '(s, trees), forallb (λ t, bool_decide (3 < length (split "/" t))%nat && bool_decide (owner t = Some s)) trees)
    families = true) by (vm_compute; reflexivity).
  pose proof (forallb_elem _ _ _ Hc Hs) as H. cbv beta iota in H. pose proof (forallb_elem _ _ _ H Ht) as H'. cbv beta in H'.
  apply andb_true_iff in H' as [Hl Ho]. apply bool_decide_eq_true in Hl, Ho. rewrite <- Ho. unfold owner.
  by rewrite (below_top _ _ Hl Hb).
Qed.

Lemma segments_owner path a ss : segments path (a :: ss) → top path = a.
Proof. unfold segments, top. by intros ->. Qed.

Lemma may_write_owner s m p : may_write s m p → owner p = Some s ∨ owner p = None.
Proof.
  assert (Hnone : ∀ a, top p = a →
    existsb (λ '(_, trees), existsb (λ t, bool_decide (top t = a)) trees) families = false → owner p = None).
  { unfold owner. intros a ->. generalize families. intros l. induction l as [|[s' trees] l IH]; simpl; [done|].
    intros [-> H]%orb_false_iff. by apply IH. }
  intros H. destruct H as [s m p trees tree Hs Ht Hb _|p id H _|p H|p id H _|m|m t _ _|p H|s p _ H|s p root id verb _ Hr _ _ H|s p id _ _ H];
    [left; by eapply family_owner|right..];
    try (by eapply Hnone; [by eapply segments_owner|vm_compute; reflexivity]).
  destruct Hr as [-> | ->]; (eapply Hnone; [by eapply segments_owner|vm_compute; reflexivity]).
Qed.

Lemma may_write_family s s' m p trees tree : may_write s m p → (s', trees) ∈ families → tree ∈ trees → below p tree → s = s'.
Proof.
  intros Hw Hs Ht Hb. pose proof (family_owner _ _ _ _ Hs Ht Hb) as Ho. apply may_write_owner in Hw as [E|E]; congruence.
Qed.

Lemma agent_no_write s m p : agent_route p → ¬ may_write s m p.
Proof.
  rewrite <- agent_iff. intros Ha Hw. pose proof (agent_path_rules p Ha) as (R1 & R2 & _). apply may_write_code in Hw.
  rewrite R1, R2, Ha in Hw. naive_solver.
Qed.

(** C10 -- what a token with a non-empty list of scopes may request.  The gate
    admits a request exactly when the token holds [read] and the route is a
    safe method, a marked POST or the MCP endpoint and sends no traffic out, or
    one of its scopes is a write scope whose documented surface has the request:
    the scope's own trees of the API, the single routes mounted elsewhere, and
    asking for or deciding on a change.  So a request into the tree of one write
    scope needs that very scope, unless [read] covers it; no write scope reaches
    the agents' own routes; and more scopes never allow less. *)
Theorem scoped_token_confined (scopes : list str) (method path : str) (ro ob : bool) : scopes ≠ [] →
  let m := upper method in
  let admitted l := scope_matches_request l method path ro ob = true in
  let reads := "read" ∈ scopes ∧ may_read m path ro ob in
  (admitted scopes ↔ reads ∨ ∃ s, s ∈ scopes ∧ may_write s m path)
  ∧ (∀ s trees tree, (s, trees) ∈ families → tree ∈ trees → below path tree → admitted scopes → reads ∨ s ∈ scopes)
  ∧ (agent_route path → admitted scopes → reads)
  ∧ ∀ more, admitted scopes → admitted (scopes ++ more).
Proof.
  intros Hne m admitted reads.
  assert (Hiff : admitted scopes ↔ reads ∨ ∃ s, s ∈ scopes ∧ may_write s m path).
  { unfold admitted, reads, may_read. rewrite scope_gate_iff. setoid_rewrite scope_admits_iff. fold m.
    setoid_rewrite andb_true_iff. repeat setoid_rewrite bool_decide_eq_true. unfold _SAFE_METHODS. repeat setoid_rewrite elem_of_cons. setoid_rewrite elem_of_nil. split.
    - intros [?|(s & Hs & [(-> & H)|H])]; [done|left; tauto|right; by exists s].
    - intros [H|(s & Hs & H)]; right; [exists "read"; tauto|exists s; tauto]. }
  split_and!; [done| | |].
  - intros s trees tree Hs Ht Hb [H|(s' & Hs' & H)]%Hiff; [by left|right].
    by rewrite <- (may_write_family _ _ _ _ _ _ H Hs Ht Hb).
  - intros Ha [H|(s & _ & H)]%Hiff; [done|]. by apply (agent_no_write s m path) in Ha.
  - intros more H. apply scope_gate_iff. apply scope_gate_iff in H as [|(s & Hs & H)]; [done|].
    right. exists s. split; [apply elem_of_app; by left|done].
Qed.

(** A token for DNS alone: zones, but no subnet. *)
Lemma scoped_token_confined_witness :
  ["dns:write" : str] ≠ [] ∧ below "/api/v1/ipam/subnets" "/api/v1/ipam"
  ∧ scope_matches_request ["dns:write"] "post" "/api/v1/dns/zones" false false = true
  ∧ scope_matches_request ["dns:write"] "post" "/api/v1/ipam/subnets" false false = false
  ∧ ¬ may_write "dns:write" "POST" "/api/v1/ipam/subnets".
Proof.
  assert (Hne : ["dns:write" : str] ≠ []) by done.
  assert (Hb : below "/api/v1/ipam/subnets" "/api/v1/ipam") by (right; exists "subnets"; vm_compute; reflexivity).
  assert (Hno : ¬ scope_matches_request ["dns:write"] "post" "/api/v1/ipam/subnets" false false = true) by (vm_compute; discriminate).
  destruct (scoped_token_confined ["dns:write"] "post" "/api/v1/ipam/subnets" false false Hne) as (Hiff & _).
  split_and!; [done|done|vm_compute; reflexivity|by apply not_true_is_false|].
  intros Hw. apply Hno, Hiff. right. exists "dns:write". split; [by left|exact Hw].
Defined.

(** Issuing: a validated list is the same set of known scopes, each once. *)
Theorem validate_scopes_spec (scopes out : list str) :
  validate_scopes scopes = Ok out ↔ out = dedupe [] scopes ∧ ∀ s, s ∈ scopes → s ∈ TOKEN_SCOPE_VOCABULARY.
Proof.
  assert (Hf : ∀ (p : str → bool), List.filter p scopes = [] ↔ ∀ s, s ∈ scopes → p s = false).
  { intros p. split; [|apply filter_none_elem]. intros E s Hs. destruct (p s) eqn:Ep; [|done].
    assert (s ∈ List.filter p scopes) as Hin by (by apply elem_filter). rewrite E in Hin. by apply not_elem_of_nil in Hin. }
  unfold validate_scopes, raise_if.
  destruct (bool_decide_reflect (List.filter (λ s, bool_decide (s ∈ RETIRED_SCOPES)) scopes = [])) as [Hr|Hr]; simpl.
  - destruct (bool_decide_reflect (List.filter (λ s, negb (bool_decide (s ∈ TOKEN_SCOPE_VOCABULARY))) scopes = [])) as [Hi|Hi]; simpl.
    + rewrite Hf in Hi. split; [intros [= <-]; split; [done|]|by intros [-> _]].
      intros s Hs. specialize (Hi s Hs). apply negb_false_iff, bool_decide_eq_true in Hi. done.
    + split; [done|]. intros [_ H]. exfalso. apply Hi, Hf. intros s Hs. by rewrite bool_decide_true by auto.
  - split; [done|]. intros [_ H]. exfalso. apply Hr, Hf. intros s Hs. specialize (H s Hs). apply bool_decide_eq_false.
    intros Hx. repeat (apply elem_of_cons in H as [->|H]; [revert Hx; apply (bool_decide_unpack _); vm_compute; exact I|]).
    by apply not_elem_of_nil in H.
Qed.

(** A validated resource grant binds an instance and is well formed for the
    RBAC decisions. *)
Theorem validate_grant_wf (e e' : entry) : validate_grant e = Ok e' →
  wf_entry e' ∧ ∃ g r, e' = EDict g ∧ g_rid g = VStr r ∧ strip is_space r ≠ [].
Proof.
  destruct e as [g| |]; simpl; [|done..]. unfold raise_if.
  destruct (val_in (g_action g) _) eqn:Ea; simpl; [|done]. destruct (val_in (g_type g) _) eqn:Et; simpl; [|done].
  destruct (blank (g_rid g)) eqn:Eb; simpl; [done|]. intros [= <-]. split.
  - eexists. split; [reflexivity|]. split_and!; simpl; [|destruct (g_type g); try done; by eexists|right; by eexists].
    destruct (g_action g); try done. by eexists.
  - eexists _, _. split_and!; [reflexivity|reflexivity|]. destruct (g_rid g); simpl in *; try done; by apply bool_decide_eq_false in Eb.
Qed.
End TokenScopes.
