(* ===== verification/Approvals.v ===== *)
(** * Change requests: the two-person spine

    [backend/app/services/approvals/service.py] with the decision endpoints of
    [api/v1/change_requests/router.py] and [api/v1/requests/router.py] and the
    sweep [tasks/change_request_expiry.py], over the row of
    [models/change_request.py].

    A decision holds the request's row lock from its [SELECT ... FOR UPDATE] to
    the next commit or rollback of its session, so what it does in between is
    one function here; what other sessions may do after the lock is released is
    modelled by [step].  What the stored operation answers ([preview], [apply])
    is an argument ([Answers]); the registry of operations is the parameter
    [get_operation].  Instants are microseconds. *)
From S2P Require Import PyStr Json Permissions TokenScopes.
Import Json Permissions TokenScopes.
#[local] Open Scope Z_scope.

Module Approvals.

(** ** Rows *)
Inductive cr_state := Pending | Approved | Rejected | Executed | Failed | Expired | Cancelled.
#[export] Instance cr_state_eq_dec : EqDecision cr_state.
Proof. solve_decision. Defined.

Definition state_text (s : cr_state) : str :=
  match s with
  | Pending => "pending" | Approved => "approved" | Rejected => "rejected" | Executed => "executed"
  | Failed => "failed" | Expired => "expired" | Cancelled => "cancelled"
  end.

Inductive origin := Gate | Portal.
#[export] Instance origin_eq_dec : EqDecision origin.
Proof. solve_decision. Defined.

(** The columns that never change after the INSERT. *)
Record Submission := mkSubmission {
  cr_origin : origin;
  operation : str;
  resource_type : str;
  resource_id : option str;
  resource_display : str;
  args : json;
  risk_reason : str;
  justification : option str;
  requested_by_display : str;
  expires_at : Z;
}.

Record ChangeRequest := mkCR {
  submission : Submission;
  preview_text : str;
  state : cr_state;
  requested_by_user_id : option str;
  decided_by_user_id : option str;
  decided_by_display : option str;
  decision_note : option str;
  result : option json;
  error : option str;
  decided_at : option Z;
  executed_at : option Z;
}.

Record AuditRow := mkAuditRow {
  au_user : option str;
  au_display : str;
  au_action : str;
  au_request : str;
  au_old : option json;
  au_new : option json;
}.

(** A signed-in user: the columns the service reads, and what RBAC knows. *)
Record actor := mkActor { a_id : str; a_display : str; a_user : user }.

(** What [apply()] committed, for whom: a ghost of the database. *)
Record Effect := mkEffect { e_request : str; e_approver : actor; e_requester : str }.

Record World := mkWorld {
  change_request : gmap str ChangeRequest;
  audit_log : list AuditRow;
  effects : list Effect;
}.

Definition put (w : World) (id : str) (cr : ChangeRequest) : World :=
  mkWorld (<[id := cr]> (change_request w)) (audit_log w) (effects w).
Definition add_audit (w : World) (r : AuditRow) : World :=
  mkWorld (change_request w) (audit_log w ++ [r]) (effects w).
Definition add_effect (w : World) (e : Effect) : World :=
  mkWorld (change_request w) (audit_log w) (effects w ++ [e]).

Definition state_item (s : cr_state) : str * json := ("state" : str, JStr (state_text s)).

(** [_audit]; [None] is the system actor of the sweep. *)
Definition _audit (w : World) (user : option actor) (action : str) (id : str) (old_value new_value : option json) : World :=
  add_audit w (mkAuditRow (a_id <$> user) (from_option a_display "system" user) action id old_value new_value).

(** ** Errors *)
Inductive decision_error :=
| NotFound | BadOrigin | TooManyPending (n : nat) | TokenScope | NotPending (s : cr_state) | HasExpired | RequesterGone
| OwnRequest | UnknownOperation | NeedApprove | OperationPermission | NeedSuperadmin | BadArgs
| PreviewPermission | PreviewForbidden (detail : str) | ScopeDrift | ApplyPermission | Vanished
| DecidedMeanwhile (s : cr_state) | NotRequester | NeedRead.

Definition status_code (e : decision_error) : Z :=
  match e with
  | NotFound => 404
  | TooManyPending _ => 429
  | NotPending _ | HasExpired | RequesterGone | ScopeDrift | Vanished | DecidedMeanwhile _ => 409
  | TokenScope | OwnRequest | NeedApprove | OperationPermission | NeedSuperadmin | PreviewPermission
  | PreviewForbidden _ | ApplyPermission | NotRequester | NeedRead => 403
  | BadArgs => 422
  | BadOrigin => 500
  | UnknownOperation => 400
  end.

(** ** Creating a request *)
Definition _MAX_PENDING_PER_USER : nat := 50.

(** The count query, for the requester. *)
Definition pending_count (w : World) (user : actor) : nat :=
  length (List.filter (λ p, bool_decide (requested_by_user_id (snd p) = Some (a_id user)) && bool_decide (state (snd p) = Pending))
            (map_to_list (change_request w))).

(** [pending] is what the count query answered (other sessions may insert
    after it), [id] the primary key; the key of another row is a failed INSERT.
    The origin is a value of its type here, so the [ValueError] cannot occur. *)
Definition create_change_request (w : World) (pending : nat) (user : actor) (sub : Submission) (preview : str) (id : str)
    : Prelude.result decision_error World :=
  _ ← raise_if (_MAX_PENDING_PER_USER <=? pending)%nat (TooManyPending pending);
  match change_request w !! id with
  | Some _ => Err Vanished
  | None =>
      let cr := mkCR sub preview Pending (Some (a_id user)) None None None None None None None in
      Ok (_audit (put w id cr) (Some user) "requested" id None
            (Some (JObj [("operation" : str, JStr (operation sub)); ("resource_type" : str, JStr (resource_type sub));
                         ("resource_id" : str, text_or_null (resource_id sub)); ("risk_reason" : str, JStr (risk_reason sub));
                         ("origin" : str, JStr (match cr_origin sub with Gate => "gate" | Portal => "portal" end));
                         state_item Pending])))
  end.

(** ** Transitions *)
Definition _require_state (cr : ChangeRequest) (expected : cr_state) : Prelude.result cr_state unit :=
  raise_if (negb (bool_decide (state cr = expected))) (state cr).

Definition decide_as (cr : ChangeRequest) (s : cr_state) (user : actor) (note : option str) (now : Z) : ChangeRequest :=
  mkCR (submission cr) (preview_text cr) s (requested_by_user_id cr) (Some (a_id user)) (Some (a_display user)) note
    (result cr) (error cr) (Some now) (executed_at cr).

Definition _stamp_approved (cr : ChangeRequest) (approver : actor) (note : option str) (now : Z)
    : Prelude.result cr_state ChangeRequest :=
  _ ← _require_state cr Pending; Ok (decide_as cr Approved approver note now).

Definition _audit_approved (w : World) (id : str) (approver : actor) (note : option str) : World :=
  _audit w (Some approver) "approved" id (Some (JObj [state_item Pending]))
    (Some (JObj [state_item Approved; ("note" : str, text_or_null note)])).

Definition mark_approved (w : World) (id : str) (cr : ChangeRequest) (approver : actor) (note : option str) (now : Z)
    : Prelude.result cr_state (World * ChangeRequest) :=
  cr' ← _stamp_approved cr approver note now;
  Ok (_audit_approved (put w id cr') id approver note, cr').

Definition mark_decided (s : cr_state) (action : str) (w : World) (id : str) (cr : ChangeRequest) (user : actor)
    (note : option str) (now : Z) : Prelude.result cr_state World :=
  _ ← _require_state cr Pending;
  Ok (_audit (put w id (decide_as cr s user note now)) (Some user) action id (Some (JObj [state_item Pending]))
        (Some (JObj [state_item s; ("note" : str, text_or_null note)]))).
Definition mark_rejected := mark_decided Rejected "rejected".
Definition mark_cancelled := mark_decided Cancelled "cancelled".

Definition from_approved (requester_id : option str) : json :=
  JObj [state_item Approved; ("requested_by" : str, text_or_null requester_id)].

(** The columns [mark_executed] and [mark_failed] write. *)
Definition set_executed (cr : ChangeRequest) (r : json) (now : Z) : ChangeRequest :=
  mkCR (submission cr) (preview_text cr) Executed (requested_by_user_id cr) (decided_by_user_id cr) (decided_by_display cr)
    (decision_note cr) (Some r) (error cr) (decided_at cr) (Some now).
Definition set_failed (cr : ChangeRequest) (e : str) (now : Z) : ChangeRequest :=
  mkCR (submission cr) (preview_text cr) Failed (requested_by_user_id cr) (decided_by_user_id cr) (decided_by_display cr)
    (decision_note cr) (result cr) (Some e) (decided_at cr) (Some now).

Definition mark_executed (w : World) (id : str) (cr : ChangeRequest) (approver : actor) (requester_id : option str)
    (r : json) (now : Z) : Prelude.result cr_state World :=
  _ ← _require_state cr Approved;
  Ok (_audit (put w id (set_executed cr r now)) (Some approver) "executed" id (Some (from_approved requester_id))
        (Some (JObj [state_item Executed; ("result" : str, r)]))).

Definition mark_failed (w : World) (id : str) (cr : ChangeRequest) (approver : actor) (requester_id : option str)
    (e : str) (now : Z) : Prelude.result cr_state World :=
  _ ← _require_state cr Approved;
  Ok (_audit (put w id (set_failed cr e now)) (Some approver) "failed" id (Some (from_approved requester_id))
        (Some (JObj [state_item Failed; ("error" : str, JStr e)]))).

Definition set_expired (cr : ChangeRequest) (now : Z) : ChangeRequest :=
  mkCR (submission cr) (preview_text cr) Expired (requested_by_user_id cr) (decided_by_user_id cr) (decided_by_display cr)
    (decision_note cr) (result cr) (error cr) (Some now) (executed_at cr).

Definition mark_expired (w : World) (id : str) (cr : ChangeRequest) (now : Z) : Prelude.result cr_state World :=
  _ ← _require_state cr Pending;
  Ok (_audit (put w id (set_expired cr now)) None "expired" id (Some (JObj [state_item Pending])) (Some (JObj [state_item Expired]))).

(** ** Authorization *)
Record Operation := mkOperation {
  op_name : str;
  required_permission : option (str * str);
  requires_superadmin : bool;
  scoped_grant_types : list str;
}.

Definition CONTROL_OPERATION_NAMES : list str := ["modify_approval_control"].

Definition enforce_operation_permission (u : user) (op : Operation) : bool :=
  if requires_superadmin op && negb (is_effective_superadmin u) then false
  else match required_permission op with
       | None => true
       | Some (action, rt) =>
           if user_has_permission u action rt None then true
           else existsb (has_any_grant_for u action) (scoped_grant_types op)
       end.

Definition _can_approve (u : user) : bool := user_has_permission u "approve" "change_request" None.

(** [None]: no HTTP request (the copilot's path); a session has no scopes. *)
Definition _enforce_token_scope (request : option (list str)) (op : str) : bool :=
  match request with None => true | Some scopes => enforce_operation_token_scope scopes op end.

Definition needs_superadmin (op : str) : bool := bool_decide (op ∈ CONTROL_OPERATION_NAMES).

(** ** What the operation answers *)
Record PreviewResult := mkPreview {
  p_ok : bool; p_detail : str; p_text : str; p_idempotent : bool; p_forbidden : option str }.
Inductive preview_outcome :=
| PreviewDenied                       (* OperationPermissionError *)
| PreviewRaises (error : str)         (* HTTPException or any other, by its text *)
| PreviewReturns (r : PreviewResult).

Inductive apply_outcome :=
| ApplyDenied
| ApplyRaises (error : str)
| ApplyReturns (r : json).

(** [apply()] commits for itself, or leaves it to the spine. *)
Record Answers := mkAnswers {
  args_valid : bool;
  control_args : bool;          (* the args are [ModifyApprovalControlArgs] *)
  premise_lost : bool;          (* [control_gate_premise_lost] *)
  preview : preview_outcome;
  apply_commits : bool;
  apply : apply_outcome;
}.

(** Successive readings of the clock. *)
Record Clock := mkClock { t_check : Z; t_decide : Z; t_execute : Z }.

(** ** The spine *)

(** How a critical section of an approval ends. *)
Inductive outcome :=
| Refused (e : decision_error) (w : World)
| Done (w : World)
| MustFail (error : str) (w : World)                                  (* rolled back; [_stamp_apply_failed] follows *)
| MustExecute (r : json) (requester_id : option str) (w : World).     (* apply() committed; [mark_executed] follows *)

Definition PREMISE_LOST_RESULT : json :=
  JObj [("idempotent" : str, JBool true);
        ("note" : str, JStr "self-protection lock already off; gated change no longer applies")].
Definition idempotent_result (detail : str) : json :=
  JObj [("idempotent" : str, JBool true); ("note" : str, JStr "already in desired state"); ("detail" : str, JStr detail)].

Definition with_preview (cr : ChangeRequest) (text : str) : ChangeRequest :=
  mkCR (submission cr) text (state cr) (requested_by_user_id cr) (decided_by_user_id cr) (decided_by_display cr)
    (decision_note cr) (result cr) (error cr) (decided_at cr) (executed_at cr).

(** [mark_approved] and [mark_executed] in one commit, nothing applied. *)
Definition resolve_idempotent (w : World) (id : str) (cr : ChangeRequest) (approver : actor) (note : option str)
    (r : json) (clock : Clock) : outcome :=
  match mark_approved w id cr approver note (t_decide clock) with
  | Err s => Refused (NotPending s) w
  | Ok (w1, cr1) =>
      match mark_executed w1 id cr1 approver (requested_by_user_id cr) r (t_execute clock) with
      | Err s => Refused (NotPending s) w
      | Ok w2 => Done w2
      end
  end.

(** Steps 5b and 6: the drift guard, the stamp, [apply()]. *)
Definition dispatch (w : World) (id : str) (cr : ChangeRequest) (approver : actor) (note : option str)
    (text : str) (ans : Answers) (clock : Clock) : outcome :=
  if bool_decide (cr_origin (submission cr) = Gate) && negb (bool_decide (text = preview_text cr)) then Refused ScopeDrift w
  else
    match _stamp_approved (with_preview cr text) approver note (t_decide clock) with
    | Err s => Refused (NotPending s) w
    | Ok cr1 =>
        let requester_id := requested_by_user_id cr in
        let effect := mkEffect id approver (default [] requester_id) in
        let committed := add_effect (_audit_approved (put w id cr1) id approver note) effect in
        let w1 := if apply_commits ans then committed else w in
        match apply ans with
        | ApplyDenied => Refused ApplyPermission w1
        | ApplyRaises e => MustFail e w1
        | ApplyReturns r =>
            if apply_commits ans then MustExecute r requester_id committed
            else match mark_executed committed id cr1 approver requester_id r (t_execute clock) with
                 | Err s => Refused (NotPending s) w
                 | Ok w2 => Done w2
                 end
        end
    end.

(** Steps 5 and 5a. *)
Definition after_preview (w : World) (id : str) (cr : ChangeRequest) (approver : actor) (note : option str)
    (ans : Answers) (clock : Clock) : outcome :=
  match preview ans with
  | PreviewDenied => Refused PreviewPermission w
  | PreviewRaises e => MustFail e w
  | PreviewReturns p =>
      if negb (p_ok p) then
        match p_forbidden p with
        | Some detail => Refused (PreviewForbidden detail) w
        | None => MustFail (if bool_decide (p_detail p = []) then "The operation can no longer be applied." else p_detail p) w
        end
      else if p_idempotent p then
        resolve_idempotent w id (with_preview cr (p_text p)) approver note (idempotent_result (p_detail p)) clock
      else dispatch w id cr approver note (p_text p) ans clock
  end.

Section registry.
Context (get_operation : str → option Operation).

(** Steps 3 to 4b: what the approver must hold. *)
Definition check_approver (approver : actor) (op : str) : Prelude.result decision_error unit :=
  match get_operation op with
  | None => Err UnknownOperation
  | Some o =>
      _ ← raise_if (negb (_can_approve (a_user approver))) NeedApprove;
      _ ← raise_if (negb (enforce_operation_permission (a_user approver) o)) OperationPermission;
      raise_if (needs_superadmin op && negb (is_effective_superadmin (a_user approver))) NeedSuperadmin
  end.

(** [approve_change_request], up to the release of the row lock. *)
Definition approve_begin (w : World) (id : str) (approver : actor) (request : option (list str)) (note : option str)
    (ans : Answers) (clock : Clock) : outcome :=
  match change_request w !! id with
  | None => Refused NotFound w
  | Some cr =>
      let op := operation (submission cr) in
      if negb (_enforce_token_scope request op) then Refused TokenScope w
      else if negb (bool_decide (state cr = Pending)) then Refused (NotPending (state cr)) w
      else if expires_at (submission cr) <=? t_check clock then
        match mark_expired w id cr (t_decide clock) with
        | Err s => Refused (NotPending s) w
        | Ok w' => Refused HasExpired w'
        end
      else if bool_decide (requested_by_user_id cr = None) then Refused RequesterGone w
      else if bool_decide (requested_by_user_id cr = Some (a_id approver)) then Refused OwnRequest w
      else match check_approver approver op with
           | Err e => Refused e w
           | Ok _ =>
               if negb (args_valid ans) then Refused BadArgs w
               else if needs_superadmin op && control_args ans && premise_lost ans
               then resolve_idempotent w id cr approver note PREMISE_LOST_RESULT clock
               else after_preview w id cr approver note ans clock
           end
  end.

(** [_stamp_apply_failed], on the row as it is when the lock is taken again. *)
Definition _stamp_apply_failed (w : World) (id : str) (approver : actor) (note : option str) (e : str) (clock : Clock)
    : Prelude.result decision_error World :=
  match change_request w !! id with
  | None => Err Vanished
  | Some cr =>
      let fail w cr := match mark_failed w id cr approver (requested_by_user_id cr) e (t_execute clock) with
                       | Err s => Err (DecidedMeanwhile s) | Ok w' => Ok w' end in
      if bool_decide (state cr = Pending) then
        match mark_approved w id cr approver note (t_decide clock) with
        | Err s => Err (DecidedMeanwhile s)
        | Ok (w1, cr1) => fail w1 cr1
        end
      else if bool_decide (state cr = Approved) && bool_decide (decided_by_user_id cr = Some (a_id approver))
              && bool_decide (executed_at cr = None)
      then fail w cr
      else Err (DecidedMeanwhile (state cr))
  end.

(** [mark_executed] after [apply()]'s own commit: the session's copy of the row
    is still [approved], so the UPDATE goes out whatever the row is by now. *)
Definition finish_executed (w : World) (id : str) (approver : actor) (requester_id : option str) (r : json) (now : Z) : World :=
  match change_request w !! id with
  | None => w
  | Some cr =>
      _audit (put w id (set_executed cr r now)) (Some approver) "executed" id (Some (from_approved requester_id))
        (Some (JObj [state_item Executed; ("result" : str, r)]))
  end.

(** The whole call when no other session comes in between. *)
Definition approve_change_request (w : World) (id : str) (approver : actor) (request : option (list str))
    (note : option str) (ans : Answers) (clock : Clock) : Prelude.result decision_error unit * World :=
  match approve_begin w id approver request note ans clock with
  | Refused e w' => (Err e, w')
  | Done w' => (Ok tt, w')
  | MustFail e w' =>
      match _stamp_apply_failed w' id approver note e clock with
      | Err d => (Err d, w')
      | Ok w'' => (Ok tt, w'')
      end
  | MustExecute r requester_id w' => (Ok tt, finish_executed w' id approver requester_id r (t_execute clock))
  end.
End registry.

(** ** Reject, cancel, expire *)
Definition reject_change_request (w : World) (id : str) (approver : actor) (request : option (list str))
    (note : option str) (now : Z) : Prelude.result decision_error World :=
  _ ← raise_if (negb (_can_approve (a_user approver))) NeedApprove;
  match change_request w !! id with
  | None => Err NotFound
  | Some cr =>
      _ ← raise_if (negb (_enforce_token_scope request (operation (submission cr)))) TokenScope;
      _ ← raise_if (bool_decide (requested_by_user_id cr = Some (a_id approver))) OwnRequest;
      match mark_rejected w id cr approver note now with Err s => Err (NotPending s) | Ok w' => Ok w' end
  end.

Definition _can_see_all (u : user) : bool := is_effective_superadmin u || _can_approve u.

(** [_assert_gate_row]; [_require_read] and [_load_visible] of the portal. *)
Definition reachable_row (surface : origin) (w : World) (id : str) (u : actor) : Prelude.result decision_error ChangeRequest :=
  match change_request w !! id with
  | None => Err NotFound
  | Some cr =>
      _ ← raise_if (negb (bool_decide (cr_origin (submission cr) = surface))) NotFound;
      _ ← raise_if (match surface with
                    | Gate => false
                    | Portal => negb (_can_see_all (a_user u)) && negb (bool_decide (requested_by_user_id cr = Some (a_id u)))
                    end) NotFound;
      Ok cr
  end.

Definition _require_read (u : user) : bool :=
  is_effective_superadmin u || user_has_permission u "read" "provisioning_request" None || _can_approve u.

(** [cancel_request] of either surface. *)
Definition cancel_request (surface : origin) (w : World) (id : str) (u : actor) (request : list str)
    (note : option str) (now : Z) : Prelude.result decision_error World :=
  _ ← raise_if (bool_decide (surface = Portal) && negb (_require_read (a_user u))) NeedRead;
  cr ← reachable_row surface w id u;
  _ ← raise_if (negb (enforce_operation_token_scope request (operation (submission cr)))) TokenScope;
  let is_requester := bool_decide (requested_by_user_id cr = Some (a_id u)) in
  _ ← raise_if (negb is_requester && negb (is_effective_superadmin (a_user u))) NotRequester;
  match mark_cancelled w id cr u note now with Err s => Err (NotPending s) | Ok w' => Ok w' end.

(** One turn of the sweep's loop, under the row lock: did it expire the row? *)
Definition expire_row (w : World) (id : str) (now : Z) : World * bool :=
  match change_request w !! id with
  | None => (w, false)
  | Some cr =>
      if negb (bool_decide (state cr = Pending)) || (now <? expires_at (submission cr)) then (w, false)
      else match mark_expired w id cr now with Err _ => (w, false) | Ok w' => (w', true) end
  end.

Definition sweep_candidates (w : World) (now : Z) : list str :=
  map fst (List.filter (λ p, bool_decide (state (snd p) = Pending) && (expires_at (submission (snd p)) <=? now))
             (map_to_list (change_request w))).

(** [clock id] is the time when [id] is locked; the counters are checked,
    expired and skipped rows. *)
Definition sweep_row (clock : str → Z) (acc : World * (nat * nat * nat)) (id : str) : World * (nat * nat * nat) :=
  let '(w, (checked, expired, skipped)) := acc in
  let '(w', hit) := expire_row w id (clock id) in
  (w', (S checked, if hit then S expired else expired, if hit then skipped else S skipped)).
Definition _sweep (w : World) (now : Z) (clock : str → Z) : World * (nat * nat * nat) :=
  foldl (sweep_row clock) (w, (0, 0, 0)%nat) (sweep_candidates w now).

(** ** Sessions

    What may be interleaved: every call below up to its commit or rollback;
    an approval whose lock was released goes on in a later step, or never (the
    process died).  The user whose account is deleted is set to NULL on the
    rows that name it. *)
Inductive phase :=
| Failing (id : str) (approver : actor) (note : option str) (e : str)
| Finishing (id : str) (approver : actor) (requester_id : option str) (r : json).

Definition phase_key (p : phase) : str * str :=
  match p with Failing id a _ _ => (id, a_id a) | Finishing id a _ _ => (id, a_id a) end.

Record Config := mkConfig { world : World; sessions : list phase }.

Inductive event :=
| Create (pending : nat) (user : actor) (sub : Submission) (text : str) (id : str)
| Approve (id : str) (approver : actor) (request : option (list str)) (note : option str) (ans : Answers) (clock : Clock)
| Continue (i : nat) (clock : Clock)
| Crash (i : nat)
| Reject (id : str) (approver : actor) (request : option (list str)) (note : option str) (now : Z)
| Cancel (surface : origin) (id : str) (u : actor) (request : list str) (note : option str) (now : Z)
| ExpireRow (id : str) (now : Z)
| DeleteUser (user_id : str).

Definition forget_user (uid : str) (cr : ChangeRequest) : ChangeRequest :=
  let forget o := if bool_decide (o = Some uid) then None else o in
  mkCR (submission cr) (preview_text cr) (state cr) (forget (requested_by_user_id cr)) (forget (decided_by_user_id cr))
    (decided_by_display cr) (decision_note cr) (result cr) (error cr) (decided_at cr) (executed_at cr).

Definition delete_user (w : World) (uid : str) : World :=
  mkWorld (forget_user uid <$> change_request w) (audit_log w) (effects w).

Definition or_world (w : World) (r : Prelude.result decision_error World) : World :=
  match r with Ok w' => w' | Err _ => w end.

Section system.
Context (get_operation : str → option Operation).

Definition begin_phase (o : outcome) (id : str) (approver : actor) (note : option str) : World * list phase :=
  match o with
  | Refused _ w => (w, [])
  | Done w => (w, [])
  | MustFail e w => (w, [Failing id approver note e])
  | MustExecute r requester w => (w, [Finishing id approver requester r])
  end.

Definition continue_phase (w : World) (p : phase) (clock : Clock) : World :=
  match p with
  | Failing id a note e => or_world w (_stamp_apply_failed w id a note e clock)
  | Finishing id a requester r => finish_executed w id a requester r (t_execute clock)
  end.

Definition step (c : Config) (ev : event) : Config :=
  let w := world c in
  match ev with
  | Create pending user sub text id => mkConfig (or_world w (create_change_request w pending user sub text id)) (sessions c)
  | Approve id a request note ans clock =>
      let '(w', ps) := begin_phase (approve_begin get_operation w id a request note ans clock) id a note in
      mkConfig w' (sessions c ++ ps)
  | Continue i clock =>
      match sessions c !! i with
      | Some p => mkConfig (continue_phase w p clock) (delete i (sessions c))
      | None => c
      end
  | Crash i => mkConfig w (delete i (sessions c))
  | Reject id a request note now => mkConfig (or_world w (reject_change_request w id a request note now)) (sessions c)
  | Cancel surface id u request note now => mkConfig (or_world w (cancel_request surface w id u request note now)) (sessions c)
  | ExpireRow id now => mkConfig (fst (expire_row w id now)) (sessions c)
  | DeleteUser uid => mkConfig (delete_user w uid) (sessions c)
  end.

Definition init : Config := mkConfig (mkWorld ∅ [] []) [].
Definition run (evs : list event) : Config := foldl step init evs.
End system.

(** ** How the rows of a world evolve *)
Definition decided (s : cr_state) : Prop := s = Approved ∨ s = Executed ∨ s = Failed.

Definition row_evolves (cr cr' : ChangeRequest) : Prop :=
  submission cr' = submission cr
  ∧ (requested_by_user_id cr' = requested_by_user_id cr ∨ requested_by_user_id cr' = None)
  ∧ (decided (state cr) → decided (state cr')).

Record evolves (w w' : World) : Prop := {
  ev_rows id cr : change_request w !! id = Some cr → ∃ cr', change_request w' !! id = Some cr' ∧ row_evolves cr cr';
  ev_dom id : is_Some (change_request w' !! id) → is_Some (change_request w !! id);
  ev_log : ∃ new, audit_log w' = audit_log w ++ new ∧ ∀ r, r ∈ new → is_Some (change_request w !! au_request r);
}.

Lemma row_evolves_refl cr : row_evolves cr cr.
Proof. split_and!; [done|by left|done]. Qed.

#[export] Instance evolves_refl : Reflexive evolves.
Proof.
  intros w. constructor; [intros id cr H; exists cr; split; [done|apply row_evolves_refl]|done|].
  exists []. rewrite app_nil_r. split; [done|]. by intros r ?%not_elem_of_nil.
Qed.

#[export] Instance evolves_trans : Transitive evolves.
Proof.
  intros w1 w2 w3 [R1 D1 (n1 & L1 & N1)] [R2 D2 (n2 & L2 & N2)]. constructor.
  - intros id cr H. destruct (R1 id cr H) as (cr2 & H2 & S1 & Q1 & P1). destruct (R2 id cr2 H2) as (cr3 & H3 & S2 & Q2 & P2).
    exists cr3. split_and!; [done|]. split_and!; [congruence| |by auto].
    destruct Q2 as [->| ->]; [done|by right].
  - auto.
  - exists (n1 ++ n2). rewrite app_assoc, <- L1. split; [done|]. intros r [Hr|Hr]%elem_of_app; auto.
Qed.

Lemma evolves_put w id cr cr' : change_request w !! id = Some cr → row_evolves cr cr' → evolves w (put w id cr').
Proof.
  intros Hl He. constructor; simpl.
  - intros i x Hx. destruct (decide (i = id)) as [->|Hne].
    + exists cr'. rewrite lookup_insert_eq. split; [done|]. congruence.
    + exists x. rewrite lookup_insert_ne by done. split; [done|apply row_evolves_refl].
  - intros i. destruct (decide (i = id)) as [->|Hne]; [by rewrite Hl|]. by rewrite lookup_insert_ne.
  - exists []. rewrite app_nil_r. split; [done|]. by intros r ?%not_elem_of_nil.
Qed.

Lemma evolves_audit w u act id o n : is_Some (change_request w !! id) → evolves w (_audit w u act id o n).
Proof.
  intros Hi. constructor; simpl.
  - intros i x Hx. exists x. split; [done|apply row_evolves_refl].
  - done.
  - eexists [_]. split; [done|]. by intros r ->%list_elem_of_singleton.
Qed.

Lemma evolves_effect w e : evolves w (add_effect w e).
Proof.
  constructor; simpl; [|done|].
  - intros i x Hx. exists x. split; [done|apply row_evolves_refl].
  - exists []. rewrite app_nil_r. split; [done|]. by intros r ?%not_elem_of_nil.
Qed.

(** The shape of every transition: one row written, one audit row appended. *)
Lemma evolves_mark w id cr cr' u act o n : change_request w !! id = Some cr → row_evolves cr cr' →
  evolves w (_audit (put w id cr') u act id o n).
Proof.
  intros Hl He. transitivity (put w id cr'); [by apply (evolves_put w id cr)|]. apply evolves_audit.
  simpl. by rewrite lookup_insert_eq.
Qed.

(** ** What the log and the effects say *)
Definition first_row (w : World) (id : str) : option AuditRow := List.find (λ r, bool_decide (au_request r = id)) (audit_log w).

Section invariant.
Context (get_operation : str → option Operation).

(** May approve change requests, may run the operation, and is a superadmin
    where the operation governs the approvals themselves. *)
Definition eligible (a : actor) (name : str) : Prop :=
  _can_approve (a_user a) = true
  ∧ ∃ op, get_operation name = Some op ∧ enforce_operation_permission (a_user a) op = true
    ∧ (needs_superadmin name = true → is_effective_superadmin (a_user a) = true).

Lemma check_approver_eligible a op : check_approver get_operation a op = Ok tt → eligible a op.
Proof.
  unfold check_approver, eligible, raise_if. destruct (get_operation op) as [o|]; [|done].
  destruct (_can_approve _); [|done]. destruct (enforce_operation_permission _ _) eqn:Hp; [|done].
  destruct (needs_superadmin _), (is_effective_superadmin _); simpl; intros H; try done; split; eauto.
Qed.

Record effect_ok (w : World) (e : Effect) : Prop := {
  eo_row : ∃ cr, change_request w !! e_request e = Some cr ∧ decided (state cr)
    ∧ eligible (e_approver e) (operation (submission cr));
  eo_requester : ∃ r, first_row w (e_request e) = Some r ∧ au_action r = "requested" ∧ au_user r = Some (e_requester e);
  eo_other : e_requester e ≠ a_id (e_approver e);
  eo_audit : ∃ r, r ∈ audit_log w ∧ au_request r = e_request e ∧ au_action r = "approved" ∧ au_user r = Some (a_id (e_approver e));
}.

Record inv (w : World) : Prop := {
  inv_log r : r ∈ audit_log w → is_Some (change_request w !! au_request r);
  inv_first id cr : change_request w !! id = Some cr →
    ∃ r, first_row w id = Some r ∧ au_action r = "requested"
      ∧ ∀ u, requested_by_user_id cr = Some u → au_user r = Some u;
  inv_effects e : e ∈ effects w → effect_ok w e;
  inv_once : NoDup (map e_request (effects w));
}.

Lemma first_row_evolves w w' id r : evolves w w' → first_row w id = Some r → first_row w' id = Some r.
Proof.
  intros [_ _ (new & E & _)]. unfold first_row. rewrite E. clear E. induction (audit_log w) as [|x l IH]; simpl; [done|].
  by case_bool_decide; [intros ->|].
Qed.

Lemma effect_ok_evolves w w' e : evolves w w' → effect_ok w e → effect_ok w' e.
Proof.
  intros He [(cr & Hl & Hd & Hel) (r & Hr & Hra) Ho (x & Hx & Hxa)]. constructor.
  - destruct (ev_rows _ _ He _ _ Hl) as (cr' & Hl' & Hs & _ & Hd'). exists cr'. rewrite Hs. auto.
  - exists r. split; [by apply (first_row_evolves w)|done].
  - done.
  - exists x. destruct (ev_log _ _ He) as (new & -> & _). split; [apply elem_of_app; by left|done].
Qed.

Lemma inv_evolves w w' : inv w → evolves w w' → effects w' = effects w → inv w'.
Proof.
  intros [L F E O] He Heff. constructor.
  - intros r. destruct (ev_log _ _ He) as (new & -> & Hn). intros [Hr|Hr]%elem_of_app; [apply L in Hr|apply Hn in Hr];
      destruct Hr as [cr Hcr]; destruct (ev_rows _ _ He _ _ Hcr) as (cr' & -> & _); done.
  - intros id cr' Hl'. destruct (ev_dom _ _ He id) as [cr Hl]; [by exists cr'|].
    destruct (ev_rows _ _ He _ _ Hl) as (cr2 & Hl2 & _ & Hq & _). assert (cr2 = cr') as -> by congruence.
    destruct (F id cr Hl) as (r & Hr & Ha & Hu). exists r. split_and!; [by apply (first_row_evolves w)|done|].
    intros u Hu'. apply Hu. destruct Hq as [Hq|Hq]; congruence.
  - intros e. rewrite Heff. intros Hin. by apply (effect_ok_evolves w), E.
  - by rewrite Heff.
Qed.

Lemma inv_effect w w' e cr : inv w → evolves w w' → effects w' = effects w ++ [e] →
  change_request w !! e_request e = Some cr → state cr = Pending → effect_ok w' e → inv w'.
Proof.
  intros Hinv He Heff Hl Hp Hok.
  assert (Hinv' : inv (mkWorld (change_request w') (audit_log w') (effects w))).
  { apply (inv_evolves w); [done| |done]. destruct He as [R D L]. by constructor. }
  destruct Hinv' as [L F E O]. constructor; [done|done| |].
  - intros x. rewrite Heff. intros [Hx|Hx]%elem_of_app; [|by apply list_elem_of_singleton in Hx as ->].
    apply (effect_ok_evolves w); [done|]. by apply Hinv.
  - rewrite Heff, fmap_app. apply NoDup_app. split_and!; [apply Hinv| |apply NoDup_singleton].
    intros id (x & -> & Hx)%list_elem_of_fmap Hid%list_elem_of_singleton.
    destruct (inv_effects _ Hinv x Hx) as [(cr2 & Hl2 & Hd & _) _ _ _]. rewrite Hid in Hl2.
    assert (cr2 = cr) as -> by congruence. rewrite Hp in Hd. unfold decided in Hd. naive_solver.
Qed.
End invariant.

(** ** What one decision does *)
Definition outcome_world (o : outcome) : World :=
  match o with Refused _ w | Done w | MustFail _ w | MustExecute _ _ w => w end.

(** The guards before [apply()], in one proposition. *)
Record cleared (get_operation : str → option Operation) (w : World) (id : str) (a : actor) (request : option (list str))
    (clock : Clock) (cr : ChangeRequest) (u : str) : Prop := {
  cl_row : change_request w !! id = Some cr;
  cl_scope : _enforce_token_scope request (operation (submission cr)) = true;
  cl_pending : state cr = Pending;
  cl_fresh : t_check clock < expires_at (submission cr);
  cl_requester : requested_by_user_id cr = Some u;
  cl_other : u ≠ a_id a;
  cl_eligible : check_approver get_operation a (operation (submission cr)) = Ok tt;
}.

Definition expired_world (w : World) (id : str) (cr : ChangeRequest) (now : Z) : World :=
  _audit (put w id (set_expired cr now)) None "expired" id (Some (JObj [state_item Pending])) (Some (JObj [state_item Expired])).
Definition approved_world (w : World) (id : str) (cr : ChangeRequest) (a : actor) (note : option str) (now : Z) : World :=
  _audit_approved (put w id (decide_as cr Approved a note now)) id a note.
Definition executed_world (w : World) (id : str) (cr : ChangeRequest) (a : actor) (requester : option str) (r : json) (now : Z) : World :=
  _audit (put w id (set_executed cr r now)) (Some a) "executed" id (Some (from_approved requester))
    (Some (JObj [state_item Executed; ("result" : str, r)])).
Definition failed_world (w : World) (id : str) (cr : ChangeRequest) (a : actor) (requester : option str) (e : str) (now : Z) : World :=
  _audit (put w id (set_failed cr e now)) (Some a) "failed" id (Some (from_approved requester))
    (Some (JObj [state_item Failed; ("error" : str, JStr e)])).

(** What [apply()] committed together with the approval. *)
Definition applied_world (w : World) (id : str) (cr : ChangeRequest) (text : str) (a : actor) (note : option str)
    (u : str) (now : Z) : World :=
  add_effect (approved_world w id (with_preview cr text) a note now) (mkEffect id a u).

(** Why a request that passed the guards has nothing to apply: the premise of
    its gate is gone, or the preview says so. *)
Definition nothing_to_apply (cr : ChangeRequest) (ans : Answers) (text : str) (r : json) : Prop :=
  (needs_superadmin (operation (submission cr)) && control_args ans && premise_lost ans = true
    ∧ text = preview_text cr ∧ r = PREMISE_LOST_RESULT)
  ∨ ∃ p, preview ans = PreviewReturns p ∧ p_ok p = true ∧ p_idempotent p = true ∧ text = p_text p ∧ r = idempotent_result (p_detail p).

(** The refusal of the preview that fails a request. *)
Definition preview_refusal (ans : Answers) : option str :=
  match preview ans with
  | PreviewDenied => None
  | PreviewRaises e => Some e
  | PreviewReturns p =>
      if p_ok p then None
      else match p_forbidden p with
           | Some _ => None
           | None => Some (if bool_decide (p_detail p = []) then ("The operation can no longer be applied." : str) else p_detail p)
           end
  end.

(** The preview that lets [apply()] run. *)
Definition goes_ahead (cr : ChangeRequest) (ans : Answers) (text : str) : Prop :=
  ∃ p, preview ans = PreviewReturns p ∧ p_ok p = true ∧ p_idempotent p = false ∧ text = p_text p
    ∧ (cr_origin (submission cr) = Gate → text = preview_text cr).

Section begin.
Context (get_operation : str → option Operation) (w : World) (id : str) (a : actor) (request : option (list str)) (note : option str)
  (ans : Answers) (clock : Clock).

Inductive begin_case : outcome → Prop :=
| BeginRefused e : e ≠ HasExpired → (e = ApplyPermission → apply ans = ApplyDenied ∧ apply_commits ans = false) →
    begin_case (Refused e w)
| BeginExpired cr : change_request w !! id = Some cr → state cr = Pending → expires_at (submission cr) <= t_check clock →
    begin_case (Refused HasExpired (expired_world w id cr (t_decide clock)))
| BeginNothing cr u text r : cleared get_operation w id a request clock cr u → nothing_to_apply cr ans text r →
    begin_case (Done (executed_world (approved_world w id (with_preview cr text) a note (t_decide clock)) id
                        (decide_as (with_preview cr text) Approved a note (t_decide clock)) a (Some u) r (t_execute clock)))
| BeginPreviewFails cr u e : cleared get_operation w id a request clock cr u → preview_refusal ans = Some e → begin_case (MustFail e w)
| BeginApplyFails cr u text e : cleared get_operation w id a request clock cr u → goes_ahead cr ans text → apply ans = ApplyRaises e →
    begin_case (MustFail e (if apply_commits ans then applied_world w id cr text a note u (t_decide clock) else w))
| BeginDenied cr u text : cleared get_operation w id a request clock cr u → goes_ahead cr ans text → apply ans = ApplyDenied → apply_commits ans = true →
    begin_case (Refused ApplyPermission (applied_world w id cr text a note u (t_decide clock)))
| BeginApplied cr u text r : cleared get_operation w id a request clock cr u → goes_ahead cr ans text → apply ans = ApplyReturns r → apply_commits ans = true →
    begin_case (MustExecute r (Some u) (applied_world w id cr text a note u (t_decide clock)))
| BeginDone cr u text r : cleared get_operation w id a request clock cr u → goes_ahead cr ans text → apply ans = ApplyReturns r → apply_commits ans = false →
    begin_case (Done (executed_world (applied_world w id cr text a note u (t_decide clock)) id
                        (decide_as (with_preview cr text) Approved a note (t_decide clock)) a (Some u) r (t_execute clock))).

Lemma require_state_Ok cr s : state cr = s → _require_state cr s = Ok tt.
Proof. intros <-. unfold _require_state. by rewrite bool_decide_true. Qed.

Lemma with_preview_same cr : with_preview cr (preview_text cr) = cr.
Proof. by destruct cr. Qed.

Lemma resolve_idempotent_eq cr r : state cr = Pending →
  resolve_idempotent w id cr a note r clock =
  Done (executed_world (approved_world w id cr a note (t_decide clock)) id (decide_as cr Approved a note (t_decide clock)) a
          (requested_by_user_id cr) r (t_execute clock)).
Proof. intros Hp. unfold resolve_idempotent, mark_approved, _stamp_approved. by rewrite require_state_Ok. Qed.

Lemma dispatch_case cr u p : cleared get_operation w id a request clock cr u → preview ans = PreviewReturns p → p_ok p = true → p_idempotent p = false →
  begin_case (dispatch w id cr a note (p_text p) ans clock).
Proof.
  intros Hc Hp Hok Hid. unfold dispatch. destruct (bool_decide _ && _) eqn:Hd; [by apply BeginRefused|].
  assert (Hg : goes_ahead cr ans (p_text p)).
  { exists p. split_and!; [done..|]. intros Ho. rewrite (bool_decide_true (_ = Gate)) in Hd by done.
    by case_bool_decide. }
  unfold _stamp_approved. rewrite require_state_Ok by (simpl; by apply Hc). simpl.
  rewrite (cl_requester _ _ _ _ _ _ _ _ Hc). simpl.
  destruct (apply ans) as [|e|r] eqn:Ha.
  - destruct (apply_commits ans) eqn:Hcm; [by apply (BeginDenied cr u (p_text p))|]. by apply BeginRefused.
  - by apply (BeginApplyFails cr u (p_text p)).
  - destruct (apply_commits ans) eqn:Hcm; [by apply (BeginApplied cr u (p_text p))|].
    by apply (BeginDone cr u (p_text p)).
Qed.

Lemma after_preview_case cr u : cleared get_operation w id a request clock cr u → begin_case (after_preview w id cr a note ans clock).
Proof.
  intros Hc. unfold after_preview. destruct (preview ans) as [|e|p] eqn:Hp.
  - by apply BeginRefused.
  - apply (BeginPreviewFails cr u); [done|]. unfold preview_refusal. by rewrite Hp.
  - destruct (p_ok p) eqn:Hok; simpl.
    + destruct (p_idempotent p) eqn:Hid; [|by apply (dispatch_case cr u)].
      rewrite resolve_idempotent_eq by (simpl; apply Hc). simpl. rewrite (cl_requester _ _ _ _ _ _ _ _ Hc).
      apply (BeginNothing cr u); [done|]. right. by exists p.
    + destruct (p_forbidden p) eqn:Hf; [by apply BeginRefused|].
      apply (BeginPreviewFails cr u); [done|]. unfold preview_refusal. by rewrite Hp, Hok, Hf.
Qed.

Lemma check_approver_errors a' op e : check_approver get_operation a' op = Err e → e ≠ HasExpired ∧ e ≠ ApplyPermission.
Proof.
  unfold check_approver, raise_if. destruct (get_operation op); simpl; [|intros [= <-]; done].
  repeat match goal with |- context [if ?b then _ else _] => destruct b; simpl end; intros [= <-]; done.
Qed.

Lemma approve_begin_case : begin_case (approve_begin get_operation w id a request note ans clock).
Proof.
  unfold approve_begin. destruct (change_request w !! id) as [cr|] eqn:Hl; [|by apply BeginRefused].
  destruct (_enforce_token_scope _ _) eqn:Hs; [|by apply BeginRefused].
  case_bool_decide as Hp; [|by apply BeginRefused]. simpl.
  destruct (Z.leb_spec (expires_at (submission cr)) (t_check clock)).
  { unfold mark_expired. rewrite require_state_Ok by done. simpl. by apply BeginExpired. }
  case_bool_decide as Hn; [by apply BeginRefused|].
  destruct (requested_by_user_id cr) as [u|] eqn:Hu; [|done].
  case_bool_decide as Ho; [by apply BeginRefused|].
  destruct (check_approver _ _ _) as [[]|e] eqn:Hch; [|destruct (check_approver_errors _ _ _ Hch); by apply BeginRefused].
  assert (Hc : cleared get_operation w id a request clock cr u) by (split; try done; congruence).
  destruct (args_valid ans); [|by apply BeginRefused]. simpl.
  destruct (needs_superadmin _ && _ && _) eqn:Hpl; [|by apply (after_preview_case cr u)].
  rewrite resolve_idempotent_eq, Hu by done. rewrite <- (with_preview_same cr).
  apply (BeginNothing cr u); [done|]. left. done.
Qed.
End begin.

(** ** The life of a request, as its audit trail tells it *)
Definition advance (s : cr_state) (action : str) : option cr_state :=
  match s with
  | Pending =>
      if bool_decide (action = "approved") then Some Approved
      else if bool_decide (action = "rejected") then Some Rejected
      else if bool_decide (action = "cancelled") then Some Cancelled
      else if bool_decide (action = "expired") then Some Expired else None
  | Approved =>
      if bool_decide (action = "executed") then Some Executed
      else if bool_decide (action = "failed") then Some Failed else None
  | _ => None
  end.

Definition replay (actions : list str) : option cr_state :=
  match actions with
  | [] => None
  | a :: rest =>
      if bool_decide (a = "requested") then foldl (λ s x, s ≫= λ s, advance s x) (Some Pending) rest else None
  end.

Definition trail (w : World) (id : str) : list str :=
  map au_action (List.filter (λ r, bool_decide (au_request r = id)) (audit_log w)).

Definition tracked (w : World) : Prop := ∀ id cr, change_request w !! id = Some cr → replay (trail w id) = Some (state cr).

(** Transitions of one row, each with its audit row. *)
Inductive moves (id : str) (w : World) : World → Prop :=
| moves_refl : moves id w w
| moves_step w1 cr cr' u act o n : moves id w w1 → change_request w1 !! id = Some cr →
    submission cr' = submission cr → requested_by_user_id cr' = requested_by_user_id cr →
    advance (state cr) act = Some (state cr') → moves id w (_audit (put w1 id cr') u act id o n)
| moves_effect w1 e : moves id w w1 → moves id w (add_effect w1 e).

Lemma advance_decided s act s' : advance s act = Some s' → decided s → decided s'.
Proof.
  unfold decided. intros H [->|[->| ->]]; simpl in H; try done.
  repeat case_bool_decide; simplify_eq; auto.
Qed.

Lemma moves_evolves id w w' : moves id w w' → evolves w w'.
Proof.
  induction 1 as [|w1 cr cr' u act o n _ IH Hl Hs Hq Ha|w1 e _ IH]; [done| |].
  - transitivity w1; [done|]. apply (evolves_mark w1 id cr); [done|].
    split_and!; [done|by left|by apply (advance_decided _ act)].
  - transitivity w1; [done|]. apply evolves_effect.
Qed.

Lemma moves_trans id w1 w2 w3 : moves id w1 w2 → moves id w2 w3 → moves id w1 w3.
Proof. intros H12. induction 1; [done|eapply moves_step; eauto|by apply moves_effect]. Qed.

Lemma moves_other id w w' i : moves id w w' → i ≠ id → change_request w' !! i = change_request w !! i.
Proof. induction 1; intros; simpl; [done| |by auto]. rewrite lookup_insert_ne by done. auto. Qed.

Lemma trail_audit w u act id o n i : trail (_audit w u act id o n) i = trail w i ++ (if bool_decide (id = i) then [act] else []).
Proof. unfold trail, _audit, add_audit. simpl. rewrite List.filter_app, map_app. simpl. by case_bool_decide. Qed.

Lemma replay_snoc acts a s : replay acts = Some s → replay (acts ++ [a]) = advance s a.
Proof.
  destruct acts as [|x acts]; [done|]. simpl. case_bool_decide; [|done]. rewrite foldl_app. intros ->. done.
Qed.

Lemma tracked_stamp w id cr cr' u act o n : tracked w → change_request w !! id = Some cr →
  advance (state cr) act = Some (state cr') → tracked (_audit (put w id cr') u act id o n).
Proof.
  intros Ht Hl Ha i x. rewrite trail_audit. simpl. destruct (decide (i = id)) as [->|Hne].
  - rewrite lookup_insert_eq, bool_decide_true by done. intros [= <-].
    rewrite <- Ha. apply replay_snoc. change (trail (put w id cr') id) with (trail w id). by apply Ht.
  - rewrite lookup_insert_ne, bool_decide_false, app_nil_r by congruence. apply Ht.
Qed.

Lemma moves_tracked id w w' : moves id w w' → tracked w → tracked w'.
Proof. induction 1; intros Ht; [done|eapply tracked_stamp; eauto|by apply IHmoves]. Qed.

Lemma moves_expired w id cr now : change_request w !! id = Some cr → state cr = Pending → moves id w (expired_world w id cr now).
Proof. intros Hl Hp. eapply moves_step; [apply moves_refl|done..|by rewrite Hp]. Qed.

Lemma moves_approved w id cr text a note now : change_request w !! id = Some cr → state cr = Pending →
  moves id w (approved_world w id (with_preview cr text) a note now).
Proof. intros Hl Hp. eapply moves_step; [apply moves_refl|done..|by rewrite Hp]. Qed.

Lemma moves_executed w id cr a u r now : change_request w !! id = Some cr → state cr = Approved →
  moves id w (executed_world w id cr a u r now).
Proof. intros Hl Hp. eapply moves_step; [apply moves_refl|done..|by rewrite Hp]. Qed.

Lemma moves_failed w id cr a u e now : change_request w !! id = Some cr → state cr = Approved →
  moves id w (failed_world w id cr a u e now).
Proof. intros Hl Hp. eapply moves_step; [apply moves_refl|done..|by rewrite Hp]. Qed.

Lemma moves_applied w id cr text a note u now : change_request w !! id = Some cr → state cr = Pending →
  moves id w (applied_world w id cr text a note u now).
Proof. intros. by apply moves_effect, moves_approved. Qed.

Lemma approved_row w id cr a note now :
  change_request (approved_world w id cr a note now) !! id = Some (decide_as cr Approved a note now).
Proof. apply lookup_insert_eq. Qed.

(** An operation that leaves the world alone, or moves one pending row. *)
Definition moves_pending (id : str) (w w' : World) : Prop :=
  w' = w ∨ moves id w w' ∧ ∃ cr, change_request w !! id = Some cr ∧ state cr = Pending.

Lemma moves_pending_moves id w w' : moves_pending id w w' → moves id w w'.
Proof. intros [->|[H _]]; [apply moves_refl|done]. Qed.

Lemma begin_moves get_operation w id a request note ans clock :
  moves_pending id w (outcome_world (approve_begin get_operation w id a request note ans clock)).
Proof.
  destruct (approve_begin_case get_operation w id a request note ans clock) as
    [e|cr Hl Hp|cr u text r Hc|cr u e Hc|cr u text e Hc|cr u text Hc|cr u text r Hc|cr u text r Hc]; simpl; [by left| |..];
    try (destruct Hc as [Hl _ Hp _ _ _ _]); try (by left);
    try (destruct (apply_commits ans); [|by left]); right; (split; [|by exists cr]).
  - by apply moves_expired.
  - eapply moves_trans; [by apply moves_approved|]. by apply moves_executed; [apply approved_row|].
  - by apply moves_applied.
  - by apply moves_applied.
  - by apply moves_applied.
  - eapply moves_trans; [by apply moves_applied|]. by apply moves_executed; [apply approved_row|].
Qed.

Lemma mark_decided_moves s action w id cr u note now w' : change_request w !! id = Some cr →
  advance Pending action = Some s → mark_decided s action w id cr u note now = Ok w' → moves_pending id w w'.
Proof.
  intros Hl Ha. unfold mark_decided, _require_state. case_bool_decide as Hp; [|done]. intros [= <-].
  right. split; [|by exists cr]. eapply moves_step; [apply moves_refl|done..|by rewrite Hp].
Qed.

Lemma reject_moves w id a request note now : moves_pending id w (or_world w (reject_change_request w id a request note now)).
Proof.
  unfold reject_change_request, raise_if. destruct (negb (_can_approve _)); [by left|].
  destruct (change_request w !! id) as [cr|] eqn:Hl; [|by left]. simpl. destruct (negb _); [by left|].
  case_bool_decide; [by left|]. simpl. destruct (mark_rejected _ _ _ _ _ _) as [w'|] eqn:Hm; [|by left].
  simpl. eapply mark_decided_moves; [done| |apply Hm]; done.
Qed.

Lemma reachable_row_lookup surface w id u cr : reachable_row surface w id u = Ok cr → change_request w !! id = Some cr.
Proof.
  unfold reachable_row, raise_if. destruct (change_request w !! id) as [x|]; [|done].
  destruct (bool_decide (cr_origin _ = _)); simpl; [|done]. destruct surface; simpl; [by intros [= ->]|].
  destruct (negb _ && _); simpl; [done|by intros [= ->]].
Qed.

Lemma cancel_moves surface w id u request note now :
  moves_pending id w (or_world w (cancel_request surface w id u request note now)).
Proof.
  unfold cancel_request, raise_if. destruct (_ && negb (_require_read _)); [by left|]. simpl.
  destruct (reachable_row surface w id u) as [cr|] eqn:Hr; [|by left]. apply reachable_row_lookup in Hr. simpl.
  destruct (negb (enforce_operation_token_scope _ _)); [by left|]. simpl. destruct (_ && _); [by left|]. simpl.
  destruct (mark_cancelled _ _ _ _ _ _) as [w'|] eqn:Hm; [|by left]. simpl. eapply mark_decided_moves; [done| |apply Hm]; done.
Qed.

Lemma expire_row_moves w id now : moves_pending id w (fst (expire_row w id now)).
Proof.
  unfold expire_row. destruct (change_request w !! id) as [cr|] eqn:Hl; [|by left].
  case_bool_decide as Hp; [|by left]. simpl. destruct (_ <? _); [by left|].
  unfold mark_expired. rewrite require_state_Ok by done. simpl. right. split; [by apply moves_expired|by exists cr].
Qed.

(** The second lock of a failed approval: nothing, or the row is stamped. *)
Lemma stamp_moves w id a note e clock : moves id w (or_world w (_stamp_apply_failed w id a note e clock)).
Proof.
  unfold _stamp_apply_failed. destruct (change_request w !! id) as [cr|] eqn:Hl; [|apply moves_refl].
  case_bool_decide as Hp.
  - unfold mark_approved, _stamp_approved, mark_failed. rewrite require_state_Ok by done. simpl.
    eapply moves_trans; [apply (moves_approved w id cr (preview_text cr) a note (t_decide clock)); done|].
    rewrite with_preview_same. by apply moves_failed; [apply approved_row|].
  - case_bool_decide as Ha; [|apply moves_refl]. case_bool_decide; [|apply moves_refl]. case_bool_decide; [|apply moves_refl].
    simpl. unfold mark_failed. rewrite require_state_Ok by done. by apply moves_failed.
Qed.

Lemma finish_executed_evolves w id a u r now : evolves w (finish_executed w id a u r now).
Proof.
  unfold finish_executed. destruct (change_request w !! id) as [cr|] eqn:Hl; [|done].
  apply (evolves_mark w id cr); [done|]. split_and!; [done|by left|]. intros _. right. by left.
Qed.

Lemma finish_executed_effects w id a u r now : effects (finish_executed w id a u r now) = effects w.
Proof. unfold finish_executed. by destruct (_ !! _). Qed.

Lemma delete_user_evolves w uid : evolves w (delete_user w uid).
Proof.
  constructor; simpl.
  - intros id cr Hl. exists (forget_user uid cr). rewrite lookup_fmap, Hl. split; [done|].
    split_and!; [done| |done]. simpl. case_bool_decide; auto.
  - intros id. rewrite lookup_fmap. by destruct (change_request w !! id).
  - exists []. rewrite app_nil_r. split; [done|]. by intros r ?%not_elem_of_nil.
Qed.

Definition submitted (sub : Submission) (text : str) (user : actor) : ChangeRequest :=
  mkCR sub text Pending (Some (a_id user)) None None None None None None None.

Lemma create_world w n user sub text id : ∃ v,
  or_world w (create_change_request w n user sub text id) = w
  ∨ change_request w !! id = None
    ∧ or_world w (create_change_request w n user sub text id) =
      _audit (put w id (submitted sub text user)) (Some user) "requested" id None v.
Proof.
  unfold create_change_request, raise_if. destruct (_ <=? n)%nat; [exists None; by left|]. simpl.
  destruct (change_request w !! id); simpl; [exists None; by left|]. eexists. by right.
Qed.

Lemma first_row_audit w u act id o n i : first_row (_audit w u act id o n) i =
  match first_row w i with
  | Some r => Some r
  | None => if bool_decide (id = i) then Some (mkAuditRow (a_id <$> u) (from_option a_display "system" u) act id o n) else None
  end.
Proof.
  unfold first_row, _audit, add_audit. simpl. induction (audit_log w) as [|x l IH]; simpl; [by case_bool_decide|].
  destruct (bool_decide (au_request x = i)); [done|apply IH].
Qed.

Lemma inv_create get_operation w id user sub text v : inv get_operation w → change_request w !! id = None →
  inv get_operation (_audit (put w id (submitted sub text user)) (Some user) "requested" id None v).
Proof.
  intros [L F E O] Hn.
  assert (Hnone : first_row w id = None).
  { unfold first_row. destruct (List.find _ _) as [r|] eqn:Hf; [|done]. apply find_some in Hf as [Hin Hr%bool_decide_eq_true].
    apply list_elem_of_In, L in Hin as [cr Hc]. congruence. }
  set (w' := _audit _ _ _ _ _ _).
  assert (Hfirst : ∀ i r, first_row w i = Some r → first_row w' i = Some r).
  { intros i r Hr. unfold w'. rewrite first_row_audit. change (first_row (put w _ _) i) with (first_row w i). by rewrite Hr. }
  assert (Hrow : ∀ i cr, change_request w !! i = Some cr → change_request w' !! i = Some cr).
  { intros i cr Hi. simpl. rewrite lookup_insert_ne; [done|]. congruence. }
  constructor.
  - intros r [Hr%L|Hr%list_elem_of_singleton]%elem_of_app; [destruct Hr as [cr Hcr]; eauto|].
    rewrite Hr. simpl. rewrite lookup_insert_eq. eauto.
  - intros i cr. simpl. destruct (decide (i = id)) as [->|Hne].
    + rewrite lookup_insert_eq. intros [= <-]. eexists (mkAuditRow (Some (a_id user)) (a_display user) "requested" id None v).
      split_and!; [|done|by intros u [= ->]].
      unfold w'. rewrite first_row_audit. change (first_row (put w _ _) id) with (first_row w id).
      rewrite Hnone, bool_decide_true; done.
    + rewrite lookup_insert_ne by done. intros Hl. destruct (F i cr Hl) as (r & Hr & Hra). eauto.
  - intros e [(cr & Hl & Hd) (r & Hr & Hra) Ho (x & Hx & Hxa)]%E. constructor; [eauto|eauto|done|].
    exists x. split; [|done]. apply elem_of_app. by left.
  - done.
Qed.

Lemma inv_applied get_operation w id a request clock cr u text note : inv get_operation w →
  cleared get_operation w id a request clock cr u →
  inv get_operation (applied_world w id cr text a note u (t_decide clock)).
Proof.
  intros Hinv [Hl _ Hp _ Hu Ho Hel].
  assert (Hm : moves id w (applied_world w id cr text a note u (t_decide clock))) by by apply moves_applied.
  apply (inv_effect get_operation w _ (mkEffect id a u) cr); [done|by apply (moves_evolves id)|done..|]. constructor; simpl.
  - exists (decide_as (with_preview cr text) Approved a note (t_decide clock)). rewrite lookup_insert_eq.
    split_and!; [done|by left|]. by apply check_approver_eligible.
  - destruct (inv_first _ _ Hinv id cr Hl) as (r & Hr & Ha & Hq). exists r. split_and!; [|done|by apply Hq].
    by apply (first_row_evolves w), Hr; apply (moves_evolves id).
  - done.
  - eexists. split; [apply elem_of_app; right; by apply list_elem_of_singleton|done].
Qed.

Lemma inv_begin get_operation w id a request note ans clock : inv get_operation w →
  inv get_operation (outcome_world (approve_begin get_operation w id a request note ans clock)).
Proof.
  intros Hinv.
  destruct (approve_begin_case get_operation w id a request note ans clock) as
    [e|cr Hl Hp|cr u text r Hc|cr u e Hc|cr u text e Hc|cr u text Hc|cr u text r Hc|cr u text r Hc]; simpl; try done.
  - apply (inv_evolves get_operation w); [done| |done]. by apply (moves_evolves id), moves_expired.
  - destruct Hc as [Hl _ Hp _ _ _ _]. apply (inv_evolves get_operation w); [done| |done]. apply (moves_evolves id).
    eapply moves_trans; [by apply moves_approved|]. by apply moves_executed; [apply approved_row|].
  - destruct (apply_commits ans); [by eapply inv_applied|done].
  - by eapply inv_applied.
  - by eapply inv_applied.
  - eapply (inv_evolves get_operation); [by eapply inv_applied| |done].
    by apply (moves_evolves id), moves_executed; [apply approved_row|].
Qed.

Lemma mark_decided_effects s action w id cr u note now :
  effects (match mark_decided s action w id cr u note now with Ok w' => w' | Err _ => w end) = effects w.
Proof. unfold mark_decided, _require_state. by case_bool_decide. Qed.

Lemma stamp_effects w id a note e clock : effects (or_world w (_stamp_apply_failed w id a note e clock)) = effects w.
Proof.
  unfold _stamp_apply_failed, mark_approved, _stamp_approved, mark_failed, _require_state.
  destruct (change_request w !! id) as [cr|]; [|done]. repeat (case_bool_decide; simpl; try done).
Qed.

Lemma reject_effects w id a request note now : effects (or_world w (reject_change_request w id a request note now)) = effects w.
Proof.
  unfold reject_change_request, raise_if. destruct (negb (_can_approve _)); [done|].
  destruct (change_request w !! id) as [cr|]; [|done]. simpl. destruct (negb _); [done|]. case_bool_decide; [done|]. simpl.
  pose proof (mark_decided_effects Rejected "rejected" w id cr a note now) as Hd. fold mark_rejected in Hd.
  by destruct (mark_rejected _ _ _ _ _ _).
Qed.

Lemma cancel_effects surface w id u request note now :
  effects (or_world w (cancel_request surface w id u request note now)) = effects w.
Proof.
  unfold cancel_request, raise_if. destruct (_ && negb (_require_read _)); [done|]. simpl.
  destruct (reachable_row surface w id u) as [cr|]; [|done]. simpl.
  destruct (negb (enforce_operation_token_scope _ _)); [done|]. simpl. destruct (_ && _); [done|]. simpl.
  pose proof (mark_decided_effects Cancelled "cancelled" w id cr u note now) as Hd. fold mark_cancelled in Hd.
  by destruct (mark_cancelled _ _ _ _ _ _).
Qed.

Lemma expire_row_effects w id now : effects (fst (expire_row w id now)) = effects w.
Proof.
  unfold expire_row, mark_expired, _require_state. destruct (change_request w !! id) as [cr|]; [|done].
  case_bool_decide; [|done]. simpl. by destruct (_ <? _).
Qed.

Lemma inv_moves get_operation id w w' : inv get_operation w → moves id w w' → effects w' = effects w → inv get_operation w'.
Proof. intros Hinv Hm He. apply (inv_evolves get_operation w); [done|by apply (moves_evolves id)|done]. Qed.

Lemma step_inv get_operation c ev : inv get_operation (world c) → inv get_operation (world (step get_operation c ev)).
Proof.
  intros Hinv. destruct ev as [n user sub text id|id a request note ans clock|i clock|i|id a request note now
    |surface id u request note now|id now|uid]; simpl; try done.
  - destruct (create_world (world c) n user sub text id) as [v [->|[Hn ->]]]; [done|by apply inv_create].
  - pose proof (inv_begin get_operation (world c) id a request note ans clock Hinv) as H. by destruct (approve_begin _ _ _ _ _ _ _ _).
  - destruct (sessions c !! i) as [[id a note e|id a u r]|]; simpl; [| |done].
    + apply (inv_moves get_operation id (world c)); [done|apply stamp_moves|apply stamp_effects].
    + apply (inv_evolves get_operation (world c)); [done|apply finish_executed_evolves|apply finish_executed_effects].
  - apply (inv_moves get_operation id (world c)); [done|apply moves_pending_moves, reject_moves|apply reject_effects].
  - apply (inv_moves get_operation id (world c)); [done|apply moves_pending_moves, cancel_moves|apply cancel_effects].
  - apply (inv_moves get_operation id (world c)); [done|apply moves_pending_moves, expire_row_moves|apply expire_row_effects].
  - apply (inv_evolves get_operation (world c)); [done|apply delete_user_evolves|done].
Qed.

Lemma init_inv get_operation : inv get_operation (world init).
Proof. constructor; simpl; [by intros r ?%not_elem_of_nil|done|by intros e ?%not_elem_of_nil|apply NoDup_nil_2]. Qed.

Lemma run_inv get_operation evs : inv get_operation (world (run get_operation evs)).
Proof.
  unfold run. generalize (init_inv get_operation). generalize init. induction evs as [|ev evs IH]; simpl; intros c Hc; [done|].
  by apply IH, step_inv.
Qed.

(** C1 -- however the sessions are interleaved, crash or are refused, every
    operation that was applied was submitted by one user and approved by another
    who holds the approval capability, the operation's own permission and, for
    an operation that governs the approvals, superadmin; the log says who
    submitted (its first row on the request) and who approved, and no request is
    applied twice. *)
Theorem two_person get_operation evs :
  let w := world (run get_operation evs) in
  (∀ e, e ∈ effects w → effect_ok get_operation w e) ∧ NoDup (map e_request (effects w)).
Proof. destruct (run_inv get_operation evs) as [_ _ He Ho]. done. Qed.

(** Effects are only added, at most one by a step, by an approval of its request. *)
Lemma begin_effects get_operation w id a request note ans clock :
  let w' := outcome_world (approve_begin get_operation w id a request note ans clock) in
  effects w' = effects w ∨ ∃ e, effects w' = effects w ++ [e] ∧ e_request e = id.
Proof.
  destruct (approve_begin_case get_operation w id a request note ans clock) as
    [e|cr Hl Hp|cr u text r Hc|cr u e Hc|cr u text e Hc|cr u text Hc|cr u text r Hc|cr u text r Hc]; simpl; try (by left);
    try (right; by exists (mkEffect id a u)).
  destruct (apply_commits ans); [|by left]. right. by exists (mkEffect id a u).
Qed.

Lemma create_effects w n user sub text id : effects (or_world w (create_change_request w n user sub text id)) = effects w.
Proof. by destruct (create_world w n user sub text id) as [v [->|[_ ->]]]. Qed.

Lemma step_effects get_operation c ev :
  let w' := world (step get_operation c ev) in
  effects w' = effects (world c)
  ∨ ∃ e, effects w' = effects (world c) ++ [e]
      ∧ match ev with Approve id _ _ _ _ _ => e_request e = id | _ => False end.
Proof.
  destruct ev as [n user sub text id|id a request note ans clock|i clock|i|id a request note now
    |surface id u request note now|id now|uid]; simpl; try (by left).
  - left. apply create_effects.
  - pose proof (begin_effects get_operation (world c) id a request note ans clock) as H. by destruct (approve_begin _ _ _ _ _ _ _ _).
  - left. destruct (sessions c !! i) as [[id a note e|id a u r]|]; simpl; [apply stamp_effects|apply finish_executed_effects|done].
  - left. apply reject_effects.
  - left. apply cancel_effects.
  - left. apply expire_row_effects.
Qed.

(** What was submitted stays as it was. *)
Lemma evolves_submission w w' id cr : evolves w w' → change_request w !! id = Some cr →
  ∃ cr', change_request w' !! id = Some cr' ∧ submission cr' = submission cr.
Proof. intros He Hl. destruct (ev_rows _ _ He _ _ Hl) as (cr' & Hl' & Hs & _). eauto. Qed.

Lemma step_submission get_operation c ev id cr : change_request (world c) !! id = Some cr →
  ∃ cr', change_request (world (step get_operation c ev)) !! id = Some cr' ∧ submission cr' = submission cr.
Proof.
  destruct ev as [n user sub text i|i a request note ans clock|i clock|i|i a request note now
    |surface i u request note now|i now|uid]; simpl; intros Hl.
  - destruct (create_world (world c) n user sub text i) as [v [->|[Hn ->]]]; [eauto|]. simpl.
    rewrite lookup_insert_ne by congruence. eauto.
  - pose proof (begin_moves get_operation (world c) i a request note ans clock) as H%moves_pending_moves%moves_evolves.
    destruct (approve_begin _ _ _ _ _ _ _ _); simpl in *; by eapply evolves_submission.
  - destruct (sessions c !! i) as [[j a note e|j a u r]|]; simpl; [| |eauto]; eapply evolves_submission, Hl.
    + by apply (moves_evolves j), stamp_moves.
    + apply finish_executed_evolves.
  - eauto.
  - eapply evolves_submission, Hl. by eapply moves_evolves, moves_pending_moves, reject_moves.
  - eapply evolves_submission, Hl. by eapply moves_evolves, moves_pending_moves, cancel_moves.
  - eapply evolves_submission, Hl. by eapply moves_evolves, moves_pending_moves, expire_row_moves.
  - by apply (evolves_submission (world c) (delete_user (world c) uid)); [apply delete_user_evolves|].
Qed.

(** ** The trail against the state *)

(** No approver has two approvals of one request in flight. *)
Definition solo (c : Config) : Prop := NoDup (map phase_key (sessions c)).

Inductive single_handed (get_operation : str → option Operation) : Config → Prop :=
| single_init : single_handed get_operation init
| single_step c ev : single_handed get_operation c → solo (step get_operation c ev) →
    single_handed get_operation (step get_operation c ev).

Definition finishing (p : phase) : option str := match p with Finishing id _ _ _ => Some id | Failing _ _ _ _ => None end.

(** An approval whose [apply()] committed still finds its row approved. *)
Definition held (w : World) (p : phase) : Prop :=
  match p with
  | Failing _ _ _ _ => True
  | Finishing id a _ _ => ∃ cr, change_request w !! id = Some cr ∧ state cr = Approved
      ∧ (decided_by_user_id cr = Some (a_id a) ∨ decided_by_user_id cr = None)
  end.

Record orderly (c : Config) : Prop := {
  or_tracked : tracked (world c);
  or_held p : p ∈ sessions c → held (world c) p;
  or_once : NoDup (omap finishing (sessions c));
}.

Lemma held_other w w' p : (∀ id, finishing p = Some id → change_request w' !! id = change_request w !! id) →
  held w p → held w' p.
Proof. intros He. destruct p as [|id a u r]; [done|]. simpl. by rewrite He. Qed.

Lemma held_pending id w w' p : moves_pending id w w' → held w p → held w' p.
Proof.
  intros [->|[Hm (cr & Hl & Hp)]] Hh; [done|]. apply (held_other w); [|done]. intros i Hi.
  apply (moves_other id); [done|]. intros ->. destruct p as [|i a u r]; [done|]. injection Hi as ->.
  destruct Hh as (cr2 & Hl2 & Ha & _). congruence.
Qed.

Lemma orderly_moves id c w' : orderly c → moves_pending id (world c) w' → orderly (mkConfig w' (sessions c)).
Proof.
  intros [Ht Hh Ho] Hm. constructor; simpl; [|intros p Hp; by eapply held_pending, Hh|done].
  eapply moves_tracked; [by apply moves_pending_moves|done].
Qed.

(** Dropping a session. *)
Lemma orderly_delete i c : orderly c → orderly (mkConfig (world c) (delete i (sessions c))).
Proof.
  intros [Ht Hh Ho]. destruct (sessions c !! i) as [p|] eqn:Hp.
  - apply delete_Permutation in Hp. constructor; simpl; [done| |].
    + intros q Hq. apply Hh. rewrite Hp. by right.
    + rewrite Hp in Ho. simpl in Ho. destruct (finishing p); [|done]. by apply NoDup_cons in Ho as [_ Ho].
  - apply lookup_ge_None in Hp. rewrite delete_take_drop, take_ge, drop_ge, app_nil_r by lia. by constructor.
Qed.

Lemma omap_finishing (ps : list phase) id : id ∈ omap finishing ps → ∃ a u r, Finishing id a u r ∈ ps.
Proof. intros ([|i a u r] & Hp & [= ->])%list_elem_of_omap. eauto. Qed.

Lemma begin_orderly get_operation c id a request note ans clock : orderly c →
  let '(w', ps) := begin_phase (approve_begin get_operation (world c) id a request note ans clock) id a note in
  orderly (mkConfig w' (sessions c ++ ps)).
Proof.
  intros Hor. pose proof (begin_moves get_operation (world c) id a request note ans clock) as Hm.
  pose proof (approve_begin_case get_operation (world c) id a request note ans clock) as Hcase.
  destruct (approve_begin _ _ _ _ _ _ _ _) as [e w'|w'|e w'|r u w'] eqn:Hb; simpl in *;
    destruct (orderly_moves _ c w' Hor Hm) as [Ht Hh Ho]; simpl in *; rewrite ?app_nil_r; [done|done| |].
  - constructor; simpl; [done| |by rewrite omap_app, app_nil_r].
    intros p [Hp| ->%list_elem_of_singleton]%elem_of_app; [by apply Hh|done].
  - inversion Hcase as [| | | | | |cr u' text r' Hc|]; subst. constructor; simpl; [done| |].
    + intros p [Hp| ->%list_elem_of_singleton]%elem_of_app; [by apply Hh|].
      eexists. split; [apply approved_row|]. split; [done|by left].
    + rewrite omap_app. apply NoDup_app. split_and!; [done| |apply NoDup_singleton].
      intros i Hi ->%list_elem_of_singleton. apply omap_finishing in Hi as (b & v & q & Hi).
      apply (or_held _ Hor) in Hi as (cr2 & Hl2 & Ha & _). destruct Hc as [Hl _ Hp _ _ _ _]. congruence.
Qed.

Lemma failing_orderly c i id a note e clock : orderly c → solo c → sessions c !! i = Some (Failing id a note e) →
  orderly (mkConfig (or_world (world c) (_stamp_apply_failed (world c) id a note e clock)) (delete i (sessions c))).
Proof.
  intros Hor Hs Hi. pose proof (orderly_delete i c Hor) as [Ht Hh Ho]. simpl in *.
  pose proof (stamp_moves (world c) id a note e clock) as Hm.
  constructor; simpl; [by eapply moves_tracked| |done]. intros p Hp. pose proof (Hh p Hp) as Hhp.
  destruct (decide (finishing p = Some id)) as [Hf|Hf]; cycle 1.
  { apply (held_other (world c)); [|done]. intros j Hj. apply (moves_other id); [done|congruence]. }
  destruct p as [|j b u r]; [done|]. injection Hf as ->. destruct Hhp as (cr & Hl & Ha & Hd).
  assert (Hne : a_id a ≠ a_id b).
  { unfold solo in Hs. rewrite (delete_Permutation _ _ _ Hi) in Hs. apply NoDup_cons in Hs as [Hs _].
    intros Heq. apply Hs, list_elem_of_fmap. eexists. split; [|done]. simpl. by rewrite Heq. }
  unfold _stamp_apply_failed. rewrite Hl, Ha. simpl. rewrite (bool_decide_false (_ = Some (a_id a))).
  - simpl. by exists cr.
  - destruct Hd as [-> | ->]; congruence.
Qed.

Lemma finishing_orderly c i id a u r now : orderly c → sessions c !! i = Some (Finishing id a u r) →
  orderly (mkConfig (finish_executed (world c) id a u r now) (delete i (sessions c))).
Proof.
  intros Hor Hi. pose proof (orderly_delete i c Hor) as [Ht Hh Ho]. simpl in *.
  destruct (or_held _ Hor _ (list_elem_of_lookup_2 _ _ _ Hi)) as (cr & Hl & Ha & _).
  unfold finish_executed. rewrite Hl.
  pose proof (moves_executed (world c) id cr a u r now Hl Ha) as Hm.
  constructor; simpl; [by eapply moves_tracked| |done].
  intros p Hp. apply (held_other (world c)); [|by apply Hh]. intros j Hj. apply (moves_other id _ _ _ Hm). intros ->.
  pose proof (or_once _ Hor) as Hn. rewrite (delete_Permutation _ _ _ Hi) in Hn. simpl in Hn.
  apply NoDup_cons in Hn as [Hn _]. apply Hn, list_elem_of_omap. by exists p.
Qed.

Lemma create_orderly get_operation c n user sub text id : inv get_operation (world c) → orderly c →
  orderly (mkConfig (or_world (world c) (create_change_request (world c) n user sub text id)) (sessions c)).
Proof.
  intros Hinv [Ht Hh Ho]. destruct (create_world (world c) n user sub text id) as [v [->|[Hn ->]]]; [done|].
  constructor; simpl; [|intros p Hp|done].
  - intros i cr. rewrite trail_audit. simpl. destruct (decide (i = id)) as [->|Hne].
    + rewrite lookup_insert_eq, bool_decide_true by done. intros [= <-].
      assert (trail (put (world c) id (submitted sub text user)) id = []) as ->; [|done].
      unfold trail. simpl. destruct (List.filter _ _) as [|r l] eqn:Hf; [done|].
      assert (Hin : In r (r :: l)) by by left. rewrite <- Hf in Hin. apply filter_In in Hin as [Hin Hr%bool_decide_eq_true].
      apply list_elem_of_In in Hin. apply (inv_log _ _ Hinv) in Hin as [cr Hc]. congruence.
    + rewrite lookup_insert_ne, bool_decide_false, app_nil_r by congruence. apply Ht.
  - apply (held_other (world c)); [|by apply Hh]. intros i Hi. simpl. apply lookup_insert_ne. intros ->.
    destruct p as [|j a u r]; [done|]. injection Hi as ->. destruct (Hh _ Hp) as (cr & Hl & _). congruence.
Qed.

Lemma delete_user_orderly c uid : orderly c → orderly (mkConfig (delete_user (world c) uid) (sessions c)).
Proof.
  intros [Ht Hh Ho]. constructor; simpl; [|intros p Hp|done].
  - intros i cr'. simpl. rewrite lookup_fmap. intros (cr & Hl & ->)%fmap_Some. exact (Ht i cr Hl).
  - specialize (Hh p Hp). destruct p as [|id a u r]; [done|]. destruct Hh as (cr & Hl & Ha & Hd).
    exists (forget_user uid cr). simpl. rewrite lookup_fmap, Hl. split_and!; [done..|].
    destruct Hd as [-> | ->]; case_bool_decide; auto.
Qed.

Lemma step_orderly get_operation c ev : inv get_operation (world c) → solo c → orderly c → orderly (step get_operation c ev).
Proof.
  intros Hinv Hs Hor. destruct ev as [n user sub text id|id a request note ans clock|i clock|i|id a request note now
    |surface id u request note now|id now|uid]; simpl.
  - by apply (create_orderly get_operation).
  - pose proof (begin_orderly get_operation c id a request note ans clock Hor) as H. by destruct (begin_phase _ _ _ _).
  - destruct (sessions c !! i) as [[id a note e|id a u r]|] eqn:Hi; simpl; [by apply failing_orderly|by apply finishing_orderly|done].
  - by apply orderly_delete.
  - eapply orderly_moves; [done|apply reject_moves].
  - eapply orderly_moves; [done|apply cancel_moves].
  - eapply orderly_moves; [done|apply expire_row_moves].
  - by apply delete_user_orderly.
Qed.

Lemma single_handed_inv get_operation c : single_handed get_operation c → inv get_operation (world c) ∧ solo c ∧ orderly c.
Proof.
  induction 1 as [|c ev _ (Hi & Hs & Ho) Hs'].
  - split_and!; [apply init_inv|apply NoDup_nil_2|]. constructor; simpl; [done|by intros p ?%not_elem_of_nil|apply NoDup_nil_2].
  - split_and!; [by apply step_inv|done|by apply step_orderly].
Qed.

(** C8 -- as long as no approver has two approvals of one request in flight,
    the audit trail of every request is a path of the request's state machine
    from the submission to the state its row shows: each transition is logged
    once, in order, and a decided request never moves again. *)
Theorem trail_replays get_operation c : single_handed get_operation c →
  ∀ id cr, change_request (world c) !! id = Some cr → replay (trail (world c) id) = Some (state cr).
Proof. intros H. apply single_handed_inv in H as (_ & _ & [Ht _ _]). apply Ht. Qed.

(** ** One decision, no other session in between *)
Lemma put_put w id x y : change_request (put (put w id x) id y) = <[id := y]> (change_request w).
Proof. apply insert_insert_eq. Qed.

Lemma stamp_pending w id a note e clock cr : change_request w !! id = Some cr → state cr = Pending →
  _stamp_apply_failed w id a note e clock =
  Ok (failed_world (approved_world w id cr a note (t_decide clock)) id (decide_as cr Approved a note (t_decide clock)) a
        (requested_by_user_id cr) e (t_execute clock)).
Proof.
  intros Hl Hp. unfold _stamp_apply_failed. rewrite Hl, Hp. simpl.
  unfold mark_approved, _stamp_approved, mark_failed. by rewrite require_state_Ok.
Qed.

Lemma stamp_approved w id a note e clock cr : change_request w !! id = Some cr → state cr = Approved →
  decided_by_user_id cr = Some (a_id a) → executed_at cr = None →
  _stamp_apply_failed w id a note e clock = Ok (failed_world w id cr a (requested_by_user_id cr) e (t_execute clock)).
Proof.
  intros Hl Hp Hd He. unfold _stamp_apply_failed. rewrite Hl, Hp, Hd, He. simpl. rewrite bool_decide_true by done. simpl.
  unfold mark_failed. by rewrite require_state_Ok.
Qed.

(** The row as a decision of [a] leaves it, the trail and the effects. *)
Record decides (w w' : World) (id : str) (a : actor) (note : option str) (cr cr' : ChangeRequest) (end_state : cr_state)
    (applied : list Effect) : Prop := {
  de_rows : change_request w' = <[id := cr']> (change_request w);
  de_submission : submission cr' = submission cr ∧ requested_by_user_id cr' = requested_by_user_id cr;
  de_who : decided_by_user_id cr' = Some (a_id a) ∧ decision_note cr' = note;
  de_state : state cr' = end_state;
  de_trail i : trail w' i = trail w i ++ (if bool_decide (id = i) then ["approved" : str; state_text end_state] else []);
  de_effects : effects w' = effects w ++ applied;
}.

Lemma trail_two w id cr cr' u u' act act' o o' n n' i :
  trail (_audit (put (_audit (put w id cr) u act id o n) id cr') u' act' id o' n') i =
  trail w i ++ (if bool_decide (id = i) then [act; act'] else []).
Proof.
  rewrite trail_audit. change (trail (put ?w _ _) i) with (trail w i). rewrite trail_audit.
  change (trail (put w id cr) i) with (trail w i). case_bool_decide; by rewrite <- ?app_assoc, ?app_nil_r.
Qed.

Lemma decides_failed w id a note cr e u t t' : 
  decides w (failed_world (approved_world w id cr a note t) id (decide_as cr Approved a note t) a u e t') id a note cr
    (set_failed (decide_as cr Approved a note t) e t') Failed [].
Proof. split; try done; [apply put_put|apply trail_two|by rewrite app_nil_r]. Qed.

Lemma decides_executed w id a note cr text r u t t' :
  let cr1 := decide_as (with_preview cr text) Approved a note t in
  decides w (executed_world (approved_world w id (with_preview cr text) a note t) id cr1 a u r t') id a note cr
    (set_executed cr1 r t') Executed [].
Proof. split; try done; [apply put_put|apply trail_two|by rewrite app_nil_r]. Qed.

Lemma decides_applied w id a note cr text u v r t t' :
  let cr1 := decide_as (with_preview cr text) Approved a note t in
  decides w (executed_world (applied_world w id cr text a note u t) id cr1 a v r t') id a note cr
    (set_executed cr1 r t') Executed [mkEffect id a u].
Proof.
  split; try done; [apply put_put|]. exact (de_trail _ _ _ _ _ _ _ _ _ (decides_executed w id a note cr text r v t t')).
Qed.

Lemma decides_applied_failed w id a note cr text u v e t t' :
  let cr1 := decide_as (with_preview cr text) Approved a note t in
  decides w (failed_world (applied_world w id cr text a note u t) id cr1 a v e t') id a note cr
    (set_failed cr1 e t') Failed [mkEffect id a u].
Proof.
  split; try done; [apply put_put|]. exact (de_trail _ _ _ _ _ _ _ _ _ (decides_failed w id a note (with_preview cr text) e v t t')).
Qed.

(** How an approval that was not refused ends. *)
Inductive settled (w w' : World) (id : str) (a : actor) (note : option str) (ans : Answers) (cr : ChangeRequest) (u : str) : Prop :=
| SettledNothing cr' text r : nothing_to_apply cr ans text r → result cr' = Some r →
    decides w w' id a note cr cr' Executed [] → settled w w' id a note ans cr u
| SettledApplied cr' r : goes_ahead cr ans (preview_text cr') → apply ans = ApplyReturns r → result cr' = Some r →
    decides w w' id a note cr cr' Executed [mkEffect id a u] → settled w w' id a note ans cr u
| SettledStale cr' e : preview_refusal ans = Some e → error cr' = Some e →
    decides w w' id a note cr cr' Failed [] → settled w w' id a note ans cr u
| SettledRaised cr' text e : goes_ahead cr ans text → apply ans = ApplyRaises e → error cr' = Some e →
    decides w w' id a note cr cr' Failed (if apply_commits ans then [mkEffect id a u] else []) → settled w w' id a note ans cr u.

(** C9 -- an approval that no other session interrupts: when it answers a row,
    every guard held and the request is decided by the approver and ends
    [executed], applied once or having nothing to apply, or [failed] with the
    reason the preview or [apply()] gave, with the approval and the end on its
    trail; when it is refused nothing changed, except that a request past its
    TTL is expired, and that a permission refusal after [apply()] committed
    leaves the request [approved] with its effect. *)
Theorem approval_exact get_operation w id a request note ans clock cr :
  change_request w !! id = Some cr → executed_at cr = None →
  let '(answer, w') := approve_change_request get_operation w id a request note ans clock in
  match answer with
  | Ok _ => ∃ u, cleared get_operation w id a request clock cr u ∧ settled w w' id a note ans cr u
  | Err HasExpired => expires_at (submission cr) <= t_check clock ∧ state cr = Pending
      ∧ w' = expired_world w id cr (t_decide clock)
  | Err ApplyPermission => apply ans = ApplyDenied
      ∧ (apply_commits ans = false ∧ w' = w
         ∨ apply_commits ans = true ∧ ∃ u text, cleared get_operation w id a request clock cr u
             ∧ w' = applied_world w id cr text a note u (t_decide clock))
  | Err _ => w' = w
  end.
Proof.
  intros Hl He. unfold approve_change_request.
  destruct (approve_begin_case get_operation w id a request note ans clock) as
    [e Hne Hperm|cr2 Hl2 Hp Hexp|cr2 u text r Hc Hn|cr2 u e Hc Hr|cr2 u text e Hc Hg Ha|cr2 u text Hc Hg Ha Hcm
    |cr2 u text r Hc Hg Ha Hcm|cr2 u text r Hc Hg Ha Hcm]; simpl;
    try (assert (cr2 = cr) as -> by (try destruct Hc; congruence)).
  - destruct e; try done. destruct Hperm; [done|]. auto.
  - done.
  - exists u. split; [done|]. eapply SettledNothing; [done| |apply decides_executed]. done.
  - rewrite (stamp_pending w id a note e clock cr) by (try done; apply Hc). exists u. split; [done|].
    by eapply SettledStale; [|  |apply decides_failed].
  - destruct (apply_commits ans) eqn:Hcm.
    + rewrite (stamp_approved _ id a note e clock (decide_as (with_preview cr text) Approved a note (t_decide clock)))
        by (try done; apply approved_row).
      exists u. split; [done|]. eapply SettledRaised; [done|done| |rewrite Hcm; apply decides_applied_failed]. done.
    + rewrite (stamp_pending w id a note e clock cr) by (try done; apply Hc). exists u. split; [done|].
      eapply SettledRaised; [done|done| |rewrite Hcm; apply decides_failed]. done.
  - split; [done|]. right. split; [done|]. by exists u, text.
  - unfold finish_executed. simpl. rewrite lookup_insert_eq. exists u. split; [done|].
    eapply SettledApplied; [|done| |apply decides_applied]; done.
  - exists u. split; [done|]. eapply SettledApplied; [|done| |apply decides_applied]; done.
Qed.

(** ** The sweep *)
Definition due (now : Z) (cr : ChangeRequest) : bool := bool_decide (state cr = Pending) && (expires_at (submission cr) <=? now).

Lemma expire_row_due w id now now' cr : change_request w !! id = Some cr → due now cr = true → now <= now' →
  expire_row w id now' = (expired_world w id cr now', true).
Proof.
  intros Hl [Hp%bool_decide_eq_true He%Z.leb_le]%andb_true_iff Hn. unfold expire_row. rewrite Hl, Hp. simpl.
  rewrite (proj2 (Z.ltb_ge _ _)) by lia. unfold mark_expired. by rewrite require_state_Ok.
Qed.

Lemma elem_sweep_candidates w now id : id ∈ sweep_candidates w now ↔ ∃ cr, change_request w !! id = Some cr ∧ due now cr = true.
Proof.
  unfold sweep_candidates. rewrite list_elem_of_fmap. split.
  - intros ([i cr] & -> & H). apply list_elem_of_In, filter_In in H as [H Hd]. apply list_elem_of_In, elem_of_map_to_list in H.
    by exists cr.
  - intros (cr & Hl & Hd). exists (id, cr). split; [done|]. apply list_elem_of_In, filter_In. split; [|done].
    by apply list_elem_of_In, elem_of_map_to_list.
Qed.

Lemma sweep_candidates_NoDup w now : NoDup (sweep_candidates w now).
Proof.
  unfold sweep_candidates. pose proof (NoDup_fst_map_to_list (change_request w)) as H. revert H.
  induction (map_to_list (change_request w)) as [|x l IH]; simpl; [done|]. intros [Hx Hl]%NoDup_cons.
  destruct (_ && _); simpl; [|by apply IH]. apply NoDup_cons. split; [|by apply IH]. intros Hin. apply Hx.
  apply list_elem_of_fmap in Hin as (y & Hy & Hin). apply list_elem_of_fmap. exists y. split; [done|].
  apply list_elem_of_In, filter_In in Hin as [Hin _]. by apply list_elem_of_In.
Qed.

(** Row [id], after the rows [ids] have had their turn. *)
Lemma sweep_fold clock now ids w n m k : NoDup ids →
  (∀ id, id ∈ ids → now <= clock id ∧ ∃ cr, change_request w !! id = Some cr ∧ due now cr = true) →
  let '(w', counts) := foldl (sweep_row clock) (w, (n, m, k)) ids in
  counts = (length ids + n, length ids + m, k)%nat ∧ effects w' = effects w
  ∧ (∀ id, id ∉ ids → change_request w' !! id = change_request w !! id ∧ trail w' id = trail w id)
  ∧ (∀ id cr, id ∈ ids → change_request w !! id = Some cr →
       change_request w' !! id = Some (set_expired cr (clock id)) ∧ trail w' id = trail w id ++ ["expired" : str]).
Proof.
  revert w n m. induction ids as [|id ids IH]; intros w n m Hnd Hids.
  { simpl. split_and!; try done. by intros ??[]%not_elem_of_nil. }
  apply NoDup_cons in Hnd as [Hid Hnd]. destruct (Hids id) as (Hc & cr & Hl & Hd); [by left|].
  cbn [foldl sweep_row]. rewrite (expire_row_due w id now (clock id) cr) by done.
  set (w1 := expired_world w id cr (clock id)).
  assert (Hother : ∀ i, i ≠ id → change_request w1 !! i = change_request w !! i ∧ trail w1 i = trail w i).
  { intros i Hi. split; [by apply lookup_insert_ne|]. unfold w1, expired_world. rewrite trail_audit, bool_decide_false by done.
    apply app_nil_r. }
  specialize (IH w1 (S n) (S m) Hnd). destruct (foldl _ _ _) as [w' counts]. destruct IH as (-> & -> & Hout & Hin).
  { intros i Hi. destruct (Hids i) as (Hci & cri & Hli & Hdi); [by right|]. split; [done|]. exists cri.
    split; [|done]. rewrite <- Hli. apply Hother. by intros ->. }
  split_and!; [f_equal; f_equal; simpl; lia|done| |].
  - intros i [Hne Hi]%not_elem_of_cons. destruct (Hout i Hi) as [-> ->]. by apply Hother.
  - intros i cri [->|Hi]%elem_of_cons Hli.
    + destruct (Hout id Hid) as [-> ->]. simplify_eq. split; [apply lookup_insert_eq|].
      unfold w1, expired_world. by rewrite trail_audit, bool_decide_true.
    + assert (Hne : i ≠ id) by by intros ->. destruct (Hother i Hne) as [Hr Ht].
      rewrite <- Hr in Hli. rewrite <- Ht. by apply Hin.
Qed.

(** One sweep expires exactly the pending requests whose time has come,
    each at the instant its row was locked and with one more row on its trail,
    touches no other request and applies nothing; its counters say how many. *)
Theorem expiry_sweep_exact w now clock : (∀ id, is_Some (change_request w !! id) → now <= clock id) →
  let '(w', counts) := _sweep w now clock in
  let n := length (sweep_candidates w now) in
  counts = (n, n, 0)%nat ∧ effects w' = effects w
  ∧ ∀ id, match change_request w !! id with
          | None => change_request w' !! id = None
          | Some cr =>
              if due now cr
              then change_request w' !! id = Some (set_expired cr (clock id)) ∧ trail w' id = trail w id ++ ["expired" : str]
              else change_request w' !! id = Some cr ∧ trail w' id = trail w id
          end.
Proof.
  intros Hclock. unfold _sweep.
  pose proof (sweep_fold clock now (sweep_candidates w now) w 0 0 0 (sweep_candidates_NoDup w now)) as H.
  destruct (foldl _ _ _) as [w' counts]. destruct H as (-> & -> & Hout & Hin).
  { intros id Hid. apply elem_sweep_candidates in Hid as (cr & Hl & Hd). split; [apply Hclock; by exists cr|by exists cr]. }
  rewrite !Nat.add_0_r. split_and!; [done|done|]. intros id.
  destruct (change_request w !! id) as [cr|] eqn:Hl; [destruct (due now cr) eqn:Hd|].
  - apply Hin; [|done]. apply elem_sweep_candidates. by exists cr.
  - rewrite <- Hl. apply Hout. intros (cr2 & Hl2 & Hd2)%elem_sweep_candidates. congruence.
  - rewrite <- Hl. apply Hout. intros (cr2 & Hl2 & Hd2)%elem_sweep_candidates. congruence.
Qed.

(** ** Concrete runs *)
Definition root (id : str) : actor := mkActor id id (User true true [] [] []).
Definition sample_registry (name : str) : option Operation :=
  if bool_decide (name = "delete_subnet") then Some (mkOperation name (Some ("delete" : str, "subnet" : str)) false []) else None.
Definition sample_submission : Submission :=
  mkSubmission Gate "delete_subnet" "subnet" (Some ("s1" : str)) "10.0.0.0/24" (JObj []) "risk" None "alice" 100.
Definition sample_answers (commits : bool) (a : apply_outcome) : Answers :=
  mkAnswers true false false (PreviewReturns (mkPreview true [] "p" false None)) commits a.
Definition sample_clock : Clock := mkClock 10 11 12.
Definition sample_create : event := Create 0 (root "alice") sample_submission "p" "r1".
Definition sample_approve (commits : bool) (a : apply_outcome) : event :=
  Approve "r1" (root "bob") None None (sample_answers commits a) sample_clock.
Definition sample_world : World := world (run sample_registry [sample_create]).

Lemma trail_replays_witness :
  let c := run sample_registry [sample_create; sample_approve true (ApplyReturns JNull); Continue 0 sample_clock] in
  single_handed sample_registry c ∧ (state <$> change_request (world c) !! ("r1" : str)) = Some Executed
  ∧ replay (trail (world c) "r1") = Some Executed.
Proof.
  intros c.
  assert (Hc : single_handed sample_registry c).
  { repeat apply single_step; [apply single_init|..]; apply (bool_decide_unpack _); vm_compute; exact I. }
  assert (Hr : (state <$> change_request (world c) !! ("r1" : str)) = Some Executed) by (vm_compute; reflexivity).
  split_and!; [done|done|]. apply fmap_Some in Hr as (cr & Hl & ->). by apply (trail_replays sample_registry c Hc).
Defined.

Lemma approval_exact_witness :
  let '(answer, w') := approve_change_request sample_registry sample_world "r1" (root "bob") None None
                         (sample_answers false (ApplyReturns JNull)) sample_clock in
  answer = Ok tt ∧ ∃ cr u, settled sample_world w' "r1" (root "bob") None (sample_answers false (ApplyReturns JNull)) cr u.
Proof.
  destruct (change_request sample_world !! ("r1" : str)) as [cr|] eqn:Hl; [|exfalso; revert Hl; vm_compute; discriminate].
  assert (He : executed_at cr = None) by (revert Hl; vm_compute; by intros [= <-]).
  pose proof (approval_exact sample_registry sample_world "r1" (root "bob") None None
    (sample_answers false (ApplyReturns JNull)) sample_clock cr Hl He) as H.
  destruct (approve_change_request _ _ _ _ _ _ _ _) as [answer w'] eqn:E.
  assert (answer = Ok tt) as -> by (revert E; vm_compute; by intros [= <- _]).
  split; [done|]. destruct H as (u & _ & Hs). by exists cr, u.
Defined.

Lemma expiry_sweep_exact_witness :
  (∀ id, is_Some (change_request sample_world !! id) → 200 <= 250)
  ∧ snd (_sweep sample_world 200 (λ _, 250)) = (1, 1, 0)%nat.
Proof.
  assert (Hc : ∀ id : str, is_Some (change_request sample_world !! id) → 200 <= 250) by lia.
  split; [done|]. pose proof (expiry_sweep_exact sample_world 200 (λ _, 250) Hc) as H.
  destruct (_sweep _ _ _) as [w' counts]. destruct H as (-> & _). vm_compute. reflexivity.
Defined.

(** Two approvals by one approver at once: the first one's [apply()] failed and
    was rolled back, the second one's committed; the first takes the second's
    stamp for its own and fails the request, which the second then overwrites. *)
Example same_approver_race :
  let w := world (run sample_registry [sample_create; sample_approve false (ApplyRaises "busy"); sample_approve true (ApplyReturns JNull);
                    Continue 0 sample_clock; Continue 0 sample_clock]) in
  trail w "r1" = ["requested" : str; "approved" : str; "failed" : str; "executed" : str]
  ∧ (λ cr, (state cr, error cr)) <$> change_request w !! ("r1" : str) = Some (Executed, Some ("busy" : str))
  ∧ replay (trail w "r1") = None.
Proof. vm_compute. repeat split. Qed.

(** [apply()] committed and then denied the approver: the request stays
    approved, and neither a decision nor the sweep can end it. *)
Example denied_after_commit :
  let '(answer, w) := approve_change_request sample_registry sample_world "r1" (root "bob") None None
                        (sample_answers true ApplyDenied) sample_clock in
  answer = Err ApplyPermission ∧ state <$> change_request w !! ("r1" : str) = Some Approved ∧ length (effects w) = 1%nat
  ∧ fst (approve_change_request sample_registry w "r1" (root "carol") None None (sample_answers true (ApplyReturns JNull)) sample_clock)
    = Err (NotPending Approved)
  ∧ reject_change_request w "r1" (root "carol") None None 20 = Err (NotPending Approved)
  ∧ cancel_request Gate w "r1" (root "alice") [] None 20 = Err (NotPending Approved)
  ∧ sweep_candidates w 1000 = [].
Proof. vm_compute. repeat split. Qed.

End Approvals.
