(* ===== verification/ApprovalPolicy.v ===== *)
(** * Approval policies, the gate and the control plane

    [backend/app/services/approvals/policy.py] and [gate.py], the control
    operation of [services/ai/operations_control.py], and the endpoints that
    edit policies, the module and the lock ([api/v1/change_requests/router.py],
    [api/v1/admin/feature_modules.py]).

    The tables of the control plane are a [Plane]; the change requests are the
    world of [Approvals], and [site_step] runs both together.  [SELECT]s on the
    policies have no [ORDER BY]: a query answers some permutation of the table.
    Text is UTF-8. *)
From S2P Require Import PyStr Json Permissions TokenScopes Approvals.
Import Json Permissions TokenScopes Approvals.
#[local] Open Scope Z_scope.

Module ApprovalPolicy.

Record ApprovalPolicy := mkPolicy {
  p_id : str;
  p_name : str;
  p_resource_type : str;
  p_action : str;
  p_min_count : option Z;
  p_enabled : bool;
  p_applies_to_superadmin : bool;
  p_ttl_hours : Z;
  p_is_builtin : bool;
}.

(** ** Matching *)

(** The [WHERE] of the query. *)
Definition selected (rt action : str) (p : ApprovalPolicy) : bool :=
  p_enabled p && bool_decide (p_action p = action) && bool_decide (p_resource_type p ∈ [rt; "*" : str]).

Definition over_threshold (count : option Z) (p : ApprovalPolicy) : bool :=
  match p_min_count p, count with
  | None, _ => true
  | Some _, None => false
  | Some m, Some c => negb (c <? m)
  end.

Definition _is_stronger (candidate current : ApprovalPolicy) (rt : str) : bool :=
  let cand_exact := bool_decide (p_resource_type candidate = rt) in
  let curr_exact := bool_decide (p_resource_type current = rt) in
  if negb (Bool.eqb cand_exact curr_exact) then cand_exact
  else match p_min_count candidate, p_min_count current with
       | None, Some _ => true
       | None, None => false
       | Some _, None => false
       | Some a, Some b => a <? b
       end.

Definition consider (rt : str) (count : option Z) (best : option ApprovalPolicy) (p : ApprovalPolicy) : option ApprovalPolicy :=
  if negb (over_threshold count p) then best
  else match best with
       | None => Some p
       | Some b => if _is_stronger p b rt then Some p else best
       end.

Definition match_policy (rows : list ApprovalPolicy) (rt action : str) (count : option Z) : option ApprovalPolicy :=
  foldl (consider rt count) None (List.filter (selected rt action) rows).

(** ** The gate *)
Inductive gate_error :=
| GatePreviewDenied | GatePreviewRaises (error : str) | NotReady (detail : str) | NotCreated (e : decision_error).

(** The ids of the arguments are UUIDs: their dump is a string or null. *)
Definition id_keys : list str := ["zone_id"; "scope_id"; "subnet_id"; "block_id"; "space_id"; "group_id"].
Definition get_key (k : str) (kvs : list (str * json)) : option json :=
  snd <$> List.find (λ kv, bool_decide (fst kv = k)) kvs.
Definition text_at (data : json) (k : str) : option str :=
  match data with
  | JObj kvs => match get_key k kvs with Some (JStr s) => Some s | _ => None end
  | _ => None
  end.
Definition _resource_id_from_args (data : json) : option str := head (omap (text_at data) id_keys).

Definition HOUR : Z := 3600 * 1000000.

(** [Ok None]: the caller runs the operation inline. *)
Definition gate_or_execute (module_enabled : bool) (rows : list ApprovalPolicy) (w : World) (u : actor) (op : Operation)
    (data : json) (count : option Z) (pv : preview_outcome) (pending : nat) (now : Z) (id : str)
    : Prelude.result gate_error (option World) :=
  if negb module_enabled then Ok None
  else match required_permission op with
  | None => Ok None
  | Some (action, rt) =>
      match match_policy rows rt action count with
      | None => Ok None
      | Some policy =>
          if is_effective_superadmin (a_user u) && negb (p_applies_to_superadmin policy) then Ok None
          else match pv with
          | PreviewDenied => Err GatePreviewDenied
          | PreviewRaises e => Err (GatePreviewRaises e)
          | PreviewReturns p =>
              if negb (p_ok p) then Err (NotReady (p_detail p))
              else
                let reason := if bool_decide (p_name policy = []) then action ++ ":" ++ rt else p_name policy in
                let sub := mkSubmission Gate (op_name op) rt (_resource_id_from_args data) (take 500 (p_text p)) data
                             reason None (a_display u) (now + p_ttl_hours policy * HOUR) in
                match create_change_request w pending u sub (p_text p) id with
                | Err e => Err (NotCreated e)
                | Ok w' => Ok (Some w')
                end
          end
      end
  end.

(** ** The control plane *)
Record ControlAudit := mkControlAudit { ca_action : str; ca_type : str; ca_id : str; ca_display : str; ca_new : option json }.

(** [module_row] is the override of [governance.approvals], a module that is
    off by default and requires no other; [lock] the column
    [approvals_protect_controls] of the settings row, if there is one. *)
Record Plane := mkPlane {
  policies : list ApprovalPolicy;
  module_row : option bool;
  lock : option bool;
  control_log : list ControlAudit;
}.

Definition MODULE_ID : str := "governance.approvals".
Definition is_module_enabled (pl : Plane) : bool := default false (module_row pl).
Definition is_controls_protected (pl : Plane) : bool := default false (lock pl).

Definition _control_audit (pl : Plane) (action type id display : str) (new : option json) : Plane :=
  mkPlane (policies pl) (module_row pl) (lock pl) (control_log pl ++ [mkControlAudit action type id display new]).
Definition with_module (pl : Plane) (b : bool) : Plane := mkPlane (policies pl) (Some b) (lock pl) (control_log pl).
Definition with_lock (pl : Plane) (b : bool) : Plane := mkPlane (policies pl) (module_row pl) (Some b) (control_log pl).
Definition with_policies (pl : Plane) (ps : list ApprovalPolicy) : Plane := mkPlane ps (module_row pl) (lock pl) (control_log pl).

Definition get_policy (pl : Plane) (id : str) : option ApprovalPolicy :=
  List.find (λ p, bool_decide (p_id p = id)) (policies pl).
Definition replace_policy (pl : Plane) (p : ApprovalPolicy) : Plane :=
  with_policies pl (map (λ q, if bool_decide (p_id q = p_id p) then p else q) (policies pl)).
Definition remove_policy (pl : Plane) (id : str) : Plane :=
  with_policies pl (List.filter (λ q, negb (bool_decide (p_id q = id))) (policies pl)).

(** *** Edits: [model_dump(exclude_unset=True)], a field that was not sent is
    [None], one sent as null is [Some None] *)
Record ApprovalPolicyUpdate := mkUpdate {
  u_name : option (option str);
  u_resource_type : option (option str);
  u_action : option (option str);
  u_min_count : option (option Z);
  u_enabled : option (option bool);
  u_applies_to_superadmin : option (option bool);
  u_ttl_hours : option (option Z);
}.

Inductive coverage_diff :=
| NowDisabled | NoSuperadmin | TypeChanged (old : str) (new : option str) | ActionChanged (old : str) (new : option str)
| MinSet (new : Z) | MinRaised (old new : Z).

Definition changed (old : str) (f : option (option str)) : option (option str) :=
  match f with
  | None => None
  | Some new => if bool_decide (new = Some old) then None else Some new
  end.

Definition _coverage_reducing_diffs (p : ApprovalPolicy) (u : ApprovalPolicyUpdate) : list coverage_diff :=
  (if bool_decide (u_enabled u = Some (Some false)) && p_enabled p then [NowDisabled] else [])
  ++ (if bool_decide (u_applies_to_superadmin u = Some (Some false)) && p_applies_to_superadmin p then [NoSuperadmin] else [])
  ++ match changed (p_resource_type p) (u_resource_type u) with Some new => [TypeChanged (p_resource_type p) new] | None => [] end
  ++ match changed (p_action p) (u_action u) with Some new => [ActionChanged (p_action p) new] | None => [] end
  ++ match u_min_count u with
     | Some (Some new) =>
         match p_min_count p with
         | None => [MinSet new]
         | Some old => if old <? new then [MinRaised old new] else []
         end
     | _ => []
     end.

(** [setattr] of every field that was sent; a null in a column that is not
    nullable is refused by the database. *)
Definition set_column {A} (f : option (option A)) (old : A) : option A :=
  match f with None => Some old | Some v => v end.

Definition set_fields (p : ApprovalPolicy) (u : ApprovalPolicyUpdate) : option ApprovalPolicy :=
  name ← set_column (u_name u) (p_name p);
  rt ← set_column (u_resource_type u) (p_resource_type p);
  action ← set_column (u_action u) (p_action p);
  enabled ← set_column (u_enabled u) (p_enabled p);
  applies ← set_column (u_applies_to_superadmin u) (p_applies_to_superadmin p);
  ttl ← set_column (u_ttl_hours u) (p_ttl_hours p);
  Some (mkPolicy (p_id p) name rt action (default (p_min_count p) (u_min_count u)) enabled applies ttl (p_is_builtin p)).

Definition field {A} (k : str) (enc : A → json) (f : option (option A)) : list (str * json) :=
  match f with None => [] | Some v => [(k, from_option enc JNull v)] end.
Definition update_items (u : ApprovalPolicyUpdate) : list (str * json) :=
  field "name" JStr (u_name u) ++ field "resource_type" JStr (u_resource_type u) ++ field "action" JStr (u_action u)
  ++ field "min_count" JInt (u_min_count u) ++ field "enabled" JBool (u_enabled u)
  ++ field "applies_to_superadmin" JBool (u_applies_to_superadmin u) ++ field "ttl_hours" JInt (u_ttl_hours u).

(** *** [modify_approval_control] *)
Inductive ControlKind := DisableModule | DisablePolicy | DeletePolicy | LowerSuperadminGate | Unlock | UpdatePolicy.
#[export] Instance ControlKind_eq_dec : EqDecision ControlKind.
Proof. solve_decision. Defined.

Definition kind_text (k : ControlKind) : str :=
  match k with
  | DisableModule => "disable_module" | DisablePolicy => "disable_policy" | DeletePolicy => "delete_policy"
  | LowerSuperadminGate => "lower_superadmin_gate" | Unlock => "unlock" | UpdatePolicy => "update_policy"
  end.

Record ModifyApprovalControlArgs := mkArgs {
  kind : ControlKind; policy_id : option str; update_payload : option ApprovalPolicyUpdate }.

(** [model_dump(mode="json")], and [model_validate] of what it froze. *)
Definition dump_args (a : ModifyApprovalControlArgs) : json :=
  JObj [("kind" : str, JStr (kind_text (kind a))); ("policy_id" : str, text_or_null (policy_id a));
        ("update_payload" : str, from_option (λ u, JObj (update_items u)) JNull (update_payload a))].

Definition kinds : list ControlKind := [DisableModule; DisablePolicy; DeletePolicy; LowerSuperadminGate; Unlock; UpdatePolicy].
Definition load_field {A} (dec : json → option A) (k : str) (kvs : list (str * json)) : option (option (option A)) :=
  match get_key k kvs with
  | None => Some None
  | Some JNull => Some (Some None)
  | Some v => x ← dec v; Some (Some (Some x))
  end.
Definition as_text (v : json) : option str := match v with JStr s => Some s | _ => None end.
Definition as_int (v : json) : option Z := match v with JInt z => Some z | _ => None end.
Definition as_bool (v : json) : option bool := match v with JBool b => Some b | _ => None end.

Definition load_update (kvs : list (str * json)) : option ApprovalPolicyUpdate :=
  name ← load_field as_text "name" kvs; rt ← load_field as_text "resource_type" kvs; action ← load_field as_text "action" kvs;
  mc ← load_field as_int "min_count" kvs; en ← load_field as_bool "enabled" kvs;
  sa ← load_field as_bool "applies_to_superadmin" kvs; ttl ← load_field as_int "ttl_hours" kvs;
  Some (mkUpdate name rt action mc en sa ttl).

Definition load_args (v : json) : option ModifyApprovalControlArgs :=
  match v with
  | JObj kvs =>
      k ← get_key "kind" kvs ≫= as_text;
      k ← List.find (λ x, bool_decide (kind_text x = k)) kinds;
      id ← load_field as_text "policy_id" kvs;
      payload ← match get_key "update_payload" kvs with
                | None | Some JNull => Some None
                | Some (JObj u) => Some <$> load_update u
                | Some _ => None
                end;
      Some (mkArgs k (default None id) payload)
  | _ => None
  end.

Definition no_update : ApprovalPolicyUpdate := mkUpdate None None None None None None None.
Definition payload_of (a : ModifyApprovalControlArgs) : ApprovalPolicyUpdate := default no_update (update_payload a).

(** [repr] of a string, for printable ASCII. *)
Definition APOS : ascii := ascii_of_nat 39.
Definition repr (s : str) : str :=
  let q := if contains APOS s && negb (contains QUOTE s) then QUOTE else APOS in
  q :: mjoin (map (λ c, if chr_is q c || chr_is "\" c then ["\"%char; c] else [c]) s) ++ [q].
Definition repr_opt (o : option str) : str := from_option repr "None" o.

Definition diff_text (d : coverage_diff) : str :=
  match d with
  | NowDisabled => "disabled (enabled true→false)"
  | NoSuperadmin => "no longer applies to superadmins"
  | TypeChanged old new => "resource_type " ++ repr old ++ "→" ++ repr_opt new
  | ActionChanged old new => "action " ++ repr old ++ "→" ++ repr_opt new
  | MinSet new => "min_count NULL→" ++ str_of_Z new ++ " (was always-gate)"
  | MinRaised old new => "min_count " ++ str_of_Z old ++ "→" ++ str_of_Z new ++ " (gates fewer ops)"
  end.

Definition refuses (detail : str) : PreviewResult := mkPreview false detail [] false None.
Definition ready (text : str) : PreviewResult := mkPreview true "ready" text false None.
Definition already (detail text : str) : PreviewResult := mkPreview true detail text true None.
Definition tick (s : str) : str := "`" ++ s ++ "`".

Definition _preview_modify_approval_control (pl : Plane) (a : ModifyApprovalControlArgs) : PreviewResult :=
  match kind a with
  | DisableModule =>
      let text : str := "Disable approval workflows entirely" in
      if negb (is_module_enabled pl) then already "Approval workflows are already disabled." text else ready text
  | Unlock =>
      let text : str := "Remove the require-approval-to-disable lock" in
      if negb (is_controls_protected pl) then already "The require-approval-to-disable lock is already off." text else ready text
  | k =>
      match policy_id a with
      | None => refuses (kind_text k ++ " requires a policy_id.")
      | Some pid =>
          match get_policy pl pid with
          | None =>
              if bool_decide (k = DeletePolicy)
              then already ("Approval policy " ++ pid ++ " is already gone.") "Delete approval policy"
              else refuses ("Approval policy " ++ pid ++ " not found.")
          | Some p =>
              match k with
              | DisablePolicy =>
                  let text := "Disable approval policy " ++ tick (p_name p) in
                  if negb (p_enabled p) then already ("Policy " ++ repr (p_name p) ++ " is already disabled.") text else ready text
              | DeletePolicy =>
                  if p_is_builtin p then refuses "Built-in policies cannot be deleted — disable them instead."
                  else ready ("Delete approval policy " ++ tick (p_name p))
              | LowerSuperadminGate =>
                  let text := "Stop policy " ++ tick (p_name p) ++ " applying to superadmins" in
                  if negb (p_applies_to_superadmin p)
                  then already ("Policy " ++ repr (p_name p) ++ " already does not apply to superadmins.") text else ready text
              | _ =>
                  let text := "Weaken approval policy " ++ tick (p_name p) in
                  match _coverage_reducing_diffs p (payload_of a) with
                  | [] => already ("Policy " ++ repr (p_name p)
                            ++ " edit no longer reduces coverage (already applied or the policy changed).") text
                  | diffs => ready (text ++ " — coverage-reducing edit: " ++ join "; " (map diff_text diffs))
                  end
              end
          end
      end
  end.

Definition set_enabled (p : ApprovalPolicy) (b : bool) : ApprovalPolicy :=
  mkPolicy (p_id p) (p_name p) (p_resource_type p) (p_action p) (p_min_count p) b (p_applies_to_superadmin p) (p_ttl_hours p) (p_is_builtin p).
Definition set_applies (p : ApprovalPolicy) (b : bool) : ApprovalPolicy :=
  mkPolicy (p_id p) (p_name p) (p_resource_type p) (p_action p) (p_min_count p) (p_enabled p) b (p_ttl_hours p) (p_is_builtin p).

Definition via (items : list (str * json)) : option json := Some (JObj (items ++ [("via" : str, JStr "approval_control")])).
Definition kind_item (k : ControlKind) : str * json := ("kind" : str, JStr (kind_text k)).

(** [Err]: it raised before its commit. *)
Definition _apply_modify_approval_control (pl : Plane) (a : ModifyApprovalControlArgs) : Prelude.result str (Plane * json) :=
  match kind a with
  | DisableModule =>
      Ok (_control_audit (with_module pl false) "update" "feature_module" MODULE_ID "Approval workflows"
            (via [("enabled" : str, JBool false)]),
          JObj [kind_item (kind a); ("module" : str, JStr MODULE_ID); ("enabled" : str, JBool false)])
  | Unlock =>
      if negb (is_controls_protected pl)
      then Ok (pl, JObj [kind_item (kind a); ("approvals_protect_controls" : str, JBool false); ("idempotent" : str, JBool true)])
      else Ok (_control_audit (with_lock pl false) "update" "platform_settings" "approvals_protect_controls"
                 "Approval self-protection lock" (via [("approvals_protect_controls" : str, JBool false)]),
               JObj [kind_item (kind a); ("approvals_protect_controls" : str, JBool false)])
  | k =>
      match policy_id a with
      | None => Err (kind_text k ++ " requires a policy_id.")
      | Some pid =>
          match get_policy pl pid with
          | None => Ok (pl, JObj [kind_item k; ("policy_id" : str, JStr pid); ("idempotent" : str, JBool true)])
          | Some p =>
              let done pl' action new :=
                Ok (_control_audit pl' action "approval_policy" pid (p_name p) (via new),
                    JObj [kind_item k; ("policy_id" : str, JStr pid)]) in
              match k with
              | DisablePolicy => done (replace_policy pl (set_enabled p false)) "write" [("enabled" : str, JBool false)]
              | LowerSuperadminGate =>
                  done (replace_policy pl (set_applies p false)) "write" [("applies_to_superadmin" : str, JBool false)]
              | DeletePolicy =>
                  if p_is_builtin p then Err ("Built-in policies cannot be deleted — disable them instead." : str)
                  else done (remove_policy pl pid) "delete" [("deleted" : str, JBool true)]
              | _ =>
                  match set_fields p (payload_of a) with
                  | None => Err ("null value violates not-null constraint" : str)
                  | Some p' => done (replace_policy pl p') "write" (update_items (payload_of a))
                  end
              end
          end
      end
  end.

Definition control_gate_premise_lost (pl : Plane) (a : ModifyApprovalControlArgs) : bool :=
  if bool_decide (kind a = Unlock) then false else negb (is_controls_protected pl).

(** What the operation answers the spine. *)
Definition control_answers (pl : Plane) (args : json) : Answers :=
  match load_args args with
  | None => mkAnswers false false false PreviewDenied false ApplyDenied
  | Some a =>
      let applied := _apply_modify_approval_control pl a in
      mkAnswers true true (control_gate_premise_lost pl a) (PreviewReturns (_preview_modify_approval_control pl a))
        (match applied with Ok _ => true | Err _ => false end)
        (match applied with Ok (_, r) => ApplyReturns r | Err e => ApplyRaises e end)
  end.

(** ** The endpoints *)
Inductive endpoint_error :=
| NotSuperadmin | PolicyNotFound | NotGateable | BuiltinPolicy | Moot (detail : str) | QueueRefused (e : decision_error) | IntegrityError.

Definition CONTROL_OPERATION : str := "modify_approval_control".

(** [Ok None]: the lock is off, go on inline. *)
Definition maybe_gate_control (pl : Plane) (w : World) (u : actor) (a : ModifyApprovalControlArgs) (rt : str) (rid : option str)
    (display : str) (pending : nat) (now : Z) (id : str) : Prelude.result endpoint_error (option World) :=
  if negb (is_controls_protected pl) then Ok None
  else
    let p := _preview_modify_approval_control pl a in
    _ ← raise_if (negb (p_ok p)) (Moot (p_detail p));
    let sub := mkSubmission Gate CONTROL_OPERATION rt rid display (dump_args a) "approvals self-protection lock" None
                 (a_display u) (now + 168 * HOUR) in
    match create_change_request w pending u sub (p_text p) id with
    | Err e => Err (QueueRefused e)
    | Ok w' => Ok (Some w')
    end.

(** The tables the endpoints write. *)
Record Site := mkSite { plane : Plane; config : Config }.
Definition queue (s : Site) (w : World) : Site := mkSite (plane s) (mkConfig w (sessions (config s))).
Definition inline (s : Site) (pl : Plane) : Site := mkSite pl (config s).

Definition GATEABLE_ACTIONS : list str := ["delete"; "admin"].
Definition GATEABLE_RESOURCE_TYPES : list str :=
  ["subnet"; "ip_block"; "ip_space"; "dns_zone"; "dhcp_scope"; "dhcp_server_group"; "manage_block_sync"].
Definition RISKY_OPERATION_NAMES : list str :=
  ["delete_subnet"; "delete_block"; "delete_space"; "delete_zone"; "delete_scope"; "delete_group"; "create_network_block"].

Section registry.
Context (get_operation : str → option Operation).

Definition gateable_pairs : list (str * str) := omap (λ n, get_operation n ≫= required_permission) RISKY_OPERATION_NAMES.

Definition _validate_gateable (action rt : option str) : bool :=
  from_option (λ a, bool_decide (a ∈ GATEABLE_ACTIONS)) true action
  && from_option (λ t, bool_decide (t ∈ GATEABLE_RESOURCE_TYPES)) true rt
  && match action, rt with Some a, Some t => bool_decide ((a, t) ∈ gateable_pairs) | _, _ => true end.

Definition create_policy (s : Site) (u : actor) (body : ApprovalPolicy) : Prelude.result endpoint_error Site :=
  _ ← raise_if (negb (is_effective_superadmin (a_user u))) NotSuperadmin;
  _ ← raise_if (negb (_validate_gateable (Some (p_action body)) (Some (p_resource_type body)))) NotGateable;
  _ ← raise_if (bool_decide (is_Some (get_policy (plane s) (p_id body)))) IntegrityError;
  let p := mkPolicy (p_id body) (p_name body) (p_resource_type body) (p_action body) (p_min_count body) (p_enabled body)
             (p_applies_to_superadmin body) (p_ttl_hours body) false in
  let pl := with_policies (plane s) (policies (plane s) ++ [p]) in
  Ok (inline s (_control_audit pl "write" "approval_policy" (p_id p) (p_name p)
        (Some (JObj [("resource_type" : str, JStr (p_resource_type p)); ("action" : str, JStr (p_action p));
                     ("min_count" : str, from_option JInt JNull (p_min_count p)); ("enabled" : str, JBool (p_enabled p))])))).

(** [pending], [now] and [id] as in [create_change_request]. *)
Definition gate_control (s : Site) (u : actor) (a : ModifyApprovalControlArgs) (rt rid display : str) (pending : nat) (now : Z) (id : str)
    : Prelude.result endpoint_error (option Site) :=
  match maybe_gate_control (plane s) (world (config s)) u a rt (Some rid) display pending now id with
  | Err e => Err e
  | Ok r => Ok (queue s <$> r)
  end.

Definition update_policy (s : Site) (u : actor) (pid : str) (changes : ApprovalPolicyUpdate) (pending : nat) (now : Z) (id : str)
    : Prelude.result endpoint_error Site :=
  _ ← raise_if (negb (is_effective_superadmin (a_user u))) NotSuperadmin;
  match get_policy (plane s) pid with
  | None => Err PolicyNotFound
  | Some p =>
      _ ← raise_if (negb (_validate_gateable (default (Some (p_action p)) (u_action changes))
                            (default (Some (p_resource_type p)) (u_resource_type changes)))) NotGateable;
      gated ← (if is_controls_protected (plane s) && negb (bool_decide (length (_coverage_reducing_diffs p changes) = 0%nat))
               then gate_control s u (mkArgs UpdatePolicy (Some pid) (Some changes)) "approval_policy" pid (p_name p) pending now id
               else Ok None);
      match gated with
      | Some s' => Ok s'
      | None =>
          match set_fields p changes with
          | None => Err IntegrityError
          | Some p' =>
              Ok (inline s (_control_audit (replace_policy (plane s) p') "write" "approval_policy" pid (p_name p')
                    (Some (JObj (update_items changes)))))
          end
      end
  end.

Definition delete_policy (s : Site) (u : actor) (pid : str) (pending : nat) (now : Z) (id : str) : Prelude.result endpoint_error Site :=
  _ ← raise_if (negb (is_effective_superadmin (a_user u))) NotSuperadmin;
  match get_policy (plane s) pid with
  | None => Err PolicyNotFound
  | Some p =>
      _ ← raise_if (p_is_builtin p) BuiltinPolicy;
      gated ← (if is_controls_protected (plane s)
               then gate_control s u (mkArgs DeletePolicy (Some pid) None) "approval_policy" pid (p_name p) pending now id
               else Ok None);
      match gated with
      | Some s' => Ok s'
      | None => Ok (inline s (_control_audit (remove_policy (plane s) pid) "delete" "approval_policy" pid (p_name p) None))
      end
  end.

Definition turn_lock_on (pl : Plane) : Plane :=
  if is_controls_protected pl then pl
  else _control_audit (with_lock pl true) "update" "platform_settings" "approvals_protect_controls"
         "Approval self-protection lock" (Some (JObj [("approvals_protect_controls" : str, JBool true)])).

(** [toggle_feature_module] for [governance.approvals]. *)
Definition toggle_approvals_module (s : Site) (u : actor) (enabled protect_controls : bool) (pending : nat) (now : Z) (id : str)
    : Prelude.result endpoint_error Site :=
  _ ← raise_if (negb (is_effective_superadmin (a_user u))) NotSuperadmin;
  gated ← (if enabled then Ok None
           else gate_control s u (mkArgs DisableModule None None) "feature_module" MODULE_ID "Approval workflows" pending now id);
  match gated with
  | Some s' => Ok s'
  | None =>
      let pl := _control_audit (with_module (plane s) enabled) "update" "feature_module" MODULE_ID "Approval workflows"
                  (Some (JObj [("enabled" : str, JBool enabled)])) in
      Ok (inline s (if enabled && protect_controls then turn_lock_on pl else pl))
  end.

Definition set_approvals_lock (s : Site) (u : actor) (enabled : bool) (pending : nat) (now : Z) (id : str)
    : Prelude.result endpoint_error Site :=
  _ ← raise_if (negb (is_effective_superadmin (a_user u))) NotSuperadmin;
  if enabled then Ok (inline s (turn_lock_on (plane s)))
  else
    gated ← gate_control s u (mkArgs Unlock None None) "platform_settings" "approvals_protect_controls"
              "Approval self-protection lock" pending now id;
    Ok (default s gated).

(** [break_glass], past the phrase and the step-up. *)
Definition break_glass (s : Site) (u : actor) (k : ControlKind) (pid : option str) : Prelude.result endpoint_error Site :=
  _ ← raise_if (negb (is_effective_superadmin (a_user u))) NotSuperadmin;
  let a := mkArgs k pid None in
  let p := _preview_modify_approval_control (plane s) a in
  let log more := _control_audit (plane s) "approvals.break_glass" "approval_control" (kind_text k) ("Break-glass: " ++ kind_text k)
                    (Some (JObj ([kind_item k; ("policy_id" : str, text_or_null pid)] ++ more))) in
  if negb (p_ok p) then Err (Moot (p_detail p))
  else if p_idempotent p then Ok (inline s (log [("idempotent" : str, JBool true); ("detail" : str, JStr (p_detail p))]))
  else match _apply_modify_approval_control (log []) a with
       | Err _ => Ok (inline s (log []))
       | Ok (pl, _) => Ok (inline s pl)
       end.

(** ** Everything together *)
Inductive site_event :=
| EvCreatePolicy (u : actor) (body : ApprovalPolicy)
| EvUpdatePolicy (u : actor) (pid : str) (changes : ApprovalPolicyUpdate) (pending : nat) (now : Z) (id : str)
| EvDeletePolicy (u : actor) (pid : str) (pending : nat) (now : Z) (id : str)
| EvToggle (u : actor) (enabled protect_controls : bool) (pending : nat) (now : Z) (id : str)
| EvLock (u : actor) (enabled : bool) (pending : nat) (now : Z) (id : str)
| EvBreakGlass (u : actor) (k : ControlKind) (pid : option str)
| EvSpine (ev : event).

Definition is_control (w : World) (id : str) : bool :=
  from_option (λ cr, needs_superadmin (operation (submission cr))) false (change_request w !! id).

(** An approval of a control request asks the operation, whose [apply()] writes
    the plane when the spine gets that far; only the endpoints submit one. *)
Definition spine_step (s : Site) (ev : event) : Site :=
  let w := world (config s) in
  match ev with
  | Create _ _ sub _ _ => if needs_superadmin (operation sub) then s else mkSite (plane s) (step get_operation (config s) ev)
  | Approve id a request note _ clock =>
      match change_request w !! id with
      | Some cr =>
          if needs_superadmin (operation (submission cr)) then
            let args := args (submission cr) in
            let c' := step get_operation (config s) (Approve id a request note (control_answers (plane s) args) clock) in
            let applied := negb (bool_decide (length (effects (world c')) = length (effects w))) in
            mkSite (if applied
                    then match load_args args with
                         | Some x => match _apply_modify_approval_control (plane s) x with Ok (pl, _) => pl | Err _ => plane s end
                         | None => plane s
                         end
                    else plane s) c'
          else mkSite (plane s) (step get_operation (config s) ev)
      | None => mkSite (plane s) (step get_operation (config s) ev)
      end
  | _ => mkSite (plane s) (step get_operation (config s) ev)
  end.

Definition or_site (s : Site) (r : Prelude.result endpoint_error Site) : Site := match r with Ok s' => s' | Err _ => s end.

Definition site_step (s : Site) (ev : site_event) : Site :=
  match ev with
  | EvCreatePolicy u body => or_site s (create_policy s u body)
  | EvUpdatePolicy u pid changes pending now id => or_site s (update_policy s u pid changes pending now id)
  | EvDeletePolicy u pid pending now id => or_site s (delete_policy s u pid pending now id)
  | EvToggle u enabled protect pending now id => or_site s (toggle_approvals_module s u enabled protect pending now id)
  | EvLock u enabled pending now id => or_site s (set_approvals_lock s u enabled pending now id)
  | EvBreakGlass u k pid => or_site s (break_glass s u k pid)
  | EvSpine ev => spine_step s ev
  end.
Definition site_run (s : Site) (evs : list site_event) : Site := foldl site_step s evs.
End registry.

(** ** The strongest policy *)
Definition applicable (rt action : str) (count : option Z) (p : ApprovalPolicy) : bool :=
  selected rt action p && over_threshold count p.

Lemma stronger_trans rt a b c : _is_stronger a b rt = true → _is_stronger b c rt = true → _is_stronger a c rt = true.
Proof.
  unfold _is_stronger. do 3 case_bool_decide; simpl; try done; destruct (p_min_count a), (p_min_count b), (p_min_count c);
    simpl; rewrite ?Z.ltb_lt; try done; lia.
Qed.

Lemma stronger_neg_trans rt a b c : _is_stronger a b rt = false → _is_stronger b c rt = false → _is_stronger a c rt = false.
Proof.
  unfold _is_stronger. do 3 case_bool_decide; simpl; try done; destruct (p_min_count a), (p_min_count b), (p_min_count c);
    simpl; rewrite ?Z.ltb_ge; try done; lia.
Qed.

Lemma stronger_irrefl rt a : _is_stronger a a rt = false.
Proof. unfold _is_stronger. case_bool_decide; simpl; destruct (p_min_count a); simpl; rewrite ?Z.ltb_ge; done || lia. Qed.

Lemma stronger_asym rt a b : _is_stronger a b rt = true → _is_stronger b a rt = false.
Proof.
  intros Hab. destruct (_is_stronger b a rt) eqn:Hba; [|done].
  by rewrite <- (stronger_irrefl rt a), (stronger_trans rt a b a).
Qed.

(** Exact before wildcard, then the lower threshold; none is the lowest. *)
Definition outranks (rt : str) (p q : ApprovalPolicy) : Prop :=
  p_resource_type p = rt ∧ p_resource_type q ≠ rt
  ∨ (p_resource_type p = rt ↔ p_resource_type q = rt)
    ∧ ∃ n, p_min_count q = Some n ∧ ∀ m, p_min_count p = Some m → m < n.

Lemma stronger_outranks rt p q : _is_stronger p q rt = true ↔ outranks rt p q.
Proof.
  assert (Hc : (match p_min_count p, p_min_count q with None, Some _ => true | None, None => false | Some _, None => false
                | Some a, Some b => a <? b end) = true ↔ ∃ n, p_min_count q = Some n ∧ ∀ m, p_min_count p = Some m → m < n).
  { destruct (p_min_count p) as [a|], (p_min_count q) as [b|]; rewrite ?Z.ltb_lt; naive_solver. }
  unfold _is_stronger, outranks. do 2 case_bool_decide; simpl; rewrite ?Hc; naive_solver.
Qed.

Lemma not_stronger rt p q : _is_stronger p q rt = false ↔ ¬ outranks rt p q.
Proof. rewrite <- stronger_outranks. by destruct (_is_stronger p q rt). Qed.

(** [b] is the policy of [rows] a scan from the front keeps. *)
Definition first_strongest (rt action : str) (count : option Z) (rows : list ApprovalPolicy) (b : ApprovalPolicy) : Prop :=
  ∃ before after, rows = before ++ b :: after ∧ applicable rt action count b = true
  ∧ (∀ p, p ∈ rows → applicable rt action count p = true → ¬ outranks rt p b)
  ∧ (∀ p, p ∈ before → applicable rt action count p = true → outranks rt b p).

Definition scan_result (rt action : str) (count : option Z) (rows : list ApprovalPolicy) (b : ApprovalPolicy) : Prop :=
  ∃ before after, rows = before ++ b :: after ∧ applicable rt action count b = true
  ∧ (∀ p, p ∈ rows → applicable rt action count p = true → _is_stronger p b rt = false)
  ∧ (∀ p, p ∈ before → applicable rt action count p = true → _is_stronger b p rt = true).

Lemma scan_strongest rt action count rows :
  match foldl (consider rt count) None (List.filter (selected rt action) rows) with
  | None => ∀ p, p ∈ rows → applicable rt action count p = false
  | Some b => scan_result rt action count rows b
  end.
Proof.
  induction rows as [|p rows IH] using rev_ind; simpl; [by intros p ?%not_elem_of_nil|].
  rewrite List.filter_app, foldl_app. revert IH. set (best := foldl _ _ _). simpl. intros IH.
  assert (Hskip : applicable rt action count p = false →
    match best with
    | None => ∀ q, q ∈ rows ++ [p] → applicable rt action count q = false
    | Some b => scan_result rt action count (rows ++ [p]) b
    end).
  { intros Hp. destruct best as [b|].
    - destruct IH as (before & after & -> & Hb & Hs & Hf). exists before, (after ++ [p]).
      split_and!; [by rewrite <- app_assoc|done| |done].
      intros q [Hq|Hq]%elem_of_app Ha; [by apply Hs|]. apply list_elem_of_singleton in Hq as ->. congruence.
    - intros q [Hq|Hq]%elem_of_app; [by apply IH|]. by apply list_elem_of_singleton in Hq as ->. }
  unfold applicable in Hskip. destruct (selected rt action p) eqn:Hsel; simpl in *; [|by apply Hskip].
  unfold consider at 1. destruct (over_threshold count p) eqn:Ho; simpl in *; [|by apply Hskip].
  assert (Hp : applicable rt action count p = true) by (unfold applicable; by rewrite Hsel, Ho).
  destruct best as [b|]; [destruct IH as (before & after & -> & Hb & Hs & Hf); destruct (_is_stronger p b rt) eqn:Hst|].
  - exists (before ++ b :: after), []. split_and!; [done|done| |].
    + intros q [Hq|Hq]%elem_of_app Ha; [|apply list_elem_of_singleton in Hq as ->; apply stronger_irrefl].
      apply (stronger_neg_trans rt q b p); [by apply Hs|by apply stronger_asym].
    + intros q Hq Ha. destruct (_is_stronger p q rt) eqn:Hpq; [done|].
      by rewrite <- Hst, (stronger_neg_trans rt p q b) by auto.
  - exists before, (after ++ [p]). split_and!; [by rewrite <- app_assoc|done| |done].
    intros q [Hq|Hq]%elem_of_app Ha; [by apply Hs|]. by apply list_elem_of_singleton in Hq as ->.
  - exists rows, []. split_and!; [done|done| |].
    + intros q [Hq|Hq]%elem_of_app Ha; [by rewrite IH in Ha|apply list_elem_of_singleton in Hq as ->; apply stronger_irrefl].
    + intros q Hq Ha. by rewrite IH in Ha.
Qed.

(** Policy matching returns nothing exactly when no enabled policy of
    the operation reaches its threshold, and otherwise the strongest one: exact
    before wildcard, then the lower threshold; of equals, the first row the
    query returned. *)
Theorem match_policy_strongest rows rt action count :
  match match_policy rows rt action count with
  | None => ∀ p, p ∈ rows → applicable rt action count p = false
  | Some b => first_strongest rt action count rows b
  end.
Proof.
  pose proof (scan_strongest rt action count rows) as H. unfold match_policy. destruct (foldl _ _ _) as [b|]; [|done].
  destruct H as (before & after & -> & Hb & Hs & Hf). exists before, after. split_and!; [done|done| |].
  - intros p Hp Ha. by apply not_stronger, Hs.
  - intros p Hp Ha. by apply stronger_outranks, Hf.
Qed.

Definition covered (rows : list ApprovalPolicy) (rt action : str) (count : option Z) : Prop :=
  ∃ p, p ∈ rows ∧ applicable rt action count p = true.

Lemma match_policy_covered rows rt action count : match_policy rows rt action count ≠ None ↔ covered rows rt action count.
Proof.
  pose proof (scan_strongest rt action count rows) as H. unfold match_policy. destruct (foldl _ _ _) as [b|].
  - split; [|done]. intros _. destruct H as (before & after & -> & Hb & _). exists b. split; [|done].
    apply elem_of_app. right. by left.
  - split; [done|]. intros (p & Hp & Ha). by rewrite H in Ha.
Qed.

(** ** The stored arguments *)
Lemma load_update_items u : load_update (update_items u) = Some u.
Proof. destruct u as [[[]|] [[]|] [[]|] [[]|] [[]|] [[]|] [[]|]]; reflexivity. Qed.

(** The arguments a control request froze are the arguments its approval
    reads back: which change, on which policy, and every field of the edit,
    unset, null or given. *)
Theorem load_dump_args a : load_args (dump_args a) = Some a.
Proof.
  destruct a as [k [id|] [u|]]; unfold load_args, dump_args; destruct k; simpl; rewrite ?load_update_items; reflexivity.
Qed.

(** ** The control operation *)
Lemma get_policy_id pl pid p : get_policy pl pid = Some p → p_id p = pid ∧ p ∈ policies pl.
Proof. intros [Hin Hid%bool_decide_eq_true]%find_some. by apply list_elem_of_In in Hin. Qed.

Lemma get_replaced pl pid p p' : get_policy pl pid = Some p → p_id p' = pid → get_policy (replace_policy pl p') pid = Some p'.
Proof.
  intros Hg <-. unfold get_policy, replace_policy in *. simpl. induction (policies pl) as [|q l IH]; simpl in *; [done|].
  destruct (bool_decide (p_id q = p_id p')) eqn:E; simpl; [by rewrite bool_decide_true|]. rewrite E. by apply IH.
Qed.

Lemma get_removed pl pid : get_policy (remove_policy pl pid) pid = None.
Proof.
  unfold get_policy, remove_policy. simpl. induction (policies pl) as [|q l IH]; simpl; [done|].
  destruct (bool_decide (p_id q = pid)) eqn:E; simpl; [done|]. by rewrite E.
Qed.

Lemma set_fields_inv p u p' : set_fields p u = Some p' →
  p_id p' = p_id p ∧ p_is_builtin p' = p_is_builtin p ∧ set_column (u_resource_type u) (p_resource_type p) = Some (p_resource_type p')
  ∧ set_column (u_action u) (p_action p) = Some (p_action p') ∧ set_column (u_enabled u) (p_enabled p) = Some (p_enabled p')
  ∧ set_column (u_applies_to_superadmin u) (p_applies_to_superadmin p) = Some (p_applies_to_superadmin p')
  ∧ p_min_count p' = default (p_min_count p) (u_min_count u).
Proof.
  unfold set_fields. destruct (set_column (u_name u) _); simpl; [|done]. destruct (set_column (u_resource_type u) _); simpl; [|done].
  destruct (set_column (u_action u) _); simpl; [|done]. destruct (set_column (u_enabled u) _); simpl; [|done].
  destruct (set_column (u_applies_to_superadmin u) _); simpl; [|done]. destruct (set_column (u_ttl_hours u) _); simpl; [|done].
  intros [= <-]. done.
Qed.

Lemma changed_set old f new : set_column f old = Some new → changed new f = None.
Proof. destruct f as [[v|]|]; simpl; [|done|done]. intros [= ->]. by rewrite bool_decide_true. Qed.

Lemma cleared_set f old new : set_column f old = Some new → bool_decide (f = Some (Some false)) && new = false.
Proof. intros H. case_bool_decide as E; [|done]. subst f. simpl in *. congruence. Qed.

(** Replaying an edit leaves nothing of it to do. *)
Lemma replayed_no_diffs p u p' : set_fields p u = Some p' → _coverage_reducing_diffs p' u = [].
Proof.
  intros (_ & _ & Ht & Ha & He & Hs & Hm)%set_fields_inv. unfold _coverage_reducing_diffs.
  rewrite (changed_set _ _ _ Ht), (changed_set _ _ _ Ha), (cleared_set _ _ _ He), (cleared_set _ _ _ Hs), Hm.
  destruct (u_min_count u) as [[m|]|]; simpl; [by rewrite Z.ltb_irrefl|done|done].
Qed.

(** A control change the preview lets through can be applied once: after
    [apply()] the same preview says there is nothing left to do; only an edit
    that nulls a required column is refused, and then nothing was written. *)
Theorem control_change_settles pl a : p_ok (_preview_modify_approval_control pl a) = true →
  match _apply_modify_approval_control pl a with
  | Ok (pl', _) =>
      let p := _preview_modify_approval_control pl' a in p_ok p = true ∧ p_idempotent p = true
  | Err _ => kind a = UpdatePolicy ∧ ∃ pid p, policy_id a = Some pid ∧ get_policy pl pid = Some p ∧ set_fields p (payload_of a) = None
  end.
Proof.
  unfold _preview_modify_approval_control, _apply_modify_approval_control.
  destruct a as [k [pid|] u]; destruct k; simpl; try done;
    try (by destruct (is_controls_protected pl) eqn:E; simpl; rewrite ?E); 
    destruct (get_policy pl pid) as [p|] eqn:Hg; simpl; try done;
    try (destruct (get_policy_id _ _ _ Hg) as [Hid _]).
  - intros _. unfold get_policy in *. simpl.
    pose proof (get_replaced pl pid p (set_enabled p false) Hg Hid) as Hr. unfold get_policy, replace_policy in Hr. simpl in Hr.
    by rewrite Hr.
  - destruct (p_is_builtin p); simpl; [done|]. intros _. pose proof (get_removed pl pid) as Hr.
    unfold get_policy, remove_policy in *. simpl in *. by rewrite Hr.
  - by rewrite Hg.
  - intros _. pose proof (get_replaced pl pid p (set_applies p false) Hg Hid) as Hr. unfold get_policy, replace_policy in Hr.
    unfold get_policy. simpl in *. by rewrite Hr.
  - intros _. destruct (set_fields p _) as [p'|] eqn:Hf; [|split; [done|]; by exists pid, p].
    destruct (set_fields_inv _ _ _ Hf) as [Hid' _].
    pose proof (get_replaced pl pid p p' Hg (eq_trans Hid' Hid)) as Hr. unfold get_policy, replace_policy in *. simpl in *.
    rewrite Hr, (replayed_no_diffs _ _ _ Hf). done.
Qed.

(** ** What one person can do while the lock is on *)
Record guarded (pl : Plane) : Prop := {
  gu_lock : is_controls_protected pl = true;
  gu_module : is_module_enabled pl = true;
  gu_key : NoDup (map p_id (policies pl));
}.

(** [pl'] still guards what [pl] guarded. *)
Definition keeps_guard (pl pl' : Plane) : Prop :=
  guarded pl' ∧ ∀ rt action count, covered (policies pl) rt action count → covered (policies pl') rt action count.

Lemma keeps_guard_trans pl1 pl2 pl3 : keeps_guard pl1 pl2 → (guarded pl2 → keeps_guard pl2 pl3) → keeps_guard pl1 pl3.
Proof. intros [G1 C1] H. destruct (H G1) as [G2 C2]. split; [done|]. auto. Qed.

Lemma keeps_guard_audit pl pl' a t i d n : keeps_guard pl pl' → keeps_guard pl (_control_audit pl' a t i d n).
Proof. intros [[] ?]. by split; [split|]. Qed.

(** An edit without a coverage-reducing field matches whatever it matched. *)
Lemma edit_applicable p u p' rt action count : _coverage_reducing_diffs p u = [] → set_fields p u = Some p' →
  applicable rt action count p = true → applicable rt action count p' = true.
Proof.
  intros Hd (_ & _ & Ht & Ha & He & _ & Hm)%set_fields_inv. unfold _coverage_reducing_diffs in Hd.
  apply app_eq_nil in Hd as [D1 Hd]. apply app_eq_nil in Hd as [_ Hd]. apply app_eq_nil in Hd as [D2 Hd].
  apply app_eq_nil in Hd as [D3 D4].
  assert (p_resource_type p' = p_resource_type p) as Et.
  { destruct (u_resource_type u) as [[t|]|]; simpl in *; simplify_eq; [|done]. by case_bool_decide; simplify_eq. }
  assert (p_action p' = p_action p) as Ea.
  { destruct (u_action u) as [[t|]|]; simpl in *; simplify_eq; [|done]. by case_bool_decide; simplify_eq. }
  assert (p_enabled p = true → p_enabled p' = true) as Ee.
  { intros E. rewrite E in *. destruct (u_enabled u) as [[[]|]|]; simpl in *; simplify_eq; try congruence; done. }
  unfold applicable, selected, over_threshold. rewrite Et, Ea, Hm, !andb_true_iff. intros [[[H1 H2] H3] H4]. split_and!; auto.
  destruct (u_min_count u) as [[m|]|]; simpl in *; [|done|done]. destruct (p_min_count p) as [old|]; [|done].
  destruct (Z.ltb_spec old m); [done|]. destruct count as [c|]; [|done]. revert H4. rewrite !negb_true_iff, !Z.ltb_ge. lia.
Qed.

Lemma same_id pl p q : NoDup (map p_id (policies pl)) → p ∈ policies pl → q ∈ policies pl → p_id p = p_id q → p = q.
Proof.
  intros Hn [i Hi]%list_elem_of_lookup [j Hj]%list_elem_of_lookup He.
  assert (i = j) as ->; [|congruence]. eapply (NoDup_lookup _ i j (p_id p) Hn); [by rewrite list_lookup_fmap, Hi|].
  by rewrite list_lookup_fmap, Hj, He.
Qed.

Lemma edit_keeps_guard pl pid p u p' : guarded pl → get_policy pl pid = Some p → _coverage_reducing_diffs p u = [] →
  set_fields p u = Some p' → keeps_guard pl (replace_policy pl p').
Proof.
  intros [Hl Hm Hn] Hp Hd Hs. destruct (set_fields_inv _ _ _ Hs) as [Hid _]. destruct (get_policy_id _ _ _ Hp) as [Hpid Hin].
  split; [split; [done|done|]|].
  - simpl. rewrite map_map. rewrite (map_ext_in _ p_id); [done|]. intros q _. by case_bool_decide.
  - intros rt action count (q & Hq & Ha). simpl. destruct (decide (p_id q = p_id p')) as [E|E].
    + assert (q = p) as -> by (apply (same_id pl); congruence). exists p'. split; [|by eapply edit_applicable].
      apply list_elem_of_fmap. exists p. by rewrite bool_decide_true.
    + exists q. split; [|done]. apply list_elem_of_fmap. exists q. by rewrite bool_decide_false.
Qed.

Lemma audit_log_grows pl pl' a t i d n : control_log pl' `prefix_of` control_log pl →
  control_log pl' `prefix_of` control_log (_control_audit pl a t i d n).
Proof. intros H. etrans; [exact H|]. by eexists. Qed.

Lemma lock_log_grows pl pl' : control_log pl' `prefix_of` control_log pl → control_log pl' `prefix_of` control_log (turn_lock_on pl).
Proof. unfold turn_lock_on. intros H. destruct (is_controls_protected pl); [done|]. by apply audit_log_grows. Qed.

Lemma apply_log_grows pl a pl' r : _apply_modify_approval_control pl a = Ok (pl', r) → control_log pl `prefix_of` control_log pl'.
Proof.
  assert (Hdone : ∀ pl1 act t i d n x, control_log pl1 = control_log pl → Ok (_control_audit pl1 act t i d n, x) = Ok (E:=str) (pl', r) →
    control_log pl `prefix_of` control_log pl').
  { intros pl1 act t i d n x E [= <- _]. apply audit_log_grows. by rewrite E. }
  assert (Hsame : ∀ x, Ok (pl, x) = Ok (E:=str) (pl', r) → control_log pl `prefix_of` control_log pl') by (by intros x [= <- _]).
  unfold _apply_modify_approval_control. destruct (kind a); [by apply Hdone| | | | |]; cbv zeta;
    try (destruct (policy_id a) as [pid|]; [|done]; destruct (get_policy pl pid) as [p|]; [|by apply Hsame]).
  4: destruct (negb _); [by apply Hsame|by apply Hdone].
  all: try (by apply Hdone).
  - destruct (p_is_builtin p); [done|by apply Hdone].
  - destruct (set_fields p _); [by apply Hdone|done].
Qed.

(** What is new in a list that only grows. *)
Lemma fresh_since {A} (l0 l1 l2 : list A) x : l0 `prefix_of` l1 → x ∈ drop (length l1) l2 → x ∈ drop (length l0) l2.
Proof.
  intros Hp%prefix_length. replace (length l1) with (length l0 + (length l1 - length l0))%nat by lia.
  rewrite <- drop_drop. apply subseteq_drop.
Qed.

Lemma fresh_still {A} (l tail : list A) n x : x ∈ drop n l → x ∈ drop n (l ++ tail).
Proof. rewrite drop_app. intros H. apply elem_of_app. by left. Qed.

Section site.
Context (get_operation : str → option Operation).

(** Between [s] and [s'] a change of the controls was applied that one user
    submitted and another, eligible, approved. *)
Definition two_persons (s s' : Site) : Prop :=
  let w' := world (config s') in
  ∃ e cr, e ∈ drop (length (effects (world (config s)))) (effects w') ∧ change_request w' !! e_request e = Some cr
    ∧ needs_superadmin (operation (submission cr)) = true ∧ effect_ok get_operation w' e.

(** Between [s] and [s'] a superadmin broke the glass, on the record. *)
Definition glass_broken (evs : list site_event) (s s' : Site) : Prop :=
  ∃ u k pid r, EvBreakGlass u k pid ∈ evs ∧ is_effective_superadmin (a_user u) = true
    ∧ r ∈ drop (length (control_log (plane s))) (control_log (plane s')) ∧ ca_action r = "approvals.break_glass" ∧ ca_id r = kind_text k.

(** An endpoint leaves the requests alone or queues one, adds to the log, and
    where the lock is on what it writes to the plane keeps the guard. *)
Definition guards (s s' : Site) : Prop :=
  (config s' = config s ∨ ∃ ev, config s' = step get_operation (config s) ev)
  ∧ control_log (plane s) `prefix_of` control_log (plane s')
  ∧ (guarded (plane s) → keeps_guard (plane s) (plane s')).

Lemma guards_refl s : guards s s.
Proof. split_and!; [by left|done|done]. Qed.

Lemma guards_inline s pl : control_log (plane s) `prefix_of` control_log pl →
  (guarded (plane s) → keeps_guard (plane s) pl) → guards s (inline s pl).
Proof. intros ? ?. split_and!; [by left|done|done]. Qed.

Ltac log_grows := simpl; try case_match; repeat first [apply lock_log_grows | apply audit_log_grows]; done.

Lemma gate_control_guards s u a rt rid display pending now id r :
  gate_control s u a rt rid display pending now id = Ok r →
  match r with
  | None => ∀ pl, control_log (plane s) `prefix_of` control_log pl → guards s (inline s pl)
  | Some s' => guards s s'
  end.
Proof.
  unfold gate_control, maybe_gate_control. destruct (is_controls_protected (plane s)) eqn:Hl; simpl.
  - unfold raise_if. destruct (negb _); simpl; [done|].
    destruct (create_change_request _ _ _ _ _ _) as [w'|e] eqn:Hc; simpl; [|done]. intros [= <-]. split_and!; [|done|done].
    right. eexists (Create pending u _ _ id). unfold step. rewrite Hc. done.
  - intros [= <-] pl Hpl. apply guards_inline; [done|]. intros [Hg _ _]. congruence.
Qed.

Lemma turn_lock_on_keeps pl pl' : keeps_guard pl pl' → keeps_guard pl (turn_lock_on pl').
Proof.
  intros H. unfold turn_lock_on. destruct (is_controls_protected pl'); [done|]. apply keeps_guard_audit.
  destruct H as [[] ?]. by split; [split|].
Qed.

Lemma create_policy_guards s u body : guards s (or_site s (create_policy get_operation s u body)).
Proof.
  unfold create_policy, raise_if. destruct (is_effective_superadmin _); simpl; [|apply guards_refl].
  destruct (_validate_gateable _ _ _); simpl; [|apply guards_refl]. case_bool_decide as Hid; simpl; [apply guards_refl|].
  apply guards_inline; [log_grows|]. intros [Hl Hm Hn]. apply keeps_guard_audit. split; [split; [done|done|]|].
  - simpl. rewrite map_app. apply NoDup_app. split_and!; [done| |apply NoDup_singleton]. simpl.
    intros i Hi Hi'%list_elem_of_singleton. apply Hid. subst i. apply list_elem_of_fmap in Hi as (q & Hq & Hin).
    unfold get_policy. destruct (List.find _ _) as [x|] eqn:Hf; [by exists x|]. exfalso.
    apply list_elem_of_In in Hin. pose proof (find_none _ _ Hf q Hin) as Hb. simpl in Hb. by rewrite Hq, bool_decide_true in Hb.
  - intros rt action count (q & Hq & Ha). exists q. split; [|done]. simpl. apply elem_of_app. by left.
Qed.

Lemma update_policy_guards s u pid changes pending now id :
  guards s (or_site s (update_policy get_operation s u pid changes pending now id)).
Proof.
  unfold update_policy, raise_if. destruct (is_effective_superadmin _); simpl; [|apply guards_refl].
  destruct (get_policy (plane s) pid) as [p|] eqn:Hp; [|apply guards_refl].
  destruct (_validate_gateable _ _ _); simpl; [|apply guards_refl].
  destruct (is_controls_protected (plane s) && _) eqn:Hgate.
  - destruct (gate_control _ _ _ _ _ _ _ _ _) as [r|e] eqn:Hq; [|apply guards_refl]. apply gate_control_guards in Hq.
    destruct r as [s'|]; simpl; [done|]. destruct (set_fields p changes); simpl; [apply Hq; log_grows|apply guards_refl].
  - simpl. destruct (set_fields p changes) as [p'|] eqn:Hs; [|apply guards_refl]. apply guards_inline; [log_grows|]. intros Hg.
    apply keeps_guard_audit. apply (edit_keeps_guard _ pid p changes); try done. rewrite (gu_lock _ Hg) in Hgate.
    apply negb_false_iff, bool_decide_eq_true in Hgate. by apply nil_length_inv.
Qed.

Lemma delete_policy_guards s u pid pending now id : guards s (or_site s (delete_policy s u pid pending now id)).
Proof.
  unfold delete_policy, raise_if. destruct (is_effective_superadmin _); simpl; [|apply guards_refl].
  destruct (get_policy (plane s) pid) as [p|] eqn:Hp; [|apply guards_refl]. destruct (p_is_builtin p); simpl; [apply guards_refl|].
  destruct (is_controls_protected (plane s)) eqn:Hl.
  - destruct (gate_control _ _ _ _ _ _ _ _ _) as [r|e] eqn:Hq; [|apply guards_refl]. apply gate_control_guards in Hq.
    destruct r; simpl; apply Hq; log_grows.
  - apply guards_inline; [log_grows|]. intros [Hg _ _]. congruence.
Qed.

Lemma toggle_guards s u enabled protect pending now id :
  guards s (or_site s (toggle_approvals_module s u enabled protect pending now id)).
Proof.
  unfold toggle_approvals_module, raise_if. destruct (is_effective_superadmin _); simpl; [|apply guards_refl].
  destruct enabled; simpl.
  - apply guards_inline; [log_grows|]. intros Hg.
    assert (Hon : keeps_guard (plane s) (_control_audit (with_module (plane s) true) "update" "feature_module" MODULE_ID
              "Approval workflows" (Some (JObj [("enabled" : str, JBool true)])))).
    { apply keeps_guard_audit. destruct Hg. by split; [split|]. }
    destruct protect; [by apply turn_lock_on_keeps|done].
  - destruct (gate_control _ _ _ _ _ _ _ _ _) as [r|e] eqn:Hq; [|apply guards_refl]. apply gate_control_guards in Hq.
    destruct r; simpl; apply Hq; log_grows.
Qed.

Lemma set_lock_guards s u enabled pending now id : guards s (or_site s (set_approvals_lock s u enabled pending now id)).
Proof.
  unfold set_approvals_lock, raise_if. destruct (is_effective_superadmin _); simpl; [|apply guards_refl]. destruct enabled; simpl.
  - apply guards_inline; [log_grows|]. intros Hg. by apply turn_lock_on_keeps.
  - destruct (gate_control _ _ _ _ _ _ _ _ _) as [r|e] eqn:Hq; simpl; [|apply guards_refl]. apply gate_control_guards in Hq.
    destruct r; simpl; [done|apply guards_refl].
Qed.

(** The spine leaves the plane alone unless it applied a control request. *)
Lemma spine_step_guards s ev : inv get_operation (world (config s)) → let s' := spine_step get_operation s ev in
  (config s' = config s ∨ ∃ ev', config s' = step get_operation (config s) ev')
  ∧ control_log (plane s) `prefix_of` control_log (plane s') ∧ (plane s' = plane s ∨ two_persons s s').
Proof.
  intros Hinv. destruct ev as [n user sub text id|id a request note ans clock|i clock|i|id a request note now
    |surface id u request note now|id now|uid]; try (split_and!; [right; by eexists|done|by left]).
  - unfold spine_step. destruct (needs_superadmin _); split_and!; try done; try (by left). right. by eexists.
  - unfold spine_step. destruct (change_request (world (config s)) !! id) as [cr|] eqn:Hl;
      [|by split_and!; [right; by eexists|done|left]].
    destruct (needs_superadmin (operation (submission cr))) eqn:Hn; [|by split_and!; [right; by eexists|done|left]].
    cbv zeta. set (ev := Approve id a request note (control_answers (plane s) (args (submission cr))) clock).
    split_and!; [right; by exists ev| |]; cbn [config plane]; case_bool_decide as He; cbn [negb]; try done; try (by left).
    + destruct (load_args _) as [x|]; [|done].
      destruct (_apply_modify_approval_control (plane s) x) as [[pl r]|] eqn:Ha; [by eapply apply_log_grows|done].
    + right. unfold two_persons. cbn [config].
      destruct (step_effects get_operation (config s) ev) as [He'|(e & He' & Hid)]; [by rewrite He' in He|]. simpl in Hid.
      destruct (step_submission get_operation (config s) ev id cr Hl) as (cr' & Hl' & Hs). exists e, cr'.
      split_and!; [|by rewrite Hid|by rewrite Hs|].
      * rewrite He', drop_app_length. by left.
      * apply (step_inv get_operation (config s) ev Hinv). rewrite He'. apply elem_of_app. right. by left.
Qed.

Lemma break_glass_guards s u k pid : let s' := or_site s (break_glass s u k pid) in
  config s' = config s ∧ control_log (plane s) `prefix_of` control_log (plane s')
  ∧ (glass_broken [EvBreakGlass u k pid] s s' ∨ plane s' = plane s).
Proof.
  unfold break_glass, raise_if. destruct (is_effective_superadmin (a_user u)) eqn:Hu; cbn -[inline _control_audit _preview_modify_approval_control _apply_modify_approval_control]; [|by split_and!; [| |right]].
  destruct (p_ok _); cbn [negb or_site]; [|by split_and!; [| |right]].
  assert (Hb : ∀ pl disp more,
    control_log (_control_audit (plane s) "approvals.break_glass" "approval_control" (kind_text k) disp more) `prefix_of` control_log pl →
    config (inline s pl) = config s ∧ control_log (plane s) `prefix_of` control_log pl
    ∧ (glass_broken [EvBreakGlass u k pid] s (inline s pl) ∨ pl = plane s)).
  { intros pl disp more [tail Ht]. simpl in *. split_and!; [done|rewrite Ht, <- app_assoc; by eexists|left].
    exists u, k, pid, (mkControlAudit "approvals.break_glass" "approval_control" (kind_text k) disp more).
    split_and!; [by left|done| |done|done]. simpl. rewrite Ht, <- app_assoc, drop_app_length. by left. }
  destruct (p_idempotent _); cbn [or_site]; [exact (Hb (_control_audit (plane s) _ _ _ _ _) _ _ (reflexivity _))|].
  destruct (_apply_modify_approval_control _ _) as [[pl r]|] eqn:Ha; cbn [or_site]; [|exact (Hb (_control_audit (plane s) _ _ _ _ _) _ _ (reflexivity _))].
  eapply Hb. by eapply apply_log_grows.
Qed.

Lemma site_step_guards s ev : inv get_operation (world (config s)) → let s' := site_step get_operation s ev in
  (config s' = config s ∨ ∃ ev', config s' = step get_operation (config s) ev')
  ∧ control_log (plane s) `prefix_of` control_log (plane s')
  ∧ (two_persons s s' ∨ glass_broken [ev] s s' ∨ (guarded (plane s) → keeps_guard (plane s) (plane s'))).
Proof.
  intros Hinv. destruct ev as [u body|u pid changes pending now id|u pid pending now id|u en pr pending now id|u en pending now id|u k pid|ev];
    cbn [site_step]; cbv zeta.
  1: destruct (create_policy_guards s u body) as (? & ? & ?).
  2: destruct (update_policy_guards s u pid changes pending now id) as (? & ? & ?).
  3: destruct (delete_policy_guards s u pid pending now id) as (? & ? & ?).
  4: destruct (toggle_guards s u en pr pending now id) as (? & ? & ?).
  5: destruct (set_lock_guards s u en pending now id) as (? & ? & ?).
  1-5: by split_and!; [| |right; right].
  - destruct (break_glass_guards s u k pid) as (? & ? & [?|E]); split_and!; try done; try (by left); [by right; left|].
    right; right. by rewrite E.
  - destruct (spine_step_guards s ev Hinv) as (? & ? & [E|?]); split_and!; try done; [|by left]. right; right. by rewrite E.
Qed.

Lemma two_persons_run s0 s s' : effects (world (config s0)) `prefix_of` effects (world (config s)) → two_persons s s' → two_persons s0 s'.
Proof. intros Hp (e & cr & He & H). exists e, cr. split; [|done]. by eapply fresh_since. Qed.

Lemma glass_broken_run s0 evs evs' s s' : control_log (plane s0) `prefix_of` control_log (plane s) →
  glass_broken evs' s s' → glass_broken (evs ++ evs') s0 s'.
Proof.
  intros Hp (u & k & pid & r & Hin & Hu & Hr & H). exists u, k, pid, r.
  split_and!; [apply elem_of_app; by right|done|by eapply fresh_since|apply H..].
Qed.

Lemma glass_broken_later s0 evs evs' s s' : control_log (plane s) `prefix_of` control_log (plane s') →
  glass_broken evs s0 s → glass_broken (evs ++ evs') s0 s'.
Proof.
  intros [tail Ht] (u & k & pid & r & Hin & Hu & Hr & H). exists u, k, pid, r.
  split_and!; [apply elem_of_app; by left|done| |apply H..]. rewrite Ht. by apply fresh_still.
Qed.

Lemma two_persons_later s0 s s' ev : two_persons s0 s → inv get_operation (world (config s')) →
  config s' = step get_operation (config s) ev → two_persons s0 s'.
Proof.
  intros (e & cr & He & Hl & Hn & _) Hinv Hc. destruct (step_submission get_operation (config s) ev _ cr Hl) as (cr' & Hl' & Hs).
  assert (Hin : e ∈ drop (length (effects (world (config s0)))) (effects (world (config s')))).
  { rewrite Hc. destruct (step_effects get_operation (config s) ev) as [-> | (x & -> & _)]; [done|]. by apply fresh_still. }
  exists e, cr'. split_and!; [done|by rewrite Hc|by rewrite Hs|]. apply Hinv. by eapply subseteq_drop.
Qed.

Lemma site_run_guards s0 evs : inv get_operation (world (config s0)) → let s := site_run get_operation s0 evs in
  inv get_operation (world (config s)) ∧ effects (world (config s0)) `prefix_of` effects (world (config s))
  ∧ control_log (plane s0) `prefix_of` control_log (plane s)
  ∧ (two_persons s0 s ∨ glass_broken evs s0 s ∨ (guarded (plane s0) → keeps_guard (plane s0) (plane s))).
Proof.
  intros Hinv. unfold site_run. induction evs as [|ev evs IH] using rev_ind; simpl.
  { split_and!; [done|done|done|by right; right]. }
  rewrite foldl_app. simpl. set (s := foldl _ _ _) in *. destruct IH as (Hi & Hef & Hlog & Hs).
  destruct (site_step_guards s ev Hi) as (Hc & Hlog' & Hp). set (s' := site_step get_operation s ev) in *.
  assert (Hi' : inv get_operation (world (config s'))).
  { destruct Hc as [->|[ev' ->]]; [done|by apply step_inv]. }
  split_and!; [done| |by etrans|].
  - etrans; [exact Hef|]. destruct Hc as [->|[ev' ->]]; [done|].
    destruct (step_effects get_operation (config s) ev') as [-> | (x & -> & _)]; [done|by eexists].
  - destruct Hs as [He|[Hb|Hk]]; [left| |destruct Hp as [He|[Hb|Hp]]].
    + destruct Hc as [Hc|[ev' Hc]]; [unfold two_persons in *; by rewrite Hc|by eapply two_persons_later].
    + right; left. by eapply glass_broken_later.
    + left. by eapply two_persons_run.
    + right; left. by eapply glass_broken_run.
    + right; right. intros Hg. apply (keeps_guard_trans _ (plane s)); auto.
Qed.
End site.

Lemma gate_runs_inline enabled rows w u op data count pv pending now id : is_effective_superadmin (a_user u) = false →
  gate_or_execute enabled rows w u op data count pv pending now id = Ok None ↔
  enabled = false ∨ required_permission op = None
  ∨ ∃ action rt, required_permission op = Some (action, rt) ∧ match_policy rows rt action count = None.
Proof.
  intros Hu. unfold gate_or_execute. destruct enabled; simpl; [|naive_solver].
  destruct (required_permission op) as [[action rt]|]; [|naive_solver].
  destruct (match_policy rows rt action count) as [p|] eqn:Hm; [|naive_solver]. rewrite Hu. simpl. split; [|naive_solver].
  destruct pv as [| |pr]; [done..|]. destruct (p_ok pr); simpl; [|done]. by destruct (create_change_request _ _ _ _ _ _).
Qed.

Lemma covered_permutation rows rows' rt action count : rows ≡ₚ rows' → covered rows rt action count → covered rows' rt action count.
Proof. intros Hp (p & Hin & Ha). exists p. by rewrite <- Hp. Qed.

(** C2 -- while the lock is on, a change that lets an operation past the
    gate is two persons' doing or on the record as a break-glass. Take any state
    the endpoints of the policies, of the module and of the lock, the break-glass
    endpoint and the decisions on change requests lead to, in which the lock and
    the module are on, and any requests after it, of any users. Then in the
    course of these very requests a control change was applied that one user
    submitted and another, a superadmin, approved; or a superadmin called the
    break-glass endpoint and the control log says so; or the lock and the module
    are still on, and every operation the gate kept a non-superadmin from running
    inline it still does, in whatever order the policies are read. Nothing is
    said of what superadmins may run. *)
Theorem guard_needs_two get_operation s0 evs0 evs : config s0 = init →
  let s := site_run get_operation s0 evs0 in
  let s' := site_run get_operation s evs in
  guarded (plane s) →
  two_persons get_operation s s' ∨ glass_broken evs s s'
  ∨ is_controls_protected (plane s') = true ∧ is_module_enabled (plane s') = true
    ∧ ∀ rows rows' w u op data count pv pending now id, rows ≡ₚ policies (plane s) → rows' ≡ₚ policies (plane s') →
        is_effective_superadmin (a_user u) = false →
        gate_or_execute true rows w u op data count pv pending now id ≠ Ok None →
        gate_or_execute true rows' w u op data count pv pending now id ≠ Ok None.
Proof.
  intros Hc s s' Hg. assert (Hinv : inv get_operation (world (config s0))) by (rewrite Hc; apply init_inv).
  destruct (site_run_guards get_operation s0 evs0 Hinv) as (Hi & _).
  destruct (site_run_guards get_operation s evs Hi) as (_ & _ & _ & [H|[H|H]]); [by left|by right; left|right; right].
  destruct (H Hg) as [[Hk Hm _] Hcov]. fold s' in Hcov, Hk, Hm.
  split_and!; [done|done|]. intros rows rows' w u op data count pv pending now id Hr Hr' Hu Hq Hq'. apply Hq.
  apply gate_runs_inline; [done|]. apply gate_runs_inline in Hq' as [Hq'|[Hq'|(action & rt & Hp & Hn)]]; [done|auto|..|done].
  right; right. exists action, rt. split; [done|]. destruct (match_policy rows rt action count) eqn:Hmp; [|done]. exfalso.
  apply (proj2 (match_policy_covered rows' rt action count)); [|done]. apply (covered_permutation (policies (plane s'))); [done|].
  apply Hcov. apply (covered_permutation rows); [done|]. apply match_policy_covered. congruence.
Qed.

(** ** Concrete runs *)
Definition sample_policy (id : str) (applies : bool) : ApprovalPolicy :=
  mkPolicy id "Delete subnet" "subnet" "delete" None true applies 168 false.
Definition sample_site : Site := mkSite (mkPlane [sample_policy "p1" true] (Some true) (Some true) []) init.
Definition control_registry (name : str) : option Operation :=
  if bool_decide (name = CONTROL_OPERATION) then Some (mkOperation name (Some ("admin" : str, "approval_control" : str)) false [])
  else sample_registry name.
Definition switch_off : ApprovalPolicyUpdate := mkUpdate None None None None (Some (Some false)) None None.
Definition no_answers : Answers := mkAnswers false false false PreviewDenied false ApplyDenied.

(** Switching a policy off takes a second superadmin. *)
Definition switched_off : list site_event :=
  [EvUpdatePolicy (root "alice") "p1" switch_off 0 5 "c1";
   EvSpine (Approve "c1" (root "alice") None None no_answers sample_clock);
   EvSpine (Approve "c1" (root "bob") None None no_answers sample_clock)].

Example second_superadmin :
  (map p_enabled (policies (plane (site_run control_registry sample_site (take 2 switched_off)))),
   map p_enabled (policies (plane (site_run control_registry sample_site switched_off)))) = ([true], [false]).
Proof. vm_compute. reflexivity. Qed.

(** The lock keeps holding after it was released once and turned on again: here
    two persons switched [p1] off and one of them created [p2]; what the second
    half can do is not excused by the change of the first. *)
Definition after_one_change : list site_event :=
  switched_off ++ [EvCreatePolicy (root "alice") (sample_policy "p2" true)].
Definition second_half : list site_event :=
  [EvUpdatePolicy (root "alice") "p2" switch_off 0 6 "c2"; EvLock (root "alice") false 0 7 "c3"].

Lemma guard_needs_two_witness :
  let s := site_run control_registry sample_site after_one_change in
  let s' := site_run control_registry s second_half in
  (config sample_site = init ∧ guarded (plane s))
  ∧ map p_enabled (policies (plane s)) = [false; true] ∧ length (effects (world (config s))) = 1%nat
  ∧ is_controls_protected (plane s') = true ∧ is_module_enabled (plane s') = true.
Proof.
  intros s s'. assert (Hg : guarded (plane s)).
  { split; [vm_compute; reflexivity|vm_compute; reflexivity|]. apply (bool_decide_unpack _). vm_compute. reflexivity. }
  split; [done|]. split; [vm_compute; reflexivity|]. split; [vm_compute; reflexivity|].
  destruct (guard_needs_two control_registry sample_site after_one_change second_half eq_refl Hg)
    as [(e & _ & He & _)|[(u & k & pid & r & He & _)|(Hl & Hm & _)]].
  - exfalso. revert He. vm_compute. inversion 1.
  - exfalso. revert He. unfold second_half. rewrite !elem_of_cons. intros [He|[He|He%not_elem_of_nil]]; [discriminate He|discriminate He|exact He].
  - exact (conj Hl Hm).
Defined.

(** Break-glass needs no second person and leaves its line. *)
Example glass_breaks :
  let s' := site_run control_registry sample_site [EvBreakGlass (root "alice") Unlock None] in
  (is_controls_protected (plane s'), map ca_action (control_log (plane s')))
  = (false, ["approvals.break_glass" : str; "update" : str]).
Proof. vm_compute. reflexivity. Qed.

Lemma control_change_settles_witness :
  let pl := plane sample_site in
  let a := mkArgs UpdatePolicy (Some ("p1" : str)) (Some switch_off) in
  p_ok (_preview_modify_approval_control pl a) = true
  ∧ match _apply_modify_approval_control pl a with
    | Ok (pl', _) => p_idempotent (_preview_modify_approval_control pl' a) = true
    | Err _ => False
    end.
Proof.
  intros pl a. assert (Hok : p_ok (_preview_modify_approval_control pl a) = true) by (vm_compute; reflexivity).
  split; [done|]. pose proof (control_change_settles pl a Hok) as H.
  destruct (_apply_modify_approval_control pl a) as [[pl' r]|e] eqn:E; [by destruct H|]. vm_compute in E. discriminate.
Defined.

(** Superadmins are not covered by this: with the lock on, one superadmin may add
    an enabled policy that does not apply to superadmins; between it and an equal
    policy that does, the order the rows come in decides. *)
Definition side_door : Site := site_run sample_registry sample_site [EvCreatePolicy (root "alice") (sample_policy "p2" false)].

Example superadmin_side_door :
  let op := mkOperation "delete_subnet" (Some ("delete" : str, "subnet" : str)) false [] in
  let pv := PreviewReturns (mkPreview true [] "p" false None) in
  let gate rows := gate_or_execute true rows (world init) (root "alice") op (JObj []) None pv 0 5 "c1" in
  map p_id (policies (plane side_door)) = ["p1" : str; "p2" : str]
  ∧ gate (policies (plane sample_site)) ≠ Ok None
  ∧ gate (policies (plane side_door)) ≠ Ok None
  ∧ gate (reverse (policies (plane side_door))) = Ok None.
Proof. split_and!; vm_compute; try reflexivity; discriminate. Qed.
End ApprovalPolicy.
