(* ===== verification/Spool.v ===== *)
(** * The agents' spool and the server's receipts

    [agent/dns/spatium_dns_agent/spool.py] (the DHCP agent carries the same
    file) and [backend/app/services/agents/ingest_receipt.py].

    A method of the spool is a [prog]: a finite tree of clock readings, file
    operations and POSTs.  [run] executes one against a [World] (the stream's
    directory and the server), with every answer the environment may give, and
    may stop it anywhere ([None]: the process died).  A file is named by its
    sequence number.  [time.time()] answers an instant in microseconds with the
    text [json.dumps] prints for it.  [Lose], [Produce] and [Settle] are ghosts:
    they record in the world what happens to a batch and do nothing else.

    An [unlink] of a file of its own directory, and the move to [poison/],
    succeed; the contents of [poison/] and the log lines are not modelled, nor
    are the split of the budget over streams and the status report of
    [SpoolManager].  The [post] of a shipper sends the stamped batch as it is:
    [push.py]'s retry without the [batch_id], for control planes older than the
    receipts, is not modelled.

    [wp] is what a program guarantees at every point it may stop.  [moves] is
    what a call may do to the world while another batch is in flight, [places]
    what a [ship] may do with its own; [step] puts the agent and the server
    together, and [inv_reachable] is the invariant of their histories.  [exec]
    computes one run, by which [drains] follows a control plane that is back. *)
From S2P Require Import Prelude PyStr Json.
Import Json.
#[local] Open Scope Z_scope.

Module Spool.

Definition payload : Type := list (str * json).

Definition find_key (k : str) (kvs : list (str * json)) : option json :=
  snd <$> List.find (λ kv, bool_decide (fst kv = k)) kvs.

Record entry := mkEntry { spooled_at : Z; e_payload : payload; e_size : Z }.

(** The bytes of an entry's file. *)
Definition body (repr : str) (p : payload) : str :=
  print (JObj [("v" : str, JInt 1); ("spooled_at" : str, JFloat repr); ("payload" : str, JObj p)]).

Record Counters := mkCounters {
  trimmed_entries : Z; trimmed_bytes : Z; last_trim_at : option Z; expired_entries : Z; rejected_entries : Z; write_failures : Z }.
Definition no_counters : Counters := mkCounters 0 0 None 0 0 0.

(** ** Programs *)
Inductive reason := NotKept | Trimmed | Expired | Unreadable | Refused | Poisoned | Crashed.
#[export] Instance reason_eq_dec : EqDecision reason.
Proof. solve_decision. Defined.

Inductive prog (A : Type) : Type :=
| Ret (a : A)
| TimeNs (k : Z → prog A)
| Wall (k : Z → str → prog A)
| Mono (k : Z → prog A)
| Uuid (k : str → prog A)
| ListDir (k : list (Z * Z) → prog A)
| LoadState (k : option Counters → prog A)
| SaveState (c : Counters) (k : prog A)
| WriteEntry (seq : Z) (e : entry) (k : bool → prog A)
| ReadEntry (seq : Z) (k : option entry → prog A)
| Unlink (why : option reason) (seq : Z) (k : prog A)
| Post (p : payload) (k : option Z → prog A)
| Lose (why : reason) (p : payload) (k : prog A)
| Produce (p : payload) (k : prog A)
| Settle (k : prog A).
Arguments Ret {A}. Arguments TimeNs {A}. Arguments Wall {A}. Arguments Mono {A}. Arguments Uuid {A}. Arguments ListDir {A}.
Arguments LoadState {A}. Arguments SaveState {A}. Arguments WriteEntry {A}. Arguments ReadEntry {A}. Arguments Unlink {A}.
Arguments Post {A}. Arguments Lose {A}. Arguments Produce {A}. Arguments Settle {A}.

Fixpoint prog_bind {A B} (f : A → prog B) (p : prog A) : prog B :=
  match p with
  | Ret a => f a
  | TimeNs k => TimeNs (λ x, prog_bind f (k x))
  | Wall k => Wall (λ x t, prog_bind f (k x t))
  | Mono k => Mono (λ x, prog_bind f (k x))
  | Uuid k => Uuid (λ x, prog_bind f (k x))
  | ListDir k => ListDir (λ x, prog_bind f (k x))
  | LoadState k => LoadState (λ x, prog_bind f (k x))
  | SaveState c k => SaveState c (prog_bind f k)
  | WriteEntry s e k => WriteEntry s e (λ x, prog_bind f (k x))
  | ReadEntry s k => ReadEntry s (λ x, prog_bind f (k x))
  | Unlink y s k => Unlink y s (prog_bind f k)
  | Post p k => Post p (λ x, prog_bind f (k x))
  | Lose y p k => Lose y p (prog_bind f k)
  | Produce p k => Produce p (prog_bind f k)
  | Settle k => Settle (prog_bind f k)
  end.
#[export] Instance prog_mret : MRet prog := @Ret.
#[export] Instance prog_mbind : MBind prog := @prog_bind.

Definition wall : prog (Z * str) := Wall (λ t s, Ret (t, s)).
Definition mono : prog Z := Mono Ret.
Definition save (c : Counters) : prog unit := SaveState c (Ret tt).
Definition unlink (why : option reason) (seq : Z) : prog unit := Unlink why seq (Ret tt).

(** ** The spool *)
Inductive outcome := SENT | RETRY | REJECTED.
#[export] Instance outcome_eq_dec : EqDecision outcome.
Proof. solve_decision. Defined.

Definition classify_status (status : Z) : outcome :=
  if (200 <=? status) && (status <? 300) then SENT
  else if bool_decide (status ∈ [401; 404; 408; 425; 429]) || (500 <=? status) then RETRY
  else REJECTED.

Definition DRAIN_BATCHES_PER_CALL : nat := 50.
Definition POISON_ATTEMPTS : Z := 5.
Definition POISON_MIN_SECONDS : Z := 600 * 1000000.

(** [head_failures]: the entry, its consecutive 500s, and when the first came
    ([time.monotonic()], [time.time()]). *)
Record Spool := mkSpool {
  enabled : bool;
  cap_bytes : Z;
  max_age_seconds : option Z;
  _last_seq : Z;
  _counters : Counters;
  _entries : list (Z * Z);
  _head_failures : option (Z * Z * Z * Z);
}.

Definition with_seq (sp : Spool) (s : Z) : Spool :=
  mkSpool (enabled sp) (cap_bytes sp) (max_age_seconds sp) s (_counters sp) (_entries sp) (_head_failures sp).
Definition with_counters (sp : Spool) (c : Counters) : Spool :=
  mkSpool (enabled sp) (cap_bytes sp) (max_age_seconds sp) (_last_seq sp) c (_entries sp) (_head_failures sp).
Definition with_entries (sp : Spool) (es : list (Z * Z)) : Spool :=
  mkSpool (enabled sp) (cap_bytes sp) (max_age_seconds sp) (_last_seq sp) (_counters sp) es (_head_failures sp).
Definition with_failures (sp : Spool) (hf : option (Z * Z * Z * Z)) : Spool :=
  mkSpool (enabled sp) (cap_bytes sp) (max_age_seconds sp) (_last_seq sp) (_counters sp) (_entries sp) hf.

Definition count_trimmed (c : Counters) (n bytes now : Z) : Counters :=
  mkCounters (trimmed_entries c + n) (trimmed_bytes c + bytes) (Some now) (expired_entries c) (rejected_entries c) (write_failures c).
Definition count_rejected (c : Counters) (now : Z) : Counters :=
  mkCounters (trimmed_entries c) (trimmed_bytes c) (Some now) (expired_entries c) (rejected_entries c + 1) (write_failures c).
Definition count_expired (c : Counters) (n : Z) : Counters :=
  mkCounters (trimmed_entries c) (trimmed_bytes c) (last_trim_at c) (expired_entries c + n) (rejected_entries c) (write_failures c).
Definition count_write_failure (c : Counters) : Counters :=
  mkCounters (trimmed_entries c) (trimmed_bytes c) (last_trim_at c) (expired_entries c) (rejected_entries c) (write_failures c + 1).

(** [__init__] with [_load], where the directory can be made. *)
Definition load (en : bool) (cap : Z) (age : option Z) : prog Spool :=
  let fresh := mkSpool en (Z.max 0 cap) age 0 no_counters [] None in
  if negb en then Ret fresh
  else ListDir (λ entries, LoadState (λ st,
    Ret (mkSpool en (Z.max 0 cap) age (default 0 (fst <$> last entries)) (default no_counters st) entries None))).

Definition _next_seq (sp : Spool) : prog (Z * Spool) :=
  TimeNs (λ now, let seq := if now <=? _last_seq sp then _last_seq sp + 1 else now in Ret (seq, with_seq sp seq)).

(** The [while] of the cap; the last entry stays. *)
Fixpoint trim_loop (cap total : Z) (entries : list (Z * Z)) (dropped bytes : Z) : prog (list (Z * Z) * Z * Z) :=
  match entries with
  | (name, size) :: ((_ :: _) as rest) =>
      if cap <? total then _ ← unlink (Some Trimmed) name; trim_loop cap (total - size) rest (dropped + 1) (bytes + size)
      else Ret (entries, dropped, bytes)
  | _ => Ret (entries, dropped, bytes)
  end.

Definition sizes (entries : list (Z * Z)) : Z := foldr (λ e s, snd e + s) 0 entries.

Definition _enforce_cap_locked (sp : Spool) : prog Spool :=
  if cap_bytes sp =? 0 then Ret sp
  else if sizes (_entries sp) <=? cap_bytes sp then Ret sp
  else
    '(es, dropped, bytes) ← trim_loop (cap_bytes sp) (sizes (_entries sp)) (_entries sp) 0 0;
    let sp := with_entries sp es in
    if dropped =? 0 then Ret sp
    else
      '(now, _) ← wall;
      let sp := with_counters sp (count_trimmed (_counters sp) dropped bytes now) in
      _ ← save (_counters sp); Ret sp.

Definition append (sp : Spool) (p : payload) : prog (bool * Spool) :=
  if negb (enabled sp) then Ret (false, sp)
  else
    '(now, repr) ← wall;
    let size := Z.of_nat (length (body repr p)) in
    if negb (cap_bytes sp =? 0) && (cap_bytes sp <? size) then
      '(now, _) ← wall;
      let sp := with_counters sp (count_trimmed (_counters sp) 1 size now) in
      _ ← save (_counters sp); Ret (false, sp)
    else
      '(name, sp) ← _next_seq sp;
      WriteEntry name (mkEntry now p size) (λ ok,
        if ok then sp ← _enforce_cap_locked (with_entries sp (_entries sp ++ [(name, size)])); Ret (true, sp)
        else
          let sp := with_counters sp (count_write_failure (_counters sp)) in
          _ ← save (_counters sp); Ret (false, sp)).

Definition drop_entry (sp : Spool) (name : Z) : Spool :=
  with_entries sp (List.filter (λ e, negb (fst e =? name)) (_entries sp)).
Definition _remove (sp : Spool) (why : option reason) (name : Z) : prog Spool := _ ← unlink why name; Ret (drop_entry sp name).

Definition _count_rejected (sp : Spool) : prog Spool :=
  '(now, _) ← wall;
  let sp := with_counters sp (count_rejected (_counters sp) now) in
  _ ← save (_counters sp); Ret sp.

(** [(payload, expired)]; an entry that is not an object with a [payload]
    object reads as [None] here. *)
Definition _usable (sp : Spool) (name : Z) (data : option entry) : prog (option payload * bool * Spool) :=
  match data with
  | None => sp ← _remove sp (Some Unreadable) name; Ret (None, false, sp)
  | Some e =>
      match max_age_seconds sp with
      | None => Ret (Some (e_payload e), false, sp)
      | Some age =>
          '(now, _) ← wall;
          if age <? now - spooled_at e then sp ← _remove sp (Some Expired) name; Ret (None, true, sp)
          else Ret (Some (e_payload e), false, sp)
      end
  end.

(** ** The shipper *)
Record Shipper := mkShipper {
  spool : Spool;
  _backoff : Z;
  _retry_after : Z;
  last_send_outcome : option outcome;
  last_status : option Z;
}.
Definition with_spool (a : Shipper) (sp : Spool) : Shipper :=
  mkShipper sp (_backoff a) (_retry_after a) (last_send_outcome a) (last_status a).

Definition _server_error (a : Shipper) : bool := bool_decide (last_status a = Some 500).

Definition _send (a : Shipper) (p : payload) : prog (outcome * Shipper) :=
  Post p (λ status,
    let o := match status with None => RETRY | Some s => classify_status s end in
    if bool_decide (o = RETRY) && negb (_backoff a =? 0)
    then now ← mono; Ret (o, mkShipper (spool a) (_backoff a) (now + _backoff a) (Some o) status)
    else Ret (o, mkShipper (spool a) (_backoff a) (_retry_after a) (Some o) status)).

Definition _poison_due (sp : Spool) (name : Z) : prog (bool * Spool) :=
  now ← mono;
  start ← match _head_failures sp with
          | Some (n, k, m, w) => if n =? name then Ret (k, m, w) else '(t, _) ← wall; Ret (0, now, t)
          | None => '(t, _) ← wall; Ret (0, now, t)
          end;
  let '(k, m, w) := start in
  Ret ((POISON_ATTEMPTS <=? k + 1) && (POISON_MIN_SECONDS <=? now - m), with_failures sp (Some (name, k + 1, m, w))).

(** The entry queued right behind [head]. *)
Fixpoint behind (head : Z) (entries : list (Z * Z)) : option Z :=
  match entries with
  | [] => None
  | (n, _) :: rest => if n =? head then fst <$> hd_error rest else behind head rest
  end.

(** The [while True] removes an entry in every turn but its last: one turn per
    entry is enough. *)
Fixpoint _probe_behind (fuel : nat) (a : Shipper) (head : Z) (expired : Z) : prog (option outcome * Z * Shipper) :=
  match fuel with
  | O => Ret (None, expired, a)
  | S fuel =>
      match behind head (_entries (spool a)) with
      | None => Ret (None, expired, a)
      | Some name =>
          ReadEntry name (λ data,
            '(p, was_expired, sp) ← _usable (spool a) name data;
            let a := with_spool a sp in
            match p with
            | None => _probe_behind fuel a head (expired + Z.b2z was_expired)
            | Some p =>
                '(o, a) ← _send a p;
                match o with
                | RETRY => Ret (Some o, expired, a)
                | SENT => sp ← _remove (spool a) None name; Ret (Some o, expired, with_spool a sp)
                | REJECTED =>
                    sp ← _count_rejected (spool a);
                    sp ← _remove sp (Some Refused) name; Ret (Some o, expired, with_spool a sp)
                end
            end)
      end
  end.

Definition _quarantine (sp : Spool) (name : Z) : prog Spool :=
  sp ← _remove (with_failures sp None) (Some Poisoned) name;
  _count_rejected sp.

(** The [for] of [drain]: [sent] and [expired] are its locals. *)
Fixpoint drain_loop (n : nat) (a : Shipper) (expired : Z) : prog (Z * Shipper) :=
  match n with
  | O => Ret (expired, a)
  | S n =>
      match _entries (spool a) with
      | [] => Ret (expired, a)
      | (name, _) :: _ =>
          ReadEntry name (λ data,
            '(p, was_expired, sp) ← _usable (spool a) name data;
            let a := with_spool a sp in
            match p with
            | None => drain_loop n a (expired + Z.b2z was_expired)
            | Some p =>
                '(o, a) ← _send a p;
                match o with
                | RETRY =>
                    if negb (_server_error a) then Ret (expired, with_spool a (with_failures (spool a) None))
                    else
                      '(due, sp) ← _poison_due (spool a) name;
                      let a := with_spool a sp in
                      if negb due then Ret (expired, a)
                      else
                        '(probe, e, a) ← _probe_behind (length (_entries (spool a))) a name 0;
                        let expired := expired + e in
                        match probe with
                        | Some SENT | Some REJECTED => sp ← _quarantine (spool a) name; drain_loop n (with_spool a sp) expired
                        | _ => Ret (expired, a)
                        end
                | SENT =>
                    sp ← _remove (with_failures (spool a) None) None name;
                    drain_loop n (with_spool a sp) expired
                | REJECTED =>
                    sp ← _count_rejected (with_failures (spool a) None);
                    sp ← _remove sp (Some Refused) name;
                    drain_loop n (with_spool a sp) expired
                end
            end)
      end
  end.

Definition is_empty (a : Shipper) : bool := match _entries (spool a) with [] => true | _ => false end.

(** [Spool.drain] with the shipper's [_send]. *)
Definition spool_drain_max (max_batches : nat) (a : Shipper) : prog (bool * Shipper) :=
  if negb (enabled (spool a)) then Ret (true, a)
  else
    '(expired, a) ← drain_loop max_batches a 0;
    if expired =? 0 then Ret (is_empty a, a)
    else
      let sp := with_counters (spool a) (count_expired (_counters (spool a)) expired) in
      _ ← save (_counters sp);
      let a := with_spool a sp in Ret (is_empty a, a).
Definition spool_drain : Shipper → prog (bool * Shipper) := spool_drain_max DRAIN_BATCHES_PER_CALL.

Definition _backing_off (a : Shipper) : prog bool :=
  if (0 <? _backoff a) && enabled (spool a) then now ← mono; Ret (now <? _retry_after a) else Ret false.

Definition spool_append (a : Shipper) (p : payload) : prog (bool * Shipper) :=
  '(ok, sp) ← append (spool a) p; Ret (ok, with_spool a sp).

(** [append] whose answer is not looked at: the batch may be gone. *)
Definition append_or_lose (a : Shipper) (p : payload) : prog Shipper :=
  '(ok, a) ← spool_append a p;
  if ok : bool then Ret a else Lose NotKept p (Ret a).

Definition stamp (p : payload) : prog payload :=
  match find_key "batch_id" p with
  | Some _ => Ret p
  | None => Uuid (λ id, Ret (p ++ [("batch_id" : str, JStr id)]))
  end.

Definition ship_live (a : Shipper) (p : payload) : prog (outcome * Shipper) :=
  '(drained, a) ← (if is_empty a then Ret (true, a) else spool_drain a);
  if negb drained then a ← append_or_lose a p; Ret (RETRY, a)
  else
    '(o, a) ← _send a p;
    match o with
    | RETRY => a ← append_or_lose a p; Ret (o, a)
    | SENT => Ret (o, a)
    | REJECTED => Lose Refused p (Ret (o, a))
    end.

(** [ship] behind the [setdefault]. *)
Definition ship_stamped (a : Shipper) (p : payload) : prog (outcome * Shipper) :=
  off ← _backing_off a;
  if off : bool then '(ok, a) ← spool_append a p; if ok : bool then Ret (RETRY, a) else ship_live a p else ship_live a p.

Definition ship (a : Shipper) (p : payload) : prog (outcome * Shipper) :=
  p ← stamp p;
  Produce p (r ← ship_stamped a p; Settle (Ret r)).

Definition drain (a : Shipper) : prog (bool * Shipper) :=
  if is_empty a then Ret (true, a)
  else
    off ← _backing_off a;
    if off : bool then Ret (false, a) else spool_drain a.

(** ** The server's receipts *)
Record Server := mkServer { receipts : gmap str Z; ingested : list payload }.

Definition batch_id (p : payload) : option str :=
  match find_key "batch_id" p with Some (JStr s) => Some s | _ => None end.

Definition claim_batch (srv : Server) (id : option str) (now : Z) : bool * Server :=
  match id with
  | None => (true, srv)
  | Some i =>
      match receipts srv !! i with
      | Some _ => (false, srv)
      | None => (true, mkServer (<[i := now]> (receipts srv)) (ingested srv))
      end
  end.

(** A batch-ingest handler's transaction, committed. *)
Definition ingest (srv : Server) (p : payload) (now : Z) : Server :=
  let '(claimed, srv) := claim_batch srv (batch_id p) now in
  if claimed then mkServer (receipts srv) (ingested srv ++ [p]) else srv.

Definition RECEIPT_RETENTION : Z := 35 * 24 * 3600 * 1000000.
Definition prune_receipts (srv : Server) (now : Z) : Server :=
  mkServer (filter (λ kv, now - RECEIPT_RETENTION <= kv.2) (receipts srv)) (ingested srv).

(** ** Worlds and runs *)

(** [produced], [inflight], [lost] and [used] are ghosts: the batches shipped
    so far, the one a [ship] is busy with, those given up, the ids handed out. *)
Record World := mkWorld {
  files : gmap Z entry;
  state_file : option Counters;
  srv : Server;
  produced : list payload;
  inflight : option payload;
  lost : list (reason * payload);
  used : gset str;
}.

Definition set_files (w : World) (f : gmap Z entry) : World :=
  mkWorld f (state_file w) (srv w) (produced w) (inflight w) (lost w) (used w).
Definition set_state (w : World) (c : Counters) : World :=
  mkWorld (files w) (Some c) (srv w) (produced w) (inflight w) (lost w) (used w).
Definition set_srv (w : World) (s : Server) : World :=
  mkWorld (files w) (state_file w) s (produced w) (inflight w) (lost w) (used w).
Definition lose (w : World) (why : reason) (p : payload) : World :=
  mkWorld (files w) (state_file w) (srv w) (produced w) (inflight w) (lost w ++ [(why, p)]) (used w).
Definition set_inflight (w : World) (o : option payload) (ps : list payload) : World :=
  mkWorld (files w) (state_file w) (srv w) ps o (lost w) (used w).
Definition use_id (w : World) (id : str) : World :=
  mkWorld (files w) (state_file w) (srv w) (produced w) (inflight w) (lost w) ({[id]} ∪ used w).

Definition unlink_file (w : World) (why : option reason) (seq : Z) : World :=
  let w' := set_files w (delete seq (files w)) in
  match why, files w !! seq with
  | Some y, Some e => lose w' y (e_payload e)
  | _, _ => w'
  end.

(** The directory, sorted by name. *)
Definition names (w : World) : list Z := merge_sort Z.le (elements (dom (files w))).
Definition listing (w : World) : list (Z * Z) := map (λ s, (s, from_option e_size 0 (files w !! s))) (names w).

Definition ok_status (st : option Z) : Prop := ∃ s, st = Some s ∧ 200 <= s < 300.

(** *** One run
    An environment for one call: the answers of the control plane (with whether
    the batch is committed), the readings of the clocks, the state of the disk. *)
Record Env := mkEnv { verdict : payload → option Z * bool; clock_mono : Z; clock_wall : Z; clock_text : str; disk : bool }.

Definition fresh_id (u : gset str) : str := repeat "0"%char (S (foldr Nat.max 0%nat (map length (elements u)))).

Fixpoint exec {A} (env : Env) (p : prog A) (w : World) : A * World :=
  match p with
  | Ret a => (a, w)
  | TimeNs k => exec env (k (clock_wall env * 1000)) w
  | Wall k => exec env (k (clock_wall env) (clock_text env)) w
  | Mono k => exec env (k (clock_mono env)) w
  | Uuid k => exec env (k (fresh_id (used w))) (use_id w (fresh_id (used w)))
  | ListDir k => exec env (k (listing w)) w
  | LoadState k => exec env (k (state_file w)) w
  | SaveState c k => exec env k (if disk env then set_state w c else w)
  | WriteEntry s e k =>
      if disk env then exec env (k true) (set_files w (<[s := e]> (files w))) else exec env (k false) w
  | ReadEntry s k => exec env (k (if disk env then files w !! s else None)) w
  | Unlink why s k => exec env k (unlink_file w why s)
  | Post p k =>
      exec env (k (verdict env p).1) (if (verdict env p).2 then set_srv w (ingest (srv w) p (clock_wall env)) else w)
  | Lose why p k => exec env k (lose w why p)
  | Produce p k => exec env k (set_inflight w (Some p) (produced w))
  | Settle k => exec env k (set_inflight w None (produced w ++ option_list (inflight w)))
  end.

Section runs.
(** The statuses the control plane and what is in front of it may answer. *)
Context (answers : option Z → Prop).

Inductive run {A} : World → prog A → World → option A → Prop :=
| run_died w p : run w p w None
| run_ret w a : run w (Ret a) w (Some a)
| run_time_ns w k t w' r : run w (k t) w' r → run w (TimeNs k) w' r
| run_wall w k t s w' r : run w (k t s) w' r → run w (Wall k) w' r
| run_mono w k t w' r : run w (k t) w' r → run w (Mono k) w' r
| run_uuid w k id w' r : id ∉ used w → run (use_id w id) (k id) w' r → run w (Uuid k) w' r
| run_list_dir w k w' r : run w (k (listing w)) w' r → run w (ListDir k) w' r
| run_load_state w k c w' r : c = state_file w ∨ c = None → run w (k c) w' r → run w (LoadState k) w' r
| run_save_state w c k w' r : run (set_state w c) k w' r → run w (SaveState c k) w' r
| run_save_fails w c k w' r : run w k w' r → run w (SaveState c k) w' r
| run_write w s e k w' r : run (set_files w (<[s := e]> (files w))) (k true) w' r → run w (WriteEntry s e k) w' r
| run_write_fails w s e k w' r : run w (k false) w' r → run w (WriteEntry s e k) w' r
| run_read w s k w' r : run w (k (files w !! s)) w' r → run w (ReadEntry s k) w' r
| run_read_fails w s k w' r : run w (k None) w' r → run w (ReadEntry s k) w' r
| run_unlink w why s k w' r : run (unlink_file w why s) k w' r → run w (Unlink why s k) w' r
(* Not committed: never a success answer.  Committed: any answer may come back. *)
| run_post_refused w p k st w' r : answers st → ¬ ok_status st → run w (k st) w' r → run w (Post p k) w' r
| run_post_committed w p k now st w' r : answers st → run (set_srv w (ingest (srv w) p now)) (k st) w' r → run w (Post p k) w' r
| run_lose w why p k w' r : run (lose w why p) k w' r → run w (Lose why p k) w' r
| run_produce w p k w' r : run (set_inflight w (Some p) (produced w)) k w' r → run w (Produce p k) w' r
| run_settle w k w' r :
    run (set_inflight w None (produced w ++ option_list (inflight w))) k w' r → run w (Settle k) w' r.

(** The weakest precondition of a program, every stopping point included. *)
Fixpoint wp {A} (p : prog A) (Q : option A → World → Prop) (w : World) : Prop :=
  Q None w ∧
  match p with
  | Ret a => Q (Some a) w
  | TimeNs k | Mono k => ∀ t, wp (k t) Q w
  | Wall k => ∀ t s, wp (k t s) Q w
  | Uuid k => ∀ id, id ∉ used w → wp (k id) Q (use_id w id)
  | ListDir k => wp (k (listing w)) Q w
  | LoadState k => wp (k (state_file w)) Q w ∧ wp (k None) Q w
  | SaveState c k => wp k Q (set_state w c) ∧ wp k Q w
  | WriteEntry s e k => wp (k true) Q (set_files w (<[s := e]> (files w))) ∧ wp (k false) Q w
  | ReadEntry s k => wp (k (files w !! s)) Q w ∧ wp (k None) Q w
  | Unlink why s k => wp k Q (unlink_file w why s)
  | Post p k =>
      (∀ st, answers st → ¬ ok_status st → wp (k st) Q w)
      ∧ ∀ now st, answers st → wp (k st) Q (set_srv w (ingest (srv w) p now))
  | Lose why p k => wp k Q (lose w why p)
  | Produce p k => wp k Q (set_inflight w (Some p) (produced w))
  | Settle k => wp k Q (set_inflight w None (produced w ++ option_list (inflight w)))
  end.

Lemma wp_run {A} (p : prog A) Q w w' r : wp p Q w → run w p w' r → Q r w'.
Proof.
  intros Hwp Hrun. induction Hrun; simpl in Hwp; try (apply IHHrun; naive_solver); try naive_solver.
  by destruct p, Hwp.
Qed.

Lemma wp_mono {A} (p : prog A) (Q Q' : option A → World → Prop) w :
  (∀ r w', Q r w' → Q' r w') → wp p Q w → wp p Q' w.
Proof. intros HQ. revert w. induction p; simpl; intros w; naive_solver. Qed.

Lemma prog_wp_bind {A B} (f : A → prog B) (p : prog A) Q w :
  wp p (λ r w', match r with Some a => wp (f a) Q w' | None => Q None w' end) w → wp (p ≫= f) Q w.
Proof.
  unfold mbind, prog_mbind. revert w. induction p; simpl; intros w; naive_solver.
Qed.

Lemma fresh_id_fresh u : fresh_id u ∉ u.
Proof.
  intros H%elem_of_elements. assert (Hlen : ∀ s l, s ∈ l → (length (s : str) ≤ foldr Nat.max 0 (map length l))%nat).
  { intros s l. induction l as [|x l IH]; [by intros ?%not_elem_of_nil|]. cbn. intros [->|?%IH]%elem_of_cons; lia. }
  apply Hlen in H. unfold fresh_id in H. rewrite repeat_length in H. lia.
Qed.

(** What [exec] computes is a run, where its answers are allowed and a success
    is only answered once the batch is committed. *)
Definition allowed (env : Env) : Prop :=
  ∀ p, answers (verdict env p).1 ∧ ((verdict env p).2 = false → ¬ ok_status (verdict env p).1).

Lemma exec_run {A} env (p : prog A) w : allowed env → run w p (exec env p w).2 (Some (exec env p w).1).
Proof.
  intros Hal. revert w. induction p; intros w; cbn [exec].
  - apply run_ret.
  - by eapply run_time_ns.
  - by eapply run_wall.
  - by eapply run_mono.
  - eapply run_uuid; [apply fresh_id_fresh|auto].
  - by apply run_list_dir.
  - eapply run_load_state; [by left|auto].
  - destruct (disk env); [by apply run_save_state|by apply run_save_fails].
  - destruct (disk env); [by apply run_write|by apply run_write_fails].
  - destruct (disk env); [by apply run_read|by apply run_read_fails].
  - by apply run_unlink.
  - destruct (Hal p) as [Ha Hc]. destruct (verdict env p) as [st [|]]; cbn [fst snd] in *.
    + eapply run_post_committed; [done|auto].
    + eapply run_post_refused; [done|auto|auto].
  - by apply run_lose.
  - by apply run_produce.
  - by apply run_settle.
Qed.


Lemma wp_none {A} (p : prog A) Q w : wp p Q w → Q None w.
Proof. by destruct p; intros [H _]. Qed.
End runs.

(** ** The directory as a sorted list *)
Lemma lt_sorted_unique (l1 l2 : list Z) : StronglySorted Z.lt l1 → StronglySorted Z.lt l2 → (∀ s, s ∈ l1 ↔ s ∈ l2) → l1 = l2.
Proof.
  revert l2. induction l1 as [|x l1 IH]; intros [|y l2] H1 H2 He; [done| | |].
  - exfalso. apply (not_elem_of_nil y), He. by left.
  - exfalso. apply (not_elem_of_nil x), He. by left.
  - apply StronglySorted_inv in H1 as [S1 F1], H2 as [S2 F2]. rewrite Forall_forall in F1, F2.
    assert (x = y) as ->.
    { destruct (proj1 (elem_of_cons l2 x y) (proj1 (He x) ltac:(by left))) as [?|Hx]; [done|].
      destruct (proj1 (elem_of_cons l1 y x) (proj2 (He y) ltac:(by left))) as [?|Hy]; [done|].
      specialize (F1 y Hy). specialize (F2 x Hx). lia. }
    f_equal. apply IH; [done|done|]. intros s. split; intros Hs.
    + destruct (proj1 (elem_of_cons l2 s y) (proj1 (He s) ltac:(by right))) as [->|?]; [|done].
      specialize (F1 y Hs). lia.
    + destruct (proj1 (elem_of_cons l1 s y) (proj2 (He s) ltac:(by right))) as [->|?]; [|done].
      specialize (F2 y Hs). lia.
Qed.

Lemma elem_names w s : s ∈ names w ↔ is_Some (files w !! s).
Proof. unfold names. rewrite merge_sort_Permutation, elem_of_elements, elem_of_dom. done. Qed.

Lemma names_sorted w : StronglySorted Z.lt (names w).
Proof.
  assert (Hn : NoDup (names w)) by (unfold names; rewrite merge_sort_Permutation; apply NoDup_elements).
  assert (Hs : StronglySorted Z.le (names w)).
  { unfold names. apply Sorted_StronglySorted; [intros a b c; lia|]. apply Sorted_merge_sort. intros a b. lia. }
  revert Hn Hs. generalize (names w). intros l. induction l as [|x l IH]; intros Hn Hs; constructor.
  - apply NoDup_cons in Hn as [_ Hn]. apply StronglySorted_inv in Hs as [Hs _]. by apply IH.
  - apply NoDup_cons in Hn as [Hx _]. apply StronglySorted_inv in Hs as [_ Hs]. rewrite Forall_forall in *. intros y Hy.
    specialize (Hs y Hy). assert (x ≠ y) by (intros ->; done). lia.
Qed.

Lemma names_unique w l : StronglySorted Z.lt l → (∀ s, s ∈ l ↔ is_Some (files w !! s)) → names w = l.
Proof. intros Hl He. apply lt_sorted_unique; [apply names_sorted|done|]. intros s. by rewrite elem_names, He. Qed.

Lemma sorted_filter (p : Z → bool) l : StronglySorted Z.lt l → StronglySorted Z.lt (List.filter p l).
Proof.
  induction 1 as [|x l Hl IH Hf]; simpl; [constructor|]. destruct (p x); [|done]. constructor; [done|].
  rewrite Forall_forall in *. intros y Hy. apply Hf. apply list_elem_of_In, filter_In in Hy as [Hy _]. by apply list_elem_of_In.
Qed.

Lemma names_delete w s : names (set_files w (delete s (files w))) = List.filter (λ n, negb (n =? s)) (names w).
Proof.
  apply names_unique; [apply sorted_filter, names_sorted|]. intros n. simpl.
  rewrite list_elem_of_In, filter_In, <- list_elem_of_In, elem_names, lookup_delete_is_Some, negb_true_iff, Z.eqb_neq. naive_solver.
Qed.

Lemma names_insert w s e : (∀ n, n ∈ names w → n < s) → names (set_files w (<[s := e]> (files w))) = names w ++ [s].
Proof.
  intros Hs. apply names_unique.
  - pose proof (names_sorted w) as H. revert H Hs. generalize (names w). intros l. induction 1 as [|x l Hl IH Hf]; intros Hs; simpl.
    + repeat constructor.
    + constructor; [apply IH; intros n Hn; apply Hs; by right|]. apply Forall_app. split; [done|]. repeat constructor. apply Hs. by left.
  - intros n. rewrite elem_of_app, list_elem_of_singleton, elem_names. simpl. rewrite lookup_insert_is_Some. 
    destruct (decide (s = n)); naive_solver.
Qed.

(** ** What happens to a batch *)
Definition queued (w : World) (p : payload) : Prop := ∃ s e, files w !! s = Some e ∧ e_payload e = p.
Definition stored (w : World) (p : payload) : Prop := p ∈ ingested (srv w) ∨ queued w p.
Definition accounted (w : World) (p : payload) : Prop := stored w p ∨ ∃ why, (why, p) ∈ lost w.
Definition known (w : World) (p : payload) : Prop := stored w p ∨ inflight w = Some p ∨ p ∈ produced w.

Definition ids (ps : list payload) : list str := omap batch_id ps.
Definition id_at (w : World) (s : Z) : option str := e ← files w !! s; batch_id (e_payload e).
Definition queue_ids (w : World) : list str := omap (id_at w) (names w).
Definition got (w : World) : list str := ids (ingested (srv w)).

(** Ingested, then the batches still to come, oldest first. *)
Definition line (w : World) : list str := got w ++ List.filter (λ i, bool_decide (i ∉ got w)) (queue_ids w).

Record sound (w : World) : Prop := {
  so_once : NoDup (got w);
  so_known p : known w p → ∃ i, batch_id p = Some i ∧ i ∈ used w;
  so_same p q : known w p → known w q → batch_id p = batch_id q → p = q;
  so_receipt p i : queued w p ∨ inflight w = Some p → batch_id p = Some i → i ∈ got w → is_Some (receipts (srv w) !! i);
  so_claimed i : is_Some (receipts (srv w) !! i) → i ∈ got w;
}.

Lemma elem_ids i ps : i ∈ ids ps ↔ ∃ p, p ∈ ps ∧ batch_id p = Some i.
Proof. unfold ids. by rewrite list_elem_of_omap. Qed.

Lemma ids_app ps qs : ids (ps ++ qs) = ids ps ++ ids qs.
Proof. apply omap_app. Qed.

Lemma omap_sublist {A B} (f : A → option B) (l1 l2 : list A) : l1 `sublist_of` l2 → omap f l1 `sublist_of` omap f l2.
Proof. induction 1 as [|x ? ? ? IH|x ? ? ? IH]; simpl; [done| |]; destruct (f x); by try constructor. Qed.

Lemma filter_sublist_mono {A} (f : A → bool) (l1 l2 : list A) : l1 `sublist_of` l2 → List.filter f l1 `sublist_of` List.filter f l2.
Proof. induction 1 as [|x ? ? ? IH|x ? ? ? IH]; simpl; [done| |]; destruct (f x); by try constructor. Qed.

Lemma omap_cong {A B} (f g : A → option B) (l : list A) : (∀ x, x ∈ l → f x = g x) → omap f l = omap g l.
Proof.
  induction l as [|x l IH]; intros H; csimpl; [done|]. rewrite (H x) by (by left). rewrite IH; [done|]. intros y Hy. apply H. by right.
Qed.

(** *** What one call may do to the world while another batch is in flight *)
Section effects.
Context (answers : option Z → Prop) (may_disable : Prop).

(** No 500 is ever answered, and every start finds its directory. *)
Definition calm : Prop := ¬ answers (Some 500) ∧ ¬ may_disable.

Record moves (w w' : World) : Prop := {
  mo_produced : produced w' = produced w;
  mo_inflight : inflight w' = inflight w;
  mo_used : used w' = used w;
  mo_stored p : stored w' p → stored w p;
  mo_accounted p : accounted w p → accounted w' p;
  mo_sound : sound w → sound w';
  mo_got i : i ∈ got w → i ∈ got w';
  mo_line : calm → sound w → line w' `sublist_of` line w;
}.

#[export] Instance moves_refl : Reflexive moves.
Proof. by constructor. Qed.
#[export] Instance moves_trans : Transitive moves.
Proof.
  intros a b c H1 H2. constructor; try (destruct H1, H2; congruence); destruct H1, H2; auto.
  intros Hc Hs. transitivity (line b); auto.
Qed.

Lemma moves_same w w' : files w' = files w → srv w' = srv w → produced w' = produced w → inflight w' = inflight w →
  lost w' = lost w → used w' = used w → moves w w'.
Proof. destruct w, w'; simpl. intros -> -> -> -> -> ->. by constructor; try done; intros [? ? ? ? ?]; split. Qed.

Lemma got_grows w p now i : i ∈ got w → i ∈ got (set_srv w (ingest (srv w) p now)).
Proof.
  unfold got. rewrite !elem_ids. intros (q & Hq & Hi). exists q. split; [|done]. simpl. unfold ingest, claim_batch.
  destruct (batch_id p) as [j|]; [destruct (receipts (srv w) !! j)|]; simpl; [done| |]; apply elem_of_app; by left.
Qed.

(** [unlink]: the file goes; its batch was ingested, or is written off. *)
Lemma moves_unlink w why s : (why = None → ∀ e, files w !! s = Some e → e_payload e ∈ ingested (srv w)) →
  moves w (unlink_file w why s).
Proof.
  intros Hack. set (w' := unlink_file w why s).
  assert (Hf : files w' = delete s (files w)) by (unfold w', unlink_file; by destruct why, (files w !! s)).
  assert (Hsrv : srv w' = srv w) by (unfold w', unlink_file; by destruct why, (files w !! s)).
  assert (Hp : produced w' = produced w) by (unfold w', unlink_file; by destruct why, (files w !! s)).
  assert (Hi : inflight w' = inflight w) by (unfold w', unlink_file; by destruct why, (files w !! s)).
  assert (Hu : used w' = used w) by (unfold w', unlink_file; by destruct why, (files w !! s)).
  assert (Hl : ∀ x, x ∈ lost w → x ∈ lost w').
  { unfold w', unlink_file. destruct why, (files w !! s); simpl; try done. intros x Hx. apply elem_of_app. by left. }
  assert (Hq : ∀ p, queued w' p → queued w p).
  { intros p (n & e & Hn & He). rewrite Hf in Hn. apply lookup_delete_Some in Hn as [_ Hn]. by exists n, e. }
  assert (Hst : ∀ p, stored w' p → stored w p).
  { intros p [H|H]; [left; by rewrite <- Hsrv|right; auto]. }
  assert (Hk : ∀ p, known w' p → known w p).
  { intros p [H|[H|H]]; [left; auto|right; left; congruence|right; right; congruence]. }
  constructor; try done.
  - intros p [[H|(n & e & Hn & He)]|(y & H)].
    + left; left. by rewrite Hsrv.
    + destruct (decide (n = s)) as [->|Hne].
      * destruct why as [y|]; [right; exists y|left; left; rewrite Hsrv, <- He; by apply Hack].
        unfold w', unlink_file. rewrite Hn. simpl. apply elem_of_app. right. rewrite He. by apply list_elem_of_singleton.
      * left; right. exists n, e. by rewrite Hf, lookup_delete_ne.
    + right. exists y. auto.
  - intros [A B C D E]. unfold got in *. constructor; unfold got; rewrite ?Hsrv, ?Hu; try done; auto.
    intros p i [H|H]; apply D; [left; auto|right; congruence].
  - intros i. unfold got. by rewrite Hsrv.
  - intros _ _. unfold line, got. rewrite Hsrv. apply sublist_app; [done|].
    apply filter_sublist_mono. unfold queue_ids.
    assert (names w' = List.filter (λ n, negb (n =? s)) (names w)) as ->.
    { rewrite <- names_delete. unfold names. simpl. by rewrite Hf. }
    rewrite (omap_cong (id_at w') (id_at w)); [apply omap_sublist, filter_sublist|].
    intros n Hn. apply list_elem_of_In, filter_In in Hn as [_ Hn%negb_true_iff%Z.eqb_neq].
    unfold id_at. by rewrite Hf, lookup_delete_ne.
Qed.

(** A file is sent: the server may have it now. *)
Lemma ingest_cases s p now i : batch_id p = Some i →
  (is_Some (receipts s !! i) ∧ ingest s p now = s)
  ∨ receipts s !! i = None ∧ ingest s p now = mkServer (<[i := now]> (receipts s)) (ingested s ++ [p]).
Proof. intros Hi. unfold ingest, claim_batch. rewrite Hi. destruct (receipts s !! i) eqn:E; [left|right]; simpl; eauto. Qed.

(** The world after a delivery of [p], which the agent holds. *)
Lemma ingest_sound w p now : sound w → queued w p ∨ inflight w = Some p →
  let w' := set_srv w (ingest (srv w) p now) in
  sound w' ∧ p ∈ ingested (srv w') ∧ (∀ q, q ∈ ingested (srv w') → q ∈ ingested (srv w) ∨ q = p)
  ∧ ∃ i, batch_id p = Some i ∧ (i ∈ got w ∧ w' = w ∨ i ∉ got w ∧ got w' = got w ++ [i]).
Proof.
  intros Hs Hp w'. assert (Hk : known w p) by (destruct Hp; [left; by right|right; by left]).
  destruct (so_known _ Hs p Hk) as (i & Hi & Hu).
  destruct (ingest_cases (srv w) p now i Hi) as [[Hr He]|[Hr He]].
  - assert (w' = w) as -> by (unfold w'; rewrite He; by destruct w). pose proof (so_claimed _ Hs i Hr) as Hg.
    destruct (proj1 (elem_ids _ _) Hg) as (q & Hq & Hqi).
    assert (q = p) as -> by (apply (so_same _ Hs); [by do 2 left|done|congruence]).
    split_and!; [done|done|by left|]. exists i. split; [done|]. by left.
  - assert (Hin : i ∉ got w).
    { intros Hg. destruct (so_receipt _ Hs p i Hp Hi Hg) as [t Ht]. congruence. }
    assert (Hgot : got w' = got w ++ [i]).
    { unfold got, w'. simpl. rewrite He. simpl. rewrite ids_app. unfold ids at 2. simpl. by rewrite Hi. }
    assert (Hing : ∀ q, q ∈ ingested (srv w') ↔ q ∈ ingested (srv w) ∨ q = p).
    { intros q. unfold w'. simpl. rewrite He. simpl. by rewrite elem_of_app, list_elem_of_singleton. }
    assert (Hkn : ∀ q, known w' q → known w q).
    { intros q [[H|H]|[H|H]]; [apply Hing in H as [H| ->]; [by do 2 left|done]|left; by right|right; by left|right; by right]. }
    split_and!; [|apply Hing; by right|by intros q ?%Hing|exists i; auto].
    destruct Hs as [A B C D E]. constructor.
    + rewrite Hgot. apply NoDup_app. split_and!; [done|by intros x Hx ->%list_elem_of_singleton|apply NoDup_singleton].
    + intros q Hq. apply B. auto.
    + intros q q' Hq Hq'. apply C; auto.
    + intros q j Hq Hj. rewrite Hgot. unfold w'. simpl. rewrite He. simpl. intros [Hg|Hg]%elem_of_app.
      * destruct (D q j Hq Hj Hg) as [t Ht]. destruct (decide (i = j)) as [->|Hne]; [rewrite lookup_insert_eq; eauto|].
        rewrite lookup_insert_ne by done. eauto.
      * apply list_elem_of_singleton in Hg as ->. rewrite lookup_insert_eq. eauto.
    + intros j. rewrite Hgot. unfold w'. simpl. rewrite He. simpl. rewrite elem_of_app, list_elem_of_singleton.
      destruct (decide (i = j)) as [->|Hne]; [by right|]. rewrite lookup_insert_ne by done. left. by apply E.
Qed.

Lemma ingest_grows s p now q : q ∈ ingested s → q ∈ ingested (ingest s p now).
Proof.
  unfold ingest, claim_batch. intros Hq. destruct (batch_id p) as [i|]; [destruct (receipts s !! i)|]; simpl; [done| |];
    apply elem_of_app; by left.
Qed.

Lemma ingest_new s p now q : q ∈ ingested (ingest s p now) → q ∈ ingested s ∨ q = p.
Proof.
  unfold ingest, claim_batch. destruct (batch_id p) as [i|]; [destruct (receipts s !! i)|]; simpl; [auto| |];
    (intros [?|?%list_elem_of_singleton]%elem_of_app; auto).
Qed.

(** Delivering the oldest file keeps the line. *)
Lemma moves_ingest w s e now : files w !! s = Some e → (calm → ∃ rest, names w = s :: rest) →
  moves w (set_srv w (ingest (srv w) (e_payload e) now)).
Proof.
  intros Hf Hhead. set (p := e_payload e). set (w' := set_srv w _).
  assert (Hq : queued w p) by by exists s, e.
  constructor; try done.
  - intros q [H|H]; [|by right]. apply ingest_new in H as [H| ->]; [by left|by right].
  - intros q [[H|H]|H]; [left; left; by apply ingest_grows|left; by right|by right].
  - intros Hs. by apply (ingest_sound w p now Hs); left.
  - intros i. apply got_grows.
  - intros Hc Hs. destruct (ingest_sound w p now Hs) as (_ & _ & _ & i & Hi & Hcase); [by left|]. fold w' in Hcase.
    destruct Hcase as [[_ ->]|[Hin Hg]]; [done|]. destruct (Hhead Hc) as [rest Hn].
    unfold line. rewrite Hg. change (queue_ids w') with (queue_ids w).
    assert (queue_ids w = i :: omap (id_at w) rest) as ->.
    { assert (Hid : id_at w s = Some i) by (unfold id_at; rewrite Hf; done).
      unfold queue_ids. rewrite Hn. csimpl. by rewrite Hid. }
    simpl. rewrite (bool_decide_true (i ∉ got w)) by done. rewrite bool_decide_false by (intros H; apply H, elem_of_app; right; by left).
    rewrite <- app_assoc. apply sublist_app; [done|].  simpl. constructor.
    clear. induction (omap (id_at w) rest) as [|j l IH]; simpl; [done|].
    destruct (decide (j ∈ got w)) as [Hj|Hj].
    + rewrite !bool_decide_false by (intros H; apply H; rewrite ?elem_of_app; auto). done.
    + rewrite (bool_decide_true (j ∉ got w)) by done. case_bool_decide; by constructor.
Qed.

(** ** Specifications of the methods *)
Definition works {A} (p : prog A) (w : World) (R : A → World → Prop) : Prop :=
  wp answers p (λ r w', moves w w' ∧ match r with Some a => R a w' | None => True end) w.

Lemma works_from {A} (p : prog A) w w1 R : moves w w1 → works p w1 R →
  wp answers p (λ r w', moves w w' ∧ match r with Some a => R a w' | None => True end) w1.
Proof. intros Hm. apply wp_mono. intros r w' [Hm' HR]. split; [by transitivity w1|done]. Qed.

Lemma works_bind {A B} (p : prog A) (f : A → prog B) w (R : A → World → Prop) (R' : B → World → Prop) :
  works p w R → (∀ a w', moves w w' → R a w' → works (f a) w' R') → works (p ≫= f) w R'.
Proof.
  intros Hp Hf. apply prog_wp_bind. eapply wp_mono, Hp. intros [a|] w' [Hm HR]; [|done]. apply works_from; auto.
Qed.

Lemma works_mono {A} (p : prog A) w (R R' : A → World → Prop) :
  (∀ a w', moves w w' → R a w' → R' a w') → works p w R → works p w R'.
Proof. intros HR. apply wp_mono. intros [a|] w' [Hm H]; split; auto. Qed.

Lemma works_ret {A} (a : A) w (R : A → World → Prop) : R a w → works (Ret a) w R.
Proof. intros HR. split; split; done. Qed.

Lemma works_wall {A} k w (R : A → World → Prop) : (∀ t s, works (k t s) w R) → works (Wall k) w R.
Proof. intros H. split; [by split|]. intros t s. apply H. Qed.
Lemma works_mono_clock {A} k w (R : A → World → Prop) : (∀ t, works (k t) w R) → works (Mono k) w R.
Proof. intros H. split; [by split|]. intros t. apply H. Qed.
Lemma works_time_ns {A} k w (R : A → World → Prop) : (∀ t, works (k t) w R) → works (TimeNs k) w R.
Proof. intros H. split; [by split|]. intros t. apply H. Qed.

Lemma works_read {A} s k w (R : A → World → Prop) :
  (∀ d, d = files w !! s ∨ d = None → works (k d) w R) → works (ReadEntry s k) w R.
Proof. intros H. split; [by split|]. split; apply H; auto. Qed.

Lemma moves_state w c : moves w (set_state w c).
Proof. by apply moves_same. Qed.

Lemma works_save c w (R : unit → World → Prop) : R tt (set_state w c) → R tt w → works (save c) w R.
Proof.
  intros H1 H2. split; [by split|]. split; [apply works_from; [apply moves_state|]|]; by apply works_ret.
Qed.

Lemma works_unlink why s w (R : unit → World → Prop) :
  (why = None → ∀ e, files w !! s = Some e → e_payload e ∈ ingested (srv w)) → R tt (unlink_file w why s) →
  works (unlink why s) w R.
Proof. intros Hack HR. split; [by split|]. apply works_from; [by apply moves_unlink|]. by apply works_ret. Qed.

Lemma works_post {A} p (k : option Z → prog A) w (R : A → World → Prop) :
  (∀ now, moves w (set_srv w (ingest (srv w) p now))) →
  (∀ st, answers st → ¬ ok_status st → works (k st) w R) →
  (∀ now st, answers st → works (k st) (set_srv w (ingest (srv w) p now)) R) → works (Post p k) w R.
Proof.
  intros Hm H1 H2. split; [by split|]. split; [intros; by apply H1|]. intros now st Hst. apply works_from; [apply Hm|by apply H2].
Qed.

(** The memory of a running spool agrees with its directory. *)
Definition synced (sp : Spool) (w : World) : Prop :=
  enabled sp = true → map fst (_entries sp) = names w ∧ ∀ s, s ∈ names w → s ≤ _last_seq sp.
Definition conf (sp : Spool) : bool * Z * option Z := (enabled sp, cap_bytes sp, max_age_seconds sp).

Lemma synced_files sp w w' : files w' = files w → synced sp w → synced sp w'.
Proof. unfold synced, names. by intros ->. Qed.

Lemma synced_spool sp sp' w : enabled sp' = enabled sp → _entries sp' = _entries sp → _last_seq sp' = _last_seq sp →
  synced sp w → synced sp' w.
Proof. unfold synced. by intros -> -> ->. Qed.

Lemma unlink_files w why s : files (unlink_file w why s) = delete s (files w).
Proof. unfold unlink_file. by destruct why, (files w !! s). Qed.

Lemma map_fst_filter (es : list (Z * Z)) s :
  map fst (List.filter (λ e, negb (fst e =? s)) es) = List.filter (λ n, negb (n =? s)) (map fst es).
Proof. induction es as [|[n z] es IH]; simpl; [done|]. destruct (n =? s); simpl; by rewrite ?IH. Qed.

Lemma synced_drop sp w why s : synced sp w → synced (drop_entry sp s) (unlink_file w why s).
Proof.
  intros Hs He. destruct (Hs He) as [Hn Hl]. simpl.
  assert (names (unlink_file w why s) = List.filter (λ n, negb (n =? s)) (names w)) as ->.
  { rewrite <- names_delete. unfold names. by rewrite unlink_files. }
  rewrite map_fst_filter, Hn. split; [done|]. intros n Hin. apply Hl. apply list_elem_of_In, filter_In in Hin as [Hin _].
  by apply list_elem_of_In.
Qed.

Lemma works_remove sp why s w : synced sp w →
  (why = None → ∀ e, files w !! s = Some e → e_payload e ∈ ingested (srv w)) →
  works (_remove sp why s) w (λ sp' w', sp' = drop_entry sp s ∧ synced sp' w').
Proof.
  intros Hs Hack. eapply works_bind; [apply works_unlink; [done|]|].
  - instantiate (1 := λ _ w', synced (drop_entry sp s) w'). by apply synced_drop.
  - intros [] w' _ HR. by apply works_ret.
Qed.

Lemma works_count_rejected sp w : synced sp w →
  works (_count_rejected sp) w (λ sp' w', conf sp' = conf sp ∧ _entries sp' = _entries sp ∧ files w' = files w ∧ srv w' = srv w ∧ synced sp' w').
Proof.
  intros Hs. apply works_wall. intros t s. cbn [prog_bind]. 
  eapply works_bind with (R := λ _ w', files w' = files w ∧ srv w' = srv w); [by apply works_save|].
  intros [] w' _ [Hf Hv]. apply works_ret. split_and!; try done. eapply synced_files; [done|]. by eapply synced_spool, Hs.
Qed.

Lemma classify_sent st : classify_status st = SENT → ok_status (Some st).
Proof.
  unfold classify_status. case_match eqn:E; [|by case_match]. intros _. apply andb_true_iff in E as [?%Z.leb_le ?%Z.ltb_lt].
  by exists st.
Qed.

(** What [_usable] answers. *)
Definition read_ok (sp : Spool) (name : Z) (w : World) (r : option payload * bool * Spool) (w' : World) : Prop :=
  synced r.2 w' ∧ conf r.2 = conf sp ∧
  match r.1.1 with
  | Some p => r.2 = sp ∧ files w' = files w ∧ ∃ e, files w !! name = Some e ∧ e_payload e = p
  | None => r.2 = drop_entry sp name
  end.

Lemma works_usable sp name d w : synced sp w → d = files w !! name ∨ d = None → works (_usable sp name d) w (read_ok sp name w).
Proof.
  intros Hs Hd.
  assert (Hrm : ∀ why b, works (sp' ← _remove sp (Some why) name; Ret (None, b, sp')) w (read_ok sp name w)).
  { intros why b. eapply works_bind; [by apply works_remove|]. intros sp' w' _ [-> Hs']. by apply works_ret. }
  unfold _usable. destruct d as [e|]; [|apply Hrm]. destruct Hd as [Hd|Hd]; [|done].
  assert (Hkeep : works (Ret (Some (e_payload e), false, sp)) w (read_ok sp name w)).
  { apply works_ret. unfold read_ok. split_and!; [done|done|]. cbn. split_and!; [done|done|]. by exists e. }
  destruct (max_age_seconds sp) as [age|]; [|done]. apply works_wall. intros t s. cbn [prog_bind].
  destruct (age <? t - spooled_at e); [apply Hrm|apply Hkeep].
Qed.

(** What [_send] answers; the server may have taken the batch in every case. *)
Definition sent_ok (a : Shipper) (p : payload) (w : World) (r : outcome * Shipper) (w' : World) : Prop :=
  spool r.2 = spool a ∧ files w' = files w ∧ (r.1 = SENT → p ∈ ingested (srv w')) ∧ (_server_error r.2 = true → answers (Some 500)).

Lemma works_send_with (moves' : World → World → Prop) a p w :
  sound w → queued w p ∨ inflight w = Some p → moves' w w → (∀ now, moves' w (set_srv w (ingest (srv w) p now))) →
  wp answers (_send a p) (λ r w', moves' w w' ∧ match r with Some r => sent_ok a p w r w' | None => True end) w.
Proof.
  intros Hs Hp Hrefl Hm. unfold _send.
  assert (Hans : ∀ st w', answers st → moves' w w' → files w' = files w → (ok_status st → p ∈ ingested (srv w')) →
    let o := match st with None => RETRY | Some s => classify_status s end in
    wp answers (if bool_decide (o = RETRY) && negb (_backoff a =? 0)
    then now ← mono; Ret (o, mkShipper (spool a) (_backoff a) (now + _backoff a) (Some o) st)
    else Ret (o, mkShipper (spool a) (_backoff a) (_retry_after a) (Some o) st))
      (λ r w', moves' w w' ∧ match r with Some r => sent_ok a p w r w' | None => True end) w').
  { intros st w' Hst Hm' Hf Hok o.
    assert (Hfin : ∀ ra, sent_ok a p w (o, mkShipper (spool a) (_backoff a) ra (Some o) st) w').
    { intros ra. split_and!; try done.
      - simpl. intros Ho. apply Hok. destruct st as [st|]; [by apply classify_sent|done].
      - unfold _server_error. simpl. by intros ->%bool_decide_eq_true. }
    case_match; simpl; auto. }
  split; [by split|]. split.
  - intros st Hst Hno. by apply Hans.
  - intros now st Hst. apply Hans; [done|apply Hm|done|]. intros _. by apply (ingest_sound w p now Hs).
Qed.

Lemma works_send_head a p s rest w : sound w → names w = s :: rest →
  (∃ e, files w !! s = Some e ∧ e_payload e = p) → works (_send a p) w (sent_ok a p w).
Proof.
  intros Hs Hn (e & Hf & <-). apply works_send_with; [done|left; by exists s, e|done|]. intros now.
  apply (moves_ingest w s e now Hf). intros _. by exists rest.
Qed.

Lemma works_send_behind a p s w : ¬ calm → sound w → (∃ e, files w !! s = Some e ∧ e_payload e = p) → works (_send a p) w (sent_ok a p w).
Proof.
  intros Hc Hs (e & Hf & <-). apply works_send_with; [done|left; by exists s, e|done|]. intros now.
  by apply (moves_ingest w s e now Hf).
Qed.

(** A shipper at rest: its memory is the directory, its configuration [c]. *)
Definition settled (c : bool * Z * option Z) (a : Shipper) (w : World) : Prop := synced (spool a) w ∧ conf (spool a) = c.

Lemma settled_spool c a sp w : synced sp w → conf sp = c → settled c (with_spool a sp) w.
Proof. by split. Qed.

Lemma works_quarantine sp s w : synced sp w → works (_quarantine sp s) w (λ sp' w', synced sp' w' ∧ conf sp' = conf sp).
Proof.
  intros Hs. eapply works_bind; [apply (works_remove (with_failures sp None)); [by eapply synced_spool, Hs|done]|].
  intros sp1 w1 _ [-> Hs1]. eapply works_mono, works_count_rejected; [|done].
  intros sp2 w2 _ (Hc & _ & _ & _ & Hs2). by split.
Qed.

Lemma works_acknowledge sp s p w : synced sp w → (∃ e, files w !! s = Some e ∧ e_payload e = p) → p ∈ ingested (srv w) →
  works (_remove sp None s) w (λ sp' w', synced sp' w' ∧ conf sp' = conf sp).
Proof.
  intros Hs (e & Hf & <-) Hin. eapply works_mono, works_remove; [|done|]; [by intros sp' w' _ [-> ?]|].
  intros _ e' He'. by simplify_eq.
Qed.

Lemma works_probe_behind fuel : ∀ a head expired w c, ¬ calm → sound w → settled c a w →
  works (_probe_behind fuel a head expired) w (λ r w', settled c r.2 w').
Proof.
  induction fuel as [|fuel IH]; intros a head expired w c Hc Hs [Hsy Hcf]; cbn [_probe_behind]; [by apply works_ret|].
  destruct (behind head _) as [name|]; [|by apply works_ret].
  apply works_read. intros d Hd. eapply works_bind; [by apply works_usable|].
  intros [[p x] sp] w1 Hm1 (Hsy1 & Hcf1 & Hp). cbn [fst snd] in *. apply (mo_sound _ _ Hm1) in Hs as Hs1.
  destruct p as [p|]; [|apply IH; [done|done|by rewrite <- Hcf]].
  destruct Hp as (-> & Hf1 & He). rewrite <- Hf1 in He.
  eapply works_bind; [by apply (works_send_behind _ p name)|].
  intros [o a2] w2 Hm2 (Hsp2 & Hf2 & Hsent & _). cbn [fst snd] in *. rewrite <- Hf2 in He.
  assert (Hsy2 : synced (spool a2) w2) by (rewrite Hsp2; by eapply synced_files).
  assert (Hcf2 : conf (spool a2) = c) by (by rewrite Hsp2).
  destruct o.
  - eapply works_bind; [by apply (works_acknowledge _ _ p); auto|]. intros sp3 w3 _ [? ?]. apply works_ret, settled_spool; [done|congruence].
  - by apply works_ret.
  - eapply works_bind; [by apply works_count_rejected|]. intros sp3 w3 _ (Hc3 & _ & _ & _ & Hs3).
    eapply works_bind; [by apply works_remove|]. intros sp4 w4 _ [-> Hs4]. apply works_ret, settled_spool; [done|]. etransitivity; eauto.
Qed.

Lemma works_poison_due sp name w : synced sp w → works (_poison_due sp name) w (λ r w', files w' = files w ∧ synced r.2 w' ∧ conf r.2 = conf sp).
Proof.
  intros Hs. apply works_mono_clock. intros now. cbn [prog_bind].
  assert (Hfin : ∀ k m t, works (Ret ((POISON_ATTEMPTS <=? k + 1) && (POISON_MIN_SECONDS <=? now - m), with_failures sp (Some (name, k + 1, m, t)))) w
    (λ r w', files w' = files w ∧ synced r.2 w' ∧ conf r.2 = conf sp)).
  { intros. apply works_ret. split_and!; [done| |done]. by eapply synced_spool, Hs. }
  destruct (_head_failures sp) as [[[[n k] m] t]|]; [destruct (n =? name); [apply Hfin|]|];
    (apply works_wall; intros; apply Hfin).
Qed.

Lemma works_drain_loop n : ∀ a expired w c, enabled (spool a) = true → sound w → settled c a w →
  works (drain_loop n a expired) w (λ r w', settled c r.2 w').
Proof.
  induction n as [|n IH]; intros a expired w c Hen Hs [Hsy Hcf]; cbn [drain_loop]; [by apply works_ret|].
  destruct (_entries (spool a)) as [|[name size] rest] eqn:Hes; [by apply works_ret|].
  assert (Hnames : ∃ ns, names w = name :: ns) by (destruct (Hsy Hen) as [<- _]; rewrite Hes; csimpl; eauto).
  assert (Hnext : ∀ a' expired' w' sp', sound w' → synced sp' w' → conf sp' = c → works (drain_loop n (with_spool a' sp') expired') w' (λ r w', settled c r.2 w')).
  { intros a' e' w' sp' Hs' Hsy' Hc'. apply IH; [|done|by apply settled_spool]. unfold conf in *. simpl. congruence. }
  apply works_read. intros d Hd. eapply works_bind; [by apply works_usable|].
  intros [[p x] sp] w1 Hm1 (Hsy1 & Hcf1 & Hp). cbn [fst snd] in *. apply (mo_sound _ _ Hm1) in Hs as Hs1.
  destruct p as [p|]; [|apply Hnext; [done|done|congruence]].
  destruct Hp as (-> & Hf1 & He). rewrite <- Hf1 in He. destruct Hnames as [ns Hns].
  eapply works_bind; [apply (works_send_head _ p name ns); [done| |done]; unfold names in *; by rewrite Hf1|].
  intros [o a2] w2 Hm2 (Hsp2 & Hf2 & Hsent & Herr). cbn [fst snd] in *. rewrite <- Hf2 in He.
  apply (mo_sound _ _ Hm2) in Hs1 as Hs2.
  assert (Hsy2 : ∀ hf, synced (with_failures (spool a2) hf) w2) by (intros; rewrite Hsp2; eapply synced_files; [done|]; by eapply synced_spool, Hsy1).
  assert (Hcf2 : ∀ hf, conf (with_failures (spool a2) hf) = c) by (intros; by rewrite Hsp2).
  destruct o.
  - eapply works_bind; [apply (works_acknowledge _ _ p); auto|]. intros sp3 w3 Hm3 [? ?].
    apply Hnext; [by apply (mo_sound _ _ Hm3)|done|congruence].
  - destruct (_server_error a2) eqn:Ese; cbn [negb]; [|apply works_ret; by apply settled_spool].
    assert (Hnc : ¬ calm) by (intros [H _]; auto).
    eapply works_bind; [apply works_poison_due; rewrite Hsp2; by eapply synced_files|].
    intros [due sp3] w3 Hm3 (Hf3 & Hsy3 & Hcf3). cbn [fst snd] in *.
    assert (Hcf3' : conf sp3 = c) by (rewrite Hcf3, Hsp2; done).
    destruct due; cbn [negb]; [|by apply works_ret, settled_spool].
    eapply works_bind; [apply (works_probe_behind _ _ _ _ _ c Hnc); [by apply (mo_sound _ _ Hm3)|by apply settled_spool]|].
    intros [[probe e] a4] w4 Hm4 [Hsy4 Hcf4]. cbn [fst snd] in *.
    assert (Hs4 : sound w4) by (apply (mo_sound _ _ Hm4), (mo_sound _ _ Hm3), Hs2).
    assert (Hq : works (sp ← _quarantine (spool a4) name; drain_loop n (with_spool a4 sp) (expired + e)) w4 (λ r w', settled c r.2 w')).
    { eapply works_bind; [by apply works_quarantine|]. intros sp5 w5 Hm5 [? ?]. apply Hnext; [by apply (mo_sound _ _ Hm5)|done|congruence]. }
    destruct probe as [[| |]|]; first [exact Hq|by apply works_ret].
  - eapply works_bind; [by apply works_count_rejected|]. intros sp3 w3 Hm3 (Hc3 & _ & _ & _ & Hsy3).
    eapply works_bind; [by apply works_remove|]. intros sp4 w4 Hm4 [-> Hsy4].
    apply Hnext; [by apply (mo_sound _ _ Hm4), (mo_sound _ _ Hm3)|done|]. by rewrite <- (Hcf2 None), <- Hc3.
Qed.

Lemma works_spool_drain a w c : sound w → settled c a w → works (spool_drain a) w (λ r w',
  settled c r.2 w' ∧ (r.1 = true → enabled (spool r.2) = true → names w' = [])).
Proof.
  intros Hs Hst. unfold spool_drain, spool_drain_max. destruct (enabled (spool a)) eqn:Hen; cbn [negb].
  2: { apply works_ret. split; [done|]. simpl. congruence. }
  assert (Hempty : ∀ a w, synced (spool a) w → is_empty a = true → enabled (spool a) = true → names w = []).
  { intros a' w' Hsy He Hen'. destruct (Hsy Hen') as [<- _]. unfold is_empty in He. by destruct (_entries (spool a')). }
  eapply works_bind; [by apply (works_drain_loop _ _ _ _ c)|].
  intros [expired a1] w1 Hm1 [Hsy1 Hcf1]. cbn [fst snd] in *. destruct (expired =? 0).
  - apply works_ret. split; [done|]. simpl. by apply Hempty.
  - eapply works_bind with (R := λ _ w', files w' = files w1); [by apply works_save|]. intros [] w2 _ Hf.
    assert (Hsy2 : synced (spool (with_spool a1 (with_counters (spool a1) (count_expired (_counters (spool a1)) expired)))) w2).
    { eapply synced_files; [done|]. by eapply synced_spool, Hsy1. }
    apply works_ret. split; [by split|]. by apply Hempty.
Qed.

(** *** What a [ship] may do with the batch it carries *)
Record places (p : payload) (w w' : World) : Prop := {
  pl_produced : produced w' = produced w;
  pl_inflight : inflight w' = inflight w;
  pl_used : used w' = used w;
  pl_stored q : stored w' q → stored w q ∨ q = p;
  pl_accounted q : accounted w q → accounted w' q;
  pl_sound : sound w → inflight w = Some p → sound w';
  pl_got i : i ∈ got w → i ∈ got w';
  pl_line i : calm → sound w → inflight w = Some p → batch_id p = Some i →
    line w' `sublist_of` line w ++ if bool_decide (i ∈ got w) then [] else [i];
}.

Lemma moves_places p w w' : moves w w' → places p w w'.
Proof.
  intros H. constructor; try by destruct H.
  - intros q Hq. left. by apply (mo_stored _ _ H).
  - intros Hs _. by apply (mo_sound _ _ H).
  - intros i Hc Hs _ _. transitivity (line w); [by apply (mo_line _ _ H)|]. apply sublist_inserts_r, reflexivity.
Qed.

Lemma places_moves p w w1 w2 : places p w w1 → moves w1 w2 → places p w w2.
Proof.
  intros H1 H2. constructor.
  - by rewrite (mo_produced _ _ H2), (pl_produced _ _ _ H1).
  - by rewrite (mo_inflight _ _ H2), (pl_inflight _ _ _ H1).
  - by rewrite (mo_used _ _ H2), (pl_used _ _ _ H1).
  - intros q Hq. by apply (pl_stored _ _ _ H1), (mo_stored _ _ H2).
  - intros q Hq. by apply (mo_accounted _ _ H2), (pl_accounted _ _ _ H1).
  - intros Hs Hi. by apply (mo_sound _ _ H2), (pl_sound _ _ _ H1).
  - intros i Hi. by apply (mo_got _ _ H2), (pl_got _ _ _ H1).
  - intros i Hc Hs Hi Hp. transitivity (line w1); [apply (mo_line _ _ H2 Hc); by apply (pl_sound _ _ _ H1)|].
    by apply (pl_line _ _ _ H1).
Qed.

(** The batch may be placed again where that adds nothing to the line. *)
Lemma places_again p w w1 w2 : places p w w1 → moves w w1 ∨ p ∈ ingested (srv w1) → places p w1 w2 → places p w w2.
Proof.
  intros H1 Hor H2. constructor.
  - by rewrite (pl_produced _ _ _ H2), (pl_produced _ _ _ H1).
  - by rewrite (pl_inflight _ _ _ H2), (pl_inflight _ _ _ H1).
  - by rewrite (pl_used _ _ _ H2), (pl_used _ _ _ H1).
  - intros q [Hq|Hq]%(pl_stored _ _ _ H2); [by apply (pl_stored _ _ _ H1)|by right].
  - intros q Hq. by apply (pl_accounted _ _ _ H2), (pl_accounted _ _ _ H1).
  - intros Hs Hi. apply (pl_sound _ _ _ H2); [by apply (pl_sound _ _ _ H1)|by rewrite (pl_inflight _ _ _ H1)].
  - intros i Hi. by apply (pl_got _ _ _ H2), (pl_got _ _ _ H1).
  - intros i Hc Hs Hi Hp. assert (Hs1 : sound w1) by (by apply (pl_sound _ _ _ H1)).
    assert (Hi1 : inflight w1 = Some p) by (by rewrite (pl_inflight _ _ _ H1)).
    pose proof (pl_line _ _ _ H2 i Hc Hs1 Hi1 Hp) as H2l. destruct Hor as [Hm|Hin].
    + etransitivity; [exact H2l|]. apply sublist_app; [by apply (mo_line _ _ Hm)|].
      case_bool_decide as Hg1; [apply sublist_nil_l|]. rewrite bool_decide_false; [done|]. intros Hg. apply Hg1. by apply (pl_got _ _ _ H1).
    + assert (Hg1 : i ∈ got w1) by (apply elem_ids; eauto). rewrite (bool_decide_true _ Hg1), app_nil_r in H2l.
      etransitivity; [exact H2l|]. by apply (pl_line _ _ _ H1).
Qed.

Lemma moves_lose w why p : moves w (lose w why p).
Proof.
  constructor; try done.
  - intros q [H|(y & H)]; [by left|right; exists y; apply elem_of_app; by left].
  - by intros [? ? ? ? ?]; split.
Qed.

Lemma lose_accounted w why p : accounted (lose w why p) p.
Proof. right. exists why. apply elem_of_app. right. by apply list_elem_of_singleton. Qed.

(** The file of the batch is in place. *)
Lemma places_write w s e : (∀ n, n ∈ names w → n < s) → places (e_payload e) w (set_files w (<[s := e]> (files w))).
Proof.
  intros Hs. set (w' := set_files _ _). set (p := e_payload e).
  assert (Hnone : files w !! s = None).
  { destruct (files w !! s) eqn:E; [|done]. assert (s ∈ names w) as H%Hs by (by apply elem_names). lia. }
  assert (Hq : ∀ q, queued w' q ↔ queued w q ∨ q = p).
  { intros q. split.
    - intros (n & e' & Hn & <-). simpl in Hn. apply lookup_insert_Some in Hn as [[-> <-]|[_ Hn]]; [by right|left; by exists n, e'].
    - intros [(n & e' & Hn & <-)| ->].
      + exists n, e'. simpl. rewrite lookup_insert_ne; [done|]. intros ->. congruence.
      + exists s, e. simpl. by rewrite lookup_insert_eq. }
  constructor; try done.
  - intros q [H|[H| ->]%Hq]; [left; by left|left; by right|by right].
  - intros q [[H|H]|H]; [left; by left|left; right; apply Hq; by left|by right].
  - intros [A B C D E] Hi. assert (Hk : ∀ q, known w' q → known w q).
    { intros q [[H|[H| ->]%Hq]|H]; [left; by left|left; by right|right; by left|by right]. }
    constructor; auto.
    intros q i Hor. apply D. destruct Hor as [[H| ->]%Hq|H]; [by left|by right|by right].
  - intros i _ _ _ Hb. unfold line. change (got w') with (got w).
    assert (queue_ids w' = queue_ids w ++ [i]) as ->.
    { unfold queue_ids. unfold w' at 2. rewrite names_insert by done. rewrite omap_app. f_equal.
      - apply omap_cong. intros n Hn. unfold id_at. simpl. rewrite lookup_insert_ne; [done|]. specialize (Hs n Hn). lia.
      - assert (Hid : id_at w' s = Some i) by (unfold id_at; simpl; by rewrite lookup_insert_eq). csimpl. by rewrite Hid. }
    rewrite List.filter_app. simpl. rewrite <- app_assoc. apply sublist_app; [done|]. apply sublist_app; [done|].
    destruct (decide (i ∈ got w)) as [Hg|Hg]; [by rewrite bool_decide_false, bool_decide_true by tauto|].
    by rewrite bool_decide_true, bool_decide_false by done.
Qed.

(** A live POST, with nothing queued. *)
Lemma places_post w p now : sound w → inflight w = Some p → (calm → names w = []) → places p w (set_srv w (ingest (srv w) p now)).
Proof.
  intros Hs Hi Hn. set (w' := set_srv _ _). constructor; try done.
  - intros q [H|H]; [|left; by right]. apply ingest_new in H as [H| ->]; [left; by left|by right].
  - intros q [[H|H]|H]; [left; left; by apply ingest_grows|left; by right|by right].
  - intros _ _. apply (ingest_sound w p now Hs). by right.
  - intros i. apply got_grows.
  - intros i Hc _ _ Hb. destruct (ingest_sound w p now Hs) as (_ & _ & _ & j & Hj & Hcase); [by right|]. fold w' in Hcase.
    assert (j = i) as -> by congruence. unfold line at 2. unfold queue_ids. rewrite (Hn Hc). simpl. rewrite app_nil_r.
    assert (Hl : line w' = got w').
    { unfold line. assert (queue_ids w' = []) as -> by (unfold queue_ids; change (names w') with (names w); by rewrite (Hn Hc)). apply app_nil_r. }
    rewrite Hl. destruct Hcase as [[Hg ->]|[Hg ->]]; [apply sublist_inserts_r, reflexivity|]. by rewrite bool_decide_false.
Qed.

Lemma works_trim_loop cap es : ∀ total d b w, map fst es = names w →
  works (trim_loop cap total es d b) w (λ r w', map fst r.1.1 = names w' ∧ ∀ s, s ∈ names w' → s ∈ names w).
Proof.
  induction es as [|[name size] es IH]; intros total d b w Hn; [by apply works_ret|]. cbn [trim_loop].
  destruct es as [|e2 es]; [by apply works_ret|]. destruct (cap <? total); [|by apply works_ret].
  assert (Hl : names w = name :: map fst (e2 :: es)) by done. clear Hn. set (l := map fst (e2 :: es)) in *.
  pose proof (names_sorted w) as Hsort. rewrite Hl in Hsort. apply StronglySorted_inv in Hsort as [Hsort Hall].
  assert (Hnames : ∀ why, names (unlink_file w why name) = l).
  { intros why. apply names_unique; [done|]. intros n. rewrite unlink_files, lookup_delete_is_Some, <- elem_names, Hl, elem_of_cons.
    rewrite Forall_forall in Hall. split; [|naive_solver]. intros Hin. split; [|by right]. intros <-. specialize (Hall _ Hin). lia. }
  eapply works_bind with (R := λ _ w', names w' = l); [by apply works_unlink|].
  intros [] w1 _ Hw1. eapply works_mono, IH; [|done]. intros r w2 _ [Hr1 Hr2]. split; [done|].
  intros n Hin%Hr2. rewrite Hw1 in Hin. rewrite Hl. by right.
Qed.

Lemma works_enforce_cap sp w : enabled sp = true → synced sp w →
  works (_enforce_cap_locked sp) w (λ sp' w', synced sp' w' ∧ conf sp' = conf sp).
Proof.
  intros Hen Hsy. unfold _enforce_cap_locked. destruct (cap_bytes sp =? 0); [by apply works_ret|].
  destruct (_ <=? cap_bytes sp); [by apply works_ret|]. destruct (Hsy Hen) as [Hn Hl].
  eapply works_bind; [by apply works_trim_loop|]. intros [[es d] b] w1 _ [Hn1 Hl1]. cbn [fst snd] in *.
  assert (Hsy1 : synced (with_entries sp es) w1) by (intros _; split; [done|]; intros s Hs; by apply Hl, Hl1).
  destruct (d =? 0); [by apply works_ret|]. apply works_wall. intros now t. cbn [prog_bind].
  eapply works_bind with (R := λ _ w', files w' = files w1); [by apply works_save|]. intros [] w2 _ Hf.
  apply works_ret. split; [|done]. eapply synced_files; [done|]. by eapply synced_spool, Hsy1.
Qed.

(** The answer of [append], with what it did to the batch. *)
Definition appended (sp : Spool) (p : payload) (w : World) (r : option (bool * Spool)) (w' : World) : Prop :=
  places p w w' ∧ match r with
                  | Some (ok, sp') => synced sp' w' ∧ conf sp' = conf sp ∧ if ok : bool then accounted w' p else moves w w'
                  | None => True
                  end.

Lemma works_appended (P : prog (bool * Spool)) sp p w w1 : moves w w1 →
  works P w1 (λ r w', synced r.2 w' ∧ conf r.2 = conf sp ∧ r.1 = false) → wp answers P (appended sp p w) w1.
Proof.
  intros Hm. apply wp_mono. intros [[ok sp']|] w' [Hm' H]; (split; [apply moves_places; by transitivity w1|]); [|done].
  destruct H as (Hs & Hc & Hok). cbn in Hok. subst ok. split_and!; try done. by transitivity w1.
Qed.

Lemma works_count_and_fail sp c w : synced sp w →
  works (_ ← save c; Ret (false, with_counters sp c)) w (λ r w', synced r.2 w' ∧ conf r.2 = conf sp ∧ r.1 = false).
Proof.
  intros Hsy. eapply works_bind with (R := λ _ w', files w' = files w); [by apply works_save|]. intros [] w1 _ Hf.
  apply works_ret. split_and!; [|done|done]. eapply synced_files; [done|]. by eapply synced_spool, Hsy.
Qed.

Lemma wp_wall {B} (f : Z * str → prog B) Q w : Q None w → (∀ t s, wp answers (f (t, s)) Q w) → wp answers (wall ≫= f) Q w.
Proof. by split. Qed.
Lemma wp_mono_clock {B} (f : Z → prog B) Q w : Q None w → (∀ t, wp answers (f t) Q w) → wp answers (mono ≫= f) Q w.
Proof. by split. Qed.
Lemma wp_write s e {B} (k : bool → prog B) Q w :
  Q None w → wp answers (k true) Q (set_files w (<[s := e]> (files w))) → wp answers (k false) Q w → wp answers (WriteEntry s e k) Q w.
Proof. by repeat split. Qed.

Lemma append_spec sp p w : sound w → inflight w = Some p → synced sp w → wp answers (append sp p) (appended sp p w) w.
Proof.
  intros Hs Hi Hsy. unfold append. destruct (enabled sp) eqn:Hen; cbn [negb].
  2: { apply works_appended; [done|]. by apply works_ret. }
  assert (Hnone : ∀ w', w' = w → appended sp p w None w') by (intros _ ->; split; [by apply moves_places|done]).
  apply wp_wall; [by apply Hnone|]. intros now repr. cbv zeta. case_match.
  { apply wp_wall; [by apply Hnone|]. intros now' repr'. apply works_appended; [done|]. by apply works_count_and_fail. }
  apply prog_wp_bind. unfold _next_seq. split; [by apply Hnone|]. intros t. cbv zeta. split; [by apply Hnone|].
  set (seq := if t <=? _last_seq sp then _last_seq sp + 1 else t).
  set (size := Z.of_nat _).
  assert (Hseq : ∀ n, n ∈ names w → n < seq).
  { intros n Hn. destruct (Hsy Hen) as [_ Hl]. specialize (Hl n Hn). unfold seq. destruct (Z.leb_spec t (_last_seq sp)); lia. }
  pose proof (places_write w seq (mkEntry now p size) Hseq) as Hpl. cbn [e_payload] in Hpl.
  set (w1 := set_files w _) in *.
  apply wp_write; [by apply Hnone| |].
  - assert (Hsy1 : synced (with_entries (with_seq sp seq) (_entries sp ++ [(seq, size)])) w1).
    { intros _. cbn. unfold w1. rewrite names_insert by done. destruct (Hsy Hen) as [Hn Hl]. rewrite map_app, Hn. split; [done|].
      intros n [Hin| ->%list_elem_of_singleton]%elem_of_app; [specialize (Hseq n Hin); lia|lia]. }
    assert (Hacc : accounted w1 p).
    { left; right. exists seq, (mkEntry now p size). cbn. by rewrite lookup_insert_eq. }
    eapply wp_mono; [|eapply works_bind with (R' := λ r w', synced r.2 w' ∧ conf r.2 = conf sp ∧ r.1 = true); [by apply works_enforce_cap|]].
    + intros [[ok sp']|] w' [Hm Hr]; (split; [by eapply places_moves|]); [|done]. destruct Hr as (? & ? & Hok). cbn in Hok. subst ok.
      split_and!; try done. by apply (mo_accounted _ _ Hm).
    + intros sp2 w2 _ [? ?]. by apply works_ret.
  - apply works_appended; [done|]. apply (works_count_and_fail (with_seq sp seq)). intros _. destruct (Hsy Hen) as [Hn Hl]. split; [done|].
    intros n Hin. specialize (Hseq n Hin). cbn. lia.
Qed.

(** The answer of [ship] and its parts. *)
Definition shipped (p : payload) (c : bool * Z * option Z) (w : World) (r : option (outcome * Shipper)) (w' : World) : Prop :=
  places p w w' ∧ match r with Some (o, a) => settled c a w' ∧ accounted w' p | None => True end.

Lemma append_or_lose_spec a p w c : sound w → inflight w = Some p → settled c a w →
  wp answers (append_or_lose a p) (λ r w', places p w w' ∧ match r with Some a' => settled c a' w' ∧ accounted w' p | None => True end) w.
Proof.
  intros Hs Hi [Hsy Hc]. unfold append_or_lose, spool_append.
  apply prog_wp_bind, prog_wp_bind. eapply wp_mono; [|by apply append_spec]. intros [[ok sp]|] w1 [Hpl H]; [|done].
  destruct H as (Hsy1 & Hc1 & Hok). cbn [prog_bind].
  assert (Hst : settled c (with_spool a sp) w1) by (apply settled_spool; [done|congruence]).
  split; [by split|]. cbn. destruct ok; [done|]. split; [by split|].
  assert (Hm : moves w1 (lose w1 NotKept p)) by apply moves_lose.
  assert (Hpl2 : places p w (lose w1 NotKept p)) by (by eapply places_moves).
  assert (Hst2 : settled c (with_spool a sp) (lose w1 NotKept p)) by (destruct Hst; split; [by eapply synced_files|done]).
  split; (split; [done|]); [done|]. split; [done|apply lose_accounted].
Qed.

Lemma shipped_from p c w w1 r w' : moves w w1 → shipped p c w1 r w' → shipped p c w r w'.
Proof. intros Hm [Hpl Hr]. split; [|done]. eapply places_again; [by apply moves_places|by left|done]. Qed.

Lemma shipped_dead p c w w' : places p w w' → shipped p c w None w'.
Proof. by split. Qed.

Lemma shipped_ret p c w o a w' : places p w w' → settled c a w' → accounted w' p → wp answers (Ret (o, a)) (shipped p c w) w'.
Proof. intros Hpl Hst Hacc. split; split; done. Qed.

(** Queue the batch, answering [o]. *)
Lemma wp_keep a p c o w : sound w → inflight w = Some p → settled c a w → 
  wp answers (a' ← append_or_lose a p; Ret (o, a')) (shipped p c w) w.
Proof.
  intros Hs Hi Hst. apply prog_wp_bind. eapply wp_mono; [|by apply (append_or_lose_spec a p w c)].
  intros [a'|] w1 [Hpl H]; [|by split]. split; by split.
Qed.

Lemma wp_ship_live a p c w : sound w → inflight w = Some p → settled c a w → (c.1.1 = false → may_disable) →
  wp answers (ship_live a p) (shipped p c w) w.
Proof.
  intros Hs Hi Hst Hdis. unfold ship_live. apply prog_wp_bind.
  assert (Hfirst : works (if is_empty a then Ret (true, a) else spool_drain a) w (λ r w',
    settled c r.2 w' ∧ (r.1 = true → enabled (spool r.2) = true → names w' = []))).
  { destruct (is_empty a) eqn:He; [|by apply works_spool_drain]. apply works_ret. split; [done|]. intros _ Hen.
    destruct Hst as [Hsy _]. destruct (Hsy Hen) as [<- _]. unfold is_empty in He. cbn. by destruct (_entries (spool a)). }
  eapply wp_mono, Hfirst. intros [[drained a1]|] w1 [Hm1 H]; [|by apply shipped_dead, moves_places].
  cbn in H. destruct H as [Hst1 Hempty]. assert (Hs1 : sound w1) by (by apply (mo_sound _ _ Hm1)).
  assert (Hi1 : inflight w1 = Some p) by (by rewrite (mo_inflight _ _ Hm1)).
  eapply wp_mono; [intros r w'; by apply shipped_from|]. destruct drained; cbn [negb]; [|by apply wp_keep].
  assert (Hn : calm → names w1 = []).
  { intros [_ Hmd]. apply Hempty; [done|]. destruct Hst1 as [_ Hc]. destruct (enabled (spool a1)) eqn:E; [done|].
    exfalso. apply Hmd, Hdis. rewrite <- Hc. exact E. }
  apply prog_wp_bind. eapply wp_mono; [|apply (works_send_with (λ w w', places p w w' ∧ (moves w w' ∨ p ∈ ingested (srv w'))))]; [|done|by right| |].
  - intros [[o a2]|] w2 [[Hpl2 Hor] H]; [|by apply shipped_dead]. destruct H as (Hsp2 & Hf2 & Hsent & _). cbn [fst snd] in *.
    assert (Hst2 : settled c a2 w2).
    { destruct Hst1 as [Hsy1 Hc1]. split; rewrite Hsp2; [by eapply synced_files|done]. }
    destruct o.
    + apply shipped_ret; [done|done|]. left; left; auto.
    + assert (Hs2 : sound w2) by (by apply (pl_sound _ _ _ Hpl2)).
      assert (Hi2 : inflight w2 = Some p) by (by rewrite (pl_inflight _ _ _ Hpl2)).
      eapply wp_mono; [|by apply (wp_keep a2 p c)]. intros r w3 [Hpl3 Hr]. split; [|done]. by eapply places_again.
    + assert (Hst3 : settled c a2 (lose w2 Refused p)) by (destruct Hst2 as [Hx Hy]; split; [eapply synced_files; [|exact Hx]; done|done]).
      assert (Hpl3 : places p w1 (lose w2 Refused p)) by (eapply places_moves, moves_lose; done).
      split; [by apply shipped_dead|]. apply shipped_ret; [done|done|apply lose_accounted].
  - split; [by apply moves_places|by left].
  - intros now. split; [by apply places_post|]. right. apply (ingest_sound w1 p now Hs1). by right.
Qed.

Lemma wp_ship_stamped a p c w : sound w → inflight w = Some p → settled c a w → (c.1.1 = false → may_disable) →
  wp answers (ship_stamped a p) (shipped p c w) w.
Proof.
  intros Hs Hi Hst Hdis. unfold ship_stamped.
  assert (Hgo : ∀ off : bool, wp answers (if off then '(ok, a) ← spool_append a p; if ok : bool then Ret (RETRY, a) else ship_live a p else ship_live a p)
    (shipped p c w) w).
  { intros [|]; [|by apply wp_ship_live]. destruct Hst as [Hsy Hc]. apply prog_wp_bind. unfold spool_append. apply prog_wp_bind.
    eapply wp_mono; [|by apply append_spec]. intros [[ok sp]|] w1 [Hpl H]; [|by apply shipped_dead]. destruct H as (Hsy1 & Hc1 & Hok).
    assert (Hst1 : settled c (with_spool a sp) w1) by (apply settled_spool; [done|congruence]).
    split; [by apply shipped_dead|]. destruct ok; [by apply shipped_ret|].
    eapply wp_mono; [intros r w'; by apply shipped_from|]. apply wp_ship_live; try done; [by apply (mo_sound _ _ Hok)|].
    by rewrite (mo_inflight _ _ Hok). }
  unfold _backing_off. destruct (_ && _); [|exact (Hgo false)]. split; [by apply shipped_dead, moves_places|].
  intros t. exact (Hgo (t <? _retry_after a)).
Qed.

(** *** The agent and the server together *)
Record Sys := mkSys { agent : option Shipper; world : World }.

(** The process dies: the batch [ship] was busy with is written off unless it
    had reached the disk or the server. *)
Definition bury (arrived : bool) (w : World) : World :=
  match inflight w with
  | None => w
  | Some p =>
      let w' := set_inflight w None (produced w ++ [p]) in
      if arrived then w' else lose w' Crashed p
  end.
Definition arrives (arrived : bool) (w : World) : Prop := ∀ p, inflight w = Some p → (arrived = true ↔ stored w p).

(** A receipt is pruned only when its batch is no longer queued: an outage is
    shorter than [RECEIPT_RETENTION]. *)
Definition prunable (w : World) (now : Z) : Prop :=
  ∀ p i, queued w p → batch_id p = Some i → is_Some (receipts (srv w) !! i) → is_Some (receipts (prune_receipts (srv w) now) !! i).

Inductive step : Sys → Sys → Prop :=
| sy_start o en cap age backoff w w' sp :
    (en = false → may_disable) → run answers w (load en cap age) w' (Some sp) →
    step (mkSys o w) (mkSys (Some (mkShipper sp (Z.max 0 backoff) 0 None None)) w')
| sy_start_died o en cap age w w' : run answers w (load en cap age) w' None → step (mkSys o w) (mkSys None w')
| sy_ship a p w w' o a' :
    find_key "batch_id" p = None → run answers w (ship a p) w' (Some (o, a')) → step (mkSys (Some a) w) (mkSys (Some a') w')
| sy_ship_died a p w w' arrived :
    find_key "batch_id" p = None → run answers w (ship a p) w' None → arrives arrived w' →
    step (mkSys (Some a) w) (mkSys None (bury arrived w'))
| sy_drain a w w' b a' : run answers w (drain a) w' (Some (b, a')) → step (mkSys (Some a) w) (mkSys (Some a') w')
| sy_drain_died a w w' : run answers w (drain a) w' None → step (mkSys (Some a) w) (mkSys None w')
| sy_prune o w now : prunable w now → step (mkSys o w) (mkSys o (set_srv w (prune_receipts (srv w) now))).

Definition empty_world : World := mkWorld ∅ None (mkServer ∅ []) [] None [] ∅.
Definition reachable (y : Sys) : Prop := rtc step (mkSys None empty_world) y.

Record at_rest (w : World) : Prop := {
  ar_inflight : inflight w = None;
  ar_sound : sound w;
  ar_accounted p : p ∈ produced w → accounted w p;
  ar_stored p : stored w p → p ∈ produced w;
  ar_line : calm → line w `sublist_of` ids (produced w);
}.
Definition at_work (a : Shipper) (w : World) : Prop := synced (spool a) w ∧ (enabled (spool a) = false → may_disable).
Definition inv (y : Sys) : Prop := at_rest (world y) ∧ ∀ a, agent y = Some a → at_work a (world y).

Lemma at_rest_moves w w' : moves w w' → at_rest w → at_rest w'.
Proof.
  intros Hm [A B C D E]. constructor.
  - by rewrite (mo_inflight _ _ Hm).
  - by apply (mo_sound _ _ Hm).
  - intros p. rewrite (mo_produced _ _ Hm). intros Hp. by apply (mo_accounted _ _ Hm), C.
  - intros p Hp%(mo_stored _ _ Hm). rewrite (mo_produced _ _ Hm). auto.
  - intros Hc. rewrite (mo_produced _ _ Hm). etransitivity; [by apply (mo_line _ _ Hm)|auto].
Qed.

(** A batch is stamped and taken up. *)
Lemma take_up w p id : at_rest w → id ∉ used w → batch_id p = Some id →
  let w1 := set_inflight (use_id w id) (Some p) (produced w) in sound w1 ∧ inflight w1 = Some p ∧ id ∉ got w.
Proof.
  intros [A [S1 S2 S3 S4 S5] C D E] Hid Hb w1.
  assert (Hfresh : ∀ q, known w q → batch_id q ≠ Some id) by (intros q Hq Hqi; destruct (S2 q Hq) as (i & Hi & Hu); congruence).
  assert (Hg : id ∉ got w).
  { intros (q & Hq & Hqi)%elem_ids. apply (Hfresh q); [by left; left|done]. }
  assert (Hk : ∀ q, known w1 q → known w q ∨ q = p).
  { intros q [[H|H]|[H|H]]; [by left; left; left|by left; left; right|right; cbn in H; congruence|by left; right; right]. }
  split_and!; [|done|done]. constructor.
  - exact S1.
  - intros q [H| ->]%Hk.
    + destruct (S2 q H) as (i & Hi & Hu). exists i. split; [done|]. cbn. set_solver.
    + exists id. split; [done|]. cbn. set_solver.
  - intros q q' [H| ->]%Hk [H'| ->]%Hk He; [by apply S3| | |done]; exfalso.
    + apply (Hfresh q H). congruence.
    + apply (Hfresh q' H'). congruence.
  - intros q i [H|H] Hq Hi; [apply (S4 q); [by left|done|done]|]. cbn in H. exfalso. apply Hg. assert (q = p) by congruence. subst q.
    assert (i = id) by congruence. subst i. exact Hi.
  - exact S5.
Qed.

(** ... and done with. *)
Lemma put_down w w1 w2 w3 p id : at_rest w → w1 = set_inflight (use_id w id) (Some p) (produced w) → sound w1 → id ∉ got w → batch_id p = Some id →
  places p w1 w2 → files w3 = files w2 → srv w3 = srv w2 → used w3 = used w2 → inflight w3 = None → produced w3 = produced w2 ++ [p] →
  (∀ x, x ∈ lost w2 → x ∈ lost w3) → accounted w3 p → at_rest w3.
Proof.
  intros [A B C D E] Hw1 Hs1 Hg Hb Hpl Hf Hv Hu Hi Hp Hl Hacc.
  assert (Hi1 : inflight w1 = Some p) by by rewrite Hw1.
  assert (Hi2 : inflight w2 = Some p) by by rewrite (pl_inflight _ _ _ Hpl).
  assert (Hp2 : produced w2 = produced w) by (rewrite (pl_produced _ _ _ Hpl); by rewrite Hw1).
  assert (Hst : ∀ q, stored w3 q ↔ stored w2 q) by (intros q; unfold stored, queued; by rewrite Hf, Hv).
  assert (Hst2 : ∀ q, stored w2 q → stored w q ∨ q = p) by (intros q [H|H]%(pl_stored _ _ _ Hpl); [left; by rewrite Hw1 in H|by right]).
  assert (Hk : ∀ q, known w3 q → known w2 q).
  { intros q [H%Hst|[H|H]]; [by left|congruence|]. rewrite Hp in H. apply elem_of_app in H as [H| ->%list_elem_of_singleton]; [by right; right|by right; left]. }
  assert (Hgot : got w3 = got w2) by (unfold got; by rewrite Hv).
  assert (Hline : line w3 = line w2) by (unfold line, queue_ids, id_at, names; by rewrite Hgot, Hf).
  constructor.
  - done.
  - destruct (pl_sound _ _ _ Hpl Hs1 Hi1) as [S1 S2 S3 S4 S5]. constructor; rewrite ?Hgot, ?Hu, ?Hv; auto.
    intros q i [H|H] Hq; [|congruence]. apply (S4 q); [left|done]. destruct H as (n & e & Hn & He). exists n, e. by rewrite <- Hf.
  - intros q. rewrite Hp, Hp2. intros [H| ->%list_elem_of_singleton]%elem_of_app; [|done].
    assert (Ha : accounted w2 q) by (apply (pl_accounted _ _ _ Hpl); rewrite Hw1; by apply C).
    destruct Ha as [Ha|(y & Ha)]; [left; by apply Hst|right; exists y; auto].
  - intros q [H|H]%Hst%Hst2; rewrite Hp, Hp2; apply elem_of_app; [left; auto|right; by apply list_elem_of_singleton].
  - intros Hc. rewrite Hline, Hp, Hp2, ids_app. etransitivity; [by apply (pl_line _ _ _ Hpl id)|].
    assert (got w1 = got w) as -> by by rewrite Hw1. rewrite bool_decide_false by done.
    assert (line w1 = line w) as -> by by rewrite Hw1. apply sublist_app; [auto|]. unfold ids. csimpl. by rewrite Hb.
Qed.

Lemma sorted_last (l : list Z) : StronglySorted Z.lt l → ∀ s, s ∈ l → s ≤ default 0 (last l).
Proof.
  induction 1 as [|x l Hl IH Hf]; intros s Hs; [by apply not_elem_of_nil in Hs|]. rewrite last_cons.
  rewrite Forall_forall in Hf. destruct (last l) as [z|] eqn:E; cbn in *.
  - apply elem_of_cons in Hs as [->|Hs]; [|by apply IH]. assert (z ∈ l) as H%Hf; [|lia].
    apply last_Some in E as [l' ->]. apply elem_of_app. right. by apply list_elem_of_singleton.
  - apply last_None in E as ->. apply list_elem_of_singleton in Hs as ->. lia.
Qed.

Lemma works_load en cap age w : works (load en cap age) w (λ sp w', synced sp w' ∧ enabled sp = en).
Proof.
  unfold load. destruct en; cbn [negb]; [|by apply works_ret]. split; [by split|]. 
  assert (Hfin : ∀ st, works (Ret (mkSpool true (Z.max 0 cap) age (default 0 (fst <$> last (listing w))) (default no_counters st) (listing w) None)) w
    (λ sp w', synced sp w' ∧ enabled sp = true)).
  { intros st. apply works_ret. split; [|done]. intros _. cbn. assert (map fst (listing w) = names w) as Hl.
    { unfold listing. rewrite map_map. cbn. apply map_id. }
    split; [done|]. assert (fst <$> last (listing w) = last (names w)) as ->.
    { unfold listing. rewrite fmap_last. by destruct (last (names w)). }
    apply sorted_last, names_sorted. }
  cbv zeta. split; [by split|]. split; apply Hfin.
Qed.

Lemma find_key_app k p kvs : find_key k p = None → find_key k (p ++ kvs) = find_key k kvs.
Proof. unfold find_key. induction p as [|[k' v] p IH]; cbn; [done|]. case_bool_decide; [done|]. exact IH. Qed.

(** What a [ship] leaves behind, finished or not. *)
Definition ship_leaves (r : option (outcome * Shipper)) (w' : World) : Prop :=
  match r with
  | Some (_, a) => at_rest w' ∧ at_work a w'
  | None => ∀ arrived, arrives arrived w' → at_rest (bury arrived w')
  end.

Lemma bury_idle w arrived : inflight w = None → bury arrived w = w.
Proof. unfold bury. by intros ->. Qed.

Lemma wp_ship a p w : at_rest w → at_work a w → find_key "batch_id" p = None → wp answers (ship a p) ship_leaves w.
Proof.
  intros Hr [Hsy Hdis] Hp. assert (Hidle : inflight w = None) by apply Hr.
  assert (Hdead : ∀ w', at_rest w' → ship_leaves None w') by (intros w' H b _; rewrite bury_idle; [done|apply H]).
  unfold ship, stamp. rewrite Hp. split; [by apply Hdead|]. intros id Hid. cbn [prog_bind].
  set (q := p ++ [("batch_id" : str, JStr id)]).
  assert (Hb : batch_id q = Some id) by (unfold batch_id, q; by rewrite find_key_app).
  destruct (take_up w q id Hr Hid Hb) as (Hs1 & Hi1 & Hg). set (w1 := set_inflight (use_id w id) (Some q) (produced w)) in *.
  assert (Hr0 : at_rest (use_id w id)).
  { destruct Hr as [A B C D E]. constructor; [done| |done|done|done]. destruct B as [S1 S2 S3 S4 S5]. constructor; try done.
    intros x Hx. destruct (S2 x Hx) as (i & Hi & Hu). exists i. split; [done|]. cbn. set_solver. }
  split; [by apply Hdead|]. 
  assert (Hst1 : settled (conf (spool a)) a w1) by (split; [by eapply synced_files|done]).
  assert (Hleave : ∀ w2, places q w1 w2 → ship_leaves None w2).
  { intros w2 Hpl arrived Harr. unfold bury. assert (Hi2 : inflight w2 = Some q) by by rewrite (pl_inflight _ _ _ Hpl). rewrite Hi2.
    destruct arrived.
    - eapply (put_down w w1 w2 _ q id); try done. left. by apply (proj1 (Harr q Hi2)).
    - eapply (put_down w w1 w2 _ q id); try done; [|apply lose_accounted]. intros x Hx. apply elem_of_app. by left. }
  apply prog_wp_bind. eapply wp_mono; [|by apply (wp_ship_stamped a q (conf (spool a)))].
  intros [[o a']|] w2 [Hpl H]; [|by apply Hleave]. destruct H as [[Hsy2 Hc2] Hacc].
  split; [by apply Hleave|]. set (w3 := set_inflight w2 None _).
  assert (Hr3 : at_rest w3).
  { eapply (put_down w w1 w2 w3 q id); try done.
    cbn. by rewrite (pl_inflight _ _ _ Hpl). }
  split; [by apply Hdead|]. split; [done|]. split; [by eapply synced_files|]. unfold conf in Hc2. intros He. apply Hdis. congruence.
Qed.

Lemma works_drain a w : sound w → at_work a w → works (drain a) w (λ r w', at_work r.2 w').
Proof.
  intros Hs [Hsy Hdis]. unfold drain. destruct (is_empty a); [by apply works_ret|].
  assert (Hgo : ∀ off : bool, works (if off then Ret (false, a) else spool_drain a) w (λ r w', at_work r.2 w')).
  { intros [|]; [by apply works_ret|]. eapply works_mono, (works_spool_drain a w (conf (spool a))); [|done|done].
    intros r w1 _ [[Hsy1 Hc1] _]. split; [done|]. unfold conf in Hc1. intros He. apply Hdis. congruence. }
  unfold _backing_off. destruct (_ && _); [|exact (Hgo false)]. apply works_mono_clock. intros t. exact (Hgo (t <? _retry_after a)).
Qed.

Lemma at_rest_prune w now : at_rest w → prunable w now → at_rest (set_srv w (prune_receipts (srv w) now)).
Proof.
  intros [A [S1 S2 S3 S4 S5] C D E] Hpr. constructor; try done. constructor; try done.
  - intros p i [H|H] Hb Hi; [|cbn in H; congruence]. apply (Hpr p i); [done|done|]. apply (S4 p i); [by left|done|done].
  - intros i [t Ht]. apply S5. exists t. cbn in Ht. by apply map_lookup_filter_Some in Ht as [? _].
Qed.

Lemma inv_step y y' : step y y' → inv y → inv y'.
Proof.
  intros Hst [Hr Ha]. assert (Hs : sound (world y)) by apply Hr. destruct Hst; cbn [world agent] in *.
  - pose proof (wp_run _ _ _ _ _ _ (works_load en cap age w) H0) as [Hm [Hsy He]]. split; cbn; [by eapply at_rest_moves|].
    intros a [= <-]. split; [done|]. cbn. rewrite He. done.
  - pose proof (wp_run _ _ _ _ _ _ (works_load en cap age w) H) as [Hm _]. split; cbn; [by eapply at_rest_moves|done].
  - pose proof (wp_run _ _ _ _ _ _ (wp_ship a p w Hr (Ha a eq_refl) H) H0) as [Hr' Ha']. split; cbn; [done|]. by intros a1 [= <-].
  - pose proof (wp_run _ _ _ _ _ _ (wp_ship a p w Hr (Ha a eq_refl) H) H0) as Hr'. split; cbn; [by apply Hr'|done].
  - pose proof (wp_run _ _ _ _ _ _ (works_drain a w Hs (Ha a eq_refl)) H) as [Hm Ha']. split; cbn; [by eapply at_rest_moves|].
    by intros a1 [= <-].
  - pose proof (wp_run _ _ _ _ _ _ (works_drain a w Hs (Ha a eq_refl)) H) as [Hm _]. split; cbn; [by eapply at_rest_moves|done].
  - split; cbn; [by apply at_rest_prune|]. intros a Ho. by apply Ha in Ho.
Qed.

Lemma inv_reachable y : reachable y → inv y.
Proof.
  unfold reachable. intros Hr. remember (mkSys None empty_world) as y0 eqn:E.
  assert (H0 : inv y0).
  { subst. split; [|done]. assert (Hst : ∀ p, ¬ stored empty_world p) by (intros p [H|(s & e & H & _)]; [by apply not_elem_of_nil in H|done]).
    assert (Hk : ∀ p, ¬ known empty_world p) by (intros p [H|[H|H]]; [by eapply Hst|done|by apply not_elem_of_nil in H]).
    constructor; cbn; try done.
    - constructor; cbn; try (intros; exfalso; by eapply Hk); [constructor|by intros p i _ _ ?%not_elem_of_nil|by intros i [? ?]].
    - by intros p ?%not_elem_of_nil.
    - intros p H. exfalso. by eapply Hst. }
  clear E. induction Hr as [|x y z Hxy _ IH]; [done|]. by apply IH, (inv_step x).
Qed.
End effects.

(** ** The byte cap *)
Section answers_of.
Context (answers : option Z → Prop).

(** Every answer of [p] satisfies [R]. *)
Definition gives {A} (p : prog A) (R : A → Prop) : Prop :=
  ∀ w, wp answers p (λ r _, match r with Some a => R a | None => True end) w.

Lemma gives_ret {A} (a : A) (R : A → Prop) : R a → gives (Ret a) R.
Proof. intros H w. by split. Qed.
Lemma gives_bind {A B} (p : prog A) (f : A → prog B) R (R' : B → Prop) : gives p R → (∀ a, R a → gives (f a) R') → gives (p ≫= f) R'.
Proof. intros Hp Hf w. apply prog_wp_bind. eapply wp_mono, Hp. intros [a|] w' H; [by apply Hf|done]. Qed.
Lemma gives_wall {B} (f : Z * str → prog B) R : (∀ t s, gives (f (t, s)) R) → gives (wall ≫= f) R.
Proof. intros H w. split; [done|]. intros t s. apply H. Qed.
Lemma gives_save {B} c (f : unit → prog B) R : gives (f tt) R → gives (save c ≫= f) R.
Proof. intros H w. split; [done|]. split; apply H. Qed.
Lemma gives_unlink {B} y s (f : unit → prog B) R : gives (f tt) R → gives (unlink y s ≫= f) R.
Proof. intros H w. split; [done|]. apply H. Qed.
Lemma gives_write {B} s e (k : bool → prog B) R : gives (k true) R → gives (k false) R → gives (WriteEntry s e k) R.
Proof. intros H1 H2 w. split; [done|]. split; [apply H1|apply H2]. Qed.
Lemma gives_run {A} (p : prog A) R w w' a : gives p R → run answers w p w' (Some a) → R a.
Proof. intros H Hrun. exact (wp_run answers _ _ _ _ _ (H w) Hrun). Qed.

(** The oldest entries [dropped] are what the cap takes from [es]. *)
Definition trims (cap : Z) (es dropped kept : list (Z * Z)) : Prop :=
  es = dropped ++ kept ∧ kept ≠ [] ∧ sizes kept ≤ cap ∧ ∀ d l, dropped = d ++ [l] → cap < sizes (l :: kept).

Lemma sizes_app l1 l2 : sizes (l1 ++ l2) = sizes l1 + sizes l2.
Proof. induction l1 as [|x l1 IH]; cbn; [done|]. fold (sizes (l1 ++ l2)) (sizes l1). lia. Qed.

Lemma gives_trim_loop cap es : ∀ x d b, snd x ≤ cap →
  gives (trim_loop cap (sizes (es ++ [x])) (es ++ [x]) d b) (λ r, ∃ dropped,
    trims cap (es ++ [x]) dropped r.1.1 ∧ r.1.2 = d + Z.of_nat (length dropped) ∧ r.2 = b + sizes dropped).
Proof.
  induction es as [|[n z] es IH]; intros x d b Hx.
  { destruct x as [n z]. apply gives_ret. exists []. cbn in *. split_and!; [|lia|lia]. split_and!; [done|done|cbn; lia|by intros [|] ?]. }
  set (l := es ++ [x]) in *. assert (Hl : ∃ y l', l = y :: l') by (unfold l; destruct es; cbn; eauto). destruct Hl as (y & l' & Hl).
  change (((n, z) :: es) ++ [x]) with ((n, z) :: l). cbn [trim_loop]. rewrite Hl. rewrite <- Hl.
  assert (Hsz : sizes ((n, z) :: l) = z + sizes l) by done.
  destruct (Z.ltb_spec cap (sizes ((n, z) :: l))) as [Hlt|Hge].
  - apply gives_unlink. replace (sizes ((n, z) :: l) - z) with (sizes l) by lia.
    intros w. eapply wp_mono, IH; [|done]. intros [r|] w' Hr; [|done]. destruct Hr as (dropped & (He & Hne & Hcap & Hmin) & Hd & Hb).
    exists ((n, z) :: dropped). split_and!; [split_and!| |].
    + cbn. by rewrite <- He.
    + done.
    + done.
    + intros [|d0 d1] l0 [= <- Hdr]; [subst dropped|by apply (Hmin d1)]. cbn in He. by rewrite <- He.
    + cbn [length]. lia.
    + change (sizes ((n, z) :: dropped)) with (z + sizes dropped). lia.
  - apply gives_ret. exists []. cbn [fst snd length]. change (sizes []) with 0. split_and!; [|lia|lia]. split_and!; [done|done|done|by intros [|] ?].
Qed.

Definition capped (sp sp' : Spool) (x : Z * Z) : Prop := ∃ dropped,
  trims (cap_bytes sp) (_entries sp ++ [x]) dropped (_entries sp')
  ∧ trimmed_entries (_counters sp') = trimmed_entries (_counters sp) + Z.of_nat (length dropped)
  ∧ trimmed_bytes (_counters sp') = trimmed_bytes (_counters sp) + sizes dropped.

Lemma gives_enforce_cap sp es x : cap_bytes sp ≠ 0 → _entries sp = es ++ [x] → snd x ≤ cap_bytes sp →
  gives (_enforce_cap_locked sp) (λ sp', capped (with_entries sp es) sp' x).
Proof.
  intros Hc He Hx. unfold _enforce_cap_locked. rewrite (proj2 (Z.eqb_neq _ _) Hc), He.
  destruct (Z.leb_spec (sizes (es ++ [x])) (cap_bytes sp)) as [Hle|Hgt].
  { apply gives_ret. exists []. cbn. rewrite He. change (sizes []) with 0. split_and!; [|lia|lia].
    split_and!; [done|by destruct es|done|by intros [|] ?]. }
  eapply gives_bind; [by apply gives_trim_loop|]. intros [[kept d] b] (dropped & Htr & Hd & Hb). cbn [fst snd] in *.
  destruct (Z.eqb_spec d 0) as [Hd0|Hd0].
  - apply gives_ret. exists dropped. assert (dropped = []) as -> by (apply length_zero_iff_nil; lia). cbn. split_and!; [done|lia|lia].
  - apply gives_wall. intros now t. cbv zeta. apply gives_save. apply gives_ret. exists dropped. cbn. split_and!; [done|lia|lia].
Qed.
End answers_of.

(** ** Draining in the end *)

(** A control plane that is back: it answers each body always the same way. *)
Inductive fate := Taken | Turned_away | Breaks.
#[export] Instance fate_eq_dec : EqDecision fate.
Proof. solve_decision. Defined.






Definition payloads (w : World) : list payload := omap (λ s, e_payload <$> files w !! s) (names w).




Lemma payloads_files w w' : files w' = files w → payloads w' = payloads w.
Proof. unfold payloads, names. by intros ->. Qed.




(** *** What a call leaves of the batches *)
Section coming_back.
Context (f : payload → fate) (gap : Z).

Definition keeps (w w' : World) : Prop := (sound w → sound w') ∧ ∀ q, f q = Taken → stored w q → stored w' q.

#[export] Instance keeps_refl : Reflexive keeps.
Proof. by split. Qed.
#[export] Instance keeps_trans : Transitive keeps.
Proof. intros a b c [H1 H2] [H3 H4]. split; auto. Qed.


























End coming_back.

(** *** Scripts of calls, for the witnesses *)
Fixpoint calls (cs : list (option payload * Env)) (a : Shipper) (w : World) : Shipper * World :=
  match cs with
  | [] => (a, w)
  | (Some p, env) :: cs => let '((_, a), w) := exec env (ship a p) w in calls cs a w
  | (None, env) :: cs => let '((_, a), w) := exec env (drain a) w in calls cs a w
  end.

Lemma calls_reachable answers may_disable cs : ∀ a w,
  reachable answers may_disable (mkSys (Some a) w) →
  (∀ op env, (op, env) ∈ cs → allowed answers env ∧ ∀ p, op = Some p → find_key "batch_id" p = None) →
  reachable answers may_disable (mkSys (Some (calls cs a w).1) (calls cs a w).2).
Proof.
  induction cs as [|[[p|] env] cs IH]; intros a w Hr Hcs; cbn [calls]; [done| |].
  - destruct (Hcs (Some p) env) as [Hal Hp]; [by left|]. pose proof (exec_run answers env (ship a p) w Hal) as Hrun.
    destruct (exec env (ship a p) w) as [[o a1] w1]. apply IH; [|intros op env' Hin; apply Hcs; by right].
    eapply rtc_r; [done|]. eapply sy_ship; [by apply Hp|exact Hrun].
  - destruct (Hcs None env) as [Hal _]; [by left|]. pose proof (exec_run answers env (drain a) w Hal) as Hrun.
    destruct (exec env (drain a) w) as [[b a1] w1]. apply IH; [|intros op env' Hin; apply Hcs; by right].
    eapply rtc_r; [done|]. eapply sy_drain. exact Hrun.
Qed.

Definition demo_env (st : option Z) (committed : bool) (t : Z) : Env := mkEnv (λ _, (st, committed)) t t "1.0" true.
Definition demo_spool : Spool := mkSpool true 1000 None 0 no_counters [] None.
Definition demo_shipper : Shipper := mkShipper demo_spool 0 0 None None.
Definition demo_batch (n : Z) : payload := [("k" : str, JInt n)].

Lemma demo_reachable answers may_disable cs :
  (∀ op env, (op, env) ∈ cs → allowed answers env ∧ ∀ p, op = Some p → find_key "batch_id" p = None) →
  reachable answers may_disable (mkSys (Some (calls cs demo_shipper empty_world).1) (calls cs demo_shipper empty_world).2).
Proof.
  apply calls_reachable. eapply rtc_l; [|apply rtc_refl].
  apply (sy_start _ _ None true 1000 None 0 empty_world empty_world demo_spool); [done|]. apply run_list_dir.
  eapply run_load_state; [by left|]. apply run_ret.
Qed.

(** The first response is lost; the second batch finds the backlog. *)
Definition demo_calls : list (option payload * Env) :=
  [(Some (demo_batch 1), demo_env None true 1); (Some (demo_batch 2), demo_env (Some 503) false 2);
   (Some (demo_batch 3), demo_env (Some 200) true 3)].
Definition demo_answers (st : option Z) : Prop := st ∈ [None; Some 503; Some 200].

Lemma demo_calls_allowed op env : (op, env) ∈ demo_calls → allowed demo_answers env ∧ ∀ p, op = Some p → find_key "batch_id" p = None.
Proof.
  intros Hin. assert (H : (op, env) = (Some (demo_batch 1), demo_env None true 1) ∨ (op, env) = (Some (demo_batch 2), demo_env (Some 503) false 2)
    ∨ (op, env) = (Some (demo_batch 3), demo_env (Some 200) true 3)).
  { unfold demo_calls in Hin. rewrite !elem_of_cons in Hin. destruct Hin as [H|[H|[H|[]%not_elem_of_nil]]]; auto. }
  destruct H as [[= -> ->]|[[= -> ->]|[= -> ->]]]; (split; [|by intros p [= <-]]); intros p; cbn; (split; [unfold demo_answers; set_solver|]); try done.
  intros _ (s & [= <-] & ?). lia.
Qed.
Definition demo_sys : Sys := mkSys (Some (calls demo_calls demo_shipper empty_world).1) (calls demo_calls demo_shipper empty_world).2.

(** ** What the spool promises *)

(** C11 -- every batch handed to [ship] ends up ingested, or still queued on
    disk, or written off with a reason; the server holds it at most once, and
    holds nothing that was not shipped.  This is so after any sequence of
    starts, ships, drains and receipt prunings, each of which may die at any
    point, with any loss of requests and of responses, any clock, any status,
    and a disk whose reads and writes may fail.  Receipts of batches still
    queued are assumed not pruned, and a stamp of [ship] to be new. *)
Theorem every_batch_accounted answers may_disable y :
  reachable answers may_disable y →
  NoDup (ids (ingested (srv (world y))))
  ∧ (∀ p, p ∈ ingested (srv (world y)) → p ∈ produced (world y))
  ∧ ∀ p, p ∈ produced (world y) →
      p ∈ ingested (srv (world y)) ∨ queued (world y) p ∨ ∃ why, (why, p) ∈ lost (world y).
Proof.
  intros [[_ Hs Hacc Hst _] _]%inv_reachable. split_and!; [apply Hs|intros p Hp; apply Hst; by left|].
  intros p [[Hp|Hp]|Hp]%Hacc; auto.
Qed.

Lemma every_batch_accounted_witness :
  length (produced (world demo_sys)) = 3%nat ∧ NoDup (ids (ingested (srv (world demo_sys)))).
Proof.
  split; [vm_compute; reflexivity|].
  apply (every_batch_accounted demo_answers False demo_sys). exact (demo_reachable demo_answers False demo_calls demo_calls_allowed).
Defined.

(** Where no plain 500 is ever answered and every start finds its
    directory, batches are ingested in the order they were shipped: a live
    batch never overtakes the backlog, whatever is lost, retried or replayed. *)
Theorem ingested_in_order answers may_disable y :
  ¬ answers (Some 500) → ¬ may_disable → reachable answers may_disable y →
  ids (ingested (srv (world y))) `sublist_of` ids (produced (world y)).
Proof.
  intros H5 Hd [[_ _ _ _ Hl] _]%inv_reachable. etransitivity; [|by apply Hl]. apply sublist_inserts_r, reflexivity.
Qed.

Lemma ingested_in_order_witness :
  length (ids (ingested (srv (world demo_sys)))) = 3%nat ∧
  ids (ingested (srv (world demo_sys))) `sublist_of` ids (produced (world demo_sys)).
Proof.
  split; [vm_compute; reflexivity|].
  apply (ingested_in_order demo_answers False demo_sys); [unfold demo_answers; set_solver|tauto|].
  exact (demo_reachable demo_answers False demo_calls demo_calls_allowed).
Defined.

(** C12 -- an [append] that keeps its batch leaves at most [cap_bytes] on disk:
    it has dropped the oldest entries, as few as bring the stream under its
    cap and never the batch just appended, and counted each with its bytes. *)
Theorem append_within_cap answers w sp p w' sp' :
  cap_bytes sp ≠ 0 → run answers w (append sp p) w' (Some (true, sp')) →
  ∃ name size dropped,
    _entries sp ++ [(name, size)] = dropped ++ _entries sp'
    ∧ last (_entries sp') = Some (name, size)
    ∧ sizes (_entries sp') ≤ cap_bytes sp
    ∧ (∀ d l, dropped = d ++ [l] → cap_bytes sp < sizes (l :: _entries sp'))
    ∧ trimmed_entries (_counters sp') = trimmed_entries (_counters sp) + Z.of_nat (length dropped)
    ∧ trimmed_bytes (_counters sp') = trimmed_bytes (_counters sp) + sizes dropped.
Proof.
  intros Hcap Hrun.
  assert (H : gives answers (append sp p) (λ r, r.1 = true → ∃ x, capped sp r.2 x)).
  { unfold append. destruct (enabled sp); cbn [negb]; [|by apply gives_ret]. apply gives_wall. intros now repr. cbv zeta.
    rewrite (proj2 (Z.eqb_neq _ _) Hcap). cbn [negb andb]. destruct (Z.ltb_spec (cap_bytes sp) (Z.of_nat (length (body repr p)))) as [|Hfit].
    - apply gives_wall. intros. apply gives_save. by apply gives_ret.
    - intros w0. split; [done|]. intros t. revert w0. cbv zeta. set (seq := if t <=? _ then _ else _).
      apply (gives_write answers seq (mkEntry now p _)); [|apply gives_save; by apply gives_ret].
      eapply gives_bind; [by eapply (gives_enforce_cap answers (with_entries (with_seq sp seq) _) (_entries sp))|].
      intros sp1 Hsp1. apply gives_ret. intros _. by exists (seq, Z.of_nat (length (body repr p))). }
  destruct (gives_run _ _ _ _ _ _ H Hrun eq_refl) as ([name size] & dropped & (He & Hne & Hle & Hmin) & Hn & Hb). cbn in *.
  exists name, size, dropped. split_and!; try done.
  destruct (exists_last Hne) as (l & y & E). rewrite E in *. rewrite app_assoc in He.
  apply app_inj_tail in He as [_ <-]. apply last_snoc.
Qed.

Lemma append_within_cap_witness :
  ∃ name size dropped, [(1, 50)] ++ [(name, size)] = dropped ++ [(3000, 42)] ∧ last [(3000, 42)] = Some (name, size).
Proof.
  pose proof (append_within_cap (λ _, True) empty_world (mkSpool true 80 None 1 no_counters [(1, 50)] None) (demo_batch 1)
    _ _ ltac:(discriminate) (exec_run (λ _, True) (demo_env (Some 200) true 3) _ _ ltac:(intros p; split; [done|discriminate])))
    as (name & size & dropped & He & Hl & _).
  exists name, size, dropped. split; [exact He|exact Hl].
Defined.



End Spool.
