(* ===== verification/FreeCidrs.v ===== *)
(** * The free CIDRs of a block

    [ipaddress]'s [address_exclude], and [_compute_free_cidrs] of
    [backend/app/api/v1/ipam/router.py], which subtracts the children of a
    block from it one by one.  The free-space listing and the allocation of a
    subnet ([TreeCreate]) share it. *)
From S2P Require Import Prelude PyStr IpNet Ipam.

Module FreeCidrs.
Import Ipam.
Local Open Scope Z_scope.

(** [n.subnets()] *)
Definition halves (n : IPNetwork) : IPNetwork * IPNetwork :=
  let p := prefixlen n + 1 in
  (mkNet (ver n) (base n) p, mkNet (ver n) (base n + 2 ^ (max_prefixlen (ver n) - p)) p).

(** The loop of [n.address_exclude(other)], for [other] inside [n]: the half
    that does not hold [other] is yielded, the other half is split on; one
    turn per prefix length in between. *)
Fixpoint exclude (fuel : nat) (n other : IPNetwork) : list IPNetwork :=
  if bool_decide (n = other) then []
  else match fuel with
       | O => []
       | S fuel =>
           let '(s1, s2) := halves n in
           if insideb other s1 then s2 :: exclude fuel s1 other else s1 :: exclude fuel s2 other
       end.
Definition address_exclude (n other : IPNetwork) : list IPNetwork :=
  exclude (Z.to_nat (prefixlen other - prefixlen n)) n other.

(** One [net] of the working set, less one child; [None] is the [TypeError]. *)
Definition exclude_one (child net : IPNetwork) : option (list IPNetwork) :=
  if bool_decide (child = net) then Some []
  else match subnet_of child net with
       | None => None
       | Some true => Some (address_exclude net child)
       | Some false => match subnet_of net child with Some true => Some [] | _ => Some [net] end
       end.
Definition exclude_child (child : IPNetwork) (working : list IPNetwork) : option (list IPNetwork) :=
  mjoin <$> mapM (exclude_one child) working.

Fixpoint exclude_children (children working : list IPNetwork) : option (list IPNetwork) :=
  match children with
  | [] => Some working
  | child :: children => working ← exclude_child child working; exclude_children children working
  end.

Definition base_le (n m : IPNetwork) : Prop := base n ≤ base m.
#[export] Instance base_le_dec : RelDecision base_le.
Proof. intros n m. unfold base_le. apply _. Defined.

Definition _compute_free_cidrs (block : IPNetwork) (children : list IPNetwork) (max_results : nat) : option (list IPNetwork) :=
  (λ working, take max_results (merge_sort base_le working)) <$> exclude_children children [block].

(** ** Halves *)
Lemma inside_prefix m n : wf m → wf n → inside m n → prefixlen n ≤ prefixlen m.
Proof.
  intros Hm Hn Hi. destruct (Z.le_gt_cases (prefixlen n) (prefixlen m)) as [|Hlt]; [done|]. exfalso.
  destruct (Hi _ (mem_network_address m Hm)) as [Hv L1]. destruct (Hi _ (mem_broadcast m Hm)) as [_ L2]. simpl in *.
  assert (Hs : num_addresses m ≤ num_addresses n) by lia. rewrite (size_split m n) in Hs by (done || lia).
  pose proof (size_pos _ Hn). assert (2 ^ 1 ≤ 2 ^ (prefixlen n - prefixlen m)) by (apply Z.pow_le_mono_r; lia). nia.
Qed.

Lemma inside_equal m n : wf m → wf n → inside m n → prefixlen m = prefixlen n → m = n.
Proof. intros Hm Hn Hi Hp. apply (same_length_disjoint m n (network_address m)); auto with spatium. Qed.

(** Of two networks that meet, one lies inside the other. *)
Lemma meets_nested m n : wf m → wf n → meets m n → inside m n ∨ inside n m.
Proof.
  intros Hm Hn (a & Ha & Hb). destruct (Z.le_ge_cases (prefixlen m) (prefixlen n)) as [H|H].
  - right. intros b Hbb. by apply (nested m n a).
  - left. intros b Hbb. by apply (nested n m a).
Qed.

Lemma not_meets_inside m x n : inside x n → ¬ meets m n → ¬ meets m x.
Proof. intros Hi Hn (a & ? & ?). apply Hn. exists a. auto. Qed.

Section half.
Context (n : IPNetwork) (Hw : wf n) (Hp : prefixlen n < max_prefixlen (ver n)).
Let s1 := fst (halves n).
Let s2 := snd (halves n).

Lemma half_size : num_addresses s1 = num_addresses s2 ∧ num_addresses n = 2 * num_addresses s1.
Proof.
  unfold num_addresses, s1, s2, halves. simpl. split; [done|].
  replace (max_prefixlen (ver n) - prefixlen n) with (1 + (max_prefixlen (ver n) - (prefixlen n + 1))) by lia.
  rewrite Z.pow_add_r by (destruct Hw as ((? & ?) & _); lia). done.
Qed.

Lemma half_base : base s2 = base n + num_addresses s1.
Proof. done. Qed.

Lemma half_wf : wf s1 ∧ wf s2.
Proof.
  destruct half_size as [E1 E2]. pose proof (size_pos n Hw) as Hs. pose proof (base_bound n Hw) as Hb.
  destruct Hw as ((H1 & H2) & H3 & H4). rewrite E2 in H4, Hs.
  assert (Hm : base n mod num_addresses s1 = 0).
  { rewrite Z.mul_comm in H4. rewrite Z.rem_mul_r in H4 by lia. pose proof (Z.mod_pos_bound (base n) (num_addresses s1) ltac:(lia)).
    pose proof (Z.mod_pos_bound (base n / num_addresses s1) 2 ltac:(lia)). nia. }
  split; (split_and!; [simpl; lia|simpl; lia| | |]).
  - simpl. lia.
  - simpl. lia.
  - exact Hm.
  - change (0 ≤ base s2). rewrite half_base. lia.
  - change (base s2 < 2 ^ max_prefixlen (ver n)). rewrite half_base. lia.
  - rewrite half_base, <- E1. by rewrite Z.add_mod, Z.mod_same, Hm by lia.
Qed.

Lemma half_mem a : mem n a ↔ mem s1 a ∨ mem s2 a.
Proof.
  destruct half_size as [E1 E2]. pose proof half_base as Hb2. unfold mem. rewrite Hb2, <- E1, E2. pose proof (size_pos s1 (proj1 half_wf)).
  change (ver s1) with (ver n). change (ver s2) with (ver n). change (base s1) with (base n).
  split; [intros [Hv H1]|intros [[Hv H1]|[Hv H1]]; (split; [done|lia])].
  destruct (Z.lt_ge_cases (ip a) (base n + num_addresses s1)); [left|right]; (split; [done|lia]).
Qed.

Lemma half_disjoint a : mem s1 a → mem s2 a → False.
Proof.
  destruct half_size as [E1 E2]. pose proof half_base as Hb2. unfold mem. rewrite Hb2. change (base s1) with (base n). lia.
Qed.

Lemma half_of m : wf m → inside m n → m ≠ n → inside m s1 ∨ inside m s2.
Proof.
  intros Hm Hi Hne. pose proof (inside_prefix m n Hm Hw Hi) as Hle.
  assert (Hlt : prefixlen n < prefixlen m).
  { destruct (decide (prefixlen m = prefixlen n)) as [E|]; [|lia]. by destruct (Hne (inside_equal m n Hm Hw Hi E)). }
  destruct half_wf as [W1 W2]. pose proof (mem_network_address m Hm) as Ha.
  destruct (proj1 (half_mem _) (Hi _ Ha)) as [H|H]; [left|right]; intros b Hb;
    (apply (nested _ m (network_address m)); [done|done|simpl; lia|done|done|done]).
Qed.

Lemma half_inside : inside s1 n ∧ inside s2 n.
Proof. split; intros a Ha; apply half_mem; auto. Qed.
End half.

(** ** Subtracting one network *)

(** [l]: the pieces of [n] that meet none of [occ]. *)
Record frees (n : IPNetwork) (occ l : list IPNetwork) : Prop := {
  fr_piece x : x ∈ l → wf x ∧ inside x n ∧ ∀ o, o ∈ occ → ¬ meets x o;
  fr_apart x y : x ∈ l → y ∈ l → meets x y → x = y;
  fr_once : NoDup l;
  fr_whole m : wf m → inside m n → (∀ o, o ∈ occ → ¬ meets m o) → ∃ x, x ∈ l ∧ inside m x;
}.

Lemma exclude_frees fuel : ∀ n o, wf n → wf o → inside o n → (prefixlen o - prefixlen n ≤ Z.of_nat fuel) →
  frees n [o] (exclude fuel n o).
Proof.
  assert (Hself : ∀ o, wf o → frees o [o] []).
  { intros o Ho. constructor; [by intros x ?%not_elem_of_nil|by intros x y ?%not_elem_of_nil|constructor|].
    intros m Hm Hi Hn. destruct (Hn o); [by left|]. by apply inside_meets. }
  induction fuel as [|fuel IH]; intros n o Hn Ho Hi Hf; cbn [exclude]; (case_bool_decide as He; [subst; by apply Hself|]);
    pose proof (inside_prefix o n Ho Hn Hi) as Hle.
  { destruct He. symmetry. apply inside_equal; [done|done|done|lia]. }
  assert (Hlt : prefixlen n < prefixlen o).
  { destruct (decide (prefixlen o = prefixlen n)); [|lia]. destruct He. symmetry. by apply inside_equal. }
  assert (Hv : ver o = ver n) by (by destruct (Hi _ (mem_network_address o Ho))).
  assert (Hp : prefixlen n < max_prefixlen (ver n)) by (destruct Ho as ((_ & Hmax) & _); rewrite Hv in Hmax; lia).
  destruct (half_wf n Hn Hp) as [W1 W2]. destruct (half_inside n Hn Hp) as [I1 I2].
  pose proof (half_disjoint n Hn Hp) as Hdis. pose proof (half_of n Hn Hp) as Hof.
  assert (Hside : ∀ s t l, wf s → wf t → inside s n → inside t n → (∀ a, mem s a → mem t a → False) →
    (∀ m, wf m → inside m n → m ≠ n → inside m s ∨ inside m t) → inside o s → frees s [o] l → frees n [o] (t :: l)).
  { intros s t l Ws Wt Is It Hd Hor Hos [F1 F2 F3 F4]. 
    assert (Hto : ¬ meets t o) by (intros (a & Ha & Hb); by apply (Hd a); [apply Hos|]).
    assert (Hx : ∀ x, x ∈ l → ¬ meets t x) by (intros x Hx (a & Ha & Hb); apply (Hd a); [by apply (F1 x Hx)|done]).
    constructor.
    - intros x [->|Hin]%elem_of_cons; [split_and!; [done|done|]; by intros ? ->%list_elem_of_singleton|].
      destruct (F1 x Hin) as (? & ? & ?). split_and!; [done|by transitivity s|done].
    - intros x y [->|H1]%elem_of_cons [->|H2]%elem_of_cons Hm; [done| | |by apply F2].
      + by destruct (Hx y H2).
      + by destruct (Hx x H1); apply meets_sym.
    - apply NoDup_cons. split; [|done]. intros Hin. apply (Hx t Hin). by apply inside_meets.
    - intros m Hm Him Hmo. destruct (Hor m Hm Him) as [H|H].
      + intros ->. apply (Hmo o); [by left|]. apply meets_sym. by apply inside_meets.
      + destruct (F4 m Hm H Hmo) as (x & Hin & ?). exists x. split; [by right|done].
      + exists t. split; [by left|done]. }
  pose proof (Hof o Ho Hi ltac:(by intros ->)) as Hoh. cbn [halves fst snd] in *.
  destruct (insideb o _) eqn:Eo.
  - apply insideb_inside in Eo; [|done|exact W1]. eapply Hside; [exact W1|exact W2|exact I1|exact I2|exact Hdis|exact Hof|exact Eo|].
    apply IH; [exact W1|done|exact Eo|simpl; lia].
  - assert (Eo2 : inside o (snd (halves n))).
    { destruct Hoh as [H|H]; [|exact H]. exfalso. apply not_true_iff_false in Eo. apply Eo. apply bool_decide_eq_true.
      by apply (subnet_of_spec o). }
    eapply Hside; [exact W2|exact W1|exact I2|exact I1|intros a Ha Hb; exact (Hdis a Hb Ha)| |exact Eo2|].
    + intros m ? ? ?. destruct (Hof m); auto.
    + apply IH; [exact W2|done|exact Eo2|simpl; lia].
Qed.

Lemma address_exclude_frees n o : wf n → wf o → inside o n → frees n [o] (address_exclude n o).
Proof. intros Hn Ho Hi. pose proof (inside_prefix o n Ho Hn Hi). apply exclude_frees; [done|done|done|lia]. Qed.

Lemma frees_same n o : wf n → ¬ meets n o → frees n [o] [n].
Proof.
  intros Hn Hm. constructor.
  - intros x ->%list_elem_of_singleton. split_and!; [done|done|]. by intros ? ->%list_elem_of_singleton.
  - by intros x y ->%list_elem_of_singleton ->%list_elem_of_singleton.
  - apply NoDup_singleton.
  - intros m _ Hi _. exists n. split; [by left|done].
Qed.

Lemma frees_covered n o : wf n → inside n o → frees n [o] [].
Proof.
  intros Hn Hi. constructor; [by intros x ?%not_elem_of_nil|by intros x y ?%not_elem_of_nil|constructor|].
  intros m Hm Him Hmo. destruct (Hmo o); [by left|]. apply inside_meets; [done|by transitivity n].
Qed.

Lemma exclude_one_frees o n : wf n → wf o → ver o = ver n → ∃ l, exclude_one o n = Some l ∧ frees n [o] l.
Proof.
  intros Hn Ho Hv. unfold exclude_one. case_bool_decide as He.
  { exists []. split; [done|]. apply frees_covered; [done|]. by rewrite He. }
  pose proof (subnet_of_spec o n Ho Hn) as H1. pose proof (subnet_of_spec n o Hn Ho) as H2.
  unfold subnet_of in *. rewrite !bool_decide_false in * by (intros H; by apply H).
  destruct (_ && _) eqn:E1.
  { exists (address_exclude n o). split; [done|]. apply address_exclude_frees; [done|done|]. exact (proj1 H1 eq_refl). }
  match goal with |- context [if ?b then Some [] else Some [n]] => destruct b eqn:E2 end.
  { exists []. split; [done|]. apply frees_covered; [done|]. exact (proj1 H2 eq_refl). }
  exists [n]. split; [done|]. apply frees_same; [done|]. intros Hm.
  destruct (meets_nested n o Hn Ho Hm) as [Hi|Hi]; [apply H2 in Hi|apply H1 in Hi]; congruence.
Qed.

(** ** Subtracting the children *)

(** Pieces of pieces. *)
Lemma frees_step n occ o w ls : wf o → frees n occ w → Forall2 (λ x l, frees x [o] l) w ls →
  frees n (occ ++ [o]) (mjoin ls).
Proof.
  intros Ho [F1 F2 F3 F4] Hls.
  assert (Hin : ∀ x, x ∈ mjoin ls ↔ ∃ y l, y ∈ w ∧ l ∈ ls ∧ x ∈ l ∧ frees y [o] l).
  { intros x. rewrite list_elem_of_join. split.
    - intros (l & Hx & Hl). apply list_elem_of_lookup in Hl as [i Hi]. destruct (Forall2_lookup_r _ _ _ _ _ Hls Hi) as (y & Hy & Hf).
      exists y, l. split_and!; [by eapply list_elem_of_lookup_2|by eapply list_elem_of_lookup_2|done|done].
    - intros (y & l & _ & Hl & Hx & _). by exists l. }
  constructor.
  - intros x (y & l & Hy & _ & Hx & [G1 _ _ _])%Hin. destruct (F1 y Hy) as (_ & Hyn & Hyo), (G1 x Hx) as (Hw & Hxy & Hxo).
    split_and!; [done|by transitivity y|]. intros o' [Ho'|Ho']%elem_of_app; [|by apply Hxo].
    intros Hm. apply (Hyo o' Ho'). by eapply meets_mono; [exact Hxy| |exact Hm].
  - intros x x' (y & l & Hy & Hl & Hx & Hf)%Hin (y' & l' & Hy' & Hl' & Hx' & Hf')%Hin Hm.
    destruct (fr_piece _ _ _ Hf x Hx) as (_ & Hxy & _), (fr_piece _ _ _ Hf' x' Hx') as (_ & Hxy' & _).
    assert (y = y') as <- by (apply F2; [done|done|by eapply meets_mono]).
    assert (l = l') as <-; [|by apply (fr_apart _ _ _ Hf)].
    apply list_elem_of_lookup in Hl as [i Hi], Hl' as [j Hj].
    destruct (Forall2_lookup_r _ _ _ _ _ Hls Hi) as (z & Hz & Hfz), (Forall2_lookup_r _ _ _ _ _ Hls Hj) as (z' & Hz' & Hfz').
    assert (Hzy : ∀ z l x, frees z [o] l → x ∈ l → inside x y → wf x → z ∈ w → z = y).
    { intros u k v Hfu Hv Hvy Hwv Hu. destruct (fr_piece _ _ _ Hfu v Hv) as (_ & Hvu & _). apply F2; [done|done|].
      exists (network_address v). auto with spatium. }
    assert (z = y) as -> by (apply (Hzy z l x); [done|done|done|by apply (fr_piece _ _ _ Hf)|by eapply list_elem_of_lookup_2]).
    assert (z' = y) as -> by (apply (Hzy z' l' x'); [done|done|done|by apply (fr_piece _ _ _ Hf')|by eapply list_elem_of_lookup_2]).
    rewrite (NoDup_lookup w i j y F3 Hz Hz') in Hi. congruence.
  - clear F1 F4 Hin. revert F2 F3. induction Hls as [|y l w ls Hf Hls IH]; intros F2 F3; cbn; [constructor|].
    apply NoDup_cons in F3 as [Hy F3]. apply NoDup_app. split_and!; [by apply Hf| |apply IH; [|done]; intros a b ? ?; apply F2; by right].
    intros x Hx (l' & Hx' & Hl')%list_elem_of_join. apply list_elem_of_lookup in Hl' as [i Hi].
    destruct (Forall2_lookup_r _ _ _ _ _ Hls Hi) as (y' & Hy' & Hf'). apply list_elem_of_lookup_2 in Hy'.
    destruct (fr_piece _ _ _ Hf x Hx) as (Hw & I1 & _), (fr_piece _ _ _ Hf' x Hx') as (_ & I2 & _). apply Hy.
    rewrite (F2 y y'); [done|by left|by right|]. exists (network_address x). auto with spatium.
  - intros m Hm Him Hmo. destruct (F4 m Hm Him) as (y & Hy & Hmy); [intros o' Ho'; apply Hmo, elem_of_app; by left|].
    apply list_elem_of_lookup in Hy as [i Hi]. destruct (Forall2_lookup_l _ _ _ _ _ Hls Hi) as (l & Hl & Hf).
    destruct (fr_whole _ _ _ Hf m Hm Hmy) as (x & Hx & Hmx).
    { intros o' ->%list_elem_of_singleton. apply Hmo, elem_of_app. right. by left. }
    exists x. split; [|done]. apply Hin. exists y, l. split_and!; [by eapply list_elem_of_lookup_2|by eapply list_elem_of_lookup_2|done|done].
Qed.

Lemma exclude_child_frees n occ o w : wf o → ver o = ver n → frees n occ w →
  ∃ w', exclude_child o w = Some w' ∧ frees n (occ ++ [o]) w'.
Proof.
  intros Ho Hv Hw. assert (Hls : ∃ ls, mapM (exclude_one o) w = Some ls ∧ Forall2 (λ x l, frees x [o] l) w ls).
  { assert (Hall : Forall (λ x, ∃ l, exclude_one o x = Some l ∧ frees x [o] l) w).
    { rewrite Forall_forall. intros x Hx. destruct (fr_piece _ _ _ Hw x Hx) as (Hwx & Hi & _).
      apply exclude_one_frees; [done|done|]. destruct (Hi _ (mem_network_address x Hwx)) as [E _]. simpl in E. congruence. }
    clear Hw. induction Hall as [|x w (l & Hl & Hf) _ (ls & E & IH)]; [by exists []|].
    exists (l :: ls). cbn. rewrite Hl. cbn. rewrite E. split; [done|by constructor]. }
  destruct Hls as (ls & E & Hls). exists (mjoin ls). unfold exclude_child. rewrite E. split; [done|]. by eapply frees_step.
Qed.

Lemma exclude_children_frees n cs : ∀ occ w, (∀ c, c ∈ cs → wf c ∧ ver c = ver n) → frees n occ w →
  ∃ w', exclude_children cs w = Some w' ∧ frees n (occ ++ cs) w'.
Proof.
  induction cs as [|c cs IH]; intros occ w Hcs Hw; cbn [exclude_children].
  - exists w. by rewrite app_nil_r.
  - destruct (Hcs c) as [Hc Hv]; [by left|]. destruct (exclude_child_frees n occ c w Hc Hv Hw) as (w1 & -> & Hw1). cbn.
    destruct (IH (occ ++ [c]) w1) as (w2 & E & Hw2); [intros x Hx; apply Hcs; by right|done|].
    exists w2. split; [done|]. by rewrite <- app_assoc in Hw2.
Qed.

Lemma frees_perm n occ l l' : l ≡ₚ l' → frees n occ l → frees n occ l'.
Proof.
  intros Hp [F1 F2 F3 F4]. constructor.
  - intros x. rewrite <- Hp. apply F1.
  - intros x y. rewrite <- !Hp. apply F2.
  - by rewrite <- Hp.
  - intros m Hm Hi Ho. destruct (F4 m Hm Hi Ho) as (x & Hx & ?). exists x. by rewrite <- Hp.
Qed.

Lemma compute_free_frees n cs k : wf n → (∀ c, c ∈ cs → wf c ∧ ver c = ver n) →
  ∃ l, _compute_free_cidrs n cs k = Some (take k l) ∧ frees n cs l ∧ Sorted base_le l.
Proof.
  intros Hn Hcs. destruct (exclude_children_frees n cs [] [n] Hcs) as (w & E & Hw).
  { constructor.
    - intros x ->%list_elem_of_singleton. split_and!; [done|done|]. by intros o ?%not_elem_of_nil.
    - by intros x y ->%list_elem_of_singleton ->%list_elem_of_singleton.
    - apply NoDup_singleton.
    - intros m _ Hi _. exists n. split; [by left|done]. }
  exists (merge_sort base_le w). unfold _compute_free_cidrs. rewrite E. split_and!; [done| |].
  - eapply frees_perm; [|exact Hw]. symmetry. apply merge_sort_Permutation.
  - apply Sorted_merge_sort. intros x y. unfold base_le. lia.
Qed.

(** The free CIDRs of a block: for children of the block's family,
    whatever their sizes and however they overlap, the answer is a prefix of a
    list sorted by address whose entries are networks of the block, share no
    address with a child nor with each other, hold every free address, and are
    maximal: any network of the block clear of the children lies in one entry.
    The list is cut at [max_results] only. *)
Theorem free_cidrs_exact (block : IPNetwork) (children : list IPNetwork) (max_results : nat) :
  wf block → (∀ c, c ∈ children → wf c ∧ ver c = ver block) →
  ∃ l, _compute_free_cidrs block children max_results = Some (take max_results l)
    ∧ Sorted base_le l ∧ NoDup l
    ∧ (∀ x y, x ∈ l → y ∈ l → meets x y → x = y)
    ∧ (∀ a, (∃ x, x ∈ l ∧ mem x a) ↔ mem block a ∧ ∀ c, c ∈ children → ¬ mem c a)
    ∧ (∀ x, x ∈ l → wf x ∧ inside x block)
    ∧ ∀ m, wf m → inside m block → (∀ c, c ∈ children → ¬ meets m c) → ∃ x, x ∈ l ∧ inside m x.
Proof.
  intros Hb Hc. destruct (compute_free_frees block children max_results Hb Hc) as (l & E & [F1 F2 F3 F4] & Hs).
  exists l. split_and!; try done.
  - intros a. split.
    + intros (x & Hx & Ha). destruct (F1 x Hx) as (_ & Hi & Ho). split; [auto|]. intros c Hcin Hca. apply (Ho c Hcin). by exists a.
    + intros [Ha Hna]. pose proof Hb as ((Hp0 & Hp1) & Hrange & _). pose proof (base_bound block Hb) as Hbb.
      destruct (subnets_cover block (max_prefixlen (ver block)) a Hb ltac:(lia) Ha) as (m & Hm & Hma).
      apply elem_subnets in Hm as (Hwm & Hvm & Hpm & Him); [|done|lia].
      assert (Hone : ∀ b, mem m b → b = a).
      { intros b [Hv1 L1]. destruct Hma as [Hv2 L2]. unfold num_addresses in *. rewrite Hpm, Hvm, Z.sub_diag in L1, L2.
        destruct a, b. simpl in *. f_equal; [congruence|lia]. }
      destruct (F4 m Hwm Him) as (x & Hx & Hmx); [|by exists x; auto].
      intros c Hcin (b & Hb1 & Hb2). apply (Hna c Hcin). by rewrite <- (Hone b Hb1).
  - intros x Hx. by destruct (F1 x Hx) as (? & ? & _).
Qed.

Lemma free_cidrs_exact_witness :
  ∃ l, Some (map (λ i, mkNet V4 (167772160 + fst i) (snd i)) [(0, 26); (96, 27); (192, 26)]) = Some (take 200 l)
    ∧ ∀ x, x ∈ l → wf x ∧ inside x (mkNet V4 167772160 24).
Proof.
  destruct (free_cidrs_exact (mkNet V4 167772160 24) [mkNet V4 (167772160 + 128) 26; mkNet V4 (167772160 + 64) 27] 200)
    as (l & E & _ & _ & _ & _ & H & _).
  - apply (bool_decide_unpack _). vm_compute. exact I.
  - intros c [-> |[-> |[]%not_elem_of_nil]%elem_of_cons]%elem_of_cons; (split; [apply (bool_decide_unpack _); vm_compute; exact I|reflexivity]).
  - exists l. split; [|exact H]. rewrite <- E. vm_compute. reflexivity.
Defined.
End FreeCidrs.
