(* ===== verification/TreeCreate.v ===== *)
(** * Creating blocks and subnets

    [create_block], [create_subnet] and [allocate_subnet] of
    [backend/app/api/v1/ipam/router.py] with their overlap checks, the gateway
    rule ([backend/app/services/ipam/gateway_rules.py]) and the rows a new
    subnet starts with ([backend/app/services/ipam/subnet_placeholders.py]).
    The requests name no template; the checks on DNS bindings, VLANs and custom
    fields, and the DNS records written afterwards, are not modelled.  [id] is
    the fresh id of the new row.

    A CIDR is stored as its text: [pg_cidr] is PostgreSQL's reading of it. *)
From S2P Require Import Prelude PyStr IpNet Ipam SubnetBoundary Utilization Resize FreeSpace FreeCidrs.

Module TreeCreate.
Import Ipam.
Import SubnetBoundary(has_boundary_rows, boundary_rows, new_row).
Import Utilization(_total_ips, _update_utilization, _update_block_utilization, set_allocated, count_of, block_recount_counts).
Import FreeCidrs(_compute_free_cidrs).
Local Open Scope Z_scope.

Inductive CreateError :=
| Forbidden
| SpaceNotFound
| BlockNotFound
| InvalidCidr
| NotContained (n : IPNetwork)
| MixedFamilies
| OverlapsSubnet (n : IPNetwork)
| BlockExists
| ContainedIn (n : IPNetwork)
| OverlapsBlock (n : IPNetwork)
| StoreFails
| GatewayInvalid
| GatewayOutside
| GatewayIsNetwork
| GatewayIsBroadcast
| PrefixTooLong
| PrefixTooShort
| NotWithin (n : IPNetwork)
| WrongSize (n : IPNetwork)
| Taken (n : IPNetwork)
| NoneFree.

(** 500 is an exception nobody handles. *)
Definition status_code (e : CreateError) : Z :=
  match e with
  | Forbidden => 403
  | SpaceNotFound | BlockNotFound => 404
  | OverlapsSubnet _ | BlockExists | ContainedIn _ | OverlapsBlock _ | Taken _ | NoneFree => 409
  | MixedFamilies | StoreFails => 500
  | _ => 422
  end.

Definition _parse_network (t : cidr_text) : result CreateError IPNetwork :=
  match ip_network t with Some n => Ok n | None => Err InvalidCidr end.

(** [a.subnet_of(b)] *)
Definition within (a b : IPNetwork) : result CreateError bool :=
  match subnet_of a b with Some x => Ok x | None => Err MixedFamilies end.

(** ** Overlap checks *)
Definition _assert_no_overlap (db : Db) (space : str) (network : IPNetwork) (exclude_id : option str) : result CreateError unit :=
  match List.find (λ s, bool_decide (s_space s = space) && overlaps (s_network s) network && negb (s_deleted s)
                        && negb (bool_decide (Some (s_id s) = exclude_id))) (subnet db) with
  | Some s => Err (OverlapsSubnet (s_network s))
  | None => Ok tt
  end.

(** One overlapping sibling of the loop: the id to move below, if any. *)
Definition against_sibling (new_net : IPNetwork) (sibling : IPBlock) : result CreateError str :=
  let sibling_net := b_network sibling in
  if bool_decide (sibling_net = new_net) then Err BlockExists
  else
    sub ← within sibling_net new_net;
    if sub : bool then Ok (b_id sibling)
    else
      sup ← within new_net sibling_net;
      if sup : bool then Err (ContainedIn sibling_net) else Err (OverlapsBlock sibling_net).

Definition _assert_no_block_overlap (db : Db) (space : str) (network : IPNetwork) (parent : option str)
    (exclude_id : option str) : result CreateError (list str) :=
  map_result (against_sibling network)
    (List.filter (λ b, bool_decide (b_space b = space) && overlaps (b_network b) network && negb (b_deleted b)
                       && bool_decide (b_parent b = parent) && negb (bool_decide (Some (b_id b) = exclude_id)))
       (ip_block db)).

(** ** Blocks *)
Record IPBlockCreate := mkBlockCreate { bc_space : str; bc_parent : option str; bc_network : cidr_text }.

Definition set_parent (parent : str) (b : IPBlock) : IPBlock :=
  mkBlock (b_id b) (b_space b) (Some parent) (b_network b) (b_allocated_ips b) (b_total_ips b) (b_deleted b).
Definition set_block (block : str) (s : Subnet) : Subnet :=
  mkSubnet (s_id s) (s_space s) block (s_network s) (s_kind s) (s_gateway s) (s_total_ips s) (s_allocated_ips s) (s_deleted s).

Definition insert_block (db : Db) (b : IPBlock) : Db := mkDb (ip_block db ++ [b]) (subnet db) (ip_address db).
Definition insert_subnet (db : Db) (s : Subnet) : Db := mkDb (ip_block db) (subnet db ++ [s]) (ip_address db).

(** [existing.parent_block_id = block.id], for each candidate *)
Definition reparent (db : Db) (ids : list str) (id : str) : Db :=
  update_blocks (λ b, if bool_decide (b_id b ∈ ids) && negb (b_deleted b) then set_parent id b else b) db.

(** The subnets directly under [parent] that the new block adopts. *)
Definition adopted (db : Db) (space parent : str) (new_net : IPNetwork) : result CreateError (list str) :=
  let siblings := List.filter (λ s, bool_decide (s_space s = space) && bool_decide (s_block s = parent) && negb (s_deleted s)) (subnet db) in
  ids ← map_result (λ s, sub ← within (s_network s) new_net; Ok (if sub : bool then [s_id s] else [])) siblings;
  Ok (List.concat ids).

Definition adopt (db : Db) (ids : list str) (id : str) : Db :=
  update_subnets (λ s, if bool_decide (s_id s ∈ ids) && negb (s_deleted s) then set_block id s else s) db.

Definition check_parent (db : Db) (writable : bool) (space : str) (parent : option str) (t : cidr_text) : result CreateError unit :=
  match parent with
  | None => Ok tt
  | Some p =>
      match get_block db p with
      | None => Err BlockNotFound
      | Some pb =>
          _ ← raise_if (negb writable) Forbidden;
          _ ← raise_if (negb (bool_decide (b_space pb = space))) BlockNotFound;
          child_net ← _parse_network t;
          fits ← within child_net (b_network pb);
          raise_if (negb fits) (NotContained (b_network pb))
      end
  end.

Section store.
Context (pg_cidr : cidr_text → option IPNetwork).

(** [allowed]: the caller holds the type-level write; [writable]: also the one
    on the parent block. *)
Definition create_block (db : Db) (allowed writable : bool) (spaces : list str) (body : IPBlockCreate) (id : str)
    : result CreateError (IPBlock * Db) :=
  _ ← raise_if (negb allowed) Forbidden;
  _ ← raise_if (negb (bool_decide (bc_space body ∈ spaces))) SpaceNotFound;
  _ ← check_parent db writable (bc_space body) (bc_parent body) (bc_network body);
  canonical ← _parse_network (bc_network body);
  reparent_ids ← _assert_no_block_overlap db (bc_space body) canonical (bc_parent body) None;
  stored ← match pg_cidr (bc_network body) with Some n => Ok n | None => Err StoreFails end;
  let block := mkBlock id (bc_space body) (bc_parent body) stored 0 0 false in
  let db := insert_block db block in
  let db := reparent db reparent_ids id in
  subnet_ids ← match bc_parent body with
               | None => Ok []
               | Some p => adopted db (bc_space body) p canonical
               end;
  let db := adopt db subnet_ids id in
  Ok (block, _update_block_utilization db id).
End store.

(** ** Subnets *)

(** An address as the caller wrote it. *)
Inductive addr_text := Address (a : IPAddr) | Unreadable.

Record SubnetCreate := mkSubnetCreate {
  sc_space : str; sc_block : str; sc_network : cidr_text; sc_gateway : option addr_text; skip_auto_addresses : bool }.

(** 224.0.0.0/4 and ff00::/8 *)
Definition multicast_range (v : version) : IPNetwork :=
  match v with V4 => mkNet V4 (14 * 2 ^ 28) 4 | V6 => mkNet V6 (255 * 2 ^ 120) 8 end.
Definition subnet_kind (net : IPNetwork) : str := if insideb net (multicast_range (ver net)) then "multicast" else "unicast".

Definition gateway_problem (gateway : option addr_text) (net : IPNetwork) (reject_reserved : bool) : result CreateError (option IPAddr) :=
  match gateway with
  | None => Ok None
  | Some Unreadable => Err GatewayInvalid
  | Some (Address gw) =>
      _ ← raise_if (negb (contains net gw)) GatewayOutside;
      _ ← raise_if (reject_reserved && bool_decide (gw = network_address net)) GatewayIsNetwork;
      _ ← raise_if (reject_reserved && bool_decide (ver net = V4) && bool_decide (gw = broadcast_address net)) GatewayIsBroadcast;
      Ok (Some gw)
  end.

Definition set_gateway (gw : IPAddr) (s : Subnet) : Subnet :=
  mkSubnet (s_id s) (s_space s) (s_block s) (s_network s) (s_kind s) (Some gw) (s_total_ips s) (s_allocated_ips s) (s_deleted s).

Definition default_gateway (net : IPNetwork) : IPAddr := mkAddr (ver net) (base net + 1).

(** The rows of [create_placeholder_rows], the gateway's last. *)
Definition placeholder_rows (sid : str) (net : IPNetwork) (gw : IPAddr) (user : option str) : list IPAddress :=
  map (λ '(a, status, desc), new_row sid a status None desc user) (boundary_rows net "unicast")
  ++ [new_row sid gw "reserved" (Some ("gateway" : str)) "Gateway" user].

Definition create_placeholder_rows (db : Db) (sid : str) (net : IPNetwork) (gateway : option IPAddr) (user : option str) : Db :=
  let gw := default (default_gateway net) gateway in
  update_subnets (λ s, if bool_decide (s_id s = sid) then set_gateway gw s else s)
    (set_addresses db (ip_address db ++ placeholder_rows sid net gw user)).

(** The containment in the block, before the body is read further. *)
Definition check_block (db : Db) (writable : bool) (body : SubnetCreate) : result CreateError unit :=
  match get_block db (sc_block body) with
  | None => Err BlockNotFound
  | Some blk =>
      _ ← raise_if (negb writable) Forbidden;
      _ ← raise_if (negb (bool_decide (b_space blk = sc_space body))) BlockNotFound;
      net ← _parse_network (sc_network body);
      if bool_decide (ver net ≠ ver (b_network blk)) then Err (NotContained (b_network blk))
      else fits ← within net (b_network blk); raise_if (negb fits) (NotContained (b_network blk))
  end.

Definition new_subnet (body : SubnetCreate) (id : str) (net : IPNetwork) (gw : option IPAddr) : Subnet :=
  mkSubnet id (sc_space body) (sc_block body) net (subnet_kind net) gw (_total_ips net) 0 false.

Definition takes_placeholders (body : SubnetCreate) (net : IPNetwork) : bool :=
  has_boundary_rows net (subnet_kind net) && negb (skip_auto_addresses body).

(** [uq_ip_address_subnet_address] on the rows of the new subnet. *)
Definition rows_unique (db : Db) (sid : str) : bool := bool_decide (NoDup (map i_address (rows_of db sid))).

Definition create_subnet (db : Db) (allowed writable : bool) (spaces : list str) (body : SubnetCreate) (id : str)
    (user : option str) : result CreateError (Subnet * Db) :=
  _ ← raise_if (negb allowed) Forbidden;
  _ ← raise_if (negb (bool_decide (sc_space body ∈ spaces))) SpaceNotFound;
  _ ← check_block db writable body;
  net ← _parse_network (sc_network body);
  _ ← _assert_no_overlap db (sc_space body) net None;
  gw ← gateway_problem (sc_gateway body) net
         (negb (bool_decide (subnet_kind net = "multicast")) && negb (skip_auto_addresses body)
          && (prefixlen net <? (if bool_decide (ver net = V6) then 127 else 31)));
  let row := new_subnet body id net gw in
  let db := insert_subnet db row in
  let seeded := if takes_placeholders body net then create_placeholder_rows db id net gw user else db in
  _ ← raise_if (negb (rows_unique seeded id)) StoreFails;
  let counted := if takes_placeholders body net then _update_utilization seeded id else seeded in
  Ok (row, _update_block_utilization counted (sc_block body)).

(** ** Carving a subnet *)
Record SubnetAllocate := mkSubnetAllocate {
  prefix_len : Z; sa_network : option cidr_text; sa_gateway : option addr_text; sa_skip_auto_addresses : bool }.

Definition occupied (db : Db) (id : str) : list IPNetwork :=
  map b_network (List.filter (λ b, bool_decide (b_parent b = Some id)) (live_blocks db))
  ++ map s_network (List.filter (λ s, bool_decide (s_block s = id)) (live_subnets db)).

Definition MAX_RESULTS : Z := 100000.

(** [next(fnet.subnets(new_prefix=p))] *)
Definition first_subnet (n : IPNetwork) (p : Z) : IPNetwork := mkNet (ver n) (base n) p.

Definition choose (db : Db) (blk : IPBlock) (body : SubnetAllocate) : result CreateError IPNetwork :=
  match sa_network body with
  | Some t =>
      picked ← _parse_network t;
      _ ← raise_if (bool_decide (ver picked ≠ ver (b_network blk))) (NotWithin picked);
      fits ← within picked (b_network blk);
      _ ← raise_if (negb fits) (NotWithin picked);
      _ ← raise_if (negb (prefixlen picked =? prefix_len body)) (WrongSize picked);
      _ ← raise_if (existsb (overlaps picked) (occupied db (b_id blk))) (Taken picked);
      Ok picked
  | None =>
      match _compute_free_cidrs (b_network blk) (occupied db (b_id blk)) (Z.to_nat MAX_RESULTS) with
      | None => Err MixedFamilies
      | Some free =>
          match List.find (λ f, prefixlen f <=? prefix_len body) free with
          | Some f => Ok (first_subnet f (prefix_len body))
          | None => Err NoneFree
          end
      end
  end.

(** Runs under the lock of the block's row. *)
Definition allocate_subnet (db : Db) (allowed writable : bool) (spaces : list str) (block_id : str) (body : SubnetAllocate)
    (id : str) (user : option str) : result CreateError (Subnet * Db) :=
  _ ← raise_if (negb allowed) Forbidden;
  match get_block db block_id with
  | None => Err BlockNotFound
  | Some blk =>
      _ ← raise_if (negb writable) Forbidden;
      _ ← raise_if (max_prefixlen (ver (b_network blk)) <? prefix_len body) PrefixTooLong;
      _ ← raise_if (prefix_len body <=? prefixlen (b_network blk)) PrefixTooShort;
      chosen ← choose db blk body;
      create_subnet db allowed writable spaces
        (mkSubnetCreate (b_space blk) block_id (Canonical chosen) (sa_gateway body) (sa_skip_auto_addresses body)) id user
  end.

(** ** Lemmas: the overlap checks *)

(** The keys a new row must have. *)
Record fresh_id (db : Db) (id : str) : Prop := {
  fi_block : id ∉ map b_id (ip_block db);
  fi_subnet : id ∉ map s_id (subnet db);
  fi_rows r : r ∈ ip_address db → i_subnet r ≠ id;
}.

Section checks.
Context (db : Db) (Hok : tree_ok db).

Lemma no_overlap_Ok space net u : wf net → _assert_no_overlap db space net None = Ok u ↔
  ∀ s, s ∈ live_subnets db → s_space s = space → ¬ meets net (s_network s).
Proof.
  intros Hn. destruct u. unfold _assert_no_overlap. destruct (List.find _ _) as [s|] eqn:E; (split; [|intros H; try done]).
  - done.
  - exfalso. apply List.find_some in E as [Hs E]. bool_hyps. rewrite <- list_elem_of_In in Hs.
    assert (Hl : s ∈ live_subnets db) by by apply elem_live_subnets.
    match goal with Ho : overlaps _ _ = true |- _ => apply overlaps_spec in Ho as (a & Ha & Hb); [|by apply (wf_live_subnet db Hok)|done] end.
    by apply (H s Hl); [|exists a].
  - intros _ s Hs Es (a & Ha & Hb). pose proof (wf_live_subnet db Hok s Hs) as Hw. apply elem_live_subnets in Hs as [Hs Hd].
    apply list_elem_of_In in Hs. pose proof (List.find_none _ _ E s Hs) as Hf. cbv beta in Hf.
    rewrite (bool_decide_true (s_space s = space)), Hd, (proj2 (overlaps_spec _ _ Hw Hn)) in Hf by (done || by exists a). done.
Qed.

(** The overlapping siblings, and what the loop makes of one. *)
Lemma against_sibling_Ok new b i : wf new → wf (b_network b) → meets (b_network b) new →
  against_sibling new b = Ok i ↔ i = b_id b ∧ inside (b_network b) new ∧ b_network b ≠ new.
Proof.
  intros Hn Hb Hm. unfold against_sibling. case_bool_decide as He; [split; [done|tauto]|].
  assert (Hv : ver (b_network b) = ver new) by (destruct Hm as (a & [H1 _] & [H2 _]); congruence).
  pose proof (subnet_of_spec _ _ Hb Hn) as H1. pose proof (subnet_of_spec _ _ Hn Hb) as H2. unfold within.
  unfold subnet_of in *. rewrite !bool_decide_false in * by (intros H; by apply H). cbn in *.
  match goal with |- context [if ?x then Ok (b_id b) else _] => destruct x eqn:E1 end.
  - split; [intros [= <-]; split_and!; [done|exact (proj1 H1 eq_refl)|done]|by intros [-> _]].
  - split; [by case_match|]. intros (_ & Hi & _). exfalso. by apply H1 in Hi.
Qed.

Lemma elem_siblings space net parent b : wf net →
  b ∈ List.filter (λ b, bool_decide (b_space b = space) && overlaps (b_network b) net && negb (b_deleted b)
                       && bool_decide (b_parent b = parent) && negb (bool_decide (Some (b_id b) = None))) (ip_block db) ↔
  b ∈ live_blocks db ∧ b_space b = space ∧ b_parent b = parent ∧ meets (b_network b) net.
Proof.
  intros Hn. rewrite elem_filter, elem_live_blocks, !andb_true_iff, !bool_decide_eq_true, negb_true_iff. split.
  - intros (Hb & (((Hs & Ho) & Hd) & Hp) & _). split_and!; try done. apply overlaps_spec; [|done|done].
    apply (wf_live_block db Hok). by apply elem_live_blocks.
  - intros ([Hb Hd] & Hs & Hp & Hm). split_and!; try done. apply overlaps_spec; [|done|done].
    apply (wf_live_block db Hok). by apply elem_live_blocks.
Qed.

(** What is moved below the new block: its siblings that meet it, all inside. *)
Definition joins (space : str) (parent : option str) (net : IPNetwork) (b : IPBlock) : Prop :=
  b_space b = space ∧ b_parent b = parent ∧ meets (b_network b) net.

Lemma no_block_overlap_Ok space net parent ids : wf net →
  _assert_no_block_overlap db space net parent None = Ok ids →
  ∀ b, b ∈ live_blocks db → (b_id b ∈ ids ↔ joins space parent net b)
    ∧ (joins space parent net b → inside (b_network b) net ∧ b_network b ≠ net).
Proof.
  intros Hn H b Hb. unfold _assert_no_block_overlap in H. apply map_result_Ok in H.
  assert (Hsib : ∀ c i, c ∈ live_blocks db → joins space parent net c →
    against_sibling net c = Ok i → i = b_id c ∧ inside (b_network c) net ∧ b_network c ≠ net).
  { intros c i Hc (_ & _ & Hm) E. apply against_sibling_Ok in E; [done|done|by apply (wf_live_block db Hok)|done]. }
  assert (Hfwd : joins space parent net b → b_id b ∈ ids ∧ inside (b_network b) net ∧ b_network b ≠ net).
  { intros Hj. pose proof (proj2 (elem_siblings space net parent b Hn) (conj Hb Hj)) as Hin. apply list_elem_of_lookup in Hin as [k Hk].
    destruct (Forall2_lookup_l _ _ _ _ _ H Hk) as (i & Hi & E). destruct (Hsib b i Hb Hj E) as (-> & ? & ?).
    split_and!; [by eapply list_elem_of_lookup_2|done|done]. }
  split; [|intros Hm; by apply Hfwd]. split; [|intros Hm; by apply Hfwd].
  intros Hi. apply list_elem_of_lookup in Hi as [k Hk]. destruct (Forall2_lookup_r _ _ _ _ _ H Hk) as (c & Hc & E).
  apply list_elem_of_lookup_2, (elem_siblings space net parent c Hn) in Hc as [Hlc Hj].
  destruct (Hsib c (b_id b) Hlc Hj E) as (Hid & _). apply (live_id_inj db Hok) in Hid; [|done|done]. by subst c.
Qed.

Lemma no_block_overlap_complete space net parent : wf net →
  (∀ b, b ∈ live_blocks db → joins space parent net b → inside (b_network b) net ∧ b_network b ≠ net) →
  ∃ ids, _assert_no_block_overlap db space net parent None = Ok ids.
Proof.
  intros Hn H. unfold _assert_no_block_overlap. match goal with |- ∃ _, map_result _ ?l = _ => set (sibs := l) end.
  assert (Hall : ∀ b, b ∈ sibs → against_sibling net b = Ok (b_id b)).
  { intros b Hb. unfold sibs in Hb. apply elem_siblings in Hb as (Hb & Hs & Hp & Hm); [|done].
    apply against_sibling_Ok; [done|by apply (wf_live_block db Hok)|done|]. split; [done|]. by apply H. }
  clearbody sibs. rename sibs into l. revert Hall.
  induction l as [|b l IH]; intros Hall; [by exists []|]. destruct IH as [ids E]; [intros; apply Hall; by right|].
  exists (b_id b :: ids). cbn. rewrite Hall by (by left). cbn. by rewrite E.
Qed.
Lemma no_block_overlap_ids space net parent ids i : wf net →
  _assert_no_block_overlap db space net parent None = Ok ids → i ∈ ids → ∃ b, b ∈ live_blocks db ∧ b_id b = i.
Proof.
  intros Hn H Hi. unfold _assert_no_block_overlap in H. apply map_result_Ok in H.
  apply list_elem_of_lookup in Hi as [k Hk]. destruct (Forall2_lookup_r _ _ _ _ _ H Hk) as (c & Hc & E).
  apply list_elem_of_lookup_2, (elem_siblings space net parent c Hn) in Hc as (Hlc & Hj).
  exists c. split; [done|]. apply against_sibling_Ok in E; [|done|by apply (wf_live_block db Hok)|apply Hj]. by destruct E as (-> & _).
Qed.

Lemma within_same a b : wf a → wf b → ver a = ver b → ∃ x, within a b = Ok x ∧ (x = true ↔ inside a b).
Proof.
  intros Ha Hb Hv. pose proof (subnet_of_spec a b Ha Hb) as H. unfold within. destruct (subnet_of a b) as [x|] eqn:E.
  - exists x. split; [done|]. unfold inside. rewrite <- H. split; congruence.
  - unfold subnet_of in E. by rewrite bool_decide_false in E by tauto.
Qed.
End checks.

Lemma live_subnet_inj db s t : tree_ok db → s ∈ live_subnets db → t ∈ live_subnets db → s_id s = s_id t → s = t.
Proof.
  intros Hok [H1 _]%elem_live_subnets [H2 _]%elem_live_subnets. destruct (tree_rows db Hok) as (_ & _ & _ & Hn). by apply (map_NoDup_inj s_id (subnet db)).
Qed.

(** The subnets [adopted] picks, for a new block inside the parent. *)
Lemma adopted_spec db pb net : tree_ok db → pb ∈ live_blocks db → wf net → inside net (b_network pb) →
  ∃ ids, adopted db (b_space pb) (b_id pb) net = Ok ids
    ∧ ∀ s, s ∈ live_subnets db → (s_id s ∈ ids ↔ s_block s = b_id pb ∧ inside (s_network s) net).
Proof.
  intros Hok Hpb Hn Hin. unfold adopted.
  match goal with |- context [map_result ?f ?l] => set (F := f); set (sibs := l) end.
  assert (Hs : ∀ s, s ∈ sibs ↔ s ∈ live_subnets db ∧ s_block s = b_id pb).
  { intros s. unfold sibs. rewrite elem_filter, elem_live_subnets, !andb_true_iff, !bool_decide_eq_true, negb_true_iff. split; [tauto|].
    intros [[Hs Hd] E]. split_and!; try done. destruct (tree_subnet_in db Hok s) as (b & Hb & Ei & Es & _); [by apply elem_live_subnets|].
    rewrite Es. f_equal. apply (live_id_inj db Hok); [done|done|congruence]. }
  assert (HF : ∀ s, s ∈ sibs → ∃ x : bool, F s = Ok (if x then [s_id s] else []) ∧ (x = true ↔ inside (s_network s) net)).
  { intros s [Hl E]%Hs. destruct (tree_subnet_in db Hok s Hl) as (b & Hb & Ei & _ & Hi).
    assert (b = pb) as -> by (apply (live_id_inj db Hok); congruence).
    destruct (within_same (s_network s) net (wf_live_subnet db Hok s Hl) Hn) as (x & Ex & Hx).
    { rewrite (Resize.inside_ver _ _ (wf_live_subnet db Hok s Hl) Hi), (Resize.inside_ver _ _ Hn Hin). done. }
    exists x. unfold F. rewrite Ex. done. }
  assert (Hall : ∀ l, (∀ s, s ∈ l → s ∈ sibs) → ∃ r, map_result F l = Ok r ∧ ∀ i, i ∈ List.concat r ↔ ∃ s, s ∈ l ∧ i = s_id s ∧ inside (s_network s) net).
  { induction l as [|s l IH]; intros Hl; [exists []; split; [done|]; intros i; split; [by intros ?%not_elem_of_nil|by intros (s & ?%not_elem_of_nil & _)]|].
    destruct IH as (r & Er & Hr); [intros; apply Hl; by right|]. destruct (HF s) as (x & Ex & Hx); [apply Hl; by left|].
    exists ((if x then [s_id s] else []) :: r). cbn [map_result]. rewrite Ex. cbn [mbind result_bind]. rewrite Er. split; [done|].
    intros i. cbn [List.concat]. rewrite elem_of_app, Hr. setoid_rewrite elem_of_cons. destruct x; [rewrite list_elem_of_singleton|].
    - assert (inside (s_network s) net) by by apply Hx. naive_solver.
    - assert (¬ inside (s_network s) net) by (intros H; by apply Hx in H). split; [|naive_solver].
      intros [?%not_elem_of_nil|?]; naive_solver. }
  destruct (Hall sibs (λ s H, H)) as (r & -> & Hr). exists (List.concat r). split; [done|]. intros s Hl. rewrite Hr. split.
  - intros (t & [Ht Et]%Hs & Ei & Hi). assert (s = t) as -> by (by apply (live_subnet_inj db)). done.
  - intros [E Hi]. exists s. split_and!; [by apply Hs|done|done].
Qed.

(** ** Lemmas: a subnet inserted *)
Section insert.
Context (db : Db) (Hok : tree_ok db) (row : Subnet) (blk : IPBlock).
Context (Hw : wf (s_network row)) (Hid : s_id row ∉ map s_id (subnet db)) (Hlive : s_deleted row = false).
Context (Hblk : blk ∈ live_blocks db) (Eb : s_block row = b_id blk) (Es : s_space row = b_space blk).
Context (Hin : inside (s_network row) (b_network blk)).
Context (Hfree : ∀ s, s ∈ live_subnets db → s_space s = s_space row → ¬ meets (s_network row) (s_network s)).

Lemma elem_inserted s : s ∈ live_subnets (insert_subnet db row) ↔ s ∈ live_subnets db ∨ s = row.
Proof. rewrite !elem_live_subnets. simpl. rewrite elem_of_app, list_elem_of_singleton. naive_solver. Qed.

Lemma inserted_chain b l : chain db b l → chain (insert_subnet db row) b l.
Proof. induction 1; [by apply chain_top|by eapply chain_step]. Qed.

Lemma inserted_tree :
  (∀ c, c ∈ live_blocks db → b_parent c = Some (s_block row) → ¬ meets (s_network row) (b_network c)) →
  tree_ok (insert_subnet db row).
Proof.
  intros Hclear. destruct (tree_rows db Hok) as (W1 & W2 & N1 & N2). constructor.
  - split_and!; simpl; [done| |done|].
    + intros s [Hs| ->%list_elem_of_singleton]%elem_of_app; auto.
    + rewrite map_app. apply NoDup_app. split_and!; [done|by intros x Hx ->%list_elem_of_singleton|apply NoDup_singleton].
  - intros b Hb. destruct (tree_rooted db Hok b Hb) as [l Hl]. exists l. by apply inserted_chain.
  - apply (tree_inside db Hok).
  - apply (tree_siblings db Hok).
  - intros s [Hs| ->]%elem_inserted; [by apply (tree_subnet_in db Hok)|]. by exists blk.
  - intros s t [Hs| ->]%elem_inserted [Ht| ->]%elem_inserted E Hm; [by apply (tree_subnets db Hok)| | |done]; exfalso.
    + by apply (Hfree s Hs E), meets_sym.
    + by apply (Hfree t Ht).
  - intros s c [Hs| ->]%elem_inserted Hc E; [by apply (tree_subnet_blocks db Hok)|by apply Hclear].
Qed.
End insert.

(** ** Lemmas: a block inserted between its parent and what it adopts *)
Section between.
Context (db : Db) (Hok : tree_ok db) (nb : IPBlock).
Context (Hw : wf (b_network nb)) (Hid : b_id nb ∉ map b_id (ip_block db)) (Hlive : b_deleted nb = false).
Let J := joins (b_space nb) (b_parent nb) (b_network nb).
Context (Hpar : ∀ p, b_parent nb = Some p → ∃ pb, pb ∈ live_blocks db ∧ b_id pb = p ∧ b_space pb = b_space nb
  ∧ inside (b_network nb) (b_network pb)).
Context (Hsib : ∀ b, b ∈ live_blocks db → J b → inside (b_network b) (b_network nb)).
Context (h : IPBlock → IPBlock) (Hh : ∀ b, b ∈ live_blocks db → J b ∧ h b = set_parent (b_id nb) b ∨ ¬ J b ∧ h b = b).
Context (Hh0 : ∀ b, b_id (h b) = b_id b ∧ b_network (h b) = b_network b ∧ b_deleted (h b) = b_deleted b) (Hhn : h nb = nb).
Let A s := b_parent nb = Some (s_block s) ∧ inside (s_network s) (b_network nb).
Context (g : Subnet → Subnet) (Hg : ∀ s, s ∈ live_subnets db → A s ∧ g s = set_block (b_id nb) s ∨ ¬ A s ∧ g s = s).
Context (Hg0 : ∀ s, s_id (g s) = s_id s ∧ s_network (g s) = s_network s ∧ s_deleted (g s) = s_deleted s).
Let db2 := update_subnets g (update_blocks h (insert_block db nb)).

Lemma elem_between b : b ∈ live_blocks db2 ↔ b = nb ∨ ∃ c, c ∈ live_blocks db ∧ b = h c.
Proof.
  rewrite elem_live_blocks. simpl. rewrite list_elem_of_fmap. split.
  - intros [(c & -> & [Hc| ->%list_elem_of_singleton]%elem_of_app) Hd]; [right|by left]. exists c. split; [|done].
    apply elem_live_blocks. split; [done|]. by destruct (Hh0 c) as (_ & _ & <-).
  - intros [->|(c & Hc & ->)].
    + split; [|done]. exists nb. split; [done|]. apply elem_of_app. right. by left.
    + apply elem_live_blocks in Hc as [Hc Hd]. split; [|by destruct (Hh0 c) as (_ & _ & ->)].
      exists c. split; [done|]. apply elem_of_app. by left.
Qed.

Lemma elem_adopting s : s ∈ live_subnets db2 ↔ ∃ t, t ∈ live_subnets db ∧ s = g t.
Proof.
  rewrite elem_live_subnets. simpl. rewrite list_elem_of_fmap. split.
  - intros [(t & -> & Ht) Hd]. exists t. split; [|done]. apply elem_live_subnets. split; [done|]. by destruct (Hg0 t) as (_ & _ & <-).
  - intros (t & [Ht Hd]%elem_live_subnets & ->). split; [by exists t|]. by destruct (Hg0 t) as (_ & _ & ->).
Qed.

(** No row of the old tree hangs below the new id. *)
Lemma id_new b : b ∈ live_blocks db → b_id b ≠ b_id nb.
Proof. intros [Hb _]%elem_live_blocks E. apply Hid. rewrite <- E. by apply list_elem_of_fmap_2. Qed.

Lemma parent_old b : b ∈ live_blocks db → b_parent b ≠ Some (b_id nb).
Proof.
  intros Hb E. destruct (tree_rooted db Hok b Hb) as [l Hl]. inversion Hl as [|? q l' ? Hq Hl']; subst; [congruence|].
  destruct (chain_live db q l' Hl') as [Hql _]. apply (id_new q Hql). congruence.
Qed.

Lemma nb_parent_old : b_parent nb ≠ Some (b_id nb).
Proof. intros E. destruct (Hpar _ E) as (pb & Hpb & Ei & _). by apply (id_new pb). Qed.

Lemma block_old s : s ∈ live_subnets db → s_block s ≠ b_id nb.
Proof. intros Hs E. destruct (tree_subnet_in db Hok s Hs) as (b & Hb & Ei & _). apply (id_new b Hb). congruence. Qed.

Lemma nb_live : nb ∈ live_blocks db2.
Proof. apply elem_between. by left. Qed.
Lemma h_live b : b ∈ live_blocks db → h b ∈ live_blocks db2.
Proof. intros Hb. apply elem_between. right. by exists b. Qed.

Lemma between_chain b l : chain db b l → ∃ l', chain db2 (h b) l'.
Proof.
  assert (Hstep : ∀ p l0, b_parent nb = Some (b_id p) → chain db2 (h p) l0 → chain db2 nb (l0 ++ [nb])).
  { intros p l0 E Hl0. eapply (chain_step db2 nb (h p)); [apply nb_live| |done]. by destruct (Hh0 p) as (-> & _). }
  induction 1 as [b Hb Hp|b p l Hb Hp Hl [l' IH]]; destruct (Hh b Hb) as [[(Es & Ep & Hm) Eh]|[Hn Eh]]; rewrite Eh.
  - exists ([nb] ++ [set_parent (b_id nb) b]). eapply (chain_step db2 _ nb); [rewrite <- Eh; by apply h_live|done|].
    apply chain_top; [apply nb_live|congruence].
  - exists [b]. apply chain_top; [rewrite <- Eh; by apply h_live|done].
  - exists ((l' ++ [nb]) ++ [set_parent (b_id nb) b]). eapply (chain_step db2 _ nb); [rewrite <- Eh; by apply h_live|done|].
    apply (Hstep p); [congruence|done].
  - exists (l' ++ [b]). eapply (chain_step db2 b (h p)); [rewrite <- Eh; by apply h_live| |done]. by destruct (Hh0 p) as (-> & _).
Qed.

Lemma nb_rooted : ∃ l, chain db2 nb l.
Proof.
  assert (Hd : b_parent nb = None ∨ ∃ p, b_parent nb = Some p) by (destruct (b_parent nb); eauto).
  destruct Hd as [E|[p E]]; [exists [nb]; by apply chain_top; [apply nb_live|]|].
  destruct (Hpar p E) as (pb & Hpb & Ei & _). destruct (tree_rooted db Hok pb Hpb) as [l Hl].
  destruct (between_chain pb l Hl) as [l' Hl']. exists (l' ++ [nb]). eapply (chain_step db2 nb (h pb)); [apply nb_live| |done].
  destruct (Hh0 pb) as (-> & _). congruence.
Qed.

Lemma between_tree :
  (∀ s, s ∈ live_subnets db → b_parent nb = Some (s_block s) → meets (s_network s) (b_network nb) → inside (s_network s) (b_network nb)) →
  tree_ok db2.
Proof.
  intros Hclear. destruct (tree_rows db Hok) as (W1 & W2 & N1 & N2).
  assert (Hpo := parent_old). assert (Hno := nb_parent_old).
  constructor.
  - split_and!; simpl.
    + intros b (c & -> & [Hc| ->%list_elem_of_singleton]%elem_of_app)%list_elem_of_fmap; destruct (Hh0 c) as (_ & -> & _) || destruct (Hh0 nb) as (_ & -> & _); auto.
    + intros s (t & -> & Ht)%list_elem_of_fmap. destruct (Hg0 t) as (_ & -> & _). auto.
    + rewrite List.map_map, (map_ext _ b_id) by (intros b; apply (Hh0 b)). rewrite map_app.
      apply NoDup_app. split_and!; [done|by intros x Hx ->%list_elem_of_singleton|apply NoDup_singleton].
    + rewrite List.map_map, (map_ext _ s_id) by (intros s; apply (Hg0 s)). done.
  - intros b [->|(c & Hc & ->)]%elem_between.
    + apply nb_rooted.
    + destruct (tree_rooted db Hok c Hc) as [l Hl]. by eapply between_chain.
  - intros b p [->|(c & Hc & ->)]%elem_between [->|(q & Hq & ->)]%elem_between E.
    + done.
    + destruct (Hh0 q) as (Ei & -> & _). rewrite Ei in E. destruct (Hpar _ E) as (pb & Hpb & Epb & Es & Hin).
      apply (live_id_inj db Hok) in Epb; [|done|done]. subst pb. split; [|done].
      destruct (Hh q Hq) as [[_ ->]|[_ ->]]; [done|]. done.
    + destruct (Hh c Hc) as [[Hj Eh]|[_ Eh]]; rewrite Eh in E |- *; [|by destruct (Hpo c Hc)].
      split; [by destruct Hj|]. exact (Hsib c Hc Hj).
    + destruct (Hh0 q) as (Ei & -> & _). rewrite Ei in E. destruct (Hh c Hc) as [[Hj Eh]|[_ Eh]]; rewrite Eh in E |- *.
      * exfalso. injection E as E. symmetry in E. by apply (id_new q Hq).
      * destruct (tree_inside db Hok c q Hc Hq E) as [Es Hi]. split; [|done]. by destruct (Hh q Hq) as [[_ ->]|[_ ->]].
  - assert (Hnew : ∀ c, c ∈ live_blocks db → b_space nb = b_space (h c) → b_parent nb = b_parent (h c) → meets (b_network nb) (b_network (h c)) → False).
    { intros c Hc Es Ep Hm. destruct (Hh c Hc) as [[_ Eh]|[Hn Eh]]; rewrite Eh in Es, Ep, Hm; [done|]. apply Hn. split_and!; [done|done|by apply meets_sym]. }
    intros b c [->|(x & Hx & ->)]%elem_between [->|(y & Hy & ->)]%elem_between Es Ep Hm; [done|by destruct (Hnew y Hy Es Ep Hm)| |].
    + destruct (Hnew x Hx); [done|done|by apply meets_sym].
    + destruct (Hh x Hx) as [[Jx Eh]|[Nx Eh]], (Hh y Hy) as [[Jy Eh']|[Ny Eh']]; rewrite Eh, Eh' in Es, Ep, Hm |- *; cbn in Es, Ep, Hm.
      * f_equal. apply (tree_siblings db Hok); [done|done|done| |done]. destruct Jx as (_ & -> & _), Jy as (_ & -> & _). done.
      * by destruct (Hpo y Hy).
      * by destruct (Hpo x Hx).
      * by apply (tree_siblings db Hok).
  - intros s (t & Ht & ->)%elem_adopting. destruct (Hg0 t) as (_ & -> & _). destruct (tree_subnet_in db Hok t Ht) as (b & Hb & Ei & Es & Hi).
    destruct (Hg t Ht) as [[[Ep Hin] ->]|[_ ->]].
    + exists nb. split_and!; [apply nb_live|done| |done]. cbn. rewrite Es. destruct (Hpar _ Ep) as (pb & Hpb & Epb & Esp & _).
      rewrite <- Esp. f_equal. apply (live_id_inj db Hok); [done|done|congruence].
    + exists (h b). destruct (Hh0 b) as (-> & -> & _). split_and!; [by apply h_live|done| |done]. by destruct (Hh b Hb) as [[_ ->]|[_ ->]].
  - intros s s' (t & Ht & ->)%elem_adopting (t' & Ht' & ->)%elem_adopting Es Hm. destruct (Hg0 t) as (_ & E1 & _), (Hg0 t') as (_ & E2 & _).
    rewrite E1, E2 in Hm. f_equal. apply (tree_subnets db Hok); [done|done| |done].
    destruct (Hg t Ht) as [[_ H1]|[_ H1]], (Hg t' Ht') as [[_ H2]|[_ H2]]; rewrite H1, H2 in Es; exact Es.
  - intros s c (t & Ht & ->)%elem_adopting Hc Ep. destruct (Hg0 t) as (_ & E1 & _). rewrite E1. clear E1.
    destruct (Hg t Ht) as [[[Epn Hin] Eg]|[Hn Eg]]; rewrite Eg in Ep; cbn in Ep; apply elem_between in Hc as [->|(x & Hx & ->)].
    + done.
    + destruct (Hh0 x) as (_ & -> & _). destruct (Hh x Hx) as [[Jx _]|[_ Eh]]; [|rewrite Eh in Ep; by destruct (Hpo x Hx)].
      apply (tree_subnet_blocks db Hok); [done|done|]. destruct Jx as (_ & -> & _). done.
    + intros Hm. apply Hn. split; [done|]. by apply Hclear.
    + destruct (Hh0 x) as (_ & -> & _). destruct (Hh x Hx) as [[_ Eh]|[_ Eh]]; rewrite Eh in Ep; [|by apply (tree_subnet_blocks db Hok)].
      cbn in Ep. injection Ep as Ep. symmetry in Ep. by destruct (block_old t Ht).
Qed.

Lemma between_clear s : (∀ t c, t ∈ live_subnets db2 → c ∈ live_blocks db2 → b_parent c = Some (s_block t) → ¬ meets (s_network t) (b_network c)) →
  s ∈ live_subnets db → b_parent nb = Some (s_block s) → meets (s_network s) (b_network nb) → inside (s_network s) (b_network nb).
Proof.
  intros Hclear Hs Ep Hm. destruct (Hg s Hs) as [[[_ ?] _]|[Hn Eg]]; [done|]. exfalso.
  apply (Hclear s nb); [|apply nb_live|done|done]. apply elem_adopting. by exists s.
Qed.
End between.

(** ** Lemmas: what [create_subnet] answers *)
Lemma reserve_flag (body : SubnetCreate) net :
  negb (bool_decide (subnet_kind net = "multicast")) && negb (skip_auto_addresses body)
    && (prefixlen net <? (if bool_decide (ver net = V6) then 127 else 31)) = takes_placeholders body net.
Proof.
  unfold takes_placeholders, has_boundary_rows. case_bool_decide; cbn; [done|]. by rewrite andb_comm.
Qed.

(** The gateway a request may name. *)
Definition gateway_ok (body : SubnetCreate) (net : IPNetwork) : Prop :=
  match sc_gateway body with
  | None => True
  | Some Unreadable => False
  | Some (Address gw) =>
      mem net gw ∧ (takes_placeholders body net = true → gw ≠ network_address net ∧ (ver net = V4 → gw ≠ broadcast_address net))
  end.
Definition stored_gateway (body : SubnetCreate) : option IPAddr :=
  match sc_gateway body with Some (Address gw) => Some gw | _ => None end.

Lemma gateway_problem_Ok body net gw : wf net →
  gateway_problem (sc_gateway body) net (takes_placeholders body net) = Ok gw ↔ gateway_ok body net ∧ gw = stored_gateway body.
Proof.
  intros Hn. unfold gateway_problem, gateway_ok, stored_gateway. destruct (sc_gateway body) as [[a|]|]; [|naive_solver..].
  pose proof (contains_mem net a Hn) as Hm. destruct (contains net a); cbn; [|split; [done|]; intros [[H _] _]; by apply Hm in H].
  destruct (takes_placeholders body net); cbn; [|naive_solver]. repeat case_bool_decide; cbn; naive_solver.
Qed.

Lemma placeholder_NoDup body net : wf net → takes_placeholders body net = true → gateway_ok body net →
  NoDup (map i_address (placeholder_rows "" net (default (default_gateway net) (stored_gateway body)) None)).
Proof.
  intros Hn Ht Hg. unfold takes_placeholders in Ht. apply andb_true_iff in Ht as [Ht Hskip].
  unfold has_boundary_rows in Ht. case_bool_decide; [done|]. apply Z.ltb_lt in Ht.
  assert (Hsz : 4 ≤ num_addresses net ∨ ver net = V6 ∧ 2 ≤ num_addresses net).
  { unfold num_addresses. destruct (ver net) eqn:Ev; [left|right; split; [done|]]; cbn in *.
    - rewrite bool_decide_false in Ht by done. change 4 with (2 ^ 2). apply Z.pow_le_mono_r; lia.
    - rewrite bool_decide_true in Ht by done. change 2 with (2 ^ 1) at 1. apply Z.pow_le_mono_r; lia. }
  unfold placeholder_rows, boundary_rows, has_boundary_rows. rewrite (bool_decide_false (("unicast" : str) = "multicast")) by done.
  rewrite (proj2 (Z.ltb_lt _ _) Ht). cbn [negb].
  set (gw := default (default_gateway net) (stored_gateway body)).
  assert (Hgw : gw ≠ network_address net ∧ (ver net = V4 → gw ≠ broadcast_address net)).
  { unfold gw, stored_gateway. unfold gateway_ok in Hg. destruct (sc_gateway body) as [[a|]|]; cbn; [|done|].
    - apply Hg. unfold takes_placeholders, has_boundary_rows. rewrite bool_decide_false by done. by rewrite (proj2 (Z.ltb_lt _ _) Ht).
    - unfold default_gateway, network_address, broadcast_address. split; [intros E; injection E; lia|]. intros Hv E. injection E.
      destruct Hsz as [?|[? _]]; [lia|congruence]. }
  destruct Hgw as [G1 G2]. destruct (ver net) eqn:Ev; cbn.
  - apply NoDup_cons. split.
    { intros [E|[E|[]%not_elem_of_nil]%elem_of_cons]%elem_of_cons; [|by apply G1].
      unfold network_address, broadcast_address in E. injection E. destruct Hsz as [?|[? _]]; [lia|done]. }
    apply NoDup_cons. split; [|apply NoDup_singleton]. intros [E|[]%not_elem_of_nil]%elem_of_cons. by apply G2.
  - apply NoDup_cons. split; [|apply NoDup_singleton]. intros [E|[]%not_elem_of_nil]%elem_of_cons. by apply G1.
Qed.

Lemma create_check_block_Ok db writable body net u : tree_ok db → ip_network (sc_network body) = Some net → wf net →
  check_block db writable body = Ok u ↔ ∃ blk, blk ∈ live_blocks db ∧ b_id blk = sc_block body ∧ writable = true
    ∧ b_space blk = sc_space body ∧ inside net (b_network blk).
Proof.
  intros Hok Ht Hn. destruct u. unfold check_block, _parse_network. rewrite Ht.
  destruct (get_block db (sc_block body)) as [blk|] eqn:Eg.
  2: { split; [done|]. intros (b & Hb & Ei & _). rewrite <- Ei, (get_block_live db Hok b Hb) in Eg. done. }
  apply get_block_Some in Eg as [Hb Ei]. pose proof (wf_live_block db Hok blk Hb) as Hwb.
  assert (Huniq : ∀ b, b ∈ live_blocks db → b_id b = sc_block body → b = blk) by (intros b ? ?; apply (live_id_inj db Hok); congruence).
  destruct writable; cbn; [|split; [done|naive_solver]]. destruct (decide (b_space blk = sc_space body)) as [Esp|Esp];
    [rewrite (bool_decide_true (b_space blk = _)) by done|rewrite (bool_decide_false (b_space blk = _)) by done]; cbn;
    [|split; [done|]; intros (b & H1 & H2 & _ & H3 & _); by rewrite (Huniq b H1 H2) in H3].
  case_bool_decide as Ev.
  - split; [done|]. intros (b & H1 & H2 & _ & _ & Hi). rewrite (Huniq b H1 H2) in Hi. exfalso. apply Ev. by apply Resize.inside_ver.
  - pose proof (subnet_of_spec net (b_network blk) Hn Hwb) as Hsub. unfold within, subnet_of in *.
    rewrite !bool_decide_false in * by tauto. cbn in *. rewrite raise_if_Ok, negb_false_iff. split.
    + intros E. exists blk. rewrite E in Hsub. split_and!; try done. exact (proj1 Hsub eq_refl).
    + intros (b & H1 & H2 & _ & _ & Hi). rewrite (Huniq b H1 H2) in Hi. apply Hsub in Hi. by injection Hi.
Qed.

(** The database a successful [create_subnet] leaves. *)
Definition with_rows (db : Db) (body : SubnetCreate) (id : str) (net : IPNetwork) (user : option str) : Db :=
  let db := insert_subnet db (new_subnet body id net (stored_gateway body)) in
  if takes_placeholders body net then create_placeholder_rows db id net (stored_gateway body) user else db.
Definition created (db : Db) (body : SubnetCreate) (id : str) (net : IPNetwork) (user : option str) : Db :=
  let seeded := with_rows db body id net user in
  _update_block_utilization (if takes_placeholders body net then _update_utilization seeded id else seeded) (sc_block body).

Lemma with_rows_of db body id net user : fresh_id db id →
  rows_of (with_rows db body id net user) id =
    if takes_placeholders body net
    then placeholder_rows id net (default (default_gateway net) (stored_gateway body)) user else [].
Proof.
  intros [_ _ Hr]. assert (Hold : List.filter (λ r, bool_decide (i_subnet r = id)) (ip_address db) = []).
  { apply filter_none_elem. intros r Hin. apply bool_decide_eq_false. auto. }
  unfold with_rows. destruct (takes_placeholders body net); [|exact Hold].
  unfold create_placeholder_rows, rows_of. simpl. rewrite List.filter_app, Hold. simpl. apply filter_all.
  apply forallb_elem_iff. intros r Hr'. apply bool_decide_eq_true. unfold placeholder_rows in Hr'.
  apply elem_of_app in Hr' as [([[a st] d] & -> & _)%list_elem_of_fmap| ->%list_elem_of_singleton]; done.
Qed.

Lemma rows_unique_true db body id net user : fresh_id db id → wf net → gateway_ok body net →
  rows_unique (with_rows db body id net user) id = true.
Proof.
  intros Hf Hn Hg. unfold rows_unique. apply bool_decide_eq_true. rewrite with_rows_of by done.
  destruct (takes_placeholders body net) eqn:Ht; [|constructor].
  pose proof (placeholder_NoDup body net Hn Ht Hg) as H. unfold placeholder_rows in *. rewrite map_app, List.map_map in *.
  erewrite map_ext; [exact H|]. by intros [[a st] d].
Qed.

Lemma create_subnet_Ok db allowed writable spaces body id user res : tree_ok db → fresh_id db id →
  Resize.parses_wf (sc_network body) →
  create_subnet db allowed writable spaces body id user = Ok res ↔
  allowed = true ∧ writable = true ∧ sc_space body ∈ spaces ∧
  ∃ net blk, ip_network (sc_network body) = Some net ∧ blk ∈ live_blocks db ∧ b_id blk = sc_block body
    ∧ b_space blk = sc_space body ∧ inside net (b_network blk)
    ∧ (∀ s, s ∈ live_subnets db → s_space s = sc_space body → ¬ meets net (s_network s))
    ∧ gateway_ok body net
    ∧ res = (new_subnet body id net (stored_gateway body), created db body id net user).
Proof.
  intros Hok Hf Hwf. unfold create_subnet. rewrite bind_Ok. setoid_rewrite raise_if_Ok.
  setoid_rewrite bind_Ok. setoid_rewrite raise_if_Ok. setoid_rewrite bind_Ok. split.
  - intros (_ & Ha%negb_false_iff & _ & Hsp%negb_false_iff%bool_decide_eq_true & u & Hchk & H).
    apply bind_Ok in H as (net & Hnet & H). unfold _parse_network in Hnet. destruct (ip_network (sc_network body)) as [n|] eqn:Ht; [|done].
    injection Hnet as ->. pose proof (Hwf _ Ht) as Hn.
    destruct (proj1 (create_check_block_Ok _ _ _ _ _ Hok Ht Hn) Hchk) as (blk & Hb & Ei & Hw & Es & Hin).
    apply bind_Ok in H as (u' & Hov & H). pose proof (proj1 (no_overlap_Ok db Hok _ _ _ Hn) Hov) as Hov'.
    apply bind_Ok in H as (gw & Hgw & H). rewrite reserve_flag in Hgw.
    destruct (proj1 (gateway_problem_Ok _ _ _ Hn) Hgw) as [Hg ->].
    apply bind_Ok in H as (_ & _ & H). injection H as <-. split_and!; [done|done|done|]. exists net, blk. split_and!; done.
  - intros (-> & -> & Hsp & net & blk & Ht & Hb & Ei & Es & Hin & Hov & Hg & ->). pose proof (Hwf _ Ht) as Hn.
    exists tt. split; [done|]. exists tt. split; [by apply negb_false_iff, bool_decide_eq_true|].
    exists tt. split; [apply (create_check_block_Ok _ _ _ net _ Hok Ht Hn); by exists blk|].
    unfold _parse_network. rewrite Ht. cbn [mbind result_bind].
    rewrite (proj2 (no_overlap_Ok db Hok _ net tt Hn) Hov). cbn [mbind result_bind]. rewrite reserve_flag.
    rewrite (proj2 (gateway_problem_Ok _ _ _ Hn) (conj Hg eq_refl)). cbn [mbind result_bind].
    fold (with_rows db body id net user). rewrite rows_unique_true by done. done.
Qed.

Lemma placeholder_gateway_keeps id gw : keeps_subnet (λ s, if bool_decide (s_id s = id) then set_gateway gw s else s)
  ∧ ∀ s, s_network (if bool_decide (s_id s = id) then set_gateway gw s else s) = s_network s.
Proof. split; intros s; by case_bool_decide. Qed.

Lemma utilization_keeps db id : keeps_subnet (λ s, if bool_decide (s_id s = id) && negb (s_deleted s) then set_allocated s (count_of db id) else s)
  ∧ ∀ s, s_network (if bool_decide (s_id s = id) && negb (s_deleted s) then set_allocated s (count_of db id) else s) = s_network s.
Proof. split; intros s; by destruct (_ && _). Qed.

(** Everything after the insert changes counters, gateways and address rows. *)
Lemma created_tables db body id net user : ∃ f g rows,
  keeps f ∧ (∀ b, b_network (f b) = b_network b) ∧ keeps_subnet g ∧ (∀ s, s_network (g s) = s_network s)
  ∧ created db body id net user
    = update_blocks f (update_subnets g (set_addresses (insert_subnet db (new_subnet body id net (stored_gateway body))) rows)).
Proof.
  unfold created. set (db0 := if takes_placeholders body net then _ else _).
  destruct (block_recount_counts db0 [sc_block body]) as (f & Hf & Hfn & E). unfold _update_block_utilization. rewrite E. clear E.
  unfold db0, with_rows, create_placeholder_rows, _update_utilization. destruct (takes_placeholders body net).
  - set (g2 := λ s, if bool_decide (s_id s = id) then set_gateway _ s else s).
    set (db1 := update_subnets g2 _). set (g1 := λ s, if bool_decide (s_id s = id) && _ then _ else s).
    assert (K1 : keeps_subnet g1 ∧ ∀ s, s_network (g1 s) = s_network s) by apply utilization_keeps.
    assert (K2 : keeps_subnet g2 ∧ ∀ s, s_network (g2 s) = s_network s) by apply placeholder_gateway_keeps.
    destruct K1 as [K1 N1], K2 as [K2 N2]. clearbody g1. unfold db1. clear db1. clearbody g2.
    eexists f, (λ s, g1 (g2 s)), _. split_and!; [done|done| | |unfold update_subnets, set_addresses; simpl; rewrite List.map_map; reflexivity].
    + intros s. destruct (K2 s) as (A & B & C & D), (K1 (g2 s)) as (A' & B' & C' & D'). split_and!; congruence.
    + intros s. by rewrite N1.
  - exists f, (λ s, s), (ip_address db). split_and!; [done|done|by intros s|done|]. unfold update_subnets, set_addresses. simpl. by rewrite map_id.
Qed.

Lemma created_tree db body id net user blk : tree_ok db → fresh_id db id → wf net →
  blk ∈ live_blocks db → b_id blk = sc_block body → b_space blk = sc_space body → inside net (b_network blk) →
  (∀ s, s ∈ live_subnets db → s_space s = sc_space body → ¬ meets net (s_network s)) →
  tree_ok (created db body id net user) ↔
  ∀ c, c ∈ live_blocks db → b_parent c = Some (sc_block body) → ¬ meets net (b_network c).
Proof.
  intros Hok Hf Hn Hb Ei Es Hin Hfree. set (row := new_subnet body id net (stored_gateway body)).
  destruct (created_tables db body id net user) as (f & g & rows & Kf & Nf & Kg & Ng & E). rewrite E. split.
  - intros Hok' c Hc Ep Hm. destruct (Kf c) as (_ & _ & Ep' & _), (Kg row) as (_ & _ & Eb & _).
    apply (tree_subnet_blocks _ Hok' (g row) (f c)).
    + change (g row ∈ live_subnets (update_subnets g (set_addresses (insert_subnet db row) rows))).
      rewrite live_update_subnets by done. apply list_elem_of_fmap_2. by apply (elem_inserted db row); [|right].
    + rewrite live_update_blocks by done. by apply list_elem_of_fmap_2.
    + rewrite Ep', Ep, Eb. done.
    + by rewrite Nf, Ng.
  - intros Hclear. apply tree_update_blocks; [done|done|]. apply tree_update_subnets; [done|done|]. apply tree_addresses.
    apply (inserted_tree db Hok row blk); try done. by apply fi_subnet.
Qed.

(** ** Lemmas: what [create_block] answers *)
Section create_block_facts.
Context (pg_cidr : cidr_text → option IPNetwork) (Hpg : ∀ t n, pg_cidr t = Some n → ip_network t = Some n).
Context (db : Db) (Hok : tree_ok db).

Definition parent_ok (writable : bool) (body : IPBlockCreate) (net : IPNetwork) : Prop :=
  match bc_parent body with
  | None => True
  | Some p => writable = true ∧ ∃ pb, pb ∈ live_blocks db ∧ b_id pb = p ∧ b_space pb = bc_space body ∧ inside net (b_network pb)
  end.

Lemma check_parent_Ok writable body u net : ip_network (bc_network body) = Some net → wf net →
  check_parent db writable (bc_space body) (bc_parent body) (bc_network body) = Ok u → parent_ok writable body net.
Proof.
  intros Ht Hn. unfold check_parent, parent_ok, _parse_network. destruct (bc_parent body) as [p|]; [|done].
  destruct (get_block db p) as [pb|] eqn:Eg; [|done]. apply get_block_Some in Eg as [Hpb Ei]. rewrite Ht.
  intros (_ & Hw%raise_if_Ok%negb_false_iff & H)%bind_Ok. apply bind_Ok in H as (_ & Es%raise_if_Ok%negb_false_iff%bool_decide_eq_true & H).
  cbn [mbind result_bind] in H. apply bind_Ok in H as (x & Ex & Hx%raise_if_Ok%negb_false_iff). subst x.
  split; [done|]. exists pb. split_and!; try done. unfold within in Ex. destruct (subnet_of _ _) as [x|] eqn:E; [|done]. injection Ex as ->.
  exact (proj1 (subnet_of_spec net _ Hn (wf_live_block db Hok pb Hpb)) E).
Qed.

Lemma check_parent_complete writable body net : ip_network (bc_network body) = Some net → wf net →
  parent_ok writable body net → check_parent db writable (bc_space body) (bc_parent body) (bc_network body) = Ok tt.
Proof.
  intros Ht Hn. unfold check_parent, parent_ok, _parse_network. destruct (bc_parent body) as [p|]; [|done].
  intros (-> & pb & Hpb & <- & Es & Hin). rewrite (get_block_live db Hok pb Hpb), Ht, Es. rewrite bool_decide_true by done.
  cbn [negb raise_if mbind result_bind]. unfold within.
  by rewrite (proj2 (subnet_of_spec net _ Hn (wf_live_block db Hok pb Hpb)) Hin).
Qed.

(** The candidate row, and the tables a success leaves but for the counters. *)
Definition new_block (body : IPBlockCreate) (id : str) (net : IPNetwork) : IPBlock :=
  mkBlock id (bc_space body) (bc_parent body) net 0 0 false.

Definition clear_below (body : IPBlockCreate) (net : IPNetwork) : Prop :=
  ∀ s, s ∈ live_subnets db → bc_parent body = Some (s_block s) → meets (s_network s) net → inside (s_network s) net.

Lemma create_block_tree body id net ids sids writable : fresh_id db id → wf net → parent_ok writable body net →
  _assert_no_block_overlap db (bc_space body) net (bc_parent body) None = Ok ids →
  match bc_parent body with None => Ok [] | Some p => adopted (reparent (insert_block db (new_block body id net)) ids id) (bc_space body) p net end = Ok sids →
  tree_ok (_update_block_utilization (adopt (reparent (insert_block db (new_block body id net)) ids id) sids id) id) ↔ clear_below body net.
Proof.
  intros Hf Hn Hp Hids Hsids. set (nb := new_block body id net).
  set (h := λ b, if bool_decide (b_id b ∈ ids) && negb (b_deleted b) then set_parent id b else b).
  set (g := λ s, if bool_decide (s_id s ∈ sids) && negb (s_deleted s) then set_block id s else s).
  pose proof (no_block_overlap_Ok db Hok _ _ _ _ Hn Hids) as Hspec.
  assert (Hpar : ∀ p, b_parent nb = Some p → ∃ pb, pb ∈ live_blocks db ∧ b_id pb = p ∧ b_space pb = b_space nb ∧ inside (b_network nb) (b_network pb)).
  { intros p Ep. unfold parent_ok in Hp. cbn in Ep. rewrite Ep in Hp. apply Hp. }
  assert (Hsib : ∀ b, b ∈ live_blocks db → joins (b_space nb) (b_parent nb) (b_network nb) b → inside (b_network b) (b_network nb))
    by (intros b Hb Hj; by apply (Hspec b Hb)).
  assert (Hh : ∀ b, b ∈ live_blocks db → joins (b_space nb) (b_parent nb) (b_network nb) b ∧ h b = set_parent (b_id nb) b
    ∨ ¬ joins (b_space nb) (b_parent nb) (b_network nb) b ∧ h b = b).
  { intros b Hb. destruct (Hspec b Hb) as [Hs _]. apply elem_live_blocks in Hb as [_ Hd]. unfold h. rewrite Hd, andb_true_r.
    case_bool_decide as Hi; [left|right]; (split; [|done]); [by apply Hs|]. intros Hj. by apply Hi, Hs. }
  assert (Hh0 : ∀ b, b_id (h b) = b_id b ∧ b_network (h b) = b_network b ∧ b_deleted (h b) = b_deleted b) by (intros b; unfold h; by destruct (_ && _)).
  assert (Hhn : h nb = nb).
  { unfold h. rewrite bool_decide_false; [done|]. intros Hi. destruct (no_block_overlap_ids db Hok _ _ _ _ _ Hn Hids Hi) as (b & [Hb _]%elem_live_blocks & E).
    apply (fi_block db id Hf). change id with (b_id nb). rewrite <- E. by apply list_elem_of_fmap_2. }
  assert (Hg : ∀ s, s ∈ live_subnets db → (b_parent nb = Some (s_block s) ∧ inside (s_network s) (b_network nb)) ∧ g s = set_block (b_id nb) s
    ∨ ¬ (b_parent nb = Some (s_block s) ∧ inside (s_network s) (b_network nb)) ∧ g s = s).
  { intros s Hs. assert (Hi : s_id s ∈ sids ↔ bc_parent body = Some (s_block s) ∧ inside (s_network s) net).
    { unfold parent_ok in Hp. destruct (bc_parent body) as [p|]; [|injection Hsids as <-; split; [by intros ?%not_elem_of_nil|by intros [? _]]].
      destruct Hp as (_ & pb & Hpb & <- & Esp & Hin). destruct (adopted_spec db pb net Hok Hpb Hn Hin) as (l & El & Hl).
      rewrite <- Esp in Hsids. change (adopted db (b_space pb) (b_id pb) net = Ok sids) in Hsids. rewrite El in Hsids. injection Hsids as <-.
      rewrite (Hl s Hs). split; intros [E ?]; split; congruence || done. }
    pose proof Hs as [_ Hd]%elem_live_subnets. unfold g. rewrite Hd, andb_true_r.
    case_bool_decide as Hc; [left|right]; (split; [|done]); [by apply Hi|]. intros HA. by apply Hc, Hi. }
  assert (Hg0 : ∀ s, s_id (g s) = s_id s ∧ s_network (g s) = s_network s ∧ s_deleted (g s) = s_deleted s) by (intros s; unfold g; by destruct (_ && _)).
  unfold _update_block_utilization. destruct (block_recount_counts (adopt (reparent (insert_block db nb) ids id) sids id) [id]) as (f & Kf & Nf & E).
  rewrite E. clear E. change (adopt (reparent (insert_block db nb) ids id) sids id) with (update_subnets g (update_blocks h (insert_block db nb))).
  split.
  - intros Hok' s Hs Ep Hm. apply (between_clear db nb eq_refl h Hh0 Hhn g Hg Hg0); [|done|done|done].
    intros t c Ht Hc Et Hm'. destruct (Kf c) as (_ & _ & Ep' & _). apply (tree_subnet_blocks _ Hok' t (f c)); [done| |by rewrite Ep'|by rewrite Nf].
    rewrite live_update_blocks by done. by apply list_elem_of_fmap_2.
  - intros Hclear. apply tree_update_blocks; [done|done|]. by apply (between_tree db Hok nb Hn (fi_block db id Hf) eq_refl Hpar Hsib h Hh Hh0 Hhn g Hg Hg0).
Qed.

Lemma create_block_Ok allowed writable spaces body id block db' : fresh_id db id → Resize.parses_wf (bc_network body) →
  create_block pg_cidr db allowed writable spaces body id = Ok (block, db') →
  allowed = true ∧ bc_space body ∈ spaces ∧
  ∃ net, ip_network (bc_network body) = Some net ∧ pg_cidr (bc_network body) = Some net ∧ parent_ok writable body net
    ∧ (∀ b, b ∈ live_blocks db → joins (bc_space body) (bc_parent body) net b → inside (b_network b) net ∧ b_network b ≠ net)
    ∧ block = new_block body id net ∧ (tree_ok db' ↔ clear_below body net).
Proof.
  intros Hf Hwf H. unfold create_block in H.
  apply bind_Ok in H as (_ & Ha%raise_if_Ok%negb_false_iff & H). apply bind_Ok in H as (_ & Hs%raise_if_Ok%negb_false_iff%bool_decide_eq_true & H).
  apply bind_Ok in H as (u & Hp & H). apply bind_Ok in H as (net & Ht & H). unfold _parse_network in Ht.
  destruct (ip_network (bc_network body)) as [n|] eqn:En; [|done]. injection Ht as ->. pose proof (Hwf _ En) as Hn.
  pose proof (check_parent_Ok _ _ _ _ En Hn Hp) as Hpo. apply bind_Ok in H as (ids & Hids & H).
  pose proof (no_block_overlap_Ok db Hok _ _ _ _ Hn Hids) as Hspec.
  apply bind_Ok in H as (stored & Est & H). destruct (pg_cidr (bc_network body)) as [m|] eqn:Epg; [|done]. injection Est as ->.
  apply Hpg in Epg as Em. assert (stored = net) as -> by congruence.
  apply bind_Ok in H as (sids & Hsids & H). injection H as <- <-. split_and!; [done|done|]. exists net. split_and!; try done.
  - intros b Hb. by apply Hspec.
  - by apply (create_block_tree body id net ids sids writable).
Qed.

Lemma create_block_succeeds writable spaces body id net : fresh_id db id → wf net → bc_space body ∈ spaces →
  ip_network (bc_network body) = Some net → pg_cidr (bc_network body) = Some net → parent_ok writable body net →
  (∀ b, b ∈ live_blocks db → joins (bc_space body) (bc_parent body) net b → inside (b_network b) net ∧ b_network b ≠ net) →
  is_ok (create_block pg_cidr db true writable spaces body id) = true.
Proof.
  intros Hf Hn Hs Ht Epg Hp Hj. unfold create_block. rewrite bool_decide_true by done. cbn [negb raise_if mbind result_bind].
  rewrite (check_parent_complete _ _ net Ht Hn Hp). cbn [mbind result_bind]. unfold _parse_network. rewrite Ht. cbn [mbind result_bind].
  destruct (no_block_overlap_complete db Hok _ _ _ Hn Hj) as [ids ->]. cbn [mbind result_bind]. rewrite Epg. cbn [mbind result_bind].
  unfold parent_ok in Hp. destruct (bc_parent body) as [p|]; [|done]. destruct Hp as (_ & pb & Hpb & <- & <- & Hin).
  destruct (adopted_spec db pb net Hok Hpb Hn Hin) as (sids & E & _).
  match goal with |- context [adopted ?d _ _ _] => change (adopted d (b_space pb) (b_id pb) net) with (adopted db (b_space pb) (b_id pb) net) end.
  rewrite E. done.
Qed.
End create_block_facts.

(** C22 -- [create_block] answers exactly as the rules say: it succeeds when the
    caller may write, the space is known, the parent is a live block of the
    same space that holds the network, every live sibling that meets the
    network lies strictly inside it, and the database takes the text as
    written; the siblings inside and the parent's subnets inside then move
    below the new block.  The tree stays well-formed exactly when no subnet
    directly under the parent straddles or covers the new block, which nothing
    checks. *)
Theorem create_block_exact (pg_cidr : cidr_text → option IPNetwork) (db : Db) (allowed writable : bool) (spaces : list str)
    (body : IPBlockCreate) (id : str) :
  (∀ t n, pg_cidr t = Some n → ip_network t = Some n) → tree_ok db → fresh_id db id → Resize.parses_wf (bc_network body) →
  (is_ok (create_block pg_cidr db allowed writable spaces body id) = true ↔
     allowed = true ∧ bc_space body ∈ spaces ∧
     ∃ net, ip_network (bc_network body) = Some net ∧ pg_cidr (bc_network body) = Some net ∧ parent_ok db writable body net
       ∧ ∀ b, b ∈ live_blocks db → joins (bc_space body) (bc_parent body) net b → inside (b_network b) net ∧ b_network b ≠ net)
  ∧ ∀ block db', create_block pg_cidr db allowed writable spaces body id = Ok (block, db') →
      ip_network (bc_network body) = Some (b_network block)
      ∧ (tree_ok db' ↔ ∀ s, s ∈ live_subnets db → bc_parent body = Some (s_block s) →
           meets (s_network s) (b_network block) → inside (s_network s) (b_network block)).
Proof.
  intros Hpg Hok Hf Hwf. split; [split|].
  - destruct (create_block _ _ _ _ _ _ _) as [[block db']|e] eqn:E; [|done]. intros _.
    apply (create_block_Ok pg_cidr Hpg db Hok) in E as (Ha & Hs & net & Ht & Epg & Hp & Hj & _); [|done|done].
    split_and!; [done|done|]. by exists net.
  - intros (-> & Hs & net & Ht & Epg & Hp & Hj). by apply (create_block_succeeds pg_cidr db Hok _ _ _ _ net Hf (Hwf _ Ht)).
  - intros block db' E. apply (create_block_Ok pg_cidr Hpg db Hok) in E as (_ & _ & net & Ht & _ & _ & _ & -> & Hc); done.
Qed.

(** C23 -- [create_subnet] answers exactly as the rules say: it succeeds when the
    caller may write, the space and the block exist and belong together, the
    CIDR parses and lies in the block, meets no live subnet of the space, and
    the gateway is one the subnet can have; it then stores the canonical
    network with its placeholder rows.  The tree of blocks and subnets stays
    well-formed exactly when the new subnet also keeps clear of the blocks
    below its own, which nothing checks. *)
Theorem create_subnet_exact (db : Db) (allowed writable : bool) (spaces : list str) (body : SubnetCreate) (id : str) (user : option str) :
  tree_ok db → fresh_id db id → Resize.parses_wf (sc_network body) →
  (is_ok (create_subnet db allowed writable spaces body id user) = true ↔
     allowed = true ∧ writable = true ∧ sc_space body ∈ spaces ∧
     ∃ net blk, ip_network (sc_network body) = Some net ∧ blk ∈ live_blocks db ∧ b_id blk = sc_block body
       ∧ b_space blk = sc_space body ∧ inside net (b_network blk)
       ∧ (∀ s, s ∈ live_subnets db → s_space s = sc_space body → ¬ meets net (s_network s))
       ∧ gateway_ok body net)
  ∧ ∀ row db', create_subnet db allowed writable spaces body id user = Ok (row, db') →
      ip_network (sc_network body) = Some (s_network row)
      ∧ rows_of db' id = (if takes_placeholders body (s_network row)
          then placeholder_rows id (s_network row) (default (default_gateway (s_network row)) (stored_gateway body)) user else [])
      ∧ (tree_ok db' ↔ ∀ c, c ∈ live_blocks db → b_parent c = Some (sc_block body) → ¬ meets (s_network row) (b_network c)).
Proof.
  intros Hok Hf Hwf. split.
  - transitivity (∃ res, create_subnet db allowed writable spaces body id user = Ok res).
    { destruct (create_subnet _ _ _ _ _ _ _); naive_solver. }
    setoid_rewrite create_subnet_Ok; [|done..]. naive_solver.
  - intros row db' H. apply (create_subnet_Ok db _ _ _ _ _ _ _ Hok Hf Hwf) in H as (_ & _ & _ & net & blk & Ht & Hb & Ei & Es & Hin & Hov & _ & E).
    injection E as -> ->. split_and!; [done| |by apply (created_tree db body id net user blk Hok Hf (Hwf _ Ht))].
    simpl. rewrite <- (with_rows_of db body id net user Hf). unfold created, rows_of, _update_block_utilization.
    rewrite Utilization.utilization_rows. by destruct (takes_placeholders body net).
Qed.

(** ** Lemmas: the choice of [allocate_subnet] *)
Lemma first_subnet_inside n p : wf n → prefixlen n ≤ p ≤ max_prefixlen (ver n) → wf (first_subnet n p) ∧ inside (first_subnet n p) n.
Proof.
  intros (H1 & H2 & H3) Hp. unfold first_subnet.
  assert (Hd : (2 ^ (max_prefixlen (ver n) - p) | 2 ^ (max_prefixlen (ver n) - prefixlen n))).
  { exists (2 ^ (p - prefixlen n)). rewrite <- Z.pow_add_r by lia. f_equal. lia. }
  split.
  - split_and!; simpl; [lia|lia|lia|lia|]. unfold num_addresses in *. simpl. apply Z.mod_divide; [lia|].
    etrans; [exact Hd|]. apply Z.mod_divide in H3; [done|lia].
  - intros a [Hv Ha]. unfold num_addresses in *. simpl in *. split; [done|].
    apply Z.divide_pos_le in Hd; unfold num_addresses; lia.
Qed.

Lemma sorted_find (l : list IPNetwork) (f : IPNetwork → bool) y x : Sorted FreeCidrs.base_le l →
  List.find f l = Some y → x ∈ l → f x = true → base y ≤ base x.
Proof.
  intros Hs. apply Sorted_StronglySorted in Hs; [|intros a b c; unfold FreeCidrs.base_le; lia].
  induction Hs as [|z l Hs IH Hz]; [done|]. simpl. destruct (f z) eqn:Ez.
  - intros [= ->] [->|Hx]%elem_of_cons _; [done|]. rewrite Forall_forall in Hz. by apply (Hz x Hx).
  - intros Hy [->|Hx]%elem_of_cons Hf; [congruence|]. by apply IH.
Qed.

Lemma choose_lowest db blk body (Hok : tree_ok db) :
  blk ∈ live_blocks db → sa_network body = None → prefixlen (b_network blk) < prefix_len body ≤ max_prefixlen (ver (b_network blk)) →
  (∀ l, _compute_free_cidrs (b_network blk) (occupied db (b_id blk)) (Z.to_nat MAX_RESULTS) = Some l → Z.of_nat (length l) < MAX_RESULTS) →
  match choose db blk body with
  | Ok c => c ∈ FreeSpace.free_slots db (prefix_len body) blk
      ∧ ∀ d, d ∈ FreeSpace.free_slots db (prefix_len body) blk → base c ≤ base d
  | Err e => e = NoneFree ∧ FreeSpace.free_slots db (prefix_len body) blk = []
  end.
Proof.
  intros Hb Hnone Hp Hcut. pose proof (wf_live_block db Hok blk Hb) as Hw. unfold choose. rewrite Hnone.
  change (occupied db (b_id blk)) with (FreeSpace._direct_child_cidrs db blk) in *.
  assert (Hc : ∀ o, o ∈ FreeSpace._direct_child_cidrs db blk → wf o ∧ ver o = ver (b_network blk)).
  { intros o Ho. destruct (FreeSpace.direct_child_inside db Hok blk o Hb Ho) as [H1 H2]. split; [done|]. by apply Resize.inside_ver. }
  destruct (FreeCidrs.compute_free_frees _ _ (Z.to_nat MAX_RESULTS) Hw Hc) as (l & E & [F1 _ _ F4] & Hs).
  rewrite E in Hcut |- *. specialize (Hcut _ eq_refl). rewrite length_take in Hcut. assert (Hlen : Z.of_nat (length l) < MAX_RESULTS) by lia.
  rewrite take_ge by lia. clear Hcut Hlen E.
  pose proof (λ c, FreeSpace.elem_free_slots db Hok (prefix_len body) blk c Hb (proj2 Hp)) as Hslot.
  assert (Hhost : ∀ d, d ∈ FreeSpace.free_slots db (prefix_len body) blk → ∃ x, x ∈ l ∧ inside d x ∧ wf x ∧ (prefixlen x <=? prefix_len body) = true).
  { intros d (Hwd & Hvd & Hpd & Hid & Hod)%Hslot. destruct (F4 d Hwd Hid Hod) as (x & Hx & Hix). exists x. destruct (F1 x Hx) as (Hwx & _).
    split_and!; try done. apply Z.leb_le. rewrite <- Hpd. by apply FreeCidrs.inside_prefix. }
  destruct (List.find _ l) as [y|] eqn:Ef.
  - pose proof (List.find_some _ _ Ef) as [Hy Hpy%Z.leb_le]. apply list_elem_of_In in Hy. destruct (F1 y Hy) as (Hwy & Hiy & Hoy).
    pose proof (Resize.inside_ver _ _ Hwy Hiy) as Hv. destruct (first_subnet_inside y (prefix_len body) Hwy) as [Hwf Hif]; [rewrite Hv; lia|]. split.
    + apply Hslot. split_and!; [done|done|done|by etrans|]. intros o Ho Hm. apply (Hoy o Ho). destruct Hm as (a & Ha & Hao). exists a. auto.
    + intros d Hd. destruct (Hhost d Hd) as (x & Hx & Hix & Hwx & Hpx). apply Hslot in Hd as (Hwd & _).
      pose proof (sorted_find l _ y x Hs Ef Hx Hpx) as Hle. simpl.
      destruct (Hix _ (mem_network_address d Hwd)) as [_ Hr]. unfold network_address in Hr. simpl in Hr. lia.
  - split; [done|]. destruct (FreeSpace.free_slots _ _ _) as [|d ds]; [done|]. destruct (Hhost d) as (x & Hx & _ & _ & Hpx); [by left|].
    apply list_elem_of_In in Hx. by rewrite (List.find_none _ _ Ef x Hx) in Hpx.
Qed.

(** C21 -- [allocate_subnet] without a network of the caller's gives the lowest
    free slot of the block: when the caller may write and the block's free list
    is not cut, it creates the subnet at the lowest address where a network of
    the wanted length meets no child block and no subnet of the block, and
    leaves a well-formed tree; it refuses, with 409, only when there is no such
    network. *)
Theorem allocate_subnet_lowest (db : Db) (spaces : list str) (blk : IPBlock) (body : SubnetAllocate) (id : str) (user : option str) :
  tree_ok db → fresh_id db id → blk ∈ live_blocks db → b_space blk ∈ spaces →
  sa_network body = None → sa_gateway body = None →
  prefixlen (b_network blk) < prefix_len body ≤ max_prefixlen (ver (b_network blk)) →
  (∀ l, _compute_free_cidrs (b_network blk) (occupied db (b_id blk)) (Z.to_nat MAX_RESULTS) = Some l → Z.of_nat (length l) < MAX_RESULTS) →
  match allocate_subnet db true true spaces (b_id blk) body id user with
  | Ok (row, db') => s_network row ∈ FreeSpace.free_slots db (prefix_len body) blk
      ∧ (∀ c, c ∈ FreeSpace.free_slots db (prefix_len body) blk → base (s_network row) ≤ base c)
      ∧ s_block row = b_id blk ∧ tree_ok db'
  | Err e => status_code e = 409 ∧ FreeSpace.free_slots db (prefix_len body) blk = []
  end.
Proof.
  intros Hok Hf Hb Hs Hnet Hgw Hp Hcut. unfold allocate_subnet. rewrite (get_block_live db Hok blk Hb). cbn [negb raise_if mbind result_bind].
  rewrite (proj2 (Z.ltb_ge _ _) (proj2 Hp)), (proj2 (Z.leb_gt _ _) (proj1 Hp)). cbn [raise_if mbind result_bind].
  pose proof (choose_lowest db blk body Hok Hb Hnet Hp Hcut) as Hch.
  destruct (choose db blk body) as [c|e]; cbn [mbind result_bind]; [|by destruct Hch as [-> ?]]. destruct Hch as [Hc Hlow].
  pose proof (proj1 (FreeSpace.elem_free_slots db Hok _ blk c Hb (proj2 Hp)) Hc) as (Hwc & _ & _ & Hic & Hoc).
  destruct (FreeSpace.free_slot_free db Hok _ blk c Hb (proj2 Hp) Hc) as [Hfree _].
  set (sb := mkSubnetCreate _ _ _ _ _). assert (Hpw : Resize.parses_wf (sc_network sb)) by (by intros n [= <-]).
  assert (HOk : create_subnet db true true spaces sb id user = Ok (new_subnet sb id c (stored_gateway sb), created db sb id c user)).
  { apply (create_subnet_Ok db _ _ _ _ _ _ _ Hok Hf Hpw). split_and!; [done|done|done|]. exists c, blk. split_and!; try done.
    unfold gateway_ok. simpl. by rewrite Hgw. }
  rewrite HOk. split_and!; [done|done|done|]. apply (created_tree db sb id c user blk Hok Hf Hwc Hb); [done|done|done|done|].
  intros d Hd Ep. apply Hoc, FreeSpace.elem_direct_child. left. by exists d.
Qed.

(** A /24 block with a /26 child block and a /26 subnet. *)
Definition sample_net (a p : Z) : IPNetwork := mkNet V4 (167772160 + a) p.
Definition create_sample : Db :=
  mkDb [mkBlock "b" "sp" None (sample_net 0 24) 62 256 false; mkBlock "c" "sp" (Some ("b" : str)) (sample_net 64 26) 0 64 false]
       [mkSubnet "s" "sp" "b" (sample_net 0 26) "unicast" None 62 0 false] [].

Lemma create_sample_tree : tree_ok create_sample.
Proof. apply tree_okb_sound. vm_compute. reflexivity. Qed.

Lemma create_sample_fresh : fresh_id create_sample "n".
Proof.
  constructor; [apply (bool_decide_unpack _); vm_compute; exact I..|]. by intros r ?%not_elem_of_nil.
Qed.

Definition sample_body (a p : Z) : SubnetCreate := mkSubnetCreate "sp" "b" (Canonical (sample_net a p)) None false.

Lemma create_sample_parses a p : wf (sample_net a p) → Resize.parses_wf (Canonical (sample_net a p)).
Proof. by intros H n [= <-]. Qed.

(** A /27 inside the subnet is accepted as a block, and the tree is broken. *)
Definition strict_cidr (t : cidr_text) : option IPNetwork := match t with Canonical n => Some n | _ => None end.
Definition block_body (a p : Z) : IPBlockCreate := mkBlockCreate "sp" (Some ("b" : str)) (Canonical (sample_net a p)).

Lemma create_block_exact_witness :
  (∃ db', create_block strict_cidr create_sample true true [("sp" : str)] (block_body 0 25) "n" = Ok (new_block (block_body 0 25) "n" (sample_net 0 25), db')
    ∧ map s_block (subnet db') = [("n" : str)] ∧ map b_parent (ip_block db') = [None; Some ("n" : str); Some ("b" : str)])
  ∧ ∃ block db', create_block strict_cidr create_sample true true [("sp" : str)] (block_body 0 27) "n" = Ok (block, db') ∧ ¬ tree_ok db'.
Proof.
  split; [eexists; split; [vm_compute; reflexivity|split; reflexivity]|]. eexists _, _. split; [vm_compute; reflexivity|].
  destruct (proj2 (create_block_exact strict_cidr create_sample true true [("sp" : str)] (block_body 0 27) "n"
    ltac:(intros [n| |] m [= <-]; reflexivity) create_sample_tree create_sample_fresh
    (create_sample_parses 0 27 ltac:(apply (bool_decide_unpack _); vm_compute; exact I)))
    _ _ ltac:(vm_compute; reflexivity)) as (_ & H).
  intros Hok. assert (Hs : inside (sample_net 0 26) (sample_net 0 27)).
  { apply (proj1 H Hok (mkSubnet "s" "sp" "b" (sample_net 0 26) "unicast" None 62 0 false)).
    - apply (bool_decide_unpack _). vm_compute. exact I.
    - reflexivity.
    - exists (mkAddr V4 167772160). split; vm_compute; (split; [reflexivity|split; [discriminate|reflexivity]]). }
  destruct (Hs (mkAddr V4 (167772160 + 63))) as (_ & _ & Hlt); vm_compute; [split; [reflexivity|split; [discriminate|reflexivity]]|].
  vm_compute in Hlt. discriminate.
Defined.

(** A /26 over the child block is accepted, and the tree is broken. *)
Lemma create_subnet_exact_witness :
  is_ok (create_subnet create_sample true true [("sp" : str)] (sample_body 128 26) "n" None) = true
  ∧ ∃ row db', create_subnet create_sample true true [("sp" : str)] (sample_body 64 26) "n" None = Ok (row, db') ∧ ¬ tree_ok db'.
Proof.
  split; [vm_compute; reflexivity|]. eexists _, _. split; [vm_compute; reflexivity|].
  destruct (proj2 (create_subnet_exact create_sample true true [("sp" : str)] (sample_body 64 26) "n" None
    create_sample_tree create_sample_fresh (create_sample_parses 64 26 ltac:(apply (bool_decide_unpack _); vm_compute; exact I)))
    _ _ ltac:(vm_compute; reflexivity)) as (_ & _ & H).
  intros Hok. apply (proj1 H Hok (mkBlock "c" "sp" (Some ("b" : str)) (sample_net 64 26) 0 64 false)).
  - apply (bool_decide_unpack _). vm_compute. exact I.
  - reflexivity.
  - exists (mkAddr V4 (167772160 + 64)). split; vm_compute; (split; [reflexivity|split; [discriminate|reflexivity]]).
Defined.

(** The first /26 is a subnet, the second a child block: the third is given. *)
Definition carve : SubnetAllocate := mkSubnetAllocate 26 None None false.
Definition carved (r : result CreateError (Subnet * Db)) : option IPNetwork :=
  match r with Ok (row, _) => Some (s_network row) | Err _ => None end.

Lemma allocate_subnet_lowest_witness :
  carved (allocate_subnet create_sample true true [("sp" : str)] "b" carve "n" None) = Some (sample_net 128 26)
  ∧ ∀ row db', allocate_subnet create_sample true true [("sp" : str)] "b" carve "n" None = Ok (row, db') → tree_ok db'.
Proof.
  split; [vm_compute; reflexivity|]. intros row db' E.
  pose proof (allocate_subnet_lowest create_sample [("sp" : str)] (mkBlock "b" "sp" None (sample_net 0 24) 62 256 false) carve "n" None
    create_sample_tree create_sample_fresh ltac:(apply (bool_decide_unpack _); vm_compute; exact I)
    ltac:(apply (bool_decide_unpack _); vm_compute; exact I) eq_refl eq_refl
    ltac:(split; [reflexivity|vm_compute; discriminate])
    ltac:(intros l Hl; vm_compute in Hl; injection Hl as <-; vm_compute; reflexivity)) as H.
  cbn [b_id] in H. rewrite E in H. apply H.
Defined.
End TreeCreate.
