(* ===== verification/AddressSets.v ===== *)
(** * Address sets and the write delegation they carry

    [backend/app/models/address_set.py] (the shape of a set),
    [backend/app/api/v1/address_sets/router.py] (create, update, delete) and
    [backend/app/services/ipam/address_set_gate.py] (the ranges a caller may
    write on a subnet, and the test of one address).  A set has a name, a
    description and a range; its other columns are written as given and not
    modelled, nor are the audit rows.  Who holds what is [Permissions].

    An [inet] column stores an address: [pg_inet] is PostgreSQL's reading of a
    text. *)
From S2P Require Import Prelude PyStr IpNet Ipam Permissions.

Module AddressSets.
Import Ipam.
Local Open Scope Z_scope.

(** An address as the caller wrote it: in canonical form, in another spelling,
    or not an address ([[]] included). *)
Inductive addr_text :=
| Canon (a : IPAddr)
| Respelled (a : IPAddr)
| NotAddress.

#[export] Instance addr_text_eq_dec : EqDecision addr_text.
Proof. solve_decision. Defined.

(** [ipaddress.ip_address(text)]; [None] is the [ValueError]. *)
Definition ip_address (t : addr_text) : option IPAddr :=
  match t with Canon a | Respelled a => Some a | NotAddress => None end.

Definition _pack_ip (t : addr_text) : option Z := ip <$> ip_address t.

(** ** The table *)
Record AddressSet := mkSet {
  a_id : str; a_subnet : str; a_name : str; a_description : str; range_kind : str;
  start_address : option IPAddr; end_address : option IPAddr; explicit_addresses : list addr_text }.

#[export] Instance AddressSet_eq_dec : EqDecision AddressSet.
Proof. solve_decision. Defined.

Definition ADDRESS_SET_RANGE_KINDS : list str := ["contiguous"; "explicit"].
Definition EXPLICIT_ADDRESSES_MAX : Z := 1024.

Inductive shape_error :=
| UnknownKind
| BoundsMissing
| BoundsUnreadable
| FamiliesDiffer
| BoundsInverted
| NoExplicit
| TooManyExplicit
| BadExplicit.

(** A kind or a list of [None] is JSON's null. *)
Definition validate_address_set_shape (kind : option str) (start_ end_ : option addr_text) (explicit : option (list addr_text))
    : option shape_error :=
  if negb (bool_decide (kind = Some ("contiguous" : str)) || bool_decide (kind = Some ("explicit" : str))) then Some UnknownKind
  else if bool_decide (kind = Some ("contiguous" : str)) then
    match start_, end_ with
    | Some s, Some e =>
        match ip_address s, ip_address e with
        | Some s, Some e =>
            if negb (bool_decide (a_version s = a_version e)) then Some FamiliesDiffer
            else if ip e <? ip s then Some BoundsInverted else None
        | _, _ => Some BoundsUnreadable
        end
    | _, _ => Some BoundsMissing
    end
  else
    match explicit with
    | None | Some [] => Some NoExplicit
    | Some l =>
        if EXPLICIT_ADDRESSES_MAX <? Z.of_nat (length l) then Some TooManyExplicit
        else if existsb (λ t, bool_decide (ip_address t = None)) l then Some BadExplicit else None
    end.

(** ** The requests *)
Inductive SetError :=
| SetNotFound
| SubnetNotFound
| SetForbidden
| BadShape (e : shape_error)
| OutsideSubnet
| NameTaken
| SetStoreFails.

Definition set_status (e : SetError) : Z :=
  match e with
  | SetNotFound | SubnetNotFound => 404
  | SetForbidden => 403
  | BadShape _ | OutsideSubnet => 422
  | NameTaken => 409
  | SetStoreFails => 500
  end.

Definition refuse_shape (r : option shape_error) : result SetError unit :=
  match r with Some e => Err (BadShape e) | None => Ok tt end.

Definition _get_subnet (db : Db) (id : str) : option Subnet := List.find (λ s, bool_decide (s_id s = id)) (live_subnets db).

(** The addresses of the range, each inside the network. *)
Fixpoint all_within (net : IPNetwork) (addrs : list addr_text) : result SetError unit :=
  match addrs with
  | [] => Ok tt
  | t :: addrs =>
      a ← match ip_address t with Some a => Ok a | None => Err SetStoreFails end;
      _ ← raise_if (negb (contains net a)) OutsideSubnet;
      all_within net addrs
  end.

Definition _validate_within_subnet (db : Db) (subnet_id : str) (kind : option str) (start_ end_ : option addr_text)
    (explicit : option (list addr_text)) : result SetError unit :=
  match _get_subnet db subnet_id with
  | None => Err SubnetNotFound
  | Some s =>
      all_within (s_network s)
        (if bool_decide (kind = Some ("contiguous" : str)) then omap id [start_; end_] else default [] explicit)
  end.

Record AddressSetCreate := mkSetCreate {
  cs_name : str; cs_description : str; cs_subnet : str; cs_kind : str;
  cs_start : option addr_text; cs_end : option addr_text; cs_explicit : list addr_text }.

(** A field the caller left out is [None], a null [Some None]. *)
Record AddressSetUpdate := mkSetUpdate {
  us_name : option (option str); us_description : option (option str); us_kind : option (option str);
  us_start : option (option addr_text); us_end : option (option addr_text); us_explicit : option (option (list addr_text)) }.

Section requests.
Context (pg_inet : addr_text → option IPAddr) (db : Db).

(** A text into an [inet] column. *)
Definition to_inet (t : option addr_text) : result SetError (option IPAddr) :=
  match t with
  | None => Ok None
  | Some t => match pg_inet t with Some a => Ok (Some a) | None => Err SetStoreFails end
  end.

(** [ck_address_set_range_order]: IPv4 sorts before IPv6. *)
Definition inet_leb (a b : IPAddr) : bool :=
  match a_version a, a_version b with
  | V4, V6 => true
  | V6, V4 => false
  | _, _ => ip a <=? ip b
  end.
Definition range_order (s e : option IPAddr) : bool :=
  match s, e with Some s, Some e => inet_leb s e | _, _ => true end.

(** The constraints of the table on a row about to be written. *)
Definition flush_row (sets : list AddressSet) (r : AddressSet) : result SetError unit :=
  _ ← raise_if (negb (range_order (start_address r) (end_address r))) SetStoreFails;
  raise_if (existsb (λ x, bool_decide (a_subnet x = a_subnet r) && bool_decide (a_name x = a_name r) && negb (bool_decide (a_id x = a_id r))) sets)
    SetStoreFails.

Definition name_taken (sets : list AddressSet) (subnet_id : str) (name : str) (but : option str) : bool :=
  existsb (λ x, bool_decide (a_subnet x = subnet_id) && bool_decide (a_name x = name)
                && negb (bool_decide (Some (a_id x) = but))) sets.

Definition create_address_set (u : Permissions.user) (sets : list AddressSet) (body : AddressSetCreate) (id : str)
    : result SetError (list AddressSet) :=
  _ ← raise_if (EXPLICIT_ADDRESSES_MAX <? Z.of_nat (length (cs_explicit body))) (BadShape TooManyExplicit);
  _ ← refuse_shape (validate_address_set_shape (Some (cs_kind body)) (cs_start body) (cs_end body) (Some (cs_explicit body)));
  _ ← raise_if (negb (Permissions.user_has_permission u "admin" "address_set" None)) SetForbidden;
  _ ← _validate_within_subnet db (cs_subnet body) (Some (cs_kind body)) (cs_start body) (cs_end body) (Some (cs_explicit body));
  _ ← raise_if (negb (Permissions.user_has_permission u "write" "subnet" (Some (cs_subnet body)))) SetForbidden;
  _ ← raise_if (name_taken sets (cs_subnet body) (cs_name body) None) NameTaken;
  s ← to_inet (cs_start body);
  e ← to_inet (cs_end body);
  let row := mkSet id (cs_subnet body) (cs_name body) (cs_description body) (cs_kind body) s e (cs_explicit body) in
  _ ← raise_if (bool_decide (id ∈ map a_id sets)) SetStoreFails;
  _ ← flush_row sets row;
  Ok (sets ++ [row]).

(** The range of the row once the request is merged in. *)
Definition merged_kind (row : AddressSet) (data : AddressSetUpdate) : option str := default (Some (range_kind row)) (us_kind data).
Definition merged_start (row : AddressSet) (data : AddressSetUpdate) : option addr_text := default (Canon <$> start_address row) (us_start data).
Definition merged_end (row : AddressSet) (data : AddressSetUpdate) : option addr_text := default (Canon <$> end_address row) (us_end data).
Definition merged_explicit (row : AddressSet) (data : AddressSetUpdate) : option (list addr_text) :=
  default (Some (explicit_addresses row)) (us_explicit data).

Definition range_touched (data : AddressSetUpdate) : bool :=
  bool_decide (is_Some (us_kind data)) || bool_decide (is_Some (us_start data)) || bool_decide (is_Some (us_end data))
  || bool_decide (is_Some (us_explicit data)).
Definition range_changed (row : AddressSet) (data : AddressSetUpdate) : bool :=
  negb (bool_decide (merged_kind row data = Some (range_kind row)))
  || negb (bool_decide (merged_start row data = Canon <$> start_address row))
  || negb (bool_decide (merged_end row data = Canon <$> end_address row))
  || negb (bool_decide (merged_explicit row data = Some (explicit_addresses row))).

Definition check_range (u : Permissions.user) (row : AddressSet) (data : AddressSetUpdate) : result SetError unit :=
  if range_touched data then
    _ ← raise_if (range_changed row data && negb (Permissions.user_has_permission u "write" "subnet" (Some (a_subnet row)))) SetForbidden;
    _ ← refuse_shape (validate_address_set_shape (merged_kind row data) (merged_start row data) (merged_end row data) (merged_explicit row data));
    _validate_within_subnet db (a_subnet row) (merged_kind row data) (merged_start row data) (merged_end row data) (merged_explicit row data)
  else Ok tt.

(** A null in a column that takes none fails at the flush. *)
Definition not_null {A} (x : option A) : result SetError A :=
  match x with Some x => Ok x | None => Err SetStoreFails end.

(** A bound of the row: the request's text, or the stored address. *)
Definition written_bound (stored : option IPAddr) (field : option (option addr_text)) : result SetError (option IPAddr) :=
  match field with None => Ok stored | Some t => to_inet t end.

(** The [setattr] loop, the clean-up of the other shape's columns, the flush. *)
Definition written_row (row : AddressSet) (data : AddressSetUpdate) : result SetError AddressSet :=
  kind ← not_null (merged_kind row data);
  name ← not_null (default (Some (a_name row)) (us_name data));
  description ← not_null (default (Some (a_description row)) (us_description data));
  s ← (if bool_decide (kind = "explicit") then Ok None else written_bound (start_address row) (us_start data));
  e ← (if bool_decide (kind = "explicit") then Ok None else written_bound (end_address row) (us_end data));
  explicit ← (if bool_decide (kind = "contiguous") then Ok [] else not_null (merged_explicit row data));
  Ok (mkSet (a_id row) (a_subnet row) name description kind s e explicit).

Definition get_set (sets : list AddressSet) (id : str) : option AddressSet :=
  List.find (λ r, bool_decide (a_id r = id)) sets.

Definition update_address_set (u : Permissions.user) (sets : list AddressSet) (set_id : str) (data : AddressSetUpdate)
    : result SetError (list AddressSet) :=
  _ ← raise_if (match us_explicit data with Some (Some l) => EXPLICIT_ADDRESSES_MAX <? Z.of_nat (length l) | _ => false end)
        (BadShape TooManyExplicit);
  match get_set sets set_id with
  | None => Err SetNotFound
  | Some row =>
      _ ← raise_if (negb (Permissions.user_has_permission u "admin" "address_set" (Some set_id))) SetForbidden;
      _ ← check_range u row data;
      _ ← raise_if (match us_name data with
                    | Some (Some n) => negb (bool_decide (n = a_name row)) && name_taken sets (a_subnet row) n (Some (a_id row))
                    | _ => false
                    end) NameTaken;
      row' ← written_row row data;
      _ ← flush_row sets row';
      Ok (map (λ r, if bool_decide (a_id r = set_id) then row' else r) sets)
  end.

Definition delete_address_set (u : Permissions.user) (sets : list AddressSet) (set_id : str) : result SetError (list AddressSet) :=
  match get_set sets set_id with
  | None => Err SetNotFound
  | Some row =>
      _ ← raise_if (negb (Permissions.user_has_permission u "admin" "address_set" (Some set_id))) SetForbidden;
      Ok (List.filter (λ r, negb (bool_decide (a_id r = set_id))) sets)
  end.
End requests.

(** ** The gate *)
Definition _MAX_SETS_PER_SUBNET : nat := 4096.
Definition _MAX_EXPLICIT_HOSTS : Z := 1000000.

(** [intervals]: spans with both ends; [_starts]: their lower bounds, cached. *)
Record WritableSetRanges := mkRanges { intervals : list (Z * Z); hosts : gset Z; _starts : list Z }.

(** [bool(ranges)] *)
Definition any_range (r : WritableSetRanges) : bool :=
  negb (bool_decide (intervals r = [])) || negb (bool_decide (hosts r = ∅)).

(** Tuples sort by start, then by end. *)
Definition span_le (i j : Z * Z) : Prop := i.1 < j.1 ∨ i.1 = j.1 ∧ i.2 ≤ j.2.
#[export] Instance span_le_dec : RelDecision span_le.
Proof. intros i j. unfold span_le. apply _. Defined.

(** The loop of [finalize]; [last] is [merged[-1]]. *)
Fixpoint merge_spans (last : Z * Z) (ordered : list (Z * Z)) : list (Z * Z) :=
  match ordered with
  | [] => [last]
  | (s, e) :: ordered =>
      if s <=? last.2 + 1 then merge_spans (last.1, if last.2 <? e then e else last.2) ordered
      else last :: merge_spans (s, e) ordered
  end.

Definition finalize (r : WritableSetRanges) : WritableSetRanges :=
  match merge_sort span_le (intervals r) with
  | [] => mkRanges (intervals r) (hosts r) []
  | first :: ordered =>
      let merged := merge_spans first ordered in
      mkRanges merged (hosts r) (map fst merged)
  end.

(** [bisect.bisect_right(a, x)]: the interval [lo..hi] shrinks at every turn. *)
Fixpoint bisect_loop (fuel : nat) (a : list Z) (x : Z) (lo hi : nat) : nat :=
  match fuel with
  | O => lo
  | S fuel =>
      if (lo <? hi)%nat then
        let mid := ((lo + hi) / 2)%nat in
        if x <? default 0 (a !! mid) then bisect_loop fuel a x lo mid else bisect_loop fuel a x (S mid) hi
      else lo
  end.
Definition bisect_right (a : list Z) (x : Z) : nat := bisect_loop (length a) a x 0 (length a).

(** The object [contains] works on: spans appended behind its back are merged first. *)
Definition settled (r : WritableSetRanges) : WritableSetRanges :=
  if bool_decide (length (_starts r) = length (intervals r)) then r else finalize r.

Definition ranges_contain (r : WritableSetRanges) (ip_int : Z) : bool :=
  if bool_decide (ip_int ∈ hosts r) then true
  else if bool_decide (intervals r = []) then false
  else
    let r := settled r in
    match bisect_right (_starts r) ip_int with
    | O => false
    | S idx => match intervals r !! idx with Some (s, e) => (s <=? ip_int) && (ip_int <=? e) | None => false end
    end.

(** The addresses of an explicit set; [true] when the cap stopped it. *)
Fixpoint add_hosts (explicit : list addr_text) (hosts : gset Z) : gset Z * bool :=
  match explicit with
  | [] => (hosts, false)
  | t :: explicit =>
      if _MAX_EXPLICIT_HOSTS <=? Z.of_nat (size hosts) then (hosts, true)
      else add_hosts explicit (match _pack_ip t with Some v => {[v]} ∪ hosts | None => hosts end)
  end.

Definition ordered_span (s e : Z) : Z * Z := if e <? s then (e, s) else (s, e).

Section gate.
Context (u : Permissions.user) (action : str).

Fixpoint load_rows (fetched : list AddressSet) (r : WritableSetRanges) : WritableSetRanges :=
  match fetched with
  | [] => r
  | row :: fetched =>
      if negb (Permissions.user_has_permission u action "address_set" (Some (a_id row))) then load_rows fetched r
      else
        match bool_decide (range_kind row = "contiguous"), start_address row, end_address row with
        | true, Some s, Some e => load_rows fetched (mkRanges (intervals r ++ [ordered_span (ip s) (ip e)]) (hosts r) (_starts r))
        | _, _, _ =>
            let '(hs, overflowed) := add_hosts (explicit_addresses row) (hosts r) in
            let r := mkRanges (intervals r) hs (_starts r) in
            if overflowed : bool then r else load_rows fetched r
        end
  end.

Definition load_writable_set_ranges (sets : list AddressSet) (subnet_id : str) : WritableSetRanges :=
  let fetched := take (S _MAX_SETS_PER_SUBNET) (List.filter (λ r, bool_decide (a_subnet r = subnet_id)) sets) in
  let fetched := if (_MAX_SETS_PER_SUBNET <? length fetched)%nat then take _MAX_SETS_PER_SUBNET fetched else fetched in
  finalize (load_rows fetched (mkRanges [] ∅ [])).
End gate.

Definition user_can_write_ip (ip_int : Z) (subnet_writable : bool) (set_ranges : WritableSetRanges) : bool :=
  subnet_writable || ranges_contain set_ranges ip_int.

(** ** Lemmas: spans *)
Definition in_span (x : Z) (i : Z * Z) : Prop := i.1 ≤ x ≤ i.2.
Definition spanned (x : Z) (l : list (Z * Z)) : Prop := ∃ i, i ∈ l ∧ in_span x i.

(** Spans in order, with a gap after each. *)
Fixpoint separated (l : list (Z * Z)) : Prop :=
  match l with
  | [] => True
  | i :: l => i.1 ≤ i.2 ∧ (∀ j, j ∈ l → i.2 < j.1) ∧ separated l
  end.

Lemma spanned_cons x i l : spanned x (i :: l) ↔ in_span x i ∨ spanned x l.
Proof. unfold spanned. setoid_rewrite elem_of_cons. naive_solver. Qed.

Lemma merge_spans_spec l : ∀ last, last.1 ≤ last.2 → Forall (λ i, last.1 ≤ i.1 ∧ i.1 ≤ i.2) l → StronglySorted span_le l →
  (∀ x, spanned x (merge_spans last l) ↔ in_span x last ∨ spanned x l)
  ∧ separated (merge_spans last l) ∧ ∀ j, j ∈ merge_spans last l → last.1 ≤ j.1.
Proof.
  induction l as [|[s e] l IH]; intros [ls le] Hl Hall Hs; cbn [merge_spans fst snd] in *.
  - split_and!; [intros x; by rewrite spanned_cons| |].
    + split_and!; [done|by intros j ?%not_elem_of_nil|done].
    + by intros j ->%list_elem_of_singleton.
  - apply Forall_cons in Hall as [[H1 H2] Hall]. cbn in H1, H2. apply StronglySorted_inv in Hs as [Hs Hhd].
    assert (Hge : Forall (λ i : Z * Z, s ≤ i.1 ∧ i.1 ≤ i.2) l).
    { rewrite Forall_forall in Hall, Hhd |- *. intros i Hi. destruct (Hall i Hi) as [_ ?]. split; [|done].
      destruct (Hhd i Hi) as [Hlt|[Heq _]]; cbn in *; lia. }
    destruct (Z.leb_spec s (le + 1)) as [Hle|Hgt].
    + set (m := if le <? e then e else le). assert (Hm : m = Z.max le e) by (unfold m; destruct (Z.ltb_spec le e); lia).
      destruct (IH (ls, m)) as (C & Sp & Lo); [cbn; lia|cbn; eapply Forall_impl; [exact Hge|]; cbn; lia|done|].
      split_and!; [|done|done]. intros x. rewrite C, spanned_cons. unfold in_span. cbn. rewrite Hm.
      split; [intros [?|?]|intros [?|[?|?]]]; [|tauto|left; lia|left; lia|tauto].
      destruct (decide (x ≤ le)); [left; lia|right; left; lia].
    + destruct (IH (s, e)) as (C & Sp & Lo); [done|done|done|]. split_and!.
      * intros x. by rewrite !spanned_cons, C.
      * cbn. split_and!; [done| |done]. intros j Hj. specialize (Lo j Hj). cbn in Lo. lia.
      * intros j [->|Hj]%elem_of_cons; [done|]. specialize (Lo j Hj). cbn in *. lia.
Qed.

#[local] Instance span_le_trans : Transitive span_le.
Proof. intros a b c. unfold span_le. lia. Qed.
#[local] Instance span_le_total : Total span_le.
Proof. intros a b. unfold span_le. lia. Qed.

Lemma finalize_spec r : Forall (λ i, i.1 ≤ i.2) (intervals r) →
  (∀ x, spanned x (intervals (finalize r)) ↔ spanned x (intervals r))
  ∧ separated (intervals (finalize r)) ∧ _starts (finalize r) = map fst (intervals (finalize r)) ∧ hosts (finalize r) = hosts r.
Proof.
  intros Hr. unfold finalize. pose proof (merge_sort_Permutation span_le (intervals r)) as Hp.
  pose proof (StronglySorted_merge_sort span_le (intervals r)) as Hs.
  destruct (merge_sort span_le (intervals r)) as [|f l] eqn:E.
  - apply Permutation_nil_l in Hp. cbn. rewrite <- Hp. split_and!; done.
  - assert (Hw : Forall (λ i, i.1 ≤ i.2) (f :: l)) by by rewrite Hp.
    apply Forall_cons in Hw as [Hf Hl]. apply StronglySorted_inv in Hs as [Hs Hh].
    destruct (merge_spans_spec l f Hf) as (C & Sp & _); [|done|].
    { rewrite Forall_forall in Hl, Hh |- *. intros i Hi. split; [|by apply Hl]. destruct (Hh i Hi) as [?|[? _]]; lia. }
    cbn. split_and!; try done. intros x. rewrite C, <- spanned_cons. unfold spanned. by setoid_rewrite Hp.
Qed.

(** ** Lemmas: the binary search *)
Lemma bisect_loop_spec a x : (∀ i j, (i ≤ j < length a)%nat → default 0 (a !! i) ≤ default 0 (a !! j)) →
  ∀ fuel lo hi, (lo ≤ hi ≤ length a)%nat → (hi - lo ≤ fuel)%nat →
  (∀ i, (i < lo)%nat → default 0 (a !! i) ≤ x) → (∀ i, (hi ≤ i < length a)%nat → x < default 0 (a !! i)) →
  let k := bisect_loop fuel a x lo hi in
  (k ≤ length a)%nat ∧ (∀ i, (i < k)%nat → default 0 (a !! i) ≤ x) ∧ ∀ i, (k ≤ i < length a)%nat → x < default 0 (a !! i).
Proof.
  intros Hs fuel. induction fuel as [|fuel IH]; intros lo hi Hb Hf Hlo Hhi; cbv zeta; cbn [bisect_loop].
  - split_and!; [lia|done|]. intros i Hi. apply Hhi. lia.
  - destruct (Nat.ltb_spec lo hi) as [Hlt|Hge].
    + assert (Hmid : (lo ≤ (lo + hi) / 2 < hi)%nat) by (split; [apply Nat.div_le_lower_bound; lia|apply Nat.Div0.div_lt_upper_bound; lia]).
      set (mid := ((lo + hi) / 2)%nat) in *. clearbody mid. destruct (Z.ltb_spec x (default 0 (a !! mid))) as [Hx|Hx].
      * apply IH; [lia|lia|done|]. intros i Hi. pose proof (Hs mid i ltac:(lia)). lia.
      * apply IH; [lia|lia| |done]. intros i Hi. pose proof (Hs i mid ltac:(lia)). lia.
    + split_and!; [lia|done|]. intros i Hi. apply Hhi. lia.
Qed.

Lemma separated_lookup l : separated l → ∀ i j a b, l !! i = Some a → l !! j = Some b → (i < j)%nat → a.2 < b.1.
Proof.
  induction l as [|c l IH]; intros Hl i j a b Ha Hb Hij; [done|]. destruct Hl as (_ & Hc & Hl).
  destruct j as [|j]; [lia|]. destruct i as [|i].
  - injection Ha as <-. apply Hc. by eapply list_elem_of_lookup_2.
  - apply (IH Hl i j a b Ha Hb). lia.
Qed.

Lemma separated_proper l : separated l → Forall (λ i, i.1 ≤ i.2) l.
Proof. induction l as [|i l IH]; constructor; [apply H|apply IH, H]. Qed.

Lemma search_spec l x : separated l →
  match bisect_right (map fst l) x with
  | O => false
  | S idx => match l !! idx with Some (s, e) => (s <=? x) && (x <=? e) | None => false end
  end = true ↔ spanned x l.
Proof.
  intros Hl. pose proof (separated_proper l Hl) as Hp. pose proof (separated_lookup l Hl) as Hsep. rewrite Forall_lookup in Hp.
  assert (Hd : ∀ i a, l !! i = Some a → default 0 (map fst l !! i) = a.1) by (intros i a E; by rewrite list_lookup_fmap, E).
  assert (Hlen : ∀ i, (i < length l)%nat → ∃ a, l !! i = Some a) by (intros i Hi; by apply lookup_lt_is_Some in Hi as [a ?]; exists a).
  destruct (bisect_loop_spec (map fst l) x) with (fuel := length (map fst l)) (lo := 0%nat) (hi := length (map fst l)) as (K1 & K2 & K3);
    [|lia|lia|lia|lia|].
  { rewrite length_map. intros i j Hij. destruct (Hlen i) as [a Ea]; [lia|]. destruct (Hlen j) as [b Eb]; [lia|]. rewrite (Hd i a Ea), (Hd j b Eb).
    destruct (decide (i = j)) as [->|]; [rewrite Ea in Eb; injection Eb as ->; lia|].
    pose proof (Hsep i j a b Ea Eb ltac:(lia)). pose proof (Hp i a Ea). lia. }
  unfold bisect_right. set (k := bisect_loop _ _ _ _ _) in *. clearbody k. rewrite length_map in *. split.
  - destruct k as [|k]; [done|]. destruct (l !! k) as [[s e]|] eqn:E; [|done]. intros H. bool_hyps. exists (s, e).
    split; [by eapply list_elem_of_lookup_2|]. unfold in_span. cbn. lia.
  - intros (i & [j Hj]%list_elem_of_lookup & Hx). unfold in_span in Hx. pose proof (lookup_lt_Some _ _ _ Hj).
    assert (Hjk : (j < k)%nat). { destruct (decide (j < k)%nat); [done|]. pose proof (K3 j ltac:(lia)) as Hgt. rewrite (Hd j i Hj) in Hgt. lia. }
    destruct k as [|k]; [lia|]. destruct (decide (j = k)) as [->|Hne]; [rewrite Hj; destruct i; cbn in *; apply andb_true_iff; lia|].
    destruct (Hlen k) as [b Eb]; [lia|]. pose proof (Hsep j k i b Hj Eb ltac:(lia)). pose proof (K2 k ltac:(lia)) as Hle.
    rewrite (Hd k b Eb) in Hle. lia.
Qed.
(** ** Lemmas: the gate *)
Definition holds_in (r : WritableSetRanges) (x : Z) : Prop := x ∈ hosts r ∨ spanned x (intervals r).

Lemma finalized_contains r x : Forall (λ i, i.1 ≤ i.2) (intervals r) → ranges_contain (finalize r) x = true ↔ holds_in r x.
Proof.
  intros Hp. destruct (finalize_spec r Hp) as (C & Sp & St & Hh). 
  assert (Hset : settled (finalize r) = finalize r) by (unfold settled; rewrite St, length_map, bool_decide_true; done).
  unfold ranges_contain, holds_in. rewrite Hset, <- (C x), <- Hh. case_bool_decide as Hx; [tauto|].
  case_bool_decide as Hn.
  - rewrite Hn. split; [done|]. intros [?|(i & ?%not_elem_of_nil & _)]; done.
  - rewrite St, (search_spec _ x Sp). tauto.
Qed.

Lemma finalized_any r : Forall (λ i, i.1 ≤ i.2) (intervals r) → any_range (finalize r) = true ↔ ∃ x, holds_in r x.
Proof.
  intros Hp. destruct (finalize_spec r Hp) as (C & Sp & _ & Hh). unfold any_range, holds_in. rewrite Hh.
  setoid_rewrite <- C. rewrite orb_true_iff, !negb_true_iff, !bool_decide_eq_false. apply separated_proper in Sp. split.
  - intros [H|H].
    + destruct (intervals (finalize r)) as [|i l]; [done|]. apply Forall_cons in Sp as [Hi _]. exists i.1. right. exists i.
      split; [by left|]. unfold in_span. lia.
    + apply set_choose_L in H as [x Hx]. exists x. by left.
  - intros (x & [Hx|(i & Hi & _)]); [right; set_solver|left]. intros E. rewrite E in Hi. by apply not_elem_of_nil in Hi.
Qed.

(** The addresses a set covers. *)
Definition covers (row : AddressSet) (x : Z) : Prop :=
  match bool_decide (range_kind row = "contiguous"), start_address row, end_address row with
  | true, Some s, Some e => in_span x (ordered_span (ip s) (ip e))
  | _, _, _ => ∃ t, t ∈ explicit_addresses row ∧ _pack_ip t = Some x
  end.

Lemma ordered_span_proper s e : (ordered_span s e).1 ≤ (ordered_span s e).2.
Proof. unfold ordered_span. destruct (Z.ltb_spec e s); cbn; lia. Qed.

Lemma add_hosts_sound l : ∀ h x, x ∈ (add_hosts l h).1 → x ∈ h ∨ ∃ t, t ∈ l ∧ _pack_ip t = Some x.
Proof.
  induction l as [|t l IH]; intros h x; cbn [add_hosts]; [by left|]. destruct (_ <=? _); [by left|].
  intros [Hx|(t' & Ht & E)]%IH; [|right; exists t'; split; [by right|done]].
  destruct (_pack_ip t) as [v|] eqn:E; [|by left]. apply elem_of_union in Hx as [->%elem_of_singleton|Hx]; [|by left].
  right. exists t. split; [by left|done].
Qed.

Lemma add_hosts_complete l : ∀ h, Z.of_nat (size h + length l) ≤ _MAX_EXPLICIT_HOSTS →
  (add_hosts l h).2 = false ∧ (size (add_hosts l h).1 ≤ size h + length l)%nat
  ∧ ∀ x, x ∈ h ∨ (∃ t, t ∈ l ∧ _pack_ip t = Some x) → x ∈ (add_hosts l h).1.
Proof.
  induction l as [|t l IH]; intros h Hh; cbn [add_hosts length] in *.
  - split_and!; [done|cbn; lia|]. intros x [?|(t & ?%not_elem_of_nil & _)]; done.
  - rewrite (proj2 (Z.leb_gt _ _)) by lia. set (h' := match _pack_ip t with Some v => {[v]} ∪ h | None => h end).
    assert (Hs : (size h' ≤ S (size h))%nat).
    { unfold h'. destruct (_pack_ip t); [|lia]. rewrite size_union_alt, size_singleton.
      assert (size (h ∖ {[z]}) ≤ size h)%nat by (apply subseteq_size; set_solver). lia. }
    destruct (IH h') as (O & Sz & C); [lia|]. split_and!; [done|lia|]. intros x Hx. apply C.
    destruct Hx as [Hx|(t' & [->|Ht]%elem_of_cons & E)]; [left| |right; by exists t'].
    + unfold h'. destruct (_pack_ip t); set_solver.
    + left. unfold h'. rewrite E. set_solver.
Qed.

Section gate_lemmas.
Context (u : Permissions.user) (action : str).
Let allowed (row : AddressSet) : bool := Permissions.user_has_permission u action "address_set" (Some (a_id row)).

Lemma load_rows_proper l : ∀ r, Forall (λ i, i.1 ≤ i.2) (intervals r) → Forall (λ i, i.1 ≤ i.2) (intervals (load_rows u action l r)).
Proof.
  induction l as [|row l IH]; intros r Hr; cbn [load_rows]; [done|]. destruct (negb _); [by apply IH|].
  assert (He : Forall (λ i, i.1 ≤ i.2) (intervals (let '(hs, overflowed) := add_hosts (explicit_addresses row) (hosts r) in
    let r := mkRanges (intervals r) hs (_starts r) in if overflowed : bool then r else load_rows u action l r))).
  { destruct (add_hosts _ _) as [hs []]; [done|by apply IH]. }
  destruct (bool_decide _), (start_address row), (end_address row); try exact He.
  apply IH. cbn. apply Forall_app. split; [done|]. constructor; [apply ordered_span_proper|done].
Qed.

Lemma load_rows_sound l x : ∀ r, holds_in (load_rows u action l r) x →
  holds_in r x ∨ ∃ row, row ∈ l ∧ allowed row = true ∧ covers row x.
Proof.
  induction l as [|row l IH]; intros r H; [by left|]. cbn [load_rows] in H.
  assert (Hlater : ∀ r', holds_in (load_rows u action l r') x → holds_in r' x ∨ ∃ row', row' ∈ row :: l ∧ allowed row' = true ∧ covers row' x).
  { intros r' [?|(row' & ? & ?)]%IH; [by left|right]. exists row'. split; [by right|done]. }
  destruct (negb _) eqn:Ea; [by apply Hlater|]. apply negb_false_iff in Ea. change (allowed row = true) in Ea.
  assert (He : holds_in (let '(hs, overflowed) := add_hosts (explicit_addresses row) (hosts r) in
    let r := mkRanges (intervals r) hs (_starts r) in if overflowed : bool then r else load_rows u action l r) x →
    (∀ t, t ∈ explicit_addresses row → _pack_ip t = Some x → covers row x) →
    holds_in r x ∨ ∃ row', row' ∈ row :: l ∧ allowed row' = true ∧ covers row' x).
  { intros H' Hc. pose proof (add_hosts_sound (explicit_addresses row) (hosts r) x) as Hs.
    destruct (add_hosts _ _) as [hs o]. cbn in Hs.
    assert (Hone : holds_in (mkRanges (intervals r) hs (_starts r)) x → holds_in r x ∨ ∃ row', row' ∈ row :: l ∧ allowed row' = true ∧ covers row' x).
    { intros [Hh|Hi]; [|left; by right]. destruct (Hs Hh) as [?|(t & Ht & E)]; [left; by left|right]. exists row. split_and!; [by left|done|by eapply Hc]. }
    destruct o; [by apply Hone|]. apply Hlater in H' as [H'|H']; [by apply Hone|by right]. }
  unfold covers in He at 1. destruct (bool_decide _) eqn:Ek; [destruct (start_address row) as [s|] eqn:Es; [destruct (end_address row) as [e|] eqn:Ee|]|].
  - apply Hlater in H as [[Hh|(i & Hi & Hx)]|H]; [left; by left| |by right]. cbn in Hi.
    apply elem_of_app in Hi as [Hi| ->%list_elem_of_singleton]; [left; right; by exists i|right].
    exists row. split_and!; [by left|done|]. unfold covers. by rewrite Ek, Es, Ee.
  - apply He in H; [done|]. intros t Ht E. by exists t.
  - apply He in H; [done|]. intros t Ht E. by exists t.
  - apply He in H; [done|]. intros t Ht E. destruct (start_address row), (end_address row); by exists t.
Qed.

Definition explicit_total (l : list AddressSet) : nat := sum_list_with (λ row, length (explicit_addresses row)) l.

Lemma load_rows_complete l x : ∀ r, Z.of_nat (size (hosts r) + explicit_total l) ≤ _MAX_EXPLICIT_HOSTS →
  holds_in r x ∨ (∃ row, row ∈ l ∧ allowed row = true ∧ covers row x) → holds_in (load_rows u action l r) x.
Proof.
  induction l as [|row l IH]; intros r Hm H; cbn [load_rows explicit_total sum_list_with] in *.
  { destruct H as [?|(row & ?%not_elem_of_nil & _)]; done. }
  assert (Hcase : holds_in r x ∨ allowed row = true ∧ covers row x ∨ ∃ row', row' ∈ l ∧ allowed row' = true ∧ covers row' x).
  { destruct H as [?|(row' & [->|?]%elem_of_cons & ? & ?)]; [by left|by right; left|]. right. right. by exists row'. }
  clear H. fold (explicit_total l) in Hm. destruct (negb _) eqn:Ea.
  { apply negb_true_iff in Ea. change (allowed row = false) in Ea. apply IH; [lia|]. destruct Hcase as [?|[[? _]|?]]; [by left|congruence|by right]. }
  clear Ea. destruct (add_hosts_complete (explicit_addresses row) (hosts r)) as (O & Sz & C); [lia|].
  assert (He : (covers row x → ∃ t, t ∈ explicit_addresses row ∧ _pack_ip t = Some x) →
    holds_in (let '(hs, overflowed) := add_hosts (explicit_addresses row) (hosts r) in
      let r := mkRanges (intervals r) hs (_starts r) in if overflowed : bool then r else load_rows u action l r) x).
  { intros Hc. destruct (add_hosts _ _) as [hs o]. cbn in O, Sz, C. subst o. apply IH; cbn [hosts]; [lia|].
    destruct Hcase as [[?|?]|[[_ ?]|?]]; [left; left; apply C; by left|left; by right|left; left; apply C; right; by apply Hc|by right]. }
  unfold covers in Hcase at 1, He. destruct (bool_decide _) eqn:Ek; [destruct (start_address row) as [s|] eqn:Es; [destruct (end_address row) as [e|] eqn:Ee|]|].
  - apply IH; cbn [hosts]; [lia|]. destruct Hcase as [[?|(i & ? & ?)]|[[_ ?]|?]]; [left; by left| | |by right]; left; right; cbn [intervals].
    + exists i. split; [apply elem_of_app; by left|done].
    + eexists. split; [apply elem_of_app; right; by left|done].
  - by apply He.
  - by apply He.
  - apply He. by destruct (start_address row), (end_address row).
Qed.
End gate_lemmas.

Lemma load_contains u action sets sid x :
  ranges_contain (load_writable_set_ranges u action sets sid) x = true →
  ∃ row, row ∈ sets ∧ a_subnet row = sid ∧ Permissions.user_has_permission u action "address_set" (Some (a_id row)) = true ∧ covers row x.
Proof.
  unfold load_writable_set_ranges. set (fetched := if (_ <? _)%nat then _ else _). intros H.
  apply finalized_contains in H; [|apply load_rows_proper; constructor].
  apply load_rows_sound in H as [[?%not_elem_of_empty|(i & ?%not_elem_of_nil & _)]|(row & Hrow & Ha & Hc)]; [done..|].
  assert (Hf : row ∈ List.filter (λ r, bool_decide (a_subnet r = sid)) sets).
  { unfold fetched in Hrow. destruct (_ <? _)%nat; repeat (apply subseteq_take in Hrow); done. }
  apply elem_filter in Hf as [Hin E]. apply bool_decide_eq_true in E. by exists row.
Qed.

Lemma load_any u action sets sid : any_range (load_writable_set_ranges u action sets sid) = true
  ↔ ∃ x, ranges_contain (load_writable_set_ranges u action sets sid) x = true.
Proof.
  unfold load_writable_set_ranges. rewrite finalized_any by (apply load_rows_proper; constructor).
  by setoid_rewrite finalized_contains; [|apply load_rows_proper; constructor].
Qed.

(** The gate answers what the table says: an address may be written by
    delegation only if a set of the subnet that the caller holds covers it;
    up to the caps (4096 sets, a million explicit addresses) every address such
    a set covers may be written; and the ranges are truthy exactly when some
    address may be. *)
Theorem gate_exact (u : Permissions.user) (action : str) (sets : list AddressSet) (sid : str) :
  let mine row := row ∈ sets ∧ a_subnet row = sid ∧ Permissions.user_has_permission u action "address_set" (Some (a_id row)) = true in
  let r := load_writable_set_ranges u action sets sid in
  let here := List.filter (λ r, bool_decide (a_subnet r = sid)) sets in
  (∀ x, ranges_contain r x = true → ∃ row, mine row ∧ covers row x)
  ∧ ((length here ≤ _MAX_SETS_PER_SUBNET)%nat → Z.of_nat (explicit_total here) ≤ _MAX_EXPLICIT_HOSTS →
      ∀ x row, mine row → covers row x → ranges_contain r x = true)
  ∧ (any_range r = true ↔ ∃ x, ranges_contain r x = true).
Proof.
  cbv zeta. split_and!.
  - intros x (row & ? & ? & ? & ?)%load_contains. by exists row.
  - intros Hl Ht x row (Hrow & Es & Ha) Hc. unfold load_writable_set_ranges.
    assert (Hmin : (length (take (S _MAX_SETS_PER_SUBNET) (List.filter (λ r, bool_decide (a_subnet r = sid)) sets)) ≤ _MAX_SETS_PER_SUBNET)%nat)
      by (rewrite length_take; lia).
    rewrite (proj2 (Nat.ltb_ge _ _) Hmin). clear Hmin. rewrite take_ge by lia.
    apply finalized_contains; [apply load_rows_proper; constructor|]. apply load_rows_complete; [cbn [hosts]; rewrite size_empty; exact Ht|].
    right. exists row. split_and!; [|done|done]. apply elem_filter. split; [done|]. by apply bool_decide_eq_true.
  - apply load_any.
Qed.
(** ** Any sequence of requests *)
Inductive request :=
| Create (u : Permissions.user) (body : AddressSetCreate) (id : str)
| Update (u : Permissions.user) (set_id : str) (data : AddressSetUpdate)
| Delete (u : Permissions.user) (set_id : str).

Definition asker (q : request) : Permissions.user := match q with Create u _ _ | Update u _ _ | Delete u _ => u end.

Section safe.
Context (pg_inet : addr_text → option IPAddr) (Hpg : ∀ t a b, ip_address t = Some a → pg_inet t = Some b → b = a).
Context (db : Db) (Hok : tree_ok db).

(** A refused request is rolled back. *)
Definition serve (sets : list AddressSet) (q : request) : list AddressSet :=
  match match q with
        | Create u body id => create_address_set pg_inet db u sets body id
        | Update u set_id data => update_address_set pg_inet db u sets set_id data
        | Delete u set_id => delete_address_set u sets set_id
        end with
  | Ok sets => sets
  | Err _ => sets
  end.
Definition serve_all (sets : list AddressSet) (qs : list request) : list AddressSet := foldl serve sets qs.

Definition in_shape (net : IPNetwork) (r : AddressSet) : Prop :=
  (range_kind r = "contiguous" ∧ ∃ s e, start_address r = Some s ∧ end_address r = Some e
     ∧ mem net s ∧ mem net e ∧ ip s ≤ ip e)
  ∨ (range_kind r = "explicit" ∧ ∀ t, t ∈ explicit_addresses r → ∃ a, ip_address t = Some a ∧ mem net a).

(** The row lies in its subnet. *)
Definition row_ok (r : AddressSet) : Prop :=
  ∃ s, s ∈ live_subnets db ∧ s_id s = a_subnet r ∧ in_shape (s_network s) r.

Lemma in_shape_covers net r x : in_shape net r → covers r x → mem net (mkAddr (ver net) x).
Proof.
  unfold covers. intros [(E & s & e & -> & -> & [Hv Hs] & [_ He] & Hle)|(E & Hall)]; rewrite E.
  - rewrite bool_decide_true by done. unfold in_span, ordered_span. rewrite (proj2 (Z.ltb_ge _ _) Hle). cbn. intros Hx.
    split; cbn; [done|lia].
  - rewrite bool_decide_false by done. intros (t & Ht & Ep). destruct (Hall t Ht) as (a & Ea & Hv & Hm).
    unfold _pack_ip in Ep. rewrite Ea in Ep. injection Ep as <-. destruct a. cbn in *. subst. split; [done|exact Hm].
Qed.

Lemma get_subnet_live id s : _get_subnet db id = Some s → s ∈ live_subnets db ∧ s_id s = id.
Proof. intros [H1 H2]%List.find_some. apply bool_decide_eq_true in H2. by rewrite list_elem_of_In. Qed.

Lemma all_within_Ok net l u : wf net → all_within net l = Ok u → ∀ t, t ∈ l → ∃ a, ip_address t = Some a ∧ mem net a.
Proof.
  intros Hn. induction l as [|t l IH]; intros H t' Ht; [by apply not_elem_of_nil in Ht|]. cbn [all_within] in H.
  apply bind_Ok in H as (a & Ha & H). destruct (ip_address t) as [b|] eqn:E; [|done]. injection Ha as ->.
  apply bind_Ok in H as (_ & Hc%raise_if_Ok%negb_false_iff & H). apply contains_mem in Hc; [|done].
  apply elem_of_cons in Ht as [->|Ht]; [by exists a|by apply IH].
Qed.

(** What the checks on a range establish, and what is written of it. *)
Lemma checked_shape subnet_id kind st en ex u : 
  refuse_shape (validate_address_set_shape kind st en ex) = Ok u → _validate_within_subnet db subnet_id kind st en ex = Ok u →
  ∃ s, s ∈ live_subnets db ∧ s_id s = subnet_id ∧
    ((kind = Some ("contiguous" : str) ∧ ∃ ts te a b, st = Some ts ∧ en = Some te ∧ ip_address ts = Some a ∧ ip_address te = Some b
        ∧ mem (s_network s) a ∧ mem (s_network s) b ∧ ip a ≤ ip b)
     ∨ (kind = Some ("explicit" : str) ∧ ∃ l, ex = Some l ∧ ∀ t, t ∈ l → ∃ a, ip_address t = Some a ∧ mem (s_network s) a)).
Proof.
  intros Hshape Hin. unfold _validate_within_subnet in Hin. destruct (_get_subnet db subnet_id) as [s|] eqn:Es; [|done].
  apply get_subnet_live in Es as [Hs Eid]. exists s. split_and!; [done|done|].
  pose proof (all_within_Ok _ _ _ (wf_live_subnet db Hok s Hs) Hin) as Hall. clear Hin. unfold refuse_shape in Hshape.
  destruct (validate_address_set_shape kind st en ex) eqn:E; [done|]. unfold validate_address_set_shape in E.
  destruct (negb _) eqn:Ek; [done|]. apply negb_false_iff, orb_true_iff in Ek. rewrite !bool_decide_eq_true in Ek.
  case_bool_decide as Ec.
  - left. split; [done|]. destruct st as [ts|]; [|done]. destruct en as [te|]; [|done].
    destruct (ip_address ts) as [a|] eqn:Ea; [|done]. destruct (ip_address te) as [b|] eqn:Eb; [|done].
    destruct (negb _); [done|]. destruct (Z.ltb_spec (ip b) (ip a)); [done|]. exists ts, te, a, b.
    destruct (Hall ts) as (a' & Ea' & ?); [by left|]. destruct (Hall te) as (b' & Eb' & ?); [by right; left|].
    rewrite Ea in Ea'. rewrite Eb in Eb'. injection Ea' as ->. injection Eb' as ->. split_and!; done.
  - right. destruct Ek as [?| ->]; [done|]. split; [done|]. destruct ex as [[|t l]|]; [done| |done]. exists (t :: l). split; [done|]. exact Hall.
Qed.

Lemma written_bound_is stored field res t a : written_bound pg_inet stored field = Ok res →
  default (Canon <$> stored) field = Some t → ip_address t = Some a → res = Some a.
Proof.
  unfold written_bound, to_inet. destruct field as [[f|]|]; cbn; [|done|].
  - destruct (pg_inet f) as [b|] eqn:E; [|done]. intros [= <-] [= ->] Ea. by rewrite (Hpg t a b).
  - intros [= <-] Et Ea. destruct stored; [|done]. cbn in Et. injection Et as <-. cbn in Ea. by injection Ea as ->.
Qed.

Lemma written_row_shape row data row' : written_row pg_inet row data = Ok row' →
  a_id row' = a_id row ∧ a_subnet row' = a_subnet row ∧ merged_kind row data = Some (range_kind row')
  ∧ (range_kind row' ≠ "explicit" → written_bound pg_inet (start_address row) (us_start data) = Ok (start_address row')
      ∧ written_bound pg_inet (end_address row) (us_end data) = Ok (end_address row'))
  ∧ (range_kind row' = "contiguous" → explicit_addresses row' = [])
  ∧ (range_kind row' ≠ "contiguous" → merged_explicit row data = Some (explicit_addresses row')).
Proof.
  intros H. unfold written_row in H. apply bind_Ok in H as (kind & Hk & H). apply bind_Ok in H as (name & _ & H).
  apply bind_Ok in H as (descr & _ & H). apply bind_Ok in H as (s & Hs & H). apply bind_Ok in H as (e & He & H).
  apply bind_Ok in H as (ex & Hex & H). injection H as <-. cbn. split_and!; try done.
  - unfold not_null in Hk. destruct (merged_kind row data); [by injection Hk as ->|done].
  - intros Hne. by rewrite bool_decide_false in Hs, He by done.
  - intros E. rewrite bool_decide_true in Hex by done. by injection Hex.
  - intros Hne. rewrite bool_decide_false in Hex by done. unfold not_null in Hex. destruct (merged_explicit row data); [by injection Hex as ->|done].
Qed.

Lemma written_row_ok row data row' u : row_ok row → check_range db u row data = Ok tt → written_row pg_inet row data = Ok row' → row_ok row'.
Proof.
  intros (s & Hs & Es & Hsh) Hc Hw. destruct (written_row_shape _ _ _ Hw) as (_ & Esub & Ek & Hb & _ & Hx). unfold check_range in Hc.
  assert (Hin : ∃ s', s' ∈ live_subnets db ∧ s_id s' = a_subnet row ∧
    ((range_kind row' = "contiguous" ∧ ∃ ts te a b, merged_start row data = Some ts ∧ merged_end row data = Some te ∧ ip_address ts = Some a
        ∧ ip_address te = Some b ∧ mem (s_network s') a ∧ mem (s_network s') b ∧ ip a ≤ ip b)
     ∨ (range_kind row' = "explicit" ∧ ∃ l, merged_explicit row data = Some l ∧ ∀ t, t ∈ l → ∃ a, ip_address t = Some a ∧ mem (s_network s') a))).
  { destruct (range_touched data) eqn:Et.
    - apply bind_Ok in Hc as ([] & _ & Hc). apply bind_Ok in Hc as ([] & H1 & H2).
      destruct (checked_shape _ _ _ _ _ _ H1 H2) as (s' & Hs' & Es' & [[E R]|[E R]]); exists s'; (split_and!; [done|done|]); rewrite Ek in E;
        injection E as E; [left|right]; done.
    - unfold range_touched in Et. rewrite !orb_false_iff, !bool_decide_eq_false, <- !eq_None_not_Some in Et. destruct Et as (((T1 & T2) & T3) & T4).
      unfold merged_kind, merged_start, merged_end, merged_explicit in *. rewrite T1 in Ek. rewrite T2, T3, T4. cbn in Ek |- *. injection Ek as Ek.
      exists s. split_and!; [done|done|]. rewrite <- Ek. destruct Hsh as [(E & a & b & -> & -> & ?)|(E & ?)]; [left|right]; (split; [done|]).
      + exists (Canon a), (Canon b), a, b. split_and!; try done; by destruct_and?.
      + eexists. split; [done|]. done. }
  destruct Hin as (s' & Hs' & Es' & [(E & ts & te & a & b & H1 & H2 & H3 & H4 & H5 & H6 & H7)|(E & l & H1 & H2)]); exists s'; (split_and!; [done|congruence|]).
  - left. split; [done|]. destruct Hb as [Hb1 Hb2]; [by rewrite E|]. exists a, b.
    split_and!; [by eapply written_bound_is|by eapply written_bound_is|done..].
  - right. split; [done|]. rewrite Hx in H1 by by rewrite E. by injection H1 as ->.
Qed.

(** An update that does not change the range covers nothing new. *)
Lemma unchanged_covers row data row' x : range_changed row data = false → written_row pg_inet row data = Ok row' →
  covers row' x → covers row x.
Proof.
  intros Hc Hw. destruct (written_row_shape _ _ _ Hw) as (_ & _ & Ek & Hb & Hx0 & Hx). unfold range_changed in Hc.
  rewrite !orb_false_iff, !negb_false_iff, !bool_decide_eq_true in Hc. destruct Hc as (((C1 & C2) & C3) & C4).
  rewrite Ek in C1. injection C1 as Ekind.
  assert (Hsame : ∀ stored field res, default (Canon <$> stored) field = Canon <$> stored → written_bound pg_inet stored field = Ok res → res = stored).
  { intros stored field res E Hr. destruct stored as [a|]; cbn in E.
    - by eapply (written_bound_is (Some a) field res (Canon a) a).
    - unfold written_bound, to_inet in Hr. destruct field as [[f|]|]; [done|by injection Hr|by injection Hr]. }
  unfold covers. rewrite Ekind. destruct (decide (range_kind row = "contiguous")) as [E|E].
  - rewrite bool_decide_true by done. rewrite Ekind, E in Hb, Hx0. destruct Hb as [Hb1 Hb2]; [done|].
    apply Hsame in Hb1; [|done]. apply Hsame in Hb2; [|done]. rewrite Hb1, Hb2, Hx0 by done.
    destruct (start_address row), (end_address row); try done; by intros (t & ?%not_elem_of_nil & _).
  - rewrite bool_decide_false by done. rewrite Hx in C4 by by rewrite Ekind. by injection C4 as ->.
Qed.

(** What a request of [u] may turn a table of proper rows into. *)
Definition step_ok (u : Permissions.user) (sets sets' : list AddressSet) : Prop :=
  Forall row_ok sets' ∧ ∀ r' x, r' ∈ sets' → covers r' x →
    (∃ r, r ∈ sets ∧ a_id r = a_id r' ∧ a_subnet r = a_subnet r' ∧ covers r x)
    ∨ Permissions.user_has_permission u "write" "subnet" (Some (a_subnet r')) = true.

Lemma create_step u sets body id sets' : Forall row_ok sets →
  create_address_set pg_inet db u sets body id = Ok sets' → step_ok u sets sets'.
Proof.
  intros Hall E. unfold create_address_set in E.
  apply bind_Ok in E as (_ & _ & E). apply bind_Ok in E as ([] & Hsh & E). apply bind_Ok in E as (_ & _ & E).
  apply bind_Ok in E as ([] & Hin & E). apply bind_Ok in E as (_ & Hp%raise_if_Ok%negb_false_iff & E). apply bind_Ok in E as (_ & _ & E).
  apply bind_Ok in E as (s0 & Hs0 & E). apply bind_Ok in E as (e0 & He0 & E). apply bind_Ok in E as (_ & _ & E). apply bind_Ok in E as (_ & _ & E).
  injection E as <-. destruct (checked_shape _ _ _ _ _ _ Hsh Hin) as (s & Hs & Es & Hr). split.
  - apply Forall_app. split; [done|]. constructor; [|done]. exists s. split_and!; [done|done|].
    destruct Hr as [([= Ek] & ts & te & a & b & E1 & E2 & E3 & E4 & Ha & Hb & Hle)|([= Ek] & l & [= El] & Hl)]; [left|right]; (split; [done|]).
    + cbn. rewrite E1 in Hs0. rewrite E2 in He0. exists a, b.
      split_and!; [by eapply (written_bound_is None (Some (Some ts)))|by eapply (written_bound_is None (Some (Some te)))|done..].
    + cbn. by rewrite El.
  - intros r' x [Hr'| ->%list_elem_of_singleton]%elem_of_app Hc; [left; by exists r'|by right].
Qed.

Lemma untouched row data : range_touched data = false → range_changed row data = false.
Proof.
  unfold range_touched. rewrite !orb_false_iff, !bool_decide_eq_false, <- !eq_None_not_Some. intros (((T1 & T2) & T3) & T4).
  unfold range_changed, merged_kind, merged_start, merged_end, merged_explicit. rewrite T1, T2, T3, T4. cbn. by rewrite !bool_decide_true by done.
Qed.

Lemma update_step u sets set_id data sets' : Forall row_ok sets →
  update_address_set pg_inet db u sets set_id data = Ok sets' → step_ok u sets sets'.
Proof.
  intros Hall E. unfold update_address_set in E. apply bind_Ok in E as (_ & _ & E).
  destruct (get_set sets set_id) as [row|] eqn:Eg; [|done]. unfold get_set in Eg. apply List.find_some in Eg as [Hrow Eid]. apply bool_decide_eq_true in Eid.
  apply list_elem_of_In in Hrow. apply bind_Ok in E as (_ & _ & E). apply bind_Ok in E as ([] & Hck & E). apply bind_Ok in E as (_ & _ & E).
  apply bind_Ok in E as (row' & Hw & E). apply bind_Ok in E as (_ & _ & E). injection E as <-.
  pose proof (proj1 (Forall_forall _ _) Hall row Hrow) as Hrok. destruct (written_row_shape _ _ _ Hw) as (Eid' & Esub & _). split.
  - apply Forall_forall. intros r (x & -> & Hx)%list_elem_of_fmap. case_bool_decide; [by apply (written_row_ok row data row' u)|].
    by apply (proj1 (Forall_forall _ _) Hall).
  - intros r' x (y & -> & Hy)%list_elem_of_fmap Hc. case_bool_decide; [|left; by exists y]. rewrite Esub.
    destruct (range_changed row data) eqn:Ech; [|left; exists row; split_and!; [done|congruence|congruence|by eapply unchanged_covers]].
    right. unfold check_range in Hck. destruct (range_touched data) eqn:Et; [|by rewrite (untouched row data Et) in Ech].
    apply bind_Ok in Hck as (_ & Hp%raise_if_Ok & _). rewrite Ech in Hp. by apply negb_false_iff in Hp.
Qed.

Lemma delete_step u sets set_id sets' : Forall row_ok sets → delete_address_set u sets set_id = Ok sets' → step_ok u sets sets'.
Proof.
  intros Hall E. unfold delete_address_set in E. destruct (get_set _ _); [|done]. apply bind_Ok in E as (_ & _ & E). injection E as <-. split.
  - apply Forall_forall. intros r [Hr _]%elem_filter. by apply (proj1 (Forall_forall _ _) Hall).
  - intros r' x [Hr _]%elem_filter Hc. left. by exists r'.
Qed.

Lemma serve_step sets q : Forall row_ok sets → step_ok (asker q) sets (serve sets q).
Proof.
  intros Hall. assert (Hid : step_ok (asker q) sets sets) by (split; [done|]; intros r' x; left; by exists r').
  unfold serve. destruct q as [u body id|u set_id data|u set_id]; cbn [asker] in *.
  - destruct (create_address_set _ _ _ _ _ _) eqn:E; [by eapply create_step|done].
  - destruct (update_address_set _ _ _ _ _ _) eqn:E; [by eapply update_step|done].
  - destruct (delete_address_set _ _ _) eqn:E; [by eapply delete_step|done].
Qed.

Lemma serve_all_steps qs : ∀ sets, Forall row_ok sets → Forall row_ok (serve_all sets qs)
  ∧ ∀ r' x, r' ∈ serve_all sets qs → covers r' x →
    (∃ r, r ∈ sets ∧ a_id r = a_id r' ∧ a_subnet r = a_subnet r' ∧ covers r x)
    ∨ ∃ q, q ∈ qs ∧ Permissions.user_has_permission (asker q) "write" "subnet" (Some (a_subnet r')) = true.
Proof.
  induction qs as [|q qs IH]; intros sets Hall; [split; [done|]; intros r' x; left; by exists r'|].
  destruct (serve_step sets q Hall) as [H1 H2]. destruct (IH (serve sets q) H1) as [H3 H4]. split; [done|]. intros r' x Hr' Hc.
  destruct (H4 r' x Hr' Hc) as [(r & Hr & Ei & Es & Hcr)|(q' & Hq & Hp)]; [|right; exists q'; split; [by right|done]].
  destruct (H2 r x Hr Hcr) as [(r0 & Hr0 & Ei0 & Es0 & Hc0)|Hp]; [left; exists r0; split_and!; congruence|right].
  exists q. split; [by left|]. by rewrite <- Es.
Qed.
End safe.

(** C19 -- delegation stays within what subnet owners gave: whatever requests
    are made by whom, every set keeps a readable range inside its subnet, an
    address a set covers was covered by that set before or some caller with
    write on its subnet asked for a change, and an address the gate lets anyone
    write by delegation lies in a live subnet, the one of the set. *)
Theorem delegation_safe (pg_inet : addr_text → option IPAddr) (db : Db) (sets : list AddressSet) (qs : list request) :
  (∀ t a b, ip_address t = Some a → pg_inet t = Some b → b = a) → tree_ok db → Forall (row_ok db) sets →
  let sets' := serve_all pg_inet db sets qs in
  Forall (row_ok db) sets'
  ∧ (∀ r' x, r' ∈ sets' → covers r' x →
      (∃ r, r ∈ sets ∧ a_id r = a_id r' ∧ a_subnet r = a_subnet r' ∧ covers r x)
      ∨ ∃ q, q ∈ qs ∧ Permissions.user_has_permission (asker q) "write" "subnet" (Some (a_subnet r')) = true)
  ∧ ∀ u action sid x, ranges_contain (load_writable_set_ranges u action sets' sid) x = true →
      ∃ s, s ∈ live_subnets db ∧ s_id s = sid ∧ mem (s_network s) (mkAddr (ver (s_network s)) x).
Proof.
  intros Hpg Hok Hall. cbv zeta. destruct (serve_all_steps pg_inet Hpg db Hok qs sets Hall) as [H1 H2]. split_and!; [done|done|].
  intros u action sid x (row & Hrow & Es & _ & Hc)%load_contains. rewrite Forall_forall in H1. destruct (H1 row Hrow) as (s & Hs & Ei & Hsh).
  exists s. split_and!; [done|congruence|]. by eapply in_shape_covers.
Qed.

(** A /24 with one set, its editor and the owner of the subnet. *)
Definition set_db : Db :=
  mkDb [mkBlock "b" "sp" None (mkNet V4 167772160 24) 0 256 false] [mkSubnet "s" "sp" "b" (mkNet V4 167772160 24) "unicast" None 254 0 false] [].
Definition set_row : AddressSet :=
  mkSet "a1" "s" "lab" "" "contiguous" (Some (mkAddr V4 167772170)) (Some (mkAddr V4 167772180)) [].
Definition editor : Permissions.user := Permissions.User true false
  [Permissions.Group [Permissions.Role (Some [Permissions.EDict (Permissions.Grant (Permissions.VStr "admin") (Permissions.VStr "address_set") Permissions.VNone)])]] [] [].
Definition owner : Permissions.user := Permissions.User true false
  [Permissions.Group [Permissions.Role (Some [Permissions.EDict (Permissions.Grant (Permissions.VStr "admin") (Permissions.VStr "*") Permissions.VNone)])]] [] [].
Definition widen (z : Z) : AddressSetUpdate := mkSetUpdate None None None None (Some (Some (Canon (mkAddr V4 z)))) None.
Definition read_inet (t : addr_text) : option IPAddr := ip_address t.

Lemma gate_exact_witness :
  let sets := [set_row; mkSet "a2" "s" "ap" "" "explicit" None None [Canon (mkAddr V4 167772210)]] in
  let r := load_writable_set_ranges editor "write" sets "s" in
  map (ranges_contain r) [167772169; 167772175; 167772210; 167772211] = [false; true; true; false]
  ∧ ∃ x, ranges_contain r x = true.
Proof.
  cbv zeta. split; [vm_compute; reflexivity|].
  apply (proj2 (proj2 (gate_exact editor "write" [set_row; mkSet "a2" "s" "ap" "" "explicit" None None [Canon (mkAddr V4 167772210)]] "s"))).
  vm_compute. reflexivity.
Defined.

Lemma set_db_tree : tree_ok set_db.
Proof. apply tree_okb_sound. vm_compute. reflexivity. Qed.

Lemma set_row_ok : Forall (row_ok set_db) [set_row].
Proof.
  repeat constructor. exists (mkSubnet "s" "sp" "b" (mkNet V4 167772160 24) "unicast" None 254 0 false).
  split_and!; [apply (bool_decide_unpack _); vm_compute; exact I|reflexivity|]. left. split; [reflexivity|].
  eexists _, _. split_and!; [reflexivity|reflexivity| | |cbn; lia]; (split; [reflexivity|vm_compute; split; [discriminate|reflexivity]]).
Qed.

(** The editor may not widen the set, the owner may, and only inside the subnet. *)
Lemma delegation_safe_witness :
  map a_name (serve_all read_inet set_db [set_row] [Update editor "a1" (mkSetUpdate (Some (Some ("bench" : str))) None None None None None)]) = [("bench" : str)]
  ∧ serve_all read_inet set_db [set_row] [Update editor "a1" (widen 167772200)] = [set_row]
  ∧ map end_address (serve_all read_inet set_db [set_row] [Update owner "a1" (widen 167772200); Update owner "a1" (widen 167772416)])
    = [Some (mkAddr V4 167772200)]
  ∧ Forall (row_ok set_db) (serve_all read_inet set_db [set_row] [Update owner "a1" (widen 167772200)]).
Proof.
  split_and!; [vm_compute; reflexivity..|].
  apply (delegation_safe read_inet set_db [set_row] [Update owner "a1" (widen 167772200)]);
    [intros t a b E1 E2; unfold read_inet in E2; congruence|exact set_db_tree|exact set_row_ok].
Defined.
End AddressSets.
