(* ===== verification/NextIp.v ===== *)
(** * Addresses handed out: next available and specific

    [_pick_next_available_ip], [preview_next_ip], [allocate_next_ip] and
    [create_address] of [backend/app/api/v1/ipam/router.py], with the refusals
    and the taking of a row of
    [backend/app/services/ipam/address_create_rules.py].  The requests name no
    zone and no alias, and carry [force]; a body is the one the schema has
    validated.  The name of the new address has to be one its forward zone can
    publish (the strict [_sync_dns_record]); the DNS records and queued
    operations that follow, MAC history, audit rows and the reservation that a
    [static_dhcp] address gets are not modelled.

    An address row is named by its subnet and address, which are unique.
    [random.shuffle], [secrets.randbits], the [idna] codec and what PostgreSQL
    stores are arguments. *)
From S2P Require Import Prelude PyStr IpNet Ipam Permissions Mac DnsNames BindCheckNames SubnetBoundary Utilization AddressSets.

Module NextIp.
Import Ipam.
Import Utilization(_update_utilization, _update_block_utilization, set_allocated, count_of, block_recount_counts).
Import AddressSets(addr_text, WritableSetRanges, ranges_contain, any_range, load_writable_set_ranges, user_can_write_ip).
Local Open Scope Z_scope.

(** A range of a live DHCP scope; [p_subnet] is the subnet of the scope. *)
Record DHCPPool := mkPool { p_subnet : str; pool_type : str; start_ip : IPAddr; end_ip : IPAddr }.

(** The forward zones: the [dns_zone_id] of the subnets and of the blocks that
    do not inherit it and of every space, read as an id if it is one; and the
    names of the live zones. *)
Record Bindings := mkBindings {
  subnet_zone : gmap str (option str); block_zone : gmap str (option str); space_zone : gmap str (option str);
  zone_name : gmap str str }.

(** [row_links]: rows whose [static_assignment_id] is set; [back_links]: rows a
    [DHCPStaticAssignment] points at; [policy]: [ipv6_allocation_policy]. *)
Record World := mkWorld {
  w_db : Db; pools : list DHCPPool; row_links : gset (str * IPAddr); back_links : gset (str * IPAddr);
  policy : gmap str str; w_sets : list AddressSets.AddressSet; w_dns : Bindings }.

Definition with_db (w : World) (db : Db) : World :=
  mkWorld db (pools w) (row_links w) (back_links w) (policy w) (w_sets w) (w_dns w).

Inductive AddressError :=
| SubnetMissing
| TokenScope
| NoWrite
| Multicast
| NeedsMac
| BadStrategy
| NoneAvailable
| NotWritable
| Linked
| BadAddress
| NotInSubnet
| BoundaryAddress
| AlreadyAllocated
| Unstorable
| Unpublishable
| NameUnfit
| StoreFails.

Definition address_status (e : AddressError) : Z :=
  match e with
  | SubnetMissing => 404
  | TokenScope | NoWrite | NotWritable => 403
  | Multicast | NeedsMac | BadStrategy | BadAddress | NotInSubnet | Unstorable | Unpublishable | NameUnfit => 422
  | NoneAvailable | Linked | BoundaryAddress | AlreadyAllocated => 409
  | StoreFails => 500
  end.

(** ** What is free *)
Definition _load_dynamic_pool_ranges (w : World) (subnet_id : str) : list (Z * Z) :=
  map (λ p, if ip (end_ip p) <? ip (start_ip p) then (ip (end_ip p), ip (start_ip p)) else (ip (start_ip p), ip (end_ip p)))
    (List.filter (λ p, bool_decide (p_subnet p = subnet_id) && bool_decide (pool_type p = "dynamic")) (pools w)).

Definition _ip_int_in_dynamic_pool (ip_int : Z) (ranges : list (Z * Z)) : bool :=
  existsb (λ '(s, e), (s <=? ip_int) && (ip_int <=? e)) ranges.

Definition row_key (r : IPAddress) : str * IPAddr := (i_subnet r, i_address r).

Definition holds_address (w : World) (r : IPAddress) : bool :=
  negb (bool_decide (i_status r = "available")) || bool_decide (row_key r ∈ row_links w).

Definition used_addresses (w : World) (subnet_id : str) : list IPAddr :=
  map i_address (List.filter (holds_address w) (rows_of (w_db w) subnet_id)).

(** [net.hosts()], its first [k]. *)
Definition first_host (net : IPNetwork) : Z :=
  if max_prefixlen (ver net) - 1 <=? prefixlen net then base net else base net + 1.
Definition host_count (net : IPNetwork) : Z :=
  if max_prefixlen (ver net) - 1 <=? prefixlen net then num_addresses net
  else match ver net with V4 => num_addresses net - 2 | V6 => num_addresses net - 1 end.
Definition hosts_upto (net : IPNetwork) (k : Z) : list IPAddr :=
  map (mkAddr (ver net)) (seqZ (first_host net) (Z.min k (host_count net))).

Definition max_search : Z := 65536.

(** [bytes.fromhex] and [int.from_bytes] on hexadecimal digits. *)
Definition hex_value (c : ascii) : Z := if is_digit c then Z.of_nat (ord c) - 48 else Z.of_nat (ord c) - 87.
Fixpoint fromhex (s : str) : list Z :=
  match s with a :: b :: s => (16 * hex_value a + hex_value b) :: fromhex s | _ => [] end.
Definition from_bytes (l : list Z) : Z := foldl (λ n b, 256 * n + b) 0 l.

Definition _eui64_from_mac (net : IPNetwork) (mac : str) : option IPAddr :=
  if negb (prefixlen net =? 64) then None
  else
    let cleaned := List.filter Mac.hex_digit (lower mac) in
    if negb (length cleaned =? 12)%nat then None
    else
      match fromhex cleaned with
      | b0 :: b1 :: b2 :: tail =>
          Some (mkAddr V6 (Z.lor (base net) (from_bytes ([Z.lxor b0 2; b1; b2; 255; 254] ++ tail))))
      | _ => None
      end.

Section pick.
Context (shuffle : list IPAddr → list IPAddr) (draws : list Z).

(** The tests of one candidate. *)
Definition takes (used : list IPAddr) (dynamic : list (Z * Z)) (allowed : Z → bool) (a : IPAddr) : bool :=
  negb (bool_decide (a ∈ used)) && negb (_ip_int_in_dynamic_pool (ip a) dynamic) && allowed (ip a).

(** The 32 draws; a zero suffix is skipped. *)
Definition draw (net : IPNetwork) (ok : IPAddr → bool) : option IPAddr :=
  let host_bits := max_prefixlen (ver net) - prefixlen net in
  if host_bits <=? 0 then None
  else
    let mask := Z.shiftl 1 host_bits - 1 in
    List.find ok (omap (λ suffix, if suffix =? 0 then None else Some (mkAddr V6 (Z.lor (base net) (Z.land suffix mask)))) (take 32 draws)).

Definition _pick_next_available_ip (w : World) (s : Subnet) (strategy : str) (mac_address : option str)
    (allowed_ranges : option WritableSetRanges) : option IPAddr * str :=
  let net := s_network s in
  let used := used_addresses w (s_id s) in
  let dynamic := _load_dynamic_pool_ranges w (s_id s) in
  let allowed := λ x, match allowed_ranges with None => true | Some r => ranges_contain r x end in
  let ok := takes used dynamic allowed in
  match ver net with
  | V6 =>
      let configured := default ("random" : str) (policy w !! s_id s) in
      let effective :=
        if bool_decide (strategy = "sequential") && (bool_decide (configured = "random") || bool_decide (configured = "eui64"))
        then configured else strategy in
      let by_mac := if bool_decide (effective = "eui64")
        then match _eui64_from_mac net (default [] mac_address) with
             | Some a => if negb (bool_decide (a ∈ used)) && allowed (ip a) then Some a else None
             | None => None
             end
        else None in
      match by_mac with
      | Some a => (Some a, "eui64")
      | None =>
          if bool_decide (effective = "sequential") then (List.find ok (hosts_upto net max_search), "sequential")
          else (draw net ok, "random")
      end
  | V4 =>
      let v4_strategy : str := if bool_decide (strategy = "random") then "random" else "sequential" in
      let hosts := hosts_upto net max_search in
      (List.find ok (if bool_decide (v4_strategy = "random") then shuffle hosts else hosts), v4_strategy)
  end.

Definition get_subnet (db : Db) (id : str) : option Subnet := List.find (λ s, bool_decide (s_id s = id)) (live_subnets db).
Definition is_strategy (t : str) : bool := bool_decide (t = "sequential") || bool_decide (t = "random") || bool_decide (t = "eui64").
Definition may_write (u : Permissions.user) (subnet_id : str) : bool := Permissions.user_has_permission u "write" "subnet" (Some subnet_id).

Definition preview_next_ip (w : World) (u : Permissions.user) (subnet_id : str) (strategy : str) (mac_address : option str)
    : result AddressError (option IPAddr * str) :=
  _ ← raise_if (negb (is_strategy strategy)) BadStrategy;
  match get_subnet (w_db w) subnet_id with
  | None => Err SubnetMissing
  | Some s =>
      _ ← raise_if (negb (Permissions.token_scope_allows u "subnet" (Some subnet_id))) TokenScope;
      _ ← raise_if (bool_decide (s_kind s = "multicast")) Multicast;
      let set_ranges := load_writable_set_ranges u "write" (w_sets w) subnet_id in
      let allowed_ranges := if may_write u subnet_id then None else Some set_ranges in
      Ok (_pick_next_available_ip w s strategy mac_address allowed_ranges)
  end.

(** ** The effective zone, and whether it can publish a name *)

(** The walk of [_resolve_effective_dns] up the blocks; one step per live block
    is enough. *)
Fixpoint zone_walk (fuel : nat) (w : World) (block : option IPBlock) : option str :=
  match fuel, block with
  | S fuel', Some b =>
      match block_zone (w_dns w) !! b_id b with
      | Some z => z
      | None =>
          match b_parent b with
          | Some p => zone_walk fuel' w (get_block (w_db w) p)
          | None => default None (space_zone (w_dns w) !! b_space b)
          end
      end
  | _, _ => None
  end.

Definition _resolve_effective_zone (w : World) (s : Subnet) : option str :=
  match subnet_zone (w_dns w) !! s_id s with
  | Some z => z
  | None => zone_walk (S (length (live_blocks (w_db w)))) w (get_block (w_db w) (s_block s))
  end.

(** The refusals of [_sync_dns_record(action=create, strict=True)] for a row
    that has no zones and no records of its own. *)
Definition _sync_dns_record (idna_encode : str → option str) (w : World) (s : Subnet) (hostname : str) : result AddressError unit :=
  if bool_decide (strip is_space hostname = []) then Ok tt
  else match _resolve_effective_zone w s with
       | None => Ok tt
       | Some z =>
           _ ← raise_if (bool_decide (is_Some (DnsNames.publishable_host_owner_error idna_encode (Some hostname)))) Unpublishable;
           match zone_name (w_dns w) !! z with
           | None => Ok tt
           | Some name =>
               let zone_domain := rstrip (chr_is ".") name in
               raise_if (negb (bool_decide (zone_domain = [])) && bool_decide (is_Some (BindCheckNames.host_in_zone_error hostname zone_domain)))
                 NameUnfit
           end
       end.

(** ** Taking a row *)
Record IPBody := mkBody { b_status : str; b_hostname : str; b_mac : option str; b_description : str }.

(** The row the create leaves: a new one, or the reclaimed one with every
    column but its identity reset and the body written over it. *)
Definition fields_row (subnet_id : str) (a : IPAddr) (body : IPBody) (user : option str) : IPAddress :=
  mkIPAddress subnet_id a (b_status body) (Some (b_hostname body)) (b_description body) None user.

Definition is_slot (subnet_id : str) (a : IPAddr) (r : IPAddress) : bool :=
  bool_decide (i_subnet r = subnet_id) && bool_decide (i_address r = a) && bool_decide (i_status r = "available").

(** Whether there is an [available] row to take over. *)
Definition reclaim_available_row (w : World) (subnet_id : str) (a : IPAddr) : result AddressError bool :=
  if existsb (is_slot subnet_id a) (ip_address (w_db w)) then
    _ ← raise_if (bool_decide ((subnet_id, a) ∈ row_links w) || bool_decide ((subnet_id, a) ∈ back_links w)) Linked;
    Ok true
  else Ok false.

(** [uq_ip_address_subnet_address] *)
Definition address_free (w : World) (subnet_id : str) (a : IPAddr) : bool :=
  negb (existsb (λ r, bool_decide (i_subnet r = subnet_id) && bool_decide (i_address r = a)) (ip_address (w_db w))).

(** [pg_stores]: PostgreSQL takes the values of the row: a MAC it can read, no
    NUL byte. *)
Definition take_address_row (pg_stores : IPBody → bool) (w : World) (subnet_id : str) (a : IPAddr) (body : IPBody) (user : option str) : result AddressError World :=
  slot ← reclaim_available_row w subnet_id a;
  _ ← raise_if (negb (pg_stores body)) Unstorable;
  let row := fields_row subnet_id a body user in
  let rows := ip_address (w_db w) in
  if slot : bool then Ok (with_db w (set_addresses (w_db w) (map (λ r, if is_slot subnet_id a r then row else r) rows)))
  else
    _ ← raise_if (negb (address_free w subnet_id a)) StoreFails;
    Ok (with_db w (set_addresses (w_db w) (rows ++ [row]))).

Definition recount (w : World) (s : Subnet) : World :=
  with_db w (_update_block_utilization (_update_utilization (w_db w) (s_id s)) (s_block s)).

(** Runs under the lock of the subnet's row. *)
Definition allocate_next_ip (idna_encode : str → option str) (pg_stores : IPBody → bool) (w : World) (u : Permissions.user) (subnet_id : str) (strategy : str) (body : IPBody) (user : option str)
    : result AddressError (IPAddr * World) :=
  _ ← raise_if (negb (is_strategy strategy)) BadStrategy;
  match get_subnet (w_db w) subnet_id with
  | None => Err SubnetMissing
  | Some s =>
      _ ← raise_if (negb (Permissions.token_scope_allows u "subnet" (Some subnet_id))) TokenScope;
      let subnet_writable := may_write u subnet_id in
      let set_ranges := load_writable_set_ranges u "write" (w_sets w) subnet_id in
      _ ← raise_if (negb subnet_writable && negb (any_range set_ranges)) NoWrite;
      let allowed_ranges := if subnet_writable then None else Some set_ranges in
      _ ← raise_if (bool_decide (s_kind s = "multicast")) Multicast;
      _ ← raise_if (bool_decide (b_status body = "static_dhcp") && bool_decide (default [] (b_mac body) = [])) NeedsMac;
      match (_pick_next_available_ip w s strategy (b_mac body) allowed_ranges).1 with
      | None => Err NoneAvailable
      | Some chosen =>
          _ ← raise_if (negb (user_can_write_ip (ip chosen) subnet_writable set_ranges)) NotWritable;
          w' ← take_address_row pg_stores w subnet_id chosen body user;
          _ ← _sync_dns_record idna_encode w' s (b_hostname body);
          Ok (chosen, recount w' s)
      end
  end.
End pick.

(** ** A specific address *)
Definition boundary_address_refusal (s : Subnet) (a : IPAddr) : bool :=
  bool_decide (ver (s_network s) = V4) && bool_decide (a ∈ SubnetBoundary.boundary_addresses (s_network s) (s_kind s)).

Definition assert_address_unallocated (w : World) (subnet_id : str) (a : IPAddr) : result AddressError unit :=
  raise_if (bool_decide (a ∈ used_addresses w subnet_id)) AlreadyAllocated.

Definition create_address (idna_encode : str → option str) (pg_stores : IPBody → bool) (pg_inet : addr_text → option IPAddr) (w : World) (u : Permissions.user) (subnet_id : str)
    (address : addr_text) (body : IPBody) (user : option str) : result AddressError (IPAddr * World) :=
  match get_subnet (w_db w) subnet_id with
  | None => Err SubnetMissing
  | Some s =>
      _ ← raise_if (negb (Permissions.token_scope_allows u "subnet" (Some subnet_id))) TokenScope;
      _ ← raise_if (bool_decide (s_kind s = "multicast")) Multicast;
      addr ← match AddressSets.ip_address address with Some a => Ok a | None => Err BadAddress end;
      _ ← raise_if (negb (contains (s_network s) addr)) NotInSubnet;
      let subnet_writable := may_write u subnet_id in
      let set_ranges := load_writable_set_ranges u "write" (w_sets w) subnet_id in
      _ ← raise_if (negb (user_can_write_ip (ip addr) subnet_writable set_ranges)) NotWritable;
      _ ← raise_if (bool_decide (b_status body = "static_dhcp") && bool_decide (default [] (b_mac body) = [])) NeedsMac;
      _ ← raise_if (boundary_address_refusal s addr) BoundaryAddress;
      stored ← match pg_inet address with Some a => Ok a | None => Err StoreFails end;
      _ ← assert_address_unallocated w subnet_id stored;
      w' ← take_address_row pg_stores w subnet_id stored body user;
      _ ← _sync_dns_record idna_encode w' s (b_hostname body);
      Ok (stored, recount w' s)
  end.
(** ** Lemmas: hosts *)
Lemma elem_hosts net k a : a ∈ hosts_upto net k ↔ a_version a = ver net ∧ first_host net ≤ ip a < first_host net + Z.min k (host_count net).
Proof.
  unfold hosts_upto. rewrite list_elem_of_fmap. setoid_rewrite elem_of_seqZ. split.
  - intros (i & -> & Hi). cbn. split; [done|lia].
  - intros [Hv Hi]. exists (ip a). destruct a. cbn in *. subst. done.
Qed.


Lemma num_two net : wf net → prefixlen net < max_prefixlen (ver net) → 2 ≤ num_addresses net.
Proof. intros (H & _) Hp. unfold num_addresses. change 2 with (2 ^ 1) at 1. apply Z.pow_le_mono_r; lia. Qed.

(** A host is in the network, and on no boundary address of an IPv4 one. *)
Lemma host_mem net k a : wf net → a ∈ hosts_upto net k → mem net a.
Proof.
  intros Hn [Hv Ha]%elem_hosts. split; [done|]. unfold first_host, host_count in Ha.
  destruct (Z.leb_spec (max_prefixlen (ver net) - 1) (prefixlen net)); [lia|].
  pose proof (num_two net Hn ltac:(lia)). destruct (ver net); lia.
Qed.

Lemma host_not_boundary net k kind a : wf net → ver net = V4 → a ∈ hosts_upto net k → a ∉ SubnetBoundary.boundary_addresses net kind.
Proof.
  intros Hn Hv [Hva Ha]%elem_hosts. unfold first_host, host_count in Ha. rewrite Hv in Ha. cbn in Ha.
  unfold SubnetBoundary.boundary_addresses, SubnetBoundary.boundary_rows, SubnetBoundary.has_boundary_rows. rewrite Hv.
  rewrite (bool_decide_false (V4 = V6)), (bool_decide_true (V4 = V4)) by done.
  case_bool_decide; cbn; [set_solver|]. destruct (Z.leb_spec 31 (prefixlen net)) as [Hp|Hp].
  - rewrite (proj2 (Z.ltb_ge _ _)) by lia. cbn. set_solver.
  - rewrite (proj2 (Z.ltb_lt _ _)) by lia. cbn. unfold network_address, broadcast_address.
    destruct (Z.leb_spec (32 - 1) (prefixlen net)); [lia|].
    rewrite !elem_of_union, !elem_of_singleton. intros [->|[->|?%not_elem_of_empty]]; cbn in *; [lia|lia|done].
Qed.

(** The first of a run of consecutive addresses is the lowest. *)
Lemma find_lowest v start n ok a : List.find ok (map (mkAddr v) (seqZ start n)) = Some a →
  ok a = true ∧ a ∈ map (mkAddr v) (seqZ start n) ∧ ∀ b, b ∈ map (mkAddr v) (seqZ start n) → ok b = true → ip a ≤ ip b.
Proof.
  destruct (decide (0 ≤ n)) as [Hn|Hn]; [|by rewrite seqZ_nil by lia].
  rewrite <- (Z2Nat.id n) by done. generalize (Z.to_nat n). intros k. revert start. induction k as [|k IH]; intros start; [by rewrite seqZ_nil by lia|].
  rewrite Nat2Z.inj_succ, seqZ_cons by lia. replace (Z.pred (Z.succ (Z.of_nat k))) with (Z.of_nat k) by lia. cbn [map List.find].
  destruct (ok (mkAddr v start)) eqn:E.
  - intros [= <-]. split_and!; [done|by left|]. intros b [->|(i & -> & Hi%elem_of_seqZ)%list_elem_of_fmap]%elem_of_cons _; cbn; lia.
  - intros H. destruct (IH _ H) as (H1 & H2 & H3). split_and!; [done|by right|].
    intros b [->|Hb]%elem_of_cons Hok; [congruence|by apply H3].
Qed.

Lemma find_none_elem {A} (f : A → bool) l : List.find f l = None ↔ ∀ x, x ∈ l → f x = false.
Proof.
  split; [intros H x Hx%list_elem_of_In; by apply (List.find_none _ _ H)|].
  induction l as [|x l IH]; intros H; [done|]. cbn. rewrite H by (by left). apply IH. intros y Hy. apply H. by right.
Qed.

(** ** Lemmas: the candidates IPv6 computes *)
Lemma low_bits_add net d : wf net → 0 ≤ d < num_addresses net → Z.lor (base net) d = base net + d.
Proof.
  intros (Hp & Hb & Hm) Hd. unfold num_addresses in *. set (h := max_prefixlen (ver net) - prefixlen net) in *.
  assert (Hh : 0 ≤ h) by (unfold h; lia). clearbody h.
  assert (Hz : Z.land (base net) d = 0).
  { apply Z.bits_inj'. intros i Hi. rewrite Z.land_spec, Z.bits_0. destruct (decide (i < h)) as [Hlt|Hge].
    - apply Z.mod_divide in Hm as [q ->]; [|lia]. by rewrite Z.mul_pow2_bits_low by lia.
    - destruct (decide (d = 0)) as [->|Hne]; [by rewrite Z.bits_0, andb_false_r|].
      rewrite (Z.bits_above_log2 d i), ?andb_false_r; [done|lia|]. apply Z.log2_lt_pow2; [lia|].
      eapply Z.lt_le_trans; [apply Hd|]. apply Z.pow_le_mono_r; lia. }
  rewrite Z.add_nocarry_lxor, Z.lxor_lor by done. done.
Qed.

Lemma drawn_mem net d : wf net → ver net = V6 → prefixlen net < max_prefixlen (ver net) →
  mem net (mkAddr V6 (Z.lor (base net) (Z.land d (Z.shiftl 1 (max_prefixlen (ver net) - prefixlen net) - 1)))).
Proof.
  intros Hn Hv Hp. set (h := max_prefixlen (ver net) - prefixlen net).
  assert (Hmask : Z.shiftl 1 h - 1 = Z.ones h) by (rewrite Z.shiftl_1_l, Z.ones_equiv; lia).
  rewrite Hmask, Z.land_ones by (unfold h; lia).
  pose proof (Z.mod_pos_bound d (2 ^ h) ltac:(apply Z.pow_pos_nonneg; unfold h; lia)) as Hr.
  rewrite low_bits_add by (done || exact Hr). split; [done|]. cbn. fold (num_addresses net) in Hr. unfold num_addresses in *. fold h. lia.
Qed.

Definition is_byte (b : Z) : Prop := 0 ≤ b < 256.

Lemma hex_value_bound c : Mac.hex_digit c = true → 0 ≤ hex_value c < 16.
Proof.
  intros H. cut ((0 <=? hex_value c) && (hex_value c <? 16) = true); [intros; bool_hyps; lia|].
  revert c H. apply ascii_subclass. vm_compute. reflexivity.
Qed.

Lemma fromhex_bytes s : forallb Mac.hex_digit s = true → Forall is_byte (fromhex s).
Proof.
  remember (length s) as n eqn:E. revert s E. induction n as [n IH] using lt_wf_ind. intros [|a [|b s]] -> H; [constructor..|].
  cbn in H |- *. bool_hyps. constructor; [|apply (IH (length s)); [cbn; lia|done|done]].
  pose proof (hex_value_bound a ltac:(done)). pose proof (hex_value_bound b ltac:(done)). unfold is_byte. lia.
Qed.

Lemma from_bytes_bound l : Forall is_byte l → 0 ≤ from_bytes l < 256 ^ Z.of_nat (length l).
Proof.
  intros Hl. unfold from_bytes.
  cut (∀ n, 0 ≤ n → 0 ≤ foldl (λ n b, 256 * n + b) n l < (n + 1) * 256 ^ Z.of_nat (length l)); [intros H; specialize (H 0); lia|].
  induction Hl as [|b l Hb Hl IH]; intros n Hn; cbn [foldl length]; [cbn; lia|].
  unfold is_byte in Hb. specialize (IH (256 * n + b) ltac:(lia)). rewrite Nat2Z.inj_succ, Z.pow_succ_r by lia.
  split; [lia|]. assert (0 < 256 ^ Z.of_nat (length l)) by (apply Z.pow_pos_nonneg; lia). nia.
Qed.

Lemma flip_byte b : is_byte b → is_byte (Z.lxor b 2).
Proof.
  unfold is_byte. intros Hb. destruct (decide (Z.lxor b 2 = 0)) as [->|Hne]; [lia|].
  assert (0 ≤ Z.lxor b 2) by (apply Z.lxor_nonneg; lia). split; [done|]. apply Z.log2_lt_cancel. cbn.
  pose proof (Z.log2_lxor b 2 ltac:(lia) ltac:(lia)). assert (Z.log2 b < 8); [|cbn in *; lia].
  destruct (decide (b = 0)) as [->|]; [cbn; lia|]. apply Z.log2_lt_pow2; lia.
Qed.

Lemma eui64_mem net mac a : wf net → ver net = V6 → _eui64_from_mac net mac = Some a → mem net a.
Proof.
  intros Hn Hv. unfold _eui64_from_mac. destruct (Z.eqb_spec (prefixlen net) 64) as [Hp|]; [|done]. cbn [negb].
  set (cleaned := List.filter _ _). destruct (Nat.eqb_spec (length cleaned) 12) as [Hl|]; [|done]. cbn [negb].
  assert (Hc : forallb Mac.hex_digit cleaned = true) by (apply forallb_elem_iff; intros c [_ Hc]%elem_filter; exact Hc).
  pose proof (fromhex_bytes _ Hc) as Hb. clearbody cleaned. do 12 (destruct cleaned as [|? cleaned]; [done|]). destruct cleaned; [|done].
  cbn [fromhex] in Hb |- *. rewrite !Forall_cons in Hb. destruct Hb as (B0 & B1 & B2 & B3 & B4 & B5 & _). intros [= <-].
  match goal with |- context [from_bytes ?l] => set (bs := l); assert (Hbs : Forall is_byte bs ∧ length bs = 8%nat) end.
  { unfold bs. split; [|done]. repeat (apply Forall_cons; split); try done; try (unfold is_byte; lia). by apply flip_byte. }
  destruct Hbs as [Hbs Hlen]. pose proof (from_bytes_bound bs Hbs) as Hr. rewrite Hlen in Hr.
  assert (Hnum : num_addresses net = 256 ^ 8) by (unfold num_addresses; by rewrite Hv, Hp).
  rewrite low_bits_add by (done || (rewrite Hnum; exact Hr)). split; [done|]. cbn [ip]. rewrite Hnum. clearbody bs. cbn in Hr |- *. lia.
Qed.

(** ** Lemmas: the pick *)
Section pick_facts.
Context (shuffle : list IPAddr → list IPAddr) (draws : list Z) (Hshuffle : ∀ l, shuffle l ≡ₚ l).

Definition allowed_by (ranges : option WritableSetRanges) (x : Z) : bool :=
  match ranges with None => true | Some r => ranges_contain r x end.
Definition passes (w : World) (s : Subnet) (ranges : option WritableSetRanges) (a : IPAddr) : bool :=
  takes (used_addresses w (s_id s)) (_load_dynamic_pool_ranges w (s_id s)) (allowed_by ranges) a.

(** A host a scan may hand out. *)
Definition usable (w : World) (s : Subnet) (ranges : option WritableSetRanges) (a : IPAddr) : Prop :=
  a ∈ hosts_upto (s_network s) max_search ∧ passes w s ranges a = true.

(** What a pick promises of the address. *)
Record proper_pick (w : World) (s : Subnet) (strategy : str) (ranges : option WritableSetRanges) (a : IPAddr) (st : str) : Prop := {
  pp_mem : mem (s_network s) a;
  pp_free : a ∉ used_addresses w (s_id s);
  pp_allowed : allowed_by ranges (ip a) = true;
  pp_pool : st ≠ "eui64" → _ip_int_in_dynamic_pool (ip a) (_load_dynamic_pool_ranges w (s_id s)) = false;
  pp_mac : st = "eui64" → strategy = "eui64" ∨ policy w !! s_id s = Some ("eui64" : str);
  pp_lowest : st = "sequential" → usable w s ranges a ∧ ∀ b, usable w s ranges b → ip a ≤ ip b;
  pp_inner kind : ver (s_network s) = V4 → a ∉ SubnetBoundary.boundary_addresses (s_network s) kind;
}.

Lemma takes_spec used dyn al a : takes used dyn al a = true ↔ a ∉ used ∧ _ip_int_in_dynamic_pool (ip a) dyn = false ∧ (al (ip a) = true).
Proof. unfold takes. rewrite !andb_true_iff, !negb_true_iff, bool_decide_eq_false. tauto. Qed.

Lemma scan_pick w s strategy ranges : wf (s_network s) →
  match List.find (passes w s ranges) (hosts_upto (s_network s) max_search) with
  | Some a => ∀ st, st ≠ "eui64" → proper_pick w s strategy ranges a st
  | None => ∀ b, ¬ usable w s ranges b
  end.
Proof.
  intros Hn. destruct (List.find _ _) as [a|] eqn:E.
  - intros st Hst. pose proof (find_lowest _ _ _ _ _ E) as (Hok & Hin & Hlow). fold (hosts_upto (s_network s) max_search) in Hin, Hlow.
    pose proof Hok as (H1 & H2 & H3)%takes_spec. constructor; try done.
    + by eapply host_mem.
    + intros _. split; [by split|]. intros b [Hb Hp]. by apply Hlow.
    + intros kind Hv. by eapply host_not_boundary.
  - intros b [Hb Hp]. by rewrite (proj1 (find_none_elem _ _) E b Hb) in Hp.
Qed.

Lemma pick_spec w s strategy mac ranges : wf (s_network s) →
  match _pick_next_available_ip shuffle draws w s strategy mac ranges with
  | (Some a, st) => proper_pick w s strategy ranges a st
  | (None, st) => st = "sequential" ∨ ver (s_network s) = V4 → ∀ b, ¬ usable w s ranges b
  end.
Proof.
  intros Hn. pose proof (scan_pick w s strategy ranges Hn) as Hscan. unfold _pick_next_available_ip. cbv zeta.
  fold (allowed_by ranges).
  change (takes (used_addresses w (s_id s)) (_load_dynamic_pool_ranges w (s_id s)) (allowed_by ranges)) with (passes w s ranges).
  destruct (ver (s_network s)) eqn:Hv.
  - destruct (decide (strategy = "random")) as [Hr|Hr].
    2: { rewrite (bool_decide_false (strategy = _)) by done. rewrite bool_decide_false by done. destruct (List.find _ _); [by apply Hscan|by intros _]. }
    rewrite (bool_decide_true (strategy = _)) by done. rewrite bool_decide_true by done. destruct (List.find _ (shuffle _)) as [a|] eqn:E.
    + apply List.find_some in E as [Hin Hok]. apply list_elem_of_In in Hin. rewrite Hshuffle in Hin.
      pose proof Hok as (H1 & H2 & H3)%takes_spec. constructor; [by eapply host_mem|done|done|done|done|done|]. intros kind _. by eapply host_not_boundary.
    + intros _ b [Hb Hp]. rewrite <- Hshuffle in Hb. by rewrite (proj1 (find_none_elem _ _) E b Hb) in Hp.
  - set (effective := if _ && _ then _ else strategy).
    assert (Heff : effective = "eui64" → strategy = "eui64" ∨ policy w !! s_id s = Some ("eui64" : str)).
    { unfold effective. destruct (bool_decide (strategy = _) && _); [|by left]. intros E. right. by destruct (policy w !! s_id s); [cbn in E; subst|]. }
    clearbody effective.
    set (by_mac := if bool_decide (effective = "eui64") then _ else None).
    assert (Hmac : ∀ a, by_mac = Some a → proper_pick w s strategy ranges a "eui64").
    { intros a Ha. unfold by_mac in Ha. case_bool_decide as He; [|done]. destruct (_eui64_from_mac _ _) as [c|] eqn:Em; [|done].
      destruct (negb _ && _) eqn:Eu; [|done]. injection Ha as ->. apply andb_true_iff in Eu as [Eu Ea]. apply negb_true_iff, bool_decide_eq_false in Eu.
      constructor; try done; [by eapply eui64_mem|by intros _; apply Heff|]. intros kind Hv4. congruence. }
    destruct by_mac as [a|]; [by apply Hmac|]. case_bool_decide as Hseq.
    { destruct (List.find _ _); [by apply Hscan|by intros _]. }
    destruct (draw draws (s_network s) (passes w s ranges)) as [a|] eqn:Ed; [|by intros [?|?]].
    unfold draw in Ed. destruct (Z.leb_spec (max_prefixlen (ver (s_network s)) - prefixlen (s_network s)) 0) as [|Hp]; [done|].
    apply List.find_some in Ed as [Hin Hok]. apply list_elem_of_In, list_elem_of_omap in Hin as (d & _ & Hd).
    destruct (d =? 0); [done|]. injection Hd as <-. pose proof Hok as (H1 & H2 & H3)%takes_spec.
    constructor; try done; [apply drawn_mem; [done|done|lia]|]. intros kind Hv4. congruence.
Qed.
End pick_facts.

(** ** Lemmas: taking a row *)
Definition keys_unique (db : Db) : Prop := NoDup (map row_key (ip_address db)).

Lemma elem_used_addresses w sid a : a ∈ used_addresses w sid ↔ ∃ r, r ∈ ip_address (w_db w) ∧ row_key r = (sid, a) ∧ holds_address w r = true.
Proof.
  unfold used_addresses. rewrite list_elem_of_fmap. setoid_rewrite elem_filter. setoid_rewrite elem_rows_of. unfold row_key. split.
  - intros (r & -> & [Hr <-] & Hh). by exists r.
  - intros (r & Hr & [= <- <-] & Hh). by exists r.
Qed.

Lemma slot_key sid a r : is_slot sid a r = true ↔ row_key r = (sid, a) ∧ i_status r = "available".
Proof. unfold is_slot, row_key. rewrite !andb_true_iff, !bool_decide_eq_true. naive_solver. Qed.

(** The rows a take leaves. *)
Definition rows_after (db : Db) (sid : str) (a : IPAddr) (body : IPBody) (user : option str) (rows : list IPAddress) : Prop :=
  NoDup (map row_key rows) ∧
  ∀ r, r ∈ rows ↔ r = fields_row sid a body user ∨ r ∈ ip_address db ∧ row_key r ≠ (sid, a).

(** A free slot a reservation points at. *)
Definition linked_slot (w : World) (sid : str) (a : IPAddr) : Prop :=
  (sid, a) ∈ back_links w ∧ ∃ r, r ∈ ip_address (w_db w) ∧ is_slot sid a r = true.

Lemma take_row pg_stores w sid a body user : keys_unique (w_db w) → a ∉ used_addresses w sid →
  match take_address_row pg_stores w sid a body user with
  | Ok w' => (pg_stores body = true ∧ ¬ linked_slot w sid a)
      ∧ ∃ rows, w' = with_db w (set_addresses (w_db w) rows) ∧ rows_after (w_db w) sid a body user rows
  | Err e => e = Linked ∧ linked_slot w sid a ∨ e = Unstorable ∧ pg_stores body = false
  end.
Proof.
  intros Hu Hfree. set (row := fields_row sid a body user). assert (Hkey : row_key row = (sid, a)) by done.
  assert (Hone : ∀ x y, x ∈ ip_address (w_db w) → y ∈ ip_address (w_db w) → row_key x = row_key y → x = y) by (intros x y; by apply map_NoDup_inj).
  unfold take_address_row, reclaim_available_row. destruct (existsb (is_slot sid a) (ip_address (w_db w))) eqn:Ex.
  - apply List.existsb_exists in Ex as (r0 & Hr0%list_elem_of_In & Hs0). pose proof Hs0 as [Hk0 Hav]%slot_key.
    assert (Hnl : (sid, a) ∉ row_links w).
    { intros Hl. apply Hfree, elem_used_addresses. exists r0. split_and!; [done|done|]. unfold holds_address. rewrite Hk0, (bool_decide_true (_ ∈ _)) by done. by rewrite orb_true_r. }
    rewrite (bool_decide_false (_ ∈ row_links w)) by done. case_bool_decide as Hb; cbn [orb raise_if mbind result_bind]; [left; split; [done|]; split; [done|by exists r0]|].
    destruct (pg_stores body); cbn [negb raise_if mbind result_bind]; [|by right].
    split; [split; [done|]; by intros [? _]|]. eexists. split; [reflexivity|]. split.
    + rewrite List.map_map. erewrite map_ext; [exact Hu|]. intros r. cbv beta. destruct (is_slot sid a r) eqn:E; [|done].
      apply slot_key in E as [E _]. by rewrite E.
    + intros r. rewrite list_elem_of_fmap. split.
      * intros (y & -> & Hy). destruct (is_slot sid a y) eqn:E; [by left|right]. split; [done|]. intros Hk.
        rewrite (Hone y r0 Hy Hr0) in E by congruence. congruence.
      * intros [->|[Hr Hne]]; [exists r0; by rewrite Hs0|]. exists r. split; [|done].
        destruct (is_slot sid a r) eqn:E; [|done]. by apply slot_key in E as [? _].
  - assert (Hnew : ∀ r, r ∈ ip_address (w_db w) → row_key r ≠ (sid, a)).
    { intros r Hr Hk. apply Hfree, elem_used_addresses. exists r. split_and!; [done|done|]. unfold holds_address. rewrite bool_decide_false; [done|].
      intros Hav. assert (existsb (is_slot sid a) (ip_address (w_db w)) = true) by (apply List.existsb_exists; exists r; by rewrite <- list_elem_of_In, slot_key).
      congruence. }
    cbn [mbind result_bind]. assert (Hf : address_free w sid a = true).
    { unfold address_free. apply negb_true_iff, not_true_is_false. intros (r & Hr%list_elem_of_In & Hk)%List.existsb_exists. bool_hyps.
      apply (Hnew r Hr). unfold row_key. congruence. }
    rewrite Hf. destruct (pg_stores body); cbn [negb raise_if mbind result_bind]; [|by right].
    split; [split; [done|]; intros (_ & r & Hr & Hs); by apply (Hnew r Hr), slot_key|]. eexists. split; [reflexivity|]. split.
    + rewrite map_app. apply NoDup_app. split_and!; [done| |apply NoDup_singleton]. intros k (r & -> & Hr)%list_elem_of_fmap Hk%list_elem_of_singleton.
      by apply (Hnew r Hr).
    + intros r. rewrite elem_of_app, list_elem_of_singleton. split; [intros [Hr|Hr]; [right; split; [done|by apply Hnew]|by left]|tauto].
Qed.

Lemma find_map {A} (p : A → bool) (g : A → A) l : (∀ x, p (g x) = p x) → List.find p (map g l) = g <$> List.find p l.
Proof. intros H. induction l as [|x l IH]; [done|]. cbn. rewrite H. by destruct (p x). Qed.

(** ** Lemmas: the recount after *)
Lemma recount_rows w s : ip_address (w_db (recount w s)) = ip_address (w_db w).
Proof. unfold recount, _update_block_utilization. cbn [with_db w_db]. by rewrite Utilization.utilization_rows. Qed.


Lemma recount_tables w s : ∃ f g, keeps f ∧ (∀ b, b_network (f b) = b_network b) ∧ keeps_subnet g ∧ (∀ x, s_network (g x) = s_network x) ∧ (∀ x, s_kind (g x) = s_kind x)
  ∧ (∀ x, s_id x = s_id s → s_deleted x = false → s_allocated_ips (g x) = count_of (w_db w) (s_id s))
  ∧ w_db (recount w s) = update_blocks f (update_subnets g (w_db w)).
Proof.
  unfold recount. cbn [with_db w_db]. destruct (block_recount_counts (_update_utilization (w_db w) (s_id s)) [s_block s]) as (f & Kf & Nf & E).
  unfold _update_block_utilization. rewrite E. exists f.
  exists (λ x, if bool_decide (s_id x = s_id s) && negb (s_deleted x) then set_allocated x (count_of (w_db w) (s_id s)) else x).
  split_and!; [done|done| | | | |reflexivity].
  - intros x. by destruct (_ && _).
  - intros x. by destruct (_ && _).
  - intros x. by destruct (_ && _).
  - intros x Hx Hd. rewrite Hd, (bool_decide_true (s_id x = _)) by done. done.
Qed.

Lemma recount_subnet w s x : get_subnet (w_db w) (s_id s) = Some x → ∃ y, get_subnet (w_db (recount w s)) (s_id s) = Some y
  ∧ s_id y = s_id x ∧ s_block y = s_block x ∧ s_network y = s_network x ∧ s_kind y = s_kind x ∧ s_allocated_ips y = count_of (w_db (recount w s)) (s_id s).
Proof.
  intros Hx. destruct (recount_tables w s) as (f & g & _ & _ & Kg & Ng & Kind & Hc & E).
  assert (Hcount : count_of (w_db (recount w s)) (s_id s) = count_of (w_db w) (s_id s)).
  { unfold count_of, Utilization.counting, rows_of. by rewrite recount_rows. }
  rewrite Hcount. unfold get_subnet in *. rewrite E. change (live_subnets (update_blocks f (update_subnets g (w_db w)))) with (live_subnets (update_subnets g (w_db w))).
  rewrite live_update_subnets, find_map, Hx by (done || (intros y; by destruct (Kg y) as (-> & _))). exists (g x). destruct (Kg x) as (Ei & _ & Eb & Ed).
  pose proof Hx as [Hin Hid]%List.find_some. apply bool_decide_eq_true in Hid. apply list_elem_of_In, elem_live_subnets in Hin as [_ Hd].
  split_and!; first [done|by apply Hc].
Qed.

(** ** Lemmas: the effective zone *)

(** The nearest binding along the chain of the subnet's block, else the space's. *)
Lemma zone_walk_chain w b l fuel : tree_ok (w_db w) → chain (w_db w) b l → (length l ≤ fuel)%nat →
  zone_walk fuel w (Some b)
  = default (default None (space_zone (w_dns w) !! b_space b)) (head (omap (λ c, block_zone (w_dns w) !! b_id c) (reverse l))).
Proof.
  intros Hok Hc. revert fuel. induction Hc as [b Hb Hp|b p l Hb Hp Hc IH]; intros fuel Hf; rewrite ?length_app in Hf; cbn in Hf;
    (destruct fuel as [|fuel]; [lia|]); cbn [zone_walk].
  - rewrite reverse_singleton. cbn. rewrite Hp. by destruct (block_zone (w_dns w) !! b_id b).
  - rewrite reverse_snoc. cbn. destruct (block_zone (w_dns w) !! b_id b); [done|]. rewrite Hp.
    destruct (chain_live _ _ _ Hc) as [Hpl _]. rewrite (get_block_live _ Hok p Hpl), IH by lia.
    by rewrite (proj1 (tree_inside _ Hok b p Hb Hpl Hp)).
Qed.

(** The walk never runs out of steps. *)
Lemma effective_zone_nearest w s : tree_ok (w_db w) → s ∈ live_subnets (w_db w) → ∃ b l, chain (w_db w) b l ∧ b_id b = s_block s
  ∧ _resolve_effective_zone w s =
      match subnet_zone (w_dns w) !! s_id s with
      | Some z => z
      | None => default (default None (space_zone (w_dns w) !! b_space b)) (head (omap (λ c, block_zone (w_dns w) !! b_id c) (reverse l)))
      end.
Proof.
  intros Hok Hs. destruct (tree_subnet_in _ Hok s Hs) as (b & Hb & Eb & _). destruct (tree_rooted _ Hok b Hb) as [l Hl].
  exists b, l. split_and!; [done|done|]. unfold _resolve_effective_zone. destruct (subnet_zone (w_dns w) !! s_id s); [done|].
  rewrite Eb, (get_block_live _ Hok b Hb). apply zone_walk_chain; [done|done|]. pose proof (chain_length _ Hok b l _ Hl (λ c H, H)). lia.
Qed.

(** Nothing an allocation writes bears on the zone. *)
Lemma resolve_same w w' s s' f : keeps f → w_dns w' = w_dns w → ip_block (w_db w') = map f (ip_block (w_db w)) →
  s_id s' = s_id s → s_block s' = s_block s → _resolve_effective_zone w' s' = _resolve_effective_zone w s.
Proof.
  intros Hf Hd Hb Hi Hbl.
  assert (Hlive : live_blocks (w_db w') = map f (live_blocks (w_db w))).
  { unfold live_blocks. rewrite Hb, filter_map. f_equal. apply filter_ext. intros b. by destruct (Hf b) as (_ & _ & _ & ->). }
  assert (Hget : ∀ id, get_block (w_db w') id = f <$> get_block (w_db w) id).
  { intros id. unfold get_block. rewrite Hlive. apply find_map. intros b. by destruct (Hf b) as (-> & _). }
  unfold _resolve_effective_zone. rewrite Hd, Hi, Hbl, Hget, Hlive, length_map. destruct (subnet_zone (w_dns w) !! s_id s); [done|].
  generalize (get_block (w_db w) (s_block s)). generalize (S (length (live_blocks (w_db w)))). intros fuel.
  induction fuel as [|fuel IH]; intros [b|]; cbn [zone_walk fmap option_fmap option_map]; try done. destruct (Hf b) as (-> & -> & -> & _).
  rewrite Hd. destruct (block_zone (w_dns w) !! b_id b); [done|]. destruct (b_parent b) as [p|]; [|done]. rewrite Hget. apply IH.
Qed.

Lemma sync_same idna_encode w w' s s' f h : keeps f → w_dns w' = w_dns w → ip_block (w_db w') = map f (ip_block (w_db w)) →
  s_id s' = s_id s → s_block s' = s_block s → _sync_dns_record idna_encode w' s' h = _sync_dns_record idna_encode w s h.
Proof.
  intros Hf Hd Hb Hi Hbl. unfold _sync_dns_record. by rewrite (resolve_same w w' s s' f), Hd.
Qed.

Lemma sync_after_take idna_encode w rows s h :
  _sync_dns_record idna_encode (with_db w (set_addresses (w_db w) rows)) s h = _sync_dns_record idna_encode w s h.
Proof. apply (sync_same _ _ _ _ _ id); try done. cbn. by rewrite map_id. Qed.

(** A take writes the address rows and nothing else. *)
Lemma take_shape pg_stores w sid a body user w' : take_address_row pg_stores w sid a body user = Ok w' →
  ∃ rows, w' = with_db w (set_addresses (w_db w) rows).
Proof.
  unfold take_address_row. intros (slot & _ & H)%bind_Ok. apply bind_Ok in H as (_ & _ & H).
  destruct slot; [injection H as <-; by eexists|]. apply bind_Ok in H as (_ & _ & H). injection H as <-. by eexists.
Qed.

Lemma take_then_sync {B} pg_stores idna_encode w sid a body user s h (k : World → result AddressError B) :
  (w' ← take_address_row pg_stores w sid a body user; _ ← _sync_dns_record idna_encode w' s h; k w')
  = (w' ← take_address_row pg_stores w sid a body user; _ ← _sync_dns_record idna_encode w s h; k w').
Proof.
  destruct (take_address_row _ _ _ _ _ _) as [w'|] eqn:E; [|done]. apply take_shape in E as [rows ->]. cbn [mbind result_bind].
  by rewrite sync_after_take.
Qed.


(** ** Lemmas: what [allocate_next_ip] answers *)
Section allocate.
Context (shuffle : list IPAddr → list IPAddr) (draws : list Z) (Hshuffle : ∀ l, shuffle l ≡ₚ l).
Context (idna_encode : str → option str) (pg_stores : IPBody → bool).
Context (u : Permissions.user) (sid : str).

(** The ranges a request of [u] is held to. *)
Definition held_to (w : World) : option WritableSetRanges :=
  if may_write u sid then None else Some (load_writable_set_ranges u "write" (w_sets w) sid).

Lemma held_to_writes w x : allowed_by (held_to w) x = true →
  user_can_write_ip x (may_write u sid) (load_writable_set_ranges u "write" (w_sets w) sid) = true.
Proof. unfold held_to, user_can_write_ip. by destruct (may_write u sid). Qed.

(** What a caller may be refused before any address is looked at. *)
Definition admitted (w : World) (s : Subnet) (strategy : str) (body : IPBody) : bool :=
  is_strategy strategy && Permissions.token_scope_allows u "subnet" (Some sid)
  && (may_write u sid || any_range (load_writable_set_ranges u "write" (w_sets w) sid))
  && negb (bool_decide (s_kind s = "multicast"))
  && negb (bool_decide (b_status body = "static_dhcp") && bool_decide (default [] (b_mac body) = [])).

Lemma allocate_admitted w s strategy body user : get_subnet (w_db w) sid = Some s → admitted w s strategy body = true → wf (s_network s) →
  allocate_next_ip shuffle draws idna_encode pg_stores w u sid strategy body user =
  match (_pick_next_available_ip shuffle draws w s strategy (b_mac body) (held_to w)).1 with
  | None => Err NoneAvailable
  | Some a => w' ← take_address_row pg_stores w sid a body user; _ ← _sync_dns_record idna_encode w s (b_hostname body); Ok (a, recount w' s)
  end.
Proof.
  intros Hs Had Hn. unfold admitted in Had. rewrite !andb_true_iff in Had. destruct Had as ((((A1 & A2) & A3) & A4) & A5).
  unfold allocate_next_ip. rewrite A1, Hs, A2. cbn [negb raise_if mbind result_bind]. rewrite <- negb_orb, A3. cbn [negb raise_if mbind result_bind].
  apply negb_true_iff in A4, A5. rewrite A4. cbn [raise_if mbind result_bind]. rewrite A5. cbn [raise_if mbind result_bind]. fold (held_to w).
  pose proof (pick_spec shuffle draws Hshuffle w s strategy (b_mac body) (held_to w) Hn) as Hp.
  destruct (_pick_next_available_ip _ _ _ _ _ _ _) as [[a|] st]; [|done]. cbn [fst]. rewrite held_to_writes by apply Hp.
  cbn [negb raise_if mbind result_bind]. apply (take_then_sync (B := IPAddr * World)).
Qed.




Lemma live_wf w s : tree_ok (w_db w) → get_subnet (w_db w) sid = Some s → wf (s_network s) ∧ s_id s = sid.
Proof.
  intros Hok [Hs%list_elem_of_In Hid]%List.find_some. apply bool_decide_eq_true in Hid. split; [by apply (wf_live_subnet (w_db w) Hok)|done].
Qed.

Lemma not_admitted_err w s strategy body user : get_subnet (w_db w) sid = Some s → admitted w s strategy body = false →
  is_ok (allocate_next_ip shuffle draws idna_encode pg_stores w u sid strategy body user) = false.
Proof.
  intros Hs Had. unfold admitted in Had. unfold allocate_next_ip. rewrite Hs. rewrite <- negb_orb.
  destruct (is_strategy strategy); [|done]. destruct (Permissions.token_scope_allows u "subnet" (Some sid)); [|done].
  destruct (may_write u sid || _); [|done]. destruct (bool_decide (s_kind s = "multicast")); [done|]. cbn [negb raise_if mbind result_bind andb] in *.
  apply negb_false_iff in Had. by rewrite Had.
Qed.

(** A success, taken apart. *)
Lemma allocate_Ok w strategy body user a w' : tree_ok (w_db w) → keys_unique (w_db w) →
  allocate_next_ip shuffle draws idna_encode pg_stores w u sid strategy body user = Ok (a, w') →
  ∃ s st rows, get_subnet (w_db w) sid = Some s ∧ admitted w s strategy body = true
    ∧ proper_pick w s strategy (held_to w) a st ∧ rows_after (w_db w) sid a body user rows
    ∧ w' = recount (with_db w (set_addresses (w_db w) rows)) s.
Proof.
  intros Hok Hu H. destruct (get_subnet (w_db w) sid) as [s|] eqn:Hs.
  2: { unfold allocate_next_ip in H. rewrite Hs in H. by destruct (is_strategy strategy). }
  destruct (live_wf w s Hok Hs) as [Hn Hid]. destruct (admitted w s strategy body) eqn:Had.
  2: { pose proof (not_admitted_err w s strategy body user Hs Had) as He. by rewrite H in He. }
  rewrite (allocate_admitted w s strategy body user Hs Had Hn) in H.
  pose proof (pick_spec shuffle draws Hshuffle w s strategy (b_mac body) (held_to w) Hn) as Hp.
  destruct (_pick_next_available_ip _ _ _ _ _ _ _) as [[c|] st]; [|done]. cbn [fst] in H. apply bind_Ok in H as (w1 & Ht & H). apply bind_Ok in H as (_ & _ & H). injection H as <- <-.
  pose proof (take_row pg_stores w sid c body user Hu) as Hr. rewrite Ht in Hr. destruct Hr as (_ & rows & -> & Hrows); [rewrite <- Hid; apply Hp|].
  exists s, st, rows. done.
Qed.

Lemma recount_tree w s : tree_ok (w_db w) → tree_ok (w_db (recount w s)).
Proof.
  intros Hok. destruct (recount_tables w s) as (f & g & Kf & Nf & Kg & Ng & _ & _ & ->). apply tree_update_blocks; [done|done|]. by apply tree_update_subnets.
Qed.
End allocate.

(** C21 -- an allocation that succeeds hands out an address of the subnet that
    no row held, that the caller may write, that is not the network or
    broadcast address, and that lies in no dynamic DHCP pool unless EUI-64
    chose it; it leaves exactly one row there, the caller's, and every other
    row untouched; rows stay unique, the tree well-formed, and the subnet's
    counter true. *)
Theorem allocate_next_ip_safe (shuffle : list IPAddr → list IPAddr) (draws : list Z) (idna_encode : str → option str)
    (pg_stores : IPBody → bool) (w : World) (u : Permissions.user) (sid : str)
    (strategy : str) (body : IPBody) (user : option str) (a : IPAddr) (w' : World) :
  (∀ l, shuffle l ≡ₚ l) → tree_ok (w_db w) → keys_unique (w_db w) →
  allocate_next_ip shuffle draws idna_encode pg_stores w u sid strategy body user = Ok (a, w') →
  ∃ s s', get_subnet (w_db w) sid = Some s ∧ get_subnet (w_db w') sid = Some s' ∧ s_network s' = s_network s
    ∧ mem (s_network s) a ∧ a ∉ used_addresses w sid
    ∧ (may_write u sid = true ∨ ranges_contain (load_writable_set_ranges u "write" (w_sets w) sid) (ip a) = true)
    ∧ (ver (s_network s) = V4 → a ∉ SubnetBoundary.boundary_addresses (s_network s) (s_kind s))
    ∧ (strategy ≠ "eui64" → policy w !! sid ≠ Some ("eui64" : str) → _ip_int_in_dynamic_pool (ip a) (_load_dynamic_pool_ranges w sid) = false)
    ∧ rows_after (w_db w) sid a body user (ip_address (w_db w'))
    ∧ tree_ok (w_db w') ∧ s_allocated_ips s' = count_of (w_db w') sid.
Proof.
  intros Hsh Hok Hu H. destruct (allocate_Ok shuffle draws Hsh idna_encode pg_stores u sid w strategy body user a w' Hok Hu H) as (s & st & rows & Hs & Had & Hp & Hrows & ->).
  destruct (live_wf sid w s Hok Hs) as [Hn <-]. set (w1 := with_db w (set_addresses (w_db w) rows)).
  destruct (recount_subnet w1 s s) as (s' & Hs' & Ei & _ & En & Ek & Ec); [done|]. exists s, s'. split_and!; try done; try apply Hp.
  - pose proof (held_to_writes u (s_id s) w (ip a) (pp_allowed _ _ _ _ _ _ Hp)) as Hc. unfold user_can_write_ip in Hc. by apply orb_true_iff in Hc.
  - intros Hne Hpo. apply Hp. intros E. by destruct (pp_mac _ _ _ _ _ _ Hp E).
  - by rewrite recount_rows.
  - apply recount_tree. by apply tree_addresses.
Qed.


(** ** A run of allocations *)
Section run.
Context (shuffle : list IPAddr → list IPAddr) (draws : list Z) (idna_encode : str → option str) (pg_stores : IPBody → bool).
Context (u : Permissions.user) (sid : str) (strategy : str) (user : option str).







End run.


(** What a create of [a] needs. *)
Definition creatable (idna_encode : str → option str) (pg_stores : IPBody → bool) (pg_inet : addr_text → option IPAddr) (w : World) (u : Permissions.user) (sid : str) (address : addr_text)
    (body : IPBody) (s : Subnet) (a : IPAddr) : Prop :=
  get_subnet (w_db w) sid = Some s ∧ Permissions.token_scope_allows u "subnet" (Some sid) = true ∧ s_kind s ≠ "multicast"
  ∧ AddressSets.ip_address address = Some a ∧ pg_inet address = Some a ∧ mem (s_network s) a
  ∧ user_can_write_ip (ip a) (may_write u sid) (load_writable_set_ranges u "write" (w_sets w) sid) = true
  ∧ (b_status body = "static_dhcp" → default [] (b_mac body) ≠ [])
  ∧ (ver (s_network s) = V4 → a ∉ SubnetBoundary.boundary_addresses (s_network s) (s_kind s))
  ∧ a ∉ used_addresses w sid
  ∧ ¬ linked_slot w sid a ∧ pg_stores body = true ∧ _sync_dns_record idna_encode w s (b_hostname body) = Ok tt.

Lemma create_address_Ok idna_encode pg_stores pg_inet w u sid address body user a w' :
  (∀ t x y, AddressSets.ip_address t = Some x → pg_inet t = Some y → y = x) → tree_ok (w_db w) → keys_unique (w_db w) →
  create_address idna_encode pg_stores pg_inet w u sid address body user = Ok (a, w') →
  ∃ s rows, creatable idna_encode pg_stores pg_inet w u sid address body s a ∧ rows_after (w_db w) sid a body user rows
    ∧ w' = recount (with_db w (set_addresses (w_db w) rows)) s.
Proof.
  intros Hpg Hok Hu H. unfold create_address in H. destruct (get_subnet (w_db w) sid) as [s|] eqn:Hs; [|done].
  destruct (live_wf sid w s Hok Hs) as [Hn Hid].
  apply bind_Ok in H as (_ & Htok%raise_if_Ok%negb_false_iff & H). apply bind_Ok in H as (_ & Hk%raise_if_Ok%bool_decide_eq_false & H).
  apply bind_Ok in H as (addr & Ha & H). destruct (AddressSets.ip_address address) as [x|] eqn:Ex; [|done]. injection Ha as ->.
  apply bind_Ok in H as (_ & Hm%raise_if_Ok%negb_false_iff & H). apply contains_mem in Hm; [|done].
  apply bind_Ok in H as (_ & Hw%raise_if_Ok%negb_false_iff & H). apply bind_Ok in H as (_ & Hmac%raise_if_Ok & H).
  apply bind_Ok in H as (_ & Hb%raise_if_Ok & H). apply bind_Ok in H as (stored & Hst & H).
  destruct (pg_inet address) as [y|] eqn:Ey; [|done]. injection Hst as ->. assert (stored = addr) as -> by (by apply (Hpg address)).
  apply bind_Ok in H as (_ & Hfree%raise_if_Ok%bool_decide_eq_false & H). apply bind_Ok in H as (w1 & Ht & H). apply bind_Ok in H as ([] & Hsync & H). injection H as <- <-.
  pose proof (take_row pg_stores w sid addr body user Hu Hfree) as Hr. rewrite Ht in Hr. destruct Hr as ([Hpg' Hnl] & rows & -> & Hrows). exists s, rows.
  rewrite sync_after_take in Hsync.
  split_and!; [|done|done]. unfold creatable. split_and!; try done.
  - intros E1 E2. rewrite E1, E2 in Hmac. done.
  - intros Hv. unfold boundary_address_refusal in Hb. rewrite (bool_decide_true (ver _ = V4)) in Hb by done. cbn in Hb. by apply bool_decide_eq_false in Hb.
Qed.

Lemma create_address_succeeds idna_encode pg_stores pg_inet w u sid address body user s a : tree_ok (w_db w) → keys_unique (w_db w) →
  creatable idna_encode pg_stores pg_inet w u sid address body s a → is_ok (create_address idna_encode pg_stores pg_inet w u sid address body user) = true.
Proof.
  intros Hok Hu (Hs & Htok & Hk & Ex & Ey & Hm & Hw & Hmac & Hb & Hfree & Hnl & Hpg & Hsync). destruct (live_wf sid w s Hok Hs) as [Hn Hid].
  unfold create_address. rewrite Hs, Htok, (bool_decide_false (s_kind s = _)), Ex by done. cbn [negb raise_if mbind result_bind].
  rewrite (proj2 (contains_mem _ _ Hn) Hm), Hw. cbn [negb raise_if mbind result_bind].
  assert (E1 : bool_decide (b_status body = "static_dhcp") && bool_decide (default [] (b_mac body) = []) = false).
  { apply andb_false_iff. rewrite !bool_decide_eq_false. destruct (decide (b_status body = "static_dhcp")); [right; auto|by left]. }
  assert (E2 : boundary_address_refusal s a = false).
  { unfold boundary_address_refusal. apply andb_false_iff. rewrite !bool_decide_eq_false. destruct (decide (ver (s_network s) = V4)); [right; auto|by left]. }
  rewrite E1, E2, Ey. cbn [raise_if mbind result_bind]. unfold assert_address_unallocated. rewrite (bool_decide_false (a ∈ _)) by done.
  cbn [raise_if mbind result_bind]. rewrite (take_then_sync (B := IPAddr * World)), Hsync. pose proof (take_row pg_stores w sid a body user Hu Hfree) as Ht.
  destruct (take_address_row _ _ _ _ _ _); [done|]. exfalso. destruct Ht as [[_ ?]|[_ ?]]; [done|congruence].
Qed.

(** [create_address] answers exactly as its rules say, and keeps the
    rows: it succeeds when token, subnet kind, address, permission, reservation
    MAC and boundary allow it, no row holds the address, no free slot there is
    still linked to a reservation, the values can be stored and the name
    published; it then leaves exactly one row at the
    address, the caller's, every other row untouched, rows unique, the tree
    well-formed and the subnet's counter true. *)
Theorem create_address_exact (idna_encode : str → option str) (pg_stores : IPBody → bool) (pg_inet : addr_text → option IPAddr) (w : World) (u : Permissions.user) (sid : str) (address : addr_text)
    (body : IPBody) (user : option str) :
  (∀ t x y, AddressSets.ip_address t = Some x → pg_inet t = Some y → y = x) → tree_ok (w_db w) → keys_unique (w_db w) →
  (is_ok (create_address idna_encode pg_stores pg_inet w u sid address body user) = true ↔ ∃ s a, creatable idna_encode pg_stores pg_inet w u sid address body s a)
  ∧ ∀ a w', create_address idna_encode pg_stores pg_inet w u sid address body user = Ok (a, w') →
      AddressSets.ip_address address = Some a ∧ rows_after (w_db w) sid a body user (ip_address (w_db w'))
      ∧ tree_ok (w_db w') ∧ ∃ s', get_subnet (w_db w') sid = Some s' ∧ s_allocated_ips s' = count_of (w_db w') sid.
Proof.
  intros Hpg Hok Hu. split; [split|].
  - destruct (create_address _ _ _ _ _ _ _) as [[a w']|e] eqn:E; [|done]. intros _.
    apply create_address_Ok in E as (s & _ & Hc & _); [|done..]. by exists s, a.
  - intros (s & a & Hc). by eapply create_address_succeeds.
  - intros a w' E. apply create_address_Ok in E as (s & rows & Hc & Hrows & ->); [|done..].
    destruct Hc as (Hs & _ & _ & Ex & _). destruct (live_wf sid w s Hok Hs) as [_ <-]. set (w1 := with_db w (set_addresses (w_db w) rows)).
    destruct (recount_subnet w1 s s) as (s' & Hs' & _ & _ & _ & _ & Ec); [done|].
    split_and!; [done|by rewrite recount_rows|apply recount_tree; by apply tree_addresses|by exists s'].
Qed.

(** A /29 with its boundary rows, a host, a free slot and a dynamic pool. *)
Definition lan (v : Z) : IPAddr := mkAddr V4 (167772160 + v).
Definition lan_row (v : Z) (st : str) : IPAddress := mkIPAddress "s" (lan v) st None "" None None.
Definition lan_db : Db :=
  mkDb [mkBlock "b" "sp" None (mkNet V4 167772160 24) 0 256 false] [mkSubnet "s" "sp" "b" (mkNet V4 167772160 29) "unicast" None 6 0 false]
    [lan_row 0 "network"; lan_row 7 "broadcast"; lan_row 1 "reserved"; lan_row 2 "available"].
Definition no_zones : Bindings := mkBindings ∅ ∅ ∅ ∅.
(** The block is bound to the zone [corp.example]; the subnet inherits. *)
Definition corp : Bindings := mkBindings ∅ {["b" : str := Some ("z" : str)]} ∅ {["z" : str := "corp.example" : str]}.
Definition lan_world : World := mkWorld lan_db [mkPool "s" "dynamic" (lan 4) (lan 5)] ∅ ∅ ∅ [] corp.
Definition ask (h : str) : IPBody := mkBody "allocated" h None "".
Definition no_idna (label : str) : option str := None.
(** PostgreSQL reads a MAC of six colon-separated pairs, here one of 17 characters. *)
Definition pg_sample (body : IPBody) : bool := match b_mac body with None => true | Some m => (length m =? 17)%nat end.

Lemma lan_tree : tree_ok (w_db lan_world).
Proof. apply tree_okb_sound. vm_compute. reflexivity. Qed.
Lemma lan_keys : keys_unique (w_db lan_world).
Proof. apply (bool_decide_unpack _). vm_compute. exact I. Qed.


Lemma allocate_next_ip_safe_witness : ∃ w',
  allocate_next_ip id [] no_idna pg_sample lan_world AddressSets.owner "s" "sequential" (ask "a") None = Ok (lan 2, w')
  ∧ rows_after (w_db lan_world) "s" (lan 2) (ask "a") None (ip_address (w_db w')).
Proof.
  eexists. split; [vm_compute; reflexivity|].
  destruct (allocate_next_ip_safe id [] no_idna pg_sample lan_world AddressSets.owner "s" "sequential" (ask "a") None (lan 2) _ (λ l, reflexivity l) lan_tree lan_keys
    ltac:(vm_compute; reflexivity)) as (s & s' & _ & _ & _ & _ & _ & _ & _ & _ & H & _).
  exact H.
Defined.



(** A zone whose own name is no host name takes no host record, so no address
    of the subnet bound to it can be allocated with a name. *)
Example underscored_zone :
  let w := mkWorld lan_db [] ∅ ∅ ∅ [] (mkBindings {["s" : str := Some ("z" : str)]} ∅ ∅ {["z" : str := "a_b.example." : str]}) in
  match allocate_next_ip id [] no_idna pg_sample w AddressSets.owner "s" "sequential" (ask "a") None with
  | Err e => e = NameUnfit ∧ address_status e = 422 | Ok _ => False end.
Proof. vm_compute. split; reflexivity. Qed.

Lemma create_address_exact_witness :
  map (λ v, is_ok (create_address no_idna pg_sample AddressSets.read_inet lan_world AddressSets.owner "s" (AddressSets.Canon (lan v)) (ask "a") None)) [0; 1; 2; 4; 7; 8]
    = [false; false; true; true; false; false]
  ∧ ∃ s a, creatable no_idna pg_sample AddressSets.read_inet lan_world AddressSets.owner "s" (AddressSets.Canon (lan 4)) (ask "a") s a.
Proof.
  split; [vm_compute; reflexivity|].
  apply (create_address_exact no_idna pg_sample AddressSets.read_inet lan_world AddressSets.owner "s" (AddressSets.Canon (lan 4)) (ask "a") None
    ltac:(intros t x y E1 E2; unfold AddressSets.read_inet in E2; congruence) lan_tree lan_keys).
  vm_compute. reflexivity.
Defined.
End NextIp.
