(* ===== verification/SoftDelete.v ===== *)
(** * Soft delete and restore

    [backend/app/services/soft_delete.py]: the cascade that moves a row and
    everything below it to the Trash under one batch, the conflict rules of a
    restore and the restore of a batch; [orphan_record_owners] of
    [backend/app/services/ipam/orphan_aliases.py] and
    [_assert_no_overlapping_group_cidr] of [backend/app/api/v1/dhcp/scopes.py].

    The soft-deletable tables are one list of rows here, in query order, each
    row with its three Trash columns and its data; ids are unique over all of
    them (they are UUIDs).  Labels and messages are not modelled: a conflict
    carries the row and the rows its message names.  The zone locks a restore
    takes have no effect on the rows.  The overlap rules are the ones of
    [TreeCreate], on the blocks and subnets of the table. *)
From S2P Require Import Prelude PyStr IpNet Ipam TreeCreate.

Module SoftDelete.
Import IpNet.
Import TreeCreate(CreateError, OverlapsSubnet, OverlapsBlock, ContainedIn, BlockExists, MixedFamilies).
Local Open Scope Z_scope.

(** ** Rows *)
Record RecordData := mkRecord {
  zone_id : str; d_name : str; record_type : str; d_value : str; view_id : option str;
  priority : option Z; weight : option Z; port : option Z;
  auto_generated : bool; ip_address_id : option str }.

Inductive Data :=
| IPSpace (name : str)
| IPBlock (space : str) (parent : option str) (network : IPNetwork)
| Subnet (space block : str) (network : IPNetwork)
| DNSZone (group : str) (view : option str) (name : str)
| DNSRecord (d : RecordData)
| DHCPScope (group subnet : str) (is_active : bool)
| Customer (name : str)
| OverlayNetwork (name : str) (customer : option str)
| NetworkService (name : str) (customer : option str)
| DHCPPool (scope : str)
| DHCPStaticAssignment (scope mac : str).

(** The columns of [SoftDeleteMixin]. *)
Record Stamp := mkStamp { deleted_at : option Z; deleted_by_user_id : option str; deletion_batch_id : option str }.

Definition no_stamp : Stamp := mkStamp None None None.

Record Row := mkRow { r_id : str; r_stamp : Stamp; r_data : Data }.

(** An IP address: what the record rules read of it. *)
Record Address := mkAddress { a_id : str; a_subnet : str; a_status : str }.

Record Db := mkDb { rows : list Row; addresses : list Address }.

#[export] Instance RecordData_eq_dec : EqDecision RecordData.
Proof. solve_decision. Defined.
#[export] Instance Data_eq_dec : EqDecision Data.
Proof. solve_decision. Defined.
#[export] Instance Stamp_eq_dec : EqDecision Stamp.
Proof. solve_decision. Defined.
#[export] Instance Row_eq_dec : EqDecision Row.
Proof. solve_decision. Defined.

Definition _resource_type (r : Row) : str :=
  match r_data r with
  | IPSpace _ => "ip_space"
  | IPBlock _ _ _ => "ip_block"
  | Subnet _ _ _ => "subnet"
  | DNSZone _ _ _ => "dns_zone"
  | DNSRecord _ => "dns_record"
  | DHCPScope _ _ _ => "dhcp_scope"
  | Customer _ => "customer"
  | OverlayNetwork _ _ => "overlay_network"
  | NetworkService _ _ => "network_service"
  | DHCPPool _ => "dhcp_pool"
  | DHCPStaticAssignment _ _ => "dhcp_static_assignment"
  end.

(** The order in which [TYPE_TO_MODEL] is swept. *)
Definition TYPE_TO_MODEL : list str :=
  ["ip_space"; "ip_block"; "subnet"; "dns_zone"; "dns_record"; "dhcp_scope"; "customer";
   "overlay_network"; "network_service"; "dhcp_pool"; "dhcp_static_assignment"]%list.

Definition live (r : Row) : bool := bool_decide (deleted_at (r_stamp r) = None).
Definition in_batch (batch_id : str) (r : Row) : bool := bool_decide (deletion_batch_id (r_stamp r) = Some batch_id).

Definition set_stamp (s : Stamp) (r : Row) : Row := mkRow (r_id r) s (r_data r).
Definition update_rows (f : Row → Row) (db : Db) : Db := mkDb (map f (rows db)) (addresses db).

(** [select(...).where(...)]: with the session's filter, and with
    [include_deleted=True]. *)
Definition select (db : Db) (p : Row → bool) : list Row := List.filter (λ r, live r && p r) (rows db).
Definition select_all (db : Db) (p : Row → bool) : list Row := List.filter p (rows db).

(** The row of a model with an id, the Trash included. *)
Definition get (db : Db) (type id : str) : option Row :=
  List.find (λ r, bool_decide (r_id r = id) && bool_decide (_resource_type r = type)) (rows db).

(** ** Collecting *)

(** The rows the walk finds directly below [root]. *)
Definition block_in_space (space : str) (r : Row) : bool :=
  match r_data r with IPBlock s _ _ => bool_decide (s = space) | _ => false end.
Definition block_under (block : str) (r : Row) : bool :=
  match r_data r with IPBlock _ p _ => bool_decide (p = Some block) | _ => false end.
Definition subnet_in_space (space : str) (r : Row) : bool :=
  match r_data r with Subnet s _ _ => bool_decide (s = space) | _ => false end.
Definition subnet_under (block : str) (r : Row) : bool :=
  match r_data r with Subnet _ b _ => bool_decide (b = block) | _ => false end.
Definition scope_of (subnet : str) (r : Row) : bool :=
  match r_data r with DHCPScope _ s _ => bool_decide (s = subnet) | _ => false end.
Definition pool_of (scope : str) (r : Row) : bool :=
  match r_data r with DHCPPool s => bool_decide (s = scope) | _ => false end.
Definition static_of (scope : str) (r : Row) : bool :=
  match r_data r with DHCPStaticAssignment s _ => bool_decide (s = scope) | _ => false end.
Definition record_of (zone : str) (r : Row) : bool :=
  match r_data r with DNSRecord d => bool_decide (zone_id d = zone) | _ => false end.

(** [for c in cs: out.extend(rec(c)); out.append(c)] *)
Fixpoint subtrees (rec : Row → option (list Row)) (out cs : list Row) : option (list Row) :=
  match cs with
  | [] => Some out
  | c :: cs' => below ← rec c; subtrees rec (out ++ below ++ [c]) cs'
  end.

(** The same, leaving out what [out] already names. *)
Fixpoint new_subtrees (rec : Row → option (list Row)) (out cs : list Row) : option (list Row) :=
  match cs with
  | [] => Some out
  | c :: cs' =>
      if existsb (λ x, bool_decide (r_id x = r_id c)) out then new_subtrees rec out cs'
      else below ← rec c; new_subtrees rec (out ++ below ++ [c]) cs'
  end.

(** [None]: the recursion goes deeper than [fuel]. *)
Fixpoint _collect_descendants (fuel : nat) (db : Db) (root : Row) : option (list Row) :=
  match fuel with
  | O => None
  | S fuel' =>
      let rec := _collect_descendants fuel' db in
      match r_data root with
      | IPSpace _ =>
          out ← subtrees rec [] (select db (block_in_space (r_id root)));
          new_subtrees rec out (select db (subnet_in_space (r_id root)))
      | IPBlock _ _ _ =>
          out ← subtrees rec [] (select db (block_under (r_id root)));
          subtrees rec out (select db (subnet_under (r_id root)))
      | Subnet _ _ _ => subtrees rec [] (select db (scope_of (r_id root)))
      | DHCPScope _ _ _ => Some (select db (pool_of (r_id root)) ++ select db (static_of (r_id root)))
      | _ => Some []
      end
  end.

Record BulkChild := mkBulk { parent : Row; count : nat }.

Record SoftDeleteBatch := mkBatch {
  batch_id : str; b_rows : list Row; bulk : list BulkChild; row_keys : gset (str * str) }.

Definition key (r : Row) : str * str := (_resource_type r, r_id r).

(** The loop of [add_to_batch], with the rows it added. *)
Fixpoint add_rows (batch : SoftDeleteBatch) (added objs : list Row) : SoftDeleteBatch * list Row :=
  match objs with
  | [] => (batch, added)
  | obj :: objs' =>
      if bool_decide (key obj ∈ row_keys batch) then add_rows batch added objs'
      else add_rows (mkBatch (batch_id batch) (b_rows batch ++ [obj]) (bulk batch) ({[key obj]} ∪ row_keys batch))
             (added ++ [obj]) objs'
  end.

Definition is_zone (r : Row) : bool := match r_data r with DNSZone _ _ _ => true | _ => false end.
Definition is_record (r : Row) : bool := match r_data r with DNSRecord _ => true | _ => false end.

Definition _attach_bulk (db : Db) (batch : SoftDeleteBatch) (objs : list Row) : SoftDeleteBatch :=
  mkBatch (batch_id batch) (b_rows batch)
    (bulk batch ++ map (λ obj, mkBulk obj (length (select db (record_of (r_id obj))))) (List.filter is_zone objs))
    (row_keys batch).

Definition add_to_batch (fuel : nat) (db : Db) (batch : SoftDeleteBatch) (root : Row) : option SoftDeleteBatch :=
  below ← _collect_descendants fuel db root;
  let '(batch, added) := add_rows batch [] (below ++ [root]) in
  Some (_attach_bulk db batch added).

(** [collect_soft_delete_batch] of the first root, [add_to_batch] of the others. *)
Definition new_batch (id : str) : SoftDeleteBatch := mkBatch id [] [] ∅.
Fixpoint collect_roots (fuel : nat) (db : Db) (batch : SoftDeleteBatch) (roots : list Row) : option SoftDeleteBatch :=
  match roots with
  | [] => Some batch
  | root :: roots' => batch ← add_to_batch fuel db batch root; collect_roots fuel db batch roots'
  end.

(** ** Stamping *)
Definition stamp_of (batch : SoftDeleteBatch) (user : option str) (now : Z) : Stamp :=
  mkStamp (Some now) user (Some (batch_id batch)).

(** The UPDATE of one zone's live records, with the rows it changed. *)
Definition stamp_bulk (s : Stamp) (db : Db) (child : BulkChild) : Db * BulkChild :=
  let hit := λ r, record_of (r_id (parent child)) r && live r in
  (update_rows (λ r, if hit r then set_stamp s r else r) db,
   mkBulk (parent child) (length (List.filter hit (rows db)))).

Fixpoint stamp_bulks (s : Stamp) (db : Db) (children : list BulkChild) : Db * list BulkChild :=
  match children with
  | [] => (db, [])
  | c :: cs => let '(db, c') := stamp_bulk s db c in let '(db, cs') := stamp_bulks s db cs in (db, c' :: cs')
  end.

Definition apply_soft_delete (db : Db) (batch : SoftDeleteBatch) (user : option str) (now : Z) : Db * SoftDeleteBatch :=
  let s := stamp_of batch user now in
  let db := update_rows (λ r, if bool_decide (key r ∈ map key (b_rows batch)) then set_stamp s r else r) db in
  let '(db, children) := stamp_bulks s db (bulk batch) in
  (db, mkBatch (batch_id batch) (b_rows batch) children (row_keys batch)).

(** ** Parents in the Trash *)

(** [model.id == parent_id] on a nullable column. *)
Definition _trashed_parent (db : Db) (type : str) (parent_id batch : option str) : option Row :=
  match parent_id with
  | None => None
  | Some pid =>
      match get db type pid with
      | None => None
      | Some p =>
          if live p then None
          else if bool_decide (deletion_batch_id (r_stamp p) = batch) then None else Some p
      end
  end.

(** The parents a row is checked for, with the kind its message names. *)
Definition candidates (obj : Row) : list (str * str * option str) :=
  match r_data obj with
  | Subnet space block _ => [("block" : str, "ip_block" : str, Some block); ("IP space" : str, "ip_space" : str, Some space)]
  | IPBlock space parent _ => [("parent block" : str, "ip_block" : str, parent); ("IP space" : str, "ip_space" : str, Some space)]
  | DHCPScope _ subnet _ => [("subnet" : str, "subnet" : str, Some subnet)]
  | DHCPPool scope | DHCPStaticAssignment scope _ => [("DHCP scope" : str, "dhcp_scope" : str, Some scope)]
  | DNSRecord d => [("zone" : str, "dns_zone" : str, Some (zone_id d))]
  | NetworkService _ customer | OverlayNetwork _ customer => [("customer" : str, "customer" : str, customer)]
  | _ => []
  end.

Fixpoint first_trashed (db : Db) (batch : option str) (l : list (str * str * option str)) : option (str * Row) :=
  match l with
  | [] => None
  | (kind, type, pid) :: l' =>
      match _trashed_parent db type pid batch with
      | Some p => Some (kind, p)
      | None => first_trashed db batch l'
      end
  end.

Definition trashed_parent (db : Db) (obj : Row) : option (str * Row) :=
  first_trashed db (deletion_batch_id (r_stamp obj)) (candidates obj).

(** ** The conflict rules of one row *)
Inductive Reason :=
| ParentInTrash (kind : str) (p : Row)
| NameTaken (r : Row)
| CidrTaken (r : Row)
| WouldContain (inner : option IPNetwork)
| Refused (e : CreateError)
| ScopeTaken (r : Row)
| PrefixCovered (n : IPNetwork)
| MacTaken (r : Row)
| IdenticalRecord
| CnameConflict (other : Row)
| OrphanAddress (a : Address).

(** [MultipleResultsFound] and [TypeError], which nobody handles. *)
Inductive Crash := MultipleRows | Incomparable.

Definition scalar_one_or_none (l : list Row) : result Crash (option Row) :=
  match l with
  | [] => Ok None
  | [r] => Ok (Some r)
  | _ => Err MultipleRows
  end.

Definition as_reason {A} (f : A → Reason) (o : option A) : option Reason := f <$> o.

(** The blocks and subnets as the overlap checks of the IPAM router read them. *)
Definition as_block (r : Row) : option Ipam.IPBlock :=
  match r_data r with
  | IPBlock s p n => Some (Ipam.mkBlock (r_id r) s p n 0 0 (negb (live r)))
  | _ => None
  end.
Definition as_subnet (r : Row) : option Ipam.Subnet :=
  match r_data r with
  | Subnet s b n => Some (Ipam.mkSubnet (r_id r) s b n [] None 0 0 (negb (live r)))
  | _ => None
  end.
Definition ipam (db : Db) : Ipam.Db := Ipam.mkDb (omap as_block (rows db)) (omap as_subnet (rows db)) [].

(** [try: ... except HTTPException]: a [TypeError] is not one. *)
Definition caught {A} (r : result CreateError A) : result Crash (CreateError + A) :=
  match r with
  | Ok a => Ok (inr a)
  | Err MixedFamilies => Err Incomparable
  | Err e => Ok (inl e)
  end.

Definition network_of (db : Db) (id : str) : option IPNetwork :=
  r ← get db "subnet" id; match r_data r with Subnet _ _ n => Some n | _ => None end.

(** The networks of the group's other active scopes that overlap [net]. *)
Definition _assert_no_overlapping_group_cidr (db : Db) (group subnet : str) (net : IPNetwork) (exclude : str) : option IPNetwork :=
  head (omap (λ sc, match r_data sc with
                    | DHCPScope g s true =>
                        if bool_decide (g = group) && negb (bool_decide (s = subnet)) && live sc && negb (bool_decide (r_id sc = exclude))
                        then n ← network_of db s; if overlaps n net then Some n else None
                        else None
                    | _ => None
                    end) (rows db)).

Definition others (db : Db) (obj : Row) (p : Data → bool) : list Row :=
  select db (λ r, p (r_data r) && negb (bool_decide (r_id r = r_id obj))).

Definition group_of (db : Db) (scope : str) : option str :=
  r ← get db "dhcp_scope" scope; match r_data r with DHCPScope g _ _ => Some g | _ => None end.

Definition space_check (db : Db) (obj : Row) (name : str) : result Crash (option Reason) :=
  hit ← scalar_one_or_none (others db obj (λ d, match d with IPSpace n => bool_decide (n = name) | _ => false end));
  Ok (as_reason NameTaken hit).

Definition block_check (db : Db) (obj : Row) (space : str) (parent : option str) (network : IPNetwork) : result Crash (option Reason) :=
  hit ← scalar_one_or_none (others db obj (λ d, match d with IPBlock s _ n => bool_decide (s = space) && bool_decide (n = network) | _ => false end));
  match hit with
  | Some r => Ok (Some (CidrTaken r))
  | None =>
      covered ← caught (TreeCreate._assert_no_block_overlap (ipam db) space network parent (Some (r_id obj)));
      Ok (match covered with
          | inl e => Some (Refused e)
          | inr [] => None
          | inr (c :: _) => Some (WouldContain (Ipam.b_network <$> Ipam.get_block (ipam db) c))
          end)
  end.

Definition subnet_check (db : Db) (obj : Row) (space : str) (network : IPNetwork) : result Crash (option Reason) :=
  hit ← scalar_one_or_none (others db obj (λ d, match d with Subnet s _ n => bool_decide (s = space) && bool_decide (n = network) | _ => false end));
  match hit with
  | Some r => Ok (Some (CidrTaken r))
  | None =>
      clear ← caught (TreeCreate._assert_no_overlap (ipam db) space network (Some (r_id obj)));
      Ok (match clear with inl e => Some (Refused e) | inr _ => None end)
  end.

Definition zone_check (db : Db) (obj : Row) (group : str) (view : option str) (name : str) : result Crash (option Reason) :=
  hit ← scalar_one_or_none (others db obj (λ d, match d with
    | DNSZone g v n => bool_decide (g = group) && bool_decide (v = view) && bool_decide (n = name) | _ => false end));
  Ok (as_reason NameTaken hit).

Definition scope_check (db : Db) (obj : Row) (group subnet : str) (is_active : bool) : result Crash (option Reason) :=
  hit ← scalar_one_or_none (others db obj (λ d, match d with
    | DHCPScope g s _ => bool_decide (g = group) && bool_decide (s = subnet) | _ => false end));
  match hit with
  | Some r => Ok (Some (ScopeTaken r))
  | None =>
      Ok (if is_active then
            net ← network_of db subnet;
            as_reason PrefixCovered (_assert_no_overlapping_group_cidr db group subnet net (r_id obj))
          else None)
  end.

(** The join of the reservations with their scopes, both filtered. *)
Definition static_check (db : Db) (obj : Row) (scope mac : str) : option Reason :=
  group ← group_of db scope;
  as_reason MacTaken (head (others db obj (λ d, match d with
    | DHCPStaticAssignment s m =>
        bool_decide (m = mac)
        && existsb (λ sc, match r_data sc with DHCPScope g _ _ => bool_decide (r_id sc = s) && bool_decide (g = group) | _ => false end)
             (select db (λ _, true))
    | _ => false
    end))).

Definition live_clash (db : Db) (obj : Row) : result Crash (option Reason) :=
  match r_data obj with
  | IPSpace name => space_check db obj name
  | IPBlock space parent network => block_check db obj space parent network
  | Subnet space _ network => subnet_check db obj space network
  | Customer name => Ok (as_reason NameTaken (head (others db obj (λ d, match d with Customer n => bool_decide (n = name) | _ => false end))))
  | OverlayNetwork name _ => Ok (as_reason NameTaken (head (others db obj (λ d, match d with OverlayNetwork n _ => bool_decide (n = name) | _ => false end))))
  | NetworkService name customer => Ok (as_reason NameTaken (head (others db obj (λ d, match d with
        NetworkService n c => bool_decide (c = customer) && bool_decide (n = name) | _ => false end))))
  | DNSZone group view name => zone_check db obj group view name
  | DHCPScope group subnet is_active => scope_check db obj group subnet is_active
  | DHCPStaticAssignment scope mac => Ok (static_check db obj scope mac)
  | DNSRecord _ | DHCPPool _ => Ok None
  end.

Definition default_conflict_check (db : Db) (obj : Row) : result Crash (option Reason) :=
  match trashed_parent db obj with
  | Some (kind, p) => Ok (Some (ParentInTrash kind p))
  | None => live_clash db obj
  end.

(** ** The conflict rules of the records of a batch *)
Definition as_record (r : Row) : option RecordData := match r_data r with DNSRecord d => Some d | _ => None end.

(** [func.upper(type) == "CNAME"]; [func.btrim]. *)
Definition cname (d : RecordData) : bool := bool_decide (upper (record_type d) = "CNAME").
Definition btrim (s : str) : str := strip (λ c, Ascii.eqb c " ") s.

Definition same_record (a b : RecordData) : bool :=
  bool_decide (zone_id a = zone_id b) && bool_decide (lower (d_name a) = lower (d_name b))
  && bool_decide (upper (record_type a) = upper (record_type b)) && bool_decide (btrim (d_value a) = btrim (d_value b))
  && bool_decide (view_id a = view_id b) && bool_decide (priority a = priority b)
  && bool_decide (weight a = weight b) && bool_decide (port a = port b).

Definition cname_beside (a b : RecordData) : bool :=
  bool_decide (zone_id a = zone_id b) && bool_decide (lower (d_name a) = lower (d_name b))
  && (bool_decide (view_id a = None) || bool_decide (view_id b = None) || bool_decide (view_id a = view_id b))
  && (cname a || cname b).

(** A relation of two records, on rows. *)
Definition on_records (p : RecordData → RecordData → bool) (a b : Row) : bool :=
  match as_record a, as_record b with
  | Some x, Some y => p x y && negb (bool_decide (r_id a = r_id b))
  | _, _ => false
  end.

Definition batch_records (db : Db) (batch : str) : list Row := select_all db (λ r, is_record r && in_batch batch r).

Definition _live_duplicate_exists (db : Db) (batch : str) (r : Row) : bool :=
  let zones := omap (λ b, zone_id <$> as_record b) (batch_records db batch) in
  existsb (λ l, on_records same_record l r
                && match as_record l with Some d => bool_decide (zone_id d ∈ zones) | None => false end)
    (select db is_record).

Definition _record_conflicts (db : Db) (batch : str) : list Row :=
  List.filter (_live_duplicate_exists db batch) (batch_records db batch).

Definition _live_cname_clash_exists (db : Db) (r : Row) : bool :=
  existsb (λ l, on_records cname_beside l r) (select db is_record).

(** The first live row each record meets, live rows in the order of creation. *)
Fixpoint first_per_record (found : list (Row * Row)) (pairs : list (Row * Row)) : list (Row * Row) :=
  match pairs with
  | [] => found
  | (rec, other) :: pairs' =>
      first_per_record (if existsb (λ f, bool_decide (r_id f.1 = r_id rec)) found then found else found ++ [(rec, other)]) pairs'
  end.

Definition _record_cname_conflicts (db : Db) (batch : str) : list (Row * Row) :=
  first_per_record []
    (l ← select db is_record; r ← List.filter (λ r, on_records cname_beside l r) (batch_records db batch); [(r, l)]).

Definition _record_parent_conflicts (db : Db) (batch : str) : list (Row * Row) :=
  omap (λ r, d ← as_record r;
             z ← get db "dns_zone" (zone_id d);
             if negb (live z) && negb (in_batch batch z) then Some (r, z) else None)
    (batch_records db batch).

Definition address_of (db : Db) (d : RecordData) : option Address :=
  i ← ip_address_id d; List.find (λ a, bool_decide (a_id a = i)) (addresses db).

Definition orphan_record_owners (db : Db) (batch : str) : list (Row * Address) :=
  omap (λ r, d ← as_record r;
             a ← address_of db d;
             z ← get db "dns_zone" (zone_id d);
             if auto_generated d && negb (live r) && bool_decide (a_status a = "orphan")
                && negb (bool_decide (deletion_batch_id (r_stamp z) = deletion_batch_id (r_stamp r)))
             then Some (r, a) else None)
    (batch_records db batch).

(** ** Restoring a batch *)
Record Conflict := mkConflict { c_row : Row; reason : Reason }.

Record RestoreResult := mkRestore {
  restored : list Row; conflicts : list Conflict; r_bulk : list (str * nat); held_back : list (Row * nat) }.

Definition among (r : Row) (l : list Row) : bool := existsb (λ x, bool_decide (r_id x = r_id r)) l.

(** The subnet in the Trash a record of the batch belongs to by its address. *)
Definition held_by (db : Db) (batch : str) (r : Row) : option Row :=
  d ← as_record r;
  if in_batch batch r && auto_generated d then
    a ← address_of db d;
    sn ← get db "subnet" (a_subnet a);
    match deletion_batch_id (r_stamp sn) with
    | Some b => if negb (live sn) && negb (bool_decide (b = batch)) then Some sn else None
    | None => None
    end
  else None.

(** One entry per subnet, in the order the records are met. *)
Fixpoint tally (held : list (Row * nat)) (l : list Row) : list (Row * nat) :=
  match l with
  | [] => held
  | sn :: l' =>
      tally (if among sn (map fst held)
             then map (λ '(x, n), if bool_decide (r_id x = r_id sn) then (x, S n) else (x, n)) held
             else held ++ [(sn, 1%nat)]) l'
  end.

Definition _hold_records_with_trashed_subnet (db : Db) (batch : str) : Db * list Row * list (Row * nat) :=
  let moved := List.filter (λ r, bool_decide (is_Some (held_by db batch r))) (rows db) in
  (update_rows (λ r, match held_by db batch r with Some sn => set_stamp (r_stamp sn) r | None => r end) db,
   moved, tally [] (omap (held_by db batch) (rows db))).

(** The UPDATE of one restored zone's records. *)
Definition unstamp_zone (batch : str) (dups cnames : bool) (db : Db) (zone : str) : Db * nat :=
  let hit := λ r, record_of zone r && in_batch batch r
                  && (negb cnames || negb (_live_cname_clash_exists db r))
                  && (negb dups || negb (_live_duplicate_exists db batch r)) in
  (update_rows (λ r, if hit r then set_stamp no_stamp r else r) db, length (List.filter hit (rows db))).

Fixpoint unstamp_zones (batch : str) (dups cnames : bool) (db : Db) (zones : list str) : Db * list (str * nat) :=
  match zones with
  | [] => (db, [])
  | z :: zs =>
      let '(db, n) := unstamp_zone batch dups cnames db z in
      let '(db, out) := unstamp_zones batch dups cnames db zs in
      (db, if (0 <? n)%nat then (z, n) :: out else out)
  end.

Definition Check := Row → result Crash (option Reason).

(** The record conflicts, in the order they are reported. *)
Definition record_checks (db : Db) (batch : str) : list Conflict * list Row :=
  let record_conflicts := _record_conflicts db batch in
  let cnames := List.filter (λ f, negb (among f.1 record_conflicts)) (_record_cname_conflicts db batch) in
  let parents := _record_parent_conflicts db batch in
  let orphans := List.filter (λ f, negb (among f.1 record_conflicts || among f.1 (map fst parents)))
                   (orphan_record_owners db batch) in
  (map (λ '(r, other), mkConflict r (CnameConflict other)) cnames
   ++ map (λ r, mkConflict r IdenticalRecord) record_conflicts
   ++ map (λ '(r, z), mkConflict r (ParentInTrash "zone" z)) parents
   ++ map (λ '(r, a), mkConflict r (OrphanAddress a)) orphans,
   map fst cnames ++ record_conflicts ++ map fst parents ++ map fst orphans).

(** The sweep of one model: what may come back, and what clashes. *)
Fixpoint sweep (check : option Check) (l : list Row) : result Crash (list Row * list Conflict) :=
  match l with
  | [] => Ok ([], [])
  | obj :: l' =>
      found ← match check with None => Ok None | Some f => f obj end;
      rest ← sweep check l';
      Ok (match found with
          | Some why => (rest.1, mkConflict obj why :: rest.2)
          | None => (obj :: rest.1, rest.2)
          end)
  end.

Definition batch_rows (db : Db) (batch : str) : list Row :=
  type ← TYPE_TO_MODEL;
  if bool_decide (type = ("dns_record" : str)) then []
  else select_all db (λ r, bool_decide (_resource_type r = type) && in_batch batch r).

Definition restore_batch (db : Db) (batch : str) (check : option Check) (skip_conflicts : bool)
    : result Crash (Db * RestoreResult) :=
  let '(found, refused) := match check with None => ([], []) | Some _ => record_checks db batch end in
  swept ← sweep check (batch_rows db batch);
  let zone_ids := map r_id (List.filter is_zone swept.1) in
  let records := List.filter (λ r, match as_record r with Some d => negb (bool_decide (zone_id d ∈ zone_ids)) | None => false end
                                   && negb (among r refused)) (batch_records db batch) in
  let restored := swept.1 ++ records in
  let all := found ++ swept.2 in
  if negb (bool_decide (length all = 0%nat)) && negb skip_conflicts then Ok (db, mkRestore [] all [] [])
  else
    let dups := match check with None => false | Some _ => negb (bool_decide (length (_record_conflicts db batch) = 0%nat)) end in
    let cnames := match check with
                  | None => false
                  | Some _ => existsb (λ f, negb (among f.1 (_record_conflicts db batch))) (_record_cname_conflicts db batch)
                  end in
    let '(db, moved, held) := _hold_records_with_trashed_subnet db batch in
    let restored := List.filter (λ r, negb (among r moved)) restored in
    let '(db, bulk) := unstamp_zones batch dups cnames db zone_ids in
    Ok (update_rows (λ r, if among r restored then set_stamp no_stamp r else r) db, mkRestore restored all bulk held).

(** [batch_resource_types], and the rule of [restore_row] for a partial restore. *)
Definition batch_resource_types (db : Db) (batch : str) : list str :=
  List.filter (λ t, existsb (λ r, bool_decide (_resource_type r = t)) (select_all db (in_batch batch))) TYPE_TO_MODEL.
Definition _PARTIAL_RESTORE_TYPES : list str := ["dns_record" : str]%list.
Definition partial_allowed (db : Db) (batch : str) : bool :=
  forallb (λ t, bool_decide (t ∈ _PARTIAL_RESTORE_TYPES)) (batch_resource_types db batch).

(** ** What the Trash keeps *)

(** The rows a row cascades from: its parents, except the customer of a
    service or an overlay. *)
Definition parent_keys (r : Row) : list (str * str) := omap (λ '(_, type, pid), pair type <$> pid) (candidates r).
Definition owner_keys (r : Row) : list (str * str) := List.filter (λ k, negb (bool_decide (k.1 = "customer"))) (parent_keys r).

Definition network_clash (db : Db) (s t : str) : bool :=
  match network_of db s, network_of db t with Some n, Some m => overlaps n m | _, _ => false end.
Definition same_group (db : Db) (s t : str) : bool :=
  match group_of db s, group_of db t with Some g, Some h => bool_decide (g = h) | _, _ => false end.

(** Two rows that must not be live together. *)
Definition clash (db : Db) (a b : Row) : bool :=
  match r_data a, r_data b with
  | IPSpace n, IPSpace m => bool_decide (n = m)
  | IPBlock s p n, IPBlock t q m => bool_decide (s = t) && bool_decide (p = q) && overlaps n m
  | Subnet s _ n, Subnet t _ m => bool_decide (s = t) && overlaps n m
  | Customer n, Customer m => bool_decide (n = m)
  | OverlayNetwork n _, OverlayNetwork m _ => bool_decide (n = m)
  | NetworkService n c, NetworkService m d => bool_decide (c = d) && bool_decide (n = m)
  | DNSZone g v n, DNSZone h w m => bool_decide (g = h) && bool_decide (v = w) && bool_decide (n = m)
  | DNSRecord x, DNSRecord y => same_record x y || cname_beside x y
  | DHCPScope g s a, DHCPScope h t b => bool_decide (g = h) && (bool_decide (s = t) || (a && b && network_clash db s t))
  | DHCPStaticAssignment s m, DHCPStaticAssignment t n => bool_decide (m = n) && same_group db s t
  | _, _ => false
  end.

(** A block is also refused beside one of its CIDR at another level. *)
Definition same_cidr (a b : Row) : bool :=
  match r_data a, r_data b with
  | IPBlock s _ n, IPBlock t _ m => bool_decide (s = t) && bool_decide (n = m)
  | _, _ => false
  end.

Definition networks_wf (r : Row) : Prop :=
  match r_data r with IPBlock _ _ n | Subnet _ _ n => wf n | _ => True end.

Record trash_ok (db : Db) : Prop := {
  to_ids : NoDup (map r_id (rows db));
  to_networks r : r ∈ rows db → networks_wf r;
  to_stamps r : r ∈ rows db → live r → r_stamp r = no_stamp;
  to_owned r o : r ∈ rows db → o ∈ rows db → live r → key o ∈ owner_keys r → live o;
  to_clear r s : r ∈ rows db → s ∈ rows db → live r → live s → clash db r s → r = s;
}.

(** The rows of one batch could all be live together. *)
Record mates_ok (db : Db) (batch : str) : Prop := {
  mo_trashed r : r ∈ rows db → in_batch batch r → live r = false;
  mo_clear r s : r ∈ rows db → s ∈ rows db → in_batch batch r → in_batch batch s → clash db r s → r = s;
}.

(** [x] goes with [y]: both live, [y] one of the rows [x] hangs from. *)
Definition hangs (db : Db) (x y : Row) : Prop :=
  x ∈ rows db ∧ y ∈ rows db ∧ live x ∧ live y ∧ key y ∈ owner_keys x.

(** A live row under one of the roots, a root included. *)
Definition swept (db : Db) (roots : list Row) (r : Row) : Prop := ∃ root, root ∈ roots ∧ rtc (hangs db) r root.

(** No cycle of parents: [rank] grows from a row to what it hangs from. *)
Definition ranked (rank : str → nat) (db : Db) : Prop := ∀ x y, hangs db x y → (rank (r_id x) < rank (r_id y))%nat.

(** ** Walking down *)
Definition child_of (o r : Row) : bool :=
  match r_data o with
  | IPSpace _ => block_in_space (r_id o) r || subnet_in_space (r_id o) r
  | IPBlock _ _ _ => block_under (r_id o) r || subnet_under (r_id o) r
  | Subnet _ _ _ => scope_of (r_id o) r
  | DHCPScope _ _ _ => pool_of (r_id o) r || static_of (r_id o) r
  | DNSZone _ _ _ => record_of (r_id o) r
  | _ => false
  end.

Lemma elem_pair (t i : str) (l : list (str * str)) t' i' :
  (t, i) ∈ (t', i') :: l ↔ (t = t' ∧ i = i') ∨ (t, i) ∈ l.
Proof. rewrite elem_of_cons. naive_solver. Qed.

Lemma owner_child o r : key o ∈ owner_keys r ↔ child_of o r = true.
Proof.
  unfold owner_keys, parent_keys, candidates, child_of, key, block_in_space, subnet_in_space, block_under, subnet_under,
    scope_of, pool_of, static_of, record_of, _resource_type.
  destruct (r_data r);
    repeat match goal with x : option str |- _ => destruct x end; cbn; rewrite ?bool_decide_false by done; cbn;
    destruct (r_data o); cbn;
    rewrite ?elem_pair, ?elem_of_nil, ?orb_true_iff, ?orb_false_r, ?orb_false_l, ?bool_decide_eq_true; intuition congruence.
Qed.

Lemma key_inj db x y : trash_ok db → x ∈ rows db → y ∈ rows db → key x = key y → x = y.
Proof. intros Hok Hx Hy [= _ E]. by eapply (map_NoDup_inj r_id (rows db)); [apply to_ids| | |]. Qed.

Lemma elem_select db p r : r ∈ select db p ↔ r ∈ rows db ∧ live r ∧ p r = true.
Proof. unfold select. rewrite elem_filter, andb_true_iff. split; intros (? & ? & ?); split_and!; auto using Is_true_eq_true, Is_true_eq_left. Qed.

(** The walk's own edges: records are stamped otherwise. *)
Definition walks (db : Db) (x y : Row) : Prop := hangs db x y ∧ is_record x = false.

Lemma walks_child db x y : y ∈ rows db → live y → walks db x y ↔ x ∈ select db (λ r, child_of y r && negb (is_record r)).
Proof.
  intros Hy Hl. unfold walks, hangs. rewrite elem_select, owner_child, andb_true_iff, negb_true_iff. naive_solver.
Qed.

Lemma tc_last {A} (R : relation A) x z : tc R x z ↔ R x z ∨ ∃ y, tc R x y ∧ R y z.
Proof.
  split.
  - induction 1 as [x z H|x y z Hxy Hyz IH]; [by left|]. right.
    destruct IH as [H|(w & H1 & H2)]; [exists y; split; [by apply tc_once|done]|]. exists w. split; [by eapply tc_l|done].
  - intros [H|(y & H1 & H2)]; [by apply tc_once|by eapply tc_r].
Qed.

Section walk.
Context (db : Db) (Hok : trash_ok db).

Lemma subtrees_spec (rec : Row → option (list Row)) (R : Row → Row → Prop) cs : ∀ out,
  (∀ c, c ∈ cs → ∃ l, rec c = Some l ∧ ∀ x, x ∈ l ↔ R x c) →
  ∃ l, subtrees rec out cs = Some l ∧ ∀ x, x ∈ l ↔ x ∈ out ∨ ∃ c, c ∈ cs ∧ (x = c ∨ R x c).
Proof.
  induction cs as [|c cs IH]; intros out H; cbn.
  - exists out. split; [done|]. intros x. split; [by left|]. intros [?|(c & Hc & _)]; [done|by apply elem_of_nil in Hc].
  - destruct (H c ltac:(left)) as (l & -> & Hl). cbn.
    destruct (IH (out ++ l ++ [c])) as (l' & -> & Hl'); [intros; apply H; by right|]. exists l'. split; [done|].
    intros x. rewrite Hl', !elem_of_app, list_elem_of_singleton, Hl. setoid_rewrite elem_of_cons. naive_solver.
Qed.

Lemma walks_rows x y : tc (walks db) x y → x ∈ rows db.
Proof. by induction 1 as [x y [(H & _) _]|x y z [(H & _) _]]. Qed.

Lemma new_subtrees_spec (rec : Row → option (list Row)) (R : Row → Row → Prop) cs : ∀ out,
  (∀ x y z, R x y → R y z → R x z) → (∀ x, x ∈ out → x ∈ rows db) → (∀ c, c ∈ cs → c ∈ rows db) → (∀ x y, R x y → x ∈ rows db) →
  (∀ x y, y ∈ out → R x y → x ∈ out) →
  (∀ c, c ∈ cs → ∃ l, rec c = Some l ∧ ∀ x, x ∈ l ↔ R x c) →
  ∃ l, new_subtrees rec out cs = Some l ∧ ∀ x, x ∈ l ↔ x ∈ out ∨ ∃ c, c ∈ cs ∧ (x = c ∨ R x c).
Proof.
  induction cs as [|c cs IH]; intros out Ht Ho Hc Hr Hcl H; cbn.
  - exists out. split; [done|]. intros x. split; [by left|]. intros [?|(c & Hx & _)]; [done|by apply elem_of_nil in Hx].
  - destruct (existsb _ out) eqn:E.
    + apply existsb_elem in E as (y & Hy & Ey%bool_decide_eq_true).
      assert (y = c) as ->. { eapply (map_NoDup_inj r_id (rows db)); [by apply to_ids|auto|apply Hc; left|done]. }
      destruct (IH out) as (l & -> & Hl); [done|done|intros; apply Hc; by right|done|done|intros; apply H; by right|].
      exists l. split; [done|]. intros x. rewrite Hl. setoid_rewrite elem_of_cons. naive_solver.
    + destruct (H c ltac:(left)) as (l & -> & Hl). cbn.
      destruct (IH (out ++ l ++ [c])) as (l' & -> & Hl'); [done| |intros; apply Hc; by right|done| |intros; apply H; by right|].
      * intros x. rewrite !elem_of_app, list_elem_of_singleton, Hl. intros [?|[?| ->]]; eauto. apply Hc. left.
      * intros x y. rewrite !elem_of_app, !list_elem_of_singleton, !Hl. naive_solver.
      * exists l'. split; [done|]. intros x. rewrite Hl', !elem_of_app, list_elem_of_singleton, Hl.
        setoid_rewrite elem_of_cons. naive_solver.
Qed.

(** The walk below a row, from the two queries for what hangs from it. *)
Lemma two_queries root (p q : Row → bool) (l : list Row) : root ∈ rows db → live root →
  (∀ x, child_of root x && negb (is_record x) = p x || q x) →
  (∀ x, x ∈ l ↔ (∃ c, c ∈ select db p ∧ (x = c ∨ tc (walks db) x c)) ∨ ∃ c, c ∈ select db q ∧ (x = c ∨ tc (walks db) x c)) →
  ∀ x, x ∈ l ↔ tc (walks db) x root.
Proof.
  intros Hr Hl Hpq H x. rewrite H, tc_last. setoid_rewrite (walks_child db _ root Hr Hl).
  setoid_rewrite elem_select. setoid_rewrite Hpq. setoid_rewrite orb_true_iff. split.
  - intros [(c & (? & ? & ?) & [-> |?])|(c & (? & ? & ?) & [-> |?])]; [left|right; exists c|left|right; exists c]; tauto.
  - intros [(? & ? & [?|?])|(c & ? & ? & ? & [?|?])]; [left; exists x|right; exists x|left; exists c|right; exists c]; tauto.
Qed.

(** A leaf has nothing below it. *)
Lemma leaf_below root : (∀ x, child_of root x && negb (is_record x) = false) → root ∈ rows db → live root →
  ∀ x, ¬ tc (walks db) x root.
Proof.
  intros H Hr Hl x [Hx|(y & _ & Hx)]%tc_last;
    (apply walks_child, elem_select in Hx as (_ & _ & Hx); [by rewrite H in Hx|done|done]).
Qed.

Ltac by_kind := let y := fresh "y" in intros y; unfold child_of, is_record; repeat match goal with E : r_data _ = _ |- _ => rewrite E end;
  unfold block_in_space, subnet_in_space, block_under, subnet_under, scope_of, pool_of, static_of, record_of;
  destruct (r_data y); cbn; rewrite ?orb_false_r, ?andb_true_r, ?andb_false_r; try done; by case_bool_decide.

Lemma collect_spec rank fuel : ranked rank db → ∀ root, root ∈ rows db → live root → (rank (r_id root) < fuel)%nat →
  ∃ l, _collect_descendants fuel db root = Some l ∧ ∀ x, x ∈ l ↔ tc (walks db) x root.
Proof.
  intros Hrank. induction fuel as [|fuel IH]; intros root Hr Hl Hf; [lia|].
  assert (Hch : ∀ p q, (∀ x, child_of root x && negb (is_record x) = p x || q x) → ∀ c, c ∈ select db p ∨ c ∈ select db q →
            ∃ l, _collect_descendants fuel db c = Some l ∧ ∀ x, x ∈ l ↔ tc (walks db) x c).
  { intros p q Hp c Hc. assert (Hw : walks db c root).
    { apply walks_child, elem_select; [done|done|]. rewrite Hp, orb_true_iff. destruct Hc as [Hc|Hc]; apply elem_select in Hc; tauto. }
    destruct Hw as [Hw _]. pose proof (Hrank _ _ Hw). destruct Hw as (? & _ & ? & _). apply IH; [done|done|lia]. }
  pose proof (two_queries root) as Htwo. pose proof (leaf_below root) as Hleaf. cbn [_collect_descendants].
  destruct (r_data root) as [n|s p n|s b n|g v n|d|g s a|n|n c|n c|s|s m] eqn:Ed.
  all: try (exists []; split; [done|]; intros x; split; [by intros ?%elem_of_nil|]; intros Hx; exfalso;
            apply (Hleaf ltac:(by_kind) Hr Hl x Hx)).
  - assert (Hpq : ∀ x, child_of root x && negb (is_record x) = block_in_space (r_id root) x || subnet_in_space (r_id root) x) by by_kind. 
    set (p := block_in_space (r_id root)) in *. set (q := subnet_in_space (r_id root)) in *.
    destruct (subtrees_spec (_collect_descendants fuel db) (tc (walks db)) (select db p) []) as (l1 & -> & H1); [eauto|].
    cbn. destruct (new_subtrees_spec (_collect_descendants fuel db) (tc (walks db)) (select db q) l1) as (l2 & E2 & H2).
    + intros x y z. apply tc_transitive.
    + intros x [Hx|(c & (Hc & _)%elem_select & [-> |Hx])]%H1; [by apply elem_of_nil in Hx|done|by eapply walks_rows].
    + by intros c (Hc & _)%elem_select.
    + intros x y. apply walks_rows.
    + intros x y Hy Hx. rewrite H1 in *. destruct Hy as [Hy|(c & Hc & [-> |Hy])]; [by apply elem_of_nil in Hy| |];
        right; exists c; (split; [done|]); right; [done|by eapply tc_transitive].
    + eauto.
    + exists l2. split; [done|]. apply (Htwo p q); [done|done|done|]. intros x. rewrite H2, H1, elem_of_nil. tauto.
  - assert (Hpq : ∀ x, child_of root x && negb (is_record x) = block_under (r_id root) x || subnet_under (r_id root) x) by by_kind.
    set (p' := block_under (r_id root)) in *. set (q := subnet_under (r_id root)) in *.
    destruct (subtrees_spec (_collect_descendants fuel db) (tc (walks db)) (select db p') []) as (l1 & -> & H1); [eauto|].
    cbn. destruct (subtrees_spec (_collect_descendants fuel db) (tc (walks db)) (select db q) l1) as (l2 & E2 & H2); [eauto|].
    exists l2. split; [done|]. apply (Htwo p' q); [done|done|done|]. intros x. rewrite H2, H1, elem_of_nil. tauto.
  - assert (Hpq : ∀ x, child_of root x && negb (is_record x) = scope_of (r_id root) x || false) by by_kind.
    set (q := scope_of (r_id root)) in *.
    destruct (subtrees_spec (_collect_descendants fuel db) (tc (walks db)) (select db q) []) as (l1 & E1 & H1).
    { intros c Hc. apply (Hch q (λ _, false)); auto. }
    exists l1. split; [done|]. apply (Htwo q (λ _, false)); [done|done|done|]. intros x. rewrite H1, elem_of_nil.
    setoid_rewrite (elem_select _ (λ _, false)). naive_solver.
  - assert (Hpq : ∀ x, child_of root x && negb (is_record x) = pool_of (r_id root) x || static_of (r_id root) x) by by_kind.
    set (p := pool_of (r_id root)) in *. set (q := static_of (r_id root)) in *.
    exists (select db p ++ select db q). split; [done|]. apply (Htwo p q); [done|done|done|].
    assert (Hno : ∀ c, p c || q c = true → c ∈ rows db → live c → ∀ x, ¬ tc (walks db) x c).
    { intros c Hc. apply leaf_below. unfold p, q, pool_of, static_of, child_of in *. by destruct (r_data c). }
    intros x. rewrite elem_of_app. setoid_rewrite elem_select. setoid_rewrite orb_true_iff in Hno. split.
    + intros [(? & ? & ?)|(? & ? & ?)]; [left|right]; exists x; auto.
    + intros [(c & (? & ? & ?) & [-> |Hx])|(c & (? & ? & ?) & [-> |Hx])]; [by left| |by right|];
        by destruct (Hno c ltac:(auto) ltac:(done) ltac:(done) x).
Qed.
End walk.

(** ** Joining a batch *)
Lemma join_spec objs : ∀ batch added, ∃ new, add_rows batch added objs =
    (mkBatch (batch_id batch) (b_rows batch ++ new) (bulk batch) (row_keys batch ∪ list_to_set (map key new)), added ++ new)
  ∧ NoDup (map key new) ∧ (∀ x, x ∈ new → x ∈ objs ∧ key x ∉ row_keys batch)
  ∧ (∀ x, x ∈ objs → key x ∈ row_keys batch ∨ key x ∈ map key new).
Proof.
  induction objs as [|o objs IH]; intros batch added; cbn.
  - exists []. cbn. rewrite !app_nil_r, union_empty_r_L. split_and!; [by destruct batch|constructor|..]; by intros x ?%elem_of_nil.
  - case_bool_decide as Hk.
    + destruct (IH batch added) as (new & -> & Hn & H1 & H2). exists new. split_and!; [done|done| |].
      * intros x Hx. split; [right|]; by apply H1.
      * intros x [-> |Hx]%elem_of_cons; auto.
    + set (b' := mkBatch _ _ _ _). destruct (IH b' (added ++ [o])) as (new & -> & Hn & H1 & H2). exists (o :: new). cbn in *.
      rewrite <- !app_assoc. cbn. split_and!.
      * f_equal. f_equal. by rewrite (comm_L (∪) {[key o]}), <- assoc_L by apply _.
      * constructor; [|done]. intros (x & E & Hx)%list_elem_of_fmap. destruct (H1 x Hx) as [_ Hnot]. apply Hnot. rewrite <- E. by apply elem_of_union_l, elem_of_singleton.
      * intros x [-> |Hx]%elem_of_cons; [split; [left|done]|]. destruct (H1 x Hx) as [? Hnk]. split; [by right|]. intros Hx'. by apply Hnk, elem_of_union_r.
      * intros x [-> |Hx]%elem_of_cons; [right; left|]. destruct (H2 x Hx) as [H|?]; [|right; by right].
        apply elem_of_union in H as [Ek%elem_of_singleton|?]; [right; rewrite Ek; left|by left].
Qed.

(** What a batch under construction is. *)
Record batch_ok (db : Db) (batch : SoftDeleteBatch) (P : Row → Prop) : Prop := {
  bo_keys : row_keys batch = list_to_set (map key (b_rows batch));
  bo_NoDup : NoDup (map key (b_rows batch));
  bo_bulk : map parent (bulk batch) = List.filter is_zone (b_rows batch);
  bo_rows x : x ∈ b_rows batch ↔ P x;
}.

Lemma attach_parents db batch objs : map parent (bulk (_attach_bulk db batch objs)) = map parent (bulk batch) ++ List.filter is_zone objs.
Proof. unfold _attach_bulk. cbn. rewrite map_app, map_map. f_equal. apply map_id. Qed.

Section batches.
Context (db : Db) (Hok : trash_ok db) (rank : str → nat) (Hrank : ranked rank db) (fuel : nat).

Definition collected (roots : list Row) (x : Row) : Prop := ∃ root, root ∈ roots ∧ rtc (walks db) x root.

Lemma collected_rows roots x : (∀ root, root ∈ roots → root ∈ rows db) → collected roots x → x ∈ rows db.
Proof. intros H (root & Hr & Hx). destruct Hx as [x|x y z [(Hx & _) _] _]; auto. Qed.

Lemma add_to_batch_spec batch done root : batch_ok db batch (collected done) →
  (∀ r, r ∈ root :: done → r ∈ rows db ∧ live r) → (rank (r_id root) < fuel)%nat →
  ∃ batch', add_to_batch fuel db batch root = Some batch' ∧ batch_id batch' = batch_id batch ∧ batch_ok db batch' (collected (done ++ [root])).
Proof.
  intros [Hk Hn Hb Hr] Hroots Hf. destruct (Hroots root ltac:(left)) as [Hin Hl]. unfold add_to_batch.
  destruct (collect_spec db Hok rank fuel Hrank root Hin Hl Hf) as (below & -> & Hbelow). cbn.
  destruct (join_spec (below ++ [root]) batch []) as (new & -> & Hnd & H1 & H2). cbn.
  assert (Hall : ∀ x, x ∈ below ++ [root] ↔ rtc (walks db) x root).
  { intros x. rewrite elem_of_app, list_elem_of_singleton, Hbelow, rtc_tc. naive_solver. }
  assert (Hrows : ∀ x, collected (done ++ [root]) x → x ∈ rows db).
  { intros x. apply collected_rows. intros r [?| ->%list_elem_of_singleton]%elem_of_app; [|done]. by apply Hroots; right. }
  eexists. split; [done|]. split; [done|]. constructor; cbn.
  - by rewrite map_app, list_to_set_app_L, Hk.
  - rewrite map_app. apply NoDup_app. split_and!; [done| |done]. intros k Hin' (x & -> & Hx)%list_elem_of_fmap.
    apply H1 in Hx as [_ Hx]. apply Hx. rewrite Hk. by apply elem_of_list_to_set.
  - rewrite List.filter_app, map_app, map_map, Hb. f_equal. apply map_id.
  - intros x. rewrite elem_of_app. split.
    + intros [(r & ? & ?)%Hr|[Hx _]%H1]; [exists r; split; [apply elem_of_app; by left|done]|].
      exists root. split; [apply elem_of_app; right; by left|by apply Hall].
    + intros Hc. destruct Hc as (r & [Hrd|Hrd]%elem_of_app & Hx); [left; apply Hr; by exists r|].
      apply list_elem_of_singleton in Hrd as ->. pose proof (proj2 (Hall x) Hx) as Hobj.
      assert (Hxr : x ∈ rows db) by (apply Hrows; exists root; split; [apply elem_of_app; right; by left|done]).
      destruct (H2 x Hobj) as [Hkx|Hkx].
      * left. rewrite Hk, elem_of_list_to_set in Hkx. apply list_elem_of_fmap in Hkx as (y & Ek & Hy).
        replace x with y; [done|]. eapply key_inj; [done| |done|done]. apply Hrows. apply Hr in Hy as (r & ? & ?).
        exists r. split; [apply elem_of_app; by left|done].
      * right. apply list_elem_of_fmap in Hkx as (y & Ek & Hy). replace x with y; [done|].
        eapply key_inj; [done| |done|done]. apply Hrows. exists root. split; [apply elem_of_app; right; by left|].
        by apply Hall, H1.
Qed.

Lemma collect_roots_spec roots : ∀ done batch, batch_ok db batch (collected done) →
  (∀ r, r ∈ done ++ roots → r ∈ rows db ∧ live r) → (∀ r, r ∈ roots → (rank (r_id r) < fuel)%nat) →
  ∃ batch', collect_roots fuel db batch roots = Some batch' ∧ batch_id batch' = batch_id batch
            ∧ batch_ok db batch' (collected (done ++ roots)).
Proof.
  induction roots as [|root roots IH]; intros done batch Hb Hr Hf; cbn.
  - exists batch. by rewrite app_nil_r.
  - destruct (add_to_batch_spec batch done root) as (b1 & -> & Hid & Hb1); [done| |apply Hf; by left|].
    { intros r [-> |?]%elem_of_cons; apply Hr, elem_of_app; [right; by left|by left]. }
    cbn. rewrite <- Hid. replace (done ++ root :: roots) with ((done ++ [root]) ++ roots) by by rewrite <- app_assoc.
    apply IH; [done| |intros; apply Hf; by right]. intros r. rewrite <- app_assoc. apply Hr.
Qed.
End batches.

(** ** Changes of the stamps alone *)
Definition keeps_data (f : Row → Row) : Prop := ∀ r, r_id (f r) = r_id r ∧ r_data (f r) = r_data r.

Lemma keeps_stamp (p : Row → bool) (s : Row → Stamp) : keeps_data (λ r, if p r then set_stamp (s r) r else r).
Proof. intros r. by destruct (p r). Qed.

Lemma elem_update f db r : r ∈ rows (update_rows f db) ↔ ∃ r0, r0 ∈ rows db ∧ r = f r0.
Proof. cbn. rewrite list_elem_of_fmap. naive_solver. Qed.

Section updates.
Context (f : Row → Row) (Hf : keeps_data f).

Lemma update_type r : _resource_type (f r) = _resource_type r.
Proof. unfold _resource_type. by rewrite (proj2 (Hf r)). Qed.

Lemma update_key r : key (f r) = key r.
Proof. unfold key. by rewrite update_type, (proj1 (Hf r)). Qed.

Lemma update_owners r : owner_keys (f r) = owner_keys r.
Proof. unfold owner_keys, parent_keys, candidates. by rewrite (proj2 (Hf r)). Qed.

Lemma get_update db t i : get (update_rows f db) t i = f <$> get db t i.
Proof.
  unfold get. cbn. induction (rows db) as [|r l IH]; [done|]. cbn. rewrite update_type, (proj1 (Hf r)). by destruct (_ && _).
Qed.

Lemma network_update db s : network_of (update_rows f db) s = network_of db s.
Proof. unfold network_of. rewrite get_update. destruct (get db _ s); [|done]. cbn. by rewrite (proj2 (Hf _)). Qed.

Lemma group_update db s : group_of (update_rows f db) s = group_of db s.
Proof. unfold group_of. rewrite get_update. destruct (get db _ s); [|done]. cbn. by rewrite (proj2 (Hf _)). Qed.

Lemma clash_update db a b : clash (update_rows f db) (f a) (f b) = clash db a b.
Proof.
  unfold clash, network_clash, same_group. rewrite !(proj2 (Hf _)).
  destruct (r_data a), (r_data b); rewrite ?network_update, ?group_update; try done.
Qed.

Lemma trash_update db : trash_ok db →
  (∀ r, r ∈ rows db → live (f r) → r_stamp (f r) = no_stamp) →
  (∀ r o, r ∈ rows db → o ∈ rows db → live (f r) → key o ∈ owner_keys r → live (f o)) →
  (∀ r s, r ∈ rows db → s ∈ rows db → live (f r) → live (f s) → clash db r s → r = s) →
  trash_ok (update_rows f db).
Proof.
  intros [Hi Hn _ _ _] H1 H2 H3. constructor.
  - cbn. rewrite map_map. erewrite map_ext; [exact Hi|]. intros r. by destruct (Hf r).
  - intros r (r0 & H & ->)%elem_update. unfold networks_wf. rewrite (proj2 (Hf r0)). by apply Hn.
  - intros r (r0 & H & ->)%elem_update. by apply H1.
  - intros r o (r0 & Hr & ->)%elem_update (o0 & Ho & ->)%elem_update Hl. rewrite update_key, update_owners. by apply H2.
  - intros r s (r0 & Hr & ->)%elem_update (s0 & Hs & ->)%elem_update H4 H5. rewrite clash_update. intros H6. f_equal. by apply H3.
Qed.
End updates.

(** ** Stamping a batch *)
Lemma live_set s r : live (set_stamp s r) = bool_decide (deleted_at s = None).
Proof. done. Qed.

Lemma stamp_bulks_rows s (Hs : deleted_at s ≠ None) cs : ∀ db,
  (stamp_bulks s db cs).1 = update_rows (λ r, if existsb (λ c, record_of (r_id (parent c)) r) cs && live r then set_stamp s r else r) db.
Proof.
  induction cs as [|c cs IH]; intros db; cbn.
  - unfold update_rows. destruct db. cbn. f_equal. symmetry. apply map_id.
  - specialize (IH (stamp_bulk s db c).1). destruct (stamp_bulks s _ cs) as [db' cs']. cbn in *. rewrite IH.
    unfold update_rows. cbn. f_equal. rewrite map_map. apply map_ext. intros r.
    assert (Hd : live (set_stamp s r) = false) by by rewrite live_set, bool_decide_eq_false.
    destruct (record_of _ r && live r) eqn:E; cbn.
    + rewrite Hd, andb_false_r. by apply andb_true_iff in E as [-> ->].
    + by destruct (record_of _ r), (existsb _ cs), (live r).
Qed.

Definition hit (batch : SoftDeleteBatch) (r : Row) : bool :=
  bool_decide (key r ∈ map key (b_rows batch)) || (existsb (λ c, record_of (r_id (parent c)) r) (bulk batch) && live r).

Lemma apply_rows db batch user now :
  (apply_soft_delete db batch user now).1 = update_rows (λ r, if hit batch r then set_stamp (stamp_of batch user now) r else r) db.
Proof.
  unfold apply_soft_delete. set (s := stamp_of batch user now). set (db1 := update_rows _ db).
  pose proof (stamp_bulks_rows s ltac:(done) (bulk batch) db1) as H. destruct (stamp_bulks s db1 (bulk batch)) as [db2 cs]. cbn in *.
  rewrite H. unfold db1, update_rows. cbn. f_equal. rewrite map_map. apply map_ext. intros r. unfold hit.
  case_bool_decide as E; cbn; [by rewrite andb_false_r|done].
Qed.

Lemma is_record_owner x y : key y ∈ owner_keys x → is_record y = false.
Proof. rewrite owner_child. unfold child_of, is_record. by destruct (r_data y). Qed.

Lemma record_owner x y : is_record x = true → key y ∈ owner_keys x → is_zone y = true ∧ record_of (r_id y) x = true.
Proof.
  rewrite owner_child. unfold is_record, child_of, is_zone, block_in_space, subnet_in_space, block_under, subnet_under, scope_of, pool_of, static_of.
  destruct (r_data x) eqn:E; try done. by destruct (r_data y).
Qed.

Lemma zone_no_owner x y : is_zone x = true → key y ∉ owner_keys x.
Proof. unfold is_zone, owner_keys, parent_keys, candidates. destruct (r_data x); try done. intros _. apply not_elem_of_nil. Qed.

Lemma hangs_walks db x root : rtc (hangs db) x root → is_record x = false ∨ x = root → rtc (walks db) x root.
Proof.
  induction 1 as [x|x y z Hxy Hyz IH]; intros Hx; [apply rtc_refl|].
  destruct (is_record x) eqn:E.
  - destruct Hx as [?| ->]; [done|apply rtc_refl].
  - eapply rtc_l; [by split; [exact Hxy|]|]. apply IH. left. eapply is_record_owner. apply Hxy.
Qed.

Lemma walks_hangs db x root : rtc (walks db) x root → rtc (hangs db) x root.
Proof. induction 1 as [x|x y z [H _] _ IH]; [apply rtc_refl|]. by eapply rtc_l. Qed.

Section delete.
Context (db : Db) (Hok : trash_ok db) (roots : list Row) (Hroots : ∀ r, r ∈ roots → r ∈ rows db ∧ live r).

Lemma swept_live r : swept db roots r → r ∈ rows db ∧ live r.
Proof. intros (root & Hr & H). destruct H as [x|x y z H _]; [auto|]. by destruct H as (? & _ & ? & _). Qed.

Lemma swept_step r o : swept db roots o → hangs db r o → swept db roots r.
Proof. intros (root & Hr & H) Ho. exists root. split; [done|]. by eapply rtc_l. Qed.

Lemma hit_swept batch r : batch_ok db batch (collected db roots) → r ∈ rows db → hit batch r = true ↔ swept db roots r.
Proof.
  intros [_ _ Hb Hx] Hr. unfold hit. rewrite orb_true_iff, bool_decide_eq_true, andb_true_iff, existsb_elem.
  assert (Hcol : ∀ x, x ∈ b_rows batch → swept db roots x).
  { intros x (root & ? & ?)%Hx. exists root. split; [done|]. by apply walks_hangs. }
  assert (Hpar : ∀ z, (∃ c, c ∈ bulk batch ∧ parent c = z) ↔ z ∈ b_rows batch ∧ is_zone z = true).
  { intros z. rewrite <- elem_filter, <- Hb, list_elem_of_fmap. naive_solver. }
  split.
  - intros [(y & Ek & Hy)%list_elem_of_fmap|[(c & Hc & Hrec) Hl]].
    + replace r with y; [by apply Hcol|]. eapply key_inj; [done| |done|done]. by eapply swept_live, Hcol.
    + destruct (proj1 (Hpar (parent c))) as [Hz Hzone]; [eauto|]. pose proof (Hcol _ Hz) as Hs. eapply swept_step; [exact Hs|].
      apply swept_live in Hs as [? ?]. split_and!; [done|done|by apply Is_true_true|done|]. apply owner_child. unfold child_of, is_zone in *.
      by destruct (r_data (parent c)).
  - intros (root & Hro & H). destruct (is_record r) eqn:E.
    + destruct H as [x|x z root Hxz Hz]; [left; apply list_elem_of_fmap; exists x; split; [done|]; apply Hx; exists x; split; [done|apply rtc_refl]|].
      destruct Hxz as (_ & Hzr & Hxl & _ & Ho). destruct (record_owner _ _ E Ho) as [Hzone Hrec].
      destruct Hz as [z|z y root (_ & _ & _ & _ & Hbad) _]; [|by destruct (zone_no_owner z y Hzone)].
      right. split; [|by apply Is_true_true]. destruct (proj2 (Hpar z)) as (c & Hc & <-); [|by exists c].
      split; [|done]. apply Hx. exists z. split; [done|apply rtc_refl].
    + left. apply list_elem_of_fmap. exists r. split; [done|]. apply Hx. exists root. split; [done|]. apply hangs_walks; auto.
Qed.
End delete.

(** What [collect_soft_delete_batch] and [apply_soft_delete] do together. *)
Lemma delete_spec db rank fuel roots bid user now : trash_ok db → ranked rank db →
  (∀ r, r ∈ roots → r ∈ rows db ∧ live r ∧ (rank (r_id r) < fuel)%nat) → (∀ r, r ∈ rows db → in_batch bid r = false) →
  ∃ batch p, let s := mkStamp (Some now) user (Some bid) in let db' := update_rows (λ r, if p r : bool then set_stamp s r else r) db in
    collect_roots fuel db (new_batch bid) roots = Some batch
    ∧ (apply_soft_delete db batch user now).1 = db' ∧ NoDup (map key (b_rows batch))
    ∧ (∀ r, r ∈ rows db → p r = true ↔ swept db roots r) ∧ trash_ok db' ∧ mates_ok db' bid.
Proof.
  intros Hok Hrank Hroots Hfresh.
  destruct (collect_roots_spec db Hok rank Hrank fuel roots [] (new_batch bid)) as (batch & E & Hid & Hb).
  { constructor; cbn; [done|constructor|done|]. intros x. split; [by intros ?%elem_of_nil|]. by intros (r & ?%elem_of_nil & _). }
  { intros r Hr. cbn in Hr. split; by apply Hroots. } { intros r Hr. by apply Hroots. }
  cbn in Hb, Hid. assert (Hlive : ∀ r, r ∈ roots → r ∈ rows db ∧ live r) by (intros r Hr; split; by apply Hroots).
  exists batch, (hit batch). cbv zeta. pose proof (λ r, hit_swept db Hok roots Hlive batch r Hb) as Hhit.
  set (s := mkStamp _ _ _). assert (Hs : stamp_of batch user now = s) by by unfold stamp_of; rewrite Hid.
  split_and!; [done|by rewrite apply_rows, Hs|apply Hb|done| |].
  - apply (trash_update _ (keeps_stamp (hit batch) (λ _, s))); [done| | |].
    + intros r Hr. destruct (hit batch r); [done|]. by apply (to_stamps db Hok).
    + intros r o Hr Ho Hl Hk. destruct (hit batch r) eqn:E1; [done|]. pose proof (to_owned db Hok r o Hr Ho Hl Hk) as Hol.
      destruct (hit batch o) eqn:E2; [|done]. exfalso. apply Hhit in E2; [|done].
      assert (Hsw : swept db roots r) by by eapply swept_step; [exact E2|]. apply Hhit in Hsw; [|done]. congruence.
    + intros r t Hr Ht. destruct (hit batch r), (hit batch t); try done. by apply (to_clear db Hok).
  - constructor.
    + intros r (r0 & Hr & ->)%elem_update. destruct (hit batch r0); [done|]. by rewrite Hfresh.
    + intros r t (r0 & Hr & ->)%elem_update (t0 & Ht & ->)%elem_update Hr0 Ht0.
      rewrite (clash_update _ (keeps_stamp (hit batch) (λ _, s))). intros Hc.
      assert (Hbo : ∀ x, x ∈ rows db → in_batch bid (if hit batch x then set_stamp s x else x) → live x).
      { intros x Hx. destruct (hit batch x) eqn:Ex; [|by rewrite Hfresh]. intros _. by apply (swept_live db roots Hlive), Hhit. }
      assert (r0 = t0) as ->; [|done]. apply (to_clear db Hok); auto.
Qed.

(** ** What may come back *)
Definition refuses (db : Db) (a b : Row) : bool := clash db a b || same_cidr a b.

(** A record of an address that is an orphan, unless its zone is in the batch. *)
Definition orphaned (db : Db) (batch : str) (r : Row) : Prop :=
  ∃ d a z, as_record r = Some d ∧ auto_generated d = true ∧ address_of db d = Some a ∧ a_status a = "orphan"
    ∧ get db "dns_zone" (zone_id d) = Some z ∧ in_batch batch z = false.

(** Every parent is live or comes back with it, no live row stands against it,
    and it is no orphan's record. *)
Definition restorable (db : Db) (batch : str) (r : Row) : Prop :=
  (∀ p, p ∈ rows db → key p ∈ parent_keys r → live p ∨ in_batch batch p)
  ∧ (∀ o, o ∈ rows db → live o → r_id o ≠ r_id r → refuses db r o = false)
  ∧ ¬ orphaned db batch r.

Lemma head_None {A} (l : list A) : head l = None ↔ l = [].
Proof. by destruct l. Qed.

Lemma omap_none {A B} (f : A → option B) l : omap f l = [] ↔ ∀ x, x ∈ l → f x = None.
Proof.
  split.
  - intros H x Hx. destruct (f x) as [y|] eqn:E; [|done]. assert (Hy : y ∈ omap f l) by (apply list_elem_of_omap; eauto).
    rewrite H in Hy. by apply elem_of_nil in Hy.
  - intros H. induction l as [|x l IH]; [done|]. cbn. rewrite H by left. apply IH. intros y Hy. apply H. by right.
Qed.

Lemma filter_nil {A} (p : A → bool) l : List.filter p l = [] ↔ ∀ x, x ∈ l → p x = false.
Proof.
  split; [|apply filter_none_elem]. intros H x Hx. apply not_true_iff_false. intros E.
  assert (Hf : x ∈ List.filter p l) by by apply elem_filter. rewrite H in Hf. by apply elem_of_nil in Hf.
Qed.

Lemma as_reason_None {A} (f : A → Reason) o : as_reason f o = None ↔ o = None.
Proof. by destruct o. Qed.

Lemma scalar_none l : scalar_one_or_none l = Ok None ↔ l = [].
Proof. by destruct l as [|? [|]]. Qed.

Lemma others_nil db obj p : others db obj p = [] ↔ ∀ o, o ∈ rows db → live o → r_id o ≠ r_id obj → p (r_data o) = false.
Proof.
  unfold others, select. rewrite filter_nil. split; intros H o Ho.
  - intros Hl Hid. specialize (H o Ho). apply Is_true_true in Hl. rewrite Hl, (bool_decide_false (r_id o = r_id obj)), andb_true_r in H; done.
  - destruct (live o) eqn:El; [|done]. cbn. case_bool_decide as Hid; cbn; [by rewrite andb_false_r|]. rewrite andb_true_r.
    apply H; [done|by rewrite El|done].
Qed.

Lemma map_result_nil {E A B} (f : A → result E B) l : map_result f l = Ok [] ↔ l = [].
Proof. rewrite map_result_Ok. split; [by intros ?%Forall2_nil_inv_r|]. by intros ->. Qed.

(** A query that finds nothing, and then another check. *)
Lemma then_none {A} (l : list Row) (f : Row → A) (g : result Crash (option A)) :
  (scalar_one_or_none l ≫= λ hit, match hit with Some r => Ok (Some (f r)) | None => g end) = Ok None ↔ l = [] ∧ g = Ok None.
Proof. destruct l as [|r [|]]; cbn; naive_solver. Qed.

Lemma only_none (l : list Row) (f : Row → Reason) : (scalar_one_or_none l ≫= λ hit, Ok (as_reason f hit)) = Ok None ↔ l = [].
Proof. destruct l as [|r [|]]; cbn; naive_solver. Qed.

Section check.
Context (db : Db) (Hok : trash_ok db).

Lemma get_spec t i x : get db t i = Some x ↔ x ∈ rows db ∧ key x = (t, i).
Proof.
  unfold get. split.
  - intros [Hx [Ei Et]%andb_true_iff]%List.find_some. apply bool_decide_eq_true in Ei, Et. split; [by apply list_elem_of_In|].
    unfold key. by rewrite Ei, Et.
  - intros [Hx [= Et Ei]]. destruct (List.find _ _) as [y|] eqn:E.
    + apply List.find_some in E as [Hy [Ei' _]%andb_true_iff]. apply bool_decide_eq_true in Ei'. f_equal.
      eapply (map_NoDup_inj r_id (rows db)); [by apply to_ids|by apply list_elem_of_In|done|congruence].
    + apply list_elem_of_In in Hx. apply (List.find_none _ _ E) in Hx. by rewrite Ei, Et, !bool_decide_true in Hx.
Qed.

Lemma trashed_parent_None batch r : in_batch batch r → trashed_parent db r = None ↔
  ∀ p, p ∈ rows db → key p ∈ parent_keys r → live p ∨ in_batch batch p.
Proof.
  intros Hb%Is_true_true%bool_decide_eq_true. unfold trashed_parent, parent_keys. rewrite Hb.
  induction (candidates r) as [|[[kind t] pid] l IH].
  - split; [|done]. by intros _ p _ ?%elem_of_nil.
  - assert (H1 : _trashed_parent db t pid (Some batch) = None ↔
        ∀ p, p ∈ rows db → pid = Some (r_id p) → t = _resource_type p → live p ∨ in_batch batch p).
    { unfold _trashed_parent. destruct pid as [i|]; [|naive_solver]. destruct (get db t i) as [q|] eqn:E.
      - apply get_spec in E as [Hq Ek]. injection Ek as Et Ei. unfold in_batch. destruct (live q) eqn:El; [|case_bool_decide as Eb].
        + split; [|done]. intros _ p Hp [= E1] E2. left. assert (p = q) as ->; [|by rewrite El].
          eapply (map_NoDup_inj r_id (rows db)); [by apply to_ids|done|done|congruence].
        + split; [|done]. intros _ p Hp [= E1] E2. right. assert (p = q) as ->; [|by apply bool_decide_pack].
          eapply (map_NoDup_inj r_id (rows db)); [by apply to_ids|done|done|congruence].
        + split; [done|]. intros H. exfalso. destruct (H q Hq) as [Hl|Hl%bool_decide_unpack]; [by rewrite Ei|done|by rewrite El in Hl|done].
      - split; [|done]. intros _ p Hp [= Ei] Et. exfalso. assert (Hg : get db t i = Some p) by (apply get_spec; split; [done|by unfold key; rewrite Ei, Et]).
        congruence. }
    cbn [first_trashed omap list_omap]. destruct (_trashed_parent db t pid (Some batch)) as [q|] eqn:E.
    + split; [done|]. intros H. exfalso. cut (Some q = None); [done|]. apply H1. intros p Hp -> ->. apply H; [done|]. cbn. left.
    + rewrite IH. destruct H1 as [H1 _]. specialize (H1 eq_refl). split; intros H p Hp Hk.
      * destruct pid as [i|]; cbn in Hk; [|by apply H]. apply elem_of_cons in Hk as [Hk|Hk]; [|by apply H].
        injection Hk as Et Ei. apply H1; [done|by rewrite Ei|done].
      * apply H; [done|]. destruct pid; cbn; [by right|done].
Qed.

Lemma wf_network r n : r ∈ rows db → (∃ s p, r_data r = IPBlock s p n) ∨ (∃ s b, r_data r = Subnet s b n) → wf n.
Proof. intros Hr H. pose proof (to_networks db Hok r Hr) as Hw. unfold networks_wf in Hw. destruct H as [(s & p & E)|(s & p & E)]; by rewrite E in Hw. Qed.

Lemma wf_network_of i n : network_of db i = Some n → wf n.
Proof.
  unfold network_of. intros (r & [Hr _]%get_spec & H)%bind_Some. destruct (r_data r) eqn:E; simplify_eq.
  eapply wf_network; [exact Hr|]. right. eauto.
Qed.

Lemma network_clash_sym s t : network_clash db s t = network_clash db t s.
Proof.
  unfold network_clash. destruct (network_of db s) eqn:E1, (network_of db t) eqn:E2; try done.
  apply overlaps_sym; by eapply wf_network_of.
Qed.

Lemma clash_sym a b : a ∈ rows db → b ∈ rows db → clash db a b = clash db b a.
Proof.
  intros Ha Hb. pose proof (to_networks db Hok a Ha) as Hwa. pose proof (to_networks db Hok b Hb) as Hwb. unfold networks_wf in *.
  assert (Hbd : ∀ A (x y : A) (D : ∀ u v : A, Decision (u = v)), bool_decide (x = y) = bool_decide (y = x)).
  { intros A x y D. apply bool_decide_ext. naive_solver. }
  unfold clash, same_record, cname_beside, same_group. destruct (r_data a), (r_data b); try done.
  - rewrite (overlaps_sym network network0) by done. f_equal. f_equal; apply Hbd.
  - rewrite (overlaps_sym network network0) by done. f_equal. apply Hbd.
  - f_equal; [f_equal|]; apply Hbd.
  - f_equal.
    + repeat (f_equal; [|apply Hbd]). apply Hbd.
    + rewrite (orb_comm (cname d) (cname d0)), (orb_comm (bool_decide (view_id d = None))). f_equal. f_equal; [f_equal; apply Hbd|].
      f_equal. apply Hbd.
  - rewrite (network_clash_sym subnet subnet0), (andb_comm is_active is_active0). f_equal; [apply Hbd|]. f_equal. apply Hbd.
  - f_equal; apply Hbd.
  - f_equal; [apply Hbd|]. destruct (group_of db scope), (group_of db scope0); done.
Qed.
End check.

Section checks.
Context (db : Db) (Hok : trash_ok db) (r : Row) (Hr : r ∈ rows db).

(** No live row stands against [r]. *)
Definition unopposed : Prop := ∀ o, o ∈ rows db → live o → r_id o ≠ r_id r → refuses db r o = false.

(** The rules that are one query. *)
Lemma query_unopposed (p : Data → bool) : (∀ o, o ∈ rows db → live o → refuses db r o = p (r_data o)) →
  others db r p = [] ↔ unopposed.
Proof. intros H. rewrite others_nil. unfold unopposed. split; intros Hq o Ho Hl Hid; specialize (Hq o Ho Hl Hid); by rewrite H in *. Qed.

Lemma elem_ip_block b : b ∈ Ipam.ip_block (ipam db) ↔ ∃ o s p n, o ∈ rows db ∧ r_data o = IPBlock s p n
  ∧ b = Ipam.mkBlock (r_id o) s p n 0 0 (negb (live o)).
Proof.
  unfold ipam. cbn. rewrite list_elem_of_omap. unfold as_block. split.
  - intros (o & Ho & E). destruct (r_data o) eqn:Ed; simplify_eq. naive_solver.
  - intros (o & s & p & n & Ho & E & ->). exists o. by rewrite E.
Qed.

Lemma elem_subnet b : b ∈ Ipam.subnet (ipam db) ↔ ∃ o s k n, o ∈ rows db ∧ r_data o = Subnet s k n
  ∧ b = Ipam.mkSubnet (r_id o) s k n [] None 0 0 (negb (live o)).
Proof.
  unfold ipam. cbn. rewrite list_elem_of_omap. unfold as_subnet. split.
  - intros (o & Ho & E). destruct (r_data o) eqn:Ed; simplify_eq. naive_solver.
  - intros (o & s & p & n & Ho & E & ->). exists o. by rewrite E.
Qed.

Lemma caught_none {A} (x : result CreateError (list A)) (f : CreateError → Reason) (g : A → Reason) :
  (caught x ≫= λ c, Ok (match c with inl e => Some (f e) | inr [] => None | inr (i :: _) => Some (g i) end)) = Ok None ↔ x = Ok [].
Proof. destruct x as [[|]|[]]; cbn; naive_solver. Qed.

Lemma caught_unit (x : result CreateError unit) :
  (caught x ≫= λ c, Ok (match c with inl e => Some (Refused e) | inr _ => None end)) = Ok None ↔ x = Ok tt.
Proof. destruct x as [[]|[]]; cbn; naive_solver. Qed.

Lemma live_dec o : live o ↔ negb (negb (live o)) = true.
Proof. rewrite negb_involutive. apply Is_true_true. Qed.

Lemma block_check_none s p n : r_data r = IPBlock s p n → block_check db r s p n = Ok None ↔ unopposed.
Proof.
  intros E. unfold block_check. rewrite then_none, caught_none. unfold TreeCreate._assert_no_block_overlap.
  rewrite map_result_nil, filter_nil, others_nil. pose proof (wf_network db Hok r n Hr ltac:(eauto)) as Hn. unfold unopposed, refuses, clash, same_cidr. rewrite E. split.
  - intros [H1 H2] o Ho Hl Hid. destruct (r_data o) as [|t q m| | | | | | | | |] eqn:Eo; try done.
    specialize (H1 o Ho Hl Hid). rewrite Eo in H1. pose proof (wf_network db Hok o m Ho ltac:(eauto)) as Hm.
    assert (Hb : Ipam.mkBlock (r_id o) t q m 0 0 (negb (live o)) ∈ Ipam.ip_block (ipam db)) by (apply elem_ip_block; naive_solver).
    specialize (H2 _ Hb). cbn in H2. apply Is_true_true in Hl. rewrite Hl, (bool_decide_false (Some (r_id o) = Some (r_id r))) in H2 by congruence.
    rewrite !andb_true_r in H2. rewrite (bool_decide_ext (n = m) (m = n)), (bool_decide_ext (s = t) (t = s)) by naive_solver.
    rewrite H1, orb_false_r, (overlaps_sym n m), (bool_decide_ext (p = q) (q = p)) by naive_solver. rewrite <- H2.
    by destruct (bool_decide (t = s)), (bool_decide (q = p)), (overlaps m n).
  - intros H. split.
    + intros o Ho Hl Hid. specialize (H o Ho Hl Hid). destruct (r_data o); try done. apply orb_false_iff in H as [_ H].
      rewrite <- H. f_equal; apply bool_decide_ext; naive_solver.
    + intros b (o & t & q & m & Ho & Eo & ->)%elem_ip_block. cbn. destruct (live o) eqn:Hl; [|by rewrite !andb_false_r].
      destruct (decide (r_id o = r_id r)) as [Hid|Hid]; [by rewrite (bool_decide_true (Some (r_id o) = _)), andb_false_r by congruence|].
      specialize (H o Ho ltac:(by rewrite Hl) Hid). rewrite Eo in H.
      apply orb_false_iff in H as [H _]. pose proof (wf_network db Hok o m Ho ltac:(eauto)) as Hm.
      rewrite (overlaps_sym n m), (bool_decide_ext (p = q) (q = p)), (bool_decide_ext (s = t) (t = s)) in H by naive_solver.
      by destruct (bool_decide (t = s)), (bool_decide (q = p)), (overlaps m n).
Qed.

Lemma subnet_check_none s k n : r_data r = Subnet s k n → subnet_check db r s n = Ok None ↔ unopposed.
Proof.
  intros E. unfold subnet_check. rewrite then_none, caught_unit. unfold TreeCreate._assert_no_overlap.
  pose proof (wf_network db Hok r n Hr ltac:(eauto)) as Hn. unfold unopposed, refuses, clash, same_cidr. rewrite E.
  set (f := λ s0 : Ipam.Subnet, _). assert (Hf : match List.find f (Ipam.subnet (ipam db)) with
      | Some s1 => Err (OverlapsSubnet (Ipam.s_network s1)) | None => Ok tt end = Ok tt ↔ ∀ b, b ∈ Ipam.subnet (ipam db) → f b = false).
  { rewrite <- existsb_none. destruct (List.find f _) eqn:Ef.
    - split; [done|]. intros Hx. apply List.find_some in Ef as [Hi Ef]. apply list_elem_of_In in Hi. rewrite existsb_none in Hx.
      rewrite Hx in Ef; done.
    - split; [|done]. intros _. apply existsb_none. intros b Hb. apply list_elem_of_In in Hb. by apply (List.find_none _ _ Ef). }
  rewrite Hf, others_nil. clear Hf. split.
  - intros [_ H2] o Ho Hl Hid. destruct (r_data o) as [| |t q m| | | | | | | |] eqn:Eo; try done.
    pose proof (wf_network db Hok o m Ho ltac:(eauto)) as Hm.
    assert (Hb : Ipam.mkSubnet (r_id o) t q m [] None 0 0 (negb (live o)) ∈ Ipam.subnet (ipam db)) by (apply elem_subnet; naive_solver).
    specialize (H2 _ Hb). unfold f in H2. cbn in H2. apply Is_true_true in Hl. rewrite Hl, (bool_decide_false (Some (r_id o) = Some (r_id r))) in H2 by congruence.
    rewrite !andb_true_r in H2. by rewrite orb_false_r, (overlaps_sym n m), (bool_decide_ext (s = t) (t = s)) by naive_solver.
  - intros H. split.
    + intros o Ho Hl Hid. specialize (H o Ho Hl Hid). destruct (r_data o) as [| |t q m| | | | | | | |] eqn:Eo; try done. rewrite orb_false_r in H.
      apply not_true_iff_false. intros [->%bool_decide_eq_true ->%bool_decide_eq_true]%andb_true_iff.
      rewrite bool_decide_true in H by done. cbn in H. enough (overlaps n n = true) by congruence. apply overlaps_spec; [done|done|]. exists (network_address n). auto with spatium.
    + intros b (o & t & q & m & Ho & Eo & ->)%elem_subnet. unfold f. cbn.
      destruct (live o) eqn:Hl; [|by rewrite !andb_false_r]. destruct (decide (r_id o = r_id r)) as [Hid|Hid];
        [by rewrite (bool_decide_true (Some (r_id o) = _)), andb_false_r by congruence|].
      specialize (H o Ho ltac:(by rewrite Hl) Hid). rewrite Eo, orb_false_r in H. pose proof (wf_network db Hok o m Ho ltac:(eauto)) as Hm.
      rewrite (overlaps_sym n m), (bool_decide_ext (s = t) (t = s)) in H by naive_solver. by rewrite H.
Qed.

Lemma scope_check_none g s a : r_data r = DHCPScope g s a → scope_check db r g s a = Ok None ↔ unopposed.
Proof.
  intros E. unfold scope_check. rewrite then_none, others_nil. unfold unopposed, refuses, clash, same_cidr. rewrite E.
  set (c := if a then _ else _). assert (Hc : (Ok c : result Crash _) = Ok None ↔ ∀ o, o ∈ rows db → live o → r_id o ≠ r_id r →
      match r_data o with DHCPScope h t b => bool_decide (h = g) && negb (bool_decide (t = s)) && a && b && network_clash db s t | _ => false end = false).
  { unfold c. destruct a; [destruct (network_of db s) as [net|] eqn:En|].
    - cbn. unfold _assert_no_overlapping_group_cidr.
      match goal with |- context [head (omap ?f _)] => set (k := f) end.
      assert (Hk : Ok (as_reason PrefixCovered (head (omap k (rows db)))) = (Ok None : result Crash _) ↔ ∀ o, o ∈ rows db → k o = None).
      { rewrite <- omap_none, <- head_None, <- (as_reason_None PrefixCovered). split; [by intros [=]|by intros ->]. }
      rewrite Hk. clear Hk. split; intros H o Ho.
      + intros Hl Hid. specialize (H o Ho). unfold k in H. destruct (r_data o); try done. apply Is_true_true in Hl.
        rewrite Hl, (bool_decide_false (r_id o = r_id r)) in H by done. destruct is_active; [|by rewrite andb_false_r].
        rewrite !andb_true_r in *. destruct (_ && _); [|done]. cbn. unfold network_clash. rewrite En.
        destruct (network_of db subnet) as [m|] eqn:Em; [|done]. cbn in H. destruct (overlaps m net) eqn:Eo; [done|].
        by rewrite overlaps_sym by by eapply wf_network_of.
      + unfold k. destruct (r_data o) as [| | | | |h t b| | | | |] eqn:Eo; try done. destruct b; [|done].
        destruct (_ && _ && _ && _) eqn:Eb; [|done]. bool_hyps. specialize (H o Ho ltac:(by apply Is_true_true) ltac:(done)).
        rewrite Eo, bool_decide_true, bool_decide_false in H by done. cbn in H. unfold network_clash in H. rewrite En in H.
        destruct (network_of db t) as [m|] eqn:Em; [|done]. cbn. rewrite overlaps_sym by by eapply wf_network_of. by rewrite H.
    - split; [|done]. intros _ o _ _ _. destruct (r_data o); try done. unfold network_clash. by rewrite En, andb_false_r.
    - split; [|done]. intros _ o _ _ _. destruct (r_data o); try done. by rewrite andb_false_r. }
  rewrite Hc. clear Hc c. split; [intros [H1 H2] o Ho Hl Hid|intros H; split; intros o Ho Hl Hid].
  - specialize (H1 o Ho Hl Hid). specialize (H2 o Ho Hl Hid). destruct (r_data o) as [| | | | |h t b| | | | |]; try done.
    rewrite (bool_decide_ext (g = h) (h = g)), (bool_decide_ext (s = t) (t = s)) by naive_solver.
    by destruct (bool_decide (h = g)), (bool_decide (t = s)), a, b, (network_clash db s t).
  - specialize (H o Ho Hl Hid). destruct (r_data o) as [| | | | |h t b| | | | |]; try done.
    rewrite (bool_decide_ext (g = h) (h = g)), (bool_decide_ext (s = t) (t = s)) in H by naive_solver.
    by destruct (bool_decide (h = g)), (bool_decide (t = s)), a, b, (network_clash db s t).
  - specialize (H o Ho Hl Hid). destruct (r_data o) as [| | | | |h t b| | | | |]; try done.
    rewrite (bool_decide_ext (g = h) (h = g)), (bool_decide_ext (s = t) (t = s)) in H by naive_solver.
    by destruct (bool_decide (h = g)), (bool_decide (t = s)), a, b, (network_clash db s t).
Qed.

Lemma in_group g s : is_Some (group_of db s) →
  existsb (λ sc, match r_data sc with DHCPScope h _ _ => bool_decide (r_id sc = s) && bool_decide (h = g) | _ => false end)
    (select db (λ _, true)) = true ↔ group_of db s = Some g ∧ ∃ sc, get db "dhcp_scope" s = Some sc ∧ live sc.
Proof.
  intros [g' Eg]. rewrite existsb_elem. unfold group_of in *. destruct (get db "dhcp_scope" s) as [sc|] eqn:E; [|done]. cbn in *.
  pose proof (proj1 (get_spec db Hok _ _ _) E) as [Hsc Ek]. split.
  - intros (y & (Hy & Hl & _)%elem_select & H). destruct (r_data y) eqn:Ey; try done. bool_hyps.
    assert (y = sc) as ->. { eapply (map_NoDup_inj r_id (rows db)); [by apply to_ids|done|done|]. injection Ek. congruence. }
    rewrite Ey. split; [congruence|eauto].
  - intros [Hg (y & [= <-] & Hl)]. exists sc. rewrite elem_select. split; [done|]. destruct (r_data sc); try done.
    simplify_eq. injection Ek as _ ->. by rewrite !bool_decide_true.
Qed.

Lemma static_check_none s m : r_data r = DHCPStaticAssignment s m → static_check db r s m = None ↔ unopposed.
Proof.
  intros E. unfold static_check, unopposed, refuses, clash, same_cidr, same_group. rewrite E.
  destruct (group_of db s) as [g|] eqn:Eg; cbn.
  - rewrite as_reason_None, head_None, others_nil. split; intros H o Ho Hl Hid; specialize (H o Ho Hl Hid);
      destruct (r_data o) as [| | | | | | | | | |t n] eqn:Eo; try done.
    + rewrite orb_false_r, (bool_decide_ext (m = n) (n = m)) by naive_solver. destruct (bool_decide (n = m)); [|done]. cbn in *.
      destruct (group_of db t) as [h|] eqn:Eh; [|done]. apply bool_decide_eq_false. intros <-. rewrite <- not_true_iff_false in H. apply H.
      apply in_group; [by rewrite Eh|]. split; [done|]. unfold group_of in Eh. destruct (get db _ t) as [sc|] eqn:Esc; [|done].
      exists sc. split; [done|]. apply (get_spec db Hok) in Esc as [Hsc Ek]. apply (to_owned db Hok o); [done..|].
      apply owner_child. unfold child_of, pool_of, static_of. injection Ek as Ety Eid. unfold _resource_type in Ety.
      destruct (r_data sc); try done. rewrite Eo, bool_decide_true by congruence. done.
    + rewrite orb_false_r, (bool_decide_ext (m = n) (n = m)) in H by naive_solver. destruct (bool_decide (n = m)); [|done]. cbn in *.
      apply not_true_iff_false. intros Hx. destruct (group_of db t) as [h|] eqn:Eh.
      * apply in_group in Hx as [Hx _]; [|by rewrite Eh]. rewrite Eh in Hx. simplify_eq. by rewrite bool_decide_true in H.
      * apply existsb_elem in Hx as (sc & (Hsc & _)%elem_select & Hx). destruct (r_data sc) eqn:Esc; try done. bool_hyps.
        unfold group_of in Eh. rewrite (proj2 (get_spec db Hok "dhcp_scope" t sc)) in Eh; [cbn in Eh; by rewrite Esc in Eh|].
        split; [done|]. unfold key, _resource_type. rewrite Esc. congruence.
  - split; [|done]. intros _ o _ _ _. destruct (r_data o); try done. by rewrite andb_false_r.
Qed.

Lemma live_clash_none : is_record r = false → live_clash db r = Ok None ↔ unopposed.
Proof.
  intros Hrec. assert (Hof : ∀ (f : Row → Reason) l, (Ok (as_reason f (head l)) : result Crash _) = Ok None ↔ l = []).
  { intros f [|]; cbn; naive_solver. }
  unfold live_clash, space_check, zone_check. destruct (r_data r) as [n|s p n|s b n|g v n|d|g s a|n|n c|n c|s|s m] eqn:E.
  2: by apply block_check_none. 2: by eapply subnet_check_none. 3: unfold is_record in Hrec; by rewrite E in Hrec. 3: by apply scope_check_none.
  7: rewrite <- (static_check_none s m E); split; congruence.
  6: split; [|done]; intros _ o _ _ _; unfold refuses, clash, same_cidr; by rewrite E.
  all: rewrite ?only_none, ?Hof; apply query_unopposed; intros o _ _; unfold refuses, clash, same_cidr; rewrite E;
    destruct (r_data o); try done; rewrite orb_false_r; repeat (f_equal; [|apply bool_decide_ext; naive_solver]);
    apply bool_decide_ext; naive_solver.
Qed.

(** The per-row rules, for every row but a record. *)
Lemma default_check_spec batch : in_batch batch r → is_record r = false →
  default_conflict_check db r = Ok None ↔ (∀ p, p ∈ rows db → key p ∈ parent_keys r → live p ∨ in_batch batch p) ∧ unopposed.
Proof.
  intros Hb Hrec. rewrite <- (trashed_parent_None db Hok batch r Hb), <- live_clash_none by done. unfold default_conflict_check.
  destruct (trashed_parent db r) as [[kind p]|]; naive_solver.
Qed.
End checks.

(** ** The records of a batch *)
Lemma among_spec r l : among r l = true ↔ ∃ x, x ∈ l ∧ r_id x = r_id r.
Proof. unfold among. rewrite existsb_elem. by setoid_rewrite bool_decide_eq_true. Qed.

Lemma among_app r l k : among r (l ++ k) = among r l || among r k.
Proof. apply existsb_app. Qed.

Lemma among_cons r x l : among r (x :: l) = bool_decide (r_id x = r_id r) || among r l.
Proof. done. Qed.

Lemma among_ext x r l : r_id x = r_id r → among x l = among r l.
Proof. intros E. unfold among. by rewrite E. Qed.

Lemma among_filter {A} (f : A → Row) (p : Row → bool) r l : (∀ x, r_id x = r_id r → p x = p r) →
  among r (map f (List.filter (λ a, p (f a)) l)) = among r (map f l) && p r.
Proof.
  intros H. unfold among. induction l as [|a l IH]; [done|]. cbn. destruct (decide (r_id (f a) = r_id r)) as [E|E].
  - rewrite (H _ E). destruct (p r); cbn; [by rewrite bool_decide_true|]. rewrite IH. by rewrite !andb_false_r.
  - rewrite (bool_decide_false (r_id (f a) = _)) by done. destruct (p (f a)); cbn; [by rewrite bool_decide_false, IH|done].
Qed.

Lemma among_first r pairs : ∀ found,
  among r (map fst (first_per_record found pairs)) = among r (map fst found) || among r (map fst pairs).
Proof.
  induction pairs as [|[x o] pairs IH]; intros found; [by rewrite orb_false_r|]. cbn [first_per_record map fst]. rewrite IH. clear IH.
  assert (Hx : existsb (λ f : Row * Row, bool_decide (r_id f.1 = r_id x)) found = among x (map fst found)).
  { unfold among. induction found as [|f found IH]; [done|]. cbn. by rewrite IH. }
  rewrite Hx, among_cons. destruct (decide (r_id x = r_id r)) as [E|E].
  - rewrite (among_ext _ _ _ E), (bool_decide_true (r_id x = _)) by done. destruct (among r (map fst found)) eqn:Ea; [by rewrite Ea|].
    rewrite map_app, among_app, Ea. cbn [map fst]. by rewrite among_cons, bool_decide_true.
  - rewrite (bool_decide_false (r_id x = _)) by done. destruct (among x _); [done|].
    rewrite map_app, among_app. cbn [map fst]. by rewrite among_cons, bool_decide_false, orb_false_r.
Qed.

Section records.
Context (db : Db) (Hok : trash_ok db) (batch : str).

Lemma elem_batch_records r : r ∈ batch_records db batch ↔ r ∈ rows db ∧ is_record r = true ∧ in_batch batch r.
Proof. unfold batch_records, select_all. rewrite elem_filter, andb_true_iff, Is_true_true. done. Qed.

Lemma row_among r l : r ∈ rows db → (∀ x, x ∈ l → x ∈ rows db) → among r l = true ↔ r ∈ l.
Proof.
  intros Hr Hl. rewrite among_spec. split; [|eauto]. intros (x & Hx & E). replace r with x; [done|].
  eapply (map_NoDup_inj r_id (rows db)); [by apply to_ids|auto|done|done].
Qed.

Section one.
Context (r : Row) (Hr : r ∈ batch_records db batch).

Lemma twin_spec : among r (_record_conflicts db batch) = true ↔ ∃ o, o ∈ rows db ∧ live o ∧ on_records same_record o r = true.
Proof.
  pose proof (proj1 (elem_batch_records r) Hr) as (Hin & Hrec & Hb).
  rewrite row_among; [|done|by intros x [[? _]%elem_batch_records _]%elem_filter]. unfold _record_conflicts.
  rewrite elem_filter. unfold _live_duplicate_exists. rewrite existsb_elem. split.
  - intros (_ & o & (Ho & Hl & _)%elem_select & [H _]%andb_true_iff). eauto.
  - intros (o & Ho & Hl & H). split; [done|]. exists o. rewrite elem_select, H. unfold on_records in H.
    destruct (as_record o) as [d|] eqn:Ed; [|done]. destruct (as_record r) as [e|] eqn:Ee; [|done]. split.
    + split_and!; [done|done|]. unfold as_record, is_record in *. by destruct (r_data o).
    + cbn. apply bool_decide_eq_true, list_elem_of_omap. exists r. split; [done|]. rewrite Ee. cbn. f_equal.
      bool_hyps. unfold same_record in *. bool_hyps. congruence.
Qed.

Lemma cname_spec : among r (map fst (_record_cname_conflicts db batch)) = true ↔
  ∃ o, o ∈ rows db ∧ live o ∧ on_records cname_beside o r = true.
Proof.
  pose proof (proj1 (elem_batch_records r) Hr) as (Hin & _ & _).
  unfold _record_cname_conflicts. rewrite among_first. cbn.
  assert (Hpairs : ∀ x o, (x, o) ∈ (l ← select db is_record; r ← List.filter (λ r, on_records cname_beside l r) (batch_records db batch); [(r, l)]) ↔
      o ∈ select db is_record ∧ x ∈ batch_records db batch ∧ on_records cname_beside o x = true).
  { intros x o. rewrite list_elem_of_bind. setoid_rewrite list_elem_of_bind. setoid_rewrite list_elem_of_singleton.
    split.
    - intros (y & (z & [= -> ->] & [Hz Hc]%elem_filter) & Hy). done.
    - intros (Ho & Hx & Hc). exists o. split; [|done]. exists x. split; [done|]. by apply elem_filter. }
  rewrite row_among; [|done|].
  - rewrite list_elem_of_fmap. split.
    + intros ([x o] & -> & (Ho & _ & H)%Hpairs). apply elem_select in Ho as (? & ? & _). eauto.
    + intros (o & Ho & Hl & H). exists (r, o). split; [done|]. apply Hpairs. split_and!; [|done|done].
      apply elem_select. split_and!; [done|done|]. unfold on_records, as_record, is_record in *. by destruct (r_data o).
  - intros x ([y o] & -> & (_ & [? _]%elem_batch_records & _)%Hpairs)%list_elem_of_fmap. done.
Qed.

Lemma parent_spec : among r (map fst (_record_parent_conflicts db batch)) = false ↔
  ∀ p, p ∈ rows db → key p ∈ parent_keys r → live p ∨ in_batch batch p.
Proof.
  pose proof (proj1 (elem_batch_records r) Hr) as (Hin & Hrec & _).
  assert (Hd : ∃ d, as_record r = Some d) by (unfold is_record, as_record in *; destruct (r_data r); naive_solver).
  destruct Hd as [d Ed]. assert (Hk : parent_keys r = [("dns_zone" : str, zone_id d)]).
  { unfold parent_keys, candidates, as_record in *. destruct (r_data r); try done. cbn. congruence. }
  rewrite Hk. rewrite <- not_true_iff_false, row_among; [|done|].
  - rewrite list_elem_of_fmap. unfold _record_parent_conflicts. setoid_rewrite list_elem_of_omap. split.
    + intros H p Hp Ek%list_elem_of_singleton. destruct (live p) eqn:El; [by left|]. destruct (in_batch batch p) eqn:Eb; [by right|].
      exfalso. apply H. exists (r, p). split; [done|]. exists r. split; [done|]. rewrite Ed. cbn.
      rewrite (proj2 (get_spec db Hok _ _ _) (conj Hp Ek)). cbn. by rewrite El, Eb.
    + intros H ([x z] & E0 & (y & Hy & E)). cbn in E0. rewrite bind_Some in E. destruct E as (e & Ee & E). rewrite bind_Some in E.
      destruct E as (z' & Ez & E). destruct (_ && _) eqn:Eq; [|done]. injection E as Ex _. bool_hyps. rewrite Ex, <- E0 in Ee.
      apply (get_spec db Hok) in Ez as [Hz Ez]. rewrite Ed in Ee. injection Ee as <-.
      destruct (H z' Hz) as [Hl|Hl]; [by apply list_elem_of_singleton| |]; apply Is_true_true in Hl; congruence.
  - intros x ([y z] & -> & (w & Hw & E)%list_elem_of_omap)%list_elem_of_fmap. rewrite bind_Some in E. destruct E as (e & _ & E).
    rewrite bind_Some in E. destruct E as (z' & _ & E). destruct (_ && _); [|done]. injection E as <- <-. by apply elem_batch_records in Hw as [? _].
Qed.

Lemma orphan_spec : live r = false → among r (map fst (orphan_record_owners db batch)) = false ↔ ¬ orphaned db batch r.
Proof.
  intros Htr. pose proof (proj1 (elem_batch_records r) Hr) as (Hin & _ & Hb). apply Is_true_true, bool_decide_eq_true in Hb.
  rewrite <- not_true_iff_false, row_among; [|done|].
  - apply not_iff_compat. rewrite list_elem_of_fmap. unfold orphan_record_owners. setoid_rewrite list_elem_of_omap. split.
    + intros ([x a] & E0 & (y & Hy & E)). cbn in E0. rewrite bind_Some in E. destruct E as (d & Ed & E). rewrite bind_Some in E.
      destruct E as (a' & Ea & E). rewrite bind_Some in E. destruct E as (z & Ez & E). destruct (_ && _ && _ && _) eqn:Eq; [|done].
      injection E as Ex _. rewrite Ex, <- E0 in *. bool_hyps. exists d, a', z. split_and!; try done. unfold in_batch. apply bool_decide_eq_false. congruence.
    + intros (d & a & z & Ed & Hauto & Ea & Es & Ez & Hz). exists (r, a). split; [done|]. exists r. split; [done|].
      rewrite Ed. cbn. rewrite Ea. cbn. rewrite Ez. cbn. rewrite Hauto, Htr, (bool_decide_true (a_status a = _)) by done.
      rewrite bool_decide_false; [done|]. rewrite Hb. by apply bool_decide_eq_false in Hz.
  - intros x ([y z] & -> & (w & Hw & E)%list_elem_of_omap)%list_elem_of_fmap. rewrite bind_Some in E. destruct E as (e & _ & E).
    rewrite bind_Some in E. destruct E as (z' & _ & E). rewrite bind_Some in E. destruct E as (z'' & _ & E).
    destruct (_ && _ && _ && _); [|done]. injection E as <- <-. by apply elem_batch_records in Hw as [? _].
Qed.

(** A record of the batch is refused exactly when it is not restorable. *)
Lemma among_refused : live r = false → among r (record_checks db batch).2 = false ↔ restorable db batch r.
Proof.
  intros Htr. pose proof (proj1 (elem_batch_records r) Hr) as (Hin & Hrec & _).
  assert (Hopp : among r (_record_conflicts db batch) = false ∧ among r (map fst (_record_cname_conflicts db batch)) = false ↔ unopposed db r).
  { rewrite <- !not_true_iff_false, twin_spec, cname_spec. split.
    - intros [H1 H2] o Ho Hl Hid. apply not_true_iff_false. unfold refuses, same_cidr. intros [Hc|Hc]%orb_true_iff.
      + rewrite clash_sym in Hc by done. unfold clash, is_record in *. destruct (r_data o) eqn:Eo, (r_data r) eqn:Er; try done.
        apply orb_true_iff in Hc as [Hc|Hc]; [apply H1|apply H2]; exists o; split_and!; try done;
          unfold on_records, as_record; rewrite Eo, Er, Hc; by rewrite bool_decide_false.
      + unfold is_record in Hrec. by destruct (r_data r).
    - intros H. split; intros (o & Ho & Hl & Hc); unfold on_records, as_record in Hc;
        destruct (r_data o) eqn:Eo, (r_data r) eqn:Er; try done; bool_hyps; specialize (H o Ho Hl ltac:(done));
        unfold refuses in H; rewrite clash_sym in H by done; unfold clash in H; rewrite Eo, Er in H; bool_hyps; congruence. }
  unfold record_checks, restorable. cbv zeta. cbn [snd]. rewrite !among_app.
  rewrite (among_filter fst (λ x, negb (among x (_record_conflicts db batch)))) by (intros; f_equal; by apply among_ext).
  rewrite (among_filter fst (λ x, negb (among x (_record_conflicts db batch) || among x (map fst (_record_parent_conflicts db batch)))))
    by (intros; f_equal; f_equal; by apply among_ext).
  fold (unopposed db r). rewrite <- Hopp, <- parent_spec, <- (orphan_spec Htr).
  destruct (among r (_record_conflicts db batch)), (among r (map fst (_record_cname_conflicts db batch))),
    (among r (map fst (_record_parent_conflicts db batch))), (among r (map fst (orphan_record_owners db batch))); cbn; tauto || naive_solver.
Qed.
End one.

(** What is refused is reported, row by row. *)
Lemma found_rows : map c_row (record_checks db batch).1 = (record_checks db batch).2.
Proof.
  unfold record_checks. cbv zeta. cbn [fst snd]. rewrite !map_app, !map_map.
  f_equal; [apply map_ext; by intros []|]. f_equal; [apply map_id|]. f_equal; apply map_ext; by intros [].
Qed.

Lemma first_subset (pairs : list (Row * Row)) : ∀ found f, f ∈ first_per_record found pairs → f ∈ found ∨ f ∈ pairs.
Proof.
  induction pairs as [|[x o] pairs IH]; intros found f; cbn; [by left|]. intros [H|H]%IH; [|by right; right].
  destruct (existsb _ _); [by left|]. apply elem_of_app in H as [H| ->%list_elem_of_singleton]; [by left|]. right. left.
Qed.

Lemma refused_batch x : x ∈ (record_checks db batch).2 → x ∈ batch_records db batch.
Proof.
  unfold record_checks. cbv zeta. cbn [snd]. rewrite !elem_of_app, !list_elem_of_fmap. intros [H|[H|[H|H]]].
  - destruct H as (f & -> & [H _]%elem_filter). apply first_subset in H as [H|H]; [by apply elem_of_nil in H|].
    apply list_elem_of_bind in H as (l & H & _). apply list_elem_of_bind in H as (y & H & [Hy _]%elem_filter).
    by apply list_elem_of_singleton in H as ->.
  - by apply elem_filter in H as [H _].
  - destruct H as (f & -> & (y & Hy & E)%list_elem_of_omap). rewrite bind_Some in E. destruct E as (d & _ & E).
    rewrite bind_Some in E. destruct E as (z & _ & E). destruct (_ && _); [|done]. by injection E as <-.
  - destruct H as (f & -> & [(y & Hy & E)%list_elem_of_omap _]%elem_filter). rewrite bind_Some in E. destruct E as (d & _ & E).
    rewrite bind_Some in E. destruct E as (a & _ & E). rewrite bind_Some in E. destruct E as (z & _ & E).
    destruct (_ && _ && _ && _); [|done]. by injection E as <-.
Qed.

(** No record conflict is found exactly when every record of the batch may
    come back. *)
Lemma none_found : (∀ r, r ∈ rows db → in_batch batch r → live r = false) →
  (record_checks db batch).1 = [] ↔ ∀ r, r ∈ batch_records db batch → restorable db batch r.
Proof.
  intros Htr. assert (Hn : (record_checks db batch).1 = [] ↔ (record_checks db batch).2 = []).
  { rewrite <- found_rows. by destruct (record_checks db batch).1. }
  rewrite Hn. clear Hn. split.
  - intros E r Hr. apply among_refused; [done| |by rewrite E]. apply elem_batch_records in Hr as (? & _ & ?). by apply Htr.
  - intros H. destruct (record_checks db batch).2 as [|x l] eqn:E; [done|]. exfalso.
    assert (Hx : x ∈ batch_records db batch) by (apply refused_batch; rewrite E; left).
    pose proof (H x Hx) as Hres. apply among_refused in Hres; [|done|apply elem_batch_records in Hx as (? & _ & ?); by apply Htr].
    rewrite E, among_cons, bool_decide_true in Hres; done.
Qed.
End records.

(** ** Restoring *)
Lemma sweep_spec f l res : sweep (Some f) l = Ok res →
  (res.2 = [] ↔ ∀ r, r ∈ l → f r = Ok None) ∧ (res.2 = [] → res.1 = l).
Proof.
  revert res. induction l as [|r l IH]; intros res; cbn.
  - intros [= <-]. split; [|done]. split; [|done]. by intros _ r ?%elem_of_nil.
  - rewrite bind_Ok. intros (o & Eo & H). rewrite bind_Ok in H. destruct H as (rest & Er & [= <-]). destruct (IH rest Er) as [H1 H2].
    destruct o as [why|]; cbn.
    + split; [|done]. split; [done|]. intros H. exfalso. specialize (H r ltac:(left)). congruence.
    + rewrite H1. split; [|intros; f_equal; apply H2; naive_solver]. split.
      * intros H x [-> |Hx]%elem_of_cons; auto.
      * intros H x Hx. apply H. by right.
Qed.

Lemma sweep_all f l : (∀ r, r ∈ l → f r = Ok None) → sweep (Some f) l = Ok (l, []).
Proof.
  induction l as [|r l IH]; intros H; cbn; [done|]. rewrite H by left. cbn. rewrite IH; [done|]. intros x Hx. apply H. by right.
Qed.

Lemma elem_batch_rows db batch r : r ∈ batch_rows db batch ↔ r ∈ rows db ∧ is_record r = false ∧ in_batch batch r.
Proof.
  unfold batch_rows. rewrite list_elem_of_bind. split.
  - intros (t & H & Ht). case_bool_decide as Et; [by apply elem_of_nil in H|]. apply elem_filter in H as [Hr [Hty%bool_decide_eq_true Hb]%andb_true_iff].
    split_and!; [done| |by apply Is_true_true]. unfold is_record, _resource_type in *. destruct (r_data r); try done.
  - intros (Hr & Hrec & Hb%Is_true_true). exists (_resource_type r). unfold is_record, _resource_type in *. split.
    + rewrite bool_decide_false by by destruct (r_data r). apply elem_filter. by rewrite Hb, bool_decide_true.
    + unfold TYPE_TO_MODEL. destruct (r_data r); rewrite !elem_of_cons; tauto.
Qed.

(** The row a restore leaves that brings back the rows of [hit]. *)
Definition back (db : Db) (batch : str) (hit : Row → bool) (r : Row) : Row :=
  match held_by db batch r with
  | Some sn => set_stamp (r_stamp sn) r
  | None => if hit r then set_stamp no_stamp r else r
  end.

Lemma back_keeps db batch hit : keeps_data (back db batch hit).
Proof. intros r. unfold back. destruct (held_by db batch r); [done|]. by destruct (hit r). Qed.

Lemma unstamp_zones_rows batch zs : ∀ db, (unstamp_zones batch false false db zs).1
  = update_rows (λ r, if existsb (λ z, record_of z r) zs && in_batch batch r then set_stamp no_stamp r else r) db.
Proof.
  induction zs as [|z zs IH]; intros db; cbn.
  - unfold update_rows. destruct db. cbn. f_equal. symmetry. apply map_id.
  - match goal with |- context [unstamp_zones _ _ _ ?d zs] => specialize (IH d); destruct (unstamp_zones batch false false d zs) as [db' out] end.
    cbn in *. rewrite IH. unfold update_rows. cbn. f_equal. rewrite map_map. apply map_ext. intros r.
    destruct (record_of z r), (in_batch batch r) eqn:Eb; cbn; by rewrite ?Eb, ?andb_false_r.
Qed.

Lemma held_by_Some db batch r sn : held_by db batch r = Some sn →
  is_record r = true ∧ in_batch batch r = true ∧ live sn = false ∧ in_batch batch sn = false.
Proof.
  unfold held_by. rewrite bind_Some. intros (d & Ed & H). destruct (in_batch batch r && auto_generated d) eqn:E; [|done].
  rewrite bind_Some in H. destruct H as (a & _ & H). rewrite bind_Some in H. destruct H as (s & _ & H).
  destruct (deletion_batch_id (r_stamp s)) as [b|] eqn:Es; [|done]. destruct (negb (live s) && _) eqn:E2; [|done]. injection H as ->.
  bool_hyps. split_and!; [|done|done|].
  - unfold is_record, as_record in *. by destruct (r_data r).
  - unfold in_batch. rewrite Es. apply bool_decide_eq_false. congruence.
Qed.

Section restore.
Context (db : Db) (Hok : trash_ok db) (batch : str).

(** The rows after the last three statements, when no record conflict is
    excluded from them. *)
Lemma finish_rows restored zs (hit : Row → bool) : (∀ x, x ∈ restored → x ∈ rows db) →
  (∀ r, r ∈ rows db → (existsb (λ z, record_of z r) zs && in_batch batch r) || among r restored = hit r) →
  let '(db1, moved, held) := _hold_records_with_trashed_subnet db batch in
  update_rows (λ r, if among r (List.filter (λ r, negb (among r moved)) restored) then set_stamp no_stamp r else r)
    (unstamp_zones batch false false db1 zs).1 = update_rows (back db batch hit) db.
Proof.
  intros Hsub Hamong. cbn. rewrite unstamp_zones_rows. unfold update_rows. cbn. f_equal. rewrite !map_map.
  set (moved := List.filter _ (rows db)). apply map_ext_in. intros r Hr. apply list_elem_of_In in Hr.
  assert (Hfin : ∀ x, r_id x = r_id r → among x (List.filter (λ r, negb (among r moved)) restored) = among r restored && negb (among r moved)).
  { intros x E. rewrite (among_ext _ _ _ E). rewrite <- (map_id (List.filter _ restored)).
    rewrite (among_filter id (λ x, negb (among x moved))) by (intros; f_equal; by apply among_ext). by rewrite map_id. }
  assert (Hmoved : among r moved = bool_decide (is_Some (held_by db batch r))).
  { apply eq_true_iff_eq. rewrite bool_decide_eq_true. rewrite (row_among db Hok r); [|done|by intros x [? _]%elem_filter].
    unfold moved. rewrite elem_filter, bool_decide_eq_true. tauto. }
  unfold back. destruct (held_by db batch r) as [sn|] eqn:Eh.
  - destruct (held_by_Some _ _ _ _ Eh) as (_ & _ & _ & Hsn). unfold in_batch in *. cbn. rewrite Hsn, andb_false_r.
    rewrite Hfin by done. rewrite Hmoved, bool_decide_true by done. by rewrite andb_false_r.
  - rewrite Hfin; [|by destruct (existsb _ zs && _)]. rewrite Hmoved, bool_decide_false by (by intros [? ?]). cbn.
    rewrite andb_true_r, <- Hamong by done. by destruct (existsb _ zs && _), (among r restored).
Qed.

Hypothesis (Hmates : mates_ok db batch).

Lemma records_partition zs r : r ∈ rows db → among r (batch_rows db batch ++
    List.filter (λ r, match as_record r with Some d => negb (bool_decide (zone_id d ∈ zs)) | None => false end && negb (among r [])) (batch_records db batch))
  = in_batch batch r && negb (is_record r && existsb (λ z, record_of z r) zs).
Proof.
  intros Hr. apply eq_true_iff_eq. rewrite (row_among db Hok r); [|done|].
  - rewrite elem_of_app, elem_batch_rows, elem_filter, elem_batch_records by done. change (among r []) with false. cbn [negb].
    assert (Hz : ∀ d, as_record r = Some d → existsb (λ z, record_of z r) zs = bool_decide (zone_id d ∈ zs)).
    { intros d Ed. apply eq_true_iff_eq. rewrite existsb_elem, bool_decide_eq_true. unfold record_of, as_record in *.
      destruct (r_data r); try done. injection Ed as ->. setoid_rewrite bool_decide_eq_true. naive_solver. }
    rewrite andb_true_iff, <- Is_true_true. destruct (as_record r) as [d|] eqn:Ed.
    + assert (is_record r = true) as -> by (unfold is_record, as_record in *; by destruct (r_data r)).
      rewrite (Hz d eq_refl). rewrite andb_true_iff, <- Is_true_true; cbn; destruct (in_batch batch r), (bool_decide (zone_id d ∈ zs)); cbn; naive_solver.
    + assert (is_record r = false) as -> by (unfold is_record, as_record in *; by destruct (r_data r)). cbn; destruct (in_batch batch r); cbn; naive_solver.
  - intros x [(? & _)%elem_batch_rows|[(? & _)%elem_batch_records _]%elem_filter]%elem_of_app; done.
Qed.

Definition all_restorable : Prop := ∀ r, r ∈ rows db → in_batch batch r → restorable db batch r.

Lemma restorable_row r : r ∈ rows db → in_batch batch r → is_record r = false →
  default_conflict_check db r = Ok None ↔ restorable db batch r.
Proof.
  intros Hr Hb Hrec. rewrite (default_check_spec db Hok r Hr batch) by done. unfold restorable. split; [|tauto].
  intros [H1 H2]. split_and!; [done|done|]. intros (d & _ & _ & Hd & _). unfold as_record, is_record in *. by destruct (r_data r).
Qed.

Lemma mates_trashed r : r ∈ rows db → in_batch batch r → live r = false.
Proof. apply mo_trashed, Hmates. Qed.

Lemma restorable_split : all_restorable ↔ (record_checks db batch).1 = [] ∧ ∀ r, r ∈ batch_rows db batch → default_conflict_check db r = Ok None.
Proof.
  rewrite (none_found db Hok batch mates_trashed).
  setoid_rewrite elem_batch_records. setoid_rewrite elem_batch_rows. split.
  - intros H. split; [intros r (? & _ & ?); by apply H|]. intros r (Hr & Hrec & Hb). apply restorable_row; auto.
  - intros [H1 H2] r Hr Hb. destruct (is_record r) eqn:E; [by apply H1|]. apply restorable_row; [done..|]. by apply H2.
Qed.

Lemma record_conflicts_nil : (record_checks db batch).1 = [] → _record_conflicts db batch = []
  ∧ existsb (λ f, negb (among f.1 (_record_conflicts db batch))) (_record_cname_conflicts db batch) = false ∧ (record_checks db batch).2 = [].
Proof.
  intros H. split_and!.
  - unfold record_checks in H. cbn in H. apply app_eq_nil in H as [_ H]. apply app_eq_nil in H as [H _]. by destruct (_record_conflicts db batch).
  - unfold record_checks in H. cbn in H. apply app_eq_nil in H as [H _]. apply existsb_none. intros f Hf. apply not_true_iff_false. intros Hn.
    assert (Hx : f ∈ List.filter (λ f, negb (among f.1 (_record_conflicts db batch))) (_record_cname_conflicts db batch)) by by apply elem_filter.
    apply map_eq_nil in H. rewrite H in Hx. by apply elem_of_nil in Hx.
  - rewrite <- found_rows. by rewrite H.
Qed.

Lemma restore_ok : all_restorable → ∃ res,
  restore_batch db batch (Some (default_conflict_check db)) false = Ok (update_rows (back db batch (in_batch batch)) db, res)
  ∧ conflicts res = [] ∧ held_back res = tally [] (omap (held_by db batch) (rows db)).
Proof.
  intros [Hf Hs]%restorable_split. destruct (record_conflicts_nil Hf) as (Hd & Hc & Href). unfold restore_batch.
  destruct (record_checks db batch) as [found refused]. cbn in Hf, Href. subst found refused.
  rewrite (sweep_all _ _ Hs). cbn [mbind result_bind fst snd app length negb andb]. rewrite bool_decide_true by done. cbn [negb andb].
  rewrite Hc, Hd. cbn [length]. rewrite bool_decide_true by done. cbn [negb].
  set (zs := map r_id _).
  pose proof (finish_rows (batch_rows db batch ++ List.filter (λ r, match as_record r with Some d => negb (bool_decide (zone_id d ∈ zs)) | None => false end && negb (among r [])) (batch_records db batch)) zs (in_batch batch)) as Hfin.
  cbn zeta in Hfin.
  destruct (_hold_records_with_trashed_subnet db batch) as [[db1 moved] held] eqn:Eh.
  destruct (unstamp_zones batch false false db1 zs) as [db2 bulk] eqn:Eu. cbn [fst] in Hfin.
  eexists. split; [f_equal; f_equal; apply Hfin|].
  - intros x [(? & _)%elem_batch_rows|[(? & _)%elem_batch_records _]%elem_filter]%elem_of_app; done.
  - intros r Hr. rewrite records_partition by done. destruct (in_batch batch r); [|by rewrite andb_false_r].
    rewrite andb_true_r. destruct (existsb _ zs) eqn:Ez; cbn; [done|]. by rewrite andb_false_r.
  - cbn. split; [done|]. unfold _hold_records_with_trashed_subnet in Eh. congruence.
Qed.

Lemma restore_conflicts db' res : restore_batch db batch (Some (default_conflict_check db)) false = Ok (db', res) →
  (conflicts res = [] → all_restorable) ∧ (conflicts res ≠ [] → db' = db ∧ restored res = []).
Proof.
  unfold restore_batch. pose proof restorable_split as Hsplit. destruct (record_checks db batch) as [found refused]. cbn [fst] in Hsplit.
  rewrite bind_Ok. intros (swept & Esw & H). destruct (sweep_spec _ _ _ Esw) as [H1 _].
  destruct (bool_decide (length (found ++ swept.2) = 0%nat)) eqn:El; cbn [negb andb] in H.
  - apply bool_decide_eq_true, nil_length_inv, app_eq_nil in El as [-> E2]. split.
    + intros _. apply Hsplit. split; [done|]. by apply H1.
    + intros Hne. exfalso. destruct (_hold_records_with_trashed_subnet db batch) as [[db1 moved] held].
      destruct (unstamp_zones _ _ _ _ _) as [db2 bulk]. injection H as _ <-. cbn in Hne. by rewrite E2 in Hne.
  - injection H as <- <-. cbn. apply bool_decide_eq_false in El. split; [|done]. intros E. by rewrite E in El.
Qed.

Lemma live_not_batch r : r ∈ rows db → live r → in_batch batch r = false.
Proof. intros Hr Hl. unfold in_batch. by rewrite (to_stamps db Hok r Hr Hl). Qed.

Section back.
Context (hit : Row → bool) (Hhit : ∀ r, r ∈ rows db → hit r → in_batch batch r ∧ restorable db batch r).
Context (Hclosed : ∀ r o, r ∈ rows db → o ∈ rows db → hit r → in_batch batch o → key o ∈ owner_keys r → hit o).

Lemma back_live r : r ∈ rows db → live (back db batch hit r) →
  (live r ∧ back db batch hit r = r) ∨ (hit r ∧ back db batch hit r = set_stamp no_stamp r).
Proof.
  intros Hr. unfold back. destruct (held_by db batch r) as [sn|] eqn:E.
  - apply held_by_Some in E as (_ & _ & Hsn & _). unfold live in *. cbn. by rewrite Hsn.
  - destruct (hit r) eqn:Eb; [right|left]; done.
Qed.

Lemma back_trash : trash_ok (update_rows (back db batch hit) db).
Proof.
  apply trash_update; [apply back_keeps|done| | |].
  - intros r Hr Hl. destruct (back_live r Hr Hl) as [[H ->]|[_ ->]]; [by apply (to_stamps db Hok)|done].
  - intros r o Hr Ho Hl Hk. assert (Hlb : live o ∨ hit o).
    { destruct (back_live r Hr Hl) as [[H _]|[H _]]; [left; by eapply (to_owned db Hok r)|].
      destruct (Hhit r Hr H) as [_ [Hp _]]. destruct (Hp o Ho) as [?|?]; [|by left|right; by eapply (Hclosed r)].
      unfold owner_keys in Hk. by apply elem_filter in Hk as [? _]. }
    pose proof (is_record_owner r o Hk) as Hrec. unfold back.
    destruct (held_by db batch o) as [sn|] eqn:E; [apply held_by_Some in E as (? & _); congruence|].
    destruct Hlb as [Hlo|Hlo]; [by destruct (hit o)|]. by apply Is_true_true in Hlo as ->.
  - assert (Hone : ∀ r s, r ∈ rows db → s ∈ rows db → hit r → live s → clash db r s → r = s).
    { intros r s Hr Hs Hb Hl Hc. destruct (decide (r_id s = r_id r)) as [E|E].
      - eapply (map_NoDup_inj r_id (rows db)); [by apply to_ids|done..].
      - destruct (Hhit r Hr Hb) as [_ (_ & H & _)]. specialize (H s Hs Hl E). unfold refuses in H. apply orb_false_iff in H as [H _].
        by rewrite H in Hc. }
    intros r s Hr Hs Hlr Hls Hc. destruct (back_live r Hr Hlr) as [[H1 _]|[H1 _]], (back_live s Hs Hls) as [[H2 _]|[H2 _]].
    + by apply (to_clear db Hok).
    + symmetry. apply Hone; [done..|]. by rewrite (clash_sym db Hok) by done.
    + by apply Hone.
    + apply (mo_clear db batch Hmates); [done|done|by apply Hhit|by apply Hhit|done].
Qed.
End back.

(** A batch of records: what comes back is what may. *)
Lemma restore_records : (∀ r, r ∈ rows db → in_batch batch r → is_record r = true) →
  let hit r := in_batch batch r && negb (among r (record_checks db batch).2) in
  ∃ res, restore_batch db batch (Some (default_conflict_check db)) true = Ok (update_rows (back db batch hit) db, res)
    ∧ map c_row (conflicts res) = (record_checks db batch).2.
Proof.
  intros Hflat hit. assert (Hnil : batch_rows db batch = []).
  { destruct (batch_rows db batch) as [|x l] eqn:E; [done|]. assert (Hx : x ∈ batch_rows db batch) by (rewrite E; left).
    apply elem_batch_rows in Hx as (Hx & Hrec & Hb). by rewrite Hflat in Hrec. }
  pose proof (found_rows db batch) as Hfound. unfold restore_batch. rewrite Hnil. subst hit.
  destruct (record_checks db batch) as [found refused]. cbn [fst snd] in *.
  cbn [sweep mbind result_bind fst snd app List.filter map]. rewrite andb_false_r.
  set (records := List.filter _ (batch_records db batch)).
  pose proof (finish_rows records [] (λ r, in_batch batch r && negb (among r refused))) as Hfin. cbn zeta in Hfin.
  destruct (_hold_records_with_trashed_subnet db batch) as [[db1 moved] held] eqn:Eh. cbn [unstamp_zones fst] in *.
  eexists. split; [f_equal; f_equal; apply Hfin|cbn; by rewrite app_nil_r].
  - by intros x [(? & _)%elem_batch_records _]%elem_filter.
  - intros r Hr. cbn. apply eq_true_iff_eq. unfold records. rewrite (row_among db Hok r); [|done|by intros x [(? & _)%elem_batch_records _]%elem_filter].
    rewrite elem_filter, elem_batch_records by done. rewrite !andb_true_iff, Is_true_true. unfold is_record, as_record.
    split; [tauto|]. intros [Hb Hn]. split_and!; try done.
    + pose proof (Hflat r Hr ltac:(by rewrite Hb)) as Hrec. unfold is_record in Hrec. by destruct (r_data r).
    + pose proof (Hflat r Hr ltac:(by rewrite Hb)) as Hrec. unfold is_record in Hrec. by destruct (r_data r).
Qed.
End restore.

(** ** When a restore fails *)
Lemma scalar_two l e : scalar_one_or_none l = Err e → e = MultipleRows ∧ ∃ a b k, l = a :: b :: k.
Proof. destruct l as [|a [|b k]]; try done. intros [= <-]. eauto. Qed.

Lemma map_result_Err {E A B} (f : A → result E B) l e : map_result f l = Err e → ∃ x, x ∈ l ∧ f x = Err e.
Proof.
  induction l as [|x l IH]; cbn; [done|]. destruct (f x) as [y|e'] eqn:Ef; cbn.
  - destruct (map_result f l); cbn; [done|]. intros [= ->]. destruct IH as (z & ? & ?); [done|]. exists z. split; [by right|done].
  - intros [= ->]. exists x. split; [left|done].
Qed.

Section failures.
Context (db : Db) (Hok : trash_ok db).

Lemma two_hits obj p a b k : others db obj p = a :: b :: k → a ≠ b ∧ (∀ x, x = a ∨ x = b → x ∈ rows db ∧ live x ∧ p (r_data x) = true).
Proof.
  intros E. split.
  - assert (Hn : NoDup (others db obj p)).
    { eapply sublist_NoDup; [|apply filter_sublist]. by eapply NoDup_fmap_1, (to_ids db Hok). }
    rewrite E in Hn. apply NoDup_cons in Hn as [Hn _]. intros ->. apply Hn. left.
  - intros x Hx. assert (Hin : x ∈ others db obj p) by (rewrite E; destruct Hx as [-> | ->]; [left|right; left]).
    apply elem_select in Hin as (? & ? & [? _]%andb_true_iff). done.
Qed.

Lemma no_type_error obj s p n : wf n →
  TreeCreate._assert_no_block_overlap (ipam db) s n p (Some (r_id obj)) ≠ Err MixedFamilies.
Proof.
  intros Hn H. unfold TreeCreate._assert_no_block_overlap in H. apply map_result_Err in H as (b & [Hb H1]%elem_filter & H). bool_hyps.
  apply elem_ip_block in Hb as (o & t & q & m & Ho & Eo & ->). cbn in *.
  pose proof (wf_network db Hok o m Ho ltac:(eauto)) as Hm.
  assert (Hv : ver m = ver n).
  { match goal with Ho : overlaps m n = true |- _ => apply overlaps_spec in Ho as (x & [Hx _] & [Hy _]); [congruence|done|done] end. }
  unfold TreeCreate.against_sibling in H. cbn in H. case_bool_decide; [done|]. unfold TreeCreate.within, subnet_of in H.
  rewrite !bool_decide_false in H by (intros Hne; by apply Hne). cbn in H. repeat case_match; done.
Qed.

(** A query of a unique key finds no two live rows. *)
Lemma unique_hit obj p a b k : (∀ x y, p (r_data x) = true → p (r_data y) = true → clash db x y) → others db obj p ≠ a :: b :: k.
Proof.
  intros H E. apply two_hits in E as [Hne Hxy]. destruct (Hxy a ltac:(by left)) as (? & ? & Ha). destruct (Hxy b ltac:(by right)) as (? & ? & Hb).
  apply Hne, (to_clear db Hok); auto.
Qed.

Ltac by_key := intros ? ?; unfold clash; match goal with |- context [r_data ?x] => destruct (r_data x) end; try done;
  match goal with |- context [r_data ?y] => destruct (r_data y) end; try done; intros; bool_hyps; subst; rewrite !bool_decide_true by done; cbn; auto.

Lemma check_fails r e : r ∈ rows db → default_conflict_check db r = Err e →
  e = MultipleRows ∧ ∃ a b, a ∈ rows db ∧ b ∈ rows db ∧ live a ∧ live b ∧ a ≠ b ∧ same_cidr r a ∧ same_cidr r b.
Proof.
  intros Hr. unfold default_conflict_check. destruct (trashed_parent db r) as [[]|]; [done|]. unfold live_clash.
  destruct (r_data r) as [n|s p n|s k n|g v n|d|g s a|n|n c|n c|s|s m] eqn:E; try done.
  - unfold space_check. destruct (scalar_one_or_none _) eqn:Es; [done|]. intros _. apply scalar_two in Es as (_ & x & y & l & Es).
    apply unique_hit in Es; [done|]. by_key.
  - unfold block_check. destruct (scalar_one_or_none _) as [[h|]|] eqn:Es; cbn [mbind result_bind]; [done| |].
    + intros H. exfalso. apply (no_type_error r s p n); [by eapply wf_network; eauto|].
      destruct (TreeCreate._assert_no_block_overlap (ipam db) s n p (Some (r_id r))) as [ids|[]]; try done; by destruct ids.
    + intros [= <-]. apply scalar_two in Es as (-> & x & y & l & Es). split; [done|]. apply two_hits in Es as [Hne Hxy].
      destruct (Hxy x ltac:(by left)) as (? & ? & Hx). destruct (Hxy y ltac:(by right)) as (? & ? & Hy). exists x, y.
      unfold same_cidr. rewrite E. destruct (r_data x), (r_data y); try done. bool_hyps. subst. by rewrite !bool_decide_true.
  - unfold subnet_check. destruct (scalar_one_or_none _) as [[h|]|] eqn:Es; cbn; [done| |].
    + unfold TreeCreate._assert_no_overlap. by destruct (List.find _ _).
    + intros _. apply scalar_two in Es as (_ & x & y & l & Es). assert (Hw : wf n) by (eapply wf_network; eauto).
      assert (Hnn : overlaps n n = true) by (apply overlaps_spec; [done|done|]; exists (network_address n); auto with spatium).
      apply unique_hit in Es; [done|]. by_key.
  - unfold zone_check. destruct (scalar_one_or_none _) eqn:Es; [done|]. intros _. apply scalar_two in Es as (_ & x & y & l & Es).
    apply unique_hit in Es; [done|]. by_key.
  - unfold scope_check. destruct (scalar_one_or_none _) as [[h|]|] eqn:Es; cbn; [done|done|].
    intros _. apply scalar_two in Es as (_ & x & y & l & Es). apply unique_hit in Es; [done|]. by_key.
Qed.

Lemma sweep_fails f l e : sweep (Some f) l = Err e → ∃ r, r ∈ l ∧ f r = Err e.
Proof.
  induction l as [|r l IH]; cbn; [done|]. destruct (f r) eqn:Ef; cbn; [|intros [= <-]; exists r; split; [left|done]].
  destruct (sweep (Some f) l); cbn; [done|]. intros [= ->]. destruct IH as (x & ? & ?); [done|]. exists x. split; [by right|done].
Qed.

Lemma restore_fails batch skip e : restore_batch db batch (Some (default_conflict_check db)) skip = Err e →
  e = MultipleRows ∧ ∃ r a b, r ∈ rows db ∧ in_batch batch r ∧ a ∈ rows db ∧ b ∈ rows db ∧ live a ∧ live b ∧ a ≠ b
    ∧ same_cidr r a ∧ same_cidr r b.
Proof.
  unfold restore_batch. destruct (record_checks db batch) as [found refused].
  destruct (sweep _ _) as [swept|e'] eqn:Es; cbn [mbind result_bind].
  - destruct (_ && _); [done|]. destruct (_hold_records_with_trashed_subnet db batch) as [[db1 moved] held].
    by destruct (unstamp_zones _ _ _ _ _).
  - intros [= ->]. apply sweep_fails in Es as (r & (Hr & _ & Hb)%elem_batch_rows & H). apply check_fails in H as (He & a & b & H); [|done].
    split; [done|]. exists r, a, b. tauto.
Qed.
End failures.

(** ** Correctness *)

(** C5 -- a delete moves exactly the live rows under its roots: the walk ends
    (whatever fuel above the depth of the tree it is given), names no row
    twice, and the stamping marks every live row that hangs from a root, by
    its block, space, subnet, scope or zone, with one stamp, and touches no
    other row, the ones already in the Trash included; afterwards no live row
    has an owner in the Trash, and the rows of the batch are compatible. *)
Theorem delete_exact (db : Db) (rank : str → nat) (fuel : nat) (roots : list Row) (bid : str) (user : option str) (now : Z) :
  trash_ok db → ranked rank db →
  (∀ r, r ∈ roots → r ∈ rows db ∧ live r ∧ (rank (r_id r) < fuel)%nat) → (∀ r, r ∈ rows db → in_batch bid r = false) →
  ∃ batch p, let db' := update_rows (λ r, if p r : bool then set_stamp (mkStamp (Some now) user (Some bid)) r else r) db in
    collect_roots fuel db (new_batch bid) roots = Some batch ∧ NoDup (map key (b_rows batch))
    ∧ (apply_soft_delete db batch user now).1 = db' ∧ (∀ r, r ∈ rows db → p r = true ↔ swept db roots r)
    ∧ trash_ok db' ∧ mates_ok db' bid.
Proof.
  intros Hok Hrank Hroots Hfresh. destruct (delete_spec db rank fuel roots bid user now Hok Hrank Hroots Hfresh) as (batch & p & H).
  exists batch, p. cbv zeta in *. tauto.
Qed.

(** C4 -- a restore is all or nothing, and safe: it brings the batch back
    exactly when every row of it may come back (each parent live or in the
    batch, no live row of its name, CIDR, prefix, MAC, or record identity, no
    CNAME beside other data, no orphan's record); then the rows of the batch,
    and only they, are live again, except records whose subnet is in the
    Trash, which move to the subnet's batch, and the live rows are consistent;
    otherwise nothing changes.  It raises only where two live blocks of the
    space have the CIDR of a block of the batch. *)
Theorem restore_exact (db : Db) (batch : str) : trash_ok db → mates_ok db batch →
  let run := restore_batch db batch (Some (default_conflict_check db)) false in
  ((∃ db' res, run = Ok (db', res) ∧ conflicts res = []) ↔ ∀ r, r ∈ rows db → in_batch batch r → restorable db batch r)
  ∧ (∀ db' res, run = Ok (db', res) →
      if bool_decide (conflicts res = []) then db' = update_rows (back db batch (in_batch batch)) db ∧ trash_ok db'
      else db' = db ∧ restored res = [])
  ∧ (∀ e, run = Err e → e = MultipleRows ∧ ∃ r a b, r ∈ rows db ∧ in_batch batch r ∧ a ∈ rows db ∧ b ∈ rows db ∧ live a ∧ live b
      ∧ a ≠ b ∧ same_cidr r a ∧ same_cidr r b).
Proof.
  intros Hok Hmates run. split_and!.
  - split; [|intros H; destruct (restore_ok db Hok batch Hmates H) as (res & ? & ? & _); eauto].
    intros (db' & res & Hrun & Hc). by apply (restore_conflicts db Hok batch Hmates db' res Hrun).
  - intros db' res Hrun. destruct (restore_conflicts db Hok batch Hmates db' res Hrun) as [H1 H2].
    case_bool_decide as Hc; [|by apply H2]. specialize (H1 Hc). destruct (restore_ok db Hok batch Hmates H1) as (res' & Hrun' & _).
    unfold run in Hrun. rewrite Hrun in Hrun'. injection Hrun' as -> _. split; [done|]. apply (back_trash db Hok batch Hmates).
    + intros r Hr Hb. split; [done|]. by apply H1.
    + done.
  - intros e. by apply (restore_fails db Hok).
Qed.

(** Skipping conflicts is safe where [restore_row] allows it: of a batch
    of records, exactly those that may come back do (or move to the batch of
    the subnet that holds them), exactly the others are reported, and the live
    rows stay consistent: no record under a zone in the Trash, no twin, no
    CNAME beside other data. *)
Theorem partial_restore_exact (db : Db) (batch : str) : trash_ok db → mates_ok db batch → partial_allowed db batch = true →
  ∃ hit res, let db' := update_rows (back db batch hit) db in
    restore_batch db batch (Some (default_conflict_check db)) true = Ok (db', res)
    ∧ (∀ r, r ∈ rows db → hit r = true ↔ in_batch batch r ∧ restorable db batch r)
    ∧ (∀ r, r ∈ rows db → in_batch batch r → r ∈ map c_row (conflicts res) ↔ ¬ restorable db batch r)
    ∧ trash_ok db'.
Proof.
  intros Hok Hmates Hallowed.
  assert (Hflat : ∀ r, r ∈ rows db → in_batch batch r → is_record r = true).
  { intros r Hr Hb%Is_true_true. unfold partial_allowed in Hallowed. rewrite forallb_elem_iff in Hallowed.
    assert (Ht : _resource_type r ∈ batch_resource_types db batch).
    { apply elem_filter. split; [unfold _resource_type, TYPE_TO_MODEL; destruct (r_data r); rewrite !elem_of_cons; tauto|].
      apply existsb_elem. exists r. split; [by apply elem_filter|by apply bool_decide_eq_true]. }
    apply Hallowed, bool_decide_eq_true, list_elem_of_singleton in Ht. unfold _resource_type, is_record in *. by destruct (r_data r). }
  destruct (restore_records db Hok batch Hflat) as (res & Hrun & Hres). set (hit := λ r, _) in Hrun. exists hit, res.
  assert (Hrec : ∀ r, r ∈ rows db → in_batch batch r → among r (record_checks db batch).2 = false ↔ restorable db batch r).
  { intros r Hr Hb. apply among_refused; [done|apply elem_batch_records; auto|]. by apply (mo_trashed db batch Hmates). }
  assert (Hhit : ∀ r, r ∈ rows db → hit r = true ↔ in_batch batch r ∧ restorable db batch r).
  { intros r Hr. unfold hit. rewrite andb_true_iff, negb_true_iff, <- Is_true_true. split; intros [Hb H]; (split; [done|]); by apply Hrec. }
  split_and!; [done|done| |].
  - intros r Hr Hb. rewrite Hres, <- (Hrec r Hr Hb), not_false_iff_true, (row_among db Hok r); [done|done|].
    by intros x (? & _)%refused_batch%elem_batch_records.
  - apply (back_trash db Hok batch Hmates).
    + intros r Hr Hh. apply Hhit; [done|by apply Is_true_true].
    + intros r o Hr Ho _ Hb Hk. apply is_record_owner in Hk. by rewrite Hflat in Hk.
Qed.

(** What a delete must not meet for its restore to bring everything back. *)
Record recoverable (db : Db) (roots : list Row) : Prop := {
  rc_parents r p : r ∈ roots → p ∈ rows db → key p ∈ parent_keys r → live p;
  rc_cidr a b : a ∈ rows db → b ∈ rows db → live a → live b → same_cidr a b → a = b;
  rc_orphan r d a : r ∈ roots → as_record r = Some d → address_of db d = Some a → a_status a ≠ "orphan";
  rc_subnet r d a sn : swept db roots r → as_record r = Some d → address_of db d = Some a → get db "subnet" (a_subnet a) = Some sn → live sn;
}.

Lemma parent_owner r p : key p ∈ parent_keys r → key p ∈ owner_keys r ∨ owner_keys r = [].
Proof.
  unfold owner_keys, parent_keys, candidates. destruct (r_data r); intros H; try (by right);
    try (left; apply elem_filter; split; [done|]; revert H; repeat match goal with x : option str |- _ => destruct x end; cbn;
         unfold key; rewrite ?elem_pair, ?elem_of_nil; intros H; apply negb_true_iff, bool_decide_eq_false; cbn; intuition congruence).
  all: right; repeat match goal with x : option str |- _ => destruct x end; done.
Qed.

Lemma same_cidr_keeps f r o : keeps_data f → same_cidr (f r) (f o) = same_cidr r o.
Proof. intros Hf. unfold same_cidr. by rewrite !(proj2 (Hf _)). Qed.

Lemma set_no_stamp r : r_stamp r = no_stamp → set_stamp no_stamp r = r.
Proof. intros H. destruct r. cbn in *. by subst. Qed.

Section roundtrip.
Context (db : Db) (Hok : trash_ok db) (roots : list Row) (Hroots : ∀ r, r ∈ roots → r ∈ rows db ∧ live r) (Hrc : recoverable db roots).
Context (bid : str) (Hfresh : ∀ r, r ∈ rows db → in_batch bid r = false) (s : Stamp) (Hs : deletion_batch_id s = Some bid) (Hd : deleted_at s ≠ None).
Context (p : Row → bool) (Hp : ∀ r, r ∈ rows db → p r = true ↔ swept db roots r).

Let f (r : Row) : Row := if p r then set_stamp s r else r.
Let db' : Db := update_rows f db.

Lemma stamped_keeps : keeps_data f.
Proof. apply (keeps_stamp p (λ _, s)). Qed.

Lemma f_batch r : r ∈ rows db → in_batch bid (f r) = p r.
Proof. intros Hr. unfold f, in_batch. destruct (p r); cbn; [by rewrite Hs, bool_decide_true|by apply (Hfresh r)]. Qed.

Lemma f_live r : r ∈ rows db → live (f r) = live r && negb (p r).
Proof.
  intros Hr. unfold f. destruct (p r); cbn; [|by rewrite andb_true_r]. rewrite andb_false_r. unfold live. cbn. by apply bool_decide_eq_false.
Qed.

Lemma deleted_parents r o : r ∈ rows db → o ∈ rows db → p r = true → key o ∈ parent_keys r → live o.
Proof.
  intros Hr Ho Hpr%Hp Hk; [|done]. destruct (parent_owner r o Hk) as [Hown|Hnone].
  - eapply (to_owned db Hok r); [done..| |done]. by apply (swept_live db roots Hroots).
  - destruct Hpr as (root & Hroot & H). destruct H as [x|x y z (_ & _ & _ & _ & Hxy) _]; [by eapply (rc_parents db roots Hrc)|].
    rewrite Hnone in Hxy. by apply elem_of_nil in Hxy.
Qed.

Lemma deleted_restorable r : r ∈ rows db' → in_batch bid r → restorable db' bid r.
Proof.
  intros (r0 & Hr & ->)%elem_update Hb. rewrite f_batch in Hb by done. apply Is_true_true in Hb.
  pose proof (proj1 (Hp r0 Hr) Hb) as Hsw. pose proof (swept_live db roots Hroots r0 Hsw) as [_ Hl]. split_and!.
  - intros q (q0 & Hq & ->)%elem_update Hk. rewrite (update_key f stamped_keeps) in Hk.
    replace (parent_keys (f r0)) with (parent_keys r0) in Hk by (unfold parent_keys, candidates; by rewrite (proj2 (stamped_keeps r0))).
    pose proof (deleted_parents r0 q0 Hr Hq Hb Hk) as Hql. rewrite f_batch, f_live by done.
    apply Is_true_true in Hql. rewrite Hql. destruct (p q0); [by right|by left].
  - intros o (o0 & Ho & ->)%elem_update Hol Hid. rewrite f_live in Hol by done. apply Is_true_true, andb_true_iff in Hol as [Hol _].
    unfold refuses, db'. rewrite (clash_update f stamped_keeps), (same_cidr_keeps f r0 o0 stamped_keeps). rewrite !(proj1 (stamped_keeps _)) in Hid.
    apply orb_false_iff. split; apply not_true_iff_false; intros Hc; apply Hid; f_equal.
    + symmetry. apply (to_clear db Hok); [done|done|done|by rewrite Hol|by rewrite Hc].
    + symmetry. apply (rc_cidr db roots Hrc); [done|done|done|by rewrite Hol|by rewrite Hc].
  - intros (d & a & z & Ed & _ & Ea & Est & Ez & Hz). replace (as_record (f r0)) with (as_record r0) in Ed by (unfold as_record; by rewrite (proj2 (stamped_keeps r0))).
    unfold db' in Ez. rewrite (get_update f stamped_keeps) in Ez. apply fmap_Some in Ez as (z0 & Ez & ->). apply (get_spec db Hok) in Ez as [Hz0 Ekz].
    rewrite f_batch in Hz by done. destruct Hsw as (root & Hroot & H). destruct H as [x|x y root Hxy Hy].
    + by eapply (rc_orphan db roots Hrc x).
    + assert (y = z0) as ->.
      { destruct Hxy as (_ & Hyr & _ & _ & Hk). eapply (key_inj db); [done|done|done|]. rewrite Ekz.
        unfold as_record, owner_keys, parent_keys, candidates in *. destruct (r_data x); try done. injection Ed as ->. cbn in Hk.
        rewrite bool_decide_false in Hk by done. cbn in Hk. by apply list_elem_of_singleton in Hk. }
      assert (Hswz : swept db roots z0) by by exists root. apply Hp in Hswz; [congruence|done].
Qed.

Lemma deleted_not_held r : r ∈ rows db' → held_by db' bid r = None.
Proof.
  intros (r0 & Hr & ->)%elem_update. destruct (held_by db' bid (f r0)) as [sn|] eqn:E; [|done]. exfalso.
  pose proof (held_by_Some _ _ _ _ E) as (_ & Hb & Hsn & Hsb). rewrite f_batch in Hb by done.
  unfold held_by in E. apply bind_Some in E as (d & Ed & E). destruct (_ && _); [|done]. apply bind_Some in E as (a & Ea & E).
  apply bind_Some in E as (sn' & Esn & E). assert (sn' = sn) as ->.
  { destruct (deletion_batch_id (r_stamp sn')); [|done]. destruct (_ && _); [|done]. congruence. }
  unfold db' in Esn. rewrite (get_update f stamped_keeps) in Esn. apply fmap_Some in Esn as (sn0 & Esn & ->).
  replace (as_record (f r0)) with (as_record r0) in Ed by (unfold as_record; by rewrite (proj2 (stamped_keeps r0))).
  pose proof (rc_subnet db roots Hrc r0 d a sn0 (proj1 (Hp r0 Hr) Hb) Ed Ea Esn) as Hlsn.
  apply (get_spec db Hok) in Esn as [Hsn0 _]. rewrite f_batch in Hsb by done. rewrite f_live, Hsb in Hsn by done.
  apply Is_true_true in Hlsn. by rewrite Hlsn in Hsn.
Qed.

Lemma back_undoes : update_rows (back db' bid (in_batch bid)) db' = db.
Proof.
  transitivity (update_rows id db); [|unfold update_rows; rewrite map_id; by destruct db].
  unfold db' at 2, update_rows. cbn. f_equal. rewrite map_map. apply map_ext_in. intros r Hr%list_elem_of_In.
  unfold back. rewrite deleted_not_held by (by apply elem_update; exists r). rewrite f_batch by done. unfold f.
  destruct (p r) eqn:E; [|done]. change (set_stamp no_stamp r = r). apply set_no_stamp, (to_stamps db Hok); [done|]. by apply (swept_live db roots Hroots), Hp.
Qed.
End roundtrip.

(** C3 -- a delete can be undone: of a consistent table with no two live blocks
    of one space and CIDR, restoring the batch a delete just made gives back
    the very table there was before, unless a root is a service or overlay of
    a customer in the Trash, or a record of an orphan, or a record goes whose
    subnet is in the Trash already. *)
Theorem delete_restore_roundtrip (db : Db) (rank : str → nat) (fuel : nat) (roots : list Row) (bid : str) (user : option str) (now : Z) :
  trash_ok db → ranked rank db →
  (∀ r, r ∈ roots → r ∈ rows db ∧ live r ∧ (rank (r_id r) < fuel)%nat) → (∀ r, r ∈ rows db → in_batch bid r = false) →
  recoverable db roots →
  ∃ batch, collect_roots fuel db (new_batch bid) roots = Some batch
    ∧ let db' := (apply_soft_delete db batch user now).1 in
      ∃ res, restore_batch db' bid (Some (default_conflict_check db')) false = Ok (db, res) ∧ conflicts res = [] ∧ held_back res = [].
Proof.
  intros Hok Hrank Hroots Hfresh Hrc.
  destruct (delete_spec db rank fuel roots bid user now Hok Hrank Hroots Hfresh) as (batch & p & Hcol & Happ & _ & Hp & Hok' & Hmates).
  exists batch. split; [done|]. cbv zeta. rewrite Happ. set (s := mkStamp (Some now) user (Some bid)) in *.
  assert (Hlive : ∀ r, r ∈ roots → r ∈ rows db ∧ live r) by (intros r Hr; split; by apply Hroots).
  set (db' := update_rows _ db) in *.
  destruct (restore_ok db' Hok' bid Hmates) as (res & Hrun & Hc & Hh).
  { intros r. by apply (deleted_restorable db Hok roots Hlive Hrc bid Hfresh s). }
  exists res. rewrite Hrun. split_and!; [|done|].
  - do 2 f_equal. by apply (back_undoes db Hok roots Hlive Hrc bid Hfresh s).
  - rewrite Hh. replace (omap (held_by db' bid) (rows db')) with (@nil Row); [done|]. symmetry. apply omap_none.
    intros r. by apply (deleted_not_held db Hok roots Hrc bid Hfresh s).
Qed.

(** ** Examples *)
Definition trash_okb (db : Db) : bool :=
  let l := rows db in
  bool_decide (NoDup (map r_id l))
  && forallb (λ r, match r_data r with IPBlock _ _ n | Subnet _ _ n => bool_decide (wf n) | _ => true end) l
  && forallb (λ r, negb (live r) || bool_decide (r_stamp r = no_stamp)) l
  && forallb (λ r, forallb (λ o, negb (live r && bool_decide (key o ∈ owner_keys r)) || live o) l) l
  && forallb (λ r, forallb (λ s, negb (live r && live s && clash db r s) || bool_decide (r = s)) l) l.

Lemma trash_okb_sound db : trash_okb db = true → trash_ok db.
Proof.
  unfold trash_okb. rewrite !andb_true_iff, !forallb_elem_iff, bool_decide_eq_true. intros [[[[H1 H2] H3] H4] H5].
  constructor; [done| | | |].
  - intros r Hr. specialize (H2 r Hr). unfold networks_wf. destruct (r_data r); try done; by apply bool_decide_eq_true in H2.
  - intros r Hr Hl. specialize (H3 r Hr). apply Is_true_true in Hl. rewrite Hl in H3. by apply bool_decide_eq_true in H3.
  - intros r o Hr Ho Hl Hk. specialize (H4 r Hr). rewrite forallb_elem_iff in H4. specialize (H4 o Ho).
    apply Is_true_true in Hl. rewrite Hl, bool_decide_true in H4 by done. by apply Is_true_true.
  - intros r s Hr Hs Hl1 Hl2 Hc. specialize (H5 r Hr). rewrite forallb_elem_iff in H5. specialize (H5 s Hs).
    apply Is_true_true in Hl1, Hl2, Hc. rewrite Hl1, Hl2, Hc in H5. by apply bool_decide_eq_true in H5.
Qed.

Definition mates_okb (db : Db) (batch : str) : bool :=
  let l := List.filter (in_batch batch) (rows db) in
  forallb (λ r, negb (live r)) l && forallb (λ r, forallb (λ s, negb (clash db r s) || bool_decide (r = s)) l) l.

Lemma mates_okb_sound db batch : mates_okb db batch = true → mates_ok db batch.
Proof.
  unfold mates_okb. rewrite andb_true_iff, !forallb_elem_iff. intros [H1 H2].
  assert (Hin : ∀ r, r ∈ rows db → in_batch batch r → r ∈ List.filter (in_batch batch) (rows db)).
  { intros r Hr Hb. apply elem_filter. split; [done|by apply Is_true_true]. }
  constructor.
  - intros r Hr Hb. by apply negb_true_iff, H1, Hin.
  - intros r s Hr Hs Hbr Hbs Hc. specialize (H2 r (Hin r Hr Hbr)). rewrite forallb_elem_iff in H2. specialize (H2 s (Hin s Hs Hbs)).
    apply Is_true_true in Hc. rewrite Hc in H2. by apply bool_decide_eq_true in H2.
Qed.

Definition rankedb (rank : str → nat) (db : Db) : bool :=
  forallb (λ x, forallb (λ y, negb (bool_decide (key y ∈ owner_keys x)) || (rank (r_id x) <? rank (r_id y))%nat) (rows db)) (rows db).

Lemma rankedb_sound rank db : rankedb rank db = true → ranked rank db.
Proof.
  unfold rankedb. rewrite forallb_elem_iff. intros H x y (Hx & Hy & _ & _ & Hk). specialize (H x Hx). rewrite forallb_elem_iff in H.
  specialize (H y Hy). rewrite bool_decide_true in H by done. by apply Nat.ltb_lt.
Qed.

Definition recoverableb (db : Db) (roots : list Row) : bool :=
  forallb (λ r, forallb (λ p, negb (bool_decide (key p ∈ parent_keys r)) || live p) (rows db)) roots
  && forallb (λ a, forallb (λ b, negb (live a && live b && same_cidr a b) || bool_decide (a = b)) (rows db)) (rows db)
  && forallb (λ r, match as_record r ≫= address_of db with Some a => negb (bool_decide (a_status a = "orphan")) | None => true end) roots
  && forallb (λ r, match (as_record r ≫= address_of db) ≫= λ a, get db "subnet" (a_subnet a) with Some sn => live sn | None => true end) (rows db).

Lemma recoverableb_sound db roots : (∀ r, r ∈ roots → r ∈ rows db ∧ live r) → recoverableb db roots = true → recoverable db roots.
Proof.
  intros Hroots. unfold recoverableb. rewrite !andb_true_iff, !forallb_elem_iff. intros [[[H1 H2] H3] H4]. constructor.
  - intros r p Hr Hp Hk. specialize (H1 r Hr). rewrite forallb_elem_iff in H1. specialize (H1 p Hp).
    rewrite bool_decide_true in H1 by done. by apply Is_true_true.
  - intros a b Ha Hb Hla Hlb Hc. specialize (H2 a Ha). rewrite forallb_elem_iff in H2. specialize (H2 b Hb).
    apply Is_true_true in Hla, Hlb, Hc. rewrite Hla, Hlb, Hc in H2. by apply bool_decide_eq_true in H2.
  - intros r d a Hr Ed Ea. specialize (H3 r Hr). rewrite Ed in H3. cbn in H3. rewrite Ea in H3. by apply negb_true_iff, bool_decide_eq_false in H3.
  - intros r d a sn Hsw Ed Ea Esn. apply (swept_live db roots Hroots) in Hsw as [Hr _]. specialize (H4 r Hr).
    rewrite Ed in H4. cbn in H4. rewrite Ea in H4. cbn in H4. rewrite Esn in H4. by apply Is_true_true.
Qed.

(** A space with a /24, in it a /26 block and a /26 subnet with a scope, a pool
    and a reservation; a zone with the record of an address of the subnet; two
    records of the zone in the Trash, one of them now a twin; and a service. *)
Definition on (id : str) (d : Data) : Row := mkRow id no_stamp d.
Definition off (batch id : str) (d : Data) : Row := mkRow id (mkStamp (Some 7) None (Some batch)) d.
Definition net (a p : Z) : IPNetwork := mkNet V4 (167772160 + a) p.
Definition a_record (name value : str) (auto : bool) (address : option str) : Data :=
  DNSRecord (mkRecord "z" name "A" value None None None None auto address).
Definition trash_sample : Db := mkDb
  [on "sp" (IPSpace "lab"); on "b" (IPBlock "sp" None (net 0 24)); on "c" (IPBlock "sp" (Some ("b" : str)) (net 64 26));
   on "s" (Subnet "sp" "b" (net 0 26)); on "d" (DHCPScope "g" "s" true); on "q" (DHCPPool "d");
   on "m" (DHCPStaticAssignment "d" "00:11:22:33:44:55"); on "z" (DNSZone "g" None "example.com");
   on "r" (a_record "www" "10.0.0.9" true (Some ("a" : str))); off "old" "v" (a_record "WWW" "10.0.0.9 " false None);
   off "old" "w" (a_record "mail" "10.0.0.8" false None); on "cu" (Customer "acme"); on "sv" (NetworkService "vpn" (Some ("cu" : str)))]
  [mkAddress "a" "s" "allocated"].

Definition rank_sample (id : str) : nat :=
  if bool_decide (id = "sp") then 5 else if bool_decide (id = "b") then 4
  else if bool_decide (id ∈ ["c" : str; "s" : str]%list) then 3 else if bool_decide (id ∈ ["d" : str; "z" : str]%list) then 2 else 1.

Definition row (id : str) : Row := default (on "?" (IPSpace [])) (List.find (λ r, bool_decide (r_id r = id)) (rows trash_sample)).

Lemma trash_sample_ok : trash_ok trash_sample.
Proof. apply trash_okb_sound. vm_compute. reflexivity. Qed.

Lemma trash_sample_ranked : ranked rank_sample trash_sample.
Proof. apply rankedb_sound. vm_compute. reflexivity. Qed.

Lemma trash_sample_fresh : ∀ r, r ∈ rows trash_sample → in_batch "new" r = false.
Proof. intros r Hr. apply negb_true_iff. revert r Hr. apply forallb_elem_iff. vm_compute. reflexivity. Qed.

Lemma sample_roots ids : forallb (λ id, bool_decide (row id ∈ rows trash_sample) && live (row id) && (rank_sample (r_id (row id)) <? 6)%nat) ids = true →
  ∀ r, r ∈ map row ids → r ∈ rows trash_sample ∧ live r ∧ (rank_sample (r_id r) < 6)%nat.
Proof.
  rewrite forallb_elem_iff. intros H r (id & -> & Hid)%list_elem_of_fmap. specialize (H id Hid). bool_hyps.
  split_and!; [done|by apply Is_true_true|by apply Nat.ltb_lt].
Qed.

(** What is in the Trash after deleting some rows, and the table. *)
Definition deleted (ids : list str) : option Db :=
  batch ← collect_roots 6 trash_sample (new_batch "new") (map row ids);
  Some (apply_soft_delete trash_sample batch None 9).1.
Definition trashed (db : Db) : list str := map r_id (List.filter (in_batch "new") (rows db)).
Definition restoring (db : Db) (batch : str) (skip : bool) : option (list str * nat) :=
  match restore_batch db batch (Some (default_conflict_check db)) skip with
  | Ok (db', res) => Some (map r_id (List.filter live (rows db')), length (conflicts res))
  | Err _ => None
  end.

Lemma delete_exact_witness :
  (trashed <$> deleted ["sp" : str; "z" : str]%list) = Some ["sp" : str; "b" : str; "c" : str; "s" : str; "d" : str; "q" : str; "m" : str; "z" : str; "r" : str]%list
  ∧ ∃ batch p, let db' := update_rows (λ r, if p r : bool then set_stamp (mkStamp (Some 9) None (Some ("new" : str))) r else r) trash_sample in
    collect_roots 6 trash_sample (new_batch "new") (map row ["sp" : str; "z" : str]%list) = Some batch ∧ NoDup (map key (b_rows batch))
    ∧ (apply_soft_delete trash_sample batch None 9).1 = db'
    ∧ (∀ r, r ∈ rows trash_sample → p r = true ↔ swept trash_sample (map row ["sp" : str; "z" : str]%list) r)
    ∧ trash_ok db' ∧ mates_ok db' "new".
Proof.
  split; [vm_compute; reflexivity|].
  apply (delete_exact trash_sample rank_sample 6 (map row ["sp" : str; "z" : str]%list) "new" None 9 trash_sample_ok trash_sample_ranked
           (sample_roots ["sp" : str; "z" : str]%list ltac:(vm_compute; reflexivity)) trash_sample_fresh).
Defined.

(** The subnet is deleted; or the subnet and the inner block are, and then the
    block around them, under another batch. *)
Definition subnet_gone : Db := default trash_sample (deleted ["s" : str]%list).
Definition parent_gone : Db := update_rows (λ r, if bool_decide (r_id r = "b") then set_stamp (mkStamp (Some 8) None (Some ("up" : str))) r else r)
  (default trash_sample (deleted ["s" : str; "c" : str]%list)).

Lemma restore_exact_witness :
  restoring subnet_gone "new" false = Some (map r_id (List.filter live (rows trash_sample)), 0%nat)
  ∧ restoring parent_gone "new" false = Some (["sp" : str; "z" : str; "r" : str; "cu" : str; "sv" : str]%list, 2%nat)
  ∧ ∀ e, restore_batch subnet_gone "new" (Some (default_conflict_check subnet_gone)) false = Err e → e = MultipleRows.
Proof.
  split; [vm_compute; reflexivity|]. split; [vm_compute; reflexivity|]. intros e H.
  destruct (restore_exact subnet_gone "new" ltac:(apply trash_okb_sound; vm_compute; reflexivity)
              ltac:(apply mates_okb_sound; vm_compute; reflexivity)) as (_ & _ & Hfail).
  by apply Hfail.
Defined.

Lemma partial_restore_exact_witness :
  restoring trash_sample "old" false = Some (map r_id (List.filter live (rows trash_sample)), 1%nat)
  ∧ (λ x, (negb (bool_decide (("v" : str) ∈ x.1)) && bool_decide (("w" : str) ∈ x.1), x.2)) <$> restoring trash_sample "old" true = Some (true, 1%nat)
  ∧ ∃ hit res, let db' := update_rows (back trash_sample "old" hit) trash_sample in
    restore_batch trash_sample "old" (Some (default_conflict_check trash_sample)) true = Ok (db', res)
    ∧ (∀ r, r ∈ rows trash_sample → hit r = true ↔ in_batch "old" r ∧ restorable trash_sample "old" r)
    ∧ (∀ r, r ∈ rows trash_sample → in_batch "old" r → r ∈ map c_row (conflicts res) ↔ ¬ restorable trash_sample "old" r)
    ∧ trash_ok db'.
Proof.
  split; [vm_compute; reflexivity|]. split; [vm_compute; reflexivity|].
  apply (partial_restore_exact trash_sample "old" trash_sample_ok ltac:(apply mates_okb_sound; vm_compute; reflexivity) ltac:(vm_compute; reflexivity)).
Defined.

Lemma delete_restore_roundtrip_witness :
  ∃ batch, collect_roots 6 trash_sample (new_batch "new") (map row ["sp" : str; "z" : str; "sv" : str]%list) = Some batch
    ∧ let db' := (apply_soft_delete trash_sample batch None 9).1 in
      ∃ res, restore_batch db' "new" (Some (default_conflict_check db')) false = Ok (trash_sample, res) ∧ conflicts res = [] ∧ held_back res = [].
Proof.
  pose proof (sample_roots ["sp" : str; "z" : str; "sv" : str]%list ltac:(vm_compute; reflexivity)) as Hroots.
  apply (delete_restore_roundtrip trash_sample rank_sample 6 (map row ["sp" : str; "z" : str; "sv" : str]%list) "new" None 9 trash_sample_ok
           trash_sample_ranked Hroots trash_sample_fresh).
  apply recoverableb_sound; [intros r Hr; split; by apply Hroots|vm_compute; reflexivity].
Defined.

(** A block inside one of its CIDR, which [create_block] accepts, cannot be
    restored after a delete, although nothing else changed. *)
Definition nested_sample : Db := mkDb [on "sp" (IPSpace "lab"); on "b" (IPBlock "sp" None (net 0 24)); on "c" (IPBlock "sp" (Some ("b" : str)) (net 0 24))] [].

Example nested_cidr_refused : trash_ok nested_sample ∧
  (batch ← collect_roots 6 nested_sample (new_batch "new") [on "c" (IPBlock "sp" (Some ("b" : str)) (net 0 24))];
   restoring (apply_soft_delete nested_sample batch None 9).1 "new" false) = Some (["sp" : str; "b" : str]%list, 1%nat).
Proof. split; [apply trash_okb_sound|]; vm_compute; reflexivity. Qed.
End SoftDelete.
