(* ===== verification/DhcpOptions.v ===== *)
(** * DHCP options: names, values and spellings

    [services/dhcp/option_validation.py], with the spelling of a server group
    from [services/dhcp/option_spelling.py].  An options mapping is a dict of
    JSON values ([PyValue]: items in insertion order); a check is a function
    into [result], its [Err] the [ValueError].  [idna.encode] is a parameter,
    as in [DnsNames]; what the code uses of floats is the class [PyFloat].
    [KeaOptions] follows an options mapping to the agent that renders it. *)
From S2P Require Import IpNet PyStr Json DnsNames PyValue.
Import Json PyValue DnsNames.
Import IpNet(version, V4, V6).

Module DhcpOptions.

Abbreviation options := (list (str * json)).

(** Python's floats, by their [repr]: equality with an integer, and [int()]. *)
Class PyFloat := {
  float_is : str → Z → bool;
  float_trunc : str → Z;
}.

(** [int(v)] of a JSON value; [None] is the [TypeError] or [ValueError]. *)
Definition int_of `{PyFloat} (v : json) : option Z :=
  match v with
  | JBool b => Some (Z.b2z b)
  | JInt z => Some z
  | JFloat t => Some (float_trunc t)
  | JStr s => int_of_str s
  | _ => None
  end.

(** ** Tables *)

(** The value types of the checks. *)
Inductive value_check :=
| IpList (v : version)
| Ipv4
| String
| Integer (low high : Z)
| Fqdn
| FqdnList
| Hex.

#[export] Instance version_eq_dec : EqDecision version := IpNet.version_eq_dec.

#[export] Instance value_check_eq_dec : EqDecision value_check.
Proof. solve_decision. Defined.

Definition CODE_TO_NAME : list (Z * str) :=
  [(2, "time-offset" : str); (3, "routers"); (6, "dns-servers"); (15, "domain-name"); (26, "mtu");
   (28, "broadcast-address"); (42, "ntp-servers"); (66, "tftp-server-name"); (67, "bootfile-name");
   (119, "domain-search"); (150, "tftp-server-address")]%Z.

Definition OPTION_NAME_ALIASES : list (str * str) :=
  [("domain-name-servers", "dns-servers"); ("interface-mtu", "mtu"); ("boot-file-name", "bootfile-name")].

Definition _V4_CHECKS : list (str * value_check) :=
  [("routers", IpList V4); ("dns-servers", IpList V4); ("ntp-servers", IpList V4);
   ("tftp-server-address", IpList V4); ("broadcast-address", Ipv4); ("domain-name", Fqdn);
   ("domain-search", FqdnList); ("tftp-server-name", String); ("bootfile-name", String);
   ("mtu", Integer 68 65535); ("time-offset", Integer (- 2 ^ 31) (2 ^ 31 - 1))].

Definition _V6_CHECKS : list (str * value_check) :=
  [("dns-servers", IpList V6); ("ntp-servers", IpList V6); ("domain-search", FqdnList);
   ("bootfile-name", String)].

(** The [type] and [array] of an [option-def] of [drivers/dhcp/kea.py]. *)
Inductive kea_type := KBinary | KString | KIpv4Address (array : bool).

#[export] Instance kea_type_eq_dec : EqDecision kea_type.
Proof. solve_decision. Defined.

Definition _KEA_VENDOR_OPTION_DEFS : list (Z * kea_type) :=
  [(43, KBinary); (123, KBinary); (132, KString); (150, KIpv4Address true); (160, KString);
   (161, KString); (176, KString); (242, KString)]%Z.

Definition zget {A} (k : Z) (l : list (Z * A)) : option A :=
  snd <$> List.find (λ '(k', _), (k =? k')%Z) l.

Definition canonical_key (k : str) : str := default k (dget k OPTION_NAME_ALIASES).

(** [_NAME_TO_CODE] *)
Definition name_to_code (k : str) : option Z :=
  fst <$> List.find (λ '(_, n), bool_decide (k = n)) CODE_TO_NAME.

(** [_RAW_CODE] and [_WINDOWS_CODE], matched in full; the digits. *)
Definition after_prefix (p key : str) : option str :=
  let digits := drop (length p) key in
  if startswith p key && negb (bool_decide (digits = [])) && forallb is_digit digits then Some digits else None.

Definition _RAW_CODE (key : str) : option str := after_prefix "code:" key.
Definition _WINDOWS_CODE (key : str) : option str := after_prefix "opt-" key.

Definition int_digits (digits : str) : Z := default 0%Z (int_of_str digits).

Definition code_match (key : str) : option str :=
  match _RAW_CODE key with Some d => Some d | None => _WINDOWS_CODE key end.

Definition _is_code_key (key : str) : bool := bool_decide (is_Some (code_match key)).

Definition option_key_code (key : str) : option Z :=
  match name_to_code (canonical_key key) with
  | Some c => Some c
  | None => int_digits <$> code_match key
  end.

(** ** Values *)
Inductive value_error :=
| NoAddress (v : version)
| BadAddress (v : version) (item : json)
| NotSingle
| NotString
| Blank
| HasControlChars
| NotInteger (v : json)
| OutOfRange (n low high : Z)
| NoDomain
| BlankEntry
| BadDomain (e : name_error)
| NotHex
| NotHexDigits
| OddHexDigits.

Definition _is_unset (v : json) : bool :=
  match v with JNull | JStr [] | JArr [] => true | _ => false end.

(** The trimmed, nonblank parts of a comma-separated text. *)
Definition comma_parts (s : str) : list str :=
  List.filter (λ p, negb (bool_decide (p = []))) (map (strip is_space) (split "," s)).

Definition _items (v : json) : list json :=
  match v with
  | JArr l => l
  | JStr s => map JStr (comma_parts s)
  | _ => [v]
  end.

Definition _scalar (v : json) : result value_error json :=
  match v with
  | JArr [x] => Ok x
  | JArr _ => Err NotSingle
  | _ => Ok v
  end.

(** A loop of checks: the first failure ends it. *)
Fixpoint check_all {E A} (f : A → result E unit) (l : list A) : result E unit :=
  match l with
  | [] => Ok tt
  | x :: l' => _ ← f x; check_all f l'
  end.

Definition check_ip (v : version) (item : json) : result value_error unit :=
  match item with
  | JStr s =>
      match ip_address (strip is_space s) with
      | Some a => raise_if (negb (bool_decide (ip_version a = v))) (BadAddress v item)
      | None => Err (BadAddress v item)
      end
  | _ => Err (BadAddress v item)
  end.

Definition _check_ip_list (v : version) (value : json) : result value_error unit :=
  let items := _items value in
  if bool_decide (length items = 0) then Err (NoAddress v)
  else check_all (check_ip v) items.

Definition _ipv4 (value : json) : result value_error unit :=
  v ← _scalar value;
  _check_ip_list V4 (JArr [v]).

Definition _string (value : json) : result value_error unit :=
  v ← _scalar value;
  match v with
  | JStr _ | JInt _ =>
      let text := py_str v in
      if bool_decide (strip is_space text = []) then Err Blank
      else raise_if (contains_control_chars text) HasControlChars
  | _ => Err NotString
  end.

Definition _integer (low high : Z) (value : json) : result value_error unit :=
  v ← _scalar value;
  match v with
  | JBool _ => Err (NotInteger v)
  | _ =>
      match int_of_str (strip is_space (py_str v)) with
      | None => Err (NotInteger v)
      | Some n => raise_if (negb ((low <=? n)%Z && (n <=? high)%Z)) (OutOfRange n low high)
      end
  end.

Definition _hex (value : json) : result value_error unit :=
  v ← _scalar value;
  match v with
  | JStr s =>
      if bool_decide (s = []) then Err NotHex
      else if negb (forallb hex_char s) then Err NotHexDigits
      else raise_if (Nat.odd (length s)) OddHexDigits
  | _ => Err NotHex
  end.

Section options.
Context `{PyFloat}.
Variable idna_encode : str → option str.

Definition fqdn (s : str) : result name_error str := validate_fqdn idna_encode true s.

Definition check_fqdn (s : str) : result value_error unit :=
  match fqdn s with Ok _ => Ok tt | Err e => Err (BadDomain e) end.

Definition _fqdn (value : json) : result value_error unit :=
  v ← _scalar value;
  match v with
  | JStr s => if bool_decide (strip is_space s = []) then Err Blank else check_fqdn s
  | _ => Err Blank
  end.

Definition check_domain (item : json) : result value_error unit :=
  match item with
  | JStr s => if bool_decide (strip is_space s = []) then Err BlankEntry else check_fqdn s
  | _ => Err BlankEntry
  end.

Definition _fqdn_list (value : json) : result value_error unit :=
  let items := _items value in
  if bool_decide (length items = 0) then Err NoDomain
  else check_all check_domain items.

Definition run_check (c : value_check) : json → result value_error unit :=
  match c with
  | IpList v => _check_ip_list v
  | Ipv4 => _ipv4
  | String => _string
  | Integer low high => _integer low high
  | Fqdn => _fqdn
  | FqdnList => _fqdn_list
  | Hex => _hex
  end.

Definition _raw_code_check (kind : kea_type) : value_check :=
  match kind with
  | KBinary => Hex
  | KIpv4Address true => IpList V4
  | KIpv4Address false => Ipv4
  | KString => String
  end.

(** ** The domain options in their DNS form *)
Definition _FQDN_OPTION_RULES : list (str * value_check) :=
  [("domain-name", Fqdn); ("domain-search", FqdnList); ("opt-15", Fqdn); ("opt-119", FqdnList)].

(** [None] when an entry is refused, or there is none. *)
Definition _canonical_str (value : str) : option str :=
  match map_result fqdn (comma_parts value) with
  | Ok [] | Err _ => None
  | Ok out => Some (join ", " out)
  end.

Definition _canonical_fqdn (value : json) : json :=
  match value with
  | JStr s => from_option JStr value (_canonical_str s)
  | JArr l =>
      match mapM (λ item, match item with JStr s => _canonical_str s | _ => None end) l with
      | Some out => JArr (map JStr out)
      | None => value
      end
  | _ => value
  end.

(** [canon == out[key]] of [canonical_domain_options]: [canon] is [out[key]]
    itself, or made of strings only. *)
Definition rewrite_option (rule : value_check) (value : json) : json :=
  if _is_unset value then value
  else
    let canon := _canonical_fqdn value in
    if py_eq float_is canon value then value
    else match run_check rule canon with
         | Ok _ => canon
         | Err _ => value
         end.

Definition canonical_domain_options (opts : options) : options :=
  foldl (λ out '(key, rule),
           match dget key out with
           | None => out
           | Some value => dset key (rewrite_option rule value) out
           end) opts _FQDN_OPTION_RULES.

(** ** From the request to a mapping *)

(** The spelling of raw codes that a group's servers read. *)
Inductive raw_spelling := RAW_CODES_KEA | RAW_CODES_WINDOWS | RAW_CODES_NONE.

#[export] Instance raw_spelling_eq_dec : EqDecision raw_spelling.
Proof. solve_decision. Defined.

(** The key a list entry is stored under, [None] for one that is skipped. *)
Definition is_zero_code (v : json) : bool :=
  match v with
  | JNull | JStr [] => true
  | JStr s => bool_decide (s = "0")
  | _ => py_eq float_is v (JInt 0)
  end.

Definition entry_name (entry : options) : option str :=
  name ← dget "name" entry;
  if truthy name then Some (canonical_key (py_str name)) else None.

Definition entry_code (entry : options) : option Z :=
  let code := default JNull (dget "code" entry) in
  if is_zero_code code then None else int_of code.

(** A known name; a raw-code name yields to a code it disagrees with. *)
Definition known_name (name : str) (code : option Z) : bool :=
  (dmem name _V4_CHECKS || dmem name _V6_CHECKS || _is_code_key name) &&
  negb (bool_decide (is_Some code) && _is_code_key name && negb (bool_decide (option_key_code name = code))).

Definition raw_key (raw_codes : raw_spelling) (code : Z) : str :=
  match raw_codes with
  | RAW_CODES_WINDOWS => "opt-" ++ str_of_Z code
  | _ => "code:" ++ str_of_Z code
  end.

Definition entry_key (raw_codes : raw_spelling) (entry : options) : option str :=
  let name := entry_name entry in
  let code := entry_code entry in
  match name with
  | Some n =>
      if known_name n code then Some n
      else match code with
           | Some c => Some (default (raw_key raw_codes c) (zget c CODE_TO_NAME))
           | None => Some n
           end
  | None =>
      c ← code;
      Some (default (raw_key raw_codes c) (zget c CODE_TO_NAME))
  end.

Inductive option_error :=
| MoreThanOnce (key : str)
| RawKea
| RawCodeV4Only (key : str)
| MixedGroup (key : str)
| WindowsSpelling (key : str)
| KeaSpelling (key : str)
| Undeliverable (key : str) (code : Z)
| NoValue (key : str)
| BadValue (key : str) (e : value_error)
| CodeRange (key : str)
| NoV6Equivalent (key : str)
| UnknownOption (key : str).

(** The loop over the entries of a list; [seen] has the keys of [out]. *)
Fixpoint normalize_entries (raw_codes : raw_spelling) (out : options) (l : list json) : result option_error options :=
  match l with
  | [] => Ok out
  | JObj entry :: l' =>
      match entry_key raw_codes entry with
      | None => normalize_entries raw_codes out l'
      | Some key =>
          if dmem key out then Err (MoreThanOnce key)
          else normalize_entries raw_codes (dset key (default JNull (dget "value" entry)) out) l'
      end
  | _ :: l' => normalize_entries raw_codes out l'
  end.

Definition _normalize_options_raw (raw_codes : raw_spelling) (raw : json) : result option_error options :=
  match raw with
  | JObj kvs => Ok (dict_of (map (λ '(k, v), (canonical_key k, v)) kvs))
  | JArr l => normalize_entries raw_codes [] l
  | _ => Ok []
  end.

Definition normalize_options (raw_codes : raw_spelling) (raw : json) : result option_error options :=
  canonical_domain_options <$> _normalize_options_raw raw_codes raw.

(** ** Checking one option *)
Inductive family := Ipv4Family | Ipv6Family | DualFamily.

#[export] Instance family_eq_dec : EqDecision family.
Proof. solve_decision. Defined.

(** [_TABLES] *)
Definition table (v : version) : list (str * value_check) := match v with V4 => _V4_CHECKS | V6 => _V6_CHECKS end.

Definition families (f : family) : list version :=
  match f with Ipv4Family => [V4] | Ipv6Family => [V6] | DualFamily => [V4; V6] end.

Definition _refuse_raw_spelling (key : str) (raw_codes : raw_spelling) : result option_error unit :=
  if bool_decide (raw_codes = RAW_CODES_NONE) then Err (MixedGroup key)
  else if startswith "opt-" key && negb (bool_decide (raw_codes = RAW_CODES_WINDOWS)) then Err (WindowsSpelling key)
  else raise_if (startswith "code:" key && bool_decide (raw_codes = RAW_CODES_WINDOWS)) (KeaSpelling key).

Definition named (key : str) (r : result value_error unit) : result option_error unit :=
  match r with Ok u => Ok u | Err e => Err (BadValue key e) end.

(** The loop over the families that know the name: the first to accept the
    value decides; if none does, the first failure is raised. *)
Fixpoint first_accepts (first : option value_error) (checks : list value_check) (value : json) : result value_error unit :=
  match checks with
  | [] => from_option Err (Ok tt) first
  | c :: cs =>
      match run_check c value with
      | Ok _ => Ok tt
      | Err e => first_accepts (Some (default e first)) cs value
      end
  end.

Definition _check_one (key : str) (value : json) (address_family : family) (raw_codes : raw_spelling) : result option_error unit :=
  if bool_decide (key = "option_data") then Err RawKea
  else match _RAW_CODE key with
  | Some digits =>
      let code := int_digits digits in
      if bool_decide (address_family = Ipv6Family) then Err (RawCodeV4Only key)
      else
        _ ← _refuse_raw_spelling key raw_codes;
        match zget code _KEA_VENDOR_OPTION_DEFS with
        | None => Err (Undeliverable key code)
        | Some kind =>
            if _is_unset value then Err (NoValue key)
            else named key (run_check (_raw_code_check kind) value)
        end
  | None =>
      match _WINDOWS_CODE key with
      | Some digits =>
          if bool_decide (address_family = Ipv6Family) then Err (RawCodeV4Only key)
          else
            _ ← _refuse_raw_spelling key raw_codes;
            let code := int_digits digits in
            raise_if (negb ((1 <=? code)%Z && (code <=? 254)%Z)) (CodeRange key)
      | None =>
          match omap (λ v, dget key (table v)) (families address_family) with
          | [] =>
              Err (if bool_decide (address_family = Ipv6Family) && dmem key _V4_CHECKS
                   then NoV6Equivalent key else UnknownOption key)
          | checks => if _is_unset value then Ok tt else named key (first_accepts None checks value)
          end
      end
  end.

Definition _fits (key : str) (value : json) (f : family) : bool := is_ok (_check_one key value f RAW_CODES_KEA).

Definition other_family (v : version) : version := match v with V4 => V6 | V6 => V4 end.
Definition single (v : version) : family := match v with V4 => Ipv4Family | V6 => Ipv6Family end.

Definition options_for_family (opts : options) (f : version) : options :=
  List.filter (λ '(k, v), let key := canonical_key k in
    _fits key v (single f) || (bool_decide (f = V4) && negb (_fits key v (single (other_family f))))) opts.

(** [_client_class_def] of [services/dhcp/config_bundle.py]: what a class
    delivers in Dhcp4 and in Dhcp6. *)
Definition _client_class_def (address_family : option family) (opts : options) : options * options :=
  let opts := canonical_domain_options opts in
  match default Ipv4Family address_family with
  | DualFamily => (options_for_family opts V4, options_for_family opts V6)
  | Ipv6Family => ([], opts)
  | Ipv4Family => (opts, [])
  end.

(** ** Checking a mapping *)
Definition _changed_options (opts : options) (previous : option options) : options :=
  let prev := dict_of (map (λ '(k, v), (canonical_key k, v)) (default [] previous)) in
  List.filter (λ '(key, value), negb (match dget key prev with
                                      | Some old => py_eq float_is old value
                                      | None => false
                                      end)) opts.

Definition validate_options (address_family : family) (previous : option options) (raw_codes : raw_spelling)
    (opts : options) : result option_error unit :=
  check_all (λ '(key, value), _check_one key value address_family raw_codes) (_changed_options opts previous).

Definition raw_code_keys (opts : options) : list str := List.filter _is_code_key (map fst opts).

Definition drops (raw_codes : raw_spelling) (key : str) : bool :=
  match raw_codes with
  | RAW_CODES_NONE => true
  | RAW_CODES_KEA => startswith "opt-" key
  | RAW_CODES_WINDOWS => startswith "code:" key
  end.

Definition raw_keys_dropped_by (opts : options) (raw_codes : raw_spelling) : list str :=
  List.filter (drops raw_codes) (raw_code_keys opts).

Definition changes_raw_code (opts : options) (previous : option options) : bool :=
  existsb (λ '(key, _), _is_code_key key) (_changed_options opts previous).

(** [services/dhcp/option_spelling.py]: [raw_option_spelling] of the drivers of
    a group's members. *)
Definition spelling_for_drivers (spellings : list raw_spelling) : raw_spelling :=
  match remove_dups spellings with
  | [] => RAW_CODES_KEA
  | [s] => s
  | _ => RAW_CODES_NONE
  end.

(** ** Importing: raw codes in the spelling of the target group *)
Definition rekey_step (raw_codes : raw_spelling) (address_family : family) (acc : options * list str)
    (item : str * json) : options * list str :=
  let '(out, dropped) := acc in
  let '(key, value) := item in
  match code_match key with
  | None => (dset key value out, dropped)
  | Some digits =>
      let code := int_digits digits in
      if negb (bool_decide (address_family = Ipv4Family)) || bool_decide (raw_codes = RAW_CODES_NONE)
      then (out, dropped ++ [key])
      else if bool_decide (raw_codes = RAW_CODES_WINDOWS) then
        if (1 <=? code)%Z && (code <=? 254)%Z then (dset ("opt-" ++ str_of_Z code) value out, dropped)
        else (out, dropped ++ [key])
      else
        let target := "code:" ++ str_of_Z code in
        match _check_one target value address_family raw_codes with
        | Ok _ => (dset target value out, dropped)
        | Err _ => (out, dropped ++ [key])
        end
  end.

Definition rekey_raw_options (raw_codes : raw_spelling) (address_family : family) (opts : options) : options * list str :=
  foldl (rekey_step raw_codes address_family) ([], []) opts.

(** ** Phone profiles *)
Definition PHONE_PLACEHOLDER : str := "CHANGE-ME".

Definition phone_option_key (code : Z) : str := default ("code:" ++ str_of_Z code) (zget code CODE_TO_NAME).

(** The catalogue [data/dhcp_voip_options.json]. *)
Definition _voip_name_codes : list (str * Z) :=
  [("vendor-encapsulated-options" : str, 43); ("tftp-server-name", 66); ("avaya-call-server", 242);
   ("avaya-call-server-legacy", 176); ("tftp-server-address", 150); ("voice-vlan-id", 132);
   ("polycom-config-url", 160); ("yealink-prov-server", 161)]%Z.

Definition field (k : str) (row : options) : json := default JNull (dget k row).

Definition _row_code (row : options) : Z :=
  match field "code" row with
  | JNull => 0%Z
  | raw => default 0%Z (int_of raw)
  end.

Definition _label_code (name : json) : option Z :=
  if truthy name then
    match option_key_code (py_str name) with
    | Some c => Some c
    | None => dget (py_str name) _voip_name_codes
    end
  else None.

Definition _phone_row_key (row : options) : option str :=
  if negb (truthy (field "value" row)) then None
  else
    let code := _row_code row in
    if (code =? 0)%Z then None
    else
      let name := field "name" row in
      match _label_code name with
      | None => Some (phone_option_key code)
      | Some labelled =>
          if (labelled =? code)%Z then Some (phone_option_key code)
          else match option_key_code (py_str name) with
               | None => None
               | Some _ =>
                   let canon := canonical_key (py_str name) in
                   Some (if dmem canon _V4_CHECKS then canon else "code:" ++ str_of_Z labelled)
               end
      end.

Definition phone_item (row : json) : option (str * json) :=
  match row with
  | JObj kvs => key ← _phone_row_key kvs; Some (key, field "value" kvs)
  | _ => None
  end.

Definition phone_options_map (rows : list json) : options := dict_of (omap phone_item rows).

(** [str(v or "")] *)
Definition str_or_empty (v : json) : str := if truthy v then py_str v else [].

Definition _row_identity (row : json) : option (Z * str * str) :=
  match row with
  | JObj kvs => Some (_row_code kvs, str_or_empty (field "name" kvs), str_or_empty (field "value" kvs))
  | _ => None
  end.

Inductive phone_error :=
| NotACode (code : json)
| ListedTwice (code : Z)
| Mislabelled (code : Z)
| StillPlaceholder (code : Z)
| PhoneOption (e : option_error).

(** A label that names another option than the code. *)
Definition mislabelled (code : Z) (name : json) : bool :=
  from_option (λ labelled, negb (labelled =? code)%Z) false (_label_code name).

(** The loop over the rows.  [seen]: the codes
    so far, and whether that row is unchanged. *)
Fixpoint check_rows (stored : list (Z * str * str)) (live : bool) (seen : list (Z * bool)) (rows : list json)
    : result phone_error unit :=
  match rows with
  | [] => Ok tt
  | JObj row :: rows' =>
      if negb (truthy (field "value" row)) then check_rows stored live seen rows'
      else
        let code := _row_code row in
        if (code =? 0)%Z then Err (NotACode (field "code" row))
        else
          let unchanged := bool_decide (_row_identity (JObj row) ∈ map Some stored) in
          if from_option (λ u, negb (unchanged && u)) false (zget code seen) then Err (ListedTwice code)
          else
            let seen' := (code, unchanged) :: seen in
            if unchanged then check_rows stored live seen' rows'
            else if mislabelled code (field "name" row) then Err (Mislabelled code)
            else if live && bool_decide (strip is_space (py_str (field "value" row)) = PHONE_PLACEHOLDER)
            then Err (StillPlaceholder code)
            else check_rows stored live seen' rows'
  | _ :: rows' => check_rows stored live seen rows'
  end.

Definition validate_phone_options (rows : list json) (previous : option (list json)) (going_live enabled : bool)
    : result phone_error unit :=
  let before := if going_live then None else previous in
  _ ← check_rows (from_option (omap _row_identity) [] before) (going_live || enabled) [] rows;
  match validate_options Ipv4Family (phone_options_map <$> before) RAW_CODES_KEA (phone_options_map rows) with
  | Ok u => Ok u
  | Err e => Err (PhoneOption e)
  end.

Definition phone_options_loadable (rows : list json) : options * list str :=
  let m := phone_options_map rows in
  let fits := λ '(k, v), _fits k v Ipv4Family in
  (List.filter fits m, map fst (List.filter (λ kv, negb (fits kv)) m)).

(** ** Option 60 in a class test *)
Definition vendor_class_match_renderable (value : option str) : bool :=
  match value with
  | None => true
  | Some s => negb (contains SQ s) && negb (contains_control_chars s)
  end.

Definition hex_upper (b : ascii) : str := upper [hex_digit (ord b / 16); hex_digit (ord b mod 16)].

Definition vendor_class_match_test (value : str) : str :=
  let raw := encode value in
  let n := str_of_Z (Z.of_nat (length raw)) in
  if isascii value then "substring(option[60].hex,0," ++ n ++ ")==" ++ [SQ] ++ value ++ [SQ]
  else "substring(option[60].hex,0," ++ n ++ ")==0x" ++ mjoin (map hex_upper raw).

(** ** Tokens of a class test that only one daemon parses *)

(** [\w] on one Latin-1 character. *)
Definition word_char (c : ascii) : bool :=
  is_digit c || is_lower_az c || is_upper_az c || chr_is "_" c
  || existsb (λ n, ord c =? n) [170; 178; 179; 181; 185; 186; 188; 189; 190]
  || (between 192 255 c && negb (ord c =? 215) && negb (ord c =? 247)).

(** [_KEA_STRING.sub]: every literal between two quotes is emptied; a quote
    that is not closed stays. *)
Fixpoint blank_literals (fuel : nat) (s : str) : str :=
  match fuel, s with
  | S fuel', c :: s' =>
      if chr_is SQ c then
        match split SQ s' with
        | _ :: ((_ :: _) as rest) => SQ :: SQ :: blank_literals fuel' (join [SQ] rest)
        | _ => s
        end
      else c :: blank_literals fuel' s'
  | _, _ => []
  end.

(** [\b(a|b)\b], the first match; [before]: is a word character before [s]? *)
Fixpoint search_token (tokens : list str) (before : bool) (s : str) : option str :=
  match s with
  | [] => None
  | c :: s' =>
      match List.find (λ t, startswith t s && negb before &&
                            negb (from_option word_char false (head (drop (length t) s)))) tokens with
      | Some t => Some t
      | None => search_token tokens (word_char c) s'
      end
  end.

Definition _FAMILY_TOKENS (v : version) : list str :=
  match v with V4 => ["pkt4"; "relay4"] | V6 => ["pkt6"; "relay6"] end.

(** The first family whose daemon cannot parse the test, and the token. *)
Definition validate_class_test (expression : str) (address_family : family) : option (version * str) :=
  let text := blank_literals (S (length expression)) expression in
  head (omap (λ v, token ← search_token (_FAMILY_TOKENS (other_family v)) false text; Some (v, token))
             (families address_family)).
End options.

(** ** Comma-separated texts *)
Definition plain (c : ascii) : bool := negb (is_space c) && negb (chr_is "," c).

Lemma plain_strip s : forallb plain s = true → strip is_space s = s.
Proof. intros H. apply strip_none. by apply (forallb_impl plain), H; intros c Hc; unfold plain in Hc; bool_hyps; apply negb_true_iff. Qed.

Lemma plain_no_comma s : forallb plain s = true → contains "," s = false.
Proof.
  intros H. apply existsb_none. intros c Hc. apply (forallb_elem _ _ _ H) in Hc. unfold plain in Hc. by bool_hyps.
Qed.

Lemma label_plain s : forallb ldh_ s = true → forallb plain s = true.
Proof. apply forallb_impl, ascii_subclass. vm_compute. reflexivity. Qed.

Lemma comma_parts_no_comma s : contains "," s = false →
  comma_parts s = if bool_decide (strip is_space s = []) then [] else [strip is_space s].
Proof.
  intros H. unfold comma_parts. rewrite (split_no_sep ",") by done. simpl. by case_bool_decide.
Qed.

Lemma comma_parts_app w s : contains "," w = false → comma_parts (w ++ ","%char :: s) = comma_parts w ++ comma_parts s.
Proof.
  intros H. unfold comma_parts. rewrite (split_app "," w s), (split_no_sep "," w) by done. simpl. by case_bool_decide.
Qed.

Lemma comma_parts_blank s : comma_parts (" "%char :: s) = comma_parts s.
Proof.
  unfold comma_parts. simpl. pose proof (split_nonempty "," s) as Hs.
  by destruct (split "," s) as [|w ws].
Qed.

Lemma comma_parts_join ws : Forall (λ w, forallb plain w = true ∧ w ≠ []) ws → comma_parts (join ", " ws) = ws.
Proof.
  assert (Hone : ∀ w, forallb plain w = true → w ≠ [] → comma_parts w = [w]).
  { intros w Hw Hn. rewrite comma_parts_no_comma, plain_strip by (done || by apply plain_no_comma).
    by rewrite bool_decide_false. }
  induction 1 as [|w ws [Hw Hn] Hws IH]; [done|]. destruct ws as [|w' ws]; [by apply Hone|].
  change (join ", " (w :: w' :: ws)) with (w ++ ","%char :: " "%char :: join ", " (w' :: ws)).
  by rewrite comma_parts_app, comma_parts_blank, IH, Hone by (done || by apply plain_no_comma).
Qed.

Lemma comma_parts_elem s p : p ∈ comma_parts s → strip is_space p = p ∧ p ≠ [] ∧ contains "," p = false.
Proof.
  unfold comma_parts. rewrite elem_filter. intros [(w & -> & Hw)%list_elem_of_fmap Hn]. bool_hyps.
  split_and!; [apply strip_idem|done|]. apply existsb_none. intros c Hc.
  pose proof (split_labels_no_sep "," s) as Hs. rewrite Forall_forall in Hs. specialize (Hs w Hw).
  unfold contains in Hs. rewrite existsb_none in Hs. apply Hs. pose proof (strip_forallb is_space (λ c, bool_decide (c ∈ w)) w) as Hf.
  rewrite !forallb_elem_iff in Hf. specialize (Hf (λ c Hc, proj2 (bool_decide_eq_true _) Hc) c Hc). by apply bool_decide_eq_true in Hf.
Qed.

(** ** Raw-code keys *)
Lemma startswith_prefix p s : startswith p (p ++ s) = true.
Proof. unfold startswith. apply bool_decide_eq_true. by rewrite take_app_length. Qed.

Lemma after_prefix_Some p key d : after_prefix p key = Some d ↔ key = p ++ d ∧ d ≠ [] ∧ forallb is_digit d = true.
Proof.
  unfold after_prefix. split.
  - destruct (_ && _) eqn:E; [|done]. intros [= <-]. bool_hyps. split_and!; [|done..].
    unfold startswith in H. apply bool_decide_eq_true in H. rewrite <- H at 1. by rewrite take_drop.
  - intros (-> & Hd & Hf). rewrite startswith_prefix, drop_app_length, bool_decide_false, Hf by done. done.
Qed.

Lemma code_match_raw key d : _RAW_CODE key = Some d → startswith "code:" key = true ∧ startswith "opt-" key = false ∧
  _WINDOWS_CODE key = None ∧ code_match key = Some d.
Proof.
  intros Hr. unfold code_match. rewrite Hr. apply after_prefix_Some in Hr as (-> & Hd & Hf).
  split_and!; [by apply startswith_prefix|done|done|done].
Qed.

Lemma code_match_windows key d : _WINDOWS_CODE key = Some d → startswith "code:" key = false ∧ startswith "opt-" key = true ∧
  _RAW_CODE key = None ∧ code_match key = Some d.
Proof.
  intros Hr. unfold code_match. assert (_RAW_CODE key = None) as Hn.
  { apply after_prefix_Some in Hr as (-> & _). done. }
  rewrite Hn, Hr. apply after_prefix_Some in Hr as (-> & Hd & Hf).
  split_and!; [done|by apply startswith_prefix|done|done].
Qed.

Lemma is_code_key_true key : _is_code_key key = true ↔ ∃ d, code_match key = Some d.
Proof. unfold _is_code_key. apply bool_decide_eq_true. Qed.

(** ** Lists *)
Lemma check_all_Ok {E A} (f : A → result E unit) l : check_all f l = Ok tt ↔ ∀ x, x ∈ l → f x = Ok tt.
Proof.
  induction l as [|x l IH]; simpl; [split; [by intros _ ? ?%elem_of_nil|done]|].
  setoid_rewrite elem_of_cons. rewrite bind_Ok. split.
  - intros ([] & Hx & Hl) y [->|Hy]; [done|]. by apply IH.
  - intros H. exists tt. split; [by apply H; left|]. apply IH. auto.
Qed.

Lemma check_all_unit {E A} (f : A → result E unit) l u : check_all f l = Ok u ↔ check_all f l = Ok tt.
Proof. by destruct u. Qed.

Section facts.
Context `{PyFloat}.
Context (idna_encode : str → option str).
Abbreviation check := (_check_one idna_encode).

(** ** From a list of entries to a mapping *)

(** What one entry stores. *)
Definition entry_item (raw_codes : raw_spelling) (v : json) : option (str * json) :=
  match v with
  | JObj entry => key ← entry_key raw_codes entry; Some (key, default JNull (dget "value" entry))
  | _ => None
  end.

Lemma normalize_entries_skip rc out x l : entry_item rc x = None →
  normalize_entries rc out (x :: l) = normalize_entries rc out l.
Proof. destruct x as [| | | | | |kvs|]; simpl; try done. by destruct (entry_key rc kvs). Qed.

Lemma normalize_entries_item rc out x l k v : entry_item rc x = Some (k, v) →
  normalize_entries rc out (x :: l)
  = if dmem k out then Err (MoreThanOnce k) else normalize_entries rc (dset k v out) l.
Proof.
  destruct x as [| | | | | |kvs|]; simpl; try done. by destruct (entry_key rc kvs); intros [= <- <-].
Qed.

Lemma normalize_entries_spec rc out l : NoDup (map fst out) →
  match normalize_entries rc out l with
  | Ok r => NoDup (map fst (out ++ omap (entry_item rc) l)) ∧ r = out ++ omap (entry_item rc) l
  | Err e => ∃ l1 x l2 k v, l = l1 ++ x :: l2 ∧ entry_item rc x = Some (k, v) ∧ e = MoreThanOnce k ∧
      k ∈ map fst (out ++ omap (entry_item rc) l1)
  end.
Proof.
  revert out. induction l as [|x l IH]; intros out Hd; [simpl; by rewrite app_nil_r|].
  destruct (entry_item rc x) as [[k v]|] eqn:E.
  - rewrite (normalize_entries_item rc _ _ _ k v) by done. simpl. rewrite E.
    destruct (dmem k out) eqn:Em.
    + exists [], x, l, k, v. simpl. rewrite app_nil_r. split_and!; try done. by apply bool_decide_eq_true in Em.
    + apply bool_decide_eq_false in Em. specialize (IH (dset k v out) (dset_NoDup _ _ _ Hd)).
      rewrite (dset_fresh k v out) in IH |- * by done.
      destruct (normalize_entries _ _ l) as [r|e]; [by rewrite <- app_assoc in IH|].
      destruct IH as (l1 & y & l2 & k' & v' & -> & Hy & -> & Hin). exists (x :: l1), y, l2, k', v'.
      split_and!; try done. simpl. rewrite E. by rewrite <- app_assoc in Hin.
  - rewrite normalize_entries_skip by done. specialize (IH out Hd). simpl. rewrite E.
    destruct (normalize_entries _ _ l) as [r|e]; [done|].
    destruct IH as (l1 & y & l2 & k' & v' & -> & Hy & -> & Hin). exists (x :: l1), y, l2, k', v'.
    split_and!; try done. simpl. by rewrite E.
Qed.

(** ** The domain options *)
Abbreviation fqdn := (fqdn idna_encode).

Lemma fqdn_Ok s r : fqdn s = Ok r → fqdn r = Ok r ∧ r ≠ [] ∧ forallb plain r = true.
Proof.
  intros (labels & Hd & -> & Hlen)%validate_fqdn_Ok.
  assert (Hc : ∀ l, dns_nf l = true → forallb ldh_ l = true) by (intros l Hl; apply (dns_nf_facts l Hl)).
  assert (Hne : ∀ l, dns_nf l = true → l ≠ []) by (intros l Hl; apply (dns_nf_facts l Hl)).
  split_and!.
  - unfold DhcpOptions.fqdn, validate_fqdn.
    rewrite (dotted_strip dns_nf ldh_) by auto using ldh__plain.
    rewrite (dotted_strip_root dns_nf ldh_) by auto using ldh__plain. cbn [fst].
    rewrite !(bool_decide_false (join "." labels = [])) by (apply (dotted_ne dns_nf); auto).
    rewrite (dotted_split dns_nf ldh_) by auto using ldh__plain.
    rewrite map_result_id; [|destruct Hd as [_ Hd]; eapply Forall_impl; [exact Hd|]; intros l; apply validate_dns_label_nf].
    simpl. apply Nat.ltb_ge in Hlen. by rewrite Hlen.
  - apply (dotted_ne dns_nf); auto.
  - apply join_forallb; [done|]. destruct Hd as [_ Hd]. eapply Forall_impl; [exact Hd|]. intros l Hl. by apply label_plain, Hc.
Qed.

Lemma fqdn_strip s : fqdn (strip is_space s) = fqdn s.
Proof. unfold DhcpOptions.fqdn, validate_fqdn. by rewrite strip_idem. Qed.

Lemma canonical_str_Some s c : _canonical_str idna_encode s = Some c ↔
  ∃ out, map_result fqdn (comma_parts s) = Ok out ∧ out ≠ [] ∧ c = join ", " out.
Proof.
  unfold _canonical_str. destruct (map_result _ _) as [[|w ws]|e].
  - split; [done|]. by intros (? & [= <-] & ? & _).
  - split; [intros [= <-]; by exists (w :: ws)|]. by intros (? & [= <-] & _ & ->).
  - split; [done|]. by intros (? & ? & _).
Qed.

Lemma canonical_str_idem s c : _canonical_str idna_encode s = Some c → _canonical_str idna_encode c = Some c.
Proof.
  rewrite !canonical_str_Some. intros (out & Hout & Hne & ->). exists out. split_and!; [|done..].
  apply map_result_Ok in Hout.
  assert (Forall (λ r, fqdn r = Ok r ∧ r ≠ [] ∧ forallb plain r = true) out) as Hr.
  { clear Hne. induction Hout as [|? ? ? ? ?%fqdn_Ok]; by constructor. }
  rewrite comma_parts_join; [|eapply Forall_impl; [exact Hr|]; by intros r (? & ? & ?)].
  apply map_result_id. eapply Forall_impl; [exact Hr|]. by intros r (? & _).
Qed.

Lemma canonical_fqdn_idem v : _canonical_fqdn idna_encode (_canonical_fqdn idna_encode v) = _canonical_fqdn idna_encode v.
Proof.
  destruct v as [| | | |s|l| |]; try done; simpl.
  - destruct (_canonical_str idna_encode s) as [c|] eqn:E; simpl; [|by rewrite E].
    by rewrite (canonical_str_idem _ _ E).
  - set (one := λ item, match item with JStr s => _canonical_str idna_encode s | _ => None end).
    destruct (mapM one l) as [out|] eqn:E; simpl; [|by fold one; rewrite E].
    assert (mapM one (map JStr out) = Some out) as Hm; [|by fold one; rewrite Hm].
    apply mapM_Some in E. apply mapM_Some. induction E as [|x c l out Hx]; simpl; constructor; [|done].
    destruct x; try done. by apply canonical_str_idem in Hx.
Qed.

Abbreviation rewrite_option := (rewrite_option idna_encode).
Abbreviation canonical := (canonical_domain_options idna_encode).

Definition canonical_item (item : str * json) : str * json :=
  (fst item, match dget (fst item) _FQDN_OPTION_RULES with
             | Some rule => rewrite_option rule (snd item)
             | None => snd item
             end).

Definition rewrite_at (key : str) (rule : value_check) (item : str * json) : str * json :=
  (fst item, if bool_decide (fst item = key) then rewrite_option rule (snd item) else snd item).

Lemma rewrite_at_keys key rule d : map fst (map (rewrite_at key rule) d) = map fst d.
Proof. rewrite map_map. by apply map_ext. Qed.

Lemma rewrite_at_step key rule d : NoDup (map fst d) →
  match dget key d with Some v => dset key (rewrite_option rule v) d | None => d end = map (rewrite_at key rule) d.
Proof.
  induction d as [|[k w] d IH]; [done|]. simpl. intros [Hk Hd]%NoDup_cons.
  unfold rewrite_at at 1. simpl. rewrite (bool_decide_ext (k = key) (key = k)) by done.
  case_bool_decide as E.
  - subst k. f_equal. symmetry. rewrite <- (map_id d) at 2. apply map_ext_in. intros [k v] Hin%list_elem_of_In.
    unfold rewrite_at. simpl. rewrite bool_decide_false; [done|]. intros ->. destruct Hk.
    by apply list_elem_of_fmap_2' with (x := (key, v)).
  - rewrite <- IH by done. by destruct (dget key d).
Qed.

Lemma canonical_map d : NoDup (map fst d) → canonical d = map canonical_item d.
Proof.
  intros Hd. unfold canonical_domain_options, _FQDN_OPTION_RULES. cbn [foldl].
  rewrite (rewrite_at_step "domain-name") by done.
  rewrite (rewrite_at_step "domain-search") by (by rewrite rewrite_at_keys).
  rewrite (rewrite_at_step "opt-15") by (by rewrite !rewrite_at_keys).
  rewrite (rewrite_at_step "opt-119") by (by rewrite !rewrite_at_keys).
  rewrite !map_map. apply map_ext. intros [k v].
  unfold rewrite_at, canonical_item, _FQDN_OPTION_RULES. simpl. repeat case_bool_decide; by subst.
Qed.

Lemma canonical_keys d : NoDup (map fst d) → map fst (canonical d) = map fst d.
Proof. intros Hd. rewrite canonical_map, map_map by done. by apply map_ext. Qed.

(** A rewritten value is canonical and passes the check it is gated by. *)
Lemma rewrite_option_spec rule v : rewrite_option rule v = v ∨
  (rewrite_option rule v = _canonical_fqdn idna_encode v ∧ run_check idna_encode rule (_canonical_fqdn idna_encode v) = Ok tt).
Proof.
  unfold DhcpOptions.rewrite_option. destruct (_is_unset v); [by left|]. destruct (py_eq _ _ _); [by left|].
  destruct (run_check _ _ _) as [[]|] eqn:E; [by right|by left].
Qed.

Lemma rewrite_option_idem rule v : rewrite_option rule (rewrite_option rule v) = rewrite_option rule v.
Proof.
  destruct (rewrite_option_spec rule v) as [E|[E _]]; [by rewrite !E|]. rewrite E.
  destruct (rewrite_option_spec rule (_canonical_fqdn idna_encode v)) as [E'|[E' _]]; [done|].
  by rewrite E', canonical_fqdn_idem.
Qed.

Lemma rewrite_option_check rule v : run_check idna_encode rule v = Ok tt → run_check idna_encode rule (rewrite_option rule v) = Ok tt.
Proof. by destruct (rewrite_option_spec rule v) as [-> | [-> ?]]. Qed.

Lemma py_eq_str s v : py_eq float_is (JStr s) v = true → v = JStr s.
Proof. destruct v; simpl; try done. by intros ->%bool_decide_eq_true. Qed.

Lemma py_eq_strs out l : py_eq float_is (JArr (map JStr out)) (JArr l) = true → l = map JStr out.
Proof.
  simpl. revert l. induction out as [|s out IH]; intros [|x l]; simpl; try done.
  intros [Hx Hl]%andb_true_iff. rewrite (IH l Hl). by rewrite (py_eq_str s x Hx).
Qed.

Lemma py_eq_canonical v : py_eq float_is (_canonical_fqdn idna_encode v) v = true → _canonical_fqdn idna_encode v = v.
Proof.
  destruct v as [| | | |s|l| |]; try done; simpl.
  - destruct (_canonical_str idna_encode s); simpl; [|done]. intros Hs. by apply (py_eq_str _ (JStr s)) in Hs as [= ->].
  - destruct (mapM _ l) as [out|]; [|done]. by intros ->%py_eq_strs.
Qed.

(** The domains a value lists, and a value whose domains are all in DNS form. *)
Definition domain_texts (v : json) : list str :=
  match v with
  | JStr s => comma_parts s
  | JArr l => mjoin (map (λ x, match x with JStr s => comma_parts s | _ => [] end) l)
  | _ => []
  end.

Definition in_dns_form (v : json) : Prop := domain_texts v ≠ [] ∧ ∀ p, p ∈ domain_texts v → fqdn p = Ok p.

Lemma check_fqdn_Ok s : check_fqdn idna_encode s = Ok tt ↔ ∃ r, fqdn s = Ok r.
Proof. unfold check_fqdn. fold (fqdn s). destruct (fqdn s) as [r|]; [by split; [exists r|]|]. by split; [|intros (r & ?)]. Qed.

Lemma fqdn_parts s r : fqdn s = Ok r → comma_parts r = [r].
Proof.
  intros (_ & Hn & Hp)%fqdn_Ok. rewrite comma_parts_no_comma, plain_strip by (done || by apply plain_no_comma).
  by rewrite bool_decide_false.
Qed.

Lemma scalar_Ok v x : _scalar v = Ok x → v = x ∨ v = JArr [x].
Proof. destruct v as [| | | | |[|y [|]]| |]; simpl; try done; intros [= <-]; auto. Qed.

Lemma fqdn_blank s r : fqdn s = Ok r → bool_decide (strip is_space s = []) = false.
Proof. unfold DhcpOptions.fqdn, validate_fqdn. by case_bool_decide. Qed.

Lemma check_Fqdn_Ok v : run_check idna_encode Fqdn v = Ok tt ↔ ∃ s r, _scalar v = Ok (JStr s) ∧ fqdn s = Ok r.
Proof.
  simpl. unfold _fqdn. rewrite bind_Ok. split.
  - intros (x & Hx & Hs). destruct x as [| | | |s| | |]; try done. case_bool_decide; [done|].
    apply check_fqdn_Ok in Hs as (r & Hr). by exists s, r.
  - intros (s & r & Hs & Hr). exists (JStr s). split; [done|]. rewrite (fqdn_blank s r Hr).
    apply check_fqdn_Ok. by exists r.
Qed.

Lemma check_domain_Ok x : check_domain idna_encode x = Ok tt ↔ ∃ s r, x = JStr s ∧ fqdn s = Ok r.
Proof.
  split.
  - destruct x as [| | | |s| | |]; try done. simpl. case_bool_decide; [done|]. intros (r & Hr)%check_fqdn_Ok. by exists s, r.
  - intros (s & r & -> & Hr). simpl. rewrite (fqdn_blank s r Hr). apply check_fqdn_Ok. by exists r.
Qed.

Lemma check_FqdnList_Ok v : run_check idna_encode FqdnList v = Ok tt ↔
  _items v ≠ [] ∧ ∀ x, x ∈ _items v → ∃ s r, x = JStr s ∧ fqdn s = Ok r.
Proof.
  simpl. unfold _fqdn_list. destruct (_items v) as [|x l]; [by split; [|intros [? _]]|].
  rewrite bool_decide_false by done. rewrite check_all_Ok. setoid_rewrite check_domain_Ok. split; [done|]. by intros [_ ?].
Qed.

(** ** What [_check_one] accepts *)
Lemma first_accepts_Ok first cs v : first_accepts idna_encode first cs v = Ok tt ↔
  (cs = [] ∧ first = None) ∨ ∃ c, c ∈ cs ∧ run_check idna_encode c v = Ok tt.
Proof.
  revert first. induction cs as [|c cs IH]; intros first; simpl.
  - split; [destruct first; [done|by left]|]. by intros [[_ ->]|(c & ?%elem_of_nil & _)].
  - destruct (run_check _ c v) as [[]|e] eqn:E.
    + split; [|done]. intros _. right. exists c. split; [by left|done].
    + rewrite IH. split.
      * intros [[_ ?]|(c' & Hc & Hv)]; [done|]. right. exists c'. split; [by right|done].
      * intros [[? _]|(c' & Hc & Hv)]; [done|]. apply elem_of_cons in Hc as [->|Hc]; [congruence|]. right. by exists c'.
Qed.

Lemma named_Ok key r : named key r = Ok tt ↔ r = Ok tt.
Proof. by destruct r as [[]|e]. Qed.

(** The reason an option is accepted: a raw code of Kea's, one of Windows', or
    a name of a table. *)
Variant accepted (f : family) (rc : raw_spelling) (k : str) (v : json) : Prop :=
| AcceptedRaw d kind : _RAW_CODE k = Some d → f ≠ Ipv6Family → rc = RAW_CODES_KEA →
    zget (int_digits d) _KEA_VENDOR_OPTION_DEFS = Some kind → _is_unset v = false →
    run_check idna_encode (_raw_code_check kind) v = Ok tt → accepted f rc k v
| AcceptedWindows d : _WINDOWS_CODE k = Some d → f ≠ Ipv6Family → rc = RAW_CODES_WINDOWS →
    (1 <= int_digits d <= 254)%Z → accepted f rc k v
| AcceptedNamed fam c : fam ∈ families f → dget k (table fam) = Some c →
    (_is_unset v = true ∨ run_check idna_encode c v = Ok tt) → accepted f rc k v.

Lemma refuse_raw_spelling_Ok key rc : _refuse_raw_spelling key rc = Ok tt ↔
  rc ≠ RAW_CODES_NONE ∧ (startswith "opt-" key = true → rc = RAW_CODES_WINDOWS) ∧
  (startswith "code:" key = true → rc ≠ RAW_CODES_WINDOWS).
Proof.
  unfold _refuse_raw_spelling. destruct rc; simpl; destruct (startswith "opt-" key), (startswith "code:" key); simpl; intuition congruence.
Qed.

(** A name of a table is neither a raw code nor the passthrough. *)
Lemma table_name fam k c : dget k (table fam) = Some c →
  k ≠ "option_data" ∧ _RAW_CODE k = None ∧ _WINDOWS_CODE k = None ∧ canonical_key k = k.
Proof.
  intros Hc. assert (k ∈ map fst (table fam)) as Hk.
  { apply list_elem_of_fmap_2' with (x := (k, c)); [by apply dget_elem|done]. }
  clear Hc.
  destruct fam; simpl in Hk; repeat (apply elem_of_cons in Hk as [->|Hk]; [by vm_compute|]); by apply elem_of_nil in Hk.
Qed.

Lemma check_raw_Ok f rc k v d : _RAW_CODE k = Some d → check k v f rc = Ok tt ↔
  f ≠ Ipv6Family ∧ rc = RAW_CODES_KEA ∧ _is_unset v = false ∧
  ∃ kind, zget (int_digits d) _KEA_VENDOR_OPTION_DEFS = Some kind ∧ run_check idna_encode (_raw_code_check kind) v = Ok tt.
Proof.
  intros Er. destruct (code_match_raw k d Er) as (Hc & Ho & Hw & _).
  unfold _check_one. rewrite Er, bool_decide_false by (by intros ->).
  case_bool_decide; [by split; [|intros [? _]]|]. rewrite bind_Ok. split.
  - intros ([] & Hs%refuse_raw_spelling_Ok & Hv). destruct (zget _ _) as [kind|]; [|done].
    destruct (_is_unset v) eqn:Eu; [done|]. apply named_Ok in Hv.
    split_and!; try done; [|by exists kind]. destruct Hs as (? & _ & Hs). specialize (Hs Hc). by destruct rc.
  - intros (_ & -> & Hu & kind & Hk & Hv). exists tt. rewrite Hk, Hu, named_Ok. split; [|done].
    apply refuse_raw_spelling_Ok. by rewrite Ho.
Qed.

Lemma check_windows_Ok f rc k v d : _WINDOWS_CODE k = Some d → check k v f rc = Ok tt ↔
  f ≠ Ipv6Family ∧ rc = RAW_CODES_WINDOWS ∧ (1 <= int_digits d <= 254)%Z.
Proof.
  intros Ew. destruct (code_match_windows k d Ew) as (Hc & Ho & Hr & _).
  unfold _check_one. rewrite Hr, Ew, bool_decide_false by (by intros ->).
  case_bool_decide; [by split; [|intros [? _]]|]. rewrite bind_Ok. split.
  - intros ([] & Hs%refuse_raw_spelling_Ok & Hv). apply raise_if_Ok in Hv. bool_hyps.
    destruct Hs as (_ & Hs & _). split_and!; [done|by apply Hs|lia..].
  - intros (_ & -> & Hv). exists tt. rewrite refuse_raw_spelling_Ok, raise_if_Ok, Hc. split; [done|].
    apply negb_false_iff, andb_true_iff. lia.
Qed.

Lemma check_named_Ok f rc k v : k ≠ "option_data" → _RAW_CODE k = None → _WINDOWS_CODE k = None →
  check k v f rc = Ok tt ↔
  ∃ fam c, fam ∈ families f ∧ dget k (table fam) = Some c ∧ (_is_unset v = true ∨ run_check idna_encode c v = Ok tt).
Proof.
  intros Hk Er Ew. unfold _check_one. rewrite Er, Ew, bool_decide_false by done.
  assert (∀ c, c ∈ omap (λ v, dget k (table v)) (families f) ↔ ∃ fam, fam ∈ families f ∧ dget k (table fam) = Some c) as Hin
    by (intros c; apply list_elem_of_omap).
  destruct (omap _ (families f)) as [|c0 cs].
  { split; [done|]. intros (fam & c & Hf & Hc & _). assert (c ∈ ([] : list value_check)) as Hn by (apply Hin; eauto). by apply elem_of_nil in Hn. }
  destruct (_is_unset v) eqn:Eu.
  - split; [|done]. intros _. destruct (proj1 (Hin c0)) as (fam & Hf & Hc); [by left|]. exists fam, c0. auto.
  - rewrite named_Ok, first_accepts_Ok. split.
    + intros [[? _]|(c & Hc & Hv)]; [done|]. apply Hin in Hc as (fam & Hf & Hc). exists fam, c. auto.
    + intros (fam & c & Hf & Hc & [?|Hv]); [done|]. right. exists c. rewrite Hin. eauto.
Qed.

Lemma check_one_Ok f rc k v : check k v f rc = Ok tt ↔ accepted f rc k v.
Proof.
  split.
  - intros Hk. destruct (decide (k = "option_data")) as [->|Hn]; [done|].
    destruct (_RAW_CODE k) as [d|] eqn:Er.
    { apply (check_raw_Ok _ _ _ _ d Er) in Hk as (? & ? & ? & kind & ? & ?). by eapply AcceptedRaw. }
    destruct (_WINDOWS_CODE k) as [d|] eqn:Ew.
    { apply (check_windows_Ok _ _ _ _ d Ew) in Hk as (? & ? & ?). by eapply AcceptedWindows. }
    apply check_named_Ok in Hk as (fam & c & ? & ? & ?); [|done..]. by eapply AcceptedNamed.
  - intros [d kind|d|fam c Hf Hc Hv].
    + apply (check_raw_Ok _ _ _ _ d); [done|]. split_and!; [done..|]. by exists kind.
    + by apply (check_windows_Ok _ _ _ _ d).
    + destruct (table_name _ _ _ Hc) as (? & ? & ? & _). apply check_named_Ok; [done..|]. by exists fam, c.
Qed.

Lemma accepted_canonical f rc k v : accepted f rc k v → canonical_key k = k.
Proof.
  intros [d kind (-> & _)%after_prefix_Some|d (-> & _)%after_prefix_Some|fam c _ Hc]; [done..|]. by eapply table_name.
Qed.

Lemma changed_options_None opts : _changed_options opts None = opts.
Proof. unfold _changed_options. apply filter_all, forallb_elem_iff. by intros [k v]. Qed.

Lemma validate_None f rc opts u : validate_options idna_encode f None rc opts = Ok u ↔ ∀ k v, (k, v) ∈ opts → accepted f rc k v.
Proof.
  destruct u. unfold validate_options. rewrite changed_options_None, check_all_Ok. split.
  - intros Hv k v Hin. apply check_one_Ok, (Hv (k, v) Hin).
  - intros Hv [k v] Hin. by apply check_one_Ok, Hv.
Qed.

Lemma fits_true k v f : _fits idna_encode k v f = true ↔ accepted f RAW_CODES_KEA k v.
Proof. unfold _fits. rewrite <- check_one_Ok. by destruct (check k v f _) as [[]|]. Qed.

(** An option a dual class may set is valid in one of the daemons. *)
Lemma accepted_dual rc k v : accepted DualFamily rc k v ↔ ∃ fam, accepted (single fam) rc k v.
Proof.
  split.
  - intros [d kind|d|fam c Hf Hc Hv]; [exists V4; by eapply AcceptedRaw|exists V4; by eapply AcceptedWindows|].
    exists fam. eapply AcceptedNamed; [|done..]. destruct fam; constructor.
  - intros [fam [d kind|d|fam' c Hf Hc Hv]]; [by eapply AcceptedRaw|by eapply AcceptedWindows|].
    eapply AcceptedNamed; [|done..]. destruct fam'; repeat constructor.
Qed.

(** ** Importing *)

(** What an option becomes in a group of the other spelling, if it fits. *)
Definition rekeyed (rc : raw_spelling) (item : str * json) : option (str * json) :=
  match code_match (fst item) with
  | None => Some item
  | Some d =>
      let target := raw_key rc (int_digits d) in
      if is_ok (check target (snd item) Ipv4Family rc) then Some (target, snd item) else None
  end.

Lemma raw_key_code rc c : (0 <= c)%Z → code_match (raw_key rc c) = Some (str_of_Z c) ∧ int_digits (str_of_Z c) = c.
Proof.
  intros Hc. destruct (str_of_Z_digits c Hc) as [Hd Hn]. split; [|unfold int_digits; by rewrite int_str_of_Z].
  destruct rc.
  - by apply code_match_raw, after_prefix_Some.
  - by apply code_match_windows, after_prefix_Some.
  - by apply code_match_raw, after_prefix_Some.
Qed.

Lemma digits_int_nonneg acc b s z : (0 <= acc)%Z → digits_int acc b s = Some z → (0 <= z)%Z.
Proof.
  revert acc b. induction s as [|c s IH]; intros acc b Ha; simpl.
  - destruct b; [by intros [= <-]|done].
  - destruct (is_digit c); [apply IH; lia|]. destruct (_ && _); [by apply IH|done].
Qed.

Lemma code_nonneg k d : code_match k = Some d → (0 <= int_digits d)%Z.
Proof.
  intros Hk. assert (d ≠ [] ∧ forallb is_digit d = true) as [Hn Hd].
  { unfold code_match in Hk. destruct (_RAW_CODE k) as [d'|] eqn:E.
    - injection Hk as ->. by apply after_prefix_Some in E as (_ & ? & ?).
    - by apply after_prefix_Some in Hk as (_ & ? & ?). }
  unfold int_digits. destruct (int_of_str d) as [z|] eqn:E; [|done]. simpl. unfold int_of_str in E.
  rewrite strip_none in E by (apply (forallb_impl is_digit), Hd; apply ascii_subclass; vm_compute; reflexivity).
  destruct d as [|c d]; [done|]. simpl in Hd. bool_hyps.
  assert (chr_is "-" c = false ∧ chr_is "+" c = false) as [E1 E2] by (split; apply not_true_iff_false; by intros ->%chr_is_true).
  rewrite E1, E2 in E. by eapply digits_int_nonneg; [|exact E].
Qed.

(** One turn of the loop keeps the option under its target, or drops it. *)
Lemma rekey_step_spec rc out dropped k v :
  rekey_step idna_encode rc Ipv4Family (out, dropped) (k, v) =
  match rekeyed rc (k, v) with
  | Some (k', v') => (dset k' v' out, dropped)
  | None => (out, dropped ++ [k])
  end.
Proof.
  unfold rekey_step, rekeyed. cbn [fst snd]. destruct (code_match k) as [d|] eqn:E; [|done].
  pose proof (code_nonneg k d E) as Hd. destruct (str_of_Z_digits _ Hd) as [Hdig Hne].
  rewrite bool_decide_true by done. cbn [negb orb]. destruct rc; cbn [raw_key].
  - rewrite !bool_decide_false by done. by destruct (check _ _ _ _) as [[]|].
  - rewrite bool_decide_false, bool_decide_true by done.
    assert (_WINDOWS_CODE ("opt-" ++ str_of_Z (int_digits d)) = Some (str_of_Z (int_digits d))) as Hw by (by apply after_prefix_Some).
    pose proof (check_windows_Ok Ipv4Family RAW_CODES_WINDOWS _ v _ Hw) as Hc. rewrite (proj2 (raw_key_code RAW_CODES_WINDOWS _ Hd)) in Hc.
    destruct (check _ v Ipv4Family RAW_CODES_WINDOWS) as [[]|e]; simpl.
    + destruct (proj1 Hc eq_refl) as (_ & _ & H1). by replace (_ && _) with true by (symmetry; apply andb_true_iff; lia).
    + destruct (_ && _) eqn:E1; [|done]. bool_hyps. discriminate (proj2 Hc). split_and!; [done..|lia|lia].
  - rewrite bool_decide_true by done. destruct (check _ _ _ _) as [[]|] eqn:Ec; [|done]. exfalso.
    by apply check_raw_Ok with (d := str_of_Z (int_digits d)) in Ec as (_ & ? & _); [|apply after_prefix_Some].
Qed.

Lemma rekeyed_key rc k v k' v' : rekeyed rc (k, v) = Some (k', v') → v' = v ∧
  int_digits <$> code_match k' = int_digits <$> code_match k ∧ (code_match k = None → k' = k) ∧
  (∀ d, code_match k = Some d → k' = raw_key rc (int_digits d)).
Proof.
  unfold rekeyed. cbn [fst snd]. destruct (code_match k) as [d|] eqn:E.
  - destruct (is_ok _); [|done]. intros [= <- <-]. destruct (raw_key_code rc (int_digits d) (code_nonneg k d E)) as [-> Hd].
    simpl. rewrite Hd. split_and!; [done..|]. by intros ? [= ->].
  - intros [= <- <-]. by rewrite E.
Qed.

Lemma rekeyed_accepted rc (opts : options) k' v' : (k', v') ∈ omap (rekeyed rc) opts → code_match k' ≠ None →
  accepted Ipv4Family rc k' v'.
Proof.
  intros ([k v] & _ & Hr)%list_elem_of_omap Hn. apply check_one_Ok.
  destruct (rekeyed_key _ _ _ _ _ Hr) as (-> & Hc & _ & Hk). unfold rekeyed in Hr. cbn [fst snd] in Hr.
  destruct (code_match k) as [d|] eqn:E; [|by destruct (code_match k')].
  destruct (check _ v Ipv4Family rc) as [[]|] eqn:Ec; [|done]. by injection Hr as <-.
Qed.

(** Distinct codes stay distinct keys. *)
Lemma rekeyed_fresh rc (opts : options) k v k' v' : k ∉ map fst opts →
  (∀ d, code_match k = Some d → int_digits d ∉ omap (λ kv, int_digits <$> code_match (fst kv)) opts) →
  rekeyed rc (k, v) = Some (k', v') → k' ∉ map fst (omap (rekeyed rc) opts).
Proof.
  intros Hk Hd Hr ([? w'] & -> & ([k0 w] & Hin & H0)%list_elem_of_omap)%list_elem_of_fmap. cbn [fst] in *.
  destruct (rekeyed_key _ _ _ _ _ Hr) as (_ & Hc & Hs & _), (rekeyed_key _ _ _ _ _ H0) as (_ & Hc0 & Hs0 & _).
  destruct (code_match k) as [d|] eqn:E.
  - apply (Hd d eq_refl), list_elem_of_omap. exists (k0, w). split; [done|]. cbn [fst]. by rewrite <- Hc0.
  - rewrite (Hs eq_refl) in *. rewrite E in Hc0. destruct (code_match k0) eqn:E0; [done|].
    rewrite (Hs0 eq_refl) in Hk. apply Hk. by apply list_elem_of_fmap_2' with (x := (k0, w)).
Qed.

Lemma rekey_run rc (opts : options) : NoDup (map fst opts) → NoDup (omap (λ kv, int_digits <$> code_match (fst kv)) opts) →
  rekey_raw_options idna_encode rc Ipv4Family opts =
  (omap (rekeyed rc) opts, map fst (List.filter (λ kv, negb (bool_decide (is_Some (rekeyed rc kv)))) opts)).
Proof.
  unfold rekey_raw_options. induction opts as [|[k v] opts IH] using rev_ind; [done|].
  rewrite map_app, omap_app. intros (Hk & Hk' & _)%NoDup_app (Hc & Hc' & _)%NoDup_app.
  rewrite foldl_app, IH by done. cbn [foldl]. rewrite rekey_step_spec, omap_app, List.filter_app, map_app.
  assert (k ∉ map fst opts) as Hn by (intros Hin; apply (Hk' k Hin); constructor).
  destruct (rekeyed rc (k, v)) as [[k' v']|] eqn:E; cbn [List.filter omap list_omap].
  - rewrite dset_fresh.
    + rewrite E. cbn. by rewrite app_nil_r.
    + eapply rekeyed_fresh; [done| |exact E]. intros d Hd Hin. apply (Hc' _ Hin). apply list_elem_of_omap.
      exists (k, v). split; [constructor|]. cbn [fst]. by rewrite Hd.
  - rewrite E. cbn. by rewrite app_nil_r.
Qed.

(** ** Routing the options of a dual class *)
Lemma routed_iff (opts : options) : (∀ k v, (k, v) ∈ opts → accepted DualFamily RAW_CODES_KEA k v) →
  ∀ fam key value, (key, value) ∈ options_for_family idna_encode opts fam ↔
    (key, value) ∈ opts ∧ accepted (single fam) RAW_CODES_KEA key value.
Proof.
  intros Hv fam key value. unfold options_for_family. rewrite elem_filter.
  split; (intros [Hk Hf]; split; [done|]); specialize (Hv key value Hk);
    rewrite (accepted_canonical _ _ _ _ Hv), orb_true_iff, andb_true_iff, negb_true_iff, fits_true,
      <- not_true_iff_false, fits_true, bool_decide_eq_true in *; [|by left].
  destruct Hf as [?|[-> Hn]]; [done|]. apply accepted_dual in Hv as [[] Hv]; done.
Qed.

(** ** No commas in a domain *)
Lemma elem_strip s c : c ∈ s → is_space c = false → c ∈ strip is_space s.
Proof.
  intros Hc Hn. pose proof (strip_split is_space s) as (l & r & Hs & Hl & Hr).
  rewrite Hs in Hc. rewrite !elem_of_app in Hc. destruct Hc as [Hc|[Hc|Hc]]; [|done|].
  - by rewrite (forallb_elem _ _ _ Hl Hc) in Hn.
  - by rewrite (forallb_elem _ _ _ Hr Hc) in Hn.
Qed.

Section no_comma.
(** [idna.encode] refuses a label with a comma. *)
Hypothesis idna_comma : ∀ l a, idna_encode l = Some a → contains "," l = false.

Lemma dns_label_no_comma l r : validate_dns_label idna_encode false l = Ok r → contains "," l = false.
Proof.
  unfold validate_dns_label. case_bool_decide; [done|]. case_bool_decide; [done|].
  rewrite bind_Ok. intros (a & Ha & Hr). destruct (MAX_LABEL_LEN <? length a); [done|].
  destruct (_DNS_LABEL_RE a) eqn:E; [|done]. unfold _to_ascii_label in Ha. destruct (isascii l).
  - injection Ha as <-. apply plain_no_comma, label_plain. by apply dns_label_facts in E as (_ & _ & Hl & _).
  - destruct (idna_encode l) as [b|] eqn:Ei; [|done]. by eapply idna_comma.
Qed.

Lemma fqdn_no_comma s r : fqdn s = Ok r → contains "," s = false.
Proof.
  unfold DhcpOptions.fqdn, validate_fqdn. case_bool_decide; [done|]. case_bool_decide; [done|].
  rewrite bind_Ok. intros (labels & Hl%map_result_Ok & _).
  assert (Hb : contains "," (fst (_strip_root (strip is_space s))) = false).
  { apply contains_false. intros Hc. rewrite <- (join_split ".") in Hc.
    assert (Forall (λ w, forallb (λ c, negb (chr_is "," c)) w = true) (split "." (fst (_strip_root (strip is_space s))))) as Hw.
    { clear Hc. induction Hl as [|w x ws xs Hw%dns_label_no_comma _ IH]; constructor; [|done].
      unfold contains in Hw. rewrite existsb_none in Hw. apply forallb_elem_iff. intros c Hc. by rewrite Hw. }
    apply (join_forallb "." (λ c, negb (chr_is "," c))) in Hw; [|done]. by apply (forallb_elem _ _ _ Hw) in Hc. }
  apply contains_false. intros Hc%elem_strip; [|done]. apply contains_false in Hb. apply Hb.
  unfold _strip_root. destruct (endswith "." _) eqn:Ed; [|done]. apply endswith_chr in Ed as (s' & Es).
  rewrite Es in Hc |- *. rewrite drop_last_snoc. simpl. apply elem_of_app in Hc as [Hc|Hc]; [done|].
  by apply list_elem_of_singleton in Hc.
Qed.

Lemma canonical_str_fqdn s r : fqdn s = Ok r → _canonical_str idna_encode s = Some r.
Proof.
  intros Hr. apply canonical_str_Some. exists [r]. split_and!; [|done..].
  rewrite comma_parts_no_comma by (by eapply fqdn_no_comma).
  rewrite (fqdn_blank s r Hr). simpl. by rewrite fqdn_strip, Hr.
Qed.

Lemma canonical_items l : l ≠ [] → (∀ x, x ∈ l → ∃ s r, x = JStr s ∧ fqdn s = Ok r) →
  ∃ rs, rs ≠ [] ∧ Forall (λ r, fqdn r = Ok r) rs ∧ _canonical_fqdn idna_encode (JArr l) = JArr (map JStr rs).
Proof.
  intros Hl Hall.
  assert (∃ rs, Forall (λ r, fqdn r = Ok r) rs ∧ length rs = length l ∧
    mapM (λ item, match item with JStr s => _canonical_str idna_encode s | _ => None end) l = Some rs) as (rs & Hf & Hn & Hm).
  { clear Hl. induction l as [|x l IH]; [by exists []|].
    destruct IH as (rs & Hf & Hn & Hm); [intros y Hy; apply Hall; by right|].
    destruct (Hall x) as (s & r & -> & Hr); [by left|]. exists (r :: rs). split_and!.
    - constructor; [|done]. by apply fqdn_Ok in Hr as [? _].
    - simpl. by rewrite Hn.
    - simpl. rewrite (canonical_str_fqdn s r Hr). simpl. by rewrite Hm. }
  exists rs. split_and!; [|done|]; [by intros ->; destruct l|]. simpl. by rewrite Hm.
Qed.

Lemma form_of_strs rs : rs ≠ [] → Forall (λ r, fqdn r = Ok r) rs → in_dns_form (JArr (map JStr rs)) ∧
  run_check idna_encode FqdnList (JArr (map JStr rs)) = Ok tt.
Proof.
  intros Hn Hf.
  assert (domain_texts (JArr (map JStr rs)) = rs) as Ht.
  { simpl. clear Hn. induction Hf as [|r rs Hr _ IH]; [done|]. simpl. by rewrite (fqdn_parts r r Hr), IH. }
  split.
  - unfold in_dns_form. rewrite Ht. split; [done|]. intros p Hp. by rewrite Forall_forall in Hf; apply Hf.
  - apply check_FqdnList_Ok. simpl. split; [by destruct rs|]. intros x (r & -> & Hr)%list_elem_of_fmap.
    exists r, r. split; [done|]. by rewrite Forall_forall in Hf; apply Hf.
Qed.

Lemma canonical_in_form rule v : rule = Fqdn ∨ rule = FqdnList → run_check idna_encode rule v = Ok tt →
  in_dns_form (_canonical_fqdn idna_encode v) ∧ run_check idna_encode rule (_canonical_fqdn idna_encode v) = Ok tt.
Proof.
  intros [->| ->].
  - intros (s & r & Hs & Hr)%check_Fqdn_Ok. destruct (fqdn_Ok s r Hr) as (Hrr & _).
    assert (run_check idna_encode Fqdn (JStr r) = Ok tt) as Hc by (apply check_Fqdn_Ok; by exists r, r).
    apply scalar_Ok in Hs as [->| ->]; simpl; rewrite (canonical_str_fqdn s r Hr); simpl.
    + split; [|done]. unfold in_dns_form. simpl. rewrite (fqdn_parts r r Hrr). split; [done|].
      by intros p ->%list_elem_of_singleton.
    + split; [|done]. by apply (form_of_strs [r]); [|constructor].
  - intros (Hne & Hall)%check_FqdnList_Ok. destruct v as [|b|z|t|s|l|kvs|t];
      try (destruct (Hall _ (list_elem_of_here _ _)) as (? & ? & ? & _); done).
    + simpl in Hne, Hall. assert (∃ out, map_result fqdn (comma_parts s) = Ok out) as (out & Hout).
      { assert (∀ p, p ∈ comma_parts s → ∃ r, fqdn p = Ok r) as Hp.
        { intros p Hp. destruct (Hall (JStr p)) as (s' & r & [= ->] & Hr); [by apply list_elem_of_fmap_2'  with (x := p)|]. by exists r. }
        clear Hall Hne. induction (comma_parts s) as [|p ps IH]; [by exists []|].
        destruct (Hp p) as (r & Hr); [by left|]. destruct IH as (rs & Hrs); [intros q Hq; apply Hp; by right|].
        exists (r :: rs). simpl. rewrite Hr. simpl. by rewrite Hrs. }
      pose proof Hout as Hf2%map_result_Ok.
      assert (Forall (λ r, fqdn r = Ok r ∧ r ≠ [] ∧ forallb plain r = true) out) as Hf.
      { clear -Hf2. induction Hf2 as [|? ? ? ? ?%fqdn_Ok]; by constructor. }
      assert (out ≠ []) as Hn by (intros ->; by apply Forall2_nil_inv_r in Hf2; rewrite Hf2 in Hne).
      assert (comma_parts (join ", " out) = out) as Hj.
      { apply comma_parts_join. eapply Forall_impl; [exact Hf|]. by intros r (? & ? & ?). }
      assert (_canonical_str idna_encode s = Some (join ", " out)) as Hc by (apply canonical_str_Some; by exists out).
      simpl. rewrite Hc. rewrite Forall_forall in Hf. split.
      * unfold in_dns_form. simpl. rewrite Hj. split; [done|]. intros p Hp. by apply Hf.
      * apply check_FqdnList_Ok. simpl. rewrite Hj. split; [by destruct out|].
        intros x (r & -> & Hr)%list_elem_of_fmap. exists r, r. split; [done|]. by apply Hf.
    + destruct (canonical_items l Hne Hall) as (rs & Hn & Hf & ->). by apply form_of_strs.
Qed.

Lemma rewrite_in_form rule v : rule = Fqdn ∨ rule = FqdnList → _is_unset v = false →
  run_check idna_encode rule v = Ok tt → in_dns_form (rewrite_option rule v).
Proof.
  intros Hr Hu Hv. destruct (canonical_in_form rule v Hr Hv) as [Hf Hc].
  unfold DhcpOptions.rewrite_option. rewrite Hu, Hc. destruct (py_eq _ _ _) eqn:E; [|done].
  by rewrite <- (py_eq_canonical v E).
Qed.
End no_comma.

Lemma dget_canonical k d : dget k (map canonical_item d) =
  (λ v, match dget k _FQDN_OPTION_RULES with Some rule => rewrite_option rule v | None => v end) <$> dget k d.
Proof.
  induction d as [|[k' v] d IH]; [done|]. cbn [map canonical_item dget fst snd]. case_bool_decide; [by subst|]. done.
Qed.

Lemma fqdn_rules k rule : dget k _FQDN_OPTION_RULES = Some rule → rule = Fqdn ∨ rule = FqdnList.
Proof. unfold _FQDN_OPTION_RULES. simpl. repeat case_bool_decide; intros [= <-]; auto. Qed.

(** A named domain option is checked by the rule that gates its rewriting. *)
Lemma rule_of_table k rule fam c : dget k _FQDN_OPTION_RULES = Some rule → dget k (table fam) = Some c → c = rule.
Proof.
  unfold _FQDN_OPTION_RULES. simpl. repeat case_bool_decide; intros [= <-]; subst; destruct fam; vm_compute; congruence.
Qed.

Lemma accepted_rewritten f rc k v : accepted f rc k v →
  accepted f rc k (match dget k _FQDN_OPTION_RULES with Some rule => rewrite_option rule v | None => v end).
Proof.
  destruct (dget k _FQDN_OPTION_RULES) as [rule|] eqn:E; [|done]. intros [d kind Hd|d ? ? ? ?|fam c Hf Hc Hv].
  - exfalso. apply after_prefix_Some in Hd as (-> & _). done.
  - by eapply AcceptedWindows.
  - eapply AcceptedNamed; [done..|]. rewrite (rule_of_table _ _ _ _ E Hc) in *. destruct Hv as [Hu|Hv].
    + left. unfold DhcpOptions.rewrite_option. by rewrite Hu.
    + right. by apply rewrite_option_check.
Qed.

Lemma canonical_accepted f rc opts : NoDup (map fst opts) → (∀ k v, (k, v) ∈ opts → accepted f rc k v) →
  ∀ k v, (k, v) ∈ canonical opts → accepted f rc k v.
Proof.
  intros Hd Hv k w. rewrite canonical_map by done. intros ([k' v] & [= -> ->] & Hin)%list_elem_of_fmap.
  by apply accepted_rewritten, Hv.
Qed.

(** What a class delivers passes the check of the daemon it goes to. *)
Lemma client_class_loadable f opts : NoDup (map fst opts) →
  validate_options idna_encode (default Ipv4Family f) None RAW_CODES_KEA opts = Ok tt →
  let '(v4, v6) := _client_class_def idna_encode f opts in
  validate_options idna_encode Ipv4Family None RAW_CODES_KEA v4 = Ok tt ∧
  validate_options idna_encode Ipv6Family None RAW_CODES_KEA v6 = Ok tt.
Proof.
  rewrite validate_None. intros Hd Hv. pose proof (canonical_accepted _ _ _ Hd Hv) as Hc. unfold _client_class_def.
  destruct (default Ipv4Family f); rewrite !validate_None; split; try done; try (by intros ? ? ?%elem_of_nil).
  - intros k v Hk. by apply (routed_iff _ Hc V4).
  - intros k v Hk. by apply (routed_iff _ Hc V6).
Qed.

(** ** Phone profiles *)
Lemma zget_elem {A} k (l : list (Z * A)) v : zget k l = Some v → (k, v) ∈ l.
Proof.
  unfold zget. intros ([k' w] & Hf & ->)%fmap_Some. apply List.find_some in Hf as [Hf Hk].
  apply Z.eqb_eq in Hk as ->. by apply list_elem_of_In.
Qed.

Lemma zget_cons {A} k k' (v : A) l : zget k ((k', v) :: l) = if (k =? k')%Z then Some v else zget k l.
Proof. unfold zget. simpl. by destruct (k =? k')%Z. Qed.

Lemma code_names_NoDup : NoDup (map snd CODE_TO_NAME).
Proof. apply (bool_decide_unpack _). by vm_compute. Qed.

Lemma code_name_inj c c' n : zget c CODE_TO_NAME = Some n → zget c' CODE_TO_NAME = Some n → c = c'.
Proof.
  intros Hc%zget_elem Hc'%zget_elem. by injection (map_NoDup_inj snd CODE_TO_NAME _ _ code_names_NoDup Hc Hc' eq_refl).
Qed.

Lemma code_name_not_raw c n t : zget c CODE_TO_NAME = Some n → n ≠ "code:" ++ t.
Proof.
  intros Hc%zget_elem ->. unfold CODE_TO_NAME in Hc.
  repeat (apply elem_of_cons in Hc as [Hc|Hc]; [by injection Hc|]). by apply elem_of_nil in Hc.
Qed.

Lemma phone_option_key_inj c c' : phone_option_key c = phone_option_key c' → c = c'.
Proof.
  unfold phone_option_key. destruct (zget c _) as [n|] eqn:E, (zget c' _) as [n'|] eqn:E'; simpl.
  - intros ->. by eapply code_name_inj.
  - intros ->. by destruct (code_name_not_raw _ _ (str_of_Z c') E).
  - intros Hn. by destruct (code_name_not_raw _ _ (str_of_Z c) E').
  - intros Hs%(app_inv_head "code:"). by apply str_of_Z_inj.
Qed.

(** The code of a row that renders something. *)
Definition live_code (row : json) : option Z :=
  match row with
  | JObj kvs => if truthy (field "value" kvs) then Some (_row_code kvs) else None
  | _ => None
  end.

Definition delivered (row : json) : option (str * json) :=
  match row with
  | JObj kvs => if truthy (field "value" kvs) then Some (phone_option_key (_row_code kvs), field "value" kvs) else None
  | _ => None
  end.

Lemma check_rows_fresh live seen rows : check_rows [] live seen rows = Ok tt →
  (∀ c, c ∈ omap live_code rows → zget c seen = None) ∧ NoDup (omap live_code rows) ∧
  omap phone_item rows = omap delivered rows.
Proof.
  revert seen. induction rows as [|row rows IH]; intros seen; simpl.
  { intros _. split_and!; [by intros ? ?%elem_of_nil|constructor|done]. }
  destruct row as [| | | | | |kvs|]; simpl; try apply IH.
  destruct (truthy (field "value" kvs)) eqn:Ev; simpl.
  2: { unfold phone_item, _phone_row_key. rewrite Ev. simpl. apply IH. }
  destruct (_row_code kvs =? 0)%Z eqn:E0; [done|].
  destruct (zget (_row_code kvs) seen) eqn:Es; simpl; [done|].
  destruct (mislabelled _ _) eqn:Em; [done|]. destruct (live && _); [done|]. intros Hr.
  destruct (IH _ Hr) as (Hs & Hn & Hi). setoid_rewrite zget_cons in Hs. split_and!.
  - intros c [->|Hc]%elem_of_cons; [done|]. specialize (Hs c Hc). by destruct (c =? _row_code kvs)%Z.
  - apply NoDup_cons. split; [|done]. intros Hc%Hs. by rewrite Z.eqb_refl in Hc.
  - unfold phone_item, _phone_row_key. rewrite Ev, E0. simpl. unfold mislabelled in Em.
    destruct (_label_code (field "name" kvs)) as [c|]; simpl in *.
    + apply negb_false_iff in Em. rewrite Em. simpl. by f_equal.
    + by f_equal.
Qed.

Lemma delivered_keys rows : map fst (omap delivered rows) = map phone_option_key (omap live_code rows).
Proof.
  induction rows as [|[| | | | | |kvs|] rows IH]; simpl; try done.
  destruct (truthy (field "value" kvs)); simpl; [by f_equal|done].
Qed.

Lemma fresh_phone_map live rows : check_rows [] live [] rows = Ok tt → phone_options_map rows = omap delivered rows.
Proof.
  intros (_ & Hn & Hi)%check_rows_fresh. unfold phone_options_map. rewrite Hi. apply dict_of_id.
  rewrite delivered_keys. apply NoDup_fmap_2; [|done]. intros c c'. apply phone_option_key_inj.
Qed.
End facts.

(** ** Properties *)
Section properties.
Context `{PyFloat}.
Variable idna_encode : str → option str.

(** A list of option entries is stored exactly as sent or refused.  The
    mapping [normalize_options] builds from a list has one item per entry
    that names an option (a known name, else the code, else the unknown
    name), in the order of the entries and with the value sent; and it is
    refused exactly when two entries come down to the same key, which the
    error names. *)
Lemma normalize_entries_exact (raw_codes : raw_spelling) (entries : list json) :
  let items := omap (entry_item raw_codes) entries in
  match _normalize_options_raw raw_codes (JArr entries) with
  | Ok out => out = items ∧ NoDup (map fst items)
  | Err e => ∃ before entry after key value,
      entries = before ++ entry :: after ∧ entry_item raw_codes entry = Some (key, value) ∧
      key ∈ map fst (omap (entry_item raw_codes) before) ∧ e = MoreThanOnce key
  end.
Proof.
  pose proof (normalize_entries_spec raw_codes [] entries (NoDup_nil_2)) as Hs. simpl in *.
  destruct (normalize_entries _ _ _) as [out|e]; [by destruct Hs|].
  destruct Hs as (l1 & x & l2 & k & v & ? & ? & ? & ?). by exists l1, x, l2, k, v.
Qed.

(** C16 -- The DNS form of the domain options ([domain-name], [domain-search]
    and their Windows spellings).  Rewriting keeps the keys and their order,
    leaves every other option alone, is idempotent, and never turns a mapping
    the write check accepts into one it refuses; and every domain option whose
    value passes its check comes out with all its names in the form
    [validate_fqdn] returns (given that [idna.encode] refuses a label with a
    comma, which IDNA does not allow). *)
Theorem canonical_domains_exact (opts : options)
    (idna_comma : ∀ l a, idna_encode l = Some a → contains "," l = false)
    (Hkeys : NoDup (map fst opts)) :
  let out := canonical_domain_options idna_encode opts in
  map fst out = map fst opts ∧
  canonical_domain_options idna_encode out = out ∧
  (∀ f raw_codes, validate_options idna_encode f None raw_codes opts = Ok tt →
                  validate_options idna_encode f None raw_codes out = Ok tt) ∧
  (∀ key, dget key _FQDN_OPTION_RULES = None → dget key out = dget key opts) ∧
  (∀ key rule value, dget key _FQDN_OPTION_RULES = Some rule → dget key opts = Some value →
     _is_unset value = false → run_check idna_encode rule value = Ok tt →
     ∃ w, dget key out = Some w ∧ in_dns_form idna_encode w).
Proof.
  intros out. pose proof (canonical_keys idna_encode opts Hkeys) as Hk. fold out in Hk.
  pose proof (canonical_map idna_encode opts Hkeys) as Hm. fold out in Hm. split_and!; [done| | | |].
  - rewrite (canonical_map idna_encode out) by (by rewrite Hk). rewrite Hm, map_map. apply map_ext. intros [k v].
    unfold canonical_item. cbn [fst snd]. destruct (dget k _FQDN_OPTION_RULES); [|done]. by rewrite rewrite_option_idem.
  - intros f rc. rewrite !validate_None. by apply canonical_accepted.
  - intros key Hn. by rewrite Hm, dget_canonical, Hn; destruct (dget key opts).
  - intros key rule v Hr Hv Hu Hc. rewrite Hm, dget_canonical, Hv, Hr. eexists. split; [done|].
    apply rewrite_in_form; [done| |done..]. by apply fqdn_rules in Hr.
Qed.

(** A dual client class is split without loss and without poison.  When
    the class's options were accepted for [dual], the part sent to each daemon
    passes that daemon's own check, every option reaches a daemon, a v6-only
    option stays out of Dhcp4, and an option that suits both reaches both. *)
Theorem dual_options_routed (opts : options)
    (Hv : validate_options idna_encode DualFamily None RAW_CODES_KEA opts = Ok tt) :
  (∀ fam, validate_options idna_encode (single fam) None RAW_CODES_KEA
            (options_for_family idna_encode opts fam) = Ok tt) ∧
  (∀ fam key value, (key, value) ∈ options_for_family idna_encode opts fam ↔
     (key, value) ∈ opts ∧ _check_one idna_encode key value (single fam) RAW_CODES_KEA = Ok tt) ∧
  (∀ key value, (key, value) ∈ opts → ∃ fam, (key, value) ∈ options_for_family idna_encode opts fam).
Proof.
  rewrite validate_None in Hv. pose proof (routed_iff idna_encode opts Hv) as Hin.
  split_and!.
  - intros fam. apply validate_None. intros k v Hk. by apply Hin.
  - intros fam key value. by rewrite Hin, check_one_Ok.
  - intros key value Hk. destruct (proj1 (accepted_dual _ _ _ _) (Hv key value Hk)) as [fam Hf]. exists fam. by apply Hin.
Qed.

(** C18 -- Importing options into a group of another spelling.  For options with
    distinct keys and distinct raw codes, the re-keyed mapping holds every
    named option as it was and every raw code under the spelling the group
    reads, in order, and the keys reported as dropped are those of the other
    codes; no raw code of the result is one the group would drop; and it
    passes the write check when the named options do. *)
Theorem rekey_exact (raw_codes : raw_spelling) (opts : options)
    (Hkeys : NoDup (map fst opts)) (Hcodes : NoDup (omap (λ kv, int_digits <$> code_match (fst kv)) opts)) :
  let '(out, dropped) := rekey_raw_options idna_encode raw_codes Ipv4Family opts in
  out = omap (rekeyed idna_encode raw_codes) opts ∧
  dropped = map fst (List.filter (λ kv, negb (bool_decide (is_Some (rekeyed idna_encode raw_codes kv)))) opts) ∧
  raw_keys_dropped_by out raw_codes = [] ∧
  ((∀ key value, (key, value) ∈ opts → code_match key = None →
      _check_one idna_encode key value Ipv4Family raw_codes = Ok tt) →
   validate_options idna_encode Ipv4Family None raw_codes out = Ok tt).
Proof.
  destruct (rekey_raw_options idna_encode raw_codes Ipv4Family opts) as [out dropped] eqn:E.
  rewrite (rekey_run idna_encode raw_codes opts Hkeys Hcodes) in E. injection E as <- <-.
  assert (∀ k' v', (k', v') ∈ omap (rekeyed idna_encode raw_codes) opts → code_match k' ≠ None →
    accepted idna_encode Ipv4Family raw_codes k' v') as Hraw by (intros; by eapply rekeyed_accepted).
  split_and!; [done..| |].
  - unfold raw_keys_dropped_by, raw_code_keys. rewrite filter_filter. apply filter_none_elem.
    intros k' ([? v'] & -> & Hin)%list_elem_of_fmap. simpl. destruct (_is_code_key _) eqn:Ek; [|done].
    apply is_code_key_true in Ek as (d & Ed). destruct (Hraw _ _ Hin) as [d' kind Hd _ -> _ _ _|d' Hd _ -> _|fam c _ Hc _].
    + by congruence.
    + simpl. by apply code_match_raw in Hd as (_ & ? & _).
    + simpl. by apply code_match_windows in Hd as (? & _).
    + apply table_name in Hc as (_ & H1 & H2 & _). unfold code_match in Ed. by rewrite H1, H2 in Ed.
  - intros Hnamed. apply validate_None. intros k' v' Hin. destruct (code_match k') as [d|] eqn:Ed; [apply Hraw; [done|congruence]|].
    pose proof Hin as ([k v] & Hk & Hr)%list_elem_of_omap. destruct (rekeyed_key _ _ _ _ _ _ Hr) as (-> & Hc & Hs & _).
    rewrite Ed in Hc. destruct (code_match k) eqn:Ek; [done|]. rewrite (Hs eq_refl). by apply check_one_Ok, Hnamed.
Qed.

(** C17 -- What a phone profile delivers.  Whatever rows are stored, the options
    a phone class renders all pass the write check, and each option of the
    rows is rendered or reported as dropped.  When the rows were accepted by
    [validate_phone_options] as new, nothing is dropped: every row with a
    value is delivered under the option its code stands for, with that value,
    and no two rows share an option. *)
Theorem phone_rows_delivered (rows : list json) (going_live enabled : bool) :
  let '(kept, dropped) := phone_options_loadable idna_encode rows in
  validate_options idna_encode Ipv4Family None RAW_CODES_KEA kept = Ok tt ∧
  (∀ key value, (key, value) ∈ phone_options_map rows → (key, value) ∈ kept ∨ key ∈ dropped) ∧
  (validate_phone_options idna_encode rows None going_live enabled = Ok tt →
   dropped = [] ∧ kept = omap delivered rows ∧ NoDup (map fst kept)).
Proof.
  unfold phone_options_loadable. set (m := phone_options_map rows). split_and!.
  - apply validate_None. intros k v. rewrite elem_filter. by intros [_ Hf%fits_true].
  - intros k v Hin. destruct (_fits idna_encode k v Ipv4Family) eqn:E; [left; by apply elem_filter|].
    right. apply list_elem_of_fmap_2' with (x := (k, v)); [|done]. apply elem_filter. by rewrite E.
  - unfold validate_phone_options. rewrite bind_Ok. replace (if going_live then None else None) with (@None (list json)) by (by destruct going_live).
    simpl. intros ([] & Hr & Hv). pose proof (fresh_phone_map _ _ Hr) as Hm. fold m in Hm, Hv.
    destruct (validate_options _ _ _ _ m) as [[]|] eqn:Ev; [|done]. rewrite validate_None in Ev.
    assert (∀ kv, kv ∈ m → (let '(k, v) := kv in _fits idna_encode k v Ipv4Family) = true) as Hf.
    { intros [k v] Hin. by apply fits_true, Ev. }
    split_and!.
    + rewrite filter_none_elem; [done|]. intros kv Hkv. by rewrite Hf.
    + rewrite filter_all; [done|]. by apply forallb_elem_iff.
    + rewrite filter_all by (by apply forallb_elem_iff). apply dict_of_NoDup.
Qed.
End properties.

(** ** Witnesses *)
Definition no_idna (s : str) : option str := None.

(** Floats play no part in the examples. *)
Definition no_floats : PyFloat := {| float_is _ _ := false; float_trunc _ := 0%Z |}.

Definition sample_options : options :=
  [("dns-servers" : str, JStr "10.0.0.1, 10.0.0.2"); ("domain-name", JStr "Corp.Example."); ("code:43", JStr "0102")].

Lemma canonical_domains_exact_witness :
  dget "domain-name" (canonical_domain_options (H := no_floats) no_idna sample_options) = Some (JStr "corp.example") ∧
  canonical_domain_options (H := no_floats) no_idna (canonical_domain_options (H := no_floats) no_idna sample_options)
  = canonical_domain_options (H := no_floats) no_idna sample_options.
Proof.
  split; [vm_compute; reflexivity|].
  apply (canonical_domains_exact (H := no_floats) no_idna sample_options);
    [done | apply (bool_decide_unpack _); vm_compute; reflexivity].
Defined.

Lemma rekey_exact_witness :
  rekey_raw_options no_idna RAW_CODES_KEA Ipv4Family
    [("mtu" : str, JInt 1500); ("opt-43", JStr "0102"); ("opt-60", JStr "x")]
  = ([("mtu" : str, JInt 1500); ("code:43", JStr "0102")], ["opt-60" : str]).
Proof.
  pose proof (rekey_exact (H := no_floats) no_idna RAW_CODES_KEA
    [("mtu" : str, JInt 1500); ("opt-43", JStr "0102"); ("opt-60", JStr "x")]
    ltac:(apply (bool_decide_unpack _); vm_compute; reflexivity)
    ltac:(apply (bool_decide_unpack _); vm_compute; reflexivity)) as Hr.
  destruct (rekey_raw_options _ _ _ _) as [out dropped]. destruct Hr as (-> & -> & _). vm_compute. reflexivity.
Defined.

Definition dual_sample : options :=
  [("dns-servers" : str, JStr "2001:db8::53"); ("routers", JStr "10.0.0.1"); ("ntp-servers", JArr [JStr "10.0.0.2"])].

Lemma dual_options_routed_witness :
  (∀ fam, validate_options (H := no_floats) no_idna (single fam) None RAW_CODES_KEA (options_for_family no_idna dual_sample fam) = Ok tt) ∧
  map fst (options_for_family no_idna dual_sample V4) = ["routers"; "ntp-servers"] ∧
  map fst (options_for_family no_idna dual_sample V6) = ["dns-servers"].
Proof.
  split; [|vm_compute; auto].
  apply (dual_options_routed (H := no_floats) no_idna dual_sample). vm_compute. reflexivity.
Defined.

(** ** Class tests, on examples *)
Example ascii_vendor_class : vendor_class_match_test "yealink" = "substring(option[60].hex,0,7)==" ++ [SQ] ++ "yealink" ++ [SQ].
Proof. vm_compute. reflexivity. Qed.

(** Seven bytes, not six characters. *)
Example latin1_vendor_class :
  vendor_class_match_test ("Vend" ++ [ascii_of_nat 246] ++ "r") = "substring(option[60].hex,0,7)==0x56656E64C3B672".
Proof. vm_compute. reflexivity. Qed.

(** A token in a string literal is text. *)
Example quoted_token : validate_class_test ("option[60].text == " ++ [SQ] ++ "pkt4" ++ [SQ]) DualFamily = None.
Proof. vm_compute. reflexivity. Qed.

Example foreign_token : validate_class_test "pkt4.mac == 0x0102" DualFamily = Some (V6, "pkt4" : str) ∧
  validate_class_test "pkt4.mac == 0x0102" Ipv4Family = None ∧ validate_class_test "xpkt4 == 1" Ipv6Family = None.
Proof. vm_compute. auto. Qed.
End DhcpOptions.
