(* ===== verification/KeaOptions.v ===== *)
(** * DHCP options on their way to Kea

    The agent's renderer ([agent/dhcp/spatium_dhcp_agent/render_kea.py]: an
    options mapping into Kea's [option-data], the definitions a config needs
    and the removal of codes without one) and the control plane's part of it
    ([backend/app/drivers/dhcp/kea.py]: the definitions that travel with the
    bundle, and the preview).  Documents are JSON values; the log lines of the
    renderer are left out.  Options come from [DhcpOptions]. *)
From S2P Require Import IpNet PyStr Json DnsNames PyValue DhcpOptions.
Import Json PyValue DnsNames DhcpOptions.
Import IpNet(version, V4, V6).

Set Warnings "-register-all".

Module KeaOptions.

(** ** Tables *)
Definition _OPTION_CODES : list (str * Z) :=
  [("routers" : str, 3); ("domain-name-servers", 6); ("domain-name", 15); ("ntp-servers", 42); ("domain-search", 119)]%Z.

Definition _KEA_OPTION_NAMES_V4 : list (str * str) :=
  [("routers" : str, "routers" : str); ("dns-servers", "domain-name-servers"); ("domain-name", "domain-name");
   ("broadcast-address", "broadcast-address"); ("ntp-servers", "ntp-servers");
   ("tftp-server-name", "tftp-server-name"); ("bootfile-name", "boot-file-name");
   ("tftp-server-address", "tftp-server-address"); ("domain-search", "domain-search");
   ("mtu", "interface-mtu"); ("time-offset", "time-offset")].

Definition _LEGACY_OPTION_ALIASES_V4 : list (str * str) :=
  [("dns_servers" : str, "dns-servers" : str); ("domain-name-servers", "dns-servers"); ("ntp_servers", "ntp-servers");
   ("gateway", "routers"); ("domain_name", "domain-name"); ("domain_search", "domain-search");
   ("tftp_server", "tftp-server-name"); ("boot_file", "bootfile-name"); ("boot-file-name", "bootfile-name");
   ("broadcast_address", "broadcast-address"); ("interface-mtu", "mtu"); ("time_offset", "time-offset");
   ("tftp_server_address", "tftp-server-address")].

Definition _KEA_OPTION_NAMES_V6 : list (str * str) :=
  [("dns-servers" : str, "dns-servers" : str); ("domain-search", "domain-search"); ("ntp-servers", "sntp-servers");
   ("bootfile-name", "bootfile-url")].

(** An [option-def] of either side. *)
Definition option_def (name : str) (code : Z) (kind : kea_type) : json :=
  JObj ([("name" : str, JStr name); ("code", JInt code); ("space", JStr "dhcp4")] ++
        match kind with
        | KBinary => [("type" : str, JStr "binary")]
        | KString => [("type" : str, JStr "string")]
        | KIpv4Address false => [("type" : str, JStr "ipv4-address")]
        | KIpv4Address true => [("type" : str, JStr "ipv4-address"); ("array", JBool true)]
        end).

(** [_OPTION_DEFS_V4] of the agent and [_KEA_OPTION_DEFS] of the backend. *)
Definition _OPTION_DEFS_V4 : list (str * json) :=
  [("tftp-server-address" : str, option_def "tftp-server-address" 150 (KIpv4Address true))].

Definition vendor_def (entry : Z * kea_type) : json :=
  option_def ("spatium-opt-" ++ str_of_Z (fst entry)) (fst entry) (snd entry).

(** ** The agent: a mapping into [option-data] *)

(** The text of a value: a list is joined, anything else is [str(value)]. *)
Definition data_text (v : json) : str :=
  match v with JArr l => join ", " (map py_str l) | _ => py_str v end.

Definition _opt (name : str) (value : json) : json :=
  JObj ([("name" : str, JStr name); ("data", JStr (data_text value))] ++
        match dget name _OPTION_CODES with
        | Some code => [("code" : str, JInt code); ("space", JStr "dhcp4")]
        | None => []
        end).

Definition _canonicalize_v4 (opts : options) : options :=
  foldl (λ out '(alias, canon),
           match dget alias opts with
           | Some v => if dmem canon out then out else dset canon v out
           | None => out
           end)
        (List.filter (λ '(k, _), dmem k _KEA_OPTION_NAMES_V4) opts) _LEGACY_OPTION_ALIASES_V4.

(** What a [code:NN] key emits; a key [int] cannot read is skipped. *)
Definition code_entry (item : str * json) : option json :=
  let '(key, val) := item in
  if startswith "code:" key then
    code ← int_of_str (drop 5 key);
    Some (JObj [("code" : str, JInt code); ("data", JStr (data_text val))])
  else None.

(** The raw passthrough. *)
Definition raw_entries (opts : options) : list json :=
  match dget "option_data" opts with Some (JArr l) => l | _ => [] end.

Definition named_entry (canon : options) (name_kea : str * str) : option json :=
  let val := field (fst name_kea) canon in
  if _is_unset val then None else Some (_opt (snd name_kea) val).

Definition _options_from_mapping (opts : options) : list json :=
  omap (named_entry (_canonicalize_v4 opts)) _KEA_OPTION_NAMES_V4 ++ omap code_entry opts ++ raw_entries opts.

(** [options.get(a) or options.get(b)] *)
Definition get_or (a b : str) (opts : options) : json :=
  let v := field a opts in if truthy v then v else field b opts.

(** [_put] *)
Definition put_v6 (key : str) (val : json) : list json :=
  if _is_unset val then []
  else [JObj [("name" : str, JStr (default key (dget key _KEA_OPTION_NAMES_V6))); ("data", JStr (data_text val))]].

Definition _options_from_mapping_v6 (opts : options) : list json :=
  put_v6 "dns-servers" (get_or "dns_servers" "dns-servers" opts) ++
  put_v6 "domain-search" (get_or "domain_search" "domain-search" opts) ++
  put_v6 "ntp-servers" (get_or "ntp_servers" "ntp-servers" opts) ++
  put_v6 "bootfile-name" (get_or "boot_file" "bootfile-name" opts) ++
  raw_entries opts.

(** ** The agent: definitions, and codes without one *)

(** [isinstance(v, int)], with its value. *)
Definition int_code (v : json) : option Z := as_int v.

(** An entry that stays: one with a name, one without a code, or one whose
    code is defined. *)
Definition entry_defined (defined_codes : list Z) (entry : json) : bool :=
  match entry with
  | JObj kvs =>
      match int_code (field "code" kvs) with
      | Some c => truthy (field "name" kvs) || bool_decide (c ∈ defined_codes)
      | None => true
      end
  | _ => true
  end.

Definition is_option_data (key : str) : bool := bool_decide (key = "option-data").

Fixpoint _strip_undefined_code_options (defined_codes : list Z) (node : json) : json :=
  match node with
  | JObj kvs =>
      JObj (map (λ '(key, val),
                   (key, match val with
                         | JArr l => if is_option_data key then JArr (List.filter (entry_defined defined_codes) l)
                                     else _strip_undefined_code_options defined_codes val
                         | _ => _strip_undefined_code_options defined_codes val
                         end)) kvs)
  | JArr l => JArr (map (_strip_undefined_code_options defined_codes) l)
  | _ => node
  end.

(** Every entry of every [option-data] list of a document. *)
Fixpoint option_entries (node : json) : list json :=
  match node with
  | JObj kvs =>
      mjoin (map (λ '(key, val),
                    match val with
                    | JArr l => if is_option_data key then l else option_entries val
                    | _ => option_entries val
                    end) kvs)
  | JArr l => mjoin (map option_entries l)
  | _ => []
  end.

Definition entry_name_str (entry : json) : option str :=
  match entry with JObj kvs => match field "name" kvs with JStr n => Some n | _ => None end | _ => None end.

Definition _collect_option_defs (dhcp4 : json) : list json :=
  map snd (List.filter (λ '(n, _), bool_decide (Some n ∈ map entry_name_str (option_entries dhcp4))) _OPTION_DEFS_V4).

Definition def_code (d : json) : json := match d with JObj kvs => field "code" kvs | _ => JNull end.

Section defs.
Context `{PyFloat}.

(** The loop that adds the bundle's definitions, one per code. *)
Fixpoint add_defs (defs seen : list json) (l : list json) : list json * list json :=
  match l with
  | [] => (defs, seen)
  | (JObj _ as d) :: l' =>
      if existsb (py_eq float_is (def_code d)) seen then add_defs defs seen l'
      else add_defs (defs ++ [d]) (seen ++ [def_code d]) l'
  | _ :: l' => add_defs defs seen l'
  end.

(** The end of [render]'s Dhcp4 half: collect the definitions, strip the codes
    that have none. *)
Definition define_and_strip (bundle_defs : list json) (dhcp4 : json) : json * list json :=
  let own := _collect_option_defs dhcp4 in
  let '(option_defs, seen) := add_defs own (map def_code own) bundle_defs in
  (_strip_undefined_code_options (omap int_code seen) dhcp4, option_defs).

(** ** The control plane: the definitions a bundle needs *)
Definition _dedupe_defs_by_code (named vendor : list json) : list json :=
  fst (add_defs named (map def_code named) vendor).

Definition map_codes (m : options) : list Z :=
  mjoin (map (λ '(key, value),
    if bool_decide (key = "option_data") then
      match value with
      | JArr l => omap (λ entry, match entry with JObj kvs => int_code (field "code" kvs) | _ => None end) l
      | _ => []
      end
    else if startswith "code:" key then option_list (int_of_str (drop 5 key))
    else []) m).

Definition map_names (m : options) : list str :=
  omap (λ '(key, _),
    if bool_decide (key = "option_data") || startswith "code:" key then None
    else kea_name ← dget key _KEA_OPTION_NAMES_V4;
         if dmem kea_name _OPTION_DEFS_V4 then Some kea_name else None) m.

Definition option_defs_for_option_maps (maps : list options) : list json :=
  let names := mjoin (map map_names maps) in
  let codes := mjoin (map map_codes maps) in
  _dedupe_defs_by_code
    (map snd (List.filter (λ '(n, _), bool_decide (n ∈ names)) _OPTION_DEFS_V4))
    (map vendor_def (List.filter (λ '(c, _), bool_decide (c ∈ codes)) _KEA_VENDOR_OPTION_DEFS)).
End defs.

(** The preview of the rendered config ([_render_option_data]). *)
Definition _DHCP4_ONLY_OPTION_NAMES : list str :=
  ["routers"; "broadcast-address"; "mtu"; "time-offset"; "domain-name"; "tftp-server-name"; "tftp-server-address"].

Definition preview_entry (v6 : bool) (item : str * json) : option json :=
  let '(key, val) := item in
  if bool_decide (key = "option_data") then None
  else if v6 && bool_decide (key ∈ _DHCP4_ONLY_OPTION_NAMES) then None
  else if startswith "code:" key then
    code ← int_of_str (drop 5 key);
    Some (JObj [("code" : str, JInt code); ("data", JStr (data_text val))])
  else
    let name_map := if v6 then _KEA_OPTION_NAMES_V6 else _KEA_OPTION_NAMES_V4 in
    Some (JObj [("name" : str, JStr (default key (dget key name_map))); ("data", JStr (data_text val))]).

Definition is_obj (v : json) : bool := match v with JObj _ => true | _ => false end.

Definition _render_option_data (v6 : bool) (opts : options) : list json :=
  List.filter is_obj (raw_entries opts) ++ omap (preview_entry v6) opts.

(** ** Data as Kea reads it

    [data] is split at commas and trimmed for a list, and read whole
    otherwise.  An integer is an optional minus sign and decimal digits and
    nothing else, where Python's [int] also takes a plus sign, underscores
    between digits and blanks around them. *)
Definition decimal (digits : str) : Z := foldl (λ n c, 10 * n + Z.of_nat (ord c - 48))%Z 0%Z digits.
Definition kea_integer (data : str) : option Z :=
  let natural d := if forallb is_digit d && negb (bool_decide (d = [])) then Some (decimal d) else None in
  match data with
  | "-"%char :: d => Z.opp <$> natural d
  | d => natural d
  end.

Definition well_typed (idna_encode : str → option str) (c : value_check) (data : str) : Prop :=
  match c with
  | IpList v => comma_parts data ≠ [] ∧ ∀ p, p ∈ comma_parts data → ∃ a, ip_address p = Some a ∧ ip_version a = v
  | Ipv4 => ∃ a, ip_address (strip is_space data) = Some a ∧ ip_version a = V4
  | String => strip is_space data ≠ [] ∧ contains_control_chars data = false
  | Integer low high => ∃ n, kea_integer data = Some n ∧ (low <= n <= high)%Z
  | Fqdn => ∃ r, fqdn idna_encode data = Ok r
  | FqdnList => comma_parts data ≠ [] ∧ ∀ p, p ∈ comma_parts data → ∃ r, fqdn idna_encode p = Ok r
  | Hex => data ≠ [] ∧ forallb hex_char data = true ∧ Nat.even (length data) = true
  end.

(** Spelt without what only [int] takes. *)
Definition plain_integer (data : str) : bool :=
  negb (contains "_" data) && negb (contains "+" data) && forallb (λ c, negb (is_space c)) data.

(** The type of an option's value in a daemon. *)
Definition option_type (v : version) (key : str) : option value_check :=
  match dget key (table v) with
  | Some c => Some c
  | None => d ← _RAW_CODE key; kind ← zget (int_digits d) _KEA_VENDOR_OPTION_DEFS; Some (_raw_code_check kind)
  end.

Section typing.
Context (idna_encode : str → option str).
Hypothesis idna_comma : ∀ l a, idna_encode l = Some a → contains "," l = false.

Lemma scalar_text v x : _scalar v = Ok x → data_text v = py_str x.
Proof. destruct v as [| | | | |[|y [|]]| |]; simpl; try done; by intros [= <-]. Qed.

Lemma int_of_str_strip s : int_of_str (strip is_space s) = int_of_str s.
Proof. unfold int_of_str. by rewrite strip_idem. Qed.

Lemma plain_digits acc b s z : contains "_" s = false → digits_int acc b s = Some z →
  forallb is_digit s = true ∧ (b = true ∨ s ≠ []) ∧ z = foldl (λ n c, 10 * n + Z.of_nat (ord c - 48))%Z acc s.
Proof.
  revert acc b. induction s as [|c s IH]; intros acc b Hu Hd; simpl in *.
  - destruct b; [|done]. injection Hd as ->. split_and!; [done|by left|done].
  - apply orb_false_iff in Hu as [Hc Hu]. rewrite Hc in Hd. destruct (is_digit c); [|done].
    destruct (IH _ _ Hu Hd) as (-> & _ & ->). split_and!; [done|by right|done].
Qed.

Lemma kea_reads_plain s n : plain_integer s = true → int_of_str s = Some n → kea_integer s = Some n.
Proof.
  unfold plain_integer, int_of_str. rewrite !andb_true_iff, !negb_true_iff. intros [[Hu Hp] Hb] Hs.
  rewrite strip_none in Hs by (by apply (forallb_impl (λ c, negb (is_space c))), Hb).
  assert (Hnat : ∀ d z, contains "_" d = false → digits_int 0 false d = Some z →
    (if forallb is_digit d && negb (bool_decide (d = [])) then Some (decimal d) else None) = Some z).
  { intros d z Hd Hz. destruct (plain_digits _ _ _ _ Hd Hz) as (-> & [?|Hn] & ->); [done|]. by rewrite bool_decide_false. }
  destruct s as [|c s]; [done|]. unfold kea_integer. simpl in Hu. pose proof Hu as [_ Hu']%orb_false_iff.
  destruct (chr_is "-" c) eqn:Em.
  - apply chr_is_true in Em as ->. apply fmap_Some in Hs as (z & Hz & ->). simpl. by rewrite (Hnat s z).
  - assert (chr_is "+" c = false) as Hplus by (simpl in Hp; by apply orb_false_iff in Hp as [? _]). rewrite Hplus in Hs.
    transitivity (if forallb is_digit (c :: s) && negb (bool_decide (c :: s = [])) then Some (decimal (c :: s)) else None);
      [|by apply Hnat]. apply chr_is_false in Em. by destruct c as [[] [] [] [] [] [] [] []].
Qed.

Lemma check_ip_Ok v x : check_ip v x = Ok tt ↔ ∃ s a, x = JStr s ∧ ip_address (strip is_space s) = Some a ∧ ip_version a = v.
Proof.
  split.
  - destruct x as [| | | |s| | |]; simpl; try done. destruct (ip_address _) as [a|] eqn:E; [|done].
    intros Hv%raise_if_Ok. bool_hyps. by exists s, a.
  - intros (s & a & -> & Ha & <-). simpl. rewrite Ha. by rewrite bool_decide_true.
Qed.

Lemma check_ip_list_Ok v x : _check_ip_list v x = Ok tt ↔
  _items x ≠ [] ∧ ∀ y, y ∈ _items x → ∃ s a, y = JStr s ∧ ip_address (strip is_space s) = Some a ∧ ip_version a = v.
Proof.
  unfold _check_ip_list. destruct (_items x) as [|y l]; [by split; [|intros [? _]]|].
  rewrite bool_decide_false by done. rewrite check_all_Ok. setoid_rewrite check_ip_Ok. split; [done|]. by intros [_ ?].
Qed.

Lemma strip_sub s c : c ∈ strip is_space s → c ∈ s.
Proof.
  intros Hc. destruct (strip_split is_space s) as (l & r & Hs & _). rewrite Hs. apply elem_of_app. right.
  apply elem_of_app. by left.
Qed.

Lemma elem_join sep w ws c : w ∈ ws → c ∈ w → c ∈ join sep ws.
Proof.
  intros Hw Hc. induction ws as [|w' ws IH]; [by apply elem_of_nil in Hw|].
  destruct ws as [|w'' ws]; [by apply list_elem_of_singleton in Hw as ->|].
  change (join sep (w' :: w'' :: ws)) with (w' ++ sep ++ join sep (w'' :: ws)). rewrite !elem_of_app.
  apply elem_of_cons in Hw as [->|Hw]; [by left|]. right. right. by apply IH.
Qed.

(** Texts without commas, joined and split again. *)
Lemma comma_parts_joined ws : Forall (λ w, contains "," w = false ∧ strip is_space w ≠ []) ws →
  comma_parts (join ", " ws) = map (strip is_space) ws.
Proof.
  assert (Hone : ∀ w, contains "," w = false → strip is_space w ≠ [] → comma_parts w = [strip is_space w]).
  { intros w Hw Hn. rewrite comma_parts_no_comma by done. by rewrite bool_decide_false. }
  induction 1 as [|w ws [Hw Hn] Hws IH]; [done|]. destruct ws as [|w' ws]; [by apply Hone|].
  change (join ", " (w :: w' :: ws)) with (w ++ ","%char :: " "%char :: join ", " (w' :: ws)).
  by rewrite comma_parts_app, comma_parts_blank, IH, Hone.
Qed.

Lemma strip_no_comma s : contains "," (strip is_space s) = false → contains "," s = false.
Proof. rewrite !contains_false. intros Hn Hc. apply Hn. by apply elem_strip. Qed.

Lemma address_no_comma s a : ip_address (strip is_space s) = Some a → scope_id a = None →
  contains "," s = false ∧ strip is_space s ≠ [].
Proof.
  intros Ha Hs. destruct (ip_address_chars _ _ Ha Hs) as [Hc Hn]. split; [|done]. apply strip_no_comma.
  apply existsb_none. intros c Hin. by apply (forallb_elem _ _ _ Hc), addr_char_plain in Hin as (_ & ? & _).
Qed.

(** An unscoped address, or one of a text without the scope sign. *)
Lemma unscoped s a : ip_address s = Some a → contains "%" s = false → scope_id a = None.
Proof.
  unfold ip_address. destruct (parse_v4 s) as [n|]; [by intros [= <-]|]. intros ([n sc] & Hp & [= <-])%bind_Some Hn.
  unfold parse_v6 in Hp. destruct (contains "/" s); [done|]. apply bind_Some in Hp as ([b sc'] & Hs & Hp). apply bind_Some in Hp as (m & _ & Hp). injection Hp as _ <-.
  unfold split_scope_id in Hs. rewrite (split_no_sep "%") in Hs by done. by injection Hs.
Qed.

(** The parts of a list's text are its trimmed items. *)
Lemma list_parts v : _items v ≠ [] →
  (∀ x, x ∈ _items v → ∃ s, x = JStr s ∧ (∀ l, v = JArr l → contains "," s = false ∧ strip is_space s ≠ [])) →
  comma_parts (data_text v) ≠ [] ∧
  ∀ p, p ∈ comma_parts (data_text v) → ∃ s, JStr s ∈ _items v ∧ p = strip is_space s.
Proof.
  intros Hne Hall. destruct v as [|b|z|t|s|l|kvs|t];
    try (destruct (Hall _ (list_elem_of_here _ _)) as (? & ? & _); done).
  - simpl in *. split; [by intros E; rewrite E in Hne|]. intros p Hp. exists p.
    split; [by apply list_elem_of_fmap_2' with (x := p)|]. by destruct (comma_parts_elem s p Hp) as (-> & _).
  - cbn [_items data_text] in *.
    assert (∃ ss, l = map JStr ss ∧ Forall (λ s, contains "," s = false ∧ strip is_space s ≠ []) ss) as (ss & -> & Hss).
    { assert (∀ x, x ∈ l → ∃ s, x = JStr s ∧ contains "," s = false ∧ strip is_space s ≠ []) as Hx
        by (intros x Hx; destruct (Hall x Hx) as (s & ? & Hs); exists s; split; [done|by apply (Hs l)]).
      clear Hne Hall. induction l as [|x l IH]; [by exists []|]. destruct (Hx x) as (s & -> & Hs); [by left|].
      destruct IH as (ss & -> & Hss); [intros y Hy; apply Hx; by right|].
      exists (s :: ss). split; [done|]. by constructor. }
    assert (map py_str (map JStr ss) = ss) as -> by (rewrite map_map; apply map_id).
    rewrite comma_parts_joined by done. split; [by destruct ss|].
    intros p (s & -> & Hs)%list_elem_of_fmap. exists s. split; [|done]. by apply list_elem_of_fmap_2' with (x := s).
Qed.

Lemma address_list_typed ver v : _items v ≠ [] →
  (∀ y, y ∈ _items v → ∃ s a, y = JStr s ∧ ip_address (strip is_space s) = Some a ∧ ip_version a = ver) →
  (ver = V6 → contains "%" (data_text v) = false) → well_typed idna_encode (IpList ver) (data_text v).
Proof.
  intros Hne Hall H6. destruct (list_parts v Hne) as [Hp Hparts].
  - intros x Hx. destruct (Hall x Hx) as (s & a & -> & Ha & Hv). exists s. split; [done|]. intros l ->.
    apply (address_no_comma s a Ha). destruct ver; [by eapply ip_address_v4_unscoped|].
    eapply unscoped; [done|]. specialize (H6 eq_refl). apply contains_false. intros Hc. apply contains_false in H6. apply H6.
    simpl in Hx |- *. apply (elem_join _ (py_str (JStr s))); [by apply list_elem_of_fmap_2' with (x := JStr s)|].
    by apply (strip_sub s).
  - split; [done|]. intros p Hpp. destruct (Hparts p Hpp) as (s & Hs & ->). destruct (Hall _ Hs) as (s' & a & [= <-] & Ha & Hv).
    by exists a.
Qed.

Lemma domain_list_typed v : _items v ≠ [] → (∀ x, x ∈ _items v → ∃ s r, x = JStr s ∧ fqdn idna_encode s = Ok r) →
  well_typed idna_encode FqdnList (data_text v).
Proof.
  intros Hne Hall. destruct (list_parts v Hne) as [Hp Hparts].
  - intros x Hx. destruct (Hall x Hx) as (s & r & -> & Hr). exists s. split; [done|]. intros l _.
    split; [by eapply fqdn_no_comma|]. pose proof (fqdn_blank _ _ _ Hr) as Hb. by bool_hyps.
  - split; [done|]. intros p Hpp. destruct (Hparts p Hpp) as (s & Hs & ->). destruct (Hall _ Hs) as (s' & r & [= <-] & Hr).
    exists r. by rewrite fqdn_strip.
Qed.

Lemma data_typed c v : run_check idna_encode c v = Ok tt →
  (c = IpList V6 → contains "%" (data_text v) = false) →
  (∀ low high, c = Integer low high → plain_integer (data_text v) = true) → well_typed idna_encode c (data_text v).
Proof.
  destruct c as [ver| | |low high| | |]; cbn [run_check well_typed]; intros Hc H6 Hi.
  - apply check_ip_list_Ok in Hc as [Hne Hall]. apply address_list_typed; [done|done|]. by intros ->; apply H6.
  - unfold _ipv4 in Hc. apply bind_Ok in Hc as (x & Hx & [_ Hc]%check_ip_list_Ok). rewrite (scalar_text v x Hx).
    destruct (Hc x) as (s & a & -> & Ha & Hv); [by left|]. by exists a.
  - unfold _string in Hc. apply bind_Ok in Hc as (x & Hx & Hc). rewrite (scalar_text v x Hx).
    destruct x; try done; case_bool_decide; try done; apply raise_if_Ok in Hc; done.
  - unfold _integer in Hc. apply bind_Ok in Hc as (x & Hx & Hc). rewrite (scalar_text v x Hx).
    rewrite int_of_str_strip in Hc.
    assert (∃ n, int_of_str (py_str x) = Some n ∧
      raise_if (negb ((low <=? n)%Z && (n <=? high)%Z)) (OutOfRange n low high) = Ok tt) as (n & Hn & Hr).
    { destruct x; try done; (destruct (int_of_str (py_str _)) as [n|]; [by exists n|done]). }
    apply raise_if_Ok in Hr. exists n. bool_hyps. split; [|lia]. apply kea_reads_plain; [|done].
    rewrite <- (scalar_text v x Hx). by eapply Hi.
  - apply (check_Fqdn_Ok idna_encode) in Hc as (s & r & Hs & Hr). rewrite (scalar_text v _ Hs). by exists r.
  - apply (check_FqdnList_Ok idna_encode) in Hc as [Hne Hall]. by apply domain_list_typed.
  - unfold _hex in Hc. apply bind_Ok in Hc as (x & Hx & Hc). rewrite (scalar_text v x Hx).
    destruct x as [| | | |s| | |]; try done. case_bool_decide; [done|]. destruct (forallb hex_char s) eqn:E; [|done].
    apply raise_if_Ok in Hc. split_and!; [done..|]. cbn [py_str]. by rewrite <- Nat.negb_odd, Hc.
Qed.
End typing.

(** ** Two dicts, joined on their keys *)
Section join.
Context {A B C : Type} (f : str → B → A → option C).

Definition left_join (t : list (str * B)) (d : list (str * A)) : list C :=
  omap (λ '(k, n), v ← dget k d; f k n v) t.
Definition right_join (t : list (str * B)) (d : list (str * A)) : list C :=
  omap (λ '(k, v), n ← dget k t; f k n v) d.

Lemma omap_ext {X Y} (g h : X → option Y) (l : list X) : (∀ x, x ∈ l → g x = h x) → omap g l = omap h l.
Proof.
  intros Hgh. induction l as [|x l IH]; [done|]. simpl. rewrite (Hgh x) by constructor.
  assert (omap g l = omap h l) as El by (apply IH; intros y Hy; apply Hgh; by constructor).
  destruct (h x); [by f_equal|done].
Qed.

Lemma join_perm t d : NoDup (map fst t) → NoDup (map fst d) → left_join t d ≡ₚ right_join t d.
Proof.
  intros Ht. induction d as [|[k v] d IH]; intros Hd.
  { unfold left_join. by induction t as [|[k n] t IHt]; [|simpl; apply IHt; inversion Ht]. }
  simpl in Hd. apply NoDup_cons in Hd as [Hk Hd]. specialize (IH Hd).
  assert (∀ t', k ∉ map fst t' → left_join t' ((k, v) :: d) = left_join t' d) as Hskip.
  { intros t' Hn. apply omap_ext. intros [k' n] Hin. simpl. rewrite bool_decide_false; [done|]. intros ->.
    apply Hn. by apply list_elem_of_fmap_2' with (x := (k, n)). }
  unfold right_join. simpl. destruct (dget k t) as [n|] eqn:E; simpl.
  - apply dget_elem, list_elem_of_split in E as (t1 & t2 & ->).
    rewrite map_app in Ht. simpl in Ht. apply NoDup_app in Ht as (H1 & Hn & [H2 H3]%NoDup_cons).
    assert (k ∉ map fst t1) as Hn1 by (intros Hin; apply (Hn k Hin); constructor).
    unfold left_join in *. rewrite omap_app in *. cbn [omap list_omap] in *. simpl.
    fold (left_join t1 ((k, v) :: d)) (left_join t2 ((k, v) :: d)).
    rewrite bool_decide_true by done. simpl. apply dget_None in Hk. rewrite Hk in IH. simpl in IH.
    rewrite !Hskip by done. unfold right_join in IH. fold (left_join t1 d) (left_join t2 d) in IH.
    destruct (f k n v) as [c|]; [|done]. rewrite <- Permutation_middle. by constructor.
  - rewrite Hskip; [done|]. by apply dget_None.
Qed.
End join.

Lemma omap_either {X Y} (g h : X → option Y) (l : list X) :
  (∀ x, x ∈ l → g x = None ∨ h x = None) →
  omap (λ x, match g x with Some y => Some y | None => h x end) l ≡ₚ omap g l ++ omap h l.
Proof.
  induction l as [|x l IH]; intros Hl; [done|]. simpl.
  specialize (IH (λ y Hy, Hl y (list_elem_of_further _ _ _ Hy))).
  destruct (Hl x) as [E|E]; [by constructor| |]; rewrite E.
  - destruct (h x); [|done]. rewrite <- Permutation_middle. by constructor.
  - destruct (g x); [|done]. simpl. by constructor.
Qed.

(** ** What the agent renders of a mapping the check accepts *)

(** The entry of one option. *)
Definition expected_entry (item : str * json) : option json :=
  match dget (fst item) _KEA_OPTION_NAMES_V4 with
  | Some kea_name => if _is_unset (snd item) then None else Some (_opt kea_name (snd item))
  | None => code_entry item
  end.

Lemma names_NoDup : NoDup (map fst _KEA_OPTION_NAMES_V4).
Proof. apply (bool_decide_unpack _). by vm_compute. Qed.

(** The renderer's names are the names of the check's table. *)
Lemma names_table k : is_Some (dget k _KEA_OPTION_NAMES_V4) ↔ is_Some (dget k (table V4)).
Proof.
  rewrite <- !dmem_true. unfold dmem. rewrite !bool_decide_eq_true. simpl. rewrite !elem_of_cons. tauto.
Qed.

Lemma alias_not_name k : k ∈ map fst _LEGACY_OPTION_ALIASES_V4 → dget k (table V4) = None.
Proof.
  intros Hk. simpl in Hk. repeat (apply elem_of_cons in Hk as [->|Hk]; [by vm_compute|]). by apply elem_of_nil in Hk.
Qed.

Lemma alias_not_code k : k ∈ map fst _LEGACY_OPTION_ALIASES_V4 → _RAW_CODE k = None.
Proof.
  intros Hk. simpl in Hk. repeat (apply elem_of_cons in Hk as [->|Hk]; [by vm_compute|]). by apply elem_of_nil in Hk.
Qed.

Section rendering.
Context `{PyFloat}.
Context (idna_encode : str → option str).

(** A mapping with distinct keys that passes the write check of a Kea group. *)
Definition valid (f : family) (opts : options) : Prop :=
  NoDup (map fst opts) ∧ validate_options idna_encode f None RAW_CODES_KEA opts = Ok tt.

Lemma valid_accepted f opts k v : valid f opts → (k, v) ∈ opts → accepted idna_encode f RAW_CODES_KEA k v.
Proof. intros [_ Hv]. rewrite validate_None in Hv. apply Hv. Qed.

(** A key of a valid mapping is a name of a table or a deliverable code. *)
Lemma valid_key f opts k : valid f opts → is_Some (dget k opts) →
  (∃ fam, fam ∈ families f ∧ is_Some (dget k (table fam))) ∨
  (∃ d kind, f ≠ Ipv6Family ∧ _RAW_CODE k = Some d ∧ zget (int_digits d) _KEA_VENDOR_OPTION_DEFS = Some kind).
Proof.
  intros Hv [v Hk%dget_elem]. destruct (valid_accepted _ _ _ _ Hv Hk) as [d kind Hd ? ? Hz|d ? ? ?|fam c ? Hc]; [|done|].
  - right. by exists d, kind.
  - left. exists fam. by rewrite Hc.
Qed.

Lemma raw_not_name v k d : _RAW_CODE k = Some d → dget k (table v) = None.
Proof.
  intros Hd. destruct (dget k (table v)) as [c|] eqn:E; [|done]. destruct (table_name _ _ _ E) as (_ & Hn & _). congruence.
Qed.

Lemma canonicalize_valid opts : valid Ipv4Family opts →
  _canonicalize_v4 opts = List.filter (λ '(k, _), dmem k _KEA_OPTION_NAMES_V4) opts.
Proof.
  intros Hv. unfold _canonicalize_v4. set (out := List.filter _ opts). clearbody out.
  assert (∀ a, a ∈ map fst _LEGACY_OPTION_ALIASES_V4 → dget a opts = None) as Ha.
  { intros a Ha. destruct (dget a opts) eqn:E; [|done].
    destruct (valid_key _ _ a Hv) as [(fam & Hf & Hs)|(d & kind & _ & Hd & _)]; [by rewrite E| |].
    - apply list_elem_of_singleton in Hf as ->. rewrite alias_not_name in Hs by done. by destruct Hs.
    - by rewrite alias_not_code in Hd. }
  revert Ha. generalize _LEGACY_OPTION_ALIASES_V4 as l. induction l as [|[a c] l IH]; intros Ha; [done|].
  cbn [foldl]. rewrite Ha by constructor. apply IH. intros a' Ha'. apply Ha. by constructor.
Qed.

Lemma dget_filter (p : str → bool) k (d : options) : p k = true → dget k (List.filter (λ '(k, _), p k) d) = dget k d.
Proof.
  intros Hp. induction d as [|[k' v] d IH]; [done|]. simpl. destruct (p k') eqn:E; simpl.
  - by rewrite IH.
  - rewrite bool_decide_false; [done|]. intros ->. congruence.
Qed.

Lemma code_entry_raw k v d : _RAW_CODE k = Some d →
  code_entry (k, v) = Some (JObj [("code" : str, JInt (int_digits d)); ("data", JStr (data_text v))]).
Proof.
  intros (-> & Hd & Hf)%after_prefix_Some. unfold code_entry. rewrite (startswith_prefix "code:").
  change (drop 5 ("code:" ++ d)) with d. unfold int_digits.
  destruct (int_of_str d) as [n|] eqn:E; [done|]. by destruct (digits_int_of_str d).
Qed.

Lemma code_entry_name k v c : dget k (table V4) = Some c → code_entry (k, v) = None.
Proof.
  intros Hc. assert (k ∈ map fst (table V4)) as Hk.
  { apply list_elem_of_fmap_2' with (x := (k, c)); [by apply dget_elem|done]. }
  simpl in Hk. repeat (apply elem_of_cons in Hk as [->|Hk]; [by vm_compute|]). by apply elem_of_nil in Hk.
Qed.

(** The agent's list is, up to order, one entry for each option that is set. *)
Lemma render_valid opts : valid Ipv4Family opts → _options_from_mapping opts ≡ₚ omap expected_entry opts.
Proof.
  intros Hv. unfold _options_from_mapping.
  assert (raw_entries opts = []) as ->.
  { unfold raw_entries. destruct (dget "option_data" opts) eqn:E; [|done].
    destruct (valid_key _ _ "option_data" Hv) as [(fam & Hf & Hs)|(d & kind & _ & Hd & _)]; [by rewrite E| |done].
    apply list_elem_of_singleton in Hf as ->. by destruct Hs. }
  rewrite app_nil_r, canonicalize_valid by done.
  set (g := λ (_ : str) (n : str) (v : json), if _is_unset v then None else Some (_opt n v)).
  assert (omap (named_entry (List.filter (λ '(k, _), dmem k _KEA_OPTION_NAMES_V4) opts)) _KEA_OPTION_NAMES_V4
          = left_join g _KEA_OPTION_NAMES_V4 opts) as ->.
  { apply omap_ext. intros [k n] Hin. unfold named_entry, field. cbn [fst snd].
    rewrite (dget_filter (λ k, dmem k _KEA_OPTION_NAMES_V4)).
    - by destruct (dget k opts).
    - apply dmem_true. rewrite (dget_NoDup k _ n names_NoDup Hin). done. }
  rewrite (join_perm g _ _ names_NoDup (proj1 Hv)). unfold right_join. rewrite <- omap_either.
  - apply reflexive_eq, omap_ext. intros [k v] Hin. unfold expected_entry. cbn [fst snd].
    destruct (dget k _KEA_OPTION_NAMES_V4) as [n|] eqn:E; [|done]. unfold g. simpl.
    destruct (_is_unset v); [|done].
    destruct (proj1 (names_table k)) as [c Hc]; [by rewrite E|]. by eapply code_entry_name.
  - intros [k v] Hin. destruct (dget k _KEA_OPTION_NAMES_V4) as [n|] eqn:E; [|by left].
    right. destruct (proj1 (names_table k)) as [c Hc]; [by rewrite E|]. by eapply code_entry_name.
Qed.

(** Every set option has an entry, and its text is of the option's type. *)
Lemma expected_valid opts k v : valid Ipv4Family opts → (k, v) ∈ opts → _is_unset v = false →
  (∃ n, dget k _KEA_OPTION_NAMES_V4 = Some n ∧ expected_entry (k, v) = Some (_opt n v)) ∨
  (∃ d, _RAW_CODE k = Some d ∧
     expected_entry (k, v) = Some (JObj [("code" : str, JInt (int_digits d)); ("data", JStr (data_text v))])).
Proof.
  intros Hv Hin Hu. unfold expected_entry. cbn [fst snd]. rewrite Hu.
  destruct (valid_accepted _ _ _ _ Hv Hin) as [d kind Hd|d ? ? ?|fam c Hf Hc]; [|done|].
  - right. exists d. split; [done|]. destruct (dget k _KEA_OPTION_NAMES_V4) eqn:E; [|by apply code_entry_raw].
    destruct (proj1 (names_table k)) as [c Hc]; [by rewrite E|]. by rewrite (raw_not_name _ _ _ Hd) in Hc.
  - left. apply list_elem_of_singleton in Hf as ->. destruct (proj2 (names_table k)) as [n Hn]; [by rewrite Hc|].
    exists n. by rewrite Hn.
Qed.
End rendering.

(** ** Documents without undefined codes *)
Section documents.
Context (codes : list Z).
Abbreviation strip_doc := (_strip_undefined_code_options codes).

Lemma filter_mjoin {A} (p : A → bool) (ls : list (list A)) : List.filter p (mjoin ls) = mjoin (map (List.filter p) ls).
Proof. induction ls as [|l ls IH]; [done|]. simpl. by rewrite List.filter_app, IH. Qed.

(** Exactly the entries whose code is undefined are gone. *)
Lemma strip_entries node : option_entries (strip_doc node) = List.filter (entry_defined codes) (option_entries node).
Proof.
  induction node as [| | | | | |l IH|kvs IH] using json_nested_ind; try done; simpl.
  - rewrite filter_mjoin, !map_map. f_equal. rewrite Forall_forall in IH. apply map_ext_in. intros x Hx%list_elem_of_In. by apply IH.
  - rewrite filter_mjoin, !map_map. f_equal. rewrite Forall_forall in IH. apply map_ext_in. intros [k v] Hx%list_elem_of_In.
    specialize (IH (k, v) Hx). simpl in IH. destruct v; try exact IH. destruct (is_option_data k) eqn:Ek; [by rewrite ?Ek|].
    simpl. simpl in IH. exact IH.
Qed.

Lemma strip_doc_id node : (∀ e, e ∈ option_entries node → entry_defined codes e = true) → strip_doc node = node.
Proof.
  induction node as [| | | | | |l IH|kvs IH] using json_nested_ind; try done; simpl; intros Hd; f_equal.
  - rewrite <- (map_id l) at 2. apply map_ext_in. intros x Hx%list_elem_of_In. rewrite Forall_forall in IH. apply IH; [done|].
    intros e He. apply Hd. apply list_elem_of_join. exists (option_entries x). split; [done|]. by apply list_elem_of_fmap_2' with (x := x).
  - rewrite <- (map_id kvs) at 2. apply map_ext_in. intros [k v] Hx%list_elem_of_In. f_equal.
    rewrite Forall_forall in IH. specialize (IH (k, v) Hx). simpl in IH.
    assert (∀ e, e ∈ (match v with JArr l => if is_option_data k then l else option_entries v | _ => option_entries v end) →
      entry_defined codes e = true) as He.
    { intros e He. apply Hd. apply list_elem_of_join. eexists. split; [exact He|].
      by apply list_elem_of_fmap_2' with (x := (k, v)). }
    destruct v; try (by apply IH). destruct (is_option_data k); [|by apply IH].
    f_equal. apply filter_all, forallb_elem_iff. exact He.
Qed.
End documents.

Section definitions.
Context `{PyFloat}.

Definition codes_of (defs : list json) : list Z := omap int_code (map def_code defs).

Lemma add_defs_obj defs d l : is_obj d = true → add_defs defs (map def_code defs) (d :: l) =
  if existsb (py_eq float_is (def_code d)) (map def_code defs) then add_defs defs (map def_code defs) l
  else add_defs (defs ++ [d]) (map def_code (defs ++ [d])) l.
Proof. destruct d; try done. intros _. by rewrite map_app. Qed.

Lemma add_defs_skip defs seen d l : is_obj d = false → add_defs defs seen (d :: l) = add_defs defs seen l.
Proof. by destruct d. Qed.

Lemma add_defs_seen defs l : snd (add_defs defs (map def_code defs) l) = map def_code (fst (add_defs defs (map def_code defs) l)).
Proof.
  revert defs. induction l as [|d l IH]; intros defs; [done|]. destruct (is_obj d) eqn:Eo.
  - rewrite add_defs_obj by done. destruct (existsb _ _); apply IH.
  - rewrite add_defs_skip by done. apply IH.
Qed.

Lemma int_code_eq v w c : int_code v = Some c → int_code w = Some c → py_eq float_is v w = true.
Proof. by destruct v, w; simpl; intros [= <-] [= ->]; simpl; apply Z.eqb_refl. Qed.

Lemma py_eq_int_code v w : is_Some (int_code v) → is_Some (int_code w) → py_eq float_is v w = true → int_code v = int_code w.
Proof. by destruct v, w; simpl; intros [? ?] [? ?]; try done; intros ->%Z.eqb_eq. Qed.

Lemma codes_of_app l l' : codes_of (l ++ l') = codes_of l ++ codes_of l'.
Proof. unfold codes_of. by rewrite map_app, omap_app. Qed.

(** No two definitions for one code. *)
Lemma add_defs_NoDup defs l : NoDup (codes_of defs) → NoDup (codes_of (fst (add_defs defs (map def_code defs) l))).
Proof.
  revert defs. induction l as [|d l IH]; intros defs Hd; [done|].
  destruct (is_obj d) eqn:Eo; [rewrite add_defs_obj by done|rewrite add_defs_skip by done; by apply IH].
  destruct (existsb _ _) eqn:E; [by apply IH|]. apply IH. rewrite codes_of_app. apply NoDup_app. split_and!; [done| |].
  - intros c (x & Hx & Hc)%list_elem_of_omap Hc'. rewrite existsb_none in E. specialize (E x Hx).
    unfold codes_of in Hc'. apply list_elem_of_omap in Hc' as (y & ->%list_elem_of_singleton & Hy).
    by rewrite (int_code_eq _ _ c Hy Hc) in E.
  - unfold codes_of. cbn. destruct (int_code (def_code d)); [apply NoDup_singleton|constructor].
Qed.

(** Every definition's code is there afterwards. *)
Definition has_code (d : json) : Prop := is_obj d = true ∧ is_Some (int_code (def_code d)).

Lemma add_defs_codes defs l c : Forall has_code defs → Forall has_code l →
  c ∈ codes_of defs ++ codes_of l → c ∈ codes_of (fst (add_defs defs (map def_code defs) l)).
Proof.
  revert defs. induction l as [|d l IH]; intros defs Hd Hl Hc; [by rewrite app_nil_r in Hc|].
  apply Forall_cons in Hl as [[Ho Hi] Hl]. rewrite add_defs_obj by done.
  change (codes_of (d :: l)) with (codes_of ([d] ++ l)) in Hc. rewrite codes_of_app in Hc.
  destruct (existsb _ _) eqn:E.
  - apply IH; [done..|]. rewrite !elem_of_app in *. destruct Hc as [Hc|[Hc|Hc]]; [by left| |by right]. left.
    apply existsb_elem in E as (x & Hx & Ex). apply list_elem_of_omap in Hc as (y & ->%list_elem_of_singleton & Hy).
    apply list_elem_of_omap. exists x. split; [done|]. rewrite <- Hy. symmetry. apply py_eq_int_code; [done| |done].
    apply list_elem_of_fmap in Hx as (d' & -> & Hx). rewrite Forall_forall in Hd. by apply Hd.
  - apply IH; [apply Forall_app; split; [done|by constructor]|done|]. by rewrite codes_of_app, <- app_assoc.
Qed.

Lemma add_defs_has_code defs l : Forall has_code defs → Forall has_code l → Forall has_code (fst (add_defs defs (map def_code defs) l)).
Proof.
  revert defs. induction l as [|d l IH]; intros defs Hd Hl; [done|]. apply Forall_cons in Hl as [Hh Hl].
  rewrite add_defs_obj by apply Hh. destruct (existsb _ _); [by apply IH|].
  apply IH; [|done]. apply Forall_app. split; [done|by constructor].
Qed.

Lemma own_defs_has_code (p : str → bool) : Forall has_code (map snd (List.filter (λ '(n, _), p n) _OPTION_DEFS_V4)).
Proof. unfold _OPTION_DEFS_V4. cbn [List.filter]. destruct (p _); repeat constructor; by eexists. Qed.

Lemma vendor_defs_has_code l : Forall has_code (map vendor_def l).
Proof. induction l as [|[c k] l IH]; constructor; [|done]. split; [done|by eexists]. Qed.

Lemma vendor_codes l : codes_of (map vendor_def l) = map fst l.
Proof. induction l as [|[c k] l IH]; [done|]. change (c :: codes_of (map vendor_def l) = c :: map fst l). by rewrite IH. Qed.

Lemma add_defs_incl defs l d : d ∈ defs → d ∈ fst (add_defs defs (map def_code defs) l).
Proof.
  revert defs. induction l as [|d' l IH]; intros defs Hd; [done|].
  destruct (is_obj d') eqn:Eo; [rewrite add_defs_obj by done|rewrite add_defs_skip by done; by apply IH].
  destruct (existsb _ _); apply IH; [done|]. apply elem_of_app. by left.
Qed.

(** The bundle defines every deliverable code of its mappings. *)
Lemma bundle_codes maps m c kind : m ∈ maps → c ∈ map_codes m → zget c _KEA_VENDOR_OPTION_DEFS = Some kind →
  c ∈ codes_of (option_defs_for_option_maps maps).
Proof.
  intros Hm Hc Hk. unfold option_defs_for_option_maps, _dedupe_defs_by_code. apply add_defs_codes.
  - apply (own_defs_has_code (λ n, bool_decide (n ∈ _))).
  - apply vendor_defs_has_code.
  - apply elem_of_app. right. rewrite vendor_codes. apply list_elem_of_fmap_2' with (x := (c, kind)); [|done].
    apply elem_filter. split; [by apply zget_elem|]. apply bool_decide_eq_true, list_elem_of_join.
    exists (map_codes m). split; [done|]. by apply list_elem_of_fmap_2' with (x := m).
Qed.

Lemma bundle_has_code maps : Forall has_code (option_defs_for_option_maps maps).
Proof.
  apply add_defs_has_code; [apply (own_defs_has_code (λ n, bool_decide (n ∈ _)))|apply vendor_defs_has_code].
Qed.
End definitions.

(** ** Both daemons *)
Definition rendered (v : version) (opts : options) : list json :=
  match v with V4 => _options_from_mapping opts | V6 => _options_from_mapping_v6 opts end.

Definition expected_entry_v6 (item : str * json) : option json :=
  kea_name ← dget (fst item) _KEA_OPTION_NAMES_V6;
  if _is_unset (snd item) then None
  else Some (JObj [("name" : str, JStr kea_name); ("data", JStr (data_text (snd item)))]).

Definition expected (v : version) : str * json → option json :=
  match v with V4 => expected_entry | V6 => expected_entry_v6 end.

(** The text an entry gives Kea. *)
Definition entry_text (entry : json) : option str :=
  match entry with JObj kvs => match field "data" kvs with JStr s => Some s | _ => None end | _ => None end.

Section families.
Context `{PyFloat}.
Context (idna_encode : str → option str).
Abbreviation valid := (valid idna_encode).

Lemma names_NoDup_v6 : NoDup (map fst _KEA_OPTION_NAMES_V6).
Proof. apply (bool_decide_unpack _). by vm_compute. Qed.

Lemma names_table_v6 k : is_Some (dget k _KEA_OPTION_NAMES_V6) ↔ is_Some (dget k (table V6)).
Proof. rewrite <- !dmem_true. unfold dmem. rewrite !bool_decide_eq_true. simpl. rewrite !elem_of_cons. tauto. Qed.

Lemma not_v6_key opts k : valid Ipv6Family opts → dget k (table V6) = None → dget k opts = None.
Proof.
  intros Hv Hk. destruct (dget k opts) eqn:E; [|done].
  destruct (valid_key _ _ _ k Hv) as [(fam & Hf & Hs)|(d & kind & Hn & _)]; [by rewrite E| |done].
  apply list_elem_of_singleton in Hf as ->. rewrite Hk in Hs. by destruct Hs.
Qed.

Lemma render_valid_v6 opts : valid Ipv6Family opts → _options_from_mapping_v6 opts ≡ₚ omap expected_entry_v6 opts.
Proof.
  intros Hv.
  assert (∀ a b, dget a (table V6) = None → get_or a b opts = field b opts) as Ha.
  { intros a b Hab. unfold get_or. unfold field at 1 2. by rewrite (not_v6_key opts a Hv Hab). }
  unfold _options_from_mapping_v6. rewrite !Ha by done.
  assert (raw_entries opts = []) as -> by (unfold raw_entries; by rewrite (not_v6_key opts "option_data" Hv)).
  rewrite app_nil_r.
  set (g := λ (_ : str) (n : str) (v : json), if _is_unset v then None
            else Some (JObj [("name" : str, JStr n); ("data", JStr (data_text v))])).
  transitivity (left_join g _KEA_OPTION_NAMES_V6 opts).
  - apply reflexive_eq. unfold left_join, _KEA_OPTION_NAMES_V6, put_v6, field. cbn [omap list_omap].
    destruct (dget "dns-servers" opts) as [v1|], (dget "domain-search" opts) as [v2|], (dget "ntp-servers" opts) as [v3|],
      (dget "bootfile-name" opts) as [v4|]; simpl; unfold g; repeat case_match; reflexivity.
  - rewrite (join_perm g _ _ names_NoDup_v6 (proj1 Hv)). apply reflexive_eq, omap_ext. intros [k v] Hin. done.
Qed.

Lemma render_family v opts : valid (single v) opts → rendered v opts ≡ₚ omap (expected v) opts.
Proof. destruct v; [by apply render_valid|by apply render_valid_v6]. Qed.

(** A set option of a valid mapping: its entry, its type and its check. *)
Lemma expected_family v opts k val : valid (single v) opts → (k, val) ∈ opts → _is_unset val = false →
  ∃ entry c, expected v (k, val) = Some entry ∧ entry_text entry = Some (data_text val) ∧
    option_type v k = Some c ∧ run_check idna_encode c val = Ok tt.
Proof.
  intros Hv Hin Hu. assert (accepted idna_encode (single v) RAW_CODES_KEA k val) as Hacc by (by eapply valid_accepted).
  destruct v.
  - assert (∃ entry, expected V4 (k, val) = Some entry ∧ entry_text entry = Some (data_text val)) as (entry & He & Ht).
    { destruct (expected_valid _ _ _ _ Hv Hin Hu) as [(n & _ & He)|(d & _ & He)]; eexists; split; [exact He|done|exact He|done]. }
    exists entry. unfold option_type.
    destruct Hacc as [d kind Hd _ _ Hz _ Hc|d ? ? ?|fam c Hf Hc Hval]; [|done|].
    + exists (_raw_code_check kind). rewrite (raw_not_name V4 _ _ Hd), Hd. simpl. by rewrite Hz.
    + exists c. apply list_elem_of_singleton in Hf as ->. rewrite Hc. split_and!; [done..|].
      destruct Hval; [congruence|done].
  - destruct Hacc as [d kind ? Hf|d ? Hf ?|fam c Hf Hc Hval]; [done..|]. apply list_elem_of_singleton in Hf as ->.
    destruct (proj2 (names_table_v6 k)) as [n Hn]; [by rewrite Hc|].
    eexists _, c. unfold expected, expected_entry_v6, option_type. cbn [fst snd]. rewrite Hn, Hc. simpl. rewrite Hu.
    split_and!; [done..|]. destruct Hval; [congruence|done].
Qed.
End families.

(** An entry rendered from a valid mapping has a name or a code the bundle
    defines. *)
Section entries.
Context `{PyFloat}.
Context (idna_encode : str → option str).

Definition named_obj (entry : json) : bool :=
  match entry with JObj kvs => truthy (field "name" kvs) | _ => false end.

Lemma opt_named n v : n ≠ [] → named_obj (_opt n v) = true.
Proof. intros Hn. unfold _opt. simpl. by rewrite bool_decide_false. Qed.

Lemma kea_name_ne k n : dget k _KEA_OPTION_NAMES_V4 = Some n → n ≠ [].
Proof.
  intros Hn%dget_elem. simpl in Hn. repeat (apply elem_of_cons in Hn as [Hn|Hn]; [by injection Hn as -> ->|]).
  by apply elem_of_nil in Hn.
Qed.

Lemma rendered_entry m e : valid idna_encode Ipv4Family m → e ∈ _options_from_mapping m → named_obj e = true ∨
  ∃ c kind, c ∈ map_codes m ∧ zget c _KEA_VENDOR_OPTION_DEFS = Some kind ∧
    ∃ t, e = JObj [("code" : str, JInt c); ("data", JStr t)].
Proof.
  intros Hv. rewrite (render_valid idna_encode m Hv). intros ([k v] & Hin & He)%list_elem_of_omap.
  unfold expected_entry in He. cbn [fst snd] in He. destruct (dget k _KEA_OPTION_NAMES_V4) as [n|] eqn:En.
  - destruct (_is_unset v); [done|]. injection He as <-. left. by eapply opt_named, kea_name_ne.
  - right. destruct (valid_accepted _ _ _ _ _ Hv Hin) as [d kind Hd _ _ Hz _ _|d ? ? ?|fam c Hf Hc _]; [|done|].
    + rewrite (code_entry_raw k v d Hd) in He. injection He as <-. exists (int_digits d), kind.
      split_and!; [|done|by eexists]. unfold map_codes. apply list_elem_of_join. exists [int_digits d].
      split; [by constructor|]. apply list_elem_of_fmap. exists (k, v). split; [|done].
      apply after_prefix_Some in Hd as (-> & Hd & Hf). rewrite bool_decide_false by done. rewrite (startswith_prefix "code:").
      change (drop 5 ("code:" ++ d)) with d. unfold int_digits.
      destruct (int_of_str d) eqn:E; [done|]. by destruct (digits_int_of_str d).
    + apply list_elem_of_singleton in Hf as ->. destruct (proj2 (names_table k)) as [n Hn]; [by rewrite Hc|congruence].
Qed.
End entries.

(** ** Properties *)
Section properties.
Context `{PyFloat}.
Variable idna_encode : str → option str.

(** C14 -- What the write check accepts, the agent delivers, and Kea can type it.
    For a mapping the check accepts for a daemon, the renderer emits exactly
    one [option-data] entry per option that has a value and nothing else, so
    no option is dropped in silence; and the text of each entry, read as Kea
    reads it (split at commas and trimmed for a list), is of the option's
    type.  Two conditions bear on what the check lets through in excess of Kea:
    for IPv6 no value holds a scope sign [%] (the check accepts a scoped address,
    whose scope may hold a comma), and the text of an option of an integer type
    has no underscore, plus sign or blank (the check accepts what [int] reads). *)
Theorem validated_options_typed (fam : version) (opts : options)
    (idna_comma : ∀ l a, idna_encode l = Some a → contains "," l = false)
    (Hv : valid idna_encode (single fam) opts)
    (Hscope : fam = V6 → ∀ key value, (key, value) ∈ opts → contains "%" (data_text value) = false)
    (Hplain : ∀ key value low high, (key, value) ∈ opts → option_type fam key = Some (Integer low high) →
       plain_integer (data_text value) = true) :
  rendered fam opts ≡ₚ omap (expected fam) opts ∧
  ∀ key value, (key, value) ∈ opts → _is_unset value = false →
    ∃ entry data c, entry ∈ rendered fam opts ∧ expected fam (key, value) = Some entry ∧
      entry_text entry = Some data ∧ option_type fam key = Some c ∧ well_typed idna_encode c data.
Proof.
  pose proof (render_family idna_encode fam opts Hv) as Hr. split; [done|]. intros k v Hin Hu.
  destruct (expected_family idna_encode fam opts k v Hv Hin Hu) as (entry & c & He & Ht & Hc & Hchk).
  exists entry, (data_text v), c. split_and!; try done.
  - rewrite Hr. apply list_elem_of_omap. by exists (k, v).
  - apply data_typed; [done..| |]; [intros ->|intros low high ->; by eapply Hplain]. destruct fam; [|by eapply Hscope].
    exfalso. unfold option_type in Hc. destruct (dget k (table V4)) eqn:E.
    + injection Hc as ->. apply dget_elem in E. simpl in E.
      repeat (apply elem_of_cons in E as [E|E]; [by injection E|]). by apply elem_of_nil in E.
    + destruct (_RAW_CODE k); [|done]. simpl in Hc. destruct (zget _ _) as [[| |[]]|]; done.
Qed.

(** C15 -- No code without a definition, and no definition twice.  Whatever the
    document and the definitions of the bundle, the end of the agent's render
    removes exactly the entries whose code has no definition (named entries
    stay), defines every name that needs one, and never declares a code
    twice.  When the bundle carries the definitions the control plane
    computes for its mappings, and every entry of the document comes from a
    mapping the write check accepted, nothing is removed at all. *)
Theorem defined_codes_only (bundle_defs : list json) (dhcp4 : json) :
  let '(doc, defs) := define_and_strip bundle_defs dhcp4 in
  option_entries doc = List.filter (entry_defined (codes_of defs)) (option_entries dhcp4) ∧
  NoDup (codes_of defs) ∧
  (∀ n d, (n, d) ∈ _OPTION_DEFS_V4 → Some n ∈ map entry_name_str (option_entries dhcp4) → d ∈ defs) ∧
  (∀ maps, bundle_defs = option_defs_for_option_maps maps →
     (∀ entry, entry ∈ option_entries dhcp4 →
        ∃ m, m ∈ maps ∧ valid idna_encode Ipv4Family m ∧ entry ∈ _options_from_mapping m) →
     doc = dhcp4).
Proof.
  unfold define_and_strip. set (own := _collect_option_defs dhcp4).
  pose proof (add_defs_seen own bundle_defs) as Hs.
  destruct (add_defs own (map def_code own) bundle_defs) as [defs seen] eqn:E. simpl in Hs. rewrite Hs.
  change (omap int_code (map def_code defs)) with (codes_of defs).
  assert (defs = fst (add_defs own (map def_code own) bundle_defs)) as Hdefs by (by rewrite E).
  split_and!.
  - apply strip_entries.
  - rewrite Hdefs. apply add_defs_NoDup. unfold own, _collect_option_defs, _OPTION_DEFS_V4. cbn [List.filter].
    case_bool_decide; [apply NoDup_singleton|constructor].
  - intros n d Hd Hn. rewrite Hdefs. apply add_defs_incl. unfold own, _collect_option_defs.
    apply list_elem_of_fmap_2' with (x := (n, d)); [|done]. apply elem_filter. by rewrite bool_decide_true.
  - intros maps Hb Hent. apply strip_doc_id. intros e He. destruct (Hent e He) as (m & Hm & Hv & Hin).
    destruct (rendered_entry idna_encode m e Hv Hin) as [Hn|(c & kind & Hc & Hk & t & ->)].
    + destruct e; try done. simpl in *. by destruct (int_code _); [rewrite Hn|].
    + simpl. apply bool_decide_eq_true. rewrite Hdefs. apply add_defs_codes.
      * apply (own_defs_has_code (λ n, bool_decide (Some n ∈ _))).
      * rewrite Hb. apply bundle_has_code.
      * apply elem_of_app. right. rewrite Hb. by eapply bundle_codes.
Qed.
End properties.

(** ** Witnesses *)
Definition sample_typed : options := sample_options ++ [("mtu" : str, JStr "1500")].

Lemma validated_options_typed_witness :
  rendered V4 sample_typed ≡ₚ omap (expected V4) sample_typed ∧
  rendered V4 sample_typed =
    [JObj [("name" : str, JStr "domain-name-servers"); ("data", JStr "10.0.0.1, 10.0.0.2"); ("code", JInt 6); ("space", JStr "dhcp4")];
     JObj [("name" : str, JStr "domain-name"); ("data", JStr "Corp.Example."); ("code", JInt 15); ("space", JStr "dhcp4")];
     JObj [("name" : str, JStr "interface-mtu"); ("data", JStr "1500")];
     JObj [("code" : str, JInt 43); ("data", JStr "0102")]].
Proof.
  split; [|vm_compute; reflexivity].
  apply (validated_options_typed (H := no_floats) no_idna V4 sample_typed); [done| |done|].
  - split; [apply (bool_decide_unpack _); vm_compute; reflexivity|vm_compute; reflexivity].
  - intros key value low high Hin Ht. revert key value Hin Ht.
    assert (Hall : forallb (λ '(key, value), match option_type V4 key with Some (Integer _ _) => plain_integer (data_text value) | _ => true end)
      sample_typed = true) by (vm_compute; reflexivity).
    intros key value Hin Ht. pose proof (forallb_elem _ _ _ Hall Hin) as Hb. cbv beta iota in Hb. by rewrite Ht in Hb.
Defined.

(** ** What the check lets through *)

(** [int] reads underscores and signs, and the text goes to Kea as typed, where
    it is no integer. *)
Example underscored_mtu :
  let opts := [("mtu" : str, JStr "1_500")] in
  validate_options (H := no_floats) no_idna Ipv4Family None RAW_CODES_KEA opts = Ok tt ∧
  _options_from_mapping opts = [JObj [("name" : str, JStr "interface-mtu"); ("data", JStr "1_500")]] ∧
  int_of_str "1_500" = Some 1500%Z ∧ kea_integer "1_500" = None ∧ kea_integer "-1500" = Some (-1500)%Z.
Proof. vm_compute. auto. Qed.

(** One scoped address reaches Kea as two items, the second not an address. *)
Example scope_with_comma :
  let opts := [("dns-servers" : str, JArr [JStr "fe80::1%eth0, 7"])] in
  validate_options (H := no_floats) no_idna Ipv6Family None RAW_CODES_KEA opts = Ok tt ∧
  option_map comma_parts (head (_options_from_mapping_v6 opts) ≫= entry_text) = Some ["fe80::1%eth0"; "7"] ∧
  ip_address "7" = None.
Proof. vm_compute. auto. Qed.

(** An option without a value: the agent skips it, the preview renders it. *)
Example unset_in_preview :
  let opts := [("routers" : str, JNull)] in
  validate_options (H := no_floats) no_idna Ipv4Family None RAW_CODES_KEA opts = Ok tt ∧
  _options_from_mapping opts = [] ∧
  _render_option_data false opts = [JObj [("name" : str, JStr "routers"); ("data", JStr "None")]].
Proof. vm_compute. auto. Qed.
End KeaOptions.
